(* ===== verification/_CoqProject ===== *)
-Q . S2P
Prelude.v
Redis.v
Client.v
Kafka.v
Ledger.v
LedgerSpec.v
LedgerRefine.v
LedgerTrace.v
LedgerProps.v
Store.v
StoreProps.v
Workset.v
WorksetProps.v
Watermark.v
WatermarkProps.v
Protocol.v
Fairness.v
Concrete.v
FairnessSpec.v
FairnessCheckout.v
FairnessTrace.v
FairnessProps.v
Forwarder.v
ForwarderProps.v
Control.v
Job.v
JobProps.v
Produce.v
ProduceProps.v
Consumers.v
ConsumersProps.v
SuperFetch.v
SuperFetchProps.v
Events.v
EventsProps.v
Interleave.v
Sql.v
Calendar.v
Cron.v
CronProps.v
CronStore.v
CronStoreProps.v
ScheduleIndex.v
ScheduleIndexProps.v
Poller.v
PollerProps.v
Tenants.v
TenantsProps.v
Reconciler.v
ReconcilerProps.v
Frame.v
Enqueue.v
EnqueueWire.v
EnqueueProps.v
Gates.v
GatesProps.v
Engine.v
EngineProps.v
Loops.v
LoopsProps.v
Alerts.v
AlertsProps.v
DaemonConfig.v
DaemonConfigProps.v
Instrument.v
Boot.v
BootProps.v
Expired.v
ExpiredProps.v
Startup.v
StartupProps.v
Metrics.v
MetricsProps.v
Handlers.v
ReportsProps.v
ClientSetup.v
ClientSetupProps.v
Process.v
ProcessProps.v
