(* ===== verification/Prelude.v ===== *)
(** * kafka-batch: batches of background jobs on Kafka and Redis

    ** The program

    A client creates a batch and pushes jobs into it.  A job is a message of a
    Kafka topic; workers run it and write a completion event; the events
    consumer applies events to the batch's ledger in Redis, and when the last
    job of a sealed batch is done a callback message is written, which the
    callbacks consumer turns into one call of the user's handler.  Around this
    line the program has

    - a weighted fair scheduler in Redis, fed by a dispatcher from the ingest
      topic and emptied by a forwarder to the ready topic, with a table that
      gives each tenant an ingest partition of its own;
    - two executors that run the jobs of a partition side by side: the
      watermark executor, which commits the finished prefix of the offsets,
      and SuperFetch, which commits at once and keeps jobs in flight in a
      working set of Redis that other workers may reclaim;
    - retry tiers and a dead-letter topic, uniqueness locks, cancellation,
      operator-deleted retries and a guard that counts a tenant's failures;
    - delayed jobs (an index in Redis or MySQL drained by pollers), recurring
      schedules (a cron table in MySQL, ticked by whoever holds a lock) and a
      reconciler that looks again at batches that are slow to finish;
    - gates that pause consumption of a topic: priorities and the pause
      controls of an operator.

    ** The files

    The surroundings.  [Redis] is the server: typed keys, the commands the
    program uses, and the monad of its Lua scripts, in which a script that
    fails keeps the writes made before.  [Client] is the go-redis connection: a
    round trip may break after any number of its commands ran, with any number
    of the replies read.  [Kafka] is the log as producers see it; [Sql] the
    MySQL connection.  [Calendar] is Go's civil time.  [Interleave] has
    programs as trees of atomic calls, pools of them, and the rule for
    invariants that hold whatever the others do and wherever a program stops.
    [Frame] has the rules that say which keys an operation leaves alone.
    [Concrete] has the instances of the interfaces (JSON, numbers and times as
    text) that the witnesses run.

    The components, each with its operations in a file of its own and its
    properties in the file [..Props]:

    - [Ledger] (the Lua of pkg/store) with its specification [LedgerSpec], the
      refinement [LedgerRefine] and the sequences of calls [LedgerTrace];
      [Store] (the Go side of pkg/store);
    - [Workset] (pkg/workset), [Watermark] (pkg/daemon/watermark.go),
      [SuperFetch] (pkg/daemon/superfetch.go);
    - [Protocol] (pkg/protocol, pkg/jobexpiry);
    - [Fairness] (pkg/fairness: the scripts and scheduler.go) with its
      specification [FairnessSpec], the rules of a checkout [FairnessCheckout]
      and the histories of a lane [FairnessTrace]; [Forwarder] (forwarder.go,
      dispatcher.go); [Tenants] (tenant_partitions.go);
    - [Control] (pkg/uniq, pkg/cancellation, pkg/retrycancel, pkg/tenantguard),
      [Job] (pkg/control/job, pkg/control/retry), [Produce]
      (pkg/kafkaclient/delivery.go, pkg/daemon/produce.go), [Consumers] (the
      loops of pkg/daemon), [Events] (pkg/control/event, pkg/control/callback);
    - [Cron] and [CronStore] (pkg/cron), [ScheduleIndex] and [Poller]
      (pkg/schedule), [Reconciler] (pkg/reconciler);
    - [Enqueue] (pkg/client), with the wire format in [EnqueueWire];
    - [Gates] (pkg/consumption, pkg/priority and the hook before a poll),
      [Engine] (pkg/daemon/partition_engine.go), [Loops] (the poll loop, its
      watchdog, restarts and health in pkg/daemon), [Alerts] (pkg/alerts);
    - [DaemonConfig] (pkg/config) and [Boot] (worker.Run and daemon.Run up to the
      start of their loops, wiring.go, cron.go and pkg/topics), [Startup] (the
      consumers and loops they start), [ClientSetup] (client.New and the settings of pkg/client);
    - [Expired] (pkg/daemon/expired.go and the wiring of a fair lane);
    - [Instrument] (pkg/instrument, pkg/metrics), [Metrics] (pkg/perfmetrics,
      pkg/liveness), [Handlers] (pkg/kbatch, mysql_failures.go, pkg/dsn) and
      [Process] (process statistics, partitions, the probe, the end of a poll).
    A Lua script is a definition named after its Go variable, with KEYS and
    ARGV as arguments and its reply as the value a [return] gives.  A Go method
    is a function on the world (the keyspace and what the network will do, or
    the logs and what the brokers will do) that gives its results and its
    error, a nil error being [None]; definitions keep the names of the source.
    time.Now, fresh ids and random choices are arguments.

    ** What the theorems show

    - The ledger: the scripts implement the specification, reply and keyspace
      ([batchDoneJob_refines], [sealBatch_refines]); over any sequence of calls
      a batch whose jobs all report finishes, with the right status and each
      callback handed out once ([batch_converges], [all_success_converges],
      [callbacks_at_most_once]); redeliveries change nothing, order does not
      matter, a cancelled batch is frozen, additions reserve disjoint ranges;
      while Redis answers, the Go methods run the script of each event exactly
      once whatever EVALSHA refuses and report exactly what that run replied,
      and they read back what they wrote.
    - Execution: only a finished prefix is committed and the window's slots are
      conserved in every interleaving of the watermark executor; SuperFetch
      and the reclaim never lose a job whatever Redis and Kafka do; the loops
      commit what was handled; the retries of a job that always fails with a
      retryable error are bounded.
    - Fair scheduling: jobs are conserved and limits kept through every history
      of a lane, two busy tenants without caps that start level are served in
      proportion to their weights, the forwarder loses no job, tenants do not share a partition.
    - Time: an expression that is accepted allows exactly the values its fields
      list; the scan of Next gives the first match and ends, in a zone of fixed
      offset; a fire is claimed once per row of the ledger, whose rows go only
      when their job was enqueued; a delayed job is in the index until it was
      dispatched, with any number of pollers interleaved (in MySQL, when job ids
      differ).
    - The client: a batch counts exactly the jobs that reached Kafka, when no
      acknowledgement is lost; a message is decoded to what was encoded, the
      numbers of its payload as float64.
    - The loops: a record-by-record consumer commits an offset only when every
      record below it was handled, over restarts and pauses; the partition engine
      handles batches in order in every interleaving; a paused topic stays paused
      through outages of Redis; a weighted topic gets its turns.
    - Alerts: over any ticks the incident of every fingerprint moves in the store
      as a small machine prescribes, so that fired and resolved notifications
      alternate.
    - Configuration: prefixes are put on every topic once whatever the file and
      the environment say; an accepted manifest gives each topic one runtime; a
      worker that boots runs Go handlers only and no topic of the control plane.
    - Deployments: a worker and a daemon of one configuration consume no topic in
      common and read the topics of the Go handlers, those of the fair lanes, events,
      callbacks and retries between them; what the recurring
      scheduler enqueues goes to a topic one of them consumes, where their
      settings agree on the default topic.
    - Expired jobs: however often its record is delivered, while Redis and Kafka
      answer, an expired job counts once in its batch; the callback of a batch it
      finishes is never invoked.
    - Reports: a subscription disturbs no other; jobs are counted once under
      their type; the probe's sums are exact and read back by the alerts.
    Some theorems prove what the code does where a comment or the intent says
    otherwise: [skipped_offset_blocks_commits], [worker_commits_past_failure],
    [Next_hangs_at_fall_back], and lemmas beside the properties they limit.

    ** Bounds and fuel

    Loops that end on their own data recurse on it, or on fuel equal to its
    length ([chunks], the pages of a listing).  A loop that another party ends
    takes what that party does as a list: the ticks of a forwarder's burst, the
    polls of a consumer, the instants at which a sleeping loop wakes, the
    answers of the broker to each attempt.  [TenantGuard.buckets] has fuel for
    window / 60 + 2 buckets, one more than a window can touch.  The loops of
    pkg/cron have no bound of their own and run under [iterate] for up to 2^22
    minutes (Next), 2^8 values (the masks) and 2^20 fires (advancePast);
    running out is a result of its own, distinct from an answer, and the
    theorems either show that it does not happen or say that it does.

    ** What is not modelled

    - Numbers: counters do not reach the bounds of 64 bits in HINCRBY; float64
      values (weights, virtual times, scores) are exact rationals; a JSON
      integer is its value, not its spelling; int(d.Seconds()) is the integer
      quotient.
    - Text: case and blanks are ASCII's; JSON keys match exactly, where
      encoding/json also accepts another case; %q is not escaped; MySQL names
      compare bytewise.
    - Redis: a key's time to live is recorded and no time passes by itself
      (expiry is a step of the theorems that need it); SCAN is one round trip;
      go-redis's own retries are not repeated; the choice of SPOP is an
      argument.
    - MySQL: a transaction is one point of failure.
    - Time: one reading of the clock per call or sweep, no jitter of polls;
      the tz database is a parameter, a location the list of its changes.
    - Processes: in the partition engine a partition is assigned again only when
      the goroutines that handed over its old batches have ended (the code waits
      for the worker only); the goroutines that renew leases and heartbeats, and performs
      that run between two round trips of a dispatch of SuperFetch (they are
      run after it).
    - Parameters: JSON as text (with the laws the theorems need, and the reading of
      a payload's numbers as float64), the fingerprint of a unique job, uuids, the placement of
      records by the broker, gzip, the handlers of the user.
    - Logs, and the parts of the program listed as not modelled in the manifest:
      the readers of YAML, the connections a process opens, the cipher of the
      alerts' secrets, the commands and the integration harness.  The events of
      the instrumentation are built and read in the models of their own
      ([Instrument], [Metrics], [Alerts]); the other components do not emit them. *)
From stdpp Require Export base tactics list gmap strings numbers sorting.
From Stdlib Require Export ZArith QArith Lia.
From Stdlib Require Import Decimal DecimalString DecimalZ DecimalFacts.
#[export] Set Default Goal Selector "!".

Open Scope Z_scope.

(** ** Decimal integers, as Redis and Go's strconv write them *)

(** [itoa] is [strconv.FormatInt(_, 10)], the text Redis stores for an integer. *)
Definition itoa (z : Z) : string := NilZero.string_of_int (Z.to_int z).

(** [atoi] reads the text of a canonical decimal integer back: Redis refuses
    leading zeros, a plus sign and blanks in HINCRBY and INCRBY. *)
Definition atoi (s : string) : option Z :=
  match NilZero.int_of_string s with
  | Some d => let z := Z.of_int d in if String.eqb (itoa z) s then Some z else None
  | None => None
  end.

Lemma to_int_not_nil (z : Z) : Z.to_int z <> Pos Nil /\ Z.to_int z <> Neg Nil.
Proof.
  destruct z as [|p|p]; split; intros E; try discriminate E; cbn in E; injection E as E;
    pose proof (DecimalPos.Unsigned.to_uint_nonnil p); congruence.
Qed.

Lemma atoi_itoa (z : Z) : atoi (itoa z) = Some z.
Proof.
  unfold atoi, itoa. destruct (to_int_not_nil z) as [H1 H2].
  rewrite NilZero.isi by assumption.
  rewrite DecimalZ.of_to. by rewrite String.eqb_refl.
Qed.

(** ** strconv.ParseInt(s, 10, 64) *)

Definition maxInt64 : Z := 2 ^ 63 - 1.
Definition minInt64 : Z := - 2 ^ 63.

(** Two's complement: the value Go's 64-bit integers wrap to. *)
Definition int64 (z : Z) : Z := (z + 2 ^ 63) mod 2 ^ 64 - 2 ^ 63.

Lemma int64_id z : minInt64 <= z <= maxInt64 -> int64 z = z.
Proof. unfold minInt64, maxInt64, int64. intros H. rewrite Z.mod_small; lia. Qed.

Definition digit (c : Ascii.ascii) : option Z :=
  let n := Z.of_N (Ascii.N_of_ascii c) in
  if (48 <=? n) && (n <=? 57) then Some (n - 48) else None.

(** Every character must be a digit; [acc] is the value read so far. *)
Fixpoint digits (s : string) (acc : Z) : option Z :=
  match s with
  | EmptyString => Some acc
  | String c s => match digit c with Some d => digits s (10 * acc + d) | None => None end
  end.

Definition is_char (n : N) (c : Ascii.ascii) : bool := N.eqb (Ascii.N_of_ascii c) n.

(** The value and whether the error is nil: a syntax error gives 0, a value out
    of range gives the nearest int64. *)
Definition parseInt (s : string) : Z * bool :=
  let '(neg, body) :=
    match s with
    | String c r => if is_char 45 c then (true, r) else if is_char 43 c then (false, r)
                    else (false, s)
    | EmptyString => (false, s)
    end in
  match body with
  | EmptyString => (0, false)
  | _ => match digits body 0 with
         | None => (0, false)
         | Some v => let v := if (neg : bool) then - v else v in
                     if v <? minInt64 then (minInt64, false)
                     else if maxInt64 <? v then (maxInt64, false) else (v, true)
         end
  end.

Lemma digits_uint_acc (d : uint) (p : positive) :
  digits (NilEmpty.string_of_uint d) (Z.pos p) = Some (Z.pos (Pos.of_uint_acc d p)).
Proof.
  revert p. induction d as [|d IH|d IH|d IH|d IH|d IH|d IH|d IH|d IH|d IH|d IH]; intros p;
    [done | ..]; cbn [NilEmpty.string_of_uint digits Pos.of_uint_acc]; cbv beta iota delta [digit];
    cbn -[Z.mul Z.add Pos.mul Pos.add digits]; rewrite <- IH; f_equal; lia.
Qed.

Lemma digits_uint (d : uint) :
  digits (NilEmpty.string_of_uint d) 0 = Some (Z.of_N (Pos.of_uint d)).
Proof.
  induction d as [|d IH|d IH|d IH|d IH|d IH|d IH|d IH|d IH|d IH|d IH]; [done | exact IH | ..];
    apply digits_uint_acc.
Qed.

Lemma string_of_uint_first (d : uint) :
  d <> Nil -> exists c r, NilEmpty.string_of_uint d = String c r
                     /\ is_char 45 c = false /\ is_char 43 c = false.
Proof. destruct d; intros H; try done; cbn; eauto. Qed.

Lemma parseInt_uint (d : uint) :
  d <> Nil -> Z.of_N (Pos.of_uint d) <= maxInt64 ->
  parseInt (NilEmpty.string_of_uint d) = (Z.of_N (Pos.of_uint d), true) /\
  parseInt (String (Ascii.ascii_of_N 45) (NilEmpty.string_of_uint d)) = (- Z.of_N (Pos.of_uint d), true).
Proof.
  intros Hd Hr. pose proof (digits_uint d) as Hu.
  destruct (string_of_uint_first d Hd) as (c & r & E & H1 & H2).
  unfold parseInt, minInt64, maxInt64 in *. rewrite E in *. rewrite H1, H2.
  replace (is_char 45 (Ascii.ascii_of_N 45)) with true by reflexivity.
  rewrite Hu. pose proof (N2Z.is_nonneg (Pos.of_uint d)). split.
  - destruct (Z.ltb_spec (Z.of_N (Pos.of_uint d)) (- 2 ^ 63)); [lia |].
    destruct (Z.ltb_spec (2 ^ 63 - 1) (Z.of_N (Pos.of_uint d))); [lia | done].
  - destruct (Z.ltb_spec (- Z.of_N (Pos.of_uint d)) (- 2 ^ 63)); [lia |].
    destruct (Z.ltb_spec (2 ^ 63 - 1) (- Z.of_N (Pos.of_uint d))); [lia | done].
Qed.

Lemma nilzero_nonnil (d : uint) :
  d <> Nil -> NilZero.string_of_uint d = NilEmpty.string_of_uint d.
Proof. by destruct d. Qed.

(** Parsing what FormatInt wrote gives the integer back. *)
Lemma parseInt_itoa (z : Z) : - maxInt64 <= z <= maxInt64 -> parseInt (itoa z) = (z, true).
Proof.
  intros Hz. unfold itoa. destruct z as [|p|p]; [reflexivity | |];
    cbn [Z.to_int NilZero.string_of_int];
    pose proof (DecimalPos.Unsigned.to_uint_nonnil p) as Hp; rewrite nilzero_nonnil by done;
    destruct (parseInt_uint (Pos.to_uint p) Hp) as [H1 H2];
    rewrite ?DecimalPos.Unsigned.of_to; cbn [Z.of_N]; try lia.
  - by rewrite H1, DecimalPos.Unsigned.of_to.
  - etransitivity; [exact H2 |]. by rewrite DecimalPos.Unsigned.of_to.
Qed.

(** ** Lists *)

Lemma take_elem_of {A} (x : A) n l : x ∈ take n l → x ∈ l.
Proof. intros (i & Hi & _)%elem_of_take. by eapply list_elem_of_lookup_2. Qed.
