(* ===== verification/Redis.v ===== *)
(** The part of Redis the program's Lua scripts and pipelines use.

    A keyspace maps a key to a typed value and, beside it, the last time to
    live given to the key by EXPIRE or SET ... EX.  A script is a command over
    the keyspace in a small monad: it goes on with a value, returns early with
    a reply (Lua's [return]) or fails (a Redis error, which keeps the writes
    made before it).  Each command below is one [redis.call]. *)
From S2P Require Import Prelude.
From Stdlib Require Import Lqa.

(** ** Values and the keyspace *)

(** A bitmap is the set of the positions whose bit is 1; the key may exist
    with no bit set. *)
Inductive rval :=
| RString (v : string)
| RInt (z : Z)
| RBits (b : gset Z)
| RHash (h : gmap string string)
| RZset (z : gmap string Q)
| RSet (x : gset string)
| RList (l : list string).

Record redis := mkRedis { kdb : gmap string rval; kttl : gmap string Z }.

Definition empty_redis : redis := mkRedis ∅ ∅.

(** [put] keeps the key's time to live, [del_key] drops it with the key. *)
Definition put (k : string) (v : rval) (s : redis) : redis :=
  mkRedis (<[k := v]> (kdb s)) (kttl s).

Definition del_key (k : string) (s : redis) : redis :=
  mkRedis (delete k (kdb s)) (delete k (kttl s)).

Definition set_ttl (k : string) (t : Z) (s : redis) : redis :=
  mkRedis (kdb s) (<[k := t]> (kttl s)).

Definition has_key (s : redis) (k : string) : bool := bool_decide (is_Some (kdb s !! k)).

Definition expire (k : string) (t : Z) (s : redis) : redis :=
  if has_key s k then set_ttl k t s else s.

(** Typed reads: a missing key reads as the empty value, a key of another type
    is Redis's WRONGTYPE error ([None]). *)
Definition get_hash (s : redis) (k : string) : option (gmap string string) :=
  match kdb s !! k with None => Some ∅ | Some (RHash h) => Some h | Some _ => None end.

Definition get_bits (s : redis) (k : string) : option (gset Z) :=
  match kdb s !! k with None => Some ∅ | Some (RBits b) => Some b | Some _ => None end.

Definition get_zset (s : redis) (k : string) : option (gmap string Q) :=
  match kdb s !! k with None => Some ∅ | Some (RZset z) => Some z | Some _ => None end.

Definition get_set (s : redis) (k : string) : option (gset string) :=
  match kdb s !! k with None => Some ∅ | Some (RSet x) => Some x | Some _ => None end.

Definition get_list (s : redis) (k : string) : option (list string) :=
  match kdb s !! k with None => Some [] | Some (RList l) => Some l | Some _ => None end.

Definition get_int (s : redis) (k : string) : option Z :=
  match kdb s !! k with None => Some 0 | Some (RInt z) => Some z | Some _ => None end.

Definition get_string (s : redis) (k : string) : option (option string) :=
  match kdb s !! k with
  | None => Some None
  | Some (RString v) => Some (Some v)
  | Some (RInt z) => Some (Some (itoa z))
  | Some _ => None
  end.

(** Typed writes: Redis deletes an aggregate key with its last element. *)
Definition put_hash (k : string) (h : gmap string string) (s : redis) : redis :=
  if decide (h = ∅) then del_key k s else put k (RHash h) s.

Definition put_zset (k : string) (z : gmap string Q) (s : redis) : redis :=
  if decide (dom z = (∅ : gset string)) then del_key k s else put k (RZset z) s.

Definition put_set (k : string) (x : gset string) (s : redis) : redis :=
  if decide (x = ∅) then del_key k s else put k (RSet x) s.

Definition put_list (k : string) (l : list string) (s : redis) : redis :=
  if decide (l = []) then del_key k s else put k (RList l) s.

(** ** The script monad *)

Inductive flow (R A : Type) :=
| Next (a : A)
| Return (r : R)
| Fail (e : string).
Arguments Next {R A} a.
Arguments Return {R A} r.
Arguments Fail {R A} e.

Definition script (R A : Type) : Type := redis -> redis * flow R A.

#[export] Instance script_ret R : MRet (script R) := fun A a s => (s, Next a).

#[export] Instance script_bind R : MBind (script R) := fun A B k m s =>
  match m s with
  | (s', Next a) => k a s'
  | (s', Return r) => (s', Return r)
  | (s', Fail e) => (s', Fail e)
  end.

(** Lua's [return r], which ends the script from any depth. *)
Definition lua_return {R A} (r : R) : script R A := fun s => (s, Return r).

Definition when {R} (b : bool) (m : script R unit) : script R unit :=
  if b then m else mret tt.

Definition wrongtype {R A} : script R A := fun s =>
  (s, Fail "WRONGTYPE Operation against a key holding the wrong kind of value").

(** [lift] turns a typed read into a command. *)
Definition lift {R A B} (get : redis -> option A) (k : A -> script R B) : script R B :=
  fun s => match get s with Some a => k a s | None => wrongtype s end.

Definition modify {R} (f : redis -> redis) : script R unit := fun s => (f s, Next tt).

(** What a finished script replies; a script that falls off its end replies
    nil, which no script of the program does. *)
Definition run {R A} (m : script R A) (s : redis) : redis * option R :=
  match m s with
  | (s', Return r) => (s', Some r)
  | (s', _) => (s', None)
  end.

(** ** Commands *)

Section commands.
Context {R : Type}.
Implicit Types (k f v m : string).

Definition EXISTS k : script R bool := fun s => (s, Next (has_key s k)).

Definition EXPIRE k (t : Z) : script R unit := modify (expire k t).

Definition DEL k : script R unit := modify (del_key k).

(** Strings.  [SET] replaces the value and the time to live. *)
Definition GET k : script R (option string) :=
  lift (fun s => get_string s k) (fun o => mret o).

Definition SET_EX k v (t : Z) : script R unit :=
  modify (fun s => set_ttl k t (put k (RString v) (del_key k s))).

Definition SET_NX_EX k v (t : Z) : script R bool := fun s =>
  if has_key s k then (s, Next false)
  else (set_ttl k t (put k (RString v) s), Next true).

Definition INCRBY k (d : Z) : script R Z :=
  lift (fun s => get_int s k) (fun z s => (put k (RInt (z + d)) s, Next (z + d))).

(** Bitmaps. *)
Definition GETBIT k (i : Z) : script R bool :=
  lift (fun s => get_bits s k) (fun b => mret (bool_decide (i ∈ b))).

Definition SETBIT k (i : Z) (on : bool) : script R unit :=
  lift (fun s => get_bits s k)
    (fun b => modify (put k (RBits (if on then {[i]} ∪ b else b ∖ {[i]})))).

(** Hashes. *)
Definition HGET k f : script R (option string) :=
  lift (fun s => get_hash s k) (fun h => mret (h !! f)).

Definition HSET k f v : script R unit :=
  lift (fun s => get_hash s k) (fun h => modify (put_hash k (<[f := v]> h))).

Definition HSETNX k f v : script R bool :=
  lift (fun s => get_hash s k) (fun h =>
    match h !! f with
    | Some _ => mret false
    | None => fun s => (put_hash k (<[f := v]> h) s, Next true)
    end).

Definition HMSET k (l : list (string * string)) : script R unit :=
  lift (fun s => get_hash s k)
    (fun h => modify (put_hash k (foldl (fun h p => <[p.1 := p.2]> h) h l))).

Definition HINCRBY k f (d : Z) : script R unit :=
  lift (fun s => get_hash s k) (fun h s =>
    match h !! f with
    | None => (put_hash k (<[f := itoa d]> h) s, Next tt)
    | Some v =>
        match atoi v with
        | Some z => (put_hash k (<[f := itoa (z + d)]> h) s, Next tt)
        | None => (s, Fail "ERR hash value is not an integer")
        end
    end).

Definition HDEL k f : script R unit :=
  lift (fun s => get_hash s k) (fun h => modify (put_hash k (delete f h))).

Definition HEXISTS k f : script R bool :=
  lift (fun s => get_hash s k) (fun h => mret (bool_decide (is_Some (h !! f)))).

Definition HLEN k : script R Z :=
  lift (fun s => get_hash s k) (fun h => mret (Z.of_nat (size h))).

(** SCAN over the keys with a prefix, every page of it. *)
Definition SCAN (prefix : string) : script R (list string) := fun s =>
  (s, Next (filter (λ k, String.prefix prefix k = true) (map_to_list (kdb s)).*1)).

(** Sets. *)
Definition SADD k m : script R unit :=
  lift (fun s => get_set s k) (fun x => modify (put_set k ({[m]} ∪ x))).

Definition SREM k m : script R unit :=
  lift (fun s => get_set s k) (fun x => modify (put_set k (x ∖ {[m]}))).

Definition SISMEMBER k m : script R bool :=
  lift (fun s => get_set s k) (fun x => mret (bool_decide (m ∈ x))).

(** Sorted sets, ordered by score and then by member. *)
Definition ZADD k (score : Q) m : script R unit :=
  lift (fun s => get_zset s k) (fun z => modify (put_zset k (<[m := score]> z))).

(** ZADD XX only moves a member that is there. *)
Definition ZADD_XX k (score : Q) m : script R unit :=
  lift (fun s => get_zset s k) (fun z =>
    modify (match z !! m with Some _ => put_zset k (<[m := score]> z) | None => fun s => s end)).

Definition ZREM k m : script R bool :=
  lift (fun s => get_zset s k) (fun z s =>
    (put_zset k (delete m z) s, Next (bool_decide (is_Some (z !! m))))).

Definition ZSCORE k m : script R (option Q) :=
  lift (fun s => get_zset s k) (fun z => mret (z !! m)).

Definition ZCARD k : script R Z :=
  lift (fun s => get_zset s k) (fun z => mret (Z.of_nat (size z))).

(** Members in the order Redis lists them. *)
Definition zset_le (p q : string * Q) : Prop :=
  match Qcompare p.2 q.2 with
  | Lt => True
  | Gt => False
  | Eq => String.leb p.1 q.1 = true
  end.

#[local] Instance zset_le_dec p q : Decision (zset_le p q).
Proof. unfold zset_le. destruct (Qcompare p.2 q.2); apply _. Defined.

Definition zset_sorted (z : gmap string Q) : list (string * Q) :=
  merge_sort zset_le (map_to_list z).

(** A score interval: [None] is -inf below and +inf above; the flag says
    whether the bound is exclusive (written with a parenthesis). *)
Record zrange := ZRange { zr_min : option (bool * Q); zr_max : option (bool * Q) }.

Definition in_zrange (r : zrange) (q : Q) : bool :=
  match zr_min r with
  | None => true
  | Some (ex, lo) => if (ex : bool) then negb (Qle_bool q lo) else Qle_bool lo q
  end &&
  match zr_max r with
  | None => true
  | Some (ex, hi) => if (ex : bool) then negb (Qle_bool hi q) else Qle_bool q hi
  end.

Definition zrange_members (r : zrange) (z : gmap string Q) : list (string * Q) :=
  filter (λ p, in_zrange r p.2 = true) (zset_sorted z).

Definition ZRANGEBYSCORE k (r : zrange) : script R (list string) :=
  lift (fun s => get_zset s k) (fun z => mret ((zrange_members r z).*1)).

(** ZRANGEBYSCORE ... LIMIT 0 n. *)
Definition ZRANGEBYSCORE_LIMIT k (r : zrange) (n : nat) : script R (list string) :=
  lift (fun s => get_zset s k) (fun z => mret (take n (zrange_members r z).*1)).

Definition ZCOUNT k (r : zrange) : script R Z :=
  lift (fun s => get_zset s k) (fun z => mret (Z.of_nat (length (zrange_members r z)))).

Definition ZREMRANGEBYSCORE k (r : zrange) : script R unit :=
  lift (fun s => get_zset s k)
    (fun z => modify (put_zset k (filter (λ p, in_zrange r p.2 = false) z))).

(** ZRANGE k 0 (n-1) WITHSCORES. *)
Definition ZRANGE_HEAD k (n : nat) : script R (list (string * Q)) :=
  lift (fun s => get_zset s k) (fun z => mret (take n (zset_sorted z))).

Definition ZRANGE_ALL k : script R (list string) :=
  lift (fun s => get_zset s k) (fun z => mret ((zset_sorted z).*1)).

Definition HGETALL k : script R (gmap string string) :=
  lift (fun s => get_hash s k) (fun h => mret h).

(** RENAME moves the value and its time to live; a missing source is an error. *)
Definition RENAME k k' : script R unit := fun s =>
  match kdb s !! k with
  | None => (s, Fail "ERR no such key")
  | Some v =>
      let s1 := del_key k' (del_key k s) in
      let s2 := put k' v s1 in
      (match kttl s !! k with Some t => set_ttl k' t s2 | None => s2 end, Next tt)
  end.

(** Lists. *)
Definition LLEN k : script R Z :=
  lift (fun s => get_list s k) (fun l => mret (Z.of_nat (length l))).

Definition RPUSH k v : script R unit :=
  lift (fun s => get_list s k) (fun l => modify (put_list k (l ++ [v]))).

Definition LPOP k : script R (option string) :=
  lift (fun s => get_list s k) (fun l =>
    match l with
    | [] => mret None
    | v :: l' => fun s => (put_list k l' s, Next (Some v))
    end).
End commands.

(** ** The order of a sorted set *)

Lemma string_leb_trans a b c :
  String.leb a b = true → String.leb b c = true → String.leb a c = true.
Proof.
  unfold String.leb. revert b c. induction a as [|x a IH]; intros [|y b] [|z c]; cbn; try done.
  unfold Ascii.compare. specialize (IH b c).
  destruct (N.compare_spec (Ascii.N_of_ascii x) (Ascii.N_of_ascii y)) as [Exy|Hxy|Hxy],
    (N.compare_spec (Ascii.N_of_ascii y) (Ascii.N_of_ascii z)) as [Eyz|Hyz|Hyz]; try done;
    destruct (N.compare_spec (Ascii.N_of_ascii x) (Ascii.N_of_ascii z)) as [Exz|Hxz|Hxz];
    try done; try lia.
Qed.

#[export] Instance zset_le_trans : Transitive zset_le.
Proof.
  intros [m p] [n q] [o r]. unfold zset_le. cbn.
  destruct (Qcompare_spec p q), (Qcompare_spec q r), (Qcompare_spec p r); try done;
    try (eauto using string_leb_trans; fail); intros; exfalso; lra.
Qed.

#[export] Instance zset_le_total : Total zset_le.
Proof.
  intros [m p] [n q]. unfold zset_le. cbn.
  destruct (Qcompare_spec p q), (Qcompare_spec q p); auto; try (exfalso; lra).
  destruct (String.leb_total m n); auto.
Qed.

Lemma zset_sorted_elem (z : gmap string Q) t q : (t, q) ∈ zset_sorted z ↔ z !! t = Some q.
Proof. unfold zset_sorted. rewrite merge_sort_Permutation. by rewrite elem_of_map_to_list. Qed.

Lemma zset_le_score p q : zset_le p q → (p.2 <= q.2)%Q.
Proof. unfold zset_le. destruct (Qcompare_spec p.2 q.2); intros; [lra | lra | done]. Qed.

(** A member that is not listed before another has at least its score. *)
Lemma zset_sorted_order (z : gmap string Q) pre t q post u r :
  zset_sorted z = pre ++ (t, q) :: post → z !! u = Some r → (u, r) ∉ pre → (q <= r)%Q.
Proof.
  intros E Hu Hn. apply zset_sorted_elem in Hu. rewrite E in Hu.
  assert (StronglySorted zset_le (zset_sorted z)) as Hs.
  { apply StronglySorted_merge_sort; apply _. }
  rewrite E in Hs. apply StronglySorted_app_1_r in Hs.
  apply elem_of_app in Hu as [?|Hu]; [done |].
  apply elem_of_cons in Hu as [[= -> ->]|Hu]; [lra |].
  inversion Hs as [|? ? _ Hall]; subst. rewrite Forall_forall in Hall.
  by apply Hall, zset_le_score in Hu.
Qed.

(** ** Reads after writes *)

Section keyspace.
Implicit Types (s : redis) (k : string).

Lemma kdb_put_ne k k' v s : k ≠ k' → kdb (put k v s) !! k' = kdb s !! k'.
Proof. intros H. cbn. by rewrite lookup_insert_ne. Qed.

Lemma kdb_del_ne k k' s : k ≠ k' → kdb (del_key k s) !! k' = kdb s !! k'.
Proof. intros H. cbn. by rewrite lookup_delete_ne. Qed.

Lemma kdb_put_hash_ne k k' h s : k ≠ k' → kdb (put_hash k h s) !! k' = kdb s !! k'.
Proof. intros H. unfold put_hash. case_decide; auto using kdb_put_ne, kdb_del_ne. Qed.

Lemma kdb_put_zset_ne k k' z s : k ≠ k' → kdb (put_zset k z s) !! k' = kdb s !! k'.
Proof. intros H. unfold put_zset. case_decide; auto using kdb_put_ne, kdb_del_ne. Qed.

Lemma kdb_put_set_ne k k' x s : k ≠ k' → kdb (put_set k x s) !! k' = kdb s !! k'.
Proof. intros H. unfold put_set. case_decide; auto using kdb_put_ne, kdb_del_ne. Qed.

Lemma kdb_put_list_ne k k' l s : k ≠ k' → kdb (put_list k l s) !! k' = kdb s !! k'.
Proof. intros H. unfold put_list. case_decide; auto using kdb_put_ne, kdb_del_ne. Qed.

Lemma get_hash_put_hash k h s : get_hash (put_hash k h s) k = Some h.
Proof.
  unfold get_hash, put_hash. case_decide; cbn.
  - by rewrite lookup_delete_eq, H.
  - by rewrite lookup_insert_eq.
Qed.

Lemma get_zset_put_zset k z s : get_zset (put_zset k z s) k = Some z.
Proof.
  unfold get_zset, put_zset. case_decide as H; cbn.
  - rewrite lookup_delete_eq. f_equal. symmetry. by apply dom_empty_inv_L in H.
  - by rewrite lookup_insert_eq.
Qed.

Lemma get_set_put_set k x s : get_set (put_set k x s) k = Some x.
Proof.
  unfold get_set, put_set. case_decide; cbn.
  - by rewrite lookup_delete_eq, H.
  - by rewrite lookup_insert_eq.
Qed.

Lemma get_list_put_list k l s : get_list (put_list k l s) k = Some l.
Proof.
  unfold get_list, put_list. case_decide; cbn.
  - by rewrite lookup_delete_eq, H.
  - by rewrite lookup_insert_eq.
Qed.

Lemma get_bits_put k b s : get_bits (put k (RBits b) s) k = Some b.
Proof. unfold get_bits. cbn. by rewrite lookup_insert_eq. Qed.

Lemma has_key_put_hash k h s : h ≠ ∅ → has_key (put_hash k h s) k = true.
Proof.
  intros Hh. unfold has_key, put_hash. rewrite decide_False by done. cbn.
  rewrite lookup_insert_eq. by apply bool_decide_eq_true_2.
Qed.

Lemma get_hash_has_key k h s : get_hash s k = Some h → h ≠ ∅ → has_key s k = true.
Proof.
  unfold get_hash, has_key. intros E Hh. destruct (kdb s !! k) eqn:Ek.
  - by apply bool_decide_eq_true_2.
  - congruence.
Qed.

Lemma get_bits_has_key k b s : get_bits s k = Some b → b ≠ ∅ → has_key s k = true.
Proof.
  unfold get_bits, has_key. intros E Hh. destruct (kdb s !! k) eqn:Ek.
  - by apply bool_decide_eq_true_2.
  - congruence.
Qed.
End keyspace.

(** Two keyspaces that agree at a key agree on every typed read of it. *)
Definition same_at (k : string) (s s' : redis) : Prop := kdb s !! k = kdb s' !! k.

Section same_at.
Context (k : string) (s s' : redis) (E : same_at k s s').

Lemma same_get_hash : get_hash s k = get_hash s' k.
Proof. unfold get_hash. by rewrite E. Qed.
Lemma same_get_bits : get_bits s k = get_bits s' k.
Proof. unfold get_bits. by rewrite E. Qed.
Lemma same_get_zset : get_zset s k = get_zset s' k.
Proof. unfold get_zset. by rewrite E. Qed.
Lemma same_get_set : get_set s k = get_set s' k.
Proof. unfold get_set. by rewrite E. Qed.
Lemma same_get_list : get_list s k = get_list s' k.
Proof. unfold get_list. by rewrite E. Qed.
Lemma same_get_int : get_int s k = get_int s' k.
Proof. unfold get_int. by rewrite E. Qed.
Lemma same_get_string : get_string s k = get_string s' k.
Proof. unfold get_string. by rewrite E. Qed.
Lemma same_has_key : has_key s k = has_key s' k.
Proof. unfold has_key. by rewrite E. Qed.
End same_at.

Lemma kdb_expire k t s : kdb (expire k t s) = kdb s.
Proof. unfold expire. by destruct (has_key s k). Qed.

(** [reads] pushes the typed reads of the goal through the writes below them.
    Distinct keys come from the context or from the hint database [keys]. *)
Create HintDb keys.

(** Keys built from one id with different prefixes differ in length or in a
    character of the prefix. *)
Ltac key_ne :=
  let E := fresh in
  intros E; first [ discriminate E | apply (f_equal String.length) in E; lazy in E; lia ].

#[export] Hint Extern 1 (_ ≠ _) => key_ne : keys.

Ltac distinct := solve [ assumption | (apply not_eq_sym; assumption) | auto with keys nocore ].

Ltac same_solve :=
  unfold same_at;
  first
    [ by rewrite kdb_expire
    | reflexivity
    | apply kdb_put_hash_ne; distinct
    | apply kdb_put_zset_ne; distinct
    | apply kdb_put_set_ne; distinct
    | apply kdb_put_list_ne; distinct
    | apply kdb_put_ne; distinct
    | apply kdb_del_ne; distinct ].

Ltac state_below t :=
  lazymatch t with
  | expire _ _ ?s => s
  | set_ttl _ _ ?s => s
  | put _ _ ?s => s
  | put_hash _ _ ?s => s
  | put_zset _ _ ?s => s
  | put_set _ _ ?s => s
  | put_list _ _ ?s => s
  | del_key _ ?s => s
  end.

Ltac read_step :=
  match goal with
  | |- context [get_hash (put_hash ?k ?h ?s) ?k] => rewrite (get_hash_put_hash k h s)
  | |- context [get_zset (put_zset ?k ?h ?s) ?k] => rewrite (get_zset_put_zset k h s)
  | |- context [get_set (put_set ?k ?h ?s) ?k] => rewrite (get_set_put_set k h s)
  | |- context [get_list (put_list ?k ?h ?s) ?k] => rewrite (get_list_put_list k h s)
  | |- context [get_bits (put ?k (RBits ?b) ?s) ?k] => rewrite (get_bits_put k b s)
  | |- context [get_hash ?t ?k] =>
      let s := state_below t in rewrite (same_get_hash k t s) by same_solve
  | |- context [get_bits ?t ?k] =>
      let s := state_below t in rewrite (same_get_bits k t s) by same_solve
  | |- context [get_zset ?t ?k] =>
      let s := state_below t in rewrite (same_get_zset k t s) by same_solve
  | |- context [get_set ?t ?k] =>
      let s := state_below t in rewrite (same_get_set k t s) by same_solve
  | |- context [get_list ?t ?k] =>
      let s := state_below t in rewrite (same_get_list k t s) by same_solve
  | |- context [get_int ?t ?k] =>
      let s := state_below t in rewrite (same_get_int k t s) by same_solve
  | |- context [get_string ?t ?k] =>
      let s := state_below t in rewrite (same_get_string k t s) by same_solve
  | |- context [has_key ?t ?k] =>
      let s := state_below t in rewrite (same_has_key k t s) by same_solve
  end.

Ltac reads := repeat read_step.

(** ** Reasoning about scripts *)

(** [wp m s Q]: running [m] from [s] ends in a state and an outcome in [Q]. *)
Definition wp {R A} (m : script R A) (s : redis) (Q : redis -> flow R A -> Prop) : Prop :=
  let '(s', f) := m s in Q s' f.

(** Outcomes of a finished script: it returned, and did not fail. *)
Definition returns {R A} (P : redis -> R -> Prop) (s : redis) (f : flow R A) : Prop :=
  match f with Return r => P s r | _ => False end.

Section wp.
Context {R A : Type}.
Implicit Types (s : redis) (Q : redis -> flow R A -> Prop).

Lemma wp_run (m : script R A) s P :
  wp m s (returns P) → ∃ s' r, run m s = (s', Some r) ∧ P s' r.
Proof. unfold wp, run, returns. destruct (m s) as [s' []]; naive_solver. Qed.

Lemma wp_mono (m : script R A) s Q Q' :
  (∀ s' f, Q s' f → Q' s' f) → wp m s Q → wp m s Q'.
Proof. unfold wp. destruct (m s). auto. Qed.

Lemma wp_bind {B} (m : script R B) (k : B -> script R A) s Q :
  wp m s (λ s' f, match f with
                  | Next a => wp (k a) s' Q
                  | Return r => Q s' (Return r)
                  | Fail e => Q s' (Fail e)
                  end) →
  wp (m ≫= k) s Q.
Proof. unfold wp, mbind, script_bind. by destruct (m s) as [s' []]. Qed.

Lemma wp_lift {B} (get : redis -> option B) (k : B -> script R A) s Q a :
  get s = Some a → wp (k a) s Q → wp (lift get k) s Q.
Proof. unfold wp, lift. by intros ->. Qed.

Lemma wp_ret (a : A) s Q : Q s (Next a) → wp (mret a) s Q.
Proof. done. Qed.

Lemma wp_return (r : R) s Q : Q s (Return r) → wp (lua_return r) s Q.
Proof. done. Qed.
End wp.

(** One rule per command, for the commands the proofs step through. *)
Section rules.
Context {R : Type}.
Implicit Types (s : redis) (k f v m : string).

Lemma wp_when (b : bool) (p : script R unit) s Q :
  (b = true → wp p s Q) → (b = false → Q s (Next tt)) → wp (when b p) s Q.
Proof. destruct b; cbn; auto. Qed.

Lemma wp_EXISTS k s (Q : redis → flow R bool → Prop) :
  Q s (Next (has_key s k)) → wp (EXISTS k) s Q.
Proof. done. Qed.

Lemma wp_EXPIRE k t s (Q : redis → flow R unit → Prop) :
  Q (expire k t s) (Next tt) → wp (EXPIRE k t) s Q.
Proof. done. Qed.

Lemma wp_DEL k s (Q : redis → flow R unit → Prop) :
  Q (del_key k s) (Next tt) → wp (DEL k) s Q.
Proof. done. Qed.

Lemma wp_GET k o s (Q : redis → flow R (option string) → Prop) :
  get_string s k = Some o → Q s (Next o) → wp (GET k) s Q.
Proof. intros E H. by eapply wp_lift. Qed.

Lemma wp_GETBIT k i b s (Q : redis → flow R bool → Prop) :
  get_bits s k = Some b → Q s (Next (bool_decide (i ∈ b))) → wp (GETBIT k i) s Q.
Proof. intros E H. by eapply wp_lift. Qed.

Lemma wp_SETBIT k i on b s (Q : redis → flow R unit → Prop) :
  get_bits s k = Some b →
  Q (put k (RBits (if (on : bool) then {[i]} ∪ b else b ∖ {[i]})) s) (Next tt) →
  wp (SETBIT k i on) s Q.
Proof. intros E H. by eapply wp_lift. Qed.

Lemma wp_HGET k f h s (Q : redis → flow R (option string) → Prop) :
  get_hash s k = Some h → Q s (Next (h !! f)) → wp (HGET k f) s Q.
Proof. intros E H. by eapply wp_lift. Qed.

Lemma wp_HSET k f v h s (Q : redis → flow R unit → Prop) :
  get_hash s k = Some h → Q (put_hash k (<[f := v]> h) s) (Next tt) → wp (HSET k f v) s Q.
Proof. intros E H. by eapply wp_lift. Qed.

Lemma wp_HSETNX k f v h s (Q : redis → flow R bool → Prop) :
  get_hash s k = Some h →
  (∀ w, h !! f = Some w → Q s (Next false)) →
  (h !! f = None → Q (put_hash k (<[f := v]> h) s) (Next true)) →
  wp (HSETNX k f v) s Q.
Proof.
  intros E H1 H2. eapply wp_lift; [exact E |].
  destruct (h !! f) eqn:Ef; [by eapply H1 | by apply H2].
Qed.

Lemma wp_HINCRBY k f d z h s (Q : redis → flow R unit → Prop) :
  get_hash s k = Some h →
  (h !! f = Some (itoa z) ∨ h !! f = None ∧ z = 0) →
  Q (put_hash k (<[f := itoa (z + d)]> h) s) (Next tt) →
  wp (HINCRBY k f d) s Q.
Proof.
  intros E [Hf | [Hf ->]] H; (eapply wp_lift; [exact E |]); unfold wp; rewrite Hf.
  - by rewrite atoi_itoa.
  - done.
Qed.

Lemma wp_ZREM k m z s (Q : redis → flow R bool → Prop) :
  get_zset s k = Some z →
  Q (put_zset k (delete m z) s) (Next (bool_decide (is_Some (z !! m)))) →
  wp (ZREM k m) s Q.
Proof. intros E H. by eapply wp_lift. Qed.

Lemma wp_ZADD k q m z s (Q : redis → flow R unit → Prop) :
  get_zset s k = Some z → Q (put_zset k (<[m := q]> z) s) (Next tt) → wp (ZADD k q m) s Q.
Proof. intros E H. by eapply wp_lift. Qed.

Lemma wp_SADD k m x s (Q : redis → flow R unit → Prop) :
  get_set s k = Some x → Q (put_set k ({[m]} ∪ x) s) (Next tt) → wp (SADD k m) s Q.
Proof. intros E H. by eapply wp_lift. Qed.

Lemma wp_SREM k m x s (Q : redis → flow R unit → Prop) :
  get_set s k = Some x → Q (put_set k (x ∖ {[m]}) s) (Next tt) → wp (SREM k m) s Q.
Proof. intros E H. by eapply wp_lift. Qed.

Lemma wp_INCRBY k d z s (Q : redis → flow R Z → Prop) :
  get_int s k = Some z → Q (put k (RInt (z + d)) s) (Next (z + d)) → wp (INCRBY k d) s Q.
Proof. intros E H. by eapply wp_lift. Qed.

Lemma wp_HDEL k f h s (Q : redis → flow R unit → Prop) :
  get_hash s k = Some h → Q (put_hash k (delete f h) s) (Next tt) → wp (HDEL k f) s Q.
Proof. intros E H. by eapply wp_lift. Qed.

Lemma wp_HEXISTS k f h s (Q : redis → flow R bool → Prop) :
  get_hash s k = Some h → Q s (Next (bool_decide (is_Some (h !! f)))) → wp (HEXISTS k f) s Q.
Proof. intros E H. by eapply wp_lift. Qed.

Lemma wp_HLEN k h s (Q : redis → flow R Z → Prop) :
  get_hash s k = Some h → Q s (Next (Z.of_nat (size h))) → wp (HLEN k) s Q.
Proof. intros E H. by eapply wp_lift. Qed.

Lemma wp_ZSCORE k m z s (Q : redis → flow R (option Q) → Prop) :
  get_zset s k = Some z → Q s (Next (z !! m)) → wp (ZSCORE k m) s Q.
Proof. intros E H. by eapply wp_lift. Qed.

Lemma wp_ZCARD k z s (Q : redis → flow R Z → Prop) :
  get_zset s k = Some z → Q s (Next (Z.of_nat (size z))) → wp (ZCARD k) s Q.
Proof. intros E H. by eapply wp_lift. Qed.

Lemma wp_ZCOUNT k r z s (Q : redis → flow R Z → Prop) :
  get_zset s k = Some z →
  Q s (Next (Z.of_nat (length (zrange_members r z)))) → wp (ZCOUNT k r) s Q.
Proof. intros E H. by eapply wp_lift. Qed.

Lemma wp_ZREMRANGEBYSCORE k r z s (Q : redis → flow R unit → Prop) :
  get_zset s k = Some z →
  Q (put_zset k (filter (λ p, in_zrange r p.2 = false) z) s) (Next tt) →
  wp (ZREMRANGEBYSCORE k r) s Q.
Proof. intros E H. by eapply wp_lift. Qed.

Lemma wp_ZRANGE_HEAD k n z s (Q : redis → flow R (list (string * Q)) → Prop) :
  get_zset s k = Some z → Q s (Next (take n (zset_sorted z))) → wp (ZRANGE_HEAD k n) s Q.
Proof. intros E H. by eapply wp_lift. Qed.

Lemma wp_LLEN k l s (Q : redis → flow R Z → Prop) :
  get_list s k = Some l → Q s (Next (Z.of_nat (length l))) → wp (LLEN k) s Q.
Proof. intros E H. by eapply wp_lift. Qed.

Lemma wp_RPUSH k v l s (Q : redis → flow R unit → Prop) :
  get_list s k = Some l → Q (put_list k (l ++ [v]) s) (Next tt) → wp (RPUSH k v) s Q.
Proof. intros E H. by eapply wp_lift. Qed.

Lemma wp_LPOP k l s (Q : redis → flow R (option string) → Prop) :
  get_list s k = Some l →
  (l = [] → Q s (Next None)) →
  (∀ v l', l = v :: l' → Q (put_list k l' s) (Next (Some v))) →
  wp (LPOP k) s Q.
Proof.
  intros E H1 H2. eapply wp_lift; [exact E |]. destruct l; [by apply H1 | by eapply H2].
Qed.
End rules.

(** [step] runs one command of a script symbolically; reads of the current
    state are found in the context.  It stops at case distinctions ([when],
    [if], HSETNX, LPOP) and at HINCRBY, whose counter the proof names. *)
Ltac known := reads; first [reflexivity | eassumption].

Ltac step :=
  lazymatch goal with
  | |- wp (mbind _ _) _ _ => apply wp_bind
  | |- wp (mret _) _ _ => apply wp_ret
  | |- wp (lua_return _) _ _ => apply wp_return
  | |- wp (EXISTS _) _ _ => apply wp_EXISTS
  | |- wp (EXPIRE _ _) _ _ => apply wp_EXPIRE
  | |- wp (DEL _) _ _ => apply wp_DEL
  | |- wp (GET _) _ _ => eapply wp_GET; [known |]
  | |- wp (GETBIT _ _) _ _ => eapply wp_GETBIT; [known |]
  | |- wp (SETBIT _ _ _) _ _ => eapply wp_SETBIT; [known |]
  | |- wp (HGET _ _) _ _ => eapply wp_HGET; [known |]
  | |- wp (HSET _ _ _) _ _ => eapply wp_HSET; [known |]
  | |- wp (ZREM _ _) _ _ => eapply wp_ZREM; [known |]
  | |- wp (ZADD _ _ _) _ _ => eapply wp_ZADD; [known |]
  | |- wp (SADD _ _) _ _ => eapply wp_SADD; [known |]
  | |- wp (SREM _ _) _ _ => eapply wp_SREM; [known |]
  | |- wp (INCRBY _ _) _ _ => eapply wp_INCRBY; [known |]
  | |- wp (HDEL _ _) _ _ => eapply wp_HDEL; [known |]
  | |- wp (HEXISTS _ _) _ _ => eapply wp_HEXISTS; [known |]
  | |- wp (HLEN _) _ _ => eapply wp_HLEN; [known |]
  | |- wp (ZSCORE _ _) _ _ => eapply wp_ZSCORE; [known |]
  | |- wp (ZCARD _) _ _ => eapply wp_ZCARD; [known |]
  | |- wp (ZCOUNT _ _) _ _ => eapply wp_ZCOUNT; [known |]
  | |- wp (ZREMRANGEBYSCORE _ _) _ _ => eapply wp_ZREMRANGEBYSCORE; [known |]
  | |- wp (ZRANGE_HEAD _ _) _ _ => eapply wp_ZRANGE_HEAD; [known |]
  | |- wp (LLEN _) _ _ => eapply wp_LLEN; [known |]
  | |- wp (RPUSH _ _) _ _ => eapply wp_RPUSH; [known |]
  end; cbv beta iota.

Ltac steps := repeat step.
