(* ===== verification/Client.v ===== *)
(** The go-redis client as the program uses it.

    A round trip sends one command, one script or one pipeline and gives back
    a result for each command.  The network is part of the world: a round trip
    either completes, or the connection breaks after the server has run the first
    [ran] of its commands and the client has read the first [got] of their
    replies ([Lost 0 0] never reached the server).  Go functions are functions on the
    world that return their values and their error, as in the source. *)
From S2P Require Import Prelude Redis.

Definition error : Type := option string.   (* Go's error; nil is None *)

Definition networkError : string := "connection lost".

Inductive fault := Fine | Lost (ran got : nat).

Record world := World { w_db : redis; w_net : list fault }.

Definition io (A : Type) : Type := world -> world * A.

#[export] Instance io_ret : MRet io := fun A a w => (w, a).
#[export] Instance io_bind : MBind io := fun A B k m w => let '(w', a) := m w in k a w'.

(** The outcome of one command of a round trip. *)
Inductive result (A : Type) := Ok (a : A) | Bad (e : string).
Arguments Ok {A} a.
Arguments Bad {A} e.

Definition cmd (A : Type) : Type := redis -> redis * result A.

(** A plain command, or a script invoked through Script.Run (EVALSHA with the
    EVAL fallback, one logical round trip). *)
Definition command {A} (m : script A A) : cmd A := fun s =>
  match m s with
  | (s', Next a) => (s', Ok a)
  | (s', Return r) => (s', Ok r)
  | (s', Fail e) => (s', Bad e)
  end.

Definition call {R A} (m : script R A) : cmd R := fun s =>
  match run m s with
  | (s', Some r) => (s', Ok r)
  | (s', None) => (s', Bad "script error")
  end.

(** The commands of a pipeline run in order; one that fails does not stop the
    others. *)
Fixpoint run_cmds {A} (cs : list (cmd A)) (s : redis) : redis * list (result A) :=
  match cs with
  | [] => (s, [])
  | c :: cs =>
      let '(s1, r) := c s in
      let '(s2, rs) := run_cmds cs s1 in (s2, r :: rs)
  end.

(** [Pipeline.Exec]: the result of every command, in order; a command whose
    reply was lost has the network's error.  [Exec]'s own error is that of the
    first command that has one, [first_error]. *)
Definition pipeline {A} (cs : list (cmd A)) : io (list (result A)) := fun w =>
  match w_net w with
  | Lost ran got :: net =>
      let '(s, rs) := run_cmds (take ran cs) (w_db w) in
      let rs := take got rs in
      (World s net, rs ++ replicate (length cs - length rs) (Bad networkError))
  | net =>
      let '(s, rs) := run_cmds cs (w_db w) in (World s (tail net), rs)
  end.

Fixpoint first_error {A} (rs : list (result A)) : error :=
  match rs with
  | [] => None
  | Ok _ :: rs => first_error rs
  | Bad e :: _ => Some e
  end.

(** A round trip of one command. *)
Definition do {A} (c : cmd A) : io (result A) := fun w =>
  let '(w', rs) := pipeline [c] w in (w', default (Bad networkError) (head rs)).

(** ** EVALSHA pipelines *)

Definition noscriptError : string := "NOSCRIPT No matching script. Please use EVAL.".

(** [redis.HasErrorPrefix(err, "NOSCRIPT")]. *)
Definition is_noscript (e : string) : bool := String.prefix "NOSCRIPT" e.

Definition refused {A} (r : result A) : bool :=
  match r with Bad e => is_noscript e | Ok _ => false end.

(** The pipeline a server sees that does not have the script cached for the
    commands marked in [missing]: those are refused without running. *)
Fixpoint refuse {A} (missing : list bool) (cs : list (cmd A)) : list (cmd A) :=
  match cs with
  | [] => []
  | c :: cs =>
      (if default false (head missing) then fun db => (db, Bad noscriptError) else c)
      :: refuse (tail missing) cs
  end.

(** The commands to send again with EVAL, in order. *)
Fixpoint again {B A} (cs : list B) (rs : list (result A)) : list B :=
  match cs, rs with
  | c :: cs, r :: rs => if refused r then c :: again cs rs else again cs rs
  | _, _ => []
  end.

(** [cmds[i] = rcmds[j]] for the j-th refused command i. *)
Fixpoint patch {A} (rs retried : list (result A)) : list (result A) :=
  match rs with
  | [] => []
  | r :: rs =>
      if refused r then
        match retried with
        | r' :: retried => r' :: patch rs retried
        | [] => r :: patch rs []
        end
      else r :: patch rs retried
  end.

(** A world whose next round trips all complete. *)
Definition quiet (w : world) : Prop := Forall (λ f, f = Fine) (w_net w).

Lemma pipeline_quiet {A} (cs : list (cmd A)) w :
  quiet w →
  ∃ net, pipeline cs w = (World (run_cmds cs (w_db w)).1 net, (run_cmds cs (w_db w)).2)
       ∧ Forall (λ f, f = Fine) net.
Proof.
  unfold quiet, pipeline. intros H. destruct (w_net w) as [|f net].
  - exists []. by destruct (run_cmds cs (w_db w)).
  - inversion H; subst. exists net. by destruct (run_cmds cs (w_db w)).
Qed.

Lemma do_quiet {A} (c : cmd A) w :
  quiet w →
  ∃ net, do c w = (World (c (w_db w)).1 net, (c (w_db w)).2) ∧ Forall (λ f, f = Fine) net.
Proof.
  intros H. unfold do. destruct (pipeline_quiet [c] w H) as (net & -> & Hn). exists net.
  cbn. destruct (c (w_db w)) as [s r]. by cbn.
Qed.

Lemma run_cmds_app {A} (cs ds : list (cmd A)) s :
  run_cmds (cs ++ ds) s =
  ((run_cmds ds (run_cmds cs s).1).1, (run_cmds cs s).2 ++ (run_cmds ds (run_cmds cs s).1).2).
Proof.
  revert s. induction cs as [|c cs IH]; intros s; cbn.
  - by destruct (run_cmds ds s).
  - destruct (c s) as [s1 r]. rewrite IH. by destruct (run_cmds cs s1).
Qed.

Lemma run_cmds_length {A} (cs : list (cmd A)) s : length (run_cmds cs s).2 = length cs.
Proof.
  revert s. induction cs as [|c cs IH]; intros s; cbn; [done |].
  destruct (c s) as [s1 r]. specialize (IH s1). destruct (run_cmds cs s1). cbn in *. lia.
Qed.

(** Whatever the network does, a round trip ran its command or not, and a reply
    it reports is the command's own. *)
Lemma do_cases {A} (c : cmd A) w :
  let '(w', r) := do c w in
  (w_db w' = w_db w ∧ ∃ e, r = Bad e)
  ∨ (w_db w' = (c (w_db w)).1 ∧ (r = (c (w_db w)).2 ∨ ∃ e, r = Bad e)).
Proof.
  unfold do, pipeline. destruct (w_net w) as [|[|ran got] net]; cbn.
  - destruct (c (w_db w)). cbn. auto.
  - destruct (c (w_db w)). cbn. auto.
  - destruct ran as [|[|ran]]; cbn; [left; destruct got; cbn; eauto | ..];
      destruct (c (w_db w)) as [s r]; right; destruct got as [|[|got]]; cbn; eauto.
Qed.

Lemma do_ok {A} (c : cmd A) w w' a :
  do c w = (w', Ok a) → w_db w' = (c (w_db w)).1 ∧ (c (w_db w)).2 = Ok a.
Proof.
  intros E. pose proof (do_cases c w) as H. rewrite E in H.
  destruct H as [[_ [e [=]]] | [H [-> | [e [=]]]]]; done.
Qed.

(** A command that leaves a key alone does so through the network. *)
Lemma do_frame {A} (c : cmd A) w k :
  kdb (c (w_db w)).1 !! k = kdb (w_db w) !! k → kdb (w_db (do c w).1) !! k = kdb (w_db w) !! k.
Proof.
  intros H. pose proof (do_cases c w) as Hd. destruct (do c w) as [w' r]. cbn.
  destruct Hd as [[-> _] | [-> _]]; auto.
Qed.
