(* ===== verification/Kafka.v ===== *)
(** Kafka as the program's producers see it.

    The log of a topic only grows.  A produce is acknowledged, refused (nothing
    was written) or left unknown (written, but the acknowledgement was lost):
    the last two both give the caller an error. *)
From S2P Require Import Prelude Redis Client.

Record message := Msg { m_topic : string; m_key : string; m_payload : string }.

#[export] Instance message_eq_dec : EqDecision message.
Proof. solve_decision. Defined.

Inductive delivery := Acked | Refused | Unknown.

Record system := System { sys : world; k_log : list message; k_net : list delivery }.

Definition kio (A : Type) : Type := system -> system * A.

#[export] Instance kio_ret : MRet kio := fun A a s => (s, a).
#[export] Instance kio_bind : MBind kio := fun A B k m s => let '(s', a) := m s in k a s'.

Definition redis_io {A} (m : io A) : kio A := fun s =>
  let '(w, a) := m (sys s) in (System w (k_log s) (k_net s), a).

Definition produceError : string := "kafka: produce failed".

Definition Produce (topic key payload : string) : kio error := fun s =>
  match k_net s with
  | Refused :: net => (System (sys s) (k_log s) net, Some produceError)
  | Unknown :: net =>
      (System (sys s) (k_log s ++ [Msg topic key payload]) net, Some produceError)
  | net => (System (sys s) (k_log s ++ [Msg topic key payload]) (tail net), None)
  end.

(** A system whose next Redis round trips and produces all succeed. *)
Definition calm (s : system) : Prop :=
  quiet (sys s) ∧ Forall (λ d, d = Acked) (k_net s).

Lemma Produce_calm t k p s :
  calm s → ∃ net, Produce t k p s = (System (sys s) (k_log s ++ [Msg t k p]) net, None)
                  ∧ Forall (λ d, d = Acked) net.
Proof.
  intros [_ H]. unfold Produce. destruct (k_net s) as [|d net].
  - by exists [].
  - inversion H; subst. by exists net.
Qed.
