(* ===== verification/Ledger.v ===== *)
(** The batch ledger: pkg/store/lua.go, redis.go, produce.go, cancel.go,
    batch_parse.go and reconciler.go.

    A batch is a hash (counters, status, claim stamps) with three bitmaps over
    its job sequence numbers (touched, succeeded, failed) and a sequence
    allocator; the running, done, all and cancelled indexes and the counts hash
    are shared by every batch.  Each Lua script is one script of [Redis], with
    KEYS as its leading arguments and ARGV after them; numbers the Go callers
    format into ARGV are integers here. *)
From S2P Require Import Prelude Redis.

(** ** Keys *)

Definition keyPrefix : string := "kafka_batch:b".
Definition runningIndex : string := "kafka_batch:index:running".
Definition doneIndex : string := "kafka_batch:index:done".
Definition allIndex : string := "kafka_batch:index:all".
Definition countsKey : string := "kafka_batch:counts".
Definition cancelledIndex : string := "kafka_batch:index:cancelled".
Definition reconcilerLockKey : string := "kafka_batch:b:reconciler_lock".

Definition batchKey (id : string) : string := (keyPrefix +:+ ":" +:+ id)%string.
Definition bitmapKey (id : string) : string := (keyPrefix +:+ ":bitmap:" +:+ id)%string.
Definition okBitmapKey (id : string) : string := (keyPrefix +:+ ":okbit:" +:+ id)%string.
Definition failBitmapKey (id : string) : string := (keyPrefix +:+ ":failbit:" +:+ id)%string.
Definition seqKey (id : string) : string := (keyPrefix +:+ ":seq:" +:+ id)%string.

(** Lua's [tonumber(x) or 0] on a hash field. *)
Definition tonum (o : option string) : Z :=
  match o with Some v => default 0 (atoi v) | None => 0 end.

(** Lua's [x and x ~= ''] on a hash field. *)
Definition nonblank (o : option string) : bool :=
  match o with Some v => negb (String.eqb v "") | None => false end.

Definition holds (o : option string) (v : string) : bool :=
  match o with Some w => String.eqb w v | None => false end.

(** [status == 'success' or status == 'complete']. *)
Definition finished (status : option string) : bool :=
  holds status "success" || holds status "complete".

Definition reply : Type := Z * string.

(** ** batchDoneJobLua *)

Module BatchDone.
Section keys.
Context (K1 K2 K3 K4 K5 K6 K7 K8 : string).

(** Lines 16-42: argument checks, existence, cancellation and the late-event
    guard; returns the status read. *)
Definition guard (seq : Z) (op : string) : script reply (option string) :=
  when (seq <? 1) (lua_return (0, "invalid"));;
  when (negb (String.eqb op "success" || String.eqb op "failed" || String.eqb op "executed"))
    (lua_return (0, "invalid"));;
  ex ← EXISTS K1;
  when (negb ex) (lua_return (0, "not_found"));;
  status ← HGET K1 "status";
  when (holds status "cancelled") (lua_return (0, "duplicate"));;
  bitmap ← EXISTS K2;
  when (finished status && negb bitmap) (lua_return (0, "duplicate"));;
  mret status.

(** Lines 53-60: the first execution of a seq; returns [touched_new]. *)
Definition touch (bit : Z) (op : string) (eff_ttl : Z) : script reply bool :=
  b ← GETBIT K2 bit;
  if negb b then
    SETBIT K2 bit true;;
    EXPIRE K2 eff_ttl;;
    HINCRBY K1 "touched_count" 1;;
    mret true
  else
    when (String.eqb op "executed") (lua_return (0, "duplicate"));;
    mret false.

(** Lines 62-88: success and failure bitmaps; returns [success_new] and
    [failed_new]. *)
Definition apply_op (bit : Z) (op : string) (eff_ttl : Z) (touched_new : bool)
    : script reply (bool * bool) :=
  if String.eqb op "success" then
    b ← GETBIT K6 bit;
    if negb b then
      SETBIT K6 bit true;;
      EXPIRE K6 eff_ttl;;
      HINCRBY K1 "completed_count" 1;;
      f ← GETBIT K7 bit;
      when f (SETBIT K7 bit false;; HINCRBY K1 "failed_count" (-1));;
      mret (true, false)
    else
      when (negb touched_new) (lua_return (0, "duplicate"));;
      mret (false, false)
  else if String.eqb op "failed" then
    f ← GETBIT K7 bit;
    b ← GETBIT K6 bit;
    if negb f && negb b then
      SETBIT K7 bit true;;
      EXPIRE K7 eff_ttl;;
      HINCRBY K1 "failed_count" 1;;
      mret (false, true)
    else
      when (negb touched_new) (lua_return (0, "duplicate"));;
      mret (false, false)
  else mret (false, false).

(** Lines 111-115: the terminal status the counters call for. *)
Definition terminal (total completed failed : Z) : option string :=
  if total <=? completed then Some "success"
  else if total <=? completed + failed then Some "complete"
  else None.

(** Lines 118-141: leave the running index with the terminal status. *)
Definition finish (term now : string) (score : Q) (finished_ttl : Z) : script reply unit :=
  cur ← HGET K1 "status";
  when (holds cur "running")
    (HSET K1 "status" term;;
     HSET K1 "finished_at" now;;
     batch_id ← HGET K1 "id";
     match batch_id with
     | Some b => ZREM K3 b;; ZADD K4 score b
     | None => mret tt
     end;;
     HINCRBY K5 "running" (-1);;
     HINCRBY K5 term 1;;
     EXPIRE K1 finished_ttl;;
     EXPIRE K2 finished_ttl;;
     EXPIRE K6 finished_ttl;;
     EXPIRE K7 finished_ttl;;
     when (negb (String.eqb K8 "")) (EXPIRE K8 finished_ttl)).

(** Lines 142-145 and 150-153: claim the on_complete callback. *)
Definition claim_complete (now : string) : script reply bool :=
  won ← HSETNX K1 "complete_callback_dispatched_at" now;
  if (won : bool) then HSETNX K1 "callback_dispatched_at" now;; mret true
  else mret false.

(** Lines 96-168: read the counters, finish the batch if they say so, claim
    the callbacks and reply. *)
Definition conclude (now : string) (score : Q) (eff_ttl finished_ttl : Z)
    : script reply unit :=
  EXPIRE K1 eff_ttl;;
  total_s ← HGET K1 "total_jobs";
  touched_s ← HGET K1 "touched_count";
  completed_s ← HGET K1 "completed_count";
  failed_s ← HGET K1 "failed_count";
  sealed ← HGET K1 "locked_at";
  let total := tonum total_s in
  when (negb (nonblank sealed) || (total <? 1)) (lua_return (2, "continue"));;
  match terminal total (tonum completed_s) (tonum failed_s) with
  | Some term =>
      finish term now score finished_ttl;;
      fire_complete ← claim_complete now;
      fire_success ← (if String.eqb term "success"
                      then HSETNX K1 "success_callback_dispatched_at" now
                      else mret false);
      lua_return
        (if (fire_success : bool) && (fire_complete : bool) then (1, "success")
         else if fire_success then (1, "success_only")
         else if fire_complete then (1, "complete")
         else (2, "continue"))
  | None =>
      fire_complete ← (if total <=? tonum touched_s then claim_complete now else mret false);
      lua_return (if (fire_complete : bool) then (3, "complete") else (2, "continue"))
  end.

(** The whole script: ARGV is seq, op, ttl, now, score, finished_ttl. *)
Definition batchDoneJob (seq : Z) (op : string) (ttl : Z) (now : string) (score : Q)
    (argv6 : Z) : script reply unit :=
  status ← guard seq op;
  let bit := seq - 1 in
  let finished_ttl := if argv6 <? 1 then ttl else argv6 in
  let eff_ttl := if finished status then finished_ttl else ttl in
  touched_new ← touch bit op eff_ttl;
  news ← apply_op bit op eff_ttl touched_new;
  when (finished status && negb (touched_new || news.1 || news.2))
    (lua_return (0, "duplicate"));;
  conclude now score eff_ttl finished_ttl.

End keys.
End BatchDone.

(** ** sealBatchLua *)

Module Seal.
Section keys.
Context (K1 K2 K3 K4 K5 K6 K7 : string).

(** Lines 254-270: stamp locked_at and pre-size the three bitmaps. *)
Definition lock (now : string) (ttl : Z) : script reply (option string) :=
  ex ← EXISTS K1;
  when (negb ex) (lua_return (0, "not_found"));;
  status ← HGET K1 "status";
  sealed ← HGET K1 "locked_at";
  when (negb (nonblank sealed)) (HSET K1 "locked_at" now);;
  EXPIRE K1 ttl;;
  total_s ← HGET K1 "total_jobs";
  let total := tonum total_s in
  when (0 <? total)
    (SETBIT K5 total false;; EXPIRE K5 ttl;;
     SETBIT K6 total false;; EXPIRE K6 ttl;;
     SETBIT K7 total false;; EXPIRE K7 ttl);;
  mret status.

Definition terminal (total completed failed : Z) : option string :=
  if total =? 0 then Some "success"
  else if total <=? completed then Some "success"
  else if total <=? completed + failed then Some "complete"
  else None.

(** Lines 289-297. *)
Definition finish (term now : string) (score : Q) : script reply unit :=
  HSET K1 "status" term;;
  HSET K1 "finished_at" now;;
  HINCRBY K2 "running" (-1);;
  HINCRBY K2 term 1;;
  batch_id ← HGET K1 "id";
  match batch_id with
  | Some b => ZREM K3 b;; ZADD K4 score b
  | None => mret tt
  end.

Definition sealBatch (now : string) (ttl : Z) (score : Q) : script reply unit :=
  status ← lock now ttl;
  when (holds status "running")
    (total_s ← HGET K1 "total_jobs";
     touched_s ← HGET K1 "touched_count";
     completed_s ← HGET K1 "completed_count";
     failed_s ← HGET K1 "failed_count";
     let total := tonum total_s in
     match terminal total (tonum completed_s) (tonum failed_s) with
     | Some term =>
         finish term now score;;
         fire_complete ← BatchDone.claim_complete K1 now;
         fire_success ← (if String.eqb term "success"
                         then HSETNX K1 "success_callback_dispatched_at" now
                         else mret false);
         lua_return
           (if (fire_success : bool) && (fire_complete : bool) then (1, "success")
            else if fire_success then (1, "success_only")
            else if fire_complete then (1, "complete")
            else (2, "sealed"))
     | None =>
         when ((total <=? tonum touched_s) && (0 <? total))
           (fire ← BatchDone.claim_complete K1 now;
            when fire (lua_return (3, "complete")))
     end);;
  lua_return (2, "sealed").

End keys.
End Seal.

(** ** The other scripts of lua.go and cancel.go *)

Definition createBatch (K1 id total on_success on_complete meta now : string) (ttl : Z)
    (locked_at description tenant_id callback_args : string) : script Z unit :=
  created ← HSETNX K1 "id" id;
  when (negb created) (lua_return 0);;
  HMSET K1
    [("total_jobs", total); ("completed_count", "0"); ("failed_count", "0");
     ("touched_count", "0"); ("status", "running"); ("on_success", on_success);
     ("on_complete", on_complete); ("meta", meta); ("created_at", now);
     ("locked_at", locked_at); ("description", description); ("tenant_id", tenant_id);
     ("callback_args", callback_args)];;
  EXPIRE K1 ttl;;
  lua_return 1.

(** addJobsLua replies an integer, or a table with the reserved range. *)
Inductive add_reply := AddCode (code : Z) | AddRange (code seq_start seq_end : Z).

Definition addJobs (K1 K2 : string) (n ttl : Z) : script add_reply unit :=
  ex ← EXISTS K1;
  when (negb ex) (lua_return (AddCode 0));;
  status ← HGET K1 "status";
  when (holds status "cancelled") (lua_return (AddCode 2));;
  when (finished status) (lua_return (AddCode 3));;
  dispatched ← HGET K1 "callback_dispatched_at";
  when (nonblank dispatched) (lua_return (AddCode 3));;
  HINCRBY K1 "total_jobs" n;;
  EXPIRE K1 ttl;;
  when (0 <? n)
    (seq_end ← INCRBY K2 n;
     EXPIRE K2 ttl;;
     lua_return (AddRange 1 (seq_end - n + 1) seq_end));;
  lua_return (AddCode 1).

Definition claim_field (kind : string) : string :=
  if String.eqb kind "complete" then "complete_callback_dispatched_at"
  else if String.eqb kind "success" then "success_callback_dispatched_at"
  else "callback_dispatched_at".

Definition claimCallback (K1 K2 now node id kind : string) : script Z unit :=
  ex ← EXISTS K1;
  when (negb ex) (lua_return 0);;
  won ← HSETNX K1 (claim_field kind) now;
  when won
    (when (negb (String.eqb node "")) (HSET K1 "callback_dispatched_by" node);;
     HSETNX K1 "callback_dispatched_at" now;;
     ZREM K2 id;;
     mret tt);;
  lua_return (if (won : bool) then 1 else 0).

Definition invokeCallback (K1 field now : string) : script Z unit :=
  ex ← EXISTS K1;
  when (negb ex) (lua_return 1);;
  won ← HSETNX K1 field now;
  lua_return (if (won : bool) then 1 else 0).

Definition recordCallbackRunner (K1 node : string) : script Z unit :=
  ex ← EXISTS K1;
  when (negb ex) (lua_return 0);;
  when (String.eqb node "") (lua_return 0);;
  HSET K1 "callback_dispatched_by" node;;
  lua_return 1.

Definition acquireLock (K1 token : string) (ttl : Z) : script bool unit :=
  ok ← SET_NX_EX K1 token ttl;
  lua_return ok.

Definition releaseLock (K1 token : string) : script Z unit :=
  cur ← GET K1;
  when (holds cur token) (DEL K1;; lua_return 1);;
  lua_return 0.

Definition markFinishedIfRunning (K1 K2 K3 K4 outcome now : string) (score : Q) (id : string)
    : script Z unit :=
  ex ← EXISTS K1;
  when (negb ex) (lua_return 0);;
  status ← HGET K1 "status";
  when (negb (holds status "running")) (lua_return 0);;
  HSET K1 "status" outcome;;
  HSET K1 "finished_at" now;;
  ZREM K3 id;;
  ZADD K4 score id;;
  HINCRBY K2 "running" (-1);;
  HINCRBY K2 outcome 1;;
  lua_return 1.

Definition terminal_status (v : string) : bool :=
  String.eqb v "success" || String.eqb v "complete" || String.eqb v "cancelled".

Definition updateStatus (K1 K2 K3 K4 new id : string) (score : Q) : script Z unit :=
  ex ← EXISTS K1;
  when (negb ex) (lua_return 0);;
  old_s ← HGET K1 "status";
  let old := default "" old_s in
  when (String.eqb old new) (lua_return 2);;
  when (terminal_status old) (lua_return 3);;
  HSET K1 "status" new;;
  when (terminal_status new) (ZREM K3 id;; mret tt);;
  when (negb (String.eqb old "")) (HINCRBY K2 old (-1));;
  HINCRBY K2 new 1;;
  when (String.eqb new "cancelled") (ZADD K4 score id);;
  lua_return 1.
