(* ===== verification/LedgerSpec.v ===== *)
(** What the batch ledger promises, without Redis.

    A batch is three sets of job positions (touched, succeeded, failed), a
    total, a status and its callback claims; the counters of the Redis hash
    are the sizes of the sets.  [record], [seal], [add_jobs] and [cancel] are
    the operations; LedgerRefine shows that the Lua scripts implement them. *)
From S2P Require Import Prelude Redis Ledger.

Record batch := Batch {
  b_status : string;
  b_total : Z;
  b_sealed : bool;
  b_touched : gset Z;
  b_ok : gset Z;
  b_failed : gset Z;
  b_complete : bool;   (* on_complete claimed *)
  b_success : bool;    (* on_success claimed *)
  b_any : bool         (* some callback dispatched *)
}.

(** The number of elements of a set, as the ledger counts. *)
Definition card (X : gset Z) : Z := Z.of_nat (size X).

Definition b_finished (b : batch) : bool := finished (Some (b_status b)).

Definition mark (op : string) (bit : Z) (b : batch) : batch :=
  let ok := if String.eqb op "success" then {[bit]} ∪ b_ok b else b_ok b in
  let failed :=
    if String.eqb op "success" then b_failed b ∖ {[bit]}
    else if String.eqb op "failed" then {[bit]} ∪ b_failed b else b_failed b in
  Batch (b_status b) (b_total b) (b_sealed b) ({[bit]} ∪ b_touched b) ok failed
    (b_complete b) (b_success b) (b_any b).

(** What an event adds to a batch: a success is news until the job succeeded,
    a failure until it succeeded or failed, an execution until it was touched. *)
Definition news (op : string) (bit : Z) (b : batch) : bool :=
  if String.eqb op "success" then bool_decide (bit ∉ b_ok b)
  else if String.eqb op "failed" then bool_decide (bit ∉ b_ok b ∪ b_failed b)
  else bool_decide (bit ∉ b_touched b).

Definition claim_complete (b : batch) : batch :=
  Batch (b_status b) (b_total b) (b_sealed b) (b_touched b) (b_ok b) (b_failed b)
    true (b_success b) (b_any b || negb (b_complete b)).

Definition claim_success (b : batch) : batch :=
  Batch (b_status b) (b_total b) (b_sealed b) (b_touched b) (b_ok b) (b_failed b)
    (b_complete b) true (b_any b).

Definition set_status (st : string) (b : batch) : batch :=
  Batch st (b_total b) (b_sealed b) (b_touched b) (b_ok b) (b_failed b)
    (b_complete b) (b_success b) (b_any b).

Definition set_sealed (b : batch) : batch :=
  Batch (b_status b) (b_total b) true (b_touched b) (b_ok b) (b_failed b)
    (b_complete b) (b_success b) (b_any b).

(** The batch reaches a terminal status: status, claims and reply. *)
Definition finish_with (term : string) (none : reply) (b : batch) : reply * batch :=
  let b1 := if String.eqb (b_status b) "running" then set_status term b else b in
  let fire_complete := negb (b_complete b) in
  let fire_success := String.eqb term "success" && negb (b_success b) in
  ((if fire_success && fire_complete then (1, "success")
    else if fire_success then (1, "success_only")
    else if fire_complete then (1, "complete")
    else none),
   (if String.eqb term "success" then claim_success (claim_complete b1)
    else claim_complete b1)).

(** Every job touched, some still retrying: on_complete fires early. *)
Definition early (none : reply) (b : batch) : reply * batch :=
  if (b_total b <=? card (b_touched b)) && negb (b_complete b)
  then ((3, "complete"), claim_complete b) else (none, b).

Definition conclude (b : batch) : reply * batch :=
  if negb (b_sealed b) || (b_total b <? 1) then ((2, "continue"), b)
  else match BatchDone.terminal (b_total b) (card (b_ok b)) (card (b_failed b)) with
       | Some term => finish_with term (2, "continue") b
       | None => early (2, "continue") b
       end.

Definition valid_op (op : string) : bool :=
  String.eqb op "success" || String.eqb op "failed" || String.eqb op "executed".

Definition record (seq : Z) (op : string) (b : batch) : reply * batch :=
  if (seq <? 1) || negb (valid_op op) then ((0, "invalid"), b)
  else if String.eqb (b_status b) "cancelled" then ((0, "duplicate"), b)
  else if negb (news op (seq - 1) b) then ((0, "duplicate"), b)
  else conclude (mark op (seq - 1) b).

Definition seal (b : batch) : reply * batch :=
  let b := set_sealed b in
  if negb (String.eqb (b_status b) "running") then ((2, "sealed"), b)
  else match Seal.terminal (b_total b) (card (b_ok b)) (card (b_failed b)) with
       | Some term => finish_with term (2, "sealed") b
       | None => if 0 <? b_total b then early (2, "sealed") b else ((2, "sealed"), b)
       end.

Definition add_jobs (n : Z) (b : batch) : bool * batch :=
  if String.eqb (b_status b) "cancelled" || b_finished b || b_any b then (false, b)
  else (true, Batch (b_status b) (b_total b + n) (b_sealed b) (b_touched b) (b_ok b)
          (b_failed b) (b_complete b) (b_success b) (b_any b)).

Definition cancel (b : batch) : batch :=
  if terminal_status (b_status b) then b else set_status "cancelled" b.

(** ClaimCallback with kind complete, success or any. *)
Definition claim (kind : string) (b : batch) : bool * batch :=
  let c := String.eqb kind "complete" in
  let s := negb c && String.eqb kind "success" in
  let had := if c then b_complete b else if s then b_success b else b_any b in
  (negb had,
   if had then b
   else Batch (b_status b) (b_total b) (b_sealed b) (b_touched b) (b_ok b) (b_failed b)
          (c || b_complete b) (s || b_success b) true).

Definition fresh_batch (total : Z) (sealed : bool) : batch :=
  Batch "running" total sealed ∅ ∅ ∅ false false false.

(** ** The invariant of a batch *)

Record wf (b : batch) : Prop := {
  wf_disjoint : b_ok b ## b_failed b;
  wf_touched : b_ok b ∪ b_failed b ⊆ b_touched b;
  wf_range : ∀ i, i ∈ b_touched b → 0 <= i < b_total b
}.
