(* ===== verification/LedgerRefine.v ===== *)
(** The Lua scripts of the batch ledger implement [LedgerSpec].

    [abs s id b]: the keys of batch [id] in the keyspace [s] hold the batch
    [b].  Each script, run from a keyspace that holds a well-formed batch,
    returns (it does not fail) with the reply of the specification and leaves
    a keyspace that holds the specified batch. *)
From S2P Require Import Prelude Redis Ledger LedgerSpec.

(** ** The abstraction relation *)

(** Every value of the counts hash is a decimal integer. *)
Definition ints (c : gmap string string) : Prop := ∀ f v, c !! f = Some v → ∃ z, v = itoa z.

Record hash_ok (id : string) (b : batch) (h : gmap string string) : Prop := {
  ho_id : h !! "id" = Some id;
  ho_status : h !! "status" = Some (b_status b);
  ho_total : h !! "total_jobs" = Some (itoa (b_total b));
  ho_touched : h !! "touched_count" = Some (itoa (card (b_touched b)));
  ho_completed : h !! "completed_count" = Some (itoa (card (b_ok b)));
  ho_failed : h !! "failed_count" = Some (itoa (card (b_failed b)));
  ho_sealed : nonblank (h !! "locked_at") = b_sealed b;
  ho_complete : is_Some (h !! "complete_callback_dispatched_at") ↔ b_complete b = true;
  ho_success : is_Some (h !! "success_callback_dispatched_at") ↔ b_success b = true;
  ho_any : if b_any b then nonblank (h !! "callback_dispatched_at") = true
           else h !! "callback_dispatched_at" = None
}.

(** The indexes and counters shared by all batches have their types. *)
Record shared_ok (s : redis) : Prop := {
  so_counts : ∃ c, get_hash s countsKey = Some c ∧ ints c;
  so_running : ∃ z, get_zset s runningIndex = Some z;
  so_done : ∃ z, get_zset s doneIndex = Some z;
  so_cancelled : ∃ z, get_zset s cancelledIndex = Some z
}.

Record abs (s : redis) (id : string) (b : batch) : Prop := {
  abs_hash : ∃ h, get_hash s (batchKey id) = Some h ∧ hash_ok id b h;
  abs_touched : get_bits s (bitmapKey id) = Some (b_touched b);
  abs_okbits : get_bits s (okBitmapKey id) = Some (b_ok b);
  abs_failbits : get_bits s (failBitmapKey id) = Some (b_failed b);
  abs_shared : shared_ok s;
  abs_seq : ∃ q, get_int s (seqKey id) = Some q
}.

Lemma hash_ok_nonempty id b h : hash_ok id b h → h ≠ ∅.
Proof. intros H ->. pose proof (ho_id _ _ _ H) as E. by rewrite lookup_empty in E. Qed.

Lemma abs_exists s id b : abs s id b → has_key s (batchKey id) = true.
Proof.
  intros [[h [Eh Hh]] _ _ _ _ _]. eapply get_hash_has_key; [exact Eh |].
  by eapply hash_ok_nonempty.
Qed.

Lemma abs_bitmap s id b : abs s id b → b_touched b ≠ ∅ → has_key s (bitmapKey id) = true.
Proof. intros H Hb. eapply get_bits_has_key; [apply H | done]. Qed.

Lemma card_insert (i : Z) (X : gset Z) : i ∉ X → card ({[i]} ∪ X) = card X + 1.
Proof. intros H. unfold card. rewrite size_union by set_solver. rewrite size_singleton. lia. Qed.

Lemma card_remove (i : Z) (X : gset Z) : i ∈ X → card (X ∖ {[i]}) = card X + -1.
Proof.
  intros H. unfold card.
  assert (size X = S (size (X ∖ {[i]}))) as ->; [| lia].
  replace X with ({[i]} ∪ X ∖ {[i]}) at 1.
  - rewrite size_union by set_solver. rewrite size_singleton. done.
  - symmetry. by apply union_difference_singleton_L.
Qed.

Lemma tonum_itoa z : tonum (Some (itoa z)) = z.
Proof. unfold tonum. by rewrite atoi_itoa. Qed.

Ltac bcbn :=
  cbn [b_status b_total b_sealed b_touched b_ok b_failed b_complete b_success b_any
       mark claim_complete claim_success set_status set_sealed
       String.eqb Ascii.eqb Bool.eqb].

Lemma ints_lookup c f : ints c → ∃ z, c !! f = Some (itoa z) ∨ c !! f = None ∧ z = 0.
Proof.
  intros H. destruct (c !! f) as [v|] eqn:E.
  - destruct (H f v E) as [z ->]. eauto.
  - exists 0. auto.
Qed.

Lemma ints_insert c f z : ints c → ints (<[f := itoa z]> c).
Proof.
  intros H g v. destruct (decide (f = g)) as [->|Hne].
  - rewrite lookup_insert_eq. intros [= <-]. eauto.
  - rewrite lookup_insert_ne by done. apply H.
Qed.

(** Closes the reads of a set that an idempotent update leaves as it was. *)
Lemma union_idem (i : Z) (X : gset Z) : i ∈ X → {[i]} ∪ X = X.
Proof. set_solver. Qed.
Lemma difference_idem (i : Z) (X : gset Z) : i ∉ X → X ∖ {[i]} = X.
Proof. set_solver. Qed.

Ltac cards :=
  bcbn; rewrite ?union_idem by assumption; rewrite ?difference_idem by assumption;
  rewrite ?card_insert by assumption; rewrite ?card_remove by assumption.

(** [hash_step] re-establishes [hash_ok] after an update of some fields. *)
Ltac hash_step :=
  match goal with H : hash_ok ?id ?b ?h |- hash_ok _ _ _ => destruct H end;
  split; cards;
  repeat (rewrite lookup_insert_ne by discriminate); rewrite ?lookup_insert_eq; auto.

(** [abs_step] re-establishes [abs] after writes to the keys of the batch. *)
Lemma shared_same s s' :
  same_at countsKey s' s → same_at runningIndex s' s → same_at doneIndex s' s →
  same_at cancelledIndex s' s → shared_ok s → shared_ok s'.
Proof.
  intros E1 E2 E3 E4 [H1 H2 H3 H4].
  split; [rewrite (same_get_hash _ _ _ E1) | rewrite (same_get_zset _ _ _ E2)
         | rewrite (same_get_zset _ _ _ E3) | rewrite (same_get_zset _ _ _ E4)]; auto.
Qed.

Ltac same_deep :=
  unfold same_at;
  repeat first
    [ rewrite kdb_expire
    | rewrite kdb_put_hash_ne by distinct
    | rewrite kdb_put_zset_ne by distinct
    | rewrite kdb_put_ne by distinct ];
  reflexivity.

Lemma get_int_put k z s : get_int (put k (RInt z) s) k = Some z.
Proof. unfold get_int. cbn. by rewrite lookup_insert_eq. Qed.

Ltac known_int := reads; rewrite get_int_put; reflexivity.

Ltac abs_step :=
  split;
  [ eexists; split; [reads; first [eassumption | reflexivity] | try hash_step]
  | reads; cards; try first [eassumption | reflexivity]
  | reads; cards; try first [eassumption | reflexivity]
  | reads; cards; try first [eassumption | reflexivity]
  | try (match goal with H : shared_ok ?s |- shared_ok _ =>
           apply (shared_same s); [same_deep .. | exact H] end)
  | try (match goal with H : ∃ q, get_int _ _ = Some q |- _ =>
           destruct H as [qq Hqq]; first [eexists; known | eexists; known_int] end) ].

(** ** batchDoneJobLua, phase by phase *)

Section done.
Context (id : string).
Implicit Types (s : redis) (b : batch).

Lemma touch_spec s b bit op ttl Q :
  abs s id b →
  (bit ∉ b_touched b → ∀ s', abs s' id (mark "executed" bit b) → Q s' (Next true)) →
  (bit ∈ b_touched b → op ≠ "executed" → Q s (Next false)) →
  (bit ∈ b_touched b → op = "executed" → Q s (Return (0, "duplicate"))) →
  wp (BatchDone.touch (batchKey id) (bitmapKey id) bit op ttl) s Q.
Proof.
  intros [[h [Eh Hh]] Ht Ho Hf Hs Hsq] H1 H2 H3. unfold BatchDone.touch. steps.
  case_bool_decide as E; cbn [negb].
  - steps. apply wp_when; intros Eop; steps.
    + apply H3; [done |]. by apply String.eqb_eq.
    + apply H2; [done |]. by apply String.eqb_neq.
  - steps. eapply wp_HINCRBY; [known | left; eapply ho_touched, Hh |]. steps.
    apply H1; [done |].
    abs_step.
Qed.

Lemma success_spec s b bit ttl (tn : bool) Q :
  abs s id b → bit ∈ b_touched b →
  (bit ∉ b_ok b → ∀ s', abs s' id (mark "success" bit b) → Q s' (Next (true, false))) →
  (bit ∈ b_ok b → Q s (if tn then Next (false, false) else Return (0, "duplicate"))) →
  wp (BatchDone.apply_op (batchKey id) (okBitmapKey id) (failBitmapKey id)
        bit "success" ttl tn) s Q.
Proof.
  intros [[h [Eh Hh]] Ht Ho Hf Hs Hsq] Hbit H1 H2.
  unfold BatchDone.apply_op. cbn [String.eqb Ascii.eqb Bool.eqb]. steps.
  case_bool_decide as E; cbn [negb].
  - steps; apply wp_when; intros Etn; destruct tn; try discriminate; steps; auto.
  - steps. eapply wp_HINCRBY; [known | left; eapply ho_completed, Hh |]. steps.
    apply wp_when; intros Ef; [apply bool_decide_eq_true in Ef
                                       | apply bool_decide_eq_false in Ef]; steps.
    + eapply wp_HINCRBY; [known | left; rewrite lookup_insert_ne by discriminate;
                                  eapply ho_failed, Hh |].
      steps. apply H1; [done |]. abs_step.
    + apply H1; [done |]. abs_step.
Qed.

Lemma failed_spec s b bit ttl (tn : bool) Q :
  abs s id b → bit ∈ b_touched b →
  (bit ∉ b_ok b ∪ b_failed b →
     ∀ s', abs s' id (mark "failed" bit b) → Q s' (Next (false, true))) →
  (bit ∈ b_ok b ∪ b_failed b → Q s (if tn then Next (false, false) else Return (0, "duplicate"))) →
  wp (BatchDone.apply_op (batchKey id) (okBitmapKey id) (failBitmapKey id)
        bit "failed" ttl tn) s Q.
Proof.
  intros [[h [Eh Hh]] Ht Ho Hf Hs Hsq] Hbit H1 H2.
  unfold BatchDone.apply_op. cbn [String.eqb Ascii.eqb Bool.eqb]. steps.
  case_bool_decide as E1; case_bool_decide as E2; cbn [negb andb];
    try (steps; apply wp_when; intros Etn; destruct tn; try discriminate; steps;
         apply H2; set_solver).
  steps. eapply wp_HINCRBY; [known | left; eapply ho_failed, Hh |]. steps.
  apply H1; [set_solver |]. abs_step.
Qed.

Lemma claim_complete_id b : b_complete b = true → claim_complete b = b.
Proof.
  destruct b; unfold claim_complete; cbn. intros ->. by rewrite orb_false_r.
Qed.

Lemma claim_complete_spec s b now Q :
  abs s id b → now ≠ "" →
  (∀ s', abs s' id (claim_complete b) → Q s' (Next (negb (b_complete b)))) →
  wp (BatchDone.claim_complete (batchKey id) now) s Q.
Proof.
  intros Habs Hnow H. pose proof Habs as [[h [Eh Hh]] Ht Ho Hf Hs Hsq].
  unfold BatchDone.claim_complete. steps. eapply wp_HSETNX; [known | |].
  - intros w Ew. steps.
    assert (b_complete b = true) as Hc by (eapply ho_complete; eauto).
    rewrite Hc in H. apply H. by rewrite claim_complete_id.
  - intros En. destruct (b_complete b) eqn:Hc.
    { destruct (proj2 (ho_complete _ _ _ Hh) Hc) as [w Ew]. congruence. }
    steps. eapply wp_HSETNX; [known | |]; rewrite lookup_insert_ne by discriminate; steps.
    + intros w Ew. steps. apply H. destruct (b_any b) eqn:Ea.
      * abs_step; rewrite Ea in *; cbn; auto. split; eauto.
      * pose proof (ho_any _ _ _ Hh) as Ha. rewrite Ea in Ha. congruence.
    + intros Ew. steps. apply H.
      abs_step; rewrite ?Hc, ?orb_true_r; cbn; [split; eauto |].
      by destruct now.
Qed.

Lemma claim_success_spec s b now (Q : redis → flow reply bool → Prop) :
  abs s id b →
  (∀ s', abs s' id (claim_success b) → Q s' (Next (negb (b_success b)))) →
  wp (HSETNX (batchKey id) "success_callback_dispatched_at" now) s Q.
Proof.
  intros Habs H. pose proof Habs as [[h [Eh Hh]] Ht Ho Hf Hs Hsq].
  eapply wp_HSETNX; [known | |].
  - intros w Ew.
    assert (b_success b = true) as Hc by (eapply ho_success; eauto).
    rewrite Hc in H. apply H. replace (claim_success b) with b; [done |].
    destruct b; unfold claim_success; cbn in *; by subst.
  - intros En. destruct (b_success b) eqn:Hc.
    { destruct (proj2 (ho_success _ _ _ Hh) Hc) as [w Ew]. congruence. }
    apply H. abs_step. split; eauto.
Qed.

Definition settle (term : string) (b : batch) : batch :=
  if String.eqb (b_status b) "running" then set_status term b else b.

Lemma shared_after s c z1 z2 :
  get_hash s countsKey = Some c → ints c →
  get_zset s runningIndex = Some z1 → get_zset s doneIndex = Some z2 →
  (∃ z, get_zset s cancelledIndex = Some z) → shared_ok s.
Proof. intros. split; eauto. Qed.

Lemma finish_spec s b term now score fttl Q :
  abs s id b →
  (∀ s', abs s' id (settle term b) → Q s' (Next tt)) →
  wp (BatchDone.finish (batchKey id) (bitmapKey id) runningIndex doneIndex countsKey
        (okBitmapKey id) (failBitmapKey id) (seqKey id) term now score fttl) s Q.
Proof.
  intros Habs H. pose proof Habs as [[h [Eh Hh]] Ht Ho Hf [[c [Ec Hc]] [zr Er] [zd Ed] Hca] Hsq].
  unfold BatchDone.finish, settle in *. steps. rewrite (ho_status _ _ _ Hh). cbn [holds].
  apply wp_when; intros Est; rewrite Est in H; [| by apply H].
  steps. rewrite !lookup_insert_ne, (ho_id _ _ _ Hh) by discriminate. steps.
  destruct (ints_lookup c "running" Hc) as [n Hn].
  eapply wp_HINCRBY; [known | exact Hn |]. steps.
  destruct (ints_lookup (<["running" := itoa (n + -1)]> c) term) as [n' Hn'];
    [by apply ints_insert |].
  eapply wp_HINCRBY; [known | exact Hn' |]. steps.
  apply wp_when; intros Ek; [| discriminate Ek]. steps. apply H. abs_step;
    (eapply shared_after; [known | by repeat apply ints_insert | known .. |];
     destruct Hca as [zc Eca]; exists zc; reads; exact Eca).
Qed.

Lemma settle_claims term b :
  b_complete (settle term b) = b_complete b ∧ b_success (settle term b) = b_success b.
Proof. unfold settle. by destruct (String.eqb _ _). Qed.

(** The claims and the reply of a batch that reaches a terminal status, shared
    by batchDoneJobLua and sealBatchLua. *)
Lemma fire_spec {A} s b term now none (Q : redis → flow reply A → Prop) :
  abs s id (settle term b) → now ≠ "" →
  (∀ s', abs s' id (finish_with term none b).2 → Q s' (Return (finish_with term none b).1)) →
  wp (fire_complete ← BatchDone.claim_complete (batchKey id) now;
      fire_success ← (if String.eqb term "success"
                      then HSETNX (batchKey id) "success_callback_dispatched_at" now
                      else mret false);
      lua_return
        (if (fire_success : bool) && (fire_complete : bool) then (1, "success")
         else if fire_success then (1, "success_only")
         else if fire_complete then (1, "complete")
         else none) : script reply A) s Q.
Proof.
  intros Habs Hnow H. destruct (settle_claims term b) as [E1 E2].
  unfold finish_with in H. cbn [fst snd] in H. fold (settle term b) in H. steps.
  eapply claim_complete_spec; [exact Habs | done |]. intros s1 H1. rewrite E1. steps.
  destruct (String.eqb term "success") eqn:Et.
  - eapply claim_success_spec; [exact H1 |]. intros s2 H2.
    change (b_success (claim_complete (settle term b))) with (b_success (settle term b)).
    rewrite E2. steps. by apply H.
  - steps. by apply H.
Qed.

Lemma conclude_spec s b now score ettl fttl :
  abs s id b → now ≠ "" →
  wp (BatchDone.conclude (batchKey id) (bitmapKey id) runningIndex doneIndex countsKey
        (okBitmapKey id) (failBitmapKey id) (seqKey id) now score ettl fttl) s
     (returns (λ s' r, r = (conclude b).1 ∧ abs s' id (conclude b).2)).
Proof.
  intros Habs Hnow. pose proof Habs as [[h [Eh Hh]] Ht Ho Hf Hs Hsq].
  assert (abs (expire (batchKey id) ettl s) id b) as Habs'.
  { split; reads; eauto. by apply (shared_same s); [same_deep .. | exact Hs]. }
  unfold BatchDone.conclude, conclude. steps.
  rewrite (ho_total _ _ _ Hh), (ho_touched _ _ _ Hh), (ho_completed _ _ _ Hh),
    (ho_failed _ _ _ Hh), (ho_sealed _ _ _ Hh), !tonum_itoa.
  apply wp_when; intros Eg; rewrite Eg; [by steps |].
  destruct (BatchDone.terminal _ _ _) as [term|]; steps.
  - eapply finish_spec; [exact Habs' |]. intros s1 H1.
    eapply fire_spec; [exact H1 | done | done].
  - unfold early. destruct (b_total b <=? card (b_touched b)); cbn [andb].
    + eapply claim_complete_spec; [exact Habs' | done |]. intros s1 H1. steps.
      cbn [returns]. destruct (b_complete b) eqn:Ec; cbn [negb fst snd]; [| done].
      by rewrite claim_complete_id in H1.
    + by steps.
Qed.

(** The whole script, on a batch whose touch bitmap is there if it finished. *)
Definition done_script (seq : Z) (op : string) (ttl : Z) (now : string) (score : Q) (fttl : Z)
    : script reply unit :=
  BatchDone.batchDoneJob (batchKey id) (bitmapKey id) runningIndex doneIndex countsKey
    (okBitmapKey id) (failBitmapKey id) (seqKey id) seq op ttl now score fttl.

Lemma wf_mark_executed b bit :
  wf b → 0 <= bit < b_total b → wf (mark "executed" bit b).
Proof. intros [H1 H2 H3] Hr. split; bcbn; set_solver. Qed.

Lemma mark_mark op b bit : mark op bit (mark "executed" bit b) = mark op bit b.
Proof. unfold mark. bcbn. f_equal. set_solver. Qed.

Lemma mark_executed_idem b bit : bit ∈ b_touched b → mark "executed" bit b = b.
Proof. intros H. destruct b; unfold mark; cbn in *. by rewrite union_idem. Qed.

Lemma guard_spec s b seq op Q :
  abs s id b → (1 <= seq → b_finished b = true → b_touched b ≠ ∅) →
  (if (seq <? 1) || negb (valid_op op) then Q s (Return (0, "invalid"))
   else if String.eqb (b_status b) "cancelled" then Q s (Return (0, "duplicate"))
   else Q s (Next (Some (b_status b)))) →
  wp (BatchDone.guard (batchKey id) (bitmapKey id) seq op) s Q.
Proof.
  intros Habs Hfin H. pose proof Habs as [[h [Eh Hh]] _ _ _ _ _].
  unfold BatchDone.guard, valid_op in *. steps.
  apply wp_when; intros E1; rewrite E1 in H; cbn [orb] in H; [by steps |]. steps.
  apply wp_when; intros E2; rewrite E2 in H; [by steps |]. steps.
  rewrite (abs_exists _ _ _ Habs). apply wp_when; [done |]. intros _. steps.
  rewrite (ho_status _ _ _ Hh). cbn [holds].
  apply wp_when; intros E3; rewrite E3 in H; [by steps |]. steps.
  apply wp_when; intros E4; steps; [| done].
  apply andb_true_iff in E4 as [E4 E5].
  rewrite (abs_bitmap _ _ _ Habs) in E5; [done |]. apply Hfin; [lia | done].
Qed.

Lemma valid_op_cases op :
  valid_op op = true → op = "success" ∨ op = "failed" ∨ op = "executed".
Proof.
  unfold valid_op. intros [[H | H]%orb_true_iff | H]%orb_true_iff; apply String.eqb_eq in H; auto.
Qed.

Lemma apply_spec s b bit op ttl (tn : bool) Q :
  abs s id b → bit ∈ b_touched b → valid_op op = true →
  (op = "executed" → tn = true) → (tn = true → bit ∉ b_ok b ∪ b_failed b) →
  (if tn || news op bit b
   then ∀ s' p, abs s' id (mark op bit b) → tn || p.1 || p.2 = true → Q s' (Next p)
   else Q s (Return (0, "duplicate"))) →
  wp (BatchDone.apply_op (batchKey id) (okBitmapKey id) (failBitmapKey id) bit op ttl tn) s Q.
Proof.
  intros Habs Hbit Hop Hex Htn H.
  destruct (valid_op_cases op Hop) as [-> | [-> | ->]]; unfold news in H; cbn in H.
  - eapply success_spec; [exact Habs | done | |]; intros Hok.
    + intros s' H'. rewrite bool_decide_eq_true_2, orb_true_r in H by done.
      apply H; [done | by destruct tn].
    + destruct tn; [set_solver | by rewrite bool_decide_eq_false_2 in H by auto].
  - eapply failed_spec; [exact Habs | done | |]; intros Hok.
    + intros s' H'. rewrite bool_decide_eq_true_2, orb_true_r in H by done.
      apply H; [done | by destruct tn].
    + destruct tn; [set_solver | by rewrite bool_decide_eq_false_2 in H by auto].
  - unfold BatchDone.apply_op. cbn [String.eqb Ascii.eqb Bool.eqb]. steps.
    rewrite Hex in H by done. apply H; [by rewrite mark_executed_idem | done].
Qed.

Lemma news_untouched op b bit :
  wf b → valid_op op = true → bit ∉ b_touched b → news op bit b = true.
Proof.
  intros [_ H _] Hop Hbit. unfold news.
  destruct (String.eqb op "success"), (String.eqb op "failed"); apply bool_decide_eq_true_2;
    set_solver.
Qed.

Theorem done_refines s b seq op ttl now score fttl :
  abs s id b → wf b → (1 <= seq → b_finished b = true → b_touched b ≠ ∅) → now ≠ "" →
  wp (done_script seq op ttl now score fttl) s
     (returns (λ s' r, r = (record seq op b).1 ∧ abs s' id (record seq op b).2)).
Proof.
  intros Habs Hwf Hfin Hnow. unfold done_script, BatchDone.batchDoneJob, record. steps.
  eapply guard_spec; [exact Habs | exact Hfin |].
  destruct ((seq <? 1) || negb (valid_op op)) eqn:E1; [done |].
  destruct (String.eqb (b_status b) "cancelled") eqn:E2; [done |].
  apply orb_false_iff in E1 as [Eseq Eop]. apply negb_false_iff in Eop.
  set (bit := seq - 1). steps.
  eapply touch_spec; [exact Habs | | |].
  - intros Hbit s1 H1. rewrite (news_untouched op b bit) by done. cbn [negb]. steps.
    destruct Hwf as [_ Hsub _].
    eapply (apply_spec s1); [exact H1 | cbn; set_solver | done | done | cbn; set_solver |].
    cbn [orb]. intros s2 p H2 Hp. rewrite mark_mark in H2.
    cbn [negb orb]. rewrite andb_false_r. steps. by apply conclude_spec.
  - intros Hbit Hne. steps.
    eapply apply_spec; [exact Habs | done | done | done | done |]. cbn [orb].
    destruct (news op bit b); cbn [negb]; [| done].
    intros s2 p H2 Hp. steps. cbn [orb] in *.
    rewrite Hp. cbn [negb]. rewrite andb_false_r. steps. by apply conclude_spec.
  - intros Hbit ->. unfold news. cbn. by rewrite bool_decide_eq_false_2 by auto.
Qed.
End done.

(** ** sealBatchLua *)

Section seal.
Context (id : string).
Implicit Types (s : redis) (b : batch).

Definition seal_script (now : string) (ttl : Z) (score : Q) : script reply unit :=
  Seal.sealBatch (batchKey id) countsKey runningIndex doneIndex (bitmapKey id)
    (okBitmapKey id) (failBitmapKey id) now ttl score.

Lemma wf_fresh_bit b :
  wf b → (b_total b ∉ b_touched b) ∧ (b_total b ∉ b_ok b) ∧ (b_total b ∉ b_failed b).
Proof.
  intros [_ Hsub H].
  assert (b_total b ∉ b_touched b) as Hn by (intros Hin%H; lia).
  clear H. set_solver.
Qed.

Lemma lock_spec s b now ttl Q :
  abs s id b → wf b → now ≠ "" →
  (∀ s', abs s' id (set_sealed b) → Q s' (Next (Some (b_status b)))) →
  wp (Seal.lock (batchKey id) (bitmapKey id) (okBitmapKey id) (failBitmapKey id) now ttl) s Q.
Proof.
  intros Habs Hwf Hnow H. pose proof Habs as [[h [Eh Hh]] Ht Ho Hf Hs Hsq].
  destruct (wf_fresh_bit b Hwf) as (N1 & N2 & N3).
  unfold Seal.lock. steps. rewrite (abs_exists _ _ _ Habs).
  apply wp_when; [done |]. intros _. steps.
  rewrite (ho_status _ _ _ Hh), (ho_sealed _ _ _ Hh).
  apply wp_when; intros Es; steps;
    rewrite ?lookup_insert_ne, (ho_total _ _ _ Hh), tonum_itoa by discriminate;
    (apply wp_when; intros Etot; steps; apply H; abs_step).
  - by destruct now.
  - by destruct now.
  - apply negb_false_iff in Es. congruence.
  - apply negb_false_iff in Es. congruence.
Qed.

Lemma seal_finish_spec s b term now score Q :
  abs s id b → b_status b = "running" →
  (∀ s', abs s' id (settle term b) → Q s' (Next tt)) →
  wp (Seal.finish (batchKey id) countsKey runningIndex doneIndex term now score) s Q.
Proof.
  intros Habs Hst H. pose proof Habs as [[h [Eh Hh]] Ht Ho Hf [[c [Ec Hc]] [zr Er] [zd Ed] Hca] Hsq].
  unfold Seal.finish, settle in *. rewrite Hst in H. cbn in H. steps.
  destruct (ints_lookup c "running" Hc) as [n Hn].
  eapply wp_HINCRBY; [known | exact Hn |]. steps.
  destruct (ints_lookup (<["running" := itoa (n + -1)]> c) term) as [n' Hn'];
    [by apply ints_insert |].
  eapply wp_HINCRBY; [known | exact Hn' |]. steps.
  rewrite !lookup_insert_ne, (ho_id _ _ _ Hh) by discriminate. steps.
  apply H. abs_step;
    (eapply shared_after; [known | by repeat apply ints_insert | known .. |];
     destruct Hca as [zc Eca]; exists zc; reads; exact Eca).
Qed.

Theorem seal_refines s b now ttl score :
  abs s id b → wf b → now ≠ "" →
  wp (seal_script now ttl score) s
     (returns (λ s' r, r = (seal b).1 ∧ abs s' id (seal b).2)).
Proof.
  intros Habs Hwf Hnow. unfold seal_script, Seal.sealBatch, seal. steps.
  eapply lock_spec; [exact Habs | done | done |]. intros s1 H1. steps. cbn [holds].
  change (b_status (set_sealed b)) with (b_status b).
  apply wp_when; intros Est; rewrite Est; cbn [negb]; [| by steps].
  set (b1 := set_sealed b) in *.
  pose proof H1 as [[h [Eh Hh]] _ _ _ _ _]. steps.
  rewrite (ho_total _ _ _ Hh), (ho_touched _ _ _ Hh), (ho_completed _ _ _ Hh),
    (ho_failed _ _ _ Hh), !tonum_itoa.
  destruct (Seal.terminal _ _ _) as [term|] eqn:Eterm; steps.
  - eapply seal_finish_spec; [exact H1 | by apply String.eqb_eq in Est |]. intros s2 H2.
    eapply fire_spec; [exact H2 | done | done].
  - change (b_total b1) with (b_total b). unfold early.
    apply wp_when; intros E.
    + apply andb_true_iff in E as [E1 E2]. rewrite E2. change (b_total b1) with (b_total b).
      rewrite E1. cbn [andb]. steps.
      eapply claim_complete_spec; [exact H1 | done |]. intros s2 H2. steps.
      apply wp_when; intros Ec; steps.
      * by rewrite Ec.
      * rewrite Ec. apply negb_false_iff in Ec. by rewrite claim_complete_id in H2.
    + steps. cbn [returns]. destruct (0 <? b_total b); [| done].
      rewrite andb_true_r in E. change (b_total b1) with (b_total b). by rewrite E.
Qed.
End seal.

(** ** createBatchLua, addJobsLua, claimCallbackLua and updateStatusLua *)

Section others.
Context (id : string).
Implicit Types (s : redis) (b : batch).

Lemma wp_HMSET {R} k l h s (Q : redis → flow R unit → Prop) :
  get_hash s k = Some h →
  Q (put_hash k (foldl (fun h p => <[p.1 := p.2]> h) h l) s) (Next tt) →
  wp (HMSET k l) s Q.
Proof. intros E H. by eapply wp_lift. Qed.

Definition add_code (b : batch) : Z := if String.eqb (b_status b) "cancelled" then 2 else 3.

Theorem add_refines s b n ttl q :
  abs s id b → get_int s (seqKey id) = Some q →
  wp (addJobs (batchKey id) (seqKey id) n ttl) s
     (returns (λ s' r,
        abs s' id (add_jobs n b).2 ∧
        if (add_jobs n b).1 then
          r = (if 0 <? n then AddRange 1 (q + 1) (q + n) else AddCode 1) ∧
          get_int s' (seqKey id) = Some (if 0 <? n then q + n else q)
        else r = AddCode (add_code b) ∧ get_int s' (seqKey id) = Some q)).
Proof.
  intros Habs Hq. pose proof Habs as [[h [Eh Hh]] Ht Ho Hf Hs Hsq].
  unfold addJobs, add_jobs, b_finished, add_code. steps. rewrite (abs_exists _ _ _ Habs).
  apply wp_when; [done |]. intros _. steps. rewrite (ho_status _ _ _ Hh). cbn [holds].
  apply wp_when; intros E1; rewrite E1; [by steps |]. steps.
  apply wp_when; intros E2; rewrite E2; [by steps |]. steps.
  pose proof (ho_any _ _ _ Hh) as Ha.
  apply wp_when; intros E3; steps.
  { destruct (b_any b); [done | by rewrite Ha in E3]. }
  destruct (b_any b) eqn:Ea; [congruence |]. cbn [orb fst snd].
  eapply wp_HINCRBY; [known | left; eapply ho_total, Hh |]. steps.
  apply wp_when; intros E4; rewrite E4; steps; cbn [returns]; (split; [abs_step |]);
    try (rewrite ?Ea; done).
  - split; [f_equal; lia | unfold get_int; cbn; rewrite kdb_expire; cbn;
                           by rewrite lookup_insert_eq].
  - split; [done | by reads].
Qed.

(** A new batch: the hash did not exist and no bitmap of the id is left. *)
Theorem create_refines s total on_s on_c meta now ttl locked desc tenant args :
  get_hash s (batchKey id) = Some ∅ →
  get_bits s (bitmapKey id) = Some ∅ → get_bits s (okBitmapKey id) = Some ∅ →
  get_bits s (failBitmapKey id) = Some ∅ → shared_ok s →
  (∃ q, get_int s (seqKey id) = Some q) →
  wp (createBatch (batchKey id) id (itoa total) on_s on_c meta now ttl locked desc tenant args) s
     (returns (λ s' r, r = 1 ∧
        abs s' id (fresh_batch total (negb (String.eqb locked ""))))).
Proof.
  intros Eh Ht Ho Hf Hs Hsq. unfold createBatch. steps.
  eapply wp_HSETNX; [known | by rewrite lookup_empty |]. intros _. steps.
  apply wp_when; [done |]. intros _. steps.
  eapply wp_HMSET; [known |]. steps. cbn [returns foldl fst snd]. split; [done |].
  split; reads; auto.
  - eexists; split; [reflexivity |]. split; cbn [b_status b_total b_sealed b_touched b_ok
      b_failed b_complete b_success b_any fresh_batch];
      repeat (rewrite lookup_insert_ne by discriminate); rewrite ?lookup_insert_eq; auto;
      try (rewrite lookup_empty; split; [intros [? [=]] | discriminate]).
  - apply (shared_same s); [same_deep .. | exact Hs].
Qed.

(** An existing batch is left as it is. *)
Theorem create_exists s b total on_s on_c meta now ttl locked desc tenant args :
  abs s id b →
  run (createBatch (batchKey id) id total on_s on_c meta now ttl locked desc tenant args) s
  = (s, Some 0).
Proof.
  intros [[h [Eh Hh]] _ _ _ _ _].
  enough (wp (createBatch (batchKey id) id total on_s on_c meta now ttl locked desc tenant args) s
     (λ s' f, s' = s ∧ f = Return 0)) as H.
  { unfold wp in H. unfold run. destruct (createBatch _ _ _ _ _ _ _ _ _ _ _ _ s).
    by destruct H as [-> ->]. }
  unfold createBatch. steps. eapply wp_HSETNX; [known | |].
  - intros w Ew. by steps.
  - intros En. by rewrite (ho_id _ _ _ Hh) in En.
Qed.

Lemma nonblank_now now : now ≠ "" → nonblank (Some now) = true.
Proof. by destruct now. Qed.

(** The writes of a won claim, after its stamp: they leave a claimed batch. *)
Lemma won_spec s b h now node Q :
  get_hash s (batchKey id) = Some h → hash_ok id b h →
  get_bits s (bitmapKey id) = Some (b_touched b) →
  get_bits s (okBitmapKey id) = Some (b_ok b) →
  get_bits s (failBitmapKey id) = Some (b_failed b) → shared_ok s →
  (∃ q, get_int s (seqKey id) = Some q) → now ≠ "" →
  (∀ s', abs s' id (Batch (b_status b) (b_total b) (b_sealed b) (b_touched b) (b_ok b)
                      (b_failed b) (b_complete b) (b_success b) true) → Q s' (Next tt)) →
  wp (when (negb (String.eqb node "")) (HSET (batchKey id) "callback_dispatched_by" node);;
      HSETNX (batchKey id) "callback_dispatched_at" now;;
      ZREM doneIndex id;;
      mret tt : script Z unit) s Q.
Proof.
  intros Eh Hh Ht Ho Hf [H1 H2 [zd Ed] H4] Hsq Hnow H. steps.
  pose proof (ho_any _ _ _ Hh) as Ha.
  apply wp_when; intros En; steps; (eapply wp_HSETNX; [known | |]);
    rewrite ?lookup_insert_ne by discriminate; intros; steps; apply H; abs_step;
    rewrite ?nonblank_now by done; auto;
    try (destruct (b_any b); congruence);
    (split; [destruct H1 as [c [Ec Hc]]; exists c; split; [known | done]
            | destruct H2 as [z Ez]; exists z; known | eexists; known
            | destruct H4 as [z Ez]; exists z; known]).
Qed.

Definition with_any (b : batch) : batch :=
  Batch (b_status b) (b_total b) (b_sealed b) (b_touched b) (b_ok b) (b_failed b)
    (b_complete b) (b_success b) true.

Lemma claim_field_spec s b b1 h f now node (had : bool) :
  abs s id b → get_hash s (batchKey id) = Some h → (is_Some (h !! f) ↔ had = true) →
  (had = false → hash_ok id b1 (<[f := now]> h)) →
  b_touched b1 = b_touched b → b_ok b1 = b_ok b → b_failed b1 = b_failed b → now ≠ "" →
  wp (won ← HSETNX (batchKey id) f now;
      when won
        (when (negb (String.eqb node "")) (HSET (batchKey id) "callback_dispatched_by" node);;
         HSETNX (batchKey id) "callback_dispatched_at" now;;
         ZREM doneIndex id;;
         mret tt);;
      lua_return (if (won : bool) then 1 else 0) : script Z unit) s
     (returns (λ s' r, r = (if negb had then 1 else 0) ∧
                       abs s' id (if had then b else with_any b1))).
Proof.
  intros Habs Eh Hhad Hok E1 E2 E3 Hnow. pose proof Habs as [_ Ht Ho Hf Hs Hsq]. steps.
  eapply wp_HSETNX; [known | |].
  - intros w Ew. rewrite (proj1 Hhad) by eauto. steps. by apply wp_when; intros; steps.
  - intros En. destruct had; [destruct (proj2 Hhad eq_refl); congruence |]. apply wp_bind.
    apply wp_when; [| done]. intros _.
    eapply (won_spec _ b1); [known | auto | rewrite ?E1, ?E2, ?E3; known .. | | | done |].
    + apply (shared_same s); [same_deep .. | exact Hs].
    + by reads.
    + intros s' H'. by steps.
Qed.

Theorem claim_refines s b now node kind :
  abs s id b → now ≠ "" →
  wp (claimCallback (batchKey id) doneIndex now node id kind) s
     (returns (λ s' r, r = (if (claim kind b).1 then 1 else 0) ∧ abs s' id (claim kind b).2)).
Proof.
  intros Habs Hnow. pose proof Habs as [[h [Eh Hh]] _ _ _ _ _].
  unfold claimCallback, claim, claim_field. steps. rewrite (abs_exists _ _ _ Habs).
  apply wp_when; [done |]. intros _. cbv beta iota. cbn [fst snd].
  destruct (String.eqb kind "complete"); [| destruct (String.eqb kind "success")];
    cbn [andb orb negb].
  - eapply (claim_field_spec s b (Batch (b_status b) (b_total b) (b_sealed b) (b_touched b)
      (b_ok b) (b_failed b) true (b_success b) (b_any b)) h); eauto; [by apply Hh |].
    intros _. hash_step. split; eauto.
  - eapply (claim_field_spec s b (claim_success b) h); eauto; [by apply Hh |].
    intros _. hash_step. split; eauto.
  - eapply (claim_field_spec s b (with_any b) h); eauto.
    + pose proof (ho_any _ _ _ Hh) as Ha. destruct (b_any b).
      * split; [done |]. intros _. destruct (h !! _); [eauto | discriminate].
      * rewrite Ha. split; [intros [? [=]] | done].
    + intros _. hash_step. by apply nonblank_now.
Qed.

Theorem cancel_refines s b score :
  abs s id b → b_status b ≠ "" →
  wp (updateStatus (batchKey id) countsKey runningIndex cancelledIndex "cancelled" id score) s
     (returns (λ s' r, r = (if String.eqb (b_status b) "cancelled" then 2
                            else if terminal_status (b_status b) then 3 else 1) ∧
                       abs s' id (cancel b))).
Proof.
  intros Habs Hne. pose proof Habs as [[h [Eh Hh]] Ht Ho Hf [[c [Ec Hc]] [zr Er] [zd Ed] [zc Ez]] Hsq].
  unfold updateStatus, cancel. steps. rewrite (abs_exists _ _ _ Habs).
  apply wp_when; [done |]. intros _. steps. rewrite (ho_status _ _ _ Hh). cbn [default from_option Datatypes.id].
  apply wp_when; intros E1; rewrite E1; steps.
  { split; [done |]. apply String.eqb_eq in E1. by rewrite E1. }
  apply wp_when; intros E2; rewrite E2; [by steps |]. steps.
  apply wp_when; [| done]. intros _. steps.
  apply wp_when; intros E3; [| by apply negb_false_iff, String.eqb_eq in E3].
  destruct (ints_lookup c (b_status b) Hc) as [n Hn].
  eapply wp_HINCRBY; [known | exact Hn |]. steps.
  destruct (ints_lookup (<[b_status b := itoa (n + -1)]> c) "cancelled") as [n' Hn'];
    [by apply ints_insert |].
  eapply wp_HINCRBY; [known | exact Hn' |]. steps.
  apply wp_when; [| done]. intros _. steps. cbn [returns]. split; [done |].
  abs_step.
  split; [eexists; split; [known | by repeat apply ints_insert]
         | eexists; known ..].
Qed.
End others.
