(* ===== verification/LedgerTrace.v ===== *)
(** Sequences of ledger calls.

    A batch sees its calls in some order: completion events from any consumer,
    the producer adding jobs and sealing, cancellations and callback claims.
    [exec] runs one call against the keyspace through the scripts, [astep]
    against the specification; a trace of valid calls keeps the two in step
    ([exec_refines]), so that what is proved of [astep] holds of the scripts. *)
From S2P Require Import Prelude Redis Ledger LedgerSpec LedgerRefine.

Inductive call :=
| CRecord (seq : Z) (op : string) (ttl : Z) (now : string) (score : Q) (fttl : Z)
| CSeal (now : string) (ttl : Z) (score : Q)
| CAdd (n ttl : Z)
| CCancel (score : Q)
| CClaim (now node kind : string).

(** Which callbacks a call gave its caller the right to dispatch. *)
Record fired := Fired { f_complete : bool; f_success : bool }.

Definition no_fire : fired := Fired false false.

Definition fires (r : reply) : fired :=
  Fired (((r.1 =? 1) && (String.eqb r.2 "success" || String.eqb r.2 "complete"))
         || ((r.1 =? 3) && String.eqb r.2 "complete"))
        ((r.1 =? 1) && (String.eqb r.2 "success" || String.eqb r.2 "success_only")).

Definition claim_fires (kind : string) (won : bool) : fired :=
  Fired (won && String.eqb kind "complete") (won && String.eqb kind "success").

Definition fire_of (r : option reply) : fired := from_option fires no_fire r.

Definition exec (id : string) (c : call) (s : redis) : redis * fired :=
  match c with
  | CRecord seq op ttl now score fttl =>
      let '(s', r) := run (done_script id seq op ttl now score fttl) s in (s', fire_of r)
  | CSeal now ttl score =>
      let '(s', r) := run (seal_script id now ttl score) s in (s', fire_of r)
  | CAdd n ttl => ((run (addJobs (batchKey id) (seqKey id) n ttl) s).1, no_fire)
  | CCancel score =>
      ((run (updateStatus (batchKey id) countsKey runningIndex cancelledIndex
               "cancelled" id score) s).1, no_fire)
  | CClaim now node kind =>
      let '(s', r) := run (claimCallback (batchKey id) doneIndex now node id kind) s in
      (s', claim_fires kind (match r with Some n => n =? 1 | None => false end))
  end.

Definition astep (c : call) (b : batch) : batch * fired :=
  match c with
  | CRecord seq op _ _ _ _ => ((record seq op b).2, fires (record seq op b).1)
  | CSeal _ _ _ => ((seal b).2, fires (seal b).1)
  | CAdd n _ => ((add_jobs n b).2, no_fire)
  | CCancel _ => (cancel b, no_fire)
  | CClaim _ _ kind => ((claim kind b).2, claim_fires kind (claim kind b).1)
  end.

Fixpoint exec_all (id : string) (cs : list call) (s : redis) : redis * list fired :=
  match cs with
  | [] => (s, [])
  | c :: cs =>
      let '(s', f) := exec id c s in
      let '(s'', fs) := exec_all id cs s' in (s'', f :: fs)
  end.

Fixpoint asteps (cs : list call) (b : batch) : batch * list fired :=
  match cs with
  | [] => (b, [])
  | c :: cs =>
      let '(b', f) := astep c b in
      let '(b'', fs) := asteps cs b' in (b'', f :: fs)
  end.

(** A call is valid for a batch: an event carries a sequence number handed out
    by the allocator, a producer adds jobs, and timestamps are not blank. *)
Definition valid (c : call) (b : batch) : Prop :=
  match c with
  | CRecord seq _ _ now _ _ => seq <= b_total b ∧ now ≠ ""
  | CSeal now _ _ => now ≠ ""
  | CAdd n _ => 0 <= n
  | CCancel _ => True
  | CClaim now _ _ => now ≠ ""
  end.

Fixpoint valid_all (cs : list call) (b : batch) : Prop :=
  match cs with [] => True | c :: cs => valid c b ∧ valid_all cs (astep c b).1 end.

(** ** The invariant of the specification *)

Record inv (b : batch) : Prop := {
  inv_wf : wf b;
  inv_known : b_status b = "running" ∨ b_finished b = true ∨ b_status b = "cancelled";
  inv_counts : b_finished b = true → b_total b <= card (b_ok b) + card (b_failed b);
  inv_claim : b_finished b = true → b_complete b = true;
  inv_eager : b_sealed b = true → 1 <= b_total b →
              b_total b <= card (b_ok b) + card (b_failed b) → b_status b ≠ "running"
}.

Lemma card_nonneg X : 0 <= card X.
Proof. unfold card. lia. Qed.

Lemma card_sum_union X Y : X ## Y → card X + card Y = card (X ∪ Y).
Proof. intros H. unfold card. rewrite size_union by done. lia. Qed.

Lemma card_subset (X Y : gset Z) : X ⊆ Y → card X <= card Y.
Proof. intros H. unfold card. apply subseteq_size in H. lia. Qed.

Lemma inv_touched_nonempty b seq :
  inv b → 1 <= seq → seq <= b_total b → b_finished b = true → b_touched b ≠ ∅.
Proof.
  intros [[H1 H2 H3] _ Hc _ _] Hs Hs' Hf He. specialize (Hc Hf).
  rewrite card_sum_union in Hc by done. apply card_subset in H2. rewrite He in H2.
  unfold card in *. rewrite size_empty in H2. lia.
Qed.

(** The invariant before the counters are looked at. *)
Record pre_inv (b : batch) : Prop := {
  pi_wf : wf b;
  pi_known : b_status b = "running" ∨ b_finished b = true ∨ b_status b = "cancelled";
  pi_counts : b_finished b = true → b_total b <= card (b_ok b) + card (b_failed b);
  pi_claim : b_finished b = true → b_complete b = true
}.

Lemma inv_pre b : inv b → pre_inv b.
Proof. by intros []. Qed.

Lemma terminal_cases t c f :
  0 <= f →
  match BatchDone.terminal t c f with
  | Some "success" => t <= c
  | Some "complete" => c < t ∧ t <= c + f
  | Some _ => False
  | None => c + f < t
  end.
Proof.
  intros Hf. unfold BatchDone.terminal.
  destruct (Z.leb_spec t c); [done |]. destruct (Z.leb_spec t (c + f)); lia.
Qed.

Lemma terminal_some t c f x :
  0 <= f → BatchDone.terminal t c f = Some x →
  t <= c + f ∧ (x = "success" ∧ t <= c ∨ x = "complete" ∧ c < t).
Proof.
  intros Hf. unfold BatchDone.terminal.
  destruct (Z.leb_spec t c); [intros [= <-]; split; [lia | auto] |].
  destruct (Z.leb_spec t (c + f)); [intros [= <-]; split; [lia | auto] | done].
Qed.

Lemma seal_terminal_some t c f x :
  0 <= c → 0 <= f → Seal.terminal t c f = Some x →
  t <= c + f ∧ (x = "success" ∧ t <= c ∨ x = "complete" ∧ c < t).
Proof.
  intros Hc Hf. unfold Seal.terminal. destruct (Z.eqb_spec t 0) as [-> |].
  - intros [= <-]. split; [lia | left; split; [done | lia]].
  - fold (BatchDone.terminal t c f). by apply terminal_some.
Qed.

Lemma wf_same b b' :
  b_total b' = b_total b → b_touched b' = b_touched b → b_ok b' = b_ok b →
  b_failed b' = b_failed b → wf b → wf b'.
Proof. intros E1 E2 E3 E4 [H1 H2 H3]. split; rewrite ?E1, ?E2, ?E3, ?E4; auto. Qed.

Lemma wf_mark op bit b :
  wf b → valid_op op = true → news op bit b = true → 0 <= bit < b_total b → wf (mark op bit b).
Proof.
  intros [H1 H2 H3] Hop Hn Hr.
  destruct (valid_op_cases op Hop) as [-> | [-> | ->]]; unfold news in Hn; cbn in Hn;
    apply bool_decide_eq_true in Hn; split; bcbn.
  all: try (intros i [Hi | Hi]%elem_of_union; [apply elem_of_singleton in Hi; by subst | auto]).
  all: clear H3; set_solver.
Qed.

Lemma mark_counts op bit b :
  wf b → valid_op op = true → news op bit b = true →
  card (b_ok b) + card (b_failed b)
  <= card (b_ok (mark op bit b)) + card (b_failed (mark op bit b)).
Proof.
  intros [H1 H2 H3] Hop Hn.
  destruct (valid_op_cases op Hop) as [-> | [-> | ->]]; unfold news in Hn; cbn in Hn;
    apply bool_decide_eq_true in Hn; bcbn; [| | lia].
  - rewrite (card_insert bit) by done. destruct (decide (bit ∈ b_failed b)) as [Hb | Hb].
    + rewrite card_remove by done. lia.
    + rewrite difference_idem by done. lia.
  - rewrite (card_insert bit (b_failed b)) by set_solver. lia.
Qed.

Lemma finish_with_inv term none b :
  pre_inv b → (term = "success" ∨ term = "complete") →
  b_total b <= card (b_ok b) + card (b_failed b) → inv (finish_with term none b).2.
Proof.
  intros [Hwf Hk Hc Hcl] Hterm Ht. unfold finish_with. cbn [snd].
  set (b1 := if String.eqb (b_status b) "running" then set_status term b else b).
  assert (b_status b1 ≠ "running" ∧ wf b1 ∧ b_total b1 = b_total b ∧ b_ok b1 = b_ok b
          ∧ b_failed b1 = b_failed b ∧ b_touched b1 = b_touched b
          ∧ (b_finished b1 = true ∨ b_status b1 = "cancelled"))
    as (S1 & S2 & S3 & S4 & S5 & S6 & S7).
  { unfold b1. destruct (String.eqb_spec (b_status b) "running") as [E | E].
    - destruct Hterm as [-> | ->]; (split_and!; try done; [by apply (wf_same b) | by left]).
    - split_and!; try done. naive_solver. }
  assert (∀ b2, b_status b2 = b_status b1 → b_total b2 = b_total b1 → b_ok b2 = b_ok b1 →
     b_failed b2 = b_failed b1 → b_touched b2 = b_touched b1 → b_complete b2 = true → inv b2)
    as Hgen.
  { intros b2 E1 E2 E3 E4 E5 E6. split; unfold b_finished in *; rewrite ?E1, ?E2, ?E3, ?E4.
    - by apply (wf_same b1).
    - tauto.
    - intros _. rewrite S3, S4, S5. done.
    - done.
    - done. }
  destruct (String.eqb term "success"); by apply Hgen.
Qed.

Lemma early_inv none b :
  inv b → inv (early none b).2.
Proof.
  intros Hi. unfold early. destruct (_ && _); [| done].
  destruct Hi as [H1 H2 H3 H4 H5]. split; try done. by apply (wf_same b).
Qed.

Lemma conclude_inv b : pre_inv b → inv (conclude b).2.
Proof.
  intros Hp. unfold conclude. destruct (negb (b_sealed b) || (b_total b <? 1)) eqn:Eg.
  - destruct Hp as [H1 H2 H3 H4]. split; try done. cbn. intros Hs Ht.
    rewrite Hs in Eg. lia.
  - destruct (BatchDone.terminal _ _ _) as [term|] eqn:Et.
    + apply terminal_some in Et as [Ht Hx]; [| apply card_nonneg].
      apply finish_with_inv; [done | | done]. destruct Hx as [[-> _] | [-> _]]; auto.
    + apply early_inv. destruct Hp as [H1 H2 H3 H4]. split; try done.
      pose proof (terminal_cases (b_total b) (card (b_ok b)) (card (b_failed b))
                    (card_nonneg _)) as Hn.
      rewrite Et in Hn. lia.
Qed.

Lemma record_inv seq op b : inv b → seq <= b_total b → inv (record seq op b).2.
Proof.
  intros Hi Hs. unfold record.
  destruct ((seq <? 1) || negb (valid_op op)) eqn:E1; [done |].
  destruct (String.eqb (b_status b) "cancelled"); [done |].
  destruct (news op (seq - 1) b) eqn:En; cbn [negb]; [| done].
  apply orb_false_iff in E1 as [Eseq Eop%negb_false_iff]. apply conclude_inv.
  pose proof (mark_counts op (seq - 1) b (inv_wf _ Hi) Eop En) as Hm.
  destruct Hi as [H1 H2 H3 H4 H5]. split; try done.
  - apply wf_mark; auto. lia.
  - intros Hf. change (b_total (mark op (seq - 1) b)) with (b_total b).
    specialize (H3 Hf). lia.
Qed.

Lemma seal_inv b : inv b → inv (seal b).2.
Proof.
  intros Hi. unfold seal.
  assert (pre_inv (set_sealed b)) as Hp.
  { destruct Hi as [H1 H2 H3 H4 _]. split; try done. by apply (wf_same b). }
  destruct (String.eqb_spec (b_status (set_sealed b)) "running") as [E | E]; cbn [negb].
  - destruct (Seal.terminal _ _ _) as [term|] eqn:Et.
    + apply seal_terminal_some in Et as [Ht Hx]; [| apply card_nonneg ..].
      apply finish_with_inv; [done | | done]. destruct Hx as [[-> _] | [-> _]]; auto.
    + assert (inv (set_sealed b)) as Hs.
      { destruct Hp as [H1 H2 H3 H4]. split; try done. intros _ Ht Hc. exfalso.
        revert Et. unfold Seal.terminal.
        destruct (Z.eqb_spec (b_total (set_sealed b)) 0); [lia |].
        destruct (Z.leb_spec (b_total (set_sealed b)) (card (b_ok (set_sealed b)))); [done |].
        destruct (Z.leb_spec (b_total (set_sealed b))
                    (card (b_ok (set_sealed b)) + card (b_failed (set_sealed b)))); [done | lia]. }
      destruct (0 <? _); [by apply early_inv | done].
  - destruct Hp as [H1 H2 H3 H4]. by split.
Qed.

Lemma add_inv n b : inv b → 0 <= n → inv (add_jobs n b).2.
Proof.
  intros Hi Hn. unfold add_jobs.
  destruct (_ || b_finished b || b_any b) eqn:E; [done |].
  apply orb_false_iff in E as [[E1 E2]%orb_false_iff E3].
  destruct Hi as [[W1 W2 W3] H2 H3 H4 H5]. cbn [snd]. split; try done.
  - split; try done. cbn. intros i Hi%W3. lia.
  - unfold b_finished in *. cbn. congruence.
  - cbn. intros Hs Ht Hc. apply H5; [done | | lia].
    rewrite card_sum_union in Hc by done. apply card_subset in W2.
    destruct (decide (1 <= b_total b)); [done |].
    assert (b_touched b = ∅) as E4 by (apply set_eq; intros i; split; [intros Hi%W3; lia | set_solver]).
    rewrite E4 in W2. unfold card in *. rewrite size_empty in W2. lia.
Qed.

Lemma cancel_inv b : inv b → inv (cancel b).
Proof.
  intros Hi. unfold cancel. destruct (terminal_status (b_status b)); [done |].
  destruct Hi as [H1 H2 H3 H4 H5]. split; try done; [by apply (wf_same b) | by right; right].
Qed.

Lemma claim_inv kind b : inv b → inv (claim kind b).2.
Proof.
  intros Hi. unfold claim. cbn [snd]. destruct (if String.eqb kind "complete" then _ else _);
    [done |].
  destruct Hi as [H1 H2 H3 H4 H5]. split; try done; [by apply (wf_same b) |].
  intros Hf. cbn. rewrite (H4 Hf). apply orb_true_r.
Qed.

Lemma astep_inv c b : inv b → valid c b → inv (astep c b).1.
Proof.
  destruct c; cbn; intros Hi Hv;
    [apply record_inv; tauto | by apply seal_inv | by apply add_inv | by apply cancel_inv
    | by apply claim_inv].
Qed.

Lemma fresh_inv n sealed : 0 <= n → inv (fresh_batch n sealed).
Proof.
  intros Hn. split; [split; cbn; set_solver | auto | done | done |].
  cbn. unfold card. rewrite size_empty. lia.
Qed.

(** ** The scripts follow the specification *)

Lemma run_of {R A} (m : script R A) s P :
  wp m s (returns P) → ∃ r, (run m s).2 = Some r ∧ P (run m s).1 r.
Proof. intros H. destruct (wp_run m s P H) as (s' & r & E & HP). rewrite E. eauto. Qed.

Lemma exec_refines id c s b :
  abs s id b → inv b → valid c b →
  abs (exec id c s).1 id (astep c b).1 ∧ (exec id c s).2 = (astep c b).2.
Proof.
  intros Ha Hi Hv. destruct c as [seq op ttl now score fttl | now ttl score | n ttl | score
                                 | now node kind]; cbn [exec astep valid fst snd] in *.
  - destruct Hv as [Hs Hnow].
    destruct (run_of _ _ _ (done_refines id s b seq op ttl now score fttl Ha (inv_wf _ Hi)
      (λ H1, inv_touched_nonempty b seq Hi H1 Hs) Hnow)) as (r & Er & -> & Ha').
    destruct (run _ _) as [s' o]. cbn in *. by subst.
  - destruct (run_of _ _ _ (seal_refines id s b now ttl score Ha (inv_wf _ Hi) Hv))
      as (r & Er & -> & Ha').
    destruct (run _ _) as [s' o]. cbn in *. by subst.
  - destruct (abs_seq _ _ _ Ha) as [q Hq].
    by destruct (run_of _ _ _ (add_refines id s b n ttl q Ha Hq)) as (r & Er & Ha' & _).
  - assert (b_status b ≠ "") as Hne.
    { destruct (inv_known _ Hi) as [E | [E | E]]; [by rewrite E | | by rewrite E].
      intros E'. unfold b_finished in E. by rewrite E' in E. }
    by destruct (run_of _ _ _ (cancel_refines id s b score Ha Hne)) as (r & Er & _ & Ha').
  - destruct (run_of _ _ _ (claim_refines id s b now node kind Ha Hv)) as (r & Er & -> & Ha').
    destruct (claim kind b) as [w b'], (run _ _) as [s' o]. cbn in *. subst. split; [done |].
    by destruct w.
Qed.

Lemma exec_all_refines id cs s b :
  abs s id b → inv b → valid_all cs b →
  abs (exec_all id cs s).1 id (asteps cs b).1 ∧ (exec_all id cs s).2 = (asteps cs b).2
  ∧ inv (asteps cs b).1.
Proof.
  revert s b. induction cs as [|c cs IH]; intros s b Ha Hi Hv; [done |].
  destruct Hv as [Hv Hvs]. cbn [exec_all asteps].
  destruct (exec_refines id c s b Ha Hi Hv) as [Ha' Ef].
  pose proof (astep_inv c b Hi Hv) as Hi'.
  destruct (exec id c s) as [s' f], (astep c b) as [b' f']. cbn in *. subst f'.
  destruct (IH s' b' Ha' Hi' Hvs) as (I1 & I2 & I3).
  destruct (exec_all id cs s') as [s'' fs], (asteps cs b') as [b'' fs']. cbn in *. by subst.
Qed.

(** ** Callback claims are counted exactly *)

Definition b2n (b : bool) : nat := if b then 1%nat else 0%nat.

Definition count (p : fired -> bool) (fs : list fired) : nat :=
  length (filter (λ f, p f = true) fs).

Lemma count_cons p f fs : count p (f :: fs) = (b2n (p f) + count p fs)%nat.
Proof. unfold count. rewrite filter_cons. by destruct (p f). Qed.

(** A step fires a callback exactly when it sets its claim. *)
Definition claims_once (c : call) (b : batch) : Prop :=
  (b_complete (astep c b).1 = b_complete b || f_complete (astep c b).2)
  ∧ (b_complete b && f_complete (astep c b).2 = false)
  ∧ (b_success (astep c b).1 = b_success b || f_success (astep c b).2)
  ∧ (b_success b && f_success (astep c b).2 = false).

Lemma finish_with_claims term n m b :
  (term = "success" ∨ term = "complete") → n = 2 →
  let r := finish_with term (n, m) b in
  f_complete (fires r.1) = negb (b_complete b) ∧ b_complete r.2 = true
  ∧ f_success (fires r.1) = String.eqb term "success" && negb (b_success b)
  ∧ b_success r.2 = b_success b || String.eqb term "success".
Proof.
  intros [-> | ->] ->; destruct b as [st ? ? ? ? ? c u ?]; unfold finish_with; cbn;
    destruct (String.eqb st "running"), c, u; done.
Qed.

Lemma early_claims n m b :
  n = 2 →
  let r := early (n, m) b in
  b_complete r.2 = b_complete b || f_complete (fires r.1)
  ∧ b_complete b && f_complete (fires r.1) = false
  ∧ f_success (fires r.1) = false ∧ b_success r.2 = b_success b.
Proof.
  intros ->. unfold early. destruct b as [st ? ? ? ? ? c u ?]; cbn.
  destruct (_ <=? _), c; done.
Qed.

Lemma finish_with_once term n m b :
  (term = "success" ∨ term = "complete") → n = 2 →
  let r := finish_with term (n, m) b in
  b_complete r.2 = b_complete b || f_complete (fires r.1)
  ∧ b_complete b && f_complete (fires r.1) = false
  ∧ b_success r.2 = b_success b || f_success (fires r.1)
  ∧ b_success b && f_success (fires r.1) = false.
Proof.
  intros Ht Hn r. destruct (finish_with_claims term n m b Ht Hn) as (E1 & E2 & E3 & E4).
  fold r in E1, E2, E3, E4. rewrite E1, E2, E3, E4.
  destruct (b_complete b), (b_success b), (String.eqb term "success"); done.
Qed.

Lemma terminal_name t c f x :
  BatchDone.terminal t c f = Some x → x = "success" ∨ x = "complete".
Proof. unfold BatchDone.terminal. repeat case_match; intros; simplify_eq; auto. Qed.

Lemma seal_terminal_name t c f x :
  Seal.terminal t c f = Some x → x = "success" ∨ x = "complete".
Proof. unfold Seal.terminal. repeat case_match; intros; simplify_eq; auto. Qed.

Lemma conclude_once b :
  let r := conclude b in
  b_complete r.2 = b_complete b || f_complete (fires r.1)
  ∧ b_complete b && f_complete (fires r.1) = false
  ∧ b_success r.2 = b_success b || f_success (fires r.1)
  ∧ b_success b && f_success (fires r.1) = false.
Proof.
  unfold conclude. destruct (_ || _); cbn zeta.
  { cbn. by rewrite !orb_false_r, !andb_false_r. }
  destruct (BatchDone.terminal _ _ _) as [term|] eqn:Et.
  - apply finish_with_once; [by eapply terminal_name | done].
  - destruct (early_claims 2 "continue" b eq_refl) as (E1 & E2 & E3 & E4).
    rewrite E1, E2, E3, E4. by rewrite orb_false_r, andb_false_r.
Qed.

Ltac quiet := cbn; rewrite ?orb_false_r, ?andb_false_r; split_and!; reflexivity.

Lemma astep_once c b : claims_once c b.
Proof.
  unfold claims_once. destruct c as [seq op ttl now score fttl | now ttl score | n ttl | score
                                    | now node kind]; cbn [astep fst snd].
  - unfold record. destruct (_ || _); [quiet |]. destruct (String.eqb _ "cancelled"); [quiet |].
    destruct (negb _); [quiet |]. apply (conclude_once (mark op (seq - 1) b)).
  - unfold seal. destruct (negb _); [quiet |].
    destruct (Seal.terminal _ _ _) as [term|] eqn:Et.
    + apply (finish_with_once term 2 "sealed" (set_sealed b)); [by eapply seal_terminal_name | done].
    + destruct (0 <? _); [| quiet].
      destruct (early_claims 2 "sealed" (set_sealed b) eq_refl) as (E1 & E2 & E3 & E4).
      split_and!; [exact E1 | exact E2 | by rewrite E3, orb_false_r | by rewrite E3, andb_false_r].
  - unfold add_jobs. destruct (_ || _); quiet.
  - unfold cancel. destruct (terminal_status _); quiet.
  - unfold claim, claim_fires. destruct b as [st ? ? ? ? ? c u a]; cbn.
    destruct (String.eqb_spec kind "complete") as [-> |]; [by destruct c, u |].
    destruct (String.eqb kind "success"); cbn; [by destruct c, u | by destruct c, u, a].
Qed.

Lemma b2n_once (x y : bool) : x && y = false → b2n (x || y) = (b2n x + b2n y)%nat.
Proof. by destruct x, y. Qed.

(** Over a whole trace: the callbacks fired are the claims set. *)
Lemma asteps_count cs b :
  (b2n (b_complete b) + count f_complete (asteps cs b).2 = b2n (b_complete (asteps cs b).1)
   ∧ b2n (b_success b) + count f_success (asteps cs b).2 = b2n (b_success (asteps cs b).1))%nat.
Proof.
  revert b. induction cs as [|c cs IH]; intros b; [cbn; lia |]. cbn [asteps].
  destruct (astep_once c b) as (E1 & E2 & E3 & E4). destruct (astep c b) as [b' f].
  specialize (IH b'). destruct (asteps cs b') as [b'' fs]. cbn [fst snd] in *.
  rewrite !count_cons.
  rewrite E1, E3 in IH. rewrite !b2n_once in IH by done. lia.
Qed.

(** ** Positions recorded by a trace *)

Lemma conclude_sets b :
  b_ok (conclude b).2 = b_ok b ∧ b_failed (conclude b).2 = b_failed b
  ∧ b_touched (conclude b).2 = b_touched b ∧ b_sealed (conclude b).2 = b_sealed b
  ∧ b_total (conclude b).2 = b_total b.
Proof.
  unfold conclude, finish_with, early.
  destruct (_ || _); [done |]. destruct (BatchDone.terminal _ _ _) as [term|].
  - by destruct (String.eqb _ "running"), (String.eqb term "success").
  - by destruct (_ && _).
Qed.

Lemma seal_sets b :
  b_ok (seal b).2 = b_ok b ∧ b_failed (seal b).2 = b_failed b
  ∧ b_touched (seal b).2 = b_touched b ∧ b_sealed (seal b).2 = true
  ∧ b_total (seal b).2 = b_total b.
Proof.
  unfold seal, finish_with, early.
  destruct (negb _); [done |]. destruct (Seal.terminal _ _ _) as [term|].
  - by destruct (String.eqb _ "running"), (String.eqb term "success").
  - destruct (0 <? _); [| done]. by destruct (_ && _).
Qed.

Lemma add_sets n b :
  b_ok (add_jobs n b).2 = b_ok b ∧ b_failed (add_jobs n b).2 = b_failed b
  ∧ b_touched (add_jobs n b).2 = b_touched b ∧ b_sealed (add_jobs n b).2 = b_sealed b.
Proof. unfold add_jobs. by destruct (_ || _). Qed.

Lemma cancel_sets b :
  b_ok (cancel b) = b_ok b ∧ b_failed (cancel b) = b_failed b
  ∧ b_touched (cancel b) = b_touched b ∧ b_sealed (cancel b) = b_sealed b.
Proof. unfold cancel. by destruct (terminal_status _). Qed.

Lemma claim_sets kind b :
  b_ok (claim kind b).2 = b_ok b ∧ b_failed (claim kind b).2 = b_failed b
  ∧ b_touched (claim kind b).2 = b_touched b ∧ b_sealed (claim kind b).2 = b_sealed b
  ∧ b_status (claim kind b).2 = b_status b.
Proof. unfold claim. cbn [snd]. by destruct (if String.eqb kind "complete" then _ else _). Qed.

Lemma mark_grows op bit b :
  b_ok b ∪ b_failed b ⊆ b_ok (mark op bit b) ∪ b_failed (mark op bit b).
Proof.
  unfold mark. cbn. destruct (String.eqb op "success"), (String.eqb op "failed");
    intros i Hi; destruct (decide (i = bit)); set_solver.
Qed.

Definition decided (b : batch) : gset Z := b_ok b ∪ b_failed b.

Lemma astep_grows c b :
  decided b ⊆ decided (astep c b).1 ∧ (b_sealed b = true → b_sealed (astep c b).1 = true).
Proof.
  unfold decided. destruct c as [seq op ttl now score fttl | now ttl score | n ttl | score
                                | now node kind]; cbn [astep fst].
  - unfold record. destruct (_ || _); [done |]. destruct (String.eqb _ _); [done |].
    destruct (negb _); [done |].
    destruct (conclude_sets (mark op (seq - 1) b)) as (-> & -> & _ & -> & _).
    split; [apply mark_grows | done].
  - by destruct (seal_sets b) as (-> & -> & _ & -> & _).
  - by destruct (add_sets n b) as (-> & -> & _ & ->).
  - by destruct (cancel_sets b) as (-> & -> & _ & ->).
  - by destruct (claim_sets kind b) as (-> & -> & _ & -> & _).
Qed.

Lemma asteps_cons c cs b : (asteps (c :: cs) b).1 = (asteps cs (astep c b).1).1.
Proof. cbn [asteps]. destruct (astep c b) as [b' f]. cbn [fst]. by destruct (asteps cs b'). Qed.

Lemma asteps_grows cs b :
  decided b ⊆ decided (asteps cs b).1 ∧ (b_sealed b = true → b_sealed (asteps cs b).1 = true).
Proof.
  revert b. induction cs as [|c cs IH]; intros b; [done |]. rewrite asteps_cons.
  destruct (astep_grows c b), (IH (astep c b).1). split; [set_solver | auto].
Qed.

Definition is_cancel (c : call) : bool := match c with CCancel _ => true | _ => false end.
Definition is_seal (c : call) : bool := match c with CSeal _ _ _ => true | _ => false end.

(** [c] records a terminal outcome (success or failure) for [seq]. *)
Definition decides (seq : Z) (c : call) : bool :=
  match c with
  | CRecord s op _ _ _ _ => (s =? seq) && (String.eqb op "success" || String.eqb op "failed")
  | _ => false
  end.

Lemma finish_with_status term none b :
  (term = "success" ∨ term = "complete") → b_status b ≠ "cancelled" →
  b_status (finish_with term none b).2 ≠ "cancelled".
Proof.
  intros Ht Hb. unfold finish_with. cbn.
  destruct (String.eqb (b_status b) "running"), (String.eqb term "success"); cbn; try done;
    by destruct Ht as [-> | ->].
Qed.

Lemma early_status none b : b_status (early none b).2 = b_status b.
Proof. unfold early. by destruct (_ && _). Qed.

Lemma astep_not_cancelled c b :
  is_cancel c = false → b_status b ≠ "cancelled" → b_status (astep c b).1 ≠ "cancelled".
Proof.
  intros Hc Hb. destruct c as [seq op ttl now score fttl | now ttl score | n ttl | score
                              | now node kind]; cbn [astep fst].
  - unfold record. destruct (_ || _); [done |]. destruct (String.eqb _ _); [done |].
    destruct (negb _); [done |]. unfold conclude. destruct (_ || _); [done |].
    destruct (BatchDone.terminal _ _ _) as [term|] eqn:Et.
    + apply finish_with_status; [by eapply terminal_name | done].
    + by rewrite early_status.
  - unfold seal. destruct (negb _); [done |].
    destruct (Seal.terminal _ _ _) as [term|] eqn:Et.
    + apply finish_with_status; [by eapply seal_terminal_name | done].
    + destruct (0 <? _); [by rewrite early_status | done].
  - unfold add_jobs. by destruct (_ || _).
  - done.
  - by destruct (claim_sets kind b) as (_ & _ & _ & _ & ->).
Qed.

Lemma record_decides seq c b :
  decides seq c = true → 1 <= seq → b_status b ≠ "cancelled" →
  seq - 1 ∈ decided (astep c b).1.
Proof.
  intros Hd Hs Hb. destruct c as [seq' op ttl now score fttl | | | |]; try discriminate.
  cbn [decides] in Hd. apply andb_true_iff in Hd as [Es%Z.eqb_eq Eop]. subst seq'.
  cbn [astep fst]. unfold record, valid_op.
  destruct (Z.ltb_spec seq 1); [lia |]. rewrite Eop. cbn [orb negb].
  destruct (String.eqb_spec (b_status b) "cancelled"); [done |].
  destruct (news op (seq - 1) b) eqn:En; cbn [negb].
  - destruct (conclude_sets (mark op (seq - 1) b)) as (E1 & E2 & _).
    unfold decided. rewrite E1, E2. unfold mark. cbn.
    destruct (String.eqb op "success") eqn:E3; [set_solver |].
    rewrite orb_false_l in Eop. rewrite Eop. set_solver.
  - unfold decided. cbn. revert En. unfold news.
    destruct (String.eqb op "success") eqn:E3; [intros En | rewrite orb_false_l in Eop; rewrite Eop; intros En];
      apply bool_decide_eq_false, dec_stable in En; set_solver.
Qed.

Lemma trace_decides cs b seq :
  forallb (λ c, negb (is_cancel c)) cs = true → b_status b ≠ "cancelled" →
  existsb (decides seq) cs = true → 1 <= seq → seq - 1 ∈ decided (asteps cs b).1.
Proof.
  revert b. induction cs as [|c cs IH]; intros b Hc Hb He Hs; [done |].
  rewrite asteps_cons. cbn in Hc, He. apply andb_true_iff in Hc as [Hc1 Hc2].
  apply negb_true_iff in Hc1. apply orb_true_iff in He as [He | He].
  - apply (asteps_grows cs). by apply record_decides.
  - apply IH; auto. by apply astep_not_cancelled.
Qed.

Lemma trace_sealed cs b :
  b_sealed b || existsb is_seal cs = true → b_sealed (asteps cs b).1 = true.
Proof.
  revert b. induction cs as [|c cs IH]; intros b H; [by rewrite orb_false_r in H |].
  rewrite asteps_cons. apply IH. apply orb_true_iff in H as [H | H]; apply orb_true_iff.
  - left. by apply astep_grows.
  - cbn in H. apply orb_true_iff in H as [H | H]; [left | by right].
    destruct c; try discriminate. cbn. by destruct (seal_sets b) as (_ & _ & _ & -> & _).
Qed.

Lemma trace_not_cancelled cs b :
  forallb (λ c, negb (is_cancel c)) cs = true → b_status b ≠ "cancelled" →
  b_status (asteps cs b).1 ≠ "cancelled".
Proof.
  revert b. induction cs as [|c cs IH]; intros b Hc Hb; [done |].
  rewrite asteps_cons. cbn in Hc. apply andb_true_iff in Hc as [Hc1%negb_true_iff Hc2].
  apply IH; [done |]. by apply astep_not_cancelled.
Qed.

(** A set that holds every position below [n] has at least [n] elements. *)
Lemma card_cover n (X : gset Z) : (∀ i, 0 <= i < n → i ∈ X) → n <= card X.
Proof.
  intros H. assert (list_to_set (seqZ 0 n) ⊆ X) as Hs.
  { intros i Hi%elem_of_list_to_set%elem_of_seqZ. apply H. lia. }
  apply card_subset in Hs. unfold card at 1 in Hs.
  rewrite size_list_to_set in Hs by apply NoDup_seqZ. rewrite length_seqZ in Hs. lia.
Qed.

(** ** Batches without a failure *)

Definition is_failure (c : call) : bool :=
  match c with CRecord _ op _ _ _ _ => String.eqb op "failed" | _ => false end.

Record clean (b : batch) : Prop := {
  cl_failed : b_failed b = ∅;
  cl_status : b_status b ≠ "complete";
  cl_success : b_status b = "success" → b_success b = true
}.

Lemma finish_with_clean term none b :
  clean b → term = "success" → clean (finish_with term none b).2.
Proof.
  intros [H1 H2 H3] ->. unfold finish_with. cbn.
  destruct (String.eqb (b_status b) "running"); by split.
Qed.

Lemma early_clean none b : clean b → clean (early none b).2.
Proof. intros [H1 H2 H3]. unfold early. destruct (_ && _); by split. Qed.

Lemma terminal_clean t c x : BatchDone.terminal t c (card ∅) = Some x → x = "success".
Proof.
  unfold BatchDone.terminal, card. rewrite size_empty, Z.add_0_r.
  destruct (t <=? c); intros; by simplify_eq.
Qed.

Lemma seal_terminal_clean t c x : Seal.terminal t c (card ∅) = Some x → x = "success".
Proof.
  unfold Seal.terminal, card. rewrite size_empty, Z.add_0_r.
  destruct (t =? 0), (t <=? c); intros; by simplify_eq.
Qed.

Lemma astep_clean c b : clean b → is_failure c = false → clean (astep c b).1.
Proof.
  intros Hc Hf. destruct c as [seq op ttl now score fttl | now ttl score | n ttl | score
                              | now node kind]; cbn [astep fst is_failure] in *.
  - unfold record. destruct (_ || _); [done |]. destruct (String.eqb _ "cancelled"); [done |].
    destruct (negb _); [done |].
    assert (clean (mark op (seq - 1) b)) as Hm.
    { destruct Hc as [H1 H2 H3]. split; try done. cbn. rewrite Hf, H1.
      destruct (String.eqb op "success"); set_solver. }
    unfold conclude. destruct (_ || _); [done |].
    destruct (BatchDone.terminal _ _ _) as [term|] eqn:Et; [| by apply early_clean].
    rewrite (cl_failed _ Hm) in Et. apply finish_with_clean; [done | by eapply terminal_clean].
  - unfold seal. assert (clean (set_sealed b)) as Hm by (by destruct Hc).
    destruct (negb _); [done |].
    destruct (Seal.terminal _ _ _) as [term|] eqn:Et.
    + rewrite (cl_failed _ Hm) in Et.
      apply finish_with_clean; [done | by eapply seal_terminal_clean].
    + destruct (0 <? _); [by apply early_clean | done].
  - unfold add_jobs. destruct (_ || _); [done | by destruct Hc].
  - unfold cancel. destruct (terminal_status _); [done |]. destruct Hc. by split.
  - destruct Hc as [H1 H2 H3]. destruct (claim_sets kind b) as (E1 & E2 & _ & _ & E5).
    split; rewrite ?E2, ?E5; try done. intros Hs%H3.
    destruct (astep_once (CClaim now node kind) b) as (_ & _ & E & _). cbn [astep fst] in E.
    by rewrite E, Hs.
Qed.

Lemma asteps_clean cs b :
  clean b → forallb (λ c, negb (is_failure c)) cs = true → clean (asteps cs b).1.
Proof.
  revert b. induction cs as [|c cs IH]; intros b Hc Hf; [done |].
  rewrite asteps_cons. cbn in Hf. apply andb_true_iff in Hf as [H1%negb_true_iff H2].
  apply IH; [by apply astep_clean | done].
Qed.

(** A sealed trace that decides every position ends in a finished batch. *)
Lemma trace_finished cs b0 :
  inv (asteps cs b0).1 → b_status b0 ≠ "cancelled" →
  b_sealed b0 || existsb is_seal cs = true →
  forallb (λ c, negb (is_cancel c)) cs = true →
  1 <= b_total (asteps cs b0).1 →
  (∀ seq, 1 <= seq <= b_total (asteps cs b0).1 → existsb (decides seq) cs = true) →
  b_finished (asteps cs b0).1 = true.
Proof.
  intros Hi Hb Hseal Hcancel Hne Hall. set (b := (asteps cs b0).1) in *.
  assert (b_total b <= card (decided b)) as Hc.
  { apply card_cover. intros i Hr. replace i with (i + 1 - 1) by lia.
    apply trace_decides; [done | done | apply Hall; lia | lia]. }
  unfold decided in Hc. rewrite <- card_sum_union in Hc by apply Hi.
  destruct (inv_known _ Hi) as [E | [E | E]]; [| done |]; exfalso.
  - eapply (inv_eager _ Hi); [by apply trace_sealed | done | done | done].
  - revert E. by apply trace_not_cancelled.
Qed.

(** ** Events that add nothing *)

Lemma run_exact {R A} (m : script R A) s s' r :
  wp m s (λ t f, t = s' ∧ f = Return r) → run m s = (s', Some r).
Proof. unfold wp, run. destruct (m s) as [t f]. by intros [-> ->]. Qed.

(** The keyspace, times to live included, is left exactly as it was. *)
Lemma done_stale id s b seq op ttl now score fttl :
  abs s id b → wf b → (1 <= seq → b_finished b = true → b_touched b ≠ ∅) →
  1 <= seq → valid_op op = true →
  b_status b = "cancelled" ∨ news op (seq - 1) b = false →
  run (done_script id seq op ttl now score fttl) s = (s, Some (0, "duplicate")).
Proof.
  intros Ha Hwf Hfin Hs Hop Hd. apply run_exact.
  unfold done_script, BatchDone.batchDoneJob. steps.
  eapply guard_spec; [exact Ha | exact Hfin |].
  destruct (Z.ltb_spec seq 1); [lia |]. rewrite Hop. cbn [orb negb].
  destruct (String.eqb_spec (b_status b) "cancelled") as [E | E]; [done |].
  destruct Hd as [Hd | Hd]; [done |]. steps.
  eapply touch_spec; [exact Ha | | |].
  - intros Hbit. by rewrite news_untouched in Hd.
  - intros Hbit Hne. steps.
    destruct (valid_op_cases op Hop) as [-> | [-> | ->]]; [| | done];
      unfold news in Hd; cbn in Hd; apply bool_decide_eq_false, dec_stable in Hd.
    + by eapply success_spec; [exact Ha | done | |].
    + by eapply failed_spec; [exact Ha | done | |].
  - done.
Qed.

Lemma news_after seq op b :
  1 <= seq → valid_op op = true → b_status (record seq op b).2 ≠ "cancelled" →
  news op (seq - 1) (record seq op b).2 = false.
Proof.
  intros Hs Hop. unfold record. destruct (Z.ltb_spec seq 1); [lia |]. rewrite Hop. cbn [orb negb].
  destruct (String.eqb_spec (b_status b) "cancelled") as [E | E]; [done |].
  destruct (news op (seq - 1) b) eqn:En; cbn [negb]; [| done]. intros _.
  destruct (conclude_sets (mark op (seq - 1) b)) as (E1 & E2 & E3 & _).
  unfold news. rewrite E1, E2, E3. unfold mark. cbn.
  destruct (String.eqb op "success"), (String.eqb op "failed"); apply bool_decide_eq_false;
    set_solver.
Qed.

(** ** Traces of events: the final sets do not depend on their order *)

Definition event : Type := Z * string.

Definition ev_call (ttl : Z) (now : string) (score : Q) (fttl : Z) (e : event) : call :=
  CRecord e.1 e.2 ttl now score fttl.

Definition bits_of (op : string) (evs : list event) : gset Z :=
  list_to_set ((λ e, e.1 - 1) <$> filter (λ e, e.2 = op) evs).

Definition all_bits (evs : list event) : gset Z := list_to_set ((λ e, e.1 - 1) <$> evs).

Definition good_event (total : Z) (e : event) : Prop :=
  1 <= e.1 <= total ∧ valid_op e.2 = true.

Record after_events (b b' : batch) (evs : list event) : Prop := {
  ae_touched : b_touched b' = b_touched b ∪ all_bits evs;
  ae_ok : b_ok b' = b_ok b ∪ bits_of "success" evs;
  ae_failed : b_failed b' = (b_failed b ∪ bits_of "failed" evs) ∖ b_ok b';
  ae_total : b_total b' = b_total b
}.

Lemma record_sets seq op b :
  wf b → 1 <= seq → valid_op op = true → b_status b ≠ "cancelled" →
  after_events b (record seq op b).2 [(seq, op)].
Proof.
  intros Hwf Hs Hop Hc. pose proof Hwf as [W1 W2 _]. unfold record.
  destruct (Z.ltb_spec seq 1); [lia |]. rewrite Hop. cbn [orb negb].
  destruct (String.eqb_spec (b_status b) "cancelled") as [E | E]; [done |].
  destruct (news op (seq - 1) b) eqn:En; cbn [negb].
  - destruct (conclude_sets (mark op (seq - 1) b)) as (E1 & E2 & E3 & _ & E5).
    destruct (valid_op_cases op Hop) as [-> | [-> | ->]]; unfold news in En; cbn in En;
      apply bool_decide_eq_true in En; split; rewrite ?E1, ?E2, ?E3, ?E5;
      unfold mark, all_bits, bits_of; cbn; try done; set_solver.
  - destruct (valid_op_cases op Hop) as [-> | [-> | ->]]; unfold news in En; cbn in En;
      apply bool_decide_eq_false, dec_stable in En; split;
      unfold all_bits, bits_of; cbn; try done; set_solver.
Qed.

Lemma bits_of_app op l k : bits_of op (l ++ k) = bits_of op l ∪ bits_of op k.
Proof. unfold bits_of. by rewrite filter_app, fmap_app, list_to_set_app_L. Qed.

Lemma all_bits_app l k : all_bits (l ++ k) = all_bits l ∪ all_bits k.
Proof. unfold all_bits. by rewrite fmap_app, list_to_set_app_L. Qed.

Lemma after_events_trans b b' b'' l k :
  after_events b b' l → after_events b' b'' k → after_events b b'' (l ++ k).
Proof.
  intros [H1 H2 H3 H4] [K1 K2 K3 K4].
  split.
  - rewrite all_bits_app, K1, H1. set_solver.
  - rewrite bits_of_app, K2, H2. set_solver.
  - rewrite bits_of_app, K3, H3, K2. set_solver.
  - by rewrite K4.
Qed.

Lemma events_trace (mk : event -> call) evs b :
  (∀ e, ∃ ttl now score fttl, mk e = CRecord e.1 e.2 ttl now score fttl ∧ now ≠ "") →
  inv b → b_status b ≠ "cancelled" → Forall (good_event (b_total b)) evs →
  valid_all (mk <$> evs) b ∧ after_events b (asteps (mk <$> evs) b).1 evs.
Proof.
  intros Hmk. revert b. induction evs as [|e evs IH]; intros b Hi Hb Hg.
  - split; [done |]. destruct (inv_wf _ Hi). split; cbn; set_solver.
  - apply Forall_cons in Hg as [[Hs Hop] Hg].
    destruct (Hmk e) as (ttl & now & score & fttl & Em & Hnow).
    pose proof (record_sets e.1 e.2 b (inv_wf _ Hi) (proj1 Hs) Hop Hb) as Hr.
    assert (valid (mk e) b) as Hv by (rewrite Em; cbn; split; [lia | done]).
    assert ((astep (mk e) b).1 = (record e.1 e.2 b).2) as Es by (by rewrite Em).
    destruct (IH (astep (mk e) b).1) as [I1 I2].
    + by apply astep_inv.
    + apply astep_not_cancelled; [by rewrite Em | done].
    + rewrite Es, (ae_total _ _ _ Hr). done.
    + rewrite fmap_cons. cbn [valid_all]. split; [done |]. rewrite asteps_cons.
      change (e :: evs) with ([e] ++ evs). eapply after_events_trans; [| exact I2].
      rewrite Es. by destruct e.
Qed.

(** ** What a fired callback says of the batch *)

Record sound (f : fired) (b : batch) : Prop := {
  sound_success : f_success f = true → b_sealed b = true ∧ b_total b <= card (b_ok b);
  sound_complete : f_complete f = true → b_sealed b = true ∧ b_total b <= card (b_touched b)
}.

Lemma sound_none n m b : n ≠ 1 → n ≠ 3 → sound (fires (n, m)) b.
Proof.
  intros H1 H3. split; cbn; destruct (Z.eqb_spec n 1), (Z.eqb_spec n 3); done.
Qed.

Lemma finish_with_sound term n m b :
  wf b → b_sealed b = true → b_total b <= card (b_ok b) + card (b_failed b) →
  (term = "success" ∧ b_total b <= card (b_ok b) ∨ term = "complete") → n = 2 →
  sound (fires (finish_with term (n, m) b).1) (finish_with term (n, m) b).2.
Proof.
  intros [W1 W2 _] Hs Hc Ht ->.
  assert (term = "success" ∨ term = "complete") as Hn by naive_solver.
  destruct (finish_with_claims term 2 m b Hn eq_refl) as (E1 & _ & E3 & _).
  rewrite card_sum_union in Hc by done. apply card_subset in W2.
  assert (∀ P : batch → Prop, (∀ st c u a, P (Batch st (b_total b) (b_sealed b) (b_touched b)
            (b_ok b) (b_failed b) c u a)) → P (finish_with term (2, m) b).2) as Hp.
  { intros P HP. unfold finish_with. cbn [snd].
    destruct (String.eqb (b_status b) "running"), (String.eqb term "success"); apply HP. }
  split.
  - rewrite E3. destruct Ht as [[-> Ht] | ->]; [| done]. intros _. by apply Hp.
  - intros _. apply Hp. cbn. split; [done | lia].
Qed.

Lemma early_sound n m b :
  b_sealed b = true → n = 2 → sound (fires (early (n, m) b).1) (early (n, m) b).2.
Proof.
  intros Hs ->. unfold early. destruct (Z.leb_spec (b_total b) (card (b_touched b)));
    cbn [andb]; [destruct (negb _) |]; [| by apply sound_none ..]. split; [done |]. by intros _.
Qed.

Lemma record_sound seq op b :
  wf b → seq <= b_total b → sound (fires (record seq op b).1) (record seq op b).2.
Proof.
  intros Hwf Hseq. unfold record. destruct (Z.ltb_spec seq 1); [by apply sound_none |].
  destruct (valid_op op) eqn:Eo; [| by apply sound_none]. cbn [orb negb].
  destruct (String.eqb _ "cancelled"); [by apply sound_none |].
  destruct (news _ _ _) eqn:En; [| by apply sound_none]. cbn [negb].
  assert (wf (mark op (seq - 1) b)) as Hm by (apply wf_mark; [done .. | lia]).
  unfold conclude. destruct (b_sealed _) eqn:Es; [| by apply sound_none].
  destruct (_ <? _); [by apply sound_none |]. cbn [negb orb].
  destruct (BatchDone.terminal _ _ _) as [term|] eqn:Et; [| by apply early_sound].
  apply terminal_some in Et as [Et1 Et2]; [| apply card_nonneg].
  apply finish_with_sound; naive_solver.
Qed.

Lemma seal_sound b : wf b → sound (fires (seal b).1) (seal b).2.
Proof.
  intros Hwf. unfold seal. destruct (negb _); [by apply sound_none |].
  assert (wf (set_sealed b)) as Hm by (by destruct Hwf).
  destruct (Seal.terminal _ _ _) as [term|] eqn:Et.
  - apply seal_terminal_some in Et as [Et1 Et2]; [| apply card_nonneg ..].
    apply finish_with_sound; naive_solver.
  - destruct (0 <? _); [by apply early_sound | by apply sound_none].
Qed.

(** ** A cancelled batch is frozen *)

Definition is_claim (c : call) : bool := match c with CClaim _ _ _ => true | _ => false end.

Record frozen (b b' : batch) : Prop := {
  fz_status : b_status b' = "cancelled";
  fz_total : b_total b' = b_total b;
  fz_touched : b_touched b' = b_touched b;
  fz_ok : b_ok b' = b_ok b;
  fz_failed : b_failed b' = b_failed b
}.

Lemma astep_frozen c b :
  b_status b = "cancelled" → is_claim c = false →
  frozen b (astep c b).1 ∧ (astep c b).2 = no_fire.
Proof.
  intros Hb Hc. destruct c; try discriminate Hc; cbn [astep fst snd].
  - unfold record. rewrite Hb. cbn. by destruct (_ || _).
  - unfold seal. cbn. by rewrite Hb.
  - unfold add_jobs. by rewrite Hb.
  - unfold cancel. by rewrite Hb.
Qed.

Lemma asteps_frozen cs b :
  b_status b = "cancelled" → forallb (λ c, negb (is_claim c)) cs = true →
  frozen b (asteps cs b).1 ∧ Forall (λ f, f = no_fire) (asteps cs b).2.
Proof.
  revert b. induction cs as [|c cs IH]; intros b Hb Hc; [by repeat split; cbn; auto |].
  cbn in Hc. apply andb_true_iff in Hc as [H1%negb_true_iff H2].
  destruct (astep_frozen c b Hb H1) as [[F1 F2 F3 F4 F5] Ef]. cbn [asteps].
  destruct (astep c b) as [b' f]. cbn [fst snd] in *. subst f.
  destruct (IH b' F1 H2) as [[G1 G2 G3 G4 G5] Gf].
  destruct (asteps cs b') as [b'' fs]. cbn [fst snd] in *.
  split; [by split; congruence | by constructor].
Qed.

Lemma record_total seq op b : b_total (record seq op b).2 = b_total b.
Proof.
  unfold record. destruct (_ || _); [done |]. destruct (String.eqb _ _); [done |].
  destruct (negb _); [done |].
  by destruct (conclude_sets (mark op (seq - 1) b)) as (_ & _ & _ & _ & ->).
Qed.

(** The sets after a list of events depend only on the events as a multiset. *)
Lemma after_events_perm b b1 b2 evs evs' :
  evs ≡ₚ evs' → after_events b b1 evs → after_events b b2 evs' →
  b_touched b1 = b_touched b2 ∧ b_ok b1 = b_ok b2 ∧ b_failed b1 = b_failed b2.
Proof.
  intros Hp [A1 A2 A3 _] [B1 B2 B3 _].
  assert (∀ op, bits_of op evs = bits_of op evs') as Hb.
  { intros op. unfold bits_of. apply list_to_set_perm_L. by rewrite Hp. }
  assert (all_bits evs = all_bits evs') as Ha.
  { unfold all_bits. apply list_to_set_perm_L. by rewrite Hp. }
  rewrite A3, B3, A1, B1, A2, B2, !Hb, Ha. done.
Qed.

(** The sequence allocator over consecutive additions. *)
Fixpoint add_all (id : string) (ns : list Z) (ttl : Z) (s : redis) : redis * list add_reply :=
  match ns with
  | [] => (s, [])
  | n :: ns =>
      let '(s', r) := run (addJobs (batchKey id) (seqKey id) n ttl) s in
      let '(s'', rs) := add_all id ns ttl s' in
      (s'', match r with Some r => r :: rs | None => rs end)
  end.

Definition range_of (r : add_reply) : list Z :=
  match r with AddRange _ a b => seqZ a (b - a + 1) | AddCode _ => [] end.

Definition open_batch (b : batch) : bool :=
  negb (String.eqb (b_status b) "cancelled" || b_finished b || b_any b).

Lemma add_all_ranges id ns ttl s b q :
  abs s id b → get_int s (seqKey id) = Some q → open_batch b = true → Forall (λ n, 0 < n) ns →
  ∃ s' b', (add_all id ns ttl s).1 = s' ∧ abs s' id b' ∧
    b_total b' = b_total b + foldr Z.add 0 ns ∧
    (add_all id ns ttl s).2 ≫= range_of = seqZ (q + 1) (foldr Z.add 0 ns) ∧
    length (add_all id ns ttl s).2 = length ns.
Proof.
  intros Ha Hq Ho Hn. revert s b q Ha Hq Ho.
  induction Hn as [|n ns Hn Hns IH]; intros s b q Ha Hq Ho.
  { exists s, b. split_and!; try done. cbn. lia. }
  destruct (wp_run _ _ _ (add_refines id s b n ttl q Ha Hq)) as (s' & r & E & Ha' & Hr).
  cbn [add_all foldr]. rewrite E. unfold open_batch in Ho. apply negb_true_iff in Ho.
  unfold add_jobs in Ha', Hr. rewrite Ho in Ha', Hr. cbn [fst snd] in Ha', Hr.
  rewrite (proj2 (Z.ltb_lt 0 n) Hn) in Hr. destruct Hr as [-> Hq'].
  destruct (IH s' _ (q + n) Ha' Hq') as (s2 & b2 & E2 & A2 & T2 & R2 & L2).
  { unfold open_batch, b_finished. cbn. by apply negb_true_iff. }
  destruct (add_all id ns ttl s') as [s3 rs]. cbn [fst snd] in *. subst s3.
  assert (0 <= foldr Z.add 0 ns) by (clear -Hns; induction Hns; cbn; lia).
  exists s2, b2. split_and!; [done | done | cbn in T2; lia | | cbn; lia].
  rewrite bind_cons, R2. cbn [range_of]. replace (q + n - (q + 1) + 1) with n by lia.
  replace (q + n + 1) with (q + 1 + n) by lia. by rewrite <- seqZ_app by lia.
Qed.
