(* ===== verification/LedgerProps.v ===== *)
(** The properties of the batch ledger. *)
From S2P Require Import Prelude Redis Ledger LedgerSpec LedgerRefine LedgerTrace.

(** The fields of a batch hash after a run. *)
Definition field (s : redis) (id f : string) : option string :=
  match get_hash s (batchKey id) with Some h => h !! f | None => None end.

Lemma abs_field s id b f :
  abs s id b → ∃ h, get_hash s (batchKey id) = Some h ∧ hash_ok id b h ∧ field s id f = h !! f.
Proof. intros [[h [Eh Hh]] _ _ _ _ _]. exists h. unfold field. by rewrite Eh. Qed.

Lemma abs_status s id b : abs s id b → field s id "status" = Some (b_status b).
Proof. intros H. destruct (abs_field s id b "status" H) as (h & _ & Hh & ->). apply Hh. Qed.

Lemma abs_total s id b : abs s id b → tonum (field s id "total_jobs") = b_total b.
Proof.
  intros H. destruct (abs_field s id b "total_jobs" H) as (h & _ & Hh & ->).
  rewrite (ho_total _ _ _ Hh). apply tonum_itoa.
Qed.

Lemma abs_completed s id b : abs s id b → tonum (field s id "completed_count") = card (b_ok b).
Proof.
  intros H. destruct (abs_field s id b "completed_count" H) as (h & _ & Hh & ->).
  rewrite (ho_completed _ _ _ Hh). apply tonum_itoa.
Qed.

Lemma abs_failed s id b : abs s id b → tonum (field s id "failed_count") = card (b_failed b).
Proof.
  intros H. destruct (abs_field s id b "failed_count" H) as (h & _ & Hh & ->).
  rewrite (ho_failed _ _ _ Hh). apply tonum_itoa.
Qed.

Lemma abs_touch s id b : abs s id b → tonum (field s id "touched_count") = card (b_touched b).
Proof.
  intros H. destruct (abs_field s id b "touched_count" H) as (h & _ & Hh & ->).
  rewrite (ho_touched _ _ _ Hh). apply tonum_itoa.
Qed.

(** A concrete batch of two jobs, created in an empty Redis. *)
Definition demo : redis :=
  (run (createBatch (batchKey "b1") "b1" (itoa 2) "" "" "" "2024-01-01T00:00:00Z" 604800
          "" "" "" "") empty_redis).1.

Lemma demo_abs : abs demo "b1" (fresh_batch 2 false).
Proof.
  unfold demo.
  destruct (run_of _ _ _ (create_refines "b1" empty_redis 2 "" "" "" "2024-01-01T00:00:00Z"
    604800 "" "" "" "" eq_refl eq_refl eq_refl eq_refl
    ltac:(split; [exists ∅; by split | eexists; reflexivity ..])
    ltac:(eexists; reflexivity))) as (r & _ & _ & H). exact H.
Qed.

Definition t0 : string := "2024-01-01T00:00:01Z".

(** Job 2 fails first, the producer seals, job 1 succeeds, and both events are
    delivered again. *)
Definition demo_trace : list call :=
  [CRecord 2 "failed" 60 t0 (1#1) 30; CSeal t0 60 (1#1); CRecord 1 "executed" 60 t0 (1#1) 30;
   CRecord 1 "success" 60 t0 (1#1) 30; CRecord 2 "failed" 60 t0 (1#1) 30;
   CRecord 1 "success" 60 t0 (1#1) 30].

(** C1: whatever the order of completion events, redeliveries, sealing, job
    additions and callback claims, once the batch is sealed and every sequence
    number has a success or a failure recorded, the scripts have moved the
    batch to a terminal status, and over the whole trace on_complete was given
    out exactly once. *)
Theorem batch_converges (id : string) (s : redis) (n : Z) (sealed : bool) (cs : list call)
  (Hs : abs s id (fresh_batch n sealed)) (Hn : 0 <= n)
  (Hv : valid_all cs (fresh_batch n sealed))
  (Hseal : sealed || existsb is_seal cs = true)
  (Hcancel : forallb (λ c, negb (is_cancel c)) cs = true)
  (Hnonempty : 1 <= tonum (field (exec_all id cs s).1 id "total_jobs"))
  (Hall : ∀ seq, 1 <= seq <= tonum (field (exec_all id cs s).1 id "total_jobs") →
            existsb (decides seq) cs = true) :
  finished (field (exec_all id cs s).1 id "status") = true ∧
  count f_complete (exec_all id cs s).2 = 1%nat.
Proof.
  destruct (exec_all_refines id cs s _ Hs (fresh_inv n sealed Hn) Hv) as (Ha & -> & Hi).
  rewrite (abs_total _ _ _ Ha) in *. rewrite (abs_status _ _ _ Ha).
  assert (b_finished (asteps cs (fresh_batch n sealed)).1 = true) as Hf
    by (by apply trace_finished).
  split; [exact Hf |].
  destruct (asteps_count cs (fresh_batch n sealed)) as [E _].
  rewrite (inv_claim _ Hi Hf) in E. exact E.
Qed.

Lemma batch_converges_witness :
  finished (field (exec_all "b1" demo_trace demo).1 "b1" "status") = true ∧
  count f_complete (exec_all "b1" demo_trace demo).2 = 1%nat.
Proof.
  apply (batch_converges "b1" demo 2 false demo_trace demo_abs);
    [lia | repeat split; cbn; lia || done | reflexivity | reflexivity | vm_compute; discriminate |].
  replace (tonum (field (exec_all "b1" demo_trace demo).1 "b1" "total_jobs")) with 2
    by (vm_compute; reflexivity).
  intros seq Hq. assert (seq = 1 ∨ seq = 2) as [-> | ->] by lia; reflexivity.
Defined.

(** C2: If moreover no failure is recorded, the status is success and
    on_success, too, was given out exactly once. *)
Theorem all_success_converges (id : string) (s : redis) (n : Z) (sealed : bool) (cs : list call)
  (Hs : abs s id (fresh_batch n sealed)) (Hn : 0 <= n)
  (Hv : valid_all cs (fresh_batch n sealed))
  (Hseal : sealed || existsb is_seal cs = true)
  (Hcancel : forallb (λ c, negb (is_cancel c)) cs = true)
  (Hfail : forallb (λ c, negb (is_failure c)) cs = true)
  (Hnonempty : 1 <= tonum (field (exec_all id cs s).1 id "total_jobs"))
  (Hall : ∀ seq, 1 <= seq <= tonum (field (exec_all id cs s).1 id "total_jobs") →
            existsb (decides seq) cs = true) :
  field (exec_all id cs s).1 id "status" = Some "success" ∧
  count f_complete (exec_all id cs s).2 = 1%nat ∧
  count f_success (exec_all id cs s).2 = 1%nat.
Proof.
  destruct (exec_all_refines id cs s _ Hs (fresh_inv n sealed Hn) Hv) as (Ha & -> & Hi).
  rewrite (abs_total _ _ _ Ha) in *. rewrite (abs_status _ _ _ Ha).
  destruct (asteps_count cs (fresh_batch n sealed)) as [E1 E2].
  assert (clean (asteps cs (fresh_batch n sealed)).1) as [_ Hst Hsu].
  { apply asteps_clean; [by split | done]. }
  assert (b_finished (asteps cs (fresh_batch n sealed)).1 = true) as Hf
    by (by apply trace_finished).
  set (b := (asteps cs (fresh_batch n sealed)).1) in *.
  assert (b_status b = "success") as Hb.
  { unfold b_finished, finished in Hf. cbn in Hf.
    apply orb_true_iff in Hf as [E%String.eqb_eq | E%String.eqb_eq]; done. }
  rewrite Hb. rewrite (inv_claim _ Hi Hf) in E1. rewrite (Hsu Hb) in E2. done.
Qed.

Definition happy_trace : list call :=
  [CRecord 2 "success" 60 t0 (1#1) 30; CRecord 1 "executed" 60 t0 (1#1) 30;
   CSeal t0 60 (1#1); CClaim t0 "node" "complete"; CRecord 1 "success" 60 t0 (1#1) 30;
   CRecord 2 "success" 60 t0 (1#1) 30].

Lemma all_success_converges_witness :
  field (exec_all "b1" happy_trace demo).1 "b1" "status" = Some "success" ∧
  count f_complete (exec_all "b1" happy_trace demo).2 = 1%nat ∧
  count f_success (exec_all "b1" happy_trace demo).2 = 1%nat.
Proof.
  apply (all_success_converges "b1" demo 2 false happy_trace demo_abs);
    [lia | repeat split; cbn; lia || done | reflexivity .. | vm_compute; discriminate |].
  replace (tonum (field (exec_all "b1" happy_trace demo).1 "b1" "total_jobs")) with 2
    by (vm_compute; reflexivity).
  intros seq Hq. assert (seq = 1 ∨ seq = 2) as [-> | ->] by lia; reflexivity.
Defined.

(** C3: over any trace of valid calls, cancellations included, each callback is
    given out at most once, and not at all if it was claimed before. *)
Theorem callbacks_at_most_once (id : string) (s : redis) (b : batch) (cs : list call)
  (Hs : abs s id b) (Hb : inv b) (Hv : valid_all cs b) :
  (count f_complete (exec_all id cs s).2 <= 1 - b2n (b_complete b))%nat ∧
  (count f_success (exec_all id cs s).2 <= 1 - b2n (b_success b))%nat.
Proof.
  destruct (exec_all_refines id cs s b Hs Hb Hv) as (_ & -> & _).
  destruct (asteps_count cs b) as [E1 E2].
  assert (∀ x, (b2n x <= 1)%nat) as B by (by intros []; cbn; lia).
  pose proof (B (b_complete (asteps cs b).1)). pose proof (B (b_success (asteps cs b).1)). lia.
Qed.

Lemma callbacks_at_most_once_witness :
  (count f_complete (exec_all "b1" demo_trace demo).2 <= 1)%nat ∧
  (count f_success (exec_all "b1" demo_trace demo).2 <= 1)%nat.
Proof.
  apply (callbacks_at_most_once "b1" demo (fresh_batch 2 false) demo_trace demo_abs).
  - apply fresh_inv. lia.
  - repeat split; cbn; lia || done.
Defined.

(** C4: batchDoneJobLua implements the specification of an event: run on the
    keys of a well-formed batch it does not fail, replies what [record] says
    and leaves the keys holding the batch [record] says. *)
Theorem batchDoneJob_refines (id : string) (s : redis) (b : batch)
  (seq : Z) (op : string) (ttl : Z) (now : string) (score : Q) (fttl : Z)
  (Hs : abs s id b) (Hb : inv b) (Hseq : seq <= b_total b) (Hnow : now ≠ "") :
  ∃ s', run (BatchDone.batchDoneJob (batchKey id) (bitmapKey id) runningIndex doneIndex countsKey
               (okBitmapKey id) (failBitmapKey id) (seqKey id) seq op ttl now score fttl) s
        = (s', Some (record seq op b).1)
        ∧ abs s' id (record seq op b).2 ∧ inv (record seq op b).2.
Proof.
  destruct (wp_run _ _ _ (done_refines id s b seq op ttl now score fttl Hs (inv_wf _ Hb)
    (λ H1, inv_touched_nonempty b seq Hb H1 Hseq) Hnow)) as (s' & r & E & -> & Ha).
  exists s'. split_and!; [exact E | exact Ha | by apply record_inv].
Qed.

Lemma batchDoneJob_refines_witness :
  ∃ s', run (BatchDone.batchDoneJob (batchKey "b1") (bitmapKey "b1") runningIndex doneIndex
               countsKey (okBitmapKey "b1") (failBitmapKey "b1") (seqKey "b1")
               1 "success" 60 t0 (1#1) 30) demo
        = (s', Some (2, "continue"))
        ∧ abs s' "b1" (record 1 "success" (fresh_batch 2 false)).2
        ∧ inv (record 1 "success" (fresh_batch 2 false)).2.
Proof.
  apply (batchDoneJob_refines "b1" demo (fresh_batch 2 false) 1 "success" 60 t0 (1#1) 30 demo_abs);
    [apply fresh_inv; lia | cbn; lia | done].
Defined.

(** C5: sealBatchLua implements [seal], including the case where the last
    completion arrived before the seal and the seal itself finishes the batch. *)
Theorem sealBatch_refines (id : string) (s : redis) (b : batch)
  (now : string) (ttl : Z) (score : Q)
  (Hs : abs s id b) (Hb : inv b) (Hnow : now ≠ "") :
  ∃ s', run (Seal.sealBatch (batchKey id) countsKey runningIndex doneIndex (bitmapKey id)
               (okBitmapKey id) (failBitmapKey id) now ttl score) s
        = (s', Some (seal b).1) ∧ abs s' id (seal b).2 ∧ inv (seal b).2.
Proof.
  destruct (wp_run _ _ _ (seal_refines id s b now ttl score Hs (inv_wf _ Hb) Hnow))
    as (s' & r & E & -> & Ha).
  exists s'. split_and!; [exact E | exact Ha | by apply seal_inv].
Qed.

Lemma sealBatch_refines_witness :
  ∃ s', run (Seal.sealBatch (batchKey "b1") countsKey runningIndex doneIndex (bitmapKey "b1")
               (okBitmapKey "b1") (failBitmapKey "b1") t0 60 (1#1)) demo
        = (s', Some (2, "sealed"))
        ∧ abs s' "b1" (seal (fresh_batch 2 false)).2 ∧ inv (seal (fresh_batch 2 false)).2.
Proof.
  apply (sealBatch_refines "b1" demo (fresh_batch 2 false) t0 60 (1#1) demo_abs);
    [apply fresh_inv; lia | done].
Defined.

(** Completion events are idempotent. Whatever state a batch is in, once an
    event for a job was delivered, delivering it again (with any timestamps and
    times to live) replies duplicate and leaves the whole keyspace, times to
    live included, exactly as it is. *)
Theorem redelivery_is_noop (id : string) (s s1 : redis) (b : batch) (r : option reply)
  (seq : Z) (op : string) (ttl ttl' : Z) (now now' : string) (score score' : Q) (fttl fttl' : Z)
  (Hs : abs s id b) (Hb : inv b) (Hseq : 1 <= seq <= b_total b) (Hop : valid_op op = true)
  (Hnow : now ≠ "") (H1 : run (done_script id seq op ttl now score fttl) s = (s1, r)) :
  run (done_script id seq op ttl' now' score' fttl') s1 = (s1, Some (0, "duplicate")).
Proof.
  destruct (wp_run _ _ _ (done_refines id s b seq op ttl now score fttl Hs (inv_wf _ Hb)
    (λ H1, inv_touched_nonempty b seq Hb H1 (proj2 Hseq)) Hnow)) as (s' & r' & E & _ & Ha).
  rewrite E in H1. simplify_eq.
  assert (inv (record seq op b).2) as Hi by (apply record_inv; [done | lia]).
  eapply done_stale; [exact Ha | apply Hi | | lia | done |].
  - intros _. eapply (inv_touched_nonempty _ 1 Hi); [lia |].
    rewrite record_total. lia.
  - destruct (decide (b_status (record seq op b).2 = "cancelled")); [by left | right].
    apply news_after; [lia | done | done].
Qed.

Lemma redelivery_is_noop_witness :
  let s1 := (run (done_script "b1" 2 "failed" 60 t0 (1#1) 30) demo).1 in
  run (done_script "b1" 2 "failed" 99 "later" (5#1) 1) s1 = (s1, Some (0, "duplicate")).
Proof.
  cbv zeta.
  apply (redelivery_is_noop "b1" demo _ (fresh_batch 2 false)
    (run (done_script "b1" 2 "failed" 60 t0 (1#1) 30) demo).2 2 "failed" 60 99 t0 "later"
    (1#1) (5#1) 30 1 demo_abs);
    [apply fresh_inv; lia | cbn; lia | reflexivity | done | by destruct (run _ _)].
Defined.

Lemma same_after id s1 s2 b b1 b2 evs evs' :
  abs s1 id b1 → abs s2 id b2 → after_events b b1 evs → after_events b b2 evs' → evs ≡ₚ evs' →
  Forall (λ f, tonum (field s1 id f) = tonum (field s2 id f))
    ["completed_count"; "failed_count"; "touched_count"] ∧
  Forall (λ k, get_bits s1 k = get_bits s2 k) [bitmapKey id; okBitmapKey id; failBitmapKey id].
Proof.
  intros R1 R2 A1 A2 Hp. destruct (after_events_perm _ _ _ _ _ Hp A1 A2) as (E1 & E2 & E3).
  split; repeat constructor.
  - by rewrite (abs_completed _ _ _ R1), (abs_completed _ _ _ R2), E2.
  - by rewrite (abs_failed _ _ _ R1), (abs_failed _ _ _ R2), E3.
  - by rewrite (abs_touch _ _ _ R1), (abs_touch _ _ _ R2), E1.
  - by rewrite (abs_touched _ _ _ R1), (abs_touched _ _ _ R2), E1.
  - by rewrite (abs_okbits _ _ _ R1), (abs_okbits _ _ _ R2), E2.
  - by rewrite (abs_failbits _ _ _ R1), (abs_failbits _ _ _ R2), E3.
Qed.

(** C6: the counters and the three bitmaps do not depend on the order in which
    completion events arrive: any two interleavings of the same events
    (duplicates included, each with its own timestamps) end with the same
    completed, failed and touched counts and the same bitmaps. *)
Theorem completion_order_irrelevant (id : string) (s : redis) (b : batch)
  (evs evs' : list event) (mk mk' : event -> call)
  (Hs : abs s id b) (Hb : inv b) (Hc : b_status b ≠ "cancelled")
  (Hg : Forall (good_event (b_total b)) evs) (Hp : evs ≡ₚ evs')
  (Hmk : ∀ e, ∃ ttl now score fttl, mk e = CRecord e.1 e.2 ttl now score fttl ∧ now ≠ "")
  (Hmk' : ∀ e, ∃ ttl now score fttl, mk' e = CRecord e.1 e.2 ttl now score fttl ∧ now ≠ "") :
  let s1 := (exec_all id (mk <$> evs) s).1 in
  let s2 := (exec_all id (mk' <$> evs') s).1 in
  Forall (λ f, tonum (field s1 id f) = tonum (field s2 id f))
    ["completed_count"; "failed_count"; "touched_count"] ∧
  Forall (λ k, get_bits s1 k = get_bits s2 k)
    [bitmapKey id; okBitmapKey id; failBitmapKey id].
Proof.
  cbv zeta.
  destruct (events_trace mk evs b Hmk Hb Hc Hg) as [V1 A1].
  destruct (events_trace mk' evs' b Hmk' Hb Hc) as [V2 A2]; [by rewrite <- Hp |].
  destruct (exec_all_refines id _ s b Hs Hb V1) as (R1 & _ & _).
  destruct (exec_all_refines id _ s b Hs Hb V2) as (R2 & _ & _).
  by eapply same_after.
Qed.

Lemma completion_order_irrelevant_witness :
  let s1 := (exec_all "b1" (ev_call 60 t0 (1#1) 30 <$> [(1, "failed"); (2, "executed"); (1, "success")]) demo).1 in
  let s2 := (exec_all "b1" (ev_call 9 "u" (2#1) 3 <$> [(1, "success"); (1, "failed"); (2, "executed")]) demo).1 in
  Forall (λ f, tonum (field s1 "b1" f) = tonum (field s2 "b1" f))
    ["completed_count"; "failed_count"; "touched_count"] ∧
  Forall (λ k, get_bits s1 k = get_bits s2 k)
    [bitmapKey "b1"; okBitmapKey "b1"; failBitmapKey "b1"].
Proof.
  apply (completion_order_irrelevant "b1" demo (fresh_batch 2 false) _ _
    (ev_call 60 t0 (1#1) 30) (ev_call 9 "u" (2#1) 3) demo_abs).
  - apply fresh_inv. lia.
  - done.
  - repeat constructor; cbn; lia || reflexivity.
  - solve_Permutation.
  - intros e. by exists 60, t0, (1#1), 30.
  - intros e. by exists 9, "u", (2#1), 3.
Defined.

(** Callbacks fire only on batches that earned them: when a completion
    event or a seal hands out on_success, the batch is sealed and its completed
    count has reached its total; when it hands out on_complete, the batch is
    sealed and every job has been executed at least once. *)
Theorem fired_callbacks_sound (id : string) (s : redis) (b : batch) (c : call)
  (Hs : abs s id b) (Hb : inv b) (Hv : valid c b) (Hc : is_claim c = false) :
  let '(s', f) := exec id c s in
  (f_success f = true →
     nonblank (field s' id "locked_at") = true ∧
     tonum (field s' id "total_jobs") <= tonum (field s' id "completed_count")) ∧
  (f_complete f = true →
     nonblank (field s' id "locked_at") = true ∧
     tonum (field s' id "total_jobs") <= tonum (field s' id "touched_count")).
Proof.
  destruct (exec_refines id c s b Hs Hb Hv) as [Ha Ef].
  assert (sound (astep c b).2 (astep c b).1) as [S1 S2].
  { destruct c; try discriminate Hc; cbn [astep fst snd].
    - apply record_sound; [apply Hb | apply Hv].
    - apply seal_sound, Hb.
    - by apply (sound_none 0 "").
    - by apply (sound_none 0 ""). }
  destruct (exec id c s) as [s' f]. cbn [fst snd] in *. subst f.
  rewrite (abs_total _ _ _ Ha), (abs_completed _ _ _ Ha), (abs_touch _ _ _ Ha).
  destruct (abs_field _ _ _ "locked_at" Ha) as (h & _ & Hh & ->).
  by rewrite (ho_sealed _ _ _ Hh).
Qed.

Lemma fired_callbacks_sound_witness :
  let s := (exec_all "b1" [CSeal t0 60 (1#1); CRecord 2 "success" 60 t0 (1#1) 30] demo).1 in
  let '(s', f) := exec "b1" (CRecord 1 "success" 60 t0 (1#1) 30) s in
  f_success f = true ∧
  (f_success f = true →
     nonblank (field s' "b1" "locked_at") = true ∧
     tonum (field s' "b1" "total_jobs") <= tonum (field s' "b1" "completed_count")) ∧
  (f_complete f = true →
     nonblank (field s' "b1" "locked_at") = true ∧
     tonum (field s' "b1" "total_jobs") <= tonum (field s' "b1" "touched_count")).
Proof.
  cbv zeta.
  destruct (exec_all_refines "b1" [CSeal t0 60 (1#1); CRecord 2 "success" 60 t0 (1#1) 30]
    demo (fresh_batch 2 false) demo_abs) as (Ha & _ & Hi);
    [apply fresh_inv; lia | repeat split; cbn; lia || done |].
  pose proof (fired_callbacks_sound "b1" _ _ (CRecord 1 "success" 60 t0 (1#1) 30) Ha Hi) as H.
  assert ((exec "b1" (CRecord 1 "success" 60 t0 (1#1) 30)
    (exec_all "b1" [CSeal t0 60 (1#1); CRecord 2 "success" 60 t0 (1#1) 30] demo).1).2.(f_success)
    = true) as Hf by (vm_compute; reflexivity).
  destruct (exec _ _ _) as [s' f]. split; [exact Hf |].
  apply H; [split; [vm_compute; discriminate | done] | reflexivity].
Defined.

(** Consecutive additions to an open batch reserve consecutive sequence
    numbers: the ranges handed to the producers are disjoint, without gaps and
    add up to the increase of the total. *)
Theorem addJobs_reserves_ranges (id : string) (s : redis) (b : batch) (q : Z)
  (ns : list Z) (ttl : Z)
  (Hs : abs s id b) (Hq : get_int s (seqKey id) = Some q) (Ho : open_batch b = true)
  (Hn : Forall (λ n, 0 < n) ns) :
  let '(s', rs) := add_all id ns ttl s in
  rs ≫= range_of = seqZ (q + 1) (foldr Z.add 0 ns) ∧ length rs = length ns ∧
  tonum (field s' id "total_jobs") = tonum (field s id "total_jobs") + foldr Z.add 0 ns.
Proof.
  destruct (add_all_ranges id ns ttl s b q Hs Hq Ho Hn) as (s' & b' & E & A & T & R & L).
  destruct (add_all id ns ttl s) as [s2 rs]. cbn [fst snd] in *. subst s2.
  by rewrite (abs_total _ _ _ A), (abs_total _ _ _ Hs).
Qed.

Lemma addJobs_reserves_ranges_witness :
  let '(s', rs) := add_all "b1" [3; 2] 60 demo in
  rs ≫= range_of = [1; 2; 3; 4; 5] ∧ length rs = 2%nat ∧
  tonum (field s' "b1" "total_jobs") = tonum (field demo "b1" "total_jobs") + 5.
Proof.
  apply (addJobs_reserves_ranges "b1" demo (fresh_batch 2 false) 0 [3; 2] 60 demo_abs);
    [reflexivity | reflexivity | repeat constructor].
Defined.

(** C7: cancellation freezes a batch: from then on completion events, seals,
    additions and further cancellations fire no callback and leave the status
    cancelled and the counters as they were. *)
Theorem cancelled_is_frozen (id : string) (s : redis) (b : batch) (cs : list call)
  (Hs : abs s id b) (Hb : inv b) (Hv : valid_all cs b)
  (Hc : field s id "status" = Some "cancelled")
  (Hcl : forallb (λ c, negb (is_claim c)) cs = true) :
  let '(s', fs) := exec_all id cs s in
  Forall (λ f, f = no_fire) fs ∧ field s' id "status" = Some "cancelled" ∧
  Forall (λ f, tonum (field s' id f) = tonum (field s id f))
    ["total_jobs"; "completed_count"; "failed_count"; "touched_count"].
Proof.
  rewrite (abs_status _ _ _ Hs) in Hc. injection Hc as Hc.
  destruct (exec_all_refines id cs s b Hs Hb Hv) as (Ha & Ef & _).
  destruct (asteps_frozen cs b Hc Hcl) as [[F1 F2 F3 F4 F5] Hf].
  destruct (exec_all id cs s) as [s' fs]. cbn [fst snd] in *. subst fs.
  split; [done |]. split; [by rewrite (abs_status _ _ _ Ha), F1 |]. repeat constructor.
  - by rewrite (abs_total _ _ _ Ha), (abs_total _ _ _ Hs), F2.
  - by rewrite (abs_completed _ _ _ Ha), (abs_completed _ _ _ Hs), F4.
  - by rewrite (abs_failed _ _ _ Ha), (abs_failed _ _ _ Hs), F5.
  - by rewrite (abs_touch _ _ _ Ha), (abs_touch _ _ _ Hs), F3.
Qed.

Lemma cancelled_is_frozen_witness :
  let s := (exec_all "b1" [CCancel (1#1)] demo).1 in
  let '(s', fs) := exec_all "b1" [CRecord 1 "success" 60 t0 (1#1) 30; CSeal t0 60 (1#1)] s in
  Forall (λ f, f = no_fire) fs ∧ field s' "b1" "status" = Some "cancelled" ∧
  Forall (λ f, tonum (field s' "b1" f) = tonum (field s "b1" f))
    ["total_jobs"; "completed_count"; "failed_count"; "touched_count"].
Proof.
  cbv zeta.
  destruct (exec_all_refines "b1" [CCancel (1#1)] demo (fresh_batch 2 false) demo_abs)
    as (Ha & _ & Hi); [apply fresh_inv; lia | done |].
  apply (cancelled_is_frozen "b1" _ _ [CRecord 1 "success" 60 t0 (1#1) 30; CSeal t0 60 (1#1)]
    Ha Hi); [repeat split; cbn; lia || done | vm_compute; reflexivity | reflexivity].
Defined.

(** A completion that arrives after a finished batch's bitmaps expired is
    dropped: it replies duplicate and rewrites nothing, so that no counter and
    no callback of the finished batch can move. *)
Theorem late_event_is_dropped (id : string) (s : redis) (h : gmap string string)
  (seq : Z) (op : string) (ttl : Z) (now : string) (score : Q) (fttl : Z)
  (Hh : get_hash s (batchKey id) = Some h) (Hf : finished (h !! "status") = true)
  (Hbits : has_key s (bitmapKey id) = false) (Hseq : 1 <= seq) (Hop : valid_op op = true) :
  run (done_script id seq op ttl now score fttl) s = (s, Some (0, "duplicate")).
Proof.
  apply run_exact. unfold done_script, BatchDone.batchDoneJob, BatchDone.guard.
  assert (h ≠ ∅) as Hne by (intros ->; by rewrite lookup_empty in Hf).
  destruct (Z.ltb_spec seq 1); [lia |]. unfold valid_op in Hop. rewrite Hop. steps.
  apply wp_when; [done |]. intros _. steps.
  apply wp_when; [done |]. intros _. steps.
  rewrite (get_hash_has_key _ _ _ Hh Hne). apply wp_when; [done |]. intros _. steps.
  apply wp_when; intros Ec; steps; [done |].
  rewrite Hf, Hbits. apply wp_when; [| done]. intros _. by steps.
Qed.

Lemma late_event_is_dropped_witness :
  let s := put_hash (batchKey "b1") {["status" := "success"]} empty_redis in
  run (done_script "b1" 1 "failed" 60 t0 (1#1) 30) s = (s, Some (0, "duplicate")).
Proof.
  cbv zeta. apply (late_event_is_dropped "b1" _ {["status" := "success"]});
    [apply get_hash_put_hash | reflexivity | reflexivity | lia | reflexivity].
Defined.
