(* ===== verification/Store.v ===== *)
(** The Go side of the batch ledger: pkg/store/redis.go, produce.go, cancel.go,
    batch_parse.go and reconciler.go.

    A store method is a function on the [world] (Redis and the network) that
    returns its values and its error.  A store whose client is nil is [None];
    the methods that do not test for it take the store itself.  [time.Now] is an
    argument: the instant in the two forms the code uses. *)
From S2P Require Import Prelude Redis Client Ledger.

(** A reading of the clock: [Format(time.RFC3339)] and the seconds since the
    epoch as ["%f"] prints them. *)
Record clock := Clock { c_rfc3339 : string; c_score : Q }.

Record CompletionEvent := mkCompletion {
  ce_BatchID : string; ce_JobID : string; ce_Status : string; ce_BatchSeq : Z
}.

Record Batch := mkBatch {
  ID : string; TotalJobs : Z; CompletedCount : Z; FailedCount : Z; TouchedCount : Z;
  Status : string; OnSuccess : string; OnComplete : string; Meta : string;
  CallbackArgs : string; Description : string; TenantID : string; LockedAt : string;
  FinishedAt : string; ReconcilerRefiredAt : string; CallbackClaimed : bool
}.

Record FinishedBatch := mkFinished { fb_Batch : option Batch; fb_Outcome : string; fb_Early : bool }.

Record DroppedCompletion := mkDropped {
  dc_BatchID : string; dc_JobID : string; dc_BatchSeq : Z; dc_Reason : string
}.

Record CompletionsResult := mkCompletions {
  Finished : list FinishedBatch; Replays : list string; Dropped : list DroppedCompletion
}.

(** Durations in nanoseconds. *)
Record RedisStore := mkStore { ttl : Z; finishedTTL : Z }.

Definition second : Z := 1000000000.

(** [int(d.Seconds())]. *)
Definition seconds (d : Z) : Z := Z.quot d second.

Definition NewRedisStore (ttl : Z) : RedisStore := mkStore ttl 0.

Definition NewRedisStoreWithRetention (ttl finishedTTL : Z) : RedisStore :=
  mkStore ttl (if (0 <? finishedTTL) && (finishedTTL <? ttl) then finishedTTL else 0).

Definition finishedTTLSeconds (s : RedisStore) : Z :=
  if 0 <? finishedTTL s then seconds (finishedTTL s) else seconds (ttl s).

(** A Go map read: a missing key reads as the empty string. *)
Definition at_key (h : gmap string string) (f : string) : string := default "" (h !! f).

Definition hashToBatch (h : gmap string string) : option Batch :=
  if decide (h = ∅) then None
  else Some (mkBatch (at_key h "id")
    (parseInt (at_key h "total_jobs")).1 (parseInt (at_key h "completed_count")).1
    (parseInt (at_key h "failed_count")).1 (parseInt (at_key h "touched_count")).1
    (at_key h "status") (at_key h "on_success") (at_key h "on_complete") (at_key h "meta")
    (at_key h "callback_args") (at_key h "description") (at_key h "tenant_id")
    (at_key h "locked_at") (at_key h "finished_at") (at_key h "reconciler_refired_at")
    (negb (String.eqb (at_key h "callback_dispatched_at") "")
     || negb (String.eqb (at_key h "complete_callback_dispatched_at") ""))).

(** ** RecordCompletionsBatch *)

Module Completions.

Definition normal_op (status : string) : string :=
  if negb (String.eqb status "success") && negb (String.eqb status "failed")
     && negb (String.eqb status "executed") then "failed" else status.

(** The script call for one event: [completionKeys] and [completionArgs]. *)
Definition completion (s : RedisStore) (now : clock) (e : CompletionEvent) : script reply unit :=
  BatchDone.batchDoneJob (batchKey (ce_BatchID e)) (bitmapKey (ce_BatchID e)) runningIndex
    doneIndex countsKey (okBitmapKey (ce_BatchID e)) (failBitmapKey (ce_BatchID e))
    (seqKey (ce_BatchID e)) (ce_BatchSeq e) (normal_op (ce_Status e)) (seconds (ttl s))
    (c_rfc3339 now) (c_score now) (finishedTTLSeconds s).

Record fire := mkFire { f_event : CompletionEvent; f_code : Z; f_outcome : string }.

Definition drop_of (e : CompletionEvent) (reason : string) : DroppedCompletion :=
  mkDropped (ce_BatchID e) (ce_JobID e) (ce_BatchSeq e) reason.

(** The loop over the replies: what fires, what is a replay, what is lost. *)
Fixpoint sort_replies (events : list CompletionEvent) (rs : list (result reply))
    (fires : list fire) (out : CompletionsResult) : list fire * CompletionsResult :=
  match events, rs with
  | e :: events, r :: rs =>
      match r with
      | Bad err =>
          sort_replies events rs fires
            (mkCompletions (Finished out) (Replays out)
               (Dropped out ++ [drop_of e ("decode: " +:+ err)%string]))
      | Ok (code, payload) =>
          if (code =? 1) || (code =? 3) then
            sort_replies events rs (fires ++ [mkFire e code payload]) out
          else if code =? 0 then
            if String.eqb payload "duplicate" then
              sort_replies events rs fires
                (mkCompletions (Finished out) (Replays out ++ [ce_BatchID e]) (Dropped out))
            else
              sort_replies events rs fires
                (mkCompletions (Finished out) (Replays out) (Dropped out ++ [drop_of e payload]))
          else sort_replies events rs fires out
      end
  | _, _ => (fires, out)
  end.

(** The loop over the HGETALL results, which stops at the first error. *)
Fixpoint load_fired (fires : list fire) (hs : list (result (gmap string string)))
    (acc : list FinishedBatch) : list FinishedBatch * error :=
  match fires, hs with
  | f :: fires, Ok h :: hs =>
      load_fired fires hs (acc ++ [mkFinished (hashToBatch h) (f_outcome f) (f_code f =? 3)])
  | _ :: _, Bad e :: _ => (acc, Some e)
  | _, _ => (acc, None)
  end.

Definition empty_out : CompletionsResult := mkCompletions [] [] [].

(** Lines 196-235: the fired batches are read back. *)
Definition finalize (fires : list fire) (out : CompletionsResult)
    : io (CompletionsResult * error) :=
  if decide (length fires = 0%nat) then mret (out, None)
  else
    p ← pipeline ((λ f, command (HGETALL (batchKey (ce_BatchID (f_event f))))) <$> fires);
    match first_error p with
    | Some e => mret (out, Some e)
    | None =>
        let '(finished, err) := load_fired fires p [] in
        mret (mkCompletions (Finished out ++ finished) (Replays out) (Dropped out), err)
    end.

(** Lines 138-164: pipeline, then EVAL for the refused commands only. *)
Definition run_completions (s : RedisStore) (now : clock) (missing : list bool)
    (events : list CompletionEvent) : io (list (result reply) * error) :=
  let eval := (λ e, call (completion s now e)) <$> events in
  p ← pipeline (refuse missing eval);
  match first_error p with
  | Some e =>
      if is_noscript e then
        let retry := again eval p in
        if decide (length retry = 0%nat) then mret (p, None)
        else
          p2 ← pipeline retry;
          match first_error p2 with
          | Some e => mret ([], Some e)
          | None => mret (patch p p2, None)
          end
      else mret ([], Some e)
  | None => mret (p, None)
  end.

Definition RecordCompletionsBatch (s : RedisStore) (now : clock) (missing : list bool)
    (events : list CompletionEvent) : io (CompletionsResult * error) :=
  if decide (length events = 0%nat) then mret (empty_out, None)
  else
    p ← run_completions s now missing events;
    match p.2 with
    | Some e => mret (empty_out, Some e)
    | None =>
        let '(fires, out) := sort_replies events p.1 [] empty_out in
        finalize fires out
    end.

End Completions.

(** ** Reads and claims *)

Definition FindBatch (id : string) : io (option Batch * error) :=
  r ← do (command (HGETALL (batchKey id)));
  match r with
  | Bad e => mret (None, Some e)
  | Ok h => if decide (h = ∅) then mret (None, None) else mret (hashToBatch h, None)
  end.

Definition CompletionRecorded (s : option RedisStore) (batchID : string) (seq : Z)
    : io (bool * error) :=
  match s with
  | None => mret (false, None)
  | Some _ =>
      if seq <? 1 then mret (false, None)
      else
        r ← do (command (GETBIT (bitmapKey batchID) (seq - 1)));
        match r with Bad e => mret (false, Some e) | Ok bit => mret (bit, None) end
  end.

Definition ClaimCallback (now : clock) (batchID nodeID : string) (kind : list string)
    : io (bool * error) :=
  let k := match kind with
           | k :: _ => if String.eqb k "" then "any" else k
           | [] => "any"
           end in
  r ← do (call (claimCallback (batchKey batchID) doneIndex (c_rfc3339 now) nodeID batchID k));
  match r with Bad e => mret (false, Some e) | Ok n => mret (n =? 1, None) end.

(** Fails open: an unreachable Redis lets the callback run. *)
Definition MarkCallbackInvoked (s : option RedisStore) (now : clock) (batchID kind : string)
    : io (bool * error) :=
  match s with
  | None => mret (true, None)
  | Some _ =>
      if String.eqb batchID "" then mret (true, None)
      else
        let field := if String.eqb kind "success" then "success_callback_invoked_at"
                     else "complete_callback_invoked_at" in
        r ← do (call (invokeCallback (batchKey batchID) field (c_rfc3339 now)));
        match r with Bad e => mret (true, Some e) | Ok n => mret (n =? 1, None) end
  end.

Definition RecordCallbackRunner (s : option RedisStore) (batchID nodeID : string) : io error :=
  match s with
  | None => mret None
  | Some _ =>
      if String.eqb batchID "" || String.eqb nodeID "" then mret None
      else
        r ← do (call (recordCallbackRunner (batchKey batchID) nodeID));
        match r with Bad e => mret (Some e) | Ok _ => mret None end
  end.

(** redis.Nil (no hash or no field) is not an error here. *)
Definition CallbackDispatched (batchID : string) : io (bool * error) :=
  r ← do (command (HGET (batchKey batchID) "callback_dispatched_at"));
  match r with
  | Bad e => mret (false, Some e)
  | Ok None => mret (false, None)
  | Ok (Some v) => mret (negb (String.eqb v ""), None)
  end.

(** A finished batch with a required callback claim still missing. *)
Definition needs_replay (h : gmap string string) (b : Batch) : bool :=
  let needComplete := String.eqb (at_key h "complete_callback_dispatched_at") ""
                      && String.eqb (at_key h "callback_dispatched_at") "" in
  let needSuccess := String.eqb (Status b) "success"
                     && String.eqb (at_key h "success_callback_dispatched_at") "" in
  (String.eqb (Status b) "success" || String.eqb (Status b) "complete")
  && (needComplete || needSuccess).

Fixpoint replayable (hs : list (result (gmap string string))) (out : list Batch)
    : list Batch * error :=
  match hs with
  | [] => (out, None)
  | Bad e :: _ => ([], Some e)
  | Ok h :: hs =>
      match hashToBatch h with
      | None => replayable hs out
      | Some b => replayable hs (if needs_replay h b then out ++ [b] else out)
      end
  end.

Definition hgetalls (ids : list string) : list (cmd (gmap string string)) :=
  (λ id, command (HGETALL (batchKey id))) <$> ids.

Definition FindReplayCallbackBatches (s : option RedisStore) (ids : list string)
    : io (list Batch * error) :=
  match s with
  | None => mret ([], None)
  | Some _ =>
      if decide (length ids = 0%nat) then mret ([], None)
      else
        p ← pipeline (hgetalls ids);
        match first_error p with
        | Some e => mret ([], Some e)
        | None => mret (replayable p [])
        end
  end.

Definition notConfigured : string := "redis store not configured".

Definition MarkReconcilerRefired (s : option RedisStore) (now : clock) (batchID : string)
    : io error :=
  match s with
  | None => mret (Some notConfigured)
  | Some _ =>
      r ← do (command (HSET (batchKey batchID) "reconciler_refired_at" (c_rfc3339 now)));
      match r with Bad e => mret (Some e) | Ok _ => mret None end
  end.

Definition BatchCancelled (batchID : string) : io (bool * error) :=
  r ← do (command (ZSCORE cancelledIndex batchID));
  match r with
  | Bad e => mret (false, Some e)
  | Ok None => mret (false, None)
  | Ok (Some score) => mret (negb (Qle_bool score 0), None)
  end.

(** ** produce.go *)

Record AddJobsResult := mkAddJobs { aj_Status : string; SeqStart : Z; SeqEnd : Z }.

Record SealBatchResult := mkSeal {
  sb_Status : string; sb_Outcome : string; sb_Batch : option Batch
}.

Definition addJobsStatus (code : Z) : string :=
  if code =? 0 then "not_found" else if code =? 2 then "cancelled"
  else if code =? 3 then "closed" else "ok".

Section create.
(** JSON values and their encoder (encoding/json). *)
Context {json : Type} (marshal : json -> string + string).

Record CreateBatchParams := mkCreate {
  cp_ID : string; cp_TotalJobs : Z; cp_OnSuccess : string; cp_OnComplete : string;
  cp_Meta : option json; cp_CallbackArgs : option json; cp_Description : string;
  cp_TenantID : string; cp_Sealed : bool
}.

Definition marshal_opt (m : option json) : string + string :=
  match m with None => inl "" | Some j => marshal j end.

(** The three index writes that follow a creation, as one pipeline. *)
Definition index_new (id : string) (score : Q) : list (cmd unit) :=
  [command (ZADD runningIndex score id); command (ZADD allIndex score id);
   command (HINCRBY countsKey "running" 1)].

Definition CreateBatch (s : option RedisStore) (now : clock) (p : CreateBatchParams)
    : io (bool * error) :=
  match s with
  | None => mret (false, Some notConfigured)
  | Some s =>
      match marshal_opt (cp_Meta p) with
      | inr e => mret (false, Some e)
      | inl metaJSON =>
          match marshal_opt (cp_CallbackArgs p) with
          | inr e => mret (false, Some e)
          | inl callbackArgsJSON =>
              r ← do (call (createBatch (batchKey (cp_ID p)) (cp_ID p) (itoa (cp_TotalJobs p))
                        (cp_OnSuccess p) (cp_OnComplete p) metaJSON (c_rfc3339 now)
                        (seconds (ttl s)) (if cp_Sealed p then c_rfc3339 now else "")
                        (cp_Description p) (cp_TenantID p) callbackArgsJSON));
              match r with
              | Bad e => mret (false, Some e)
              | Ok res =>
                  if negb (res =? 1) then mret (false, None)
                  else
                    p ← pipeline (index_new (cp_ID p) (c_score now));
                    mret (true, first_error p)
              end
          end
      end
  end.
End create.

Definition AddJobs (s : option RedisStore) (id : string) (count : Z)
    : io (AddJobsResult * error) :=
  match s with
  | None => mret (mkAddJobs "" 0 0, Some notConfigured)
  | Some s =>
      r ← do (call (addJobs (batchKey id) (seqKey id) count (seconds (ttl s))));
      match r with
      | Bad e => mret (mkAddJobs "" 0 0, Some e)
      | Ok (AddCode v) => mret (mkAddJobs (addJobsStatus v) 0 0, None)
      | Ok (AddRange v a b) =>
          if String.eqb (addJobsStatus v) "ok" && (0 <? count)
          then mret (mkAddJobs (addJobsStatus v) a b, None)
          else mret (mkAddJobs (addJobsStatus v) 0 0, None)
      end
  end.

Definition SealBatch (s : option RedisStore) (now : clock) (id : string)
    : io (SealBatchResult * error) :=
  match s with
  | None => mret (mkSeal "" "" None, Some notConfigured)
  | Some s =>
      r ← do (call (Seal.sealBatch (batchKey id) countsKey runningIndex doneIndex (bitmapKey id)
                (okBitmapKey id) (failBitmapKey id) (c_rfc3339 now) (seconds (ttl s))
                (c_score now)));
      match r with
      | Bad e => mret (mkSeal "" "" None, Some e)
      | Ok (code, payload) =>
          if code =? 0 then mret (mkSeal "not_found" "" None, None)
          else if (code =? 1) || (code =? 3) then
            f ← FindBatch id;
            match f.2 with
            | Some e => mret (mkSeal "done" payload None, Some e)
            | None => mret (mkSeal "done" payload f.1, None)
            end
          else if code =? 2 then mret (mkSeal "sealed" "" None, None)
          else mret (mkSeal "" "" None, Some "unexpected seal_batch code")
      end
  end.

(** ** cancel.go *)

Definition UpdateBatchStatus (s : option RedisStore) (now : clock) (id status : string)
    : io error :=
  match s with
  | None => mret (Some notConfigured)
  | Some _ =>
      r ← do (call (updateStatus (batchKey id) countsKey runningIndex cancelledIndex status id
                (c_score now)));
      match r with
      | Bad e => mret (Some e)
      | Ok res => if res =? 0 then mret (Some ("batch " +:+ id +:+ " not found")%string)
                  else mret None
      end
  end.

Definition CancelBatch (s : option RedisStore) (now : clock) (id : string) : io error :=
  UpdateBatchStatus s now id "cancelled".

(** The cutoff is two times the batch ttl (a week when unset) before now. *)
Definition cancel_cutoff (s : RedisStore) (nowNanos : Z) : Q :=
  let ttl := if ttl s <=? 0 then 7 * 24 * 3600 * second else ttl s in
  Qmake (nowNanos - 2 * ttl) 1000000000.

Definition CancelledBatchIDs (s : option RedisStore) (nowNanos : Z) : io (list string * error) :=
  match s with
  | None => mret ([], Some notConfigured)
  | Some s =>
      let cutoff := cancel_cutoff s nowNanos in
      p ← pipeline
        [command (ZREMRANGEBYSCORE cancelledIndex (ZRange None (Some (false, cutoff)));; mret []);
         command (ZRANGEBYSCORE cancelledIndex (ZRange (Some (false, cutoff)) None))];
      match first_error p with
      | Some e => mret ([], Some e)
      | None => mret (match p with [_; Ok ids] => ids | _ => [] end, None)
      end
  end.

(** ** reconciler.go *)

Fixpoint partition_indexed (keep : Batch -> bool) (ids : list string)
    (hs : list (result (gmap string string))) (out : list Batch) (prune : list string)
    : list Batch * list string * error :=
  match ids, hs with
  | id :: ids, Ok h :: hs =>
      match hashToBatch h with
      | Some b => if keep b then partition_indexed keep ids hs (out ++ [b]) prune
                  else partition_indexed keep ids hs out (prune ++ [id])
      | None => partition_indexed keep ids hs out (prune ++ [id])
      end
  | _ :: _, Bad e :: _ => ([], prune, Some e)
  | _, _ => (out, prune, None)
  end.

Definition zrems (index : string) (ids : list string) : list (cmd bool) :=
  (λ id, command (ZREM index id)) <$> ids.

(** Batches of an index that [keep]; the others leave the index. *)
Definition filterIndexedBatches (ids : list string) (index : string) (keep : Batch -> bool)
    : io (list Batch * error) :=
  if decide (length ids = 0%nat) then mret ([], None)
  else
    p ← pipeline (hgetalls ids);
    match first_error p with
    | Some e => mret ([], Some e)
    | None =>
        match partition_indexed keep ids p [] [] with
        | (_, _, Some e) => mret ([], Some e)
        | (out, prune, None) =>
            if decide (length prune = 0%nat) then mret (out, None)
            else _ ← pipeline (zrems index prune); mret (out, None)
        end
    end.

Definition StaleBatches (s : option RedisStore) (olderThan : Q) : io (list Batch * error) :=
  match s with
  | None => mret ([], Some notConfigured)
  | Some _ =>
      r ← do (command (ZRANGEBYSCORE runningIndex (ZRange None (Some (false, olderThan)))));
      match r with
      | Bad e => mret ([], Some e)
      | Ok ids => filterIndexedBatches ids runningIndex (λ b, String.eqb (Status b) "running")
      end
  end.

Definition DoneBatchesWithoutCallback (s : option RedisStore) (olderThan : Q)
    : io (list Batch * error) :=
  match s with
  | None => mret ([], Some notConfigured)
  | Some _ =>
      r ← do (command (ZRANGEBYSCORE doneIndex (ZRange None (Some (false, olderThan)))));
      match r with
      | Bad e => mret ([], Some e)
      | Ok ids =>
          filterIndexedBatches ids doneIndex (λ b,
            if CallbackClaimed b then false
            else String.eqb (Status b) "success" || String.eqb (Status b) "complete")
      end
  end.

Definition MarkFinishedIfRunning (s : option RedisStore) (now : clock) (id outcome : string)
    : io (bool * error) :=
  match s with
  | None => mret (false, Some notConfigured)
  | Some _ =>
      r ← do (call (markFinishedIfRunning (batchKey id) countsKey runningIndex doneIndex outcome
                (c_rfc3339 now) (c_score now) id));
      match r with Bad e => mret (false, Some e) | Ok res => mret (res =? 1, None) end
  end.

(** [fn] runs only under the lock; the lock is released on every path after it
    was acquired.  The first match is on [randomToken(16)]. *)
Definition WithReconcilerLock (s : option RedisStore) (randomToken : result string) (ttl : Z)
    (fn : io error) : io (bool * error) :=
  match s, randomToken with
  | None, _ => mret (false, Some notConfigured)
  | Some _, Bad e => mret (false, Some e)
  | Some _, Ok token =>
      let ttlSec := if seconds ttl <? 1 then 1 else seconds ttl in
      r ← do (call (acquireLock reconcilerLockKey token ttlSec));
      match r with
      | Bad e => mret (false, Some e)
      | Ok acquired =>
          if negb acquired then mret (false, None)
          else
            err ← fn;
            _ ← do (call (releaseLock reconcilerLockKey token));
            mret (true, err)
      end
  end.

(** Lines 151-160: tally the statuses, collect the ids whose hash is gone. *)
Fixpoint tally (ids : list string) (sts : list (result (option string)))
    (counts : gmap string Z) (prune : list string) : gmap string Z * list string :=
  match ids, sts with
  | id :: ids, st :: sts =>
      match st with
      | Ok (Some v) =>
          if String.eqb v "" then tally ids sts counts (prune ++ [id])
          else tally ids sts (<[v := default 0 (counts !! v) + 1]> counts) prune
      | _ => tally ids sts counts (prune ++ [id])
      end
  | _, _ => (counts, prune)
  end.

Definition rebuildKey : string := (countsKey +:+ ":rebuild")%string.

(** Lines 172-187: the swap through a temporary key, as one pipeline; a Go map
    is walked in some order, here that of [map_to_list]. *)
Definition swap_counts (counts : gmap string Z) : list (cmd unit) :=
  let live := filter (λ p, 0 < p.2) (map_to_list counts) in
  [command (DEL rebuildKey)]
  ++ ((λ p, command (HSET rebuildKey p.1 (itoa p.2))) <$> live)
  ++ [if decide (length live = 0%nat) then command (DEL countsKey)
      else command (RENAME rebuildKey countsKey)].

(** Exec's error for a pipeline of HGETs: a missing field is redis.Nil, which
    counts as the first error and is then ignored. *)
Fixpoint hget_error (rs : list (result (option string))) : error :=
  match rs with
  | [] => None
  | Ok (Some _) :: rs => hget_error rs
  | Ok None :: _ => None
  | Bad e :: _ => Some e
  end.

(** Lines 162-187: drop the gone ids from the index, then swap. *)
Definition finish_counts (counts : gmap string Z) (prune : list string) : io error :=
  (if decide (length prune = 0%nat) then mret tt
   else _ ← pipeline (zrems allIndex prune); mret tt);;
  p ← pipeline (swap_counts counts);
  mret (first_error p).

Definition ReconcileBatchCounts (s : option RedisStore) : io error :=
  match s with
  | None => mret (Some notConfigured)
  | Some _ =>
      r ← do (command (ZRANGE_ALL allIndex));
      match r with
      | Bad e => mret (Some e)
      | Ok ids =>
          if decide (length ids = 0%nat) then finish_counts ∅ []
          else
            p ← pipeline ((λ id, command (HGET (batchKey id) "status")) <$> ids);
            match hget_error p with
            | Some e => mret (Some e)
            | None => let '(counts, prune) := tally ids p ∅ [] in finish_counts counts prune
            end
      end
  end.
