(* ===== verification/StoreProps.v ===== *)
(** Properties of the ledger's Go methods. *)
From S2P Require Import Prelude Redis Client Ledger LedgerSpec LedgerRefine LedgerTrace LedgerProps Store.
Import Completions.

(** ** Pipelines of completions *)

Definition completion_call (s : RedisStore) (now : clock) (e : CompletionEvent) : LedgerTrace.call :=
  CRecord (ce_BatchSeq e) (normal_op (ce_Status e)) (seconds (ttl s)) (c_rfc3339 now)
    (c_score now) (finishedTTLSeconds s).

Definition as_event (e : CompletionEvent) : event := (ce_BatchSeq e, normal_op (ce_Status e)).

Lemma normal_op_valid st : valid_op (normal_op st) = true.
Proof.
  unfold normal_op, valid_op.
  destruct (String.eqb st "success") eqn:E1, (String.eqb st "failed") eqn:E2,
    (String.eqb st "executed") eqn:E3; cbn [andb negb]; rewrite ?E1, ?E2, ?E3; done.
Qed.

(** A reply that is not an error of the ledger. *)
Definition applied (x : result reply) : Prop :=
  ∃ c p, x = Ok (c, p) ∧ (c = 0 → p = "duplicate").

Lemma conclude_code b : (LedgerSpec.conclude b).1.1 ≠ 0.
Proof.
  unfold LedgerSpec.conclude, finish_with, early. destruct (_ || _); [done |].
  destruct (BatchDone.terminal _ _ _); cbn [fst].
  - by repeat case_match.
  - by destruct (_ && _).
Qed.

Lemma record_code seq op b :
  1 <= seq → valid_op op = true → (record seq op b).1.1 = 0 → (record seq op b).1.2 = "duplicate".
Proof.
  intros Hs Hop. unfold record. destruct (Z.ltb_spec seq 1); [lia |]. rewrite Hop.
  cbn [orb negb]. destruct (String.eqb _ _); [done |]. destruct (negb _); [done |].
  intros H0. by apply conclude_code in H0.
Qed.

Definition fits (id : string) (b : batch) (e : CompletionEvent) : Prop :=
  ce_BatchID e = id ∧ 1 <= ce_BatchSeq e <= b_total b.

Definition eval (s : RedisStore) (now : clock) (e : CompletionEvent) : cmd reply :=
  Client.call (completion s now e).

Lemma completion_one s now e db b :
  abs db (ce_BatchID e) b → inv b → c_rfc3339 now ≠ "" → 1 <= ce_BatchSeq e <= b_total b →
  ∃ x b', eval s now e db = ((exec (ce_BatchID e) (completion_call s now e) db).1, x)
    ∧ applied x ∧ abs (eval s now e db).1 (ce_BatchID e) b' ∧ inv b' ∧ b_total b' = b_total b.
Proof.
  intros Ha Hi Hnow Hs.
  destruct (wp_run _ _ _ (done_refines (ce_BatchID e) db b (ce_BatchSeq e)
    (normal_op (ce_Status e)) (seconds (ttl s)) (c_rfc3339 now) (c_score now)
    (finishedTTLSeconds s) Ha (inv_wf _ Hi)
    (λ H1, inv_touched_nonempty b _ Hi H1 (proj2 Hs)) Hnow)) as (db' & r & E & Er & Ha').
  unfold eval, Client.call, completion, exec, completion_call. rewrite E.
  unfold done_script in E. rewrite E. cbn [fst snd].
  exists (Ok r), (record (ce_BatchSeq e) (normal_op (ce_Status e)) b).2. split; [done |].
  split_and!; [| exact Ha' | apply record_inv; [done | lia] | by rewrite record_total].
  exists r.1, r.2. split; [by destruct r |]. intros H0. subst r.
  apply record_code; [lia | apply normal_op_valid | done].
Qed.

(** Every script of a pipeline returned, and the database is that of the trace. *)
Lemma run_completions_trace s now id evs db b :
  abs db id b → inv b → c_rfc3339 now ≠ "" → Forall (fits id b) evs →
  (run_cmds (eval s now <$> evs) db).1 = (exec_all id (completion_call s now <$> evs) db).1 ∧
  Forall applied (run_cmds (eval s now <$> evs) db).2.
Proof.
  intros Ha Hi Hnow Hev. revert db b Ha Hi Hev.
  induction evs as [|e evs IH]; intros db b Ha Hi Hev; [done |].
  apply Forall_cons in Hev as [[<- Hs] Hev]. rewrite !fmap_cons. cbn [run_cmds exec_all].
  destruct (completion_one s now e db b Ha Hi Hnow Hs) as (x & b' & E & Hx & Ha' & Hi' & Ht).
  rewrite E in Ha' |- *. destruct (exec (ce_BatchID e) (completion_call s now e) db) as [db' f].
  cbn [fst snd] in *.
  destruct (IH db' b' Ha' Hi') as [I1 I2].
  { eapply Forall_impl; [exact Hev |]. intros y [Hy1 Hy2]. split; [done | by rewrite Ht]. }
  destruct (run_cmds _ db') as [d2 rs]. destruct (exec_all _ _ db') as [d3 fs].
  cbn [fst snd] in *. split; [done | by constructor].
Qed.

(** ** The NOSCRIPT retry *)

(** The commands a server that misses the script for [missing] runs and refuses. *)
Fixpoint known_to {B} (missing : list bool) (cs : list B) (want : bool) : list B :=
  match cs with
  | [] => []
  | c :: cs =>
      let rest := known_to (tail missing) cs want in
      if Bool.eqb (default false (head missing)) want then c :: rest else rest
  end.

Lemma known_perm {B} missing (cs : list B) :
  known_to missing cs false ++ known_to missing cs true ≡ₚ cs.
Proof.
  revert missing. induction cs as [|c cs IH]; intros missing; [done |]. cbn.
  destruct (default false (head missing)); cbn; rewrite <- (IH (tail missing)) at 3.
  - by rewrite Permutation_middle.
  - done.
Qed.

Lemma known_forall {B} (P : B → Prop) missing cs want :
  Forall P cs → Forall P (known_to missing cs want).
Proof.
  intros H. revert missing. induction H as [|c cs Hc H IH]; intros missing; cbn; [done |].
  destruct (Bool.eqb _ _); [constructor |]; auto.
Qed.

Lemma known_fmap {B C} (f : B → C) missing cs want :
  known_to missing (f <$> cs) want = f <$> known_to missing cs want.
Proof.
  revert missing. induction cs as [|c cs IH]; intros missing; [done |]. rewrite fmap_cons. cbn.
  rewrite IH. by destruct (Bool.eqb _ _).
Qed.

(** The results of the first pipeline: those of the known commands, with a
    refusal at each missing one. *)
Lemma refuse_spec missing (cs : list (cmd reply)) db :
  Forall applied (run_cmds (known_to missing cs false) db).2 →
  let p := run_cmds (refuse missing cs) db in
  p.1 = (run_cmds (known_to missing cs false) db).1 ∧
  again cs p.2 = known_to missing cs true ∧
  (∀ rs, length rs = length (known_to missing cs true) →
         Forall applied rs → Forall applied (patch p.2 rs) ∧ length (patch p.2 rs) = length cs ∧
         patch p.2 rs ≡ₚ (run_cmds (known_to missing cs false) db).2 ++ rs) ∧
  match first_error p.2 with
  | Some e => is_noscript e = true ∧ known_to missing cs true ≠ []
  | None => known_to missing cs true = [] ∧ Forall applied p.2 ∧
      p.2 = (run_cmds (known_to missing cs false) db).2
  end.
Proof.
  cbv zeta. revert missing db.
  induction cs as [|c cs IH]; intros missing db Hf.
  { split_and!; try done. by intros [|]. }
  cbn [refuse known_to] in *. set (m := default false (head missing)) in *.
  destruct m; cbn [Bool.eqb] in *.
  - cbn [run_cmds]. destruct (IH (tail missing) db Hf) as (I1 & I2 & I3 & I4).
    destruct (run_cmds (refuse _ _) db) as [d rs]. cbn [fst snd] in *.
    cbn [again refused]. change (is_noscript noscriptError) with true. cbn iota.
    split_and!; [done | by rewrite I2 | | done].
    intros [|r rs'] Hl Hr; [done |]. inversion Hr; subst. cbn [patch refused].
    change (is_noscript noscriptError) with true. cbn iota.
    destruct (I3 rs') as (J1 & J2 & J3); [cbn in Hl; lia | done |].
    split_and!; [by constructor | cbn; lia | by rewrite J3, Permutation_middle].
  - cbn [run_cmds] in *. destruct (c db) as [db' x].
    specialize (IH (tail missing) db').
    destruct (run_cmds (known_to (tail missing) cs false) db') as [d1 rs1].
    cbn [fst snd] in *. apply Forall_cons in Hf as [Hx Hf].
    destruct (IH Hf) as (I1 & I2 & I3 & I4).
    destruct (run_cmds (refuse _ _) db') as [d rs]. cbn [fst snd] in *.
    destruct Hx as (n & p & -> & Hp). cbn [again refused patch first_error].
    split_and!; [done | done | |].
    + intros rs' Hl Hr. destruct (I3 rs' Hl Hr) as (J1 & J2 & J3).
      split_and!; [constructor; [by exists n, p | done] | cbn; lia | cbn; by rewrite J3].
    + destruct (first_error rs); [done |]. destruct I4 as (-> & I4 & ->).
      split_and!; [done | constructor; [by exists n, p | done] | done].
Qed.

Lemma refuse_length {A} missing (cs : list (cmd A)) : length (refuse missing cs) = length cs.
Proof. revert missing. induction cs as [|c cs IH]; intros; cbn; [done | by rewrite IH]. Qed.

Lemma applied_no_error rs : Forall applied rs → first_error rs = None.
Proof. induction 1 as [|x rs (c & p & -> & _) H IH]; done. Qed.

Lemma abs_after_completions s now id evs db b :
  abs db id b → inv b → c_rfc3339 now ≠ "" → Forall (fits id b) evs →
  ∃ b', abs (run_cmds (eval s now <$> evs) db).1 id b' ∧ inv b' ∧ b_total b' = b_total b.
Proof.
  intros Ha Hi Hnow. revert db b Ha Hi.
  induction evs as [|e evs IH]; intros db b Ha Hi Hev; [by exists b |].
  apply Forall_cons in Hev as [[<- Hs] Hev]. rewrite fmap_cons. cbn [run_cmds].
  destruct (completion_one s now e db b Ha Hi Hnow Hs) as (x & b' & E & _ & Ha' & Hi' & Ht).
  destruct (eval s now e db) as [db' y]. cbn [fst] in Ha'.
  destruct (IH db' b' Ha' Hi') as (b2 & A2 & I2 & T2).
  { eapply Forall_impl; [exact Hev |]. intros z [Hz1 Hz2]. split; [done | by rewrite Ht]. }
  destruct (run_cmds _ db') as [d rs]. exists b2. split_and!; [done | done | congruence].
Qed.

(** Without network faults every event is applied exactly once, the events the
    server refused after the others. *)
Lemma run_completions_quiet s now missing id evs w b :
  quiet w → abs (w_db w) id b → inv b → c_rfc3339 now ≠ "" → Forall (fits id b) evs →
  let order := known_to missing evs false ++ known_to missing evs true in
  ∃ net rs, run_completions s now missing evs w
    = (World (run_cmds (eval s now <$> order) (w_db w)).1 net, (rs, None))
    ∧ Forall (λ f, f = Fine) net ∧ Forall applied rs ∧ length rs = length evs
    ∧ rs ≡ₚ (run_cmds (eval s now <$> order) (w_db w)).2.
Proof.
  intros Hq Ha Hi Hnow Hev. cbv zeta. rewrite fmap_app, run_cmds_app. cbn [fst snd].
  unfold run_completions, mbind, io_bind. fold (eval s now).
  rewrite <- !(known_fmap (eval s now)). set (cs := eval s now <$> evs).
  destruct (pipeline_quiet (refuse missing cs) w Hq) as (net & -> & Hn).
  pose proof (known_forall _ missing evs false Hev) as Hev0.
  pose proof (known_forall _ missing evs true Hev) as Hev1.
  destruct (run_completions_trace s now id _ (w_db w) b Ha Hi Hnow Hev0) as [_ Hf].
  rewrite <- known_fmap in Hf. fold cs in Hf.
  destruct (refuse_spec missing cs (w_db w) Hf) as (P1 & P2 & P3 & P4).
  set (p := run_cmds (refuse missing cs) (w_db w)) in *. cbn [fst snd].
  destruct (first_error p.2) as [e|] eqn:Ee.
  - destruct P4 as [-> Hne]. rewrite P2. rewrite decide_False by (by intros E%nil_length_inv).
    destruct (pipeline_quiet (known_to missing cs true) (World p.1 net) Hn) as (net2 & -> & Hn2).
    cbn [w_db].
    destruct (abs_after_completions s now id _ (w_db w) b Ha Hi Hnow Hev0) as (b1 & A1 & I1 & T1).
    rewrite <- known_fmap in A1. fold cs in A1.
    destruct (run_completions_trace s now id (known_to missing evs true) p.1 b1) as [_ Hf2].
    + by rewrite P1.
    + done.
    + done.
    + eapply Forall_impl; [exact Hev1 |]. intros x [Hx1 Hx2]. split; [done | by rewrite T1].
    + rewrite <- known_fmap in Hf2. fold cs in Hf2. rewrite applied_no_error by done.
      destruct (P3 (run_cmds (known_to missing cs true) p.1).2) as (Q1 & Q2 & Q3).
      { by rewrite run_cmds_length. }
      { done. }
      exists net2. eexists. split; [by rewrite <- P1 |]. split_and!; [done | done | |].
      * unfold cs in Q2. by rewrite length_fmap in Q2.
      * by rewrite Q3, P1.
  - destruct P4 as (-> & Hp & Ep). exists net, p.2. rewrite P1. cbn. rewrite app_nil_r. split_and!; try done.
    + unfold p. by rewrite run_cmds_length, refuse_length; unfold cs; rewrite length_fmap.
    + by rewrite Ep.
Qed.

(** The replies that finish a batch, and those of events applied before. *)
Definition finishing_replies (rs : list (result reply)) : list reply :=
  omap (λ r, match r with Ok (c, p) => if (c =? 1) || (c =? 3) then Some (c, p) else None | Bad _ => None end) rs.

Definition duplicate_replies (rs : list (result reply)) : list reply :=
  omap (λ r, match r with Ok (c, p) => if c =? 0 then Some (c, p) else None | Bad _ => None end) rs.

Lemma replies_perm rs rs' :
  rs ≡ₚ rs' → finishing_replies rs ≡ₚ finishing_replies rs' ∧
  length (duplicate_replies rs) = length (duplicate_replies rs').
Proof. intros Hp. split; [by apply omap_Permutation | by apply Permutation_length, omap_Permutation]. Qed.

Lemma sort_replies_applied id evs rs fires out :
  Forall applied rs → length rs = length evs → Forall (λ e, ce_BatchID e = id) evs →
  let r := sort_replies evs rs fires out in
  Dropped r.2 = Dropped out ∧ Finished r.2 = Finished out ∧
  Replays r.2 = Replays out ++ replicate (length (duplicate_replies rs)) id ∧
  (λ f, (f_code f, f_outcome f)) <$> r.1 = ((λ f, (f_code f, f_outcome f)) <$> fires) ++ finishing_replies rs ∧
  ∀ f, f ∈ r.1 → f ∈ fires ∨ f_event f ∈ evs.
Proof.
  intros Hr Hl He. cbv zeta. revert rs fires out Hr Hl.
  induction evs as [|e evs IH]; intros [|r rs] fires out Hr Hl; try done.
  { cbn. rewrite !app_nil_r. split_and!; auto. }
  inversion Hr as [|? ? (c & p & -> & Hc) Hr']; subst. apply Forall_cons in He as [He1 He].
  cbn [sort_replies finishing_replies duplicate_replies omap list_omap]. fold (finishing_replies rs) (duplicate_replies rs).
  assert (length rs = length evs) as Hl' by (cbn in Hl; lia). specialize (IH He rs).
  destruct ((c =? 1) || (c =? 3)) eqn:Ec.
  - destruct (IH (fires ++ [mkFire e c p]) out Hr' Hl') as (I1 & I2 & I3 & I4 & I5).
    assert (c =? 0 = false) as -> by lia. split_and!; [done | done | done | |].
    + rewrite I4, fmap_app, <- app_assoc. done.
    + intros f [[H | ->%list_elem_of_singleton]%elem_of_app | H]%I5; [by left | right .. ];
        constructor; done.
  - destruct (Z.eqb_spec c 0) as [-> | Hne].
    + rewrite Hc by done. rewrite String.eqb_refl.
      destruct (IH fires (mkCompletions (Finished out) (Replays out ++ [ce_BatchID e])
        (Dropped out)) Hr' Hl') as (I1 & I2 & I3 & I4 & I5).
      cbn [Dropped Finished Replays] in *.
      split_and!; [done | done | by rewrite I3, <- app_assoc, He1 | done |].
      intros f [H | H]%I5; [by left | right; by constructor].
    + destruct (IH fires out Hr' Hl') as (I1 & I2 & I3 & I4 & I5).
      split_and!; try done. intros f [H | H]%I5; [by left | right; by constructor].
Qed.

Lemma hgetall_ok db k h :
  get_hash db k = Some h → command (HGETALL k) db = (db, Ok h).
Proof. intros E. unfold command, HGETALL, lift. by rewrite E. Qed.

(** Reads leave the database as it is. *)
Lemma run_cmds_read {A B} (f : B → cmd A) (g : B → A) l db :
  (∀ x, x ∈ l → f x db = (db, Ok (g x))) → run_cmds (f <$> l) db = (db, Ok <$> (g <$> l)).
Proof.
  induction l as [|x l IH]; intros H; [done |]. rewrite !fmap_cons. cbn [run_cmds].
  rewrite (H x) by (by constructor). rewrite IH; [done |]. intros y Hy. apply H. by constructor.
Qed.

Lemma first_error_ok {A} (l : list A) : first_error (Ok <$> l) = None.
Proof. induction l; done. Qed.

(** What the caller learns of a fired batch: its record and how it ended. *)
Definition finished_of (h : gmap string string) (r : reply) : FinishedBatch :=
  mkFinished (hashToBatch h) r.2 (r.1 =? 3).

Lemma load_fired_ok h fires acc :
  load_fired fires (Ok <$> ((λ _, h) <$> fires)) acc
  = (acc ++ (finished_of h <$> ((λ f, (f_code f, f_outcome f)) <$> fires)), None).
Proof.
  revert acc. induction fires as [|f fires IH]; intros acc; [by rewrite app_nil_r |].
  rewrite !fmap_cons. cbn [load_fired]. rewrite IH, <- app_assoc. done.
Qed.

Lemma finalize_quiet fires out w id h :
  quiet w → get_hash (w_db w) (batchKey id) = Some h →
  (∀ f, f ∈ fires → ce_BatchID (f_event f) = id) →
  ∃ net, finalize fires out w
    = (World (w_db w) net,
       (mkCompletions (Finished out ++ (finished_of h <$> ((λ f, (f_code f, f_outcome f)) <$> fires)))
          (Replays out) (Dropped out), None)).
Proof.
  intros Hq Eh Hf. unfold finalize. case_decide as Hl.
  { apply nil_length_inv in Hl as ->. exists (w_net w). cbn. rewrite app_nil_r. by destruct w, out. }
  unfold mbind, io_bind.
  destruct (pipeline_quiet ((λ f, command (HGETALL (batchKey (ce_BatchID (f_event f))))) <$> fires)
    w Hq) as (net & -> & Hn).
  rewrite (run_cmds_read _ (λ _, h)) by (intros f Hin; rewrite (Hf f Hin); by apply hgetall_ok).
  cbn [fst snd]. rewrite first_error_ok, load_fired_ok. by exists net.
Qed.

Lemma completions_reordered st now id evs evs' db b :
  abs db id b → inv b → b_status b ≠ "cancelled" → c_rfc3339 now ≠ "" →
  Forall (fits id b) evs → evs ≡ₚ evs' →
  let s1 := (exec_all id (completion_call st now <$> evs) db).1 in
  let s2 := (exec_all id (completion_call st now <$> evs') db).1 in
  Forall (λ f, tonum (field s1 id f) = tonum (field s2 id f))
    ["completed_count"; "failed_count"; "touched_count"] ∧
  Forall (λ k, get_bits s1 k = get_bits s2 k) [bitmapKey id; okBitmapKey id; failBitmapKey id].
Proof.
  intros Ha Hi Hc Hnow Hev Hp. cbv zeta.
  set (mk := ev_call (seconds (ttl st)) (c_rfc3339 now) (c_score now) (finishedTTLSeconds st)).
  assert (∀ l : list CompletionEvent, completion_call st now <$> l = mk <$> (as_event <$> l)) as Em.
  { intros l. by rewrite <- list_fmap_compose. }
  assert (∀ l, Forall (fits id b) l → Forall (good_event (b_total b)) (as_event <$> l)) as Hg.
  { intros l Hfl. apply Forall_fmap. eapply Forall_impl; [exact Hfl |]. intros x [_ Hx].
    split; [done | apply normal_op_valid]. }
  assert (∀ e, ∃ t n sc f, mk e = CRecord e.1 e.2 t n sc f ∧ n ≠ "") as Hmk
    by (intros e; by repeat eexists).
  assert (Forall (fits id b) evs') as Hev' by (by rewrite <- Hp).
  rewrite !Em.
  destruct (events_trace mk _ b Hmk Hi Hc (Hg _ Hev)) as [V1 A1].
  destruct (events_trace mk _ b Hmk Hi Hc (Hg _ Hev')) as [V2 A2].
  destruct (exec_all_refines id _ db b Ha Hi V1) as (R1 & _ & _).
  destruct (exec_all_refines id _ db b Ha Hi V2) as (R2 & _ & _).
  apply (same_after id _ _ _ _ _ _ _ R1 R2 A1 A2). by rewrite Hp.
Qed.

(** C8: RecordCompletionsBatch runs the completion script exactly once for each
    event of a batch that is not cancelled, whichever of its EVALSHA commands the
    server refused with NOSCRIPT, while Redis answers: the database is that of one
    run over the events the server knew followed by the refused ones, the finished
    batches it reports are exactly the finishing replies of that one run and the
    replays its duplicates (a second run of any command would turn a finish into a
    duplicate), nothing is dropped, and the counters and bitmaps are those of
    delivering the events one by one in their own order. *)
Theorem RecordCompletionsBatch_exactly_once (st : RedisStore) (now : clock)
  (missing : list bool) (id : string) (evs : list CompletionEvent) (w : world) (b : batch)
  (Hq : quiet w) (Ha : abs (w_db w) id b) (Hi : inv b) (Hc : b_status b ≠ "cancelled")
  (Hnow : c_rfc3339 now ≠ "") (Hev : Forall (fits id b) evs) :
  let '(w', (out, err)) := RecordCompletionsBatch st now missing evs w in
  let order := known_to missing evs false ++ known_to missing evs true in
  let once := run_cmds (eval st now <$> order) (w_db w) in
  let one_by_one := (exec_all id (completion_call st now <$> evs) (w_db w)).1 in
  err = None ∧ Dropped out = [] ∧ order ≡ₚ evs ∧ w_db w' = once.1 ∧
  Finished out ≡ₚ finished_of (default ∅ (get_hash (w_db w') (batchKey id))) <$> finishing_replies once.2 ∧
  Replays out = replicate (length (duplicate_replies once.2)) id ∧
  Forall (λ f, tonum (field (w_db w') id f) = tonum (field one_by_one id f))
    ["completed_count"; "failed_count"; "touched_count"] ∧
  Forall (λ k, get_bits (w_db w') k = get_bits one_by_one k)
    [bitmapKey id; okBitmapKey id; failBitmapKey id].
Proof.
  unfold RecordCompletionsBatch. case_decide as Hl.
  { destruct evs; [| done]. cbn. split_and!; auto; repeat constructor. }
  unfold mbind, io_bind.
  destruct (run_completions_quiet st now missing id evs w b Hq Ha Hi Hnow Hev)
    as (net & rs & -> & Hn & Hr & Hlen & Hperm).
  set (order := known_to missing evs false ++ known_to missing evs true) in *.
  assert (Forall (fits id b) order) as Ho by (apply Forall_app; split; by apply known_forall).
  destruct (run_completions_trace st now id order (w_db w) b Ha Hi Hnow Ho) as [Et _].
  cbn [fst snd].
  assert (Forall (λ e, ce_BatchID e = id) evs) as Hids by (eapply Forall_impl; [exact Hev | by intros e []]).
  destruct (sort_replies_applied id evs rs [] empty_out Hr Hlen Hids) as (S1 & S2 & S3 & S4 & S5).
  destruct (sort_replies evs rs [] empty_out) as [fires out]. cbn [fst snd] in *.
  destruct (abs_after_completions st now id order (w_db w) b Ha Hi Hnow Ho) as (b1 & A1 & _ & _).
  destruct (abs_hash _ _ _ A1) as (h & Eh & _).
  destruct (finalize_quiet fires out (World (run_cmds (eval st now <$> order) (w_db w)).1 net) id h)
    as (net' & ->); [done | done | |].
  { intros f Hf. destruct (S5 f Hf) as [H | H]; [by apply not_elem_of_nil in H |].
    rewrite Forall_forall in Hids. by apply Hids. }
  cbn [w_db Finished Replays Dropped]. rewrite S1, S2, S3, S4, Eh. cbn [app default].
  destruct (replies_perm _ _ Hperm) as [P1 P2].
  split_and!; [done | done | apply known_perm | done | by apply fmap_Permutation | by rewrite P2 | |]; rewrite Et;
    (eapply completions_reordered; [exact Ha | exact Hi | exact Hc | exact Hnow | exact Ho | apply known_perm]).
Qed.

Definition demo_store : RedisStore := NewRedisStoreWithRetention (604800 * second) (3600 * second).
Definition demo_clock : clock := Clock t0 (1700000000#1).

Definition demo_events : list CompletionEvent :=
  [mkCompletion "b1" "j1" "failed" 1; mkCompletion "b1" "j2" "weird" 2;
   mkCompletion "b1" "j1" "success" 1].

Lemma RecordCompletionsBatch_exactly_once_witness :
  let '(w', (out, err)) :=
    RecordCompletionsBatch demo_store demo_clock [true; false] demo_events (World demo []) in
  let order := known_to [true; false] demo_events false ++ known_to [true; false] demo_events true in
  let once := run_cmds (eval demo_store demo_clock <$> order) demo in
  let one_by_one :=
    (exec_all "b1" (completion_call demo_store demo_clock <$> demo_events) demo).1 in
  err = None ∧ Dropped out = [] ∧ order ≡ₚ demo_events ∧ w_db w' = once.1 ∧
  Finished out ≡ₚ finished_of (default ∅ (get_hash (w_db w') (batchKey "b1"))) <$> finishing_replies once.2 ∧
  Replays out = replicate (length (duplicate_replies once.2)) "b1" ∧
  Forall (λ f, tonum (field (w_db w') "b1" f) = tonum (field one_by_one "b1" f))
    ["completed_count"; "failed_count"; "touched_count"] ∧
  Forall (λ k, get_bits (w_db w') k = get_bits one_by_one k)
    [bitmapKey "b1"; okBitmapKey "b1"; failBitmapKey "b1"].
Proof.
  apply (RecordCompletionsBatch_exactly_once demo_store demo_clock [true; false] "b1" demo_events
    (World demo []) (fresh_batch 2 false));
    [constructor | exact demo_abs | apply fresh_inv; lia | done | done |].
  repeat constructor; cbn; lia || done.
Defined.

(** ** The reconciler's lock *)

Definition lock_holder (db : redis) : option string :=
  default None (get_string db reconcilerLockKey).

Lemma lock_holder_put v t db :
  lock_holder (set_ttl reconcilerLockKey t (put reconcilerLockKey (RString v) db)) = Some v.
Proof. unfold lock_holder, get_string. cbn. by rewrite lookup_insert_eq. Qed.

Lemma acquire_free token t db :
  has_key db reconcilerLockKey = false →
  ∃ db1, Client.call (acquireLock reconcilerLockKey token t) db = (db1, Ok true)
         ∧ lock_holder db1 = Some token.
Proof.
  intros H. unfold Client.call, acquireLock, run, mbind, script_bind, SET_NX_EX. rewrite H.
  eexists. split; [done |]. apply lock_holder_put.
Qed.

Lemma acquire_taken token t db :
  has_key db reconcilerLockKey = true →
  Client.call (acquireLock reconcilerLockKey token t) db = (db, Ok false).
Proof.
  intros H. unfold Client.call, acquireLock, run, mbind, script_bind, SET_NX_EX. by rewrite H.
Qed.

Lemma lock_holder_get db h : lock_holder db = Some h → get_string db reconcilerLockKey = Some (Some h).
Proof. unfold lock_holder. by destruct (get_string db reconcilerLockKey) as [[]|]; intros [= ->]. Qed.

Lemma release_spec token db h :
  lock_holder db = Some h →
  (Client.call (releaseLock reconcilerLockKey token) db).1
  = if String.eqb h token then del_key reconcilerLockKey db else db.
Proof.
  intros H%lock_holder_get. unfold Client.call, releaseLock, run, mbind, script_bind, GET, lift.
  rewrite H. cbn. by destruct (String.eqb h token).
Qed.

(** The reconciler's lock excludes and is released only by its owner.
    While any process holds it, WithReconcilerLock runs nothing and changes
    nothing; when it is free, [fn] runs with the caller's token in the key, and
    afterwards the caller's lock is gone, unless it expired under [fn] and
    another process took it, in which case that process keeps it. *)
Theorem WithReconcilerLock_exclusive (st : RedisStore) (token : string) (ttl : Z) (fn : io error)
  (w : world) (Hq : quiet w)
  (Hfn : ∀ w1, quiet w1 → quiet (fn w1).1) :
  (has_key (w_db w) reconcilerLockKey = true →
     ∃ net, WithReconcilerLock (Some st) (Ok token) ttl fn w = (World (w_db w) net, (false, None)))
  ∧ (has_key (w_db w) reconcilerLockKey = false →
     ∃ w1 net, lock_holder (w_db w1) = Some token ∧
       let '(w2, err) := fn w1 in
       ∃ db, WithReconcilerLock (Some st) (Ok token) ttl fn w = (World db net, (true, err)) ∧
         (lock_holder (w_db w2) = Some token → has_key db reconcilerLockKey = false) ∧
         (∀ h, lock_holder (w_db w2) = Some h → h ≠ token → db = w_db w2)).
Proof.
  unfold WithReconcilerLock, mbind, io_bind. set (t := if seconds ttl <? 1 then 1 else seconds ttl).
  destruct (do_quiet (Client.call (acquireLock reconcilerLockKey token t)) w Hq) as (net & -> & Hn).
  split; intros Hk.
  - rewrite acquire_taken by done. by exists net.
  - destruct (acquire_free token t (w_db w) Hk) as (db1 & -> & Hh). cbn [fst snd negb].
    exists (World db1 net). specialize (Hfn (World db1 net) Hn).
    destruct (fn (World db1 net)) as [w2 err]. cbn [fst] in Hfn.
    destruct (do_quiet (Client.call (releaseLock reconcilerLockKey token)) w2 Hfn)
      as (net2 & -> & Hn2).
    exists net2. split; [done |]. eexists. split; [done |]. split.
    + intros Ht. rewrite (release_spec token _ token Ht), String.eqb_refl.
      unfold has_key. cbn. by rewrite lookup_delete_eq.
    + intros h Ht Hne. rewrite (release_spec token _ h Ht).
      by destruct (String.eqb_spec h token).
Qed.

Lemma WithReconcilerLock_exclusive_witness :
  let w := World empty_redis [] in
  ∃ w1 net, lock_holder (w_db w1) = Some "me" ∧
    ∃ db, WithReconcilerLock (Some demo_store) (Ok "me") (60 * second) (mret None) w
          = (World db net, (true, None)) ∧
      (lock_holder (w_db w1) = Some "me" → has_key db reconcilerLockKey = false) ∧
      (∀ h, lock_holder (w_db w1) = Some h → h ≠ "me" → db = w_db w1).
Proof.
  refine (proj2 (WithReconcilerLock_exclusive demo_store "me" (60 * second) (mret None)
    (World empty_redis []) _ _) _); [constructor | by intros w1 H | reflexivity].
Defined.

(** ** Invoking a callback once *)

Fixpoint invoke_all (st : option RedisStore) (id kind : string) (nows : list clock)
    : io (list (bool * error)) :=
  match nows with
  | [] => mret []
  | now :: nows =>
      r ← MarkCallbackInvoked st now id kind;
      rs ← invoke_all st id kind nows;
      mret (r :: rs)
  end.

Definition invoked_field (kind : string) : string :=
  if String.eqb kind "success" then "success_callback_invoked_at"
  else "complete_callback_invoked_at".

Lemma invoke_script db id f now h :
  get_hash db (batchKey id) = Some h → h ≠ ∅ →
  Client.call (invokeCallback (batchKey id) f now) db
  = match h !! f with
    | Some _ => (db, Ok 0)
    | None => (put_hash (batchKey id) (<[f := now]> h) db, Ok 1)
    end.
Proof.
  intros Eh Hne. unfold Client.call, invokeCallback, run, mbind, script_bind, EXISTS.
  rewrite (get_hash_has_key _ _ _ Eh Hne). cbn. unfold HSETNX, lift. rewrite Eh.
  by destruct (h !! f).
Qed.

Lemma invoke_later st id kind nows w h :
  quiet w → id ≠ "" → get_hash (w_db w) (batchKey id) = Some h → is_Some (h !! invoked_field kind) →
  (invoke_all (Some st) id kind nows w).2 = (λ _, (false, None)) <$> nows.
Proof.
  intros Hq Hid Eh [v Hv]. revert w Hq Eh.
  induction nows as [|now nows IH]; intros w Hq Eh; [done |].
  assert (h ≠ ∅) as Hne by (intros ->; by rewrite lookup_empty in Hv).
  cbn [invoke_all MarkCallbackInvoked]. apply String.eqb_neq in Hid as ->.
  unfold mbind, io_bind. fold (invoked_field kind).
  destruct (do_quiet (Client.call (invokeCallback (batchKey id) (invoked_field kind)
    (c_rfc3339 now))) w Hq) as (net & -> & Hn).
  rewrite (invoke_script _ _ _ _ h Eh Hne), Hv. cbn.
  specialize (IH (World (w_db w) net) Hn Eh).
  by destruct (invoke_all _ _ _ nows _) as [w' rs]; cbn in *; subst.
Qed.

(** A callback of a live batch is invoked once: of any number of callers
    that ask MarkCallbackInvoked for the same kind, exactly the first is told to
    run the callback. *)
Theorem MarkCallbackInvoked_once (st : RedisStore) (id kind : string) (now : clock)
  (nows : list clock) (w : world) (h : gmap string string)
  (Hq : quiet w) (Hid : id ≠ "") (Hh : get_hash (w_db w) (batchKey id) = Some h) (Hne : h ≠ ∅)
  (Hnew : h !! invoked_field kind = None) :
  (invoke_all (Some st) id kind (now :: nows) w).2 = (true, None) :: ((λ _, (false, None)) <$> nows).
Proof.
  cbn [invoke_all MarkCallbackInvoked]. pose proof Hid as E. apply String.eqb_neq in E as ->.
  unfold mbind, io_bind. fold (invoked_field kind).
  destruct (do_quiet (Client.call (invokeCallback (batchKey id) (invoked_field kind)
    (c_rfc3339 now))) w Hq) as (net & -> & Hn).
  rewrite (invoke_script _ _ _ _ h Hh Hne), Hnew. cbn [fst snd].
  pose proof (invoke_later st id kind nows
    (World (put_hash (batchKey id) (<[invoked_field kind := c_rfc3339 now]> h) (w_db w)) net)
    (<[invoked_field kind := c_rfc3339 now]> h) Hn Hid) as H.
  cbn [mret io_ret]. destruct (invoke_all _ _ _ nows _) as [w' rs]. cbn in *.
  rewrite H; [done | apply get_hash_put_hash | by rewrite lookup_insert_eq].
Qed.

Lemma MarkCallbackInvoked_once_witness :
  (invoke_all (Some demo_store) "b1" "success" [demo_clock; demo_clock; demo_clock]
     (World (put_hash (batchKey "b1") {["status" := "success"]} empty_redis) [])).2
  = [(true, None); (false, None); (false, None)].
Proof.
  apply (MarkCallbackInvoked_once demo_store "b1" "success" demo_clock [demo_clock; demo_clock]
    (World (put_hash (batchKey "b1") {["status" := "success"]} empty_redis) [])
    {["status" := "success"]});
    [constructor | done | apply get_hash_put_hash | done | reflexivity].
Defined.

(** ** Rebuilding the counts *)

Section counts.
Context (H : string → gmap string string).

Definition status_of (id : string) : option string := H id !! "status".

Definition live (id : string) : bool := nonblank (status_of id).

(** How many of [ids] are in status [v]. *)
Definition in_status (v : string) (ids : list string) : Z :=
  Z.of_nat (length (filter (λ id, status_of id = Some v) ids)).

Lemma tally_spec ids counts prune :
  let r := tally ids (Ok <$> (status_of <$> ids)) counts prune in
  (∀ v, v ≠ "" → default 0 (r.1 !! v) = default 0 (counts !! v) + in_status v ids) ∧
  r.2 = prune ++ filter (λ id, live id = false) ids ∧
  ((∀ v n, counts !! v = Some n → v ≠ "" ∧ 0 < n) → ∀ v n, r.1 !! v = Some n → v ≠ "" ∧ 0 < n).
Proof.
  cbv zeta. revert counts prune.
  induction ids as [|id ids IH]; intros counts prune.
  { cbn. rewrite app_nil_r. split_and!; [| done | auto]. intros v Hv. unfold in_status. cbn. lia. }
  rewrite !fmap_cons. cbn [tally]. unfold in_status, live in *.
  destruct (status_of id) as [st|] eqn:Est; [destruct (String.eqb_spec st "") as [-> | Hne] |].
  2: { destruct (IH (<[st := default 0 (counts !! st) + 1]> counts) prune) as (I1 & I2 & I3).
    split_and!.
    - intros v Hv. rewrite I1 by done. rewrite filter_cons, Est.
      destruct (decide (st = v)) as [-> |].
      + rewrite lookup_insert_eq. rewrite decide_True by done. cbn [default from_option length].
        unfold Datatypes.id. lia.
      + rewrite lookup_insert_ne by done. rewrite decide_False by congruence. done.
    - rewrite I2, filter_cons, Est. cbn.
      destruct (String.eqb_spec st ""); [done |]. by rewrite decide_False by done.
    - intros Hc. apply I3. intros v n. destruct (decide (st = v)) as [-> |].
      + rewrite lookup_insert_eq. intros [= <-]. split; [done |].
        destruct (counts !! v) as [m|] eqn:Em; cbn; [| lia]. destruct (Hc v m Em).
        unfold Datatypes.id. lia.
      + rewrite lookup_insert_ne by done. apply Hc. }
  all: destruct (IH counts (prune ++ [id])) as (I1 & I2 & I3); split_and!; [| | done];
    [intros v Hv; rewrite I1 by done; rewrite filter_cons, Est; by rewrite decide_False by congruence
    | rewrite I2, filter_cons, Est; cbn; by rewrite <- app_assoc].
Qed.

Lemma hget_status_ok db id :
  get_hash db (batchKey id) = Some (H id) →
  command (HGET (batchKey id) "status") db = (db, Ok (status_of id)).
Proof. intros E. unfold command, HGET, lift. by rewrite E. Qed.

Lemma hget_error_ok (l : list (option string)) : hget_error (Ok <$> l) = None.
Proof. induction l as [|[]]; done. Qed.
End counts.

(** ZREM of a list of members. *)
Lemma zrems_spec index ids db z :
  get_zset db index = Some z →
  get_zset (run_cmds (zrems index ids) db).1 index = Some (filter (λ p, p.1 ∉ ids) z) ∧
  (∀ k, k ≠ index → kdb (run_cmds (zrems index ids) db).1 !! k = kdb db !! k).
Proof.
  revert db z. induction ids as [|id ids IH]; intros db z Hz.
  { split; [| done]. cbn. rewrite Hz. f_equal.
    symmetry. apply map_filter_id. intros i x _. apply not_elem_of_nil. }
  unfold zrems. rewrite fmap_cons. cbn [run_cmds].
  assert (command (ZREM index id) db
          = (put_zset index (delete id z) db, Ok (bool_decide (is_Some (z !! id))))) as ->.
  { unfold command, ZREM, lift. by rewrite Hz. }
  destruct (IH (put_zset index (delete id z) db) (delete id z) (get_zset_put_zset _ _ _))
    as (E2 & E3). fold (zrems index ids).
  destruct (run_cmds (zrems index ids) _) as [d rs']. cbn [fst snd] in *. split.
  - rewrite E2. f_equal. apply map_eq. intros i. apply option_eq. intros x.
    rewrite !map_lookup_filter_Some, lookup_delete_Some. cbn. set_solver.
  - intros k Hk. rewrite E3 by done. by apply kdb_put_zset_ne.
Qed.

(** The HSETs of the rebuild, from an empty temporary key. *)
Lemma hsets_spec (l : list (string * Z)) db h :
  get_hash db rebuildKey = Some h → NoDup l.*1 →
  let r := run_cmds ((λ p, command (HSET rebuildKey p.1 (itoa p.2))) <$> l) db in
  first_error r.2 = None ∧
  (∀ k, k ≠ rebuildKey → kdb r.1 !! k = kdb db !! k) ∧
  ∃ h', get_hash r.1 rebuildKey = Some h' ∧
    (∀ v, v ∉ l.*1 → h' !! v = h !! v) ∧ (∀ v n, (v, n) ∈ l → h' !! v = Some (itoa n)).
Proof.
  cbv zeta. revert db h. induction l as [|[v n] l IH]; intros db h Hh Hd.
  { cbn. split_and!; try done. exists h. split_and!; try done. intros v n Hv.
    by apply not_elem_of_nil in Hv. }
  rewrite !fmap_cons in *. apply NoDup_cons in Hd as [Hn Hd]. cbn [fst snd run_cmds].
  assert (command (HSET rebuildKey v (itoa n)) db
          = (put_hash rebuildKey (<[v := itoa n]> h) db, Ok tt)) as ->.
  { unfold command, HSET, lift. by rewrite Hh. }
  destruct (IH _ _ (get_hash_put_hash rebuildKey (<[v := itoa n]> h) db) Hd)
    as (I1 & I2 & h' & I3 & I4 & I5).
  destruct (run_cmds _ (put_hash _ _ _)) as [d rs]. cbn [fst snd first_error] in *.
  split_and!; [done | |].
  { intros k Hk. rewrite I2 by done. by apply kdb_put_hash_ne. }
  exists h'. split_and!; [done | |].
  - intros x Hx. rewrite not_elem_of_cons in Hx. rewrite I4 by apply Hx.
    rewrite lookup_insert_ne; [done | naive_solver].
  - intros x m [[= -> ->] | Hx]%elem_of_cons; [| by apply I5].
    rewrite I4 by done. by rewrite lookup_insert_eq.
Qed.

Lemma get_hash_some db k h : get_hash db k = Some h → h ≠ ∅ → kdb db !! k = Some (RHash h).
Proof. unfold get_hash. destruct (kdb db !! k) as [[]|]; naive_solver. Qed.

Lemma rename_spec k k' v db :
  kdb db !! k = Some v → k ≠ k' →
  ∃ db', command (RENAME k k') db = (db', Ok tt) ∧ kdb db' !! k' = Some v ∧
         ∀ x, x ≠ k → x ≠ k' → kdb db' !! x = kdb db !! x.
Proof.
  intros E Hne. unfold command, RENAME. rewrite E. eexists. split; [done |].
  destruct (kttl db !! k); cbn; (split; [by rewrite lookup_insert_eq |]);
    intros x H1 H2; by rewrite !lookup_insert_ne, !lookup_delete_ne by done.
Qed.

Lemma first_error_app {A} (l k : list (result A)) :
  first_error l = None → first_error (l ++ k) = first_error k.
Proof. induction l as [|[]]; cbn; auto; discriminate. Qed.

Lemma swap_counts_spec counts db :
  (∀ v n, counts !! v = Some n → 0 < n) →
  let r := run_cmds (swap_counts counts) db in
  first_error r.2 = None ∧ get_hash r.1 countsKey = Some (itoa <$> counts) ∧
  ∀ k, k ≠ countsKey → k ≠ rebuildKey → kdb r.1 !! k = kdb db !! k.
Proof.
  intros Hpos. cbv zeta. unfold swap_counts.
  set (l := filter (λ p, 0 < p.2) (map_to_list counts)).
  assert (∀ v n, (v, n) ∈ l ↔ counts !! v = Some n) as Hl.
  { intros v n. unfold l. rewrite list_elem_of_filter, elem_of_map_to_list. naive_solver. }
  assert (NoDup l.*1) as Hd.
  { eapply sublist_NoDup; [apply (NoDup_fst_map_to_list counts) |].
    apply fmap_sublist, sublist_filter. }
  rewrite run_cmds_app, run_cmds_app. cbn [run_cmds fst snd app].
  change (command (DEL rebuildKey) db) with (del_key rebuildKey db, Ok tt). cbn [fst snd].
  assert (get_hash (del_key rebuildKey db) rebuildKey = Some ∅) as E0.
  { unfold get_hash. cbn. by rewrite lookup_delete_eq. }
  destruct (hsets_spec l _ ∅ E0 Hd) as (I1 & I2 & h & I3 & I4 & I5).
  destruct (run_cmds _ (del_key rebuildKey db)) as [d rs]. cbn [fst snd] in *.
  assert (∀ k, k ≠ rebuildKey → kdb d !! k = kdb db !! k) as Hk.
  { intros k Hk. rewrite I2 by done. by apply kdb_del_ne. }
  assert (h = itoa <$> counts) as ->.
  { apply map_eq. intros v. rewrite lookup_fmap. destruct (counts !! v) as [n|] eqn:Ev; cbn.
    - by apply I5, Hl.
    - rewrite I4; [apply lookup_empty |]. intros ([v' n] & -> & Hin)%list_elem_of_fmap.
      apply Hl in Hin. naive_solver. }
  case_decide as Hlen.
  - change (command (DEL countsKey) d) with (del_key countsKey d, @Ok unit tt).
    cbn [fst snd app first_error]. rewrite first_error_app by done. split; [done |]. split.
    + unfold get_hash. cbn. rewrite lookup_delete_eq. f_equal. symmetry.
      apply fmap_empty_iff, map_empty. intros v. apply eq_None_not_Some. intros [n Hv].
      apply Hl in Hv. apply nil_length_inv in Hlen. rewrite Hlen in Hv.
      by apply not_elem_of_nil in Hv.
    + intros k H1 H2. rewrite kdb_del_ne by done. by apply Hk.
  - destruct (rename_spec rebuildKey countsKey (RHash (itoa <$> counts)) d) as (d' & -> & R1 & R2).
    + apply get_hash_some; [done |]. intros He%fmap_empty_iff. subst counts.
      unfold l in Hlen. by rewrite map_to_list_empty in Hlen.
    + discriminate.
    + cbn [fst snd app first_error]. rewrite first_error_app by done. split; [done |]. split.
      * unfold get_hash. by rewrite R1.
      * intros k H1 H2. rewrite R2 by done. by apply Hk.
Qed.

Lemma zset_sorted_perm z : (zset_sorted z).*1 ≡ₚ (map_to_list z).*1.
Proof. unfold zset_sorted. by rewrite merge_sort_Permutation. Qed.

Lemma elem_of_zset_sorted z id : id ∈ (zset_sorted z).*1 ↔ is_Some (z !! id).
Proof.
  rewrite zset_sorted_perm, list_elem_of_fmap. split.
  - intros ([x q] & -> & Hx%elem_of_map_to_list). by exists q.
  - intros [q Hq]. exists (id, q). by rewrite elem_of_map_to_list.
Qed.

(** The members of an index whose batch is live. *)
Definition live_index (H : string → gmap string string) (z : gmap string Q) : gmap string Q :=
  filter (λ p, live H p.1 = true) z.

Lemma prune_index H z :
  filter (λ p, p.1 ∉ filter (λ id, live H id = false) (zset_sorted z).*1) z = live_index H z.
Proof.
  apply map_filter_ext. intros id q Hz. cbn. rewrite list_elem_of_filter, elem_of_zset_sorted.
  destruct (live H id); naive_solver.
Qed.

Lemma finish_counts_quiet H z w net counts :
  get_zset w allIndex = Some z → Forall (λ f, f = Fine) net →
  (∀ v n, counts !! v = Some n → 0 < n) →
  let r := finish_counts counts (filter (λ id, live H id = false) (zset_sorted z).*1) (World w net) in
  r.2 = None ∧ get_zset (w_db r.1) allIndex = Some (live_index H z) ∧
  get_hash (w_db r.1) countsKey = Some (itoa <$> counts).
Proof.
  intros Hz Hn Hpos. cbv zeta. unfold finish_counts, mbind, io_bind.
  set (prune := filter _ _).
  assert (∀ db net', get_zset db allIndex = Some (live_index H z) → Forall (λ f, f = Fine) net' →
    let r := (let '(w', p) := pipeline (swap_counts counts) (World db net') in
              (w', first_error p)) in
    r.2 = None ∧ get_zset (w_db r.1) allIndex = Some (live_index H z) ∧
    get_hash (w_db r.1) countsKey = Some (itoa <$> counts)) as Hswap.
  { intros db net' Ez Hn'. cbv zeta.
    destruct (pipeline_quiet (swap_counts counts) (World db net') Hn') as (net2 & -> & _).
    destruct (swap_counts_spec counts db Hpos) as (S1 & S2 & S3).
    cbn [w_db] in *. split_and!; [exact S1 | | exact S2].
    cbn [fst w_db mret io_ret]. unfold get_zset. rewrite S3 by discriminate. exact Ez. }
  case_decide as Hl.
  - apply Hswap; [| done]. rewrite Hz. f_equal. rewrite <- prune_index. symmetry.
    apply map_filter_id. intros i x _. cbn. fold prune. apply nil_length_inv in Hl. rewrite Hl.
    apply not_elem_of_nil.
  - destruct (pipeline_quiet (zrems allIndex prune) (World w net) Hn) as (net2 & -> & Hn2).
    apply Hswap; [| done]. destruct (zrems_spec allIndex prune w z Hz) as [E _].
    cbn [w_db]. rewrite E. f_equal. apply prune_index.
Qed.

Lemma tonum_fmap (c : gmap string Z) v : tonum ((itoa <$> c) !! v) = default 0 (c !! v).
Proof. rewrite lookup_fmap. destruct (c !! v); cbn; [apply tonum_itoa | done]. Qed.

Lemma in_status_perm H v l k : l ≡ₚ k → in_status H v l = in_status H v k.
Proof. intros Hp. unfold in_status. by rewrite Hp. Qed.

(** ReconcileBatchCounts rebuilds the counts hash from the batches: on a
    reachable network, whatever drifted values it held, afterwards it holds for
    each status exactly the number of indexed batches in that status, and the
    all-index has lost exactly the batches whose hash is gone. *)
Theorem ReconcileBatchCounts_exact (st : RedisStore) (w : world) (z : gmap string Q)
  (H : string → gmap string string)
  (Hq : quiet w) (Hz : get_zset (w_db w) allIndex = Some z)
  (Hh : ∀ id, is_Some (z !! id) → get_hash (w_db w) (batchKey id) = Some (H id)) :
  let '(w', err) := ReconcileBatchCounts (Some st) w in
  err = None ∧
  get_zset (w_db w') allIndex = Some (live_index H z) ∧
  ∃ c, get_hash (w_db w') countsKey = Some c ∧
    ∀ v, v ≠ "" → tonum (c !! v) = in_status H v (map_to_list z).*1.
Proof.
  unfold ReconcileBatchCounts, mbind, io_bind.
  destruct (do_quiet (command (ZRANGE_ALL allIndex)) w Hq) as (net & -> & Hn).
  assert (command (ZRANGE_ALL allIndex) (w_db w) = (w_db w, Ok ((zset_sorted z).*1))) as ->.
  { unfold command, ZRANGE_ALL, lift. by rewrite Hz. }
  cbn [fst snd]. destruct (tally_spec H (zset_sorted z).*1 ∅ []) as (T1 & T2 & T3).
  assert (∀ w', (let r := finish_counts (tally (zset_sorted z).*1
      (Ok <$> (status_of H <$> (zset_sorted z).*1)) ∅ []).1
      (filter (λ id, live H id = false) (zset_sorted z).*1) (World (w_db w) w') in
      Forall (λ f, f = Fine) w' →
      r.2 = None ∧ get_zset (w_db r.1) allIndex = Some (live_index H z) ∧
      ∃ c, get_hash (w_db r.1) countsKey = Some c ∧
        ∀ v, v ≠ "" → tonum (c !! v) = in_status H v (map_to_list z).*1)) as Hfin.
  { intros net'. cbv zeta. intros Hn'.
    destruct (finish_counts_quiet H z (w_db w) net' (tally (zset_sorted z).*1
      (Ok <$> (status_of H <$> (zset_sorted z).*1)) ∅ []).1 Hz Hn') as (F1 & F2 & F3).
    { intros v n Hv. eapply T3; [| exact Hv]. by intros ? ? ?%lookup_empty_Some. }
    split_and!; [done | done |]. eexists. split; [exact F3 |]. intros v Hv.
    rewrite tonum_fmap, T1 by done. rewrite lookup_empty. cbn.
    apply in_status_perm, zset_sorted_perm. }
  case_decide as Hl.
  - apply nil_length_inv in Hl. rewrite Hl in Hfin. specialize (Hfin net Hn). cbn in Hfin.
    by destruct (finish_counts _ _ _).
  - destruct (pipeline_quiet ((λ id, command (HGET (batchKey id) "status")) <$> (zset_sorted z).*1)
      (World (w_db w) net) Hn) as (net2 & -> & Hn2).
    rewrite (run_cmds_read _ (status_of H)).
    2: { intros id Hid. apply hget_status_ok, Hh, elem_of_zset_sorted, Hid. }
    cbn [fst snd w_db]. rewrite hget_error_ok.
    specialize (Hfin net2 Hn2). cbn in T2. rewrite <- T2 in Hfin.
    destruct (tally _ _ ∅ []) as [counts prune]. cbn [fst snd] in *.
    by destruct (finish_counts counts prune _).
Qed.

(** A drifted counts hash and two indexed batches, one of them gone. *)
Definition drifted : world :=
  World (put_hash countsKey {["running" := "7"]}
           (put_zset allIndex {["b1" := 1#1; "b2" := 2#1]}
              (put_hash (batchKey "b1") {["status" := "running"]} empty_redis))) [].

Definition drifted_hash (id : string) : gmap string string :=
  if String.eqb id "b1" then {["status" := "running"]} else ∅.

Lemma ReconcileBatchCounts_exact_witness :
  let '(w', err) := ReconcileBatchCounts (Some demo_store) drifted in
  err = None ∧
  get_zset (w_db w') allIndex = Some (live_index drifted_hash {["b1" := 1#1; "b2" := 2#1]}) ∧
  ∃ c, get_hash (w_db w') countsKey = Some c ∧
    ∀ v, v ≠ "" → tonum (c !! v)
         = in_status drifted_hash v (map_to_list ({["b1" := 1#1; "b2" := 2#1]} : gmap string Q)).*1.
Proof.
  apply (ReconcileBatchCounts_exact demo_store drifted _ drifted_hash).
  - constructor.
  - reflexivity.
  - intros id [q Hq].
    assert (id = "b1" ∨ id = "b2") as [-> | ->]; [| reflexivity ..].
    destruct (decide (id = "b1")); [by left |]. destruct (decide (id = "b2")); [by right |].
    exfalso. revert Hq. rewrite lookup_insert_ne by done. by rewrite lookup_singleton_ne by done.
Defined.

(** ** Creating a batch and reading it back *)

Definition created_hash (id : string) (total : Z) (on_s on_c meta now locked desc tenant args : string)
    : gmap string string :=
  foldl (fun h p => <[p.1 := p.2]> h) {["id" := id]}
    [("total_jobs", itoa total); ("completed_count", "0"); ("failed_count", "0");
     ("touched_count", "0"); ("status", "running"); ("on_success", on_s);
     ("on_complete", on_c); ("meta", meta); ("created_at", now);
     ("locked_at", locked); ("description", desc); ("tenant_id", tenant);
     ("callback_args", args)].

Lemma create_fresh id db total on_s on_c meta now t locked desc tenant args :
  get_hash db (batchKey id) = Some ∅ →
  ∃ db', Client.call (createBatch (batchKey id) id (itoa total) on_s on_c meta now t locked desc
           tenant args) db = (db', Ok 1)
    ∧ get_hash db' (batchKey id) = Some (created_hash id total on_s on_c meta now locked desc tenant args)
    ∧ ∀ k, k ≠ batchKey id → kdb db' !! k = kdb db !! k.
Proof.
  intros Eh.
  assert (wp (createBatch (batchKey id) id (itoa total) on_s on_c meta now t locked desc tenant args)
    db (returns (λ s r, r = 1 ∧
      get_hash s (batchKey id) = Some (created_hash id total on_s on_c meta now locked desc tenant args)
      ∧ ∀ k, k ≠ batchKey id → kdb s !! k = kdb db !! k))) as Hwp.
  { unfold createBatch. steps.
    eapply wp_HSETNX; [known | by rewrite lookup_empty |]. intros _. steps.
    apply wp_when; [done |]. intros _. steps.
    eapply wp_HMSET; [known |]. steps. split; [done |]. split; [by reads |].
    intros k Hk. rewrite kdb_expire, !kdb_put_hash_ne by (by apply not_eq_sym). done. }
  destruct (wp_run _ _ _ Hwp) as (db' & r & E & -> & H1 & H2).
  exists db'. unfold Client.call. by rewrite E.
Qed.

Lemma created_batch id total on_s on_c meta now locked desc tenant args :
  - maxInt64 <= total <= maxInt64 →
  hashToBatch (created_hash id total on_s on_c meta now locked desc tenant args)
  = Some (mkBatch id total 0 0 0 "running" on_s on_c meta args desc tenant locked "" "" false).
Proof.
  intros Hr. unfold hashToBatch.
  rewrite decide_False.
  2: { intros E. apply (f_equal (.!! "callback_args")) in E. unfold created_hash in E.
       cbn [foldl fst snd] in E. rewrite lookup_insert_eq in E. discriminate E. }
  unfold at_key, created_hash. cbn [foldl fst snd].
  repeat first
    [ rewrite lookup_insert_ne by discriminate | rewrite lookup_insert_eq
    | rewrite lookup_singleton_eq | rewrite lookup_singleton_ne by discriminate ].
  cbn [default from_option Datatypes.id]. by rewrite parseInt_itoa.
Qed.

Lemma create_again id db total on_s on_c meta now t locked desc tenant args h :
  get_hash db (batchKey id) = Some h → h !! "id" = Some id →
  Client.call (createBatch (batchKey id) id total on_s on_c meta now t locked desc tenant args) db
  = (db, Ok 0).
Proof.
  intros Eh Ei. unfold Client.call, createBatch, run, mbind, script_bind, HSETNX, lift.
  rewrite Eh, Ei. done.
Qed.

Definition counts_ok (db : redis) : Prop := ∃ c, get_hash db countsKey = Some c ∧ ints c.

Lemma index_new_quiet id score db zr za :
  get_zset db runningIndex = Some zr → get_zset db allIndex = Some za → counts_ok db →
  let r := run_cmds (index_new id score) db in
  first_error r.2 = None ∧ kdb r.1 !! batchKey id = kdb db !! batchKey id ∧
  get_zset r.1 runningIndex = Some (<[id := score]> zr).
Proof.
  intros Hr Ha (c & Hc & Hi). cbv zeta. unfold index_new. cbn [run_cmds].
  assert (command (ZADD runningIndex score id) db
          = (put_zset runningIndex (<[id := score]> zr) db, Ok tt)) as ->.
  { unfold command, ZADD, lift. by rewrite Hr. }
  set (d1 := put_zset runningIndex _ db).
  assert (command (ZADD allIndex score id) d1 = (put_zset allIndex (<[id := score]> za) d1, Ok tt)) as ->.
  { unfold command, ZADD, lift. unfold d1. reads. by rewrite Ha. }
  set (d2 := put_zset allIndex _ d1).
  destruct (ints_lookup c "running" Hi) as [n Hn].
  assert (command (HINCRBY countsKey "running" 1) d2
          = (put_hash countsKey (<["running" := itoa (n + 1)]> c) d2, Ok tt)) as ->.
  { unfold command, HINCRBY, lift. unfold d2, d1. reads. rewrite Hc.
    destruct Hn as [Hn | [Hn ->]]; rewrite Hn; [by rewrite atoi_itoa | done]. }
  cbn [fst snd first_error]. split; [done |]. split.
  - unfold d2, d1. rewrite kdb_put_hash_ne, !kdb_put_zset_ne by distinct. done.
  - unfold d2, d1. by reads.
Qed.

(** C31: what CreateBatch writes is what FindBatch reads.  While Redis answers,
    the indexes and counters have their types, the total fits 64 bits and the
    metadata and callback arguments of both callers can be encoded: after the
    creation of a batch under a new id, FindBatch returns the caller's parameters
    with the encoded metadata and arguments, zero counters and status running,
    locked exactly when it was created sealed; the batch is in the running index
    with the time of its creation; and a second creation under the same id, with
    any parameters, reports false and changes nothing. *)
Theorem CreateBatch_FindBatch {json : Type} (marshal : json -> string + string)
  (st : RedisStore) (now now' : clock) (p p' : CreateBatchParams (json := json))
  (meta args meta' args' : string) (w : world) (zr za : gmap string Q)
  (Hq : quiet w) (Hmeta : marshal_opt marshal (cp_Meta p) = inl meta)
  (Hargs : marshal_opt marshal (cp_CallbackArgs p) = inl args)
  (Hmeta' : marshal_opt marshal (cp_Meta p') = inl meta')
  (Hargs' : marshal_opt marshal (cp_CallbackArgs p') = inl args')
  (Hid : cp_ID p' = cp_ID p)
  (Htotal : - maxInt64 <= cp_TotalJobs p <= maxInt64)
  (Hnew : get_hash (w_db w) (batchKey (cp_ID p)) = Some ∅)
  (Hzr : get_zset (w_db w) runningIndex = Some zr) (Hza : get_zset (w_db w) allIndex = Some za)
  (Hc : counts_ok (w_db w)) :
  let '(w1, r1) := CreateBatch marshal (Some st) now p w in
  let '(w2, r2) := FindBatch (cp_ID p) w1 in
  let '(w3, r3) := CreateBatch marshal (Some st) now' p' w2 in
  r1 = (true, None) ∧
  get_zset (w_db w1) runningIndex = Some (<[cp_ID p := c_score now]> zr) ∧
  r2 = (Some (mkBatch (cp_ID p) (cp_TotalJobs p) 0 0 0 "running" (cp_OnSuccess p)
                (cp_OnComplete p) meta args (cp_Description p) (cp_TenantID p)
                (if cp_Sealed p then c_rfc3339 now else "") "" "" false), None) ∧
  w_db w2 = w_db w1 ∧ r3 = (false, None) ∧ w_db w3 = w_db w1.
Proof.
  unfold CreateBatch. rewrite Hmeta, Hargs, Hmeta', Hargs', Hid. unfold mbind, io_bind.
  destruct (do_quiet (Client.call (createBatch (batchKey (cp_ID p)) (cp_ID p)
    (itoa (cp_TotalJobs p)) (cp_OnSuccess p) (cp_OnComplete p) meta (c_rfc3339 now)
    (seconds (ttl st)) (if cp_Sealed p then c_rfc3339 now else "") (cp_Description p)
    (cp_TenantID p) args)) w Hq) as (n1 & -> & Hn1).
  destruct (create_fresh (cp_ID p) (w_db w) (cp_TotalJobs p) (cp_OnSuccess p) (cp_OnComplete p)
    meta (c_rfc3339 now) (seconds (ttl st)) (if cp_Sealed p then c_rfc3339 now else "")
    (cp_Description p) (cp_TenantID p) args Hnew) as (db & -> & Eh & Hsame).
  cbn [fst snd Z.eqb negb Pos.eqb].
  destruct (pipeline_quiet (index_new (cp_ID p) (c_score now)) (World db n1) Hn1)
    as (n2 & -> & Hn2). cbn [w_db].
  destruct (index_new_quiet (cp_ID p) (c_score now) db zr za) as (I1 & I2 & I3).
  { unfold get_zset. by rewrite Hsame by discriminate. }
  { unfold get_zset. by rewrite Hsame by discriminate. }
  { destruct Hc as (c & Ec & Hi). exists c. split; [| done]. unfold get_hash.
    by rewrite Hsame by discriminate. }
  set (r := run_cmds (index_new (cp_ID p) (c_score now)) db) in *.
  assert (get_hash r.1 (batchKey (cp_ID p)) = get_hash db (batchKey (cp_ID p))) as Er
    by (unfold get_hash; by rewrite I2).
  rewrite Eh in Er. cbn [mret io_ret]. unfold FindBatch, mbind, io_bind.
  destruct (do_quiet (command (HGETALL (batchKey (cp_ID p)))) (World r.1 n2) Hn2)
    as (n3 & -> & Hn3). cbn [w_db]. rewrite (hgetall_ok _ _ _ Er). cbn [fst snd].
  set (h := created_hash _ _ _ _ _ _ _ _ _ _) in *.
  pose proof (created_batch (cp_ID p) (cp_TotalJobs p) (cp_OnSuccess p) (cp_OnComplete p) meta
    (c_rfc3339 now) (if cp_Sealed p then c_rfc3339 now else "") (cp_Description p)
    (cp_TenantID p) args Htotal) as Hb. fold h in Hb.
  assert (h ≠ ∅) as Hne by (intros E; by rewrite E in Hb).
  rewrite decide_False by done. rewrite Hb. cbn [mret io_ret].
  destruct (do_quiet (Client.call (createBatch (batchKey (cp_ID p)) (cp_ID p)
    (itoa (cp_TotalJobs p')) (cp_OnSuccess p') (cp_OnComplete p') meta' (c_rfc3339 now')
    (seconds (ttl st)) (if cp_Sealed p' then c_rfc3339 now' else "") (cp_Description p')
    (cp_TenantID p') args')) (World r.1 n3) Hn3) as (n4 & -> & _). cbn [w_db].
  rewrite (create_again _ _ _ _ _ _ _ _ _ _ _ _ h Er eq_refl). cbn.
  split_and!; try done. f_equal. exact I1.
Qed.

(** A concrete encoder: a JSON object given by its text. *)
Definition demo_params : CreateBatchParams (json := string) :=
  mkCreate "b9" 3 "OnOk" "OnDone" (Some "{}") None "nightly" "acme" true.

Lemma CreateBatch_FindBatch_witness :
  let '(w1, r1) := CreateBatch inl (Some demo_store) demo_clock demo_params (World empty_redis []) in
  let '(w2, r2) := FindBatch "b9" w1 in
  let '(w3, r3) := CreateBatch inl (Some demo_store) demo_clock demo_params w2 in
  r1 = (true, None) ∧ get_zset (w_db w1) runningIndex = Some {["b9" := c_score demo_clock]} ∧
  r2 = (Some (mkBatch "b9" 3 0 0 0 "running" "OnOk" "OnDone" "{}" "" "nightly" "acme" t0 "" ""
                false), None) ∧
  w_db w2 = w_db w1 ∧ r3 = (false, None) ∧ w_db w3 = w_db w1.
Proof.
  apply (CreateBatch_FindBatch inl demo_store demo_clock demo_clock demo_params demo_params "{}" "" "{}" ""
    (World empty_redis []) ∅ ∅); try reflexivity.
  - constructor.
  - cbn. unfold maxInt64. lia.
  - exists ∅. split; [reflexivity |]. intros f v Hf. by rewrite lookup_empty in Hf.
Defined.

(** ** Sweeping an index *)

Section sweep.
Context (H : string → gmap string string) (keep : Batch → bool).

(** The batch of an id, when its hash exists and [keep] holds of it. *)
Definition kept (id : string) : option Batch :=
  match hashToBatch (H id) with Some b => if keep b then Some b else None | None => None end.

Lemma partition_indexed_spec ids out prune :
  partition_indexed keep ids (Ok <$> (H <$> ids)) out prune
  = (out ++ omap kept ids, prune ++ filter (λ id, kept id = None) ids, None).
Proof.
  revert out prune. induction ids as [|id ids IH]; intros out prune.
  { cbn. by rewrite !app_nil_r. }
  rewrite !fmap_cons. cbn [partition_indexed omap list_omap]. rewrite filter_cons.
  destruct (decide (kept id = None)) as [Ek | Ek]; pose proof Ek as Ek'; unfold kept in Ek';
    destruct (hashToBatch (H id)) as [b|] eqn:Eb; try (destruct (keep b) eqn:Ekb); try done;
    rewrite IH, <- app_assoc; rewrite ?Ek; try done.
  assert (kept id = Some b) as -> by (unfold kept; by rewrite Eb, Ekb). done.
Qed.

Lemma filterIndexed_quiet ids index z w :
  quiet w → get_zset (w_db w) index = Some z →
  (∀ id, id ∈ ids → get_hash (w_db w) (batchKey id) = Some (H id)) →
  let r := filterIndexedBatches ids index keep w in
  r.2 = (omap kept ids, None) ∧
  get_zset (w_db r.1) index = Some (filter (λ p, p.1 ∈ ids → is_Some (kept p.1)) z).
Proof.
  intros Hq Hz Hh. cbv zeta. unfold filterIndexedBatches. case_decide as Hl.
  { apply nil_length_inv in Hl as ->. split; [done |]. cbn. rewrite Hz. f_equal. symmetry.
    apply map_filter_id. cbn. by intros i x _ ?%not_elem_of_nil. }
  unfold mbind, io_bind. destruct (pipeline_quiet (hgetalls ids) w Hq) as (net & -> & Hn).
  unfold hgetalls. rewrite (run_cmds_read _ H) by (intros id Hid; apply hgetall_ok, Hh, Hid).
  cbn [fst snd]. rewrite first_error_ok, partition_indexed_spec. cbn [app].
  set (prune := filter (λ id, kept id = None) ids).
  assert (filter (λ p, p.1 ∉ prune) z = filter (λ p, p.1 ∈ ids → is_Some (kept p.1)) z) as Ez.
  { apply map_filter_ext. intros id q _. cbn. unfold prune. rewrite list_elem_of_filter.
    destruct (kept id); naive_solver. }
  case_decide as Hp.
  - split; [done |]. cbn. rewrite Hz, <- Ez. f_equal. symmetry. apply map_filter_id. cbn.
    intros i x _. apply nil_length_inv in Hp. rewrite Hp. apply not_elem_of_nil.
  - destruct (pipeline_quiet (zrems index prune) (World (w_db w) net) Hn) as (net2 & -> & _).
    split; [done |]. cbn [fst w_db mret io_ret]. rewrite <- Ez.
    by apply (zrems_spec index prune (w_db w) z).
Qed.
End sweep.

Lemma elem_of_zrange r z id :
  id ∈ (zrange_members r z).*1 ↔ ∃ q, z !! id = Some q ∧ in_zrange r q = true.
Proof.
  unfold zrange_members. rewrite list_elem_of_fmap. split.
  - intros ([x q] & -> & [Hr Hx]%list_elem_of_filter). unfold zset_sorted in Hx.
    rewrite merge_sort_Permutation in Hx. apply elem_of_map_to_list in Hx. by exists q.
  - intros (q & Hz & Hr). exists (id, q). split; [done |]. apply list_elem_of_filter.
    split; [done |]. unfold zset_sorted. rewrite merge_sort_Permutation.
    by apply elem_of_map_to_list.
Qed.

Definition is_running (b : Batch) : bool := String.eqb (Status b) "running".

(** StaleBatches finds exactly the batches that are still running among
    those indexed before the threshold, and drops from the running index exactly
    the old entries whose batch is gone or no longer running. *)
Theorem StaleBatches_exact (st : RedisStore) (olderThan : Q) (w : world) (z : gmap string Q)
  (H : string → gmap string string)
  (Hq : quiet w) (Hz : get_zset (w_db w) runningIndex = Some z)
  (Hh : ∀ id, is_Some (z !! id) → get_hash (w_db w) (batchKey id) = Some (H id)) :
  let '(w', (out, err)) := StaleBatches (Some st) olderThan w in
  let old q := Qle_bool q olderThan in
  err = None ∧
  (∀ b, b ∈ out ↔ ∃ id q, z !! id = Some q ∧ old q = true ∧ kept H is_running id = Some b) ∧
  get_zset (w_db w') runningIndex
  = Some (filter (λ p, old p.2 = true → is_Some (kept H is_running p.1)) z).
Proof.
  unfold StaleBatches, mbind, io_bind.
  set (r := ZRange None (Some (false, olderThan))).
  destruct (do_quiet (command (ZRANGEBYSCORE runningIndex r)) w Hq) as (net & -> & Hn).
  assert (command (ZRANGEBYSCORE runningIndex r) (w_db w)
          = (w_db w, Ok ((zrange_members r z).*1))) as ->.
  { unfold command, ZRANGEBYSCORE, lift. by rewrite Hz. }
  cbn [fst snd]. fold is_running.
  pose proof (elem_of_zrange r z) as Hold. unfold in_zrange in Hold. cbn [zr_min zr_max r andb] in Hold.
  destruct (filterIndexed_quiet H is_running (zrange_members r z).*1 runningIndex z
    (World (w_db w) net) Hn Hz) as [F1 F2].
  { intros id Hid. apply Hh. apply Hold in Hid as (q & -> & _). by eexists. }
  destruct (filterIndexedBatches _ _ _ _) as [w' [out err]]. cbn [fst snd] in *.
  injection F1 as -> ->. split; [done |]. split.
  - intros b. rewrite list_elem_of_omap. split.
    + intros (id & (q & Hq1 & Hq2)%Hold & Hk). by exists id, q.
    + intros (id & q & H1 & H2 & H3). exists id. split; [apply Hold; by exists q | done].
  - rewrite F2. f_equal. apply map_filter_ext. intros id q Hid. cbn. rewrite Hold. naive_solver.
Qed.

Definition stale_world : world :=
  World (put_zset runningIndex {["b1" := 1#1; "b2" := 2#1]}
           (put_hash (batchKey "b1") {["status" := "running"]} empty_redis)) [].

Lemma StaleBatches_exact_witness :
  let '(w', (out, err)) := StaleBatches (Some demo_store) (3#1) stale_world in
  let old q := Qle_bool q (3#1) in
  err = None ∧
  (∀ b, b ∈ out ↔ ∃ id q, ({["b1" := 1#1; "b2" := 2#1]} : gmap string Q) !! id = Some q ∧
     old q = true ∧ kept drifted_hash is_running id = Some b) ∧
  get_zset (w_db w') runningIndex
  = Some (filter (λ p, old p.2 = true → is_Some (kept drifted_hash is_running p.1))
            {["b1" := 1#1; "b2" := 2#1]}).
Proof.
  apply (StaleBatches_exact demo_store (3#1) stale_world _ drifted_hash).
  - constructor.
  - reflexivity.
  - intros id [q Hq].
    assert (id = "b1" ∨ id = "b2") as [-> | ->]; [| reflexivity ..].
    destruct (decide (id = "b1")); [by left |]. destruct (decide (id = "b2")); [by right |].
    exfalso. revert Hq. rewrite lookup_insert_ne by done. by rewrite lookup_singleton_ne by done.
Defined.
