(* ===== verification/Workset.v ===== *)
(** The working set (SuperFetch): pkg/workset.

    A job in flight is a key that holds the JSON of its [Entry], a member of its
    owner's set and of the index ordered by claim time.  Ownership is fenced: a
    consumer may only renew or complete the entry that carries its own id and
    fence.  When a consumer's heartbeat key is gone and the grace has passed, its
    jobs are produced again and dropped from the working set.

    JSON and gzip are operations of an interface, [EntryCodec]; [CodecLaws] are
    the round trips the code relies on. *)
From S2P Require Import Prelude Redis Client Kafka Store.

Definition jobKeyPrefix : string := "kafka_batch:work:job:".
Definition byConsumerPrefix : string := "kafka_batch:work:by_consumer:".
Definition indexKey : string := "kafka_batch:work:index".
Definition reclaimingPrefix : string := "kafka_batch:work:reclaiming:".
Definition producedPrefix : string := "kafka_batch:work:produced:".
Definition liveConsumerPrefix : string := "kafka_batch:live:consumer:".

Definition DefaultOrphanGrace : Z := 40 * second.
Definition defaultLeaseTTL : Z := 120 * second.
Definition defaultHeartbeatTTL : Z := 180 * second.
Definition producedMarkerTTL : Z := 3600 * second.
Definition reclaimSafetyBuffer : Z := 60 * second.

Definition jobKey (jobID : string) : string := (jobKeyPrefix +:+ jobID)%string.
Definition byConsumerKey (id : string) : string := (byConsumerPrefix +:+ id)%string.
Definition reclaimingKey (jobID : string) : string := (reclaimingPrefix +:+ jobID)%string.
Definition producedKey (jobID : string) : string := (producedPrefix +:+ jobID)%string.
Definition liveKey (consumerID : string) : string := (liveConsumerPrefix +:+ consumerID)%string.

Definition floorLeaseTTL (lease hbTTL grace : Z) : Z :=
  let min := hbTTL + grace + reclaimSafetyBuffer in
  if lease <? min then min else lease.

Definition resolveGrace (d : Z) : Z :=
  if d <? 0 then 0 else if d =? 0 then DefaultOrphanGrace else d.

Record Entry := mkEntry {
  JobID : string; Payload : string; Encoding : string; Topic : string; Partition : Z;
  Offset : Z; ConsumerID : string; Fence : string; ClaimedAt : string; ClaimedAtUnix : Z;
  Runtime : string
}.

(** What the scripts read of a decoded entry: a missing field is nil; the claim
    time may also be present without being a number. *)
Record lua_obj := LuaObj {
  lo_consumer : option string; lo_fence : option string; lo_claimed : option (option Z)
}.

(** encoding/json and cjson on entries, and compress/gzip on bytes. *)
Class EntryCodec := {
  json_marshal : Entry -> result string;
  json_unmarshal : string -> result Entry;
  cjson_decode : string -> option lua_obj;   (* None: an error or not a table *)
  gzip : string -> result string;
  gunzip : string -> result string;
  jval : Type;                               (* JSON values *)
  jtrue : jval;
  jstring : string -> jval;
  json_object : string -> result (gmap string jval);
  json_encode : gmap string jval -> result string
}.

Class CodecLaws `{EntryCodec} := {
  marshal_total : ∀ e, ∃ s, json_marshal e = Ok s;
  unmarshal_marshal : ∀ e s, json_marshal e = Ok s → json_unmarshal s = Ok e;
  cjson_marshal : ∀ e s, json_marshal e = Ok s →
    cjson_decode s = Some (LuaObj (Some (ConsumerID e)) (Some (Fence e))
                             (Some (Some (ClaimedAtUnix e))));
  gunzip_gzip : ∀ p z, gzip p = Ok z → gunzip z = Ok p
}.

Section workset.
Context `{EntryCodec}.

(** ** Payload encoding *)

Definition encodingGzip : string := "gzip".
Definition compressMinBytes : nat := 256.

Definition set_payload (e : Entry) (p enc : string) : Entry :=
  mkEntry (JobID e) p enc (Topic e) (Partition e) (Offset e) (ConsumerID e) (Fence e)
    (ClaimedAt e) (ClaimedAtUnix e) (Runtime e).

Definition marshalEntryJSON (e : Entry) : result string :=
  if (compressMinBytes <=? String.length (Payload e))%nat
     && negb (String.eqb (Encoding e) encodingGzip) then
    match gzip (Payload e) with
    | Bad _ => json_marshal e
    | Ok z => json_marshal (set_payload e z encodingGzip)
    end
  else json_marshal e.

Definition decodeEntryPayload (e : Entry) : result string :=
  if negb (String.eqb (Encoding e) encodingGzip) then Ok (Payload e) else gunzip (Payload e).

(** ** The scripts *)

Definition claimed_or (o : option (option Z)) (missing bad : Z) : Z :=
  match o with None => missing | Some None => bad | Some (Some z) => z end.

(** The double quote of the JSON text. *)
Definition quote : string := String (Ascii.ascii_of_N 34) "".

(** Lines 61-66 and 43-50: seed the heartbeat key or extend it. *)
Definition seed_live (K4 consumerID : string) (hbTTL : Z) : script Z unit :=
  let liveKey := (K4 +:+ consumerID)%string in
  ex ← EXISTS liveKey;
  if negb ex then
    SET_EX liveKey
      ("{" +:+ quote +:+ "consumer_id" +:+ quote +:+ ":" +:+ quote +:+ consumerID +:+ quote +:+ "}")%string
      hbTTL
  else EXPIRE liveKey hbTTL.

Definition claim_obj (K1 K3 K4 jobID consumerID : string) (ttl now grace hbTTL : Z)
    (obj : lua_obj) : script Z unit :=
  match lo_consumer obj with
  | None => mret tt
  | Some owner =>
      if negb (String.eqb owner "") && negb (String.eqb owner consumerID) then
        alive ← EXISTS (K4 +:+ owner)%string;
        when alive (lua_return 0);;
        let claimedUnix := claimed_or (lo_claimed obj) 0 0 in
        when ((0 <? grace) && (0 <? claimedUnix) && (now - claimedUnix <? grace)) (lua_return 0);;
        SREM ("kafka_batch:work:by_consumer:" +:+ owner)%string jobID
      else if String.eqb owner consumerID then
        EXPIRE K1 ttl;;
        seed_live K4 consumerID hbTTL;;
        ZADD K3 (inject_Z (claimed_or (lo_claimed obj) 0 now)) jobID;;
        lua_return 2
      else mret tt
  end.

Definition claimScript (K1 K2 K3 K4 jobID consumerID payload : string) (ttl now grace hb : Z)
    : script Z unit :=
  let hbTTL := if hb <? 1 then ttl else hb in
  cur ← GET K1;
  match cur with
  | None => mret tt
  | Some raw =>
      match cjson_decode raw with
      | None => mret tt
      | Some obj => claim_obj K1 K3 K4 jobID consumerID ttl now grace hbTTL obj
      end
  end;;
  SET_EX K1 payload ttl;;
  SADD K2 jobID;;
  ZADD K3 (inject_Z now) jobID;;
  seed_live K4 consumerID hbTTL;;
  lua_return 1.

(** [obj['consumer_id'] ~= c or obj['fence'] ~= f]. *)
Definition owned_by (obj : lua_obj) (consumerID fence : string) : bool :=
  bool_decide (lo_consumer obj = Some consumerID) && bool_decide (lo_fence obj = Some fence).

Definition renewScript (K1 consumerID fence : string) (ttl : Z) : script Z unit :=
  cur ← GET K1;
  match cur with
  | None => lua_return 0
  | Some raw =>
      match cjson_decode raw with
      | None => lua_return 0
      | Some obj =>
          when (negb (owned_by obj consumerID fence)) (lua_return 0);;
          EXPIRE K1 ttl;;
          lua_return 1
      end
  end.

Definition completeScript (K1 K2 K3 jobID consumerID fence : string) : script Z unit :=
  cur ← GET K1;
  match cur with
  | None => SREM K2 jobID;; ZREM K3 jobID;; lua_return 0
  | Some raw =>
      match cjson_decode raw with
      | None => lua_return 0
      | Some obj =>
          when (negb (owned_by obj consumerID fence)) (lua_return 0);;
          DEL K1;; SREM K2 jobID;; ZREM K3 jobID;; lua_return 1
      end
  end.

Definition finishReclaimScript (K1 K2 K3 K4 K5 jobID fence : string) : script Z unit :=
  cur ← GET K1;
  match cur with
  | None => mret tt
  | Some raw =>
      match cjson_decode raw with
      | None => mret tt
      | Some obj =>
          when (negb (bool_decide (lo_fence obj = Some fence))) (DEL K4;; lua_return 0);;
          match lo_consumer obj with
          | Some owner =>
              when (negb (String.eqb owner ""))
                (SREM ("kafka_batch:work:by_consumer:" +:+ owner)%string jobID)
          | None => mret tt
          end
      end;;
      DEL K1
  end;;
  SREM K2 jobID;; ZREM K3 jobID;; DEL K4;; DEL K5;; lua_return 1.

(** ** Store methods *)

Record ClaimParams := mkClaim {
  cl_JobID : string; cl_Payload : string; cl_Topic : string; cl_Partition : Z; cl_Offset : Z;
  cl_ConsumerID : string; cl_LeaseTTL : Z; cl_HeartbeatTTL : Z; cl_StealGrace : Z
}.

Record ClaimResult := mkClaimResult { Won : bool; cr_Fence : string; cr_Entry : option Entry }.

Definition lost : ClaimResult := mkClaimResult false "" None.
Definition won (e : Entry) : ClaimResult := mkClaimResult true (Fence e) (Some e).

(** The store; its dead-letter topic may be empty. *)
Record WorkStore := mkWorkStore { dltTopic : string }.

(** A reading of the clock and a fresh uuid. *)
Record stamp := Stamp { st_nano : string; st_unix : Z; st_uuid : string }.

Definition lease_of (p : ClaimParams) : Z * Z * Z :=
  let ttl := if cl_LeaseTTL p <=? 0 then defaultLeaseTTL else cl_LeaseTTL p in
  let hbTTL := if cl_HeartbeatTTL p <=? 0 then defaultHeartbeatTTL else cl_HeartbeatTTL p in
  let grace := resolveGrace (cl_StealGrace p) in
  (floorLeaseTTL ttl hbTTL grace, hbTTL, grace).

Definition entry_of (now : stamp) (p : ClaimParams) : Entry :=
  mkEntry (cl_JobID p) (cl_Payload p) "" (cl_Topic p) (cl_Partition p) (cl_Offset p)
    (cl_ConsumerID p) (st_uuid now) (st_nano now) (st_unix now) "go".

Definition claim_call (now : stamp) (p : ClaimParams) (raw : string) : script Z unit :=
  let '(ttl, hbTTL, grace) := lease_of p in
  claimScript (jobKey (cl_JobID p)) (byConsumerKey (cl_ConsumerID p)) indexKey liveConsumerPrefix
    (cl_JobID p) (cl_ConsumerID p) raw (seconds ttl) (st_unix now) (seconds grace) (seconds hbTTL).

Definition nilStore : string := "workset: nil store".
Definition emptyJobID : string := "workset: empty job_id".

Definition getEntry (jobID : string) : io (option Entry * error) :=
  r ← do (command (GET (jobKey jobID)));
  match r with
  | Bad e => mret (None, Some e)
  | Ok None => mret (None, None)
  | Ok (Some raw) =>
      match json_unmarshal raw with Bad e => mret (None, Some e) | Ok e => mret (Some e, None) end
  end.

Definition Claim (s : option WorkStore) (now : stamp) (p : ClaimParams)
    : io (ClaimResult * error) :=
  match s with
  | None => mret (lost, Some nilStore)
  | Some _ =>
      if String.eqb (cl_JobID p) "" then mret (lost, Some emptyJobID)
      else
        match marshalEntryJSON (entry_of now p) with
        | Bad e => mret (lost, Some e)
        | Ok raw =>
            r ← do (call (claim_call now p raw));
            match r with
            | Bad e => mret (lost, Some e)
            | Ok res =>
                if res =? 1 then mret (won (entry_of now p), None)
                else if res =? 2 then
                  x ← getEntry (cl_JobID p);
                  match x with
                  | (Some existing, None) => mret (won existing, None)
                  | (_, err) => mret (lost, err)
                  end
                else mret (lost, None)
            end
        end
  end.

Definition Renew (s : option WorkStore) (jobID consumerID fence : string) (ttl : Z)
    : io (bool * error) :=
  match s with
  | None => mret (false, None)
  | Some _ =>
      if String.eqb jobID "" then mret (false, None)
      else
        let ttl := if ttl <=? 0 then defaultLeaseTTL else ttl in
        r ← do (call (renewScript (jobKey jobID) consumerID fence (seconds ttl)));
        match r with Bad e => mret (false, Some e) | Ok n => mret (n =? 1, None) end
  end.

Definition StillOwned (s : option WorkStore) (jobID consumerID fence : string)
    : io (bool * error) :=
  match s with
  | None => mret (false, None)
  | Some _ =>
      if String.eqb jobID "" then mret (false, None)
      else
        x ← getEntry jobID;
        match x with
        | (_, Some e) => mret (false, Some e)
        | (None, None) => mret (false, None)
        | (Some e, None) =>
            mret (String.eqb (ConsumerID e) consumerID && String.eqb (Fence e) fence, None)
        end
  end.

Definition Complete (s : option WorkStore) (jobID consumerID fence : string) : io error :=
  match s with
  | None => mret None
  | Some _ =>
      if String.eqb jobID "" then mret None
      else
        r ← do (call (completeScript (jobKey jobID) (byConsumerKey consumerID) indexKey
                        jobID consumerID fence));
        match r with Bad e => mret (Some e) | Ok _ => mret None end
  end.

(** ** Pipelined claims and renewals *)

(** Lines 216-255: what is sent for each parameter, or why nothing is. *)
Definition prepare (now : string * Z) (q : string * ClaimParams) : result (Entry * script Z unit) :=
  let '(uuid, p) := q in
  let st := Stamp now.1 now.2 uuid in
  if String.eqb (cl_JobID p) "" then Bad emptyJobID
  else match marshalEntryJSON (entry_of st p) with
       | Bad e => Bad e
       | Ok raw => Ok (entry_of st p, claim_call st p raw)
       end.

Definition sent {A} (r : result A) : option A := match r with Ok a => Some a | Bad _ => None end.

(** What is known of a claim after the replies: settled, or resumed by this
    consumer, with its fence still to be read. *)
Inductive claim_state := Settled (r : ClaimResult) (e : error) | Resumed (jobID : string).

(** Lines 266-271 and 298-315: [stale] is the result of the first pipeline,
    whose errors stick when Exec failed for another reason than NOSCRIPT. *)
Definition settle (blocked : bool) (e : Entry) (stale r : result Z) : claim_state :=
  match (if blocked then stale else Ok 0), r with
  | Bad err, _ => Settled lost (Some err)
  | Ok _, Bad err => Settled lost (Some err)
  | Ok _, Ok n =>
      if n =? 1 then Settled (won e) None
      else if n =? 2 then Resumed (JobID e)
      else Settled lost None
  end.

Fixpoint settle_all (blocked : bool) (es : list Entry) (stale rs : list (result Z))
    : list claim_state :=
  match es, stale, rs with
  | e :: es, x :: stale, r :: rs => settle blocked e x r :: settle_all blocked es stale rs
  | _, _, _ => []
  end.

Definition resumed_ids (cs : list claim_state) : list string :=
  omap (λ c, match c with Resumed id => Some id | Settled _ _ => None end) cs.

(** Lines 325-341: the stored entry of a resumed claim. *)
Definition resume_result (r : result (option string)) : ClaimResult * error :=
  match r with
  | Ok None => (lost, None)
  | Bad e => (lost, Some e)
  | Ok (Some raw) =>
      match json_unmarshal raw with Bad e => (lost, Some e) | Ok e => (won e, None) end
  end.

Fixpoint resolve (cs : list claim_state) (gets : list (result (option string)))
    : list (ClaimResult * error) :=
  match cs with
  | [] => []
  | Settled r e :: cs => (r, e) :: resolve cs gets
  | Resumed _ :: cs =>
      match gets with
      | g :: gets => resume_result g :: resolve cs gets
      | [] => (lost, None) :: resolve cs []
      end
  end.

(** The answers, one per parameter: those not sent carry their own error. *)
Fixpoint place {A} (slots : list (result A)) (outs : list (ClaimResult * error))
    : list (ClaimResult * error) :=
  match slots with
  | [] => []
  | Bad e :: slots => (lost, Some e) :: place slots outs
  | Ok _ :: slots =>
      match outs with
      | o :: outs => o :: place slots outs
      | [] => (lost, None) :: place slots []
      end
  end.

Definition not_noscript (e : error) : bool :=
  match e with Some e => negb (is_noscript e) | None => false end.

(** A pipeline of EVALSHAs and the EVAL retry of the refused ones. *)
Definition evalsha_retry {A} (missing : list bool) (cs : list (cmd A))
    : io (list (result A) * list (result A)) :=
  p ← pipeline (refuse missing cs);
  let retry := again cs p in
  if decide (length retry = 0%nat) then mret (p, p)
  else p2 ← pipeline retry; mret (p, patch p p2).

Definition ClaimMany (s : option WorkStore) (missing : list bool) (now : string * Z)
    (params : list (string * ClaimParams)) : io (list (ClaimResult * error)) :=
  match s with
  | None => mret ((λ _, (lost, Some nilStore)) <$> params)
  | Some _ =>
      if decide (length params = 0%nat) then mret []
      else
        let slots := prepare now <$> params in
        let sends := omap sent slots in
        ps ← evalsha_retry missing ((λ x, call x.2) <$> sends);
        let blocked := not_noscript (first_error ps.1) in
        let states := settle_all blocked (sends.*1) ps.1 ps.2 in
        let ids := resumed_ids states in
        gets ← (if decide (length ids = 0%nat) then mret []
                else pipeline ((λ id, command (GET (jobKey id))) <$> ids));
        mret (place slots (resolve states gets))
  end.

Definition RenewMany (s : option WorkStore) (missing : list bool) (consumerID : string)
    (entries : list (string * string)) (ttl : Z) : io (list (bool * error)) :=
  match s with
  | None => mret ((λ _, (false, None)) <$> entries)
  | Some _ =>
      if decide (length entries = 0%nat) then mret []
      else
        let ttl := if ttl <=? 0 then defaultLeaseTTL else ttl in
        ps ← evalsha_retry missing
          ((λ e, call (renewScript (jobKey e.1) consumerID e.2 (seconds ttl))) <$> entries);
        mret ((λ r, match r with Bad e => (false, Some e) | Ok n => (n =? 1, None) end) <$> ps.2)
  end.

(** ** Orphans *)

(** Lines 502-524: decoded candidates and ids to prune, or the first error. *)
Fixpoint decode_candidates (ids : list string) (gets : list (result (option string)))
    (cands : list Entry) (missing : list string) : list Entry * list string * error :=
  match ids, gets with
  | id :: ids, g :: gets =>
      match g with
      | Bad e => ([], missing, Some e)
      | Ok None => decode_candidates ids gets cands (missing ++ [id])
      | Ok (Some raw) =>
          if String.eqb raw "" then decode_candidates ids gets cands (missing ++ [id])
          else match json_unmarshal raw with
               | Bad _ => decode_candidates ids gets cands (missing ++ [id])
               | Ok e => decode_candidates ids gets (cands ++ [e]) missing
               end
      end
  | _, _ => (cands, missing, None)
  end.

(** Lines 540-549: the distinct consumers, in order of first appearance. *)
Fixpoint distinct_consumers (cands : list Entry) (seen : list string) : list string :=
  match cands with
  | [] => seen
  | e :: cands =>
      if bool_decide (ConsumerID e ∈ seen) then distinct_consumers cands seen
      else distinct_consumers cands (seen ++ [ConsumerID e])
  end.

Fixpoint alive_map (ids : list string) (rs : list (result bool)) (m : gmap string bool)
    : gmap string bool * error :=
  match ids, rs with
  | id :: ids, Ok b :: rs => alive_map ids rs (<[id := b]> m)
  | _ :: _, Bad e :: _ => (m, Some e)
  | _, _ => (m, None)
  end.

Definition dead (m : gmap string bool) (e : Entry) : bool :=
  negb (default false (m !! ConsumerID e)).

(** Lines 525-534: forget the index entries without a payload. *)
Definition prune_missing (missing : list string) : io unit :=
  if decide (length missing = 0%nat) then mret tt
  else _ ← pipeline (zrems indexKey missing); mret tt.

(** Lines 539-575: the candidates whose consumer has no heartbeat. *)
Definition list_dead (limit : Z) (cands : list Entry) : io (list Entry * error) :=
  let unique := distinct_consumers cands [] in
  ex ← pipeline ((λ c, command (EXISTS (liveKey c))) <$> unique);
  match first_error ex with
  | Some e => mret ([], Some e)
  | None =>
      match alive_map unique ex ∅ with
      | (_, Some e) => mret ([], Some e)
      | (m, None) => mret (take (Z.to_nat limit) (filter (λ e, dead m e = true) cands), None)
      end
  end.

Definition ListOrphans (s : option WorkStore) (nowUnix : Z) (limit : Z) (grace : Z)
    : io (list Entry * error) :=
  match s with
  | None => mret ([], None)
  | Some _ =>
      let limit := if limit <? 1 then 100 else limit in
      let maxScore := nowUnix - seconds (resolveGrace grace) in
      r ← do (command (ZRANGEBYSCORE_LIMIT indexKey
                (ZRange None (Some (false, inject_Z maxScore))) (Z.to_nat (limit * 3))));
      match r with
      | Bad e => mret ([], Some e)
      | Ok ids =>
          if decide (length ids = 0%nat) then mret ([], None)
          else
            gets ← pipeline ((λ id, command (GET (jobKey id))) <$> ids);
            match decode_candidates ids gets [] [] with
            | (_, _, Some e) => mret ([], Some e)
            | (cands, missing, None) =>
                prune_missing missing;;
                if decide (length cands = 0%nat) then mret ([], None)
                else list_dead limit cands
            end
      end
  end.

Definition BeginReclaim (s : option WorkStore) (jobID : string) (lockTTL : Z)
    : io (bool * error) :=
  match s with
  | None => mret (false, None)
  | Some _ =>
      if String.eqb jobID "" then mret (false, None)
      else
        let lockTTL := if lockTTL <=? 0 then 30 * second else lockTTL in
        r ← do (command (SET_NX_EX (reclaimingKey jobID) "1" (seconds lockTTL)));
        match r with Bad e => mret (false, Some e) | Ok b => mret (b, None) end
  end.

Definition MarkProduced (s : option WorkStore) (jobID fence : string) (ttl : Z) : io error :=
  match s with
  | None => mret None
  | Some _ =>
      if String.eqb jobID "" then mret None
      else
        let ttl := if ttl <=? 0 then producedMarkerTTL else ttl in
        r ← do (command (SET_EX (producedKey jobID) fence (seconds ttl)));
        match r with Bad e => mret (Some e) | Ok _ => mret None end
  end.

Definition ProducedFence (s : option WorkStore) (jobID : string) : io (string * error) :=
  match s with
  | None => mret ("", None)
  | Some _ =>
      if String.eqb jobID "" then mret ("", None)
      else
        r ← do (command (GET (producedKey jobID)));
        match r with
        | Bad e => mret ("", Some e)
        | Ok None => mret ("", None)
        | Ok (Some v) => mret (v, None)
        end
  end.

Definition FinishReclaim (s : option WorkStore) (e : Entry) : io (Z * error) :=
  match s with
  | None => mret (1, None)
  | Some _ =>
      r ← do (call (finishReclaimScript (jobKey (JobID e)) (byConsumerKey (ConsumerID e)) indexKey
                (reclaimingKey (JobID e)) (producedKey (JobID e)) (JobID e) (Fence e)));
      match r with Bad err => mret (0, Some err) | Ok n => mret (n, None) end
  end.

Definition AbortReclaim (s : option WorkStore) (jobID : string) : io error :=
  match s with
  | None => mret None
  | Some _ =>
      if String.eqb jobID "" then mret None
      else
        r ← do (command (DEL (reclaimingKey jobID)));
        match r with Bad e => mret (Some e) | Ok _ => mret None end
  end.

(** [heartbeat] is the JSON of pkg/liveness. *)
Definition TouchConsumer (s : option WorkStore) (heartbeat consumerID : string) (ttl : Z)
    : io error :=
  match s with
  | None => mret None
  | Some _ =>
      if String.eqb consumerID "" then mret None
      else
        let ttl := if ttl <=? 0 then defaultHeartbeatTTL else ttl in
        r ← do (command (SET_EX (liveKey consumerID) heartbeat (seconds ttl)));
        match r with Bad e => mret (Some e) | Ok _ => mret None end
  end.

Definition DeleteConsumer (s : option WorkStore) (consumerID : string) : io error :=
  match s with
  | None => mret None
  | Some _ =>
      if String.eqb consumerID "" then mret None
      else
        r ← do (command (DEL (liveKey consumerID)));
        match r with Bad e => mret (Some e) | Ok _ => mret None end
  end.

(** ** Reclaiming *)

Record ReclaimResult := mkReclaim { Checked : Z; Reclaimed : Z; Failed : Z; Skipped : Z }.

Definition finishReclaimChecked (s : WorkStore) (e : Entry) : kio error :=
  x ← redis_io (FinishReclaim (Some s) e);
  match x with
  | (_, Some err) => mret (Some err)
  | (n, None) =>
      if negb (n =? 1) then
        mret (Some ("workset: finish reclaim noop job_id=" +:+ JobID e
                    +:+ " (fence mismatch or gone)")%string)
      else mret None
  end.

(** [fuel] attempts of at most five. *)
Fixpoint mark_produced_n (s : WorkStore) (jobID fence : string) (fuel : nat) (last : error)
    : kio error :=
  match fuel with
  | O => mret last
  | S fuel =>
      err ← redis_io (MarkProduced (Some s) jobID fence producedMarkerTTL);
      match err with
      | None => mret None
      | Some e => mark_produced_n s jobID fence fuel (Some e)
      end
  end.

Definition markProducedRetry (s : WorkStore) (jobID fence : string) : kio error :=
  mark_produced_n s jobID fence 5 None.

(** A document that is not an object is an error; the JSON null, which would
    decode to a nil map, has no job_id and is never claimed. *)
Definition markReclaimPayload (raw : string) : result string :=
  match json_object raw with
  | Bad e => Bad e
  | Ok m => json_encode (<["_reclaim" := jtrue]> m)
  end.

Definition abort (s : WorkStore) (jobID : string) : kio unit :=
  _ ← redis_io (AbortReclaim (Some s) jobID); mret tt.

Definition deadLetterUnreclaimable (s : WorkStore) (e : Entry) (reason cause : string)
    : kio error :=
  if String.eqb (dltTopic s) "" then abort s (JobID e);; mret (Some cause)
  else
    let raw_payload :=
      match decodeEntryPayload e with Ok d => d | Bad _ => Payload e end in
    let dlt : gmap string jval :=
      {["job_id" := jstring (JobID e); "dlt_type" := jstring "workset_unreclaimable";
        "dlt_reason" := jstring reason; "dlt_error_message" := jstring cause;
        "topic" := jstring (Topic e); "dlt_raw_payload" := jstring raw_payload]} in
    match json_encode dlt with
    | Bad _ => abort s (JobID e);; mret (Some cause)
    | Ok raw =>
        perr ← Produce (dltTopic s) (JobID e) raw;
        match perr with
        | Some _ => abort s (JobID e);; mret (Some cause)
        | None => _ ← finishReclaimChecked s e; mret None
        end
    end.

Definition errMissingTopic : string := "workset: reclaim missing topic".

(** Lines 85-122: produce the payload again, mark it produced, finish. *)
Definition reproduce (s : WorkStore) (e : Entry) : kio error :=
  match decodeEntryPayload e with
  | Bad err => deadLetterUnreclaimable s e "decode" err
  | Ok rawPayload =>
      match markReclaimPayload rawPayload with
      | Bad err => deadLetterUnreclaimable s e "encode" err
      | Ok body =>
          if String.eqb (Topic e) "" then
            deadLetterUnreclaimable s e "missing_topic" errMissingTopic
          else
            perr ← Produce (Topic e) (JobID e) body;
            match perr with
            | Some err => abort s (JobID e);; mret (Some err)
            | None =>
                merr ← markProducedRetry s (JobID e) (Fence e);
                match merr with
                | Some err =>
                    ferr ← finishReclaimChecked s e;
                    match ferr with None => mret None | Some _ => mret (Some err) end
                | None => finishReclaimChecked s e
                end
            end
      end
  end.

Definition reclaimOne (s : WorkStore) (e : Entry) : kio error :=
  x ← redis_io (ProducedFence (Some s) (JobID e));
  match x with
  | (_, Some err) => abort s (JobID e);; mret (Some err)
  | (already, None) =>
      if negb (String.eqb already "") && negb (String.eqb already (Fence e)) then
        _ ← redis_io (do (command (DEL (producedKey (JobID e)))));
        reproduce s e
      else if negb (String.eqb already "") then finishReclaimChecked s e
      else reproduce s e
  end.

Definition count_reclaimed (r : ReclaimResult) : ReclaimResult :=
  mkReclaim (Checked r) (Reclaimed r + 1) (Failed r) (Skipped r).
Definition count_failed (r : ReclaimResult) : ReclaimResult :=
  mkReclaim (Checked r) (Reclaimed r) (Failed r + 1) (Skipped r).
Definition count_skipped (r : ReclaimResult) : ReclaimResult :=
  mkReclaim (Checked r) (Reclaimed r) (Failed r) (Skipped r + 1).

Fixpoint reclaim_all (s : WorkStore) (lockTTL : Z) (orphans : list Entry) (out : ReclaimResult)
    : kio ReclaimResult :=
  match orphans with
  | [] => mret out
  | e :: orphans =>
      x ← redis_io (BeginReclaim (Some s) (JobID e) lockTTL);
      match x with
      | (_, Some _) => reclaim_all s lockTTL orphans (count_failed out)
      | (false, None) => reclaim_all s lockTTL orphans (count_skipped out)
      | (true, None) =>
          err ← reclaimOne s e;
          match err with
          | Some _ => reclaim_all s lockTTL orphans (count_failed out)
          | None => reclaim_all s lockTTL orphans (count_reclaimed out)
          end
      end
  end.

Definition ReclaimOrphans (s : option WorkStore) (nowUnix : Z) (limit lockTTL grace : Z)
    : kio (ReclaimResult * error) :=
  match s with
  | None => mret (mkReclaim 0 0 0 0, None)
  | Some st =>
      x ← redis_io (ListOrphans s nowUnix limit grace);
      match x with
      | (_, Some e) => mret (mkReclaim 0 0 0 0, Some e)
      | (orphans, None) =>
          out ← reclaim_all st lockTTL orphans (mkReclaim (Z.of_nat (length orphans)) 0 0 0);
          mret (out, None)
      end
  end.

End workset.
