(* ===== verification/WorksetProps.v ===== *)
(** Properties of the working set: ownership, fencing and reclaim. *)
From S2P Require Import Prelude Redis Client Kafka Store StoreProps Workset.

(** ** Keys *)

Lemma job_reclaiming j k : jobKey j ≠ reclaimingKey k.
Proof. discriminate. Qed.
Lemma job_produced j k : jobKey j ≠ producedKey k.
Proof. discriminate. Qed.
Lemma job_live j k : jobKey j ≠ liveKey k.
Proof. discriminate. Qed.
Lemma job_by j k : jobKey j ≠ byConsumerKey k.
Proof. discriminate. Qed.

Section props.
Context `{EntryCodec}.

(** The entry of a job as the scripts and the Go code read it. *)
Definition stored (db : redis) (jobID raw : string) : Prop :=
  get_string db (jobKey jobID) = Some (Some raw).

(** ** Claims respect the owner *)

Lemma claim_refused (db : redis) K2 (jobID consumerID payload raw owner : string) obj
  (ttl now grace hb : Z) :
  stored db jobID raw → cjson_decode raw = Some obj → lo_consumer obj = Some owner →
  owner ≠ "" → owner ≠ consumerID →
  has_key db (liveKey owner) = true ∨
  (0 < grace ∧ 0 < claimed_or (lo_claimed obj) 0 0 ∧ now - claimed_or (lo_claimed obj) 0 0 < grace) →
  run (claimScript (jobKey jobID) K2 indexKey liveConsumerPrefix jobID consumerID payload
         ttl now grace hb) db = (db, Some 0).
Proof.
  intros Hs Hd Ho Hne Hc Hcase.
  unfold run, claimScript, mbind, script_bind, GET, lift. rewrite Hs. cbn. rewrite Hd.
  unfold claim_obj. rewrite Ho.
  apply String.eqb_neq in Hne as ->. apply String.eqb_neq in Hc as ->. cbn.
  unfold EXISTS, mbind, script_bind. fold (liveKey owner).
  destruct (has_key db (liveKey owner)); cbn; [done |].
  destruct Hcase as [[=] | (H1 & H2 & H3)].
  rewrite (proj2 (Z.ltb_lt _ _) H1), (proj2 (Z.ltb_lt _ _) H2), (proj2 (Z.ltb_lt _ _) H3). done.
Qed.


(** ** What the codec says of a stored entry *)

Context `{!CodecLaws}.

Lemma marshal_entry e raw :
  marshalEntryJSON e = Ok raw →
  ∃ e', json_marshal e' = Ok raw ∧ JobID e' = JobID e ∧ ConsumerID e' = ConsumerID e ∧
    Fence e' = Fence e ∧ ClaimedAtUnix e' = ClaimedAtUnix e ∧ Topic e' = Topic e ∧
    (Encoding e ≠ encodingGzip → decodeEntryPayload e' = Ok (Payload e)).
Proof.
  unfold marshalEntryJSON. intros E.
  assert (Encoding e ≠ encodingGzip → decodeEntryPayload e = Ok (Payload e)) as Hplain.
  { intros Hne. unfold decodeEntryPayload. by apply String.eqb_neq in Hne as ->. }
  destruct (_ && _); [destruct (gzip (Payload e)) as [z|] eqn:Eg |];
    [| exists e; split_and!; auto ..].
  exists (set_payload e z encodingGzip). split_and!; auto. intros _.
  unfold decodeEntryPayload. cbn. by apply gunzip_gzip.
Qed.

Lemma stored_obj e raw :
  marshalEntryJSON e = Ok raw →
  cjson_decode raw = Some (LuaObj (Some (ConsumerID e)) (Some (Fence e))
                             (Some (Some (ClaimedAtUnix e)))).
Proof.
  intros (e' & E & _ & <- & <- & <- & _)%marshal_entry. by apply cjson_marshal.
Qed.

Lemma stored_entry e raw :
  marshalEntryJSON e = Ok raw →
  ∃ e', json_unmarshal raw = Ok e' ∧ ConsumerID e' = ConsumerID e ∧ Fence e' = Fence e.
Proof.
  intros (e' & E & _ & H1 & H2 & _)%marshal_entry. exists e'. split; [| done].
  by apply unmarshal_marshal.
Qed.

Lemma marshal_entry_total e : ∃ raw, marshalEntryJSON e = Ok raw.
Proof.
  unfold marshalEntryJSON. destruct (_ && _); [destruct (gzip _) |]; apply marshal_total.
Qed.

(** C9: a job is never taken from a consumer that is alive, nor from one whose
    claim is younger than the steal grace: Claim by another consumer then reports
    that it lost and changes nothing. *)
Theorem Claim_respects_owner (s : WorkStore) (now : stamp) (p : ClaimParams) (w : world)
  (e : Entry) (raw : string)
  (Hq : quiet w) (Hid : cl_JobID p ≠ "")
  (Hs : stored (w_db w) (cl_JobID p) raw) (He : marshalEntryJSON e = Ok raw)
  (Howner : ConsumerID e ≠ "") (Hother : ConsumerID e ≠ cl_ConsumerID p)
  (Hcase : has_key (w_db w) (liveKey (ConsumerID e)) = true ∨
           (0 < ClaimedAtUnix e ∧
            st_unix now - ClaimedAtUnix e < seconds (resolveGrace (cl_StealGrace p)) ∧
            0 < seconds (resolveGrace (cl_StealGrace p)))) :
  ∃ net, Claim (Some s) now p w = (World (w_db w) net, (lost, None)).
Proof.
  unfold Claim. apply String.eqb_neq in Hid as Hid'. rewrite Hid'.
  destruct (marshal_entry_total (entry_of now p)) as [mine ->].
  unfold mbind, io_bind.
  destruct (do_quiet (call (claim_call now p mine)) w Hq) as (net & -> & _).
  assert (call (claim_call now p mine) (w_db w) = (w_db w, Ok 0)) as ->; [| by exists net].
  unfold call, claim_call, lease_of.
  rewrite (claim_refused (w_db w) _ _ _ _ raw (ConsumerID e)
    (LuaObj (Some (ConsumerID e)) (Some (Fence e)) (Some (Some (ClaimedAtUnix e))))); try done.
  - by apply stored_obj.
  - destruct Hcase as [Hl | (H1 & H2 & H3)]; [by left | right]. cbn. lia.
Qed.

(** ** Fencing *)

Lemma getEntry_quiet w jobID raw e :
  quiet w → stored (w_db w) jobID raw → json_unmarshal raw = Ok e →
  ∃ net, getEntry jobID w = (World (w_db w) net, (Some e, None)).
Proof.
  intros Hq Hs Hu. unfold getEntry, mbind, io_bind.
  destruct (do_quiet (command (GET (jobKey jobID))) w Hq) as (net & -> & _).
  assert (command (GET (jobKey jobID)) (w_db w) = (w_db w, Ok (Some raw))) as ->.
  { unfold command, GET, lift. by rewrite Hs. }
  exists net. cbn. by rewrite Hu.
Qed.

Definition is_owner (e : Entry) (c f : string) : bool :=
  bool_decide (ConsumerID e = c) && bool_decide (Fence e = f).

Lemma owned_by_owner e c f :
  owned_by (LuaObj (Some (ConsumerID e)) (Some (Fence e)) (Some (Some (ClaimedAtUnix e)))) c f
  = is_owner e c f.
Proof.
  unfold owned_by, is_owner. cbn. f_equal; apply bool_decide_ext; split; congruence.
Qed.

Lemma renew_run db jobID raw e c f t :
  stored db jobID raw → marshalEntryJSON e = Ok raw →
  call (renewScript (jobKey jobID) c f t) db
  = if is_owner e c f then (expire (jobKey jobID) t db, Ok 1) else (db, Ok 0).
Proof.
  intros Hs He. unfold call, run, renewScript, mbind, script_bind, GET, lift. rewrite Hs. cbn.
  rewrite (stored_obj e raw He). cbn. rewrite owned_by_owner. by destruct (is_owner e c f).
Qed.

Lemma complete_run db jobID raw e c f x z :
  stored db jobID raw → marshalEntryJSON e = Ok raw →
  get_set db (byConsumerKey c) = Some x → get_zset db indexKey = Some z →
  call (completeScript (jobKey jobID) (byConsumerKey c) indexKey jobID c f) db
  = if is_owner e c f
    then (put_zset indexKey (delete jobID z)
            (put_set (byConsumerKey c) (x ∖ {[jobID]}) (del_key (jobKey jobID) db)), Ok 1)
    else (db, Ok 0).
Proof.
  intros Hs He Hx Hz. unfold call, run, completeScript, mbind, script_bind, GET, lift. rewrite Hs.
  cbn. rewrite (stored_obj e raw He). cbn. rewrite owned_by_owner.
  destruct (is_owner e c f); cbn; [| done].
  unfold SREM, ZREM, lift. rewrite (same_get_set _ _ db) by (apply kdb_del_ne; discriminate).
  rewrite Hx. cbn. unfold mbind, script_bind.
  rewrite (same_get_zset _ _ (del_key (jobKey jobID) db))
    by (apply kdb_put_set_ne; discriminate).
  rewrite (same_get_zset _ _ db) by (apply kdb_del_ne; discriminate). by rewrite Hz.
Qed.

(** C10: ownership is fenced: whoever asks, StillOwned and Renew answer yes only
    to the consumer and fence of the stored entry; a completion with another
    consumer or an older fence changes nothing, and the owner's completion
    removes the job and its index entry. *)
Theorem ownership_is_fenced (s : WorkStore) (w : world) (jobID raw : string) (e : Entry)
  (c f : string) (ttl : Z) (x : gset string) (z : gmap string Q)
  (Hq : quiet w) (Hid : jobID ≠ "") (Hs : stored (w_db w) jobID raw)
  (He : marshalEntryJSON e = Ok raw)
  (Hx : get_set (w_db w) (byConsumerKey c) = Some x)
  (Hz : get_zset (w_db w) indexKey = Some z) :
  (StillOwned (Some s) jobID c f w).2 = (is_owner e c f, None) ∧
  (Renew (Some s) jobID c f ttl w).2 = (is_owner e c f, None) ∧
  (is_owner e c f = false →
     w_db (Complete (Some s) jobID c f w).1 = w_db w ∧
     w_db (Renew (Some s) jobID c f ttl w).1 = w_db w) ∧
  (is_owner e c f = true →
     let db := w_db (Complete (Some s) jobID c f w).1 in
     has_key db (jobKey jobID) = false ∧ get_zset db indexKey = Some (delete jobID z) ∧
     get_set db (byConsumerKey c) = Some (x ∖ {[jobID]})).
Proof.
  pose proof Hid as Hid'. apply String.eqb_neq in Hid'.
  unfold StillOwned, Renew, Complete, mbind, io_bind. rewrite Hid'.
  destruct (stored_entry e raw He) as (e' & Hu & Ec & Ef).
  destruct (getEntry_quiet w jobID raw e' Hq Hs Hu) as (n1 & ->). cbn [fst snd].
  set (t := seconds (if ttl <=? 0 then defaultLeaseTTL else ttl)).
  destruct (do_quiet (call (renewScript (jobKey jobID) c f t)) w Hq) as (n2 & -> & _).
  rewrite (renew_run _ _ raw e) by done.
  destruct (do_quiet (call (completeScript (jobKey jobID) (byConsumerKey c) indexKey jobID c f))
    w Hq) as (n3 & -> & _). rewrite (complete_run _ _ raw e c f x z) by done.
  split_and!.
  - f_equal. rewrite Ec, Ef. unfold is_owner.
    destruct (String.eqb_spec (ConsumerID e) c), (String.eqb_spec (Fence e) f);
      rewrite ?bool_decide_eq_true_2, ?bool_decide_eq_false_2 by done; done.
  - by destruct (is_owner e c f).
  - intros ->. done.
  - intros ->. unfold mret, io_ret. cbn [fst snd w_db]. split_and!.
    + unfold has_key. rewrite kdb_put_zset_ne, kdb_put_set_ne by discriminate. cbn.
      by rewrite lookup_delete_eq.
    + apply get_zset_put_zset.
    + rewrite (same_get_set _ _ (put_set (byConsumerKey c) (x ∖ {[jobID]})
        (del_key (jobKey jobID) (w_db w)))) by (apply kdb_put_zset_ne; discriminate).
      apply get_set_put_set.
Qed.

(** ** A free job *)

Lemma kttl_put_zset k z db : z ≠ ∅ → kttl (put_zset k z db) = kttl db.
Proof.
  intros Hz. unfold put_zset. rewrite decide_False; [done |].
  intros E. apply dom_empty_inv_L in E. done.
Qed.

Lemma kttl_put_set k x db : x ≠ ∅ → kttl (put_set k x db) = kttl db.
Proof. intros Hx. unfold put_set. by rewrite decide_False. Qed.

Lemma get_string_put k v db : get_string (put k (RString v) db) k = Some (Some v).
Proof. unfold get_string. cbn. by rewrite lookup_insert_eq. Qed.

(** Seeding the heartbeat leaves the other keys and leaves the key alive. *)
Lemma seed_live_spec K4 c t db :
  ∃ db', seed_live K4 c t db = (db', Next tt) ∧ has_key db' (K4 +:+ c)%string = true ∧
    (∀ k, k ≠ (K4 +:+ c)%string → kdb db' !! k = kdb db !! k ∧ kttl db' !! k = kttl db !! k).
Proof.
  unfold seed_live, EXISTS, mbind, script_bind. destruct (has_key db _) eqn:Ek; cbn [negb].
  - eexists. split; [done |]. unfold expire. rewrite Ek. split; [done |].
    intros k Hk. cbn. split; [done |]. by rewrite lookup_insert_ne.
  - eexists. split; [done |]. unfold has_key. cbn. split; [by rewrite lookup_insert_eq |].
    intros k Hk. by rewrite !lookup_insert_ne, !lookup_delete_ne by done.
Qed.

Lemma claim_free_run db jobID c raw ttl now grace hb x z :
  get_string db (jobKey jobID) = Some None →
  get_set db (byConsumerKey c) = Some x → get_zset db indexKey = Some z →
  ∃ db', run (claimScript (jobKey jobID) (byConsumerKey c) indexKey liveConsumerPrefix jobID c raw
                ttl now grace hb) db = (db', Some 1)
    ∧ stored db' jobID raw ∧ kttl db' !! jobKey jobID = Some ttl
    ∧ get_zset db' indexKey = Some (<[jobID := inject_Z now]> z)
    ∧ get_set db' (byConsumerKey c) = Some ({[jobID]} ∪ x)
    ∧ has_key db' (liveKey c) = true.
Proof.
  intros Hg Hx Hz. unfold run, claimScript, mbind, script_bind, GET, lift. rewrite Hg. cbn.
  set (d1 := set_ttl (jobKey jobID) ttl _).
  assert (∀ k, k ≠ jobKey jobID → kdb d1 !! k = kdb db !! k) as H1.
  { intros k Hk. unfold d1. cbn. by rewrite lookup_insert_ne, lookup_delete_ne. }
  unfold SADD, lift. rewrite (same_get_set _ d1 db) by (apply H1; discriminate). rewrite Hx. cbn.
  unfold mbind, script_bind. set (d2 := put_set _ _ d1).
  unfold ZADD, lift. rewrite (same_get_zset _ d2 d1) by (apply kdb_put_set_ne; discriminate).
  rewrite (same_get_zset _ d1 db) by (apply H1; discriminate). rewrite Hz. cbn.
  unfold mbind, script_bind. set (d3 := put_zset _ _ d2).
  destruct (seed_live_spec liveConsumerPrefix c (if hb <? 1 then ttl else hb) d3)
    as (d4 & -> & Hl & Hk).
  exists d4. split; [done |].
  assert (kdb d3 !! jobKey jobID = kdb d1 !! jobKey jobID) as E3.
  { unfold d3, d2. by rewrite kdb_put_zset_ne, kdb_put_set_ne by discriminate. }
  destruct (Hk (jobKey jobID) ltac:(discriminate)) as [Kj Tj].
  destruct (Hk indexKey ltac:(discriminate)) as [Ki _].
  destruct (Hk (byConsumerKey c) ltac:(discriminate)) as [Kb _].
  split_and!.
  - unfold stored, get_string. rewrite Kj, E3.
    unfold d1. cbn. by rewrite lookup_insert_eq.
  - rewrite Tj. unfold d3, d2.
    rewrite kttl_put_zset by apply insert_non_empty. rewrite kttl_put_set by set_solver.
    unfold d1. cbn. by rewrite lookup_insert_eq.
  - unfold get_zset. rewrite Ki. apply get_zset_put_zset.
  - unfold get_set. rewrite Kb. unfold d3.
    rewrite kdb_put_zset_ne by discriminate. apply get_set_put_set.
  - exact Hl.
Qed.

(** Claiming a free job takes it: Claim reports a win with the new fence,
    the stored entry is the caller's, the job is in the index at the claim time
    and in the caller's set, the caller's heartbeat key exists, and the payload's
    lease outlives heartbeat, steal grace and the reclaim margin together. *)
Theorem Claim_takes_free_job (s : WorkStore) (now : stamp) (p : ClaimParams) (w : world)
  (x : gset string) (z : gmap string Q)
  (Hq : quiet w) (Hid : cl_JobID p ≠ "")
  (Hfree : get_string (w_db w) (jobKey (cl_JobID p)) = Some None)
  (Hx : get_set (w_db w) (byConsumerKey (cl_ConsumerID p)) = Some x)
  (Hz : get_zset (w_db w) indexKey = Some z) :
  let '(w', (r, err)) := Claim (Some s) now p w in
  let e := entry_of now p in
  let '(ttl, hbTTL, grace) := lease_of p in
  err = None ∧ r = won e ∧ Fence e = st_uuid now ∧
  (∃ raw, stored (w_db w') (cl_JobID p) raw ∧ marshalEntryJSON e = Ok raw) ∧
  kttl (w_db w') !! jobKey (cl_JobID p) = Some (seconds ttl) ∧
  hbTTL + grace + reclaimSafetyBuffer <= ttl ∧
  get_zset (w_db w') indexKey = Some (<[cl_JobID p := inject_Z (st_unix now)]> z) ∧
  get_set (w_db w') (byConsumerKey (cl_ConsumerID p)) = Some ({[cl_JobID p]} ∪ x) ∧
  has_key (w_db w') (liveKey (cl_ConsumerID p)) = true.
Proof.
  unfold Claim. pose proof Hid as Hid'. apply String.eqb_neq in Hid' as ->.
  destruct (marshal_entry_total (entry_of now p)) as [raw Er]. rewrite Er.
  unfold mbind, io_bind.
  destruct (do_quiet (call (claim_call now p raw)) w Hq) as (net & -> & _).
  unfold call, claim_call. destruct (lease_of p) as [[ttl hbTTL] grace] eqn:El.
  destruct (claim_free_run (w_db w) (cl_JobID p) (cl_ConsumerID p) raw (seconds ttl) (st_unix now)
    (seconds grace) (seconds hbTTL) x z Hfree Hx Hz) as (db & -> & H1 & H2 & H3 & H4 & H5).
  cbn. split_and!; try done.
  - by exists raw.
  - unfold lease_of in El. injection El as <- <- <-. unfold floorLeaseTTL.
    destruct (Z.ltb_spec (if cl_LeaseTTL p <=? 0 then defaultLeaseTTL else cl_LeaseTTL p)
      ((if cl_HeartbeatTTL p <=? 0 then defaultHeartbeatTTL else cl_HeartbeatTTL p) +
       resolveGrace (cl_StealGrace p) + reclaimSafetyBuffer)); lia.
Qed.

(** ** Reclaim, whatever Redis and Kafka do *)

(** The job's key after a step, and what the step appended to the log. *)
Definition keeps_job (j : string) (s s' : system) : Prop :=
  kdb (w_db (sys s')) !! jobKey j = kdb (w_db (sys s)) !! jobKey j.

Definition appended (s s' : system) (ms : list message) : Prop := k_log s' = k_log s ++ ms.

Lemma redis_io_log {A} (m : io A) s : k_log (redis_io m s).1 = k_log s.
Proof. unfold redis_io. by destruct (m (sys s)). Qed.

Lemma redis_io_keeps {A} (m : io A) s j :
  kdb (w_db (m (sys s)).1) !! jobKey j = kdb (w_db (sys s)) !! jobKey j →
  keeps_job j s (redis_io m s).1.
Proof. unfold keeps_job, redis_io. by destruct (m (sys s)). Qed.

Lemma Produce_cases t k p s :
  let '(s', err) := Produce t k p s in
  sys s' = sys s ∧ (err = None → k_log s' = k_log s ++ [Msg t k p]) ∧
  (k_log s' = k_log s ++ [Msg t k p] ∨ k_log s' = k_log s).
Proof. unfold Produce. destruct (k_net s) as [|[] net]; cbn; split_and!; auto; discriminate. Qed.

Lemma abort_spec s j x :
  let s' := (abort s j x).1 in k_log s' = k_log x ∧ ∀ i, keeps_job i x s'.
Proof.
  unfold abort, mbind, kio_bind. cbv zeta.
  pose proof (redis_io_log (AbortReclaim (Some s) j) x) as H1.
  assert (∀ i, keeps_job i x (redis_io (AbortReclaim (Some s) j) x).1) as H2.
  { intros i. apply redis_io_keeps. unfold AbortReclaim, mbind, io_bind.
    destruct (String.eqb j ""); [done |].
    pose proof (do_frame (command (DEL (reclaimingKey j))) (sys x) (jobKey i)
      (kdb_del_ne _ _ _ (not_eq_sym (job_reclaiming i j)))) as Hf.
    destruct (do _ (sys x)) as [w []]; exact Hf. }
  destruct (redis_io (AbortReclaim (Some s) j) x) as [x' r]. done.
Qed.

Lemma mark_spec s j f n last x :
  let s' := (mark_produced_n s j f n last x).1 in k_log s' = k_log x ∧ ∀ i, keeps_job i x s'.
Proof.
  cbv zeta. revert last x. induction n as [|n IH]; intros last x; [done |].
  cbn [mark_produced_n]. unfold mbind, kio_bind.
  pose proof (redis_io_log (MarkProduced (Some s) j f producedMarkerTTL) x) as H1.
  assert (∀ i, keeps_job i x (redis_io (MarkProduced (Some s) j f producedMarkerTTL) x).1) as H2.
  { intros i. apply redis_io_keeps. unfold MarkProduced, mbind, io_bind.
    destruct (String.eqb j ""); [done |]. cbv zeta.
    match goal with |- context [do ?c _] => pose proof (do_frame c (sys x) (jobKey i)) as Hf end.
    destruct (do _ (sys x)) as [w []]; apply Hf; cbn;
      by rewrite lookup_insert_ne, lookup_delete_ne. }
  destruct (redis_io (MarkProduced _ _ _ _) x) as [x' [e|]]; [| done].
  destruct (IH (Some e) x') as [I1 I2]. cbn [fst] in H1. split; [congruence |].
  intros i. unfold keeps_job in *. cbn in *. by rewrite I2, H2.
Qed.

Lemma finish_log s e x : k_log (finishReclaimChecked s e x).1 = k_log x.
Proof.
  unfold finishReclaimChecked, mbind, kio_bind.
  pose proof (redis_io_log (FinishReclaim (Some s) e) x) as H1.
  destruct (redis_io (FinishReclaim (Some s) e) x) as [x' [n [err|]]]; [done |].
  by destruct (negb (n =? 1)).
Qed.

(** A reclaim appends at most one message, for its own job. *)
Definition one_message (e : Entry) (x x' : system) : Prop :=
  k_log x' = k_log x ∨ ∃ t p, k_log x' = k_log x ++ [Msg t (JobID e) p].

(** The job is still stored as it was, or a message for it is in the log. *)
Definition not_lost (e : Entry) (x x' : system) : Prop :=
  keeps_job (JobID e) x x' ∨ ∃ t p, k_log x' = k_log x ++ [Msg t (JobID e) p].

Lemma one_message_refused e x y y' t p :
  k_log y' = k_log y →
  k_log y = k_log x ++ [Msg t (JobID e) p] ∨ k_log y = k_log x → one_message e x y'.
Proof. intros E [H1 | H1]; [right; exists t, p | left]; congruence. Qed.

Lemma deadLetter_spec s e reason cause x :
  let x' := (deadLetterUnreclaimable s e reason cause x).1 in
  one_message e x x' ∧ not_lost e x x'.
Proof.
  cbv zeta. unfold deadLetterUnreclaimable. unfold mbind, kio_bind.
  assert (∀ y r, k_log y = k_log x → keeps_job (JobID e) x y →
    let x' := (let '(s', _) := abort s (JobID e) y in (s', r : error)).1 in
    one_message e x x' ∧ not_lost e x x') as Habort.
  { intros y r Hl Hk. cbv zeta. destruct (abort_spec s (JobID e) y) as [A1 A2].
    destruct (abort s (JobID e) y) as [y' u]. cbn [fst] in *. split.
    - left. congruence.
    - left. unfold keeps_job in *. by rewrite A2, Hk. }
  destruct (String.eqb (dltTopic s) ""); [by apply (Habort x) |].
  destruct (json_encode _) as [raw|]; [| by apply (Habort x)].
  pose proof (Produce_cases (dltTopic s) (JobID e) raw x) as Hp.
  destruct (Produce _ _ _ x) as [y [err|]].
  - destruct Hp as (P1 & _ & P3). destruct (abort_spec s (JobID e) y) as [A1 A2].
    destruct (abort s (JobID e) y) as [y' u]. cbn [fst] in *. split.
    + by apply (one_message_refused _ _ _ _ _ _ A1 P3).
    + left. unfold keeps_job in *. rewrite A2. by rewrite P1.
  - destruct Hp as (P1 & P2 & _). specialize (P2 eq_refl).
    pose proof (finish_log s e y) as F. destruct (finishReclaimChecked s e y) as [y' r].
    cbn [fst] in F.
    assert (k_log y' = k_log x ++ [Msg (dltTopic s) (JobID e) raw]) as El by congruence.
    split; right; eexists _, _; exact El.
Qed.

Lemma reproduce_spec s e x :
  let x' := (reproduce s e x).1 in one_message e x x' ∧ not_lost e x x'.
Proof.
  cbv zeta. unfold reproduce.
  destruct (decodeEntryPayload e) as [rawPayload|err]; [| apply deadLetter_spec].
  destruct (markReclaimPayload rawPayload) as [body|err]; [| apply deadLetter_spec].
  destruct (String.eqb (Topic e) ""); [apply deadLetter_spec |].
  unfold mbind, kio_bind. pose proof (Produce_cases (Topic e) (JobID e) body x) as Hp.
  destruct (Produce _ _ _ x) as [y [err|]].
  - destruct Hp as (P1 & _ & P3). destruct (abort_spec s (JobID e) y) as [A1 A2].
    destruct (abort s (JobID e) y) as [y' u]. cbn [fst] in *. split.
    + by apply (one_message_refused _ _ _ _ _ _ A1 P3).
    + left. unfold keeps_job in *. rewrite A2. by rewrite P1.
  - destruct Hp as (P1 & P2 & _). specialize (P2 eq_refl). unfold markProducedRetry.
    destruct (mark_spec s (JobID e) (Fence e) 5 None y) as [M1 _].
    destruct (mark_produced_n s (JobID e) (Fence e) 5 None y) as [y1 [err|]]; cbn [fst] in *;
      pose proof (finish_log s e y1) as F; destruct (finishReclaimChecked s e y1) as [y2 r];
      cbn [fst] in F; (assert (k_log y2 = k_log x ++ [Msg (Topic e) (JobID e) body]) as El
        by congruence).
    + destruct r; split; right; eexists _, _; exact El.
    + split; right; eexists _, _; exact El.
Qed.

Lemma ProducedFence_spec s j x :
  let x' := (redis_io (ProducedFence (Some s) j) x).1 in
  k_log x' = k_log x ∧ ∀ i, keeps_job i x x'.
Proof.
  cbv zeta. split; [apply redis_io_log |]. intros i. apply redis_io_keeps.
  unfold ProducedFence, mbind, io_bind. destruct (String.eqb j ""); [done |].
  assert ((command (GET (producedKey j)) (w_db (sys x))).1 = w_db (sys x)) as Er.
  { unfold command, GET, lift. by destruct (get_string _ _). }
  pose proof (do_frame (command (GET (producedKey j))) (sys x) (jobKey i)) as Hf.
  destruct (do _ (sys x)) as [w [[v|]|]]; apply Hf; by rewrite Er.
Qed.

(** A marker reported was stored, and a stored marker is reported or an error. *)
Lemma ProducedFence_marker s j x :
  j ≠ "" →
  let r := (redis_io (ProducedFence (Some s) j) x).2 in
  (r.2 = None → r.1 ≠ "" → get_string (w_db (sys x)) (producedKey j) = Some (Some r.1)) ∧
  (∀ v, r.2 = None → get_string (w_db (sys x)) (producedKey j) = Some (Some v) → r.1 = v).
Proof.
  intros Hj. cbv zeta. unfold redis_io, ProducedFence. apply String.eqb_neq in Hj as ->.
  unfold mbind, io_bind.
  destruct (do (command (GET (producedKey j))) (sys x)) as [w [o|e]] eqn:Ed; [| done].
  apply do_ok in Ed as [_ Ed]. unfold command, GET, lift in Ed.
  destruct (get_string _ _) as [o'|] eqn:Eg; [| done]. cbn in Ed. injection Ed as ->.
  destruct o as [v|]; cbn; split; try done; naive_solver.
Qed.

(** C11: reclaiming loses no job. Whatever Redis and Kafka do (lost requests,
    lost replies, refused or unacknowledged produces), after a reclaim attempt
    the job's entry is still stored as it was, or a message for the job was
    appended to the log, or a message for this very claim was appended by an
    earlier attempt, which left its marker; and no attempt appends more than one
    message. *)
Theorem reclaimOne_never_loses (s : WorkStore) (e : Entry) (x : system) (Hid : JobID e ≠ "") :
  let x' := (reclaimOne s e x).1 in
  one_message e x x' ∧
  (not_lost e x x' ∨
   get_string (w_db (sys x)) (producedKey (JobID e)) = Some (Some (Fence e))).
Proof.
  cbv zeta. unfold reclaimOne, mbind, kio_bind.
  destruct (ProducedFence_spec s (JobID e) x) as [P1 P2].
  pose proof (ProducedFence_marker s (JobID e) x Hid) as Pm.
  destruct (redis_io (ProducedFence (Some s) (JobID e)) x) as [y [already [err|]]]; cbn [fst snd] in *.
  - destruct (abort_spec s (JobID e) y) as [A1 A2]. destruct (abort s (JobID e) y) as [y' u].
    cbn in *. split; [left; congruence |]. left. left. unfold keeps_job in *. by rewrite A2, P2.
  - destruct (String.eqb_spec already "") as [-> | Hne]; cbn [negb andb].
    + destruct (reproduce_spec s e y) as [R1 R2]. split.
      * unfold one_message in *. by rewrite P1 in R1.
      * left. unfold not_lost, keeps_job in *. rewrite P1 in R2. by rewrite <- P2.
    + destruct (String.eqb_spec already (Fence e)) as [-> | Hf]; cbn [negb andb].
      * pose proof (finish_log s e y) as F. destruct (finishReclaimChecked s e y) as [y' r].
        cbn in *. split; [left; congruence |]. right. by apply (proj1 Pm).
      * pose proof (redis_io_log (do (command (DEL (producedKey (JobID e))))) y) as D1.
        assert (keeps_job (JobID e) y (redis_io (do (command (DEL (producedKey (JobID e))))) y).1) as D2.
        { apply redis_io_keeps, do_frame. apply kdb_del_ne, not_eq_sym, job_produced. }
        destruct (redis_io (do (command (DEL (producedKey (JobID e))))) y) as [y1 r].
        cbn [fst] in *. destruct (reproduce_spec s e y1) as [R1 R2]. split.
        -- unfold one_message in *. rewrite D1, P1 in R1. exact R1.
        -- left. unfold not_lost, keeps_job in *. rewrite D1, P1, D2, P2 in R2. exact R2.
Qed.

(** Reclaiming does not produce a job twice. Once an attempt left the
    marker of this claim's fence, no later attempt for the same entry produces
    anything, whatever Redis and Kafka do; in particular when finishing the
    first attempt failed. *)
Theorem reclaimOne_produces_once (s : WorkStore) (e : Entry) (x : system)
  (Hid : JobID e ≠ "") (Hf : Fence e ≠ "")
  (Hm : get_string (w_db (sys x)) (producedKey (JobID e)) = Some (Some (Fence e))) :
  k_log (reclaimOne s e x).1 = k_log x.
Proof.
  unfold reclaimOne, mbind, kio_bind.
  destruct (ProducedFence_spec s (JobID e) x) as [P1 _].
  pose proof (ProducedFence_marker s (JobID e) x Hid) as Pm.
  destruct (redis_io (ProducedFence (Some s) (JobID e)) x) as [y [already [err|]]]; cbn [fst snd] in *.
  - destruct (abort_spec s (JobID e) y) as [A1 _]. destruct (abort s (JobID e) y) as [y' u].
    cbn in *. congruence.
  - assert (already = Fence e) as -> by (by apply (proj2 Pm)).
    apply String.eqb_neq in Hf as Hf'. rewrite Hf', String.eqb_refl. cbn [negb andb].
    by rewrite finish_log.
Qed.

(** ** Orphans *)

(** The entry of a job that ListOrphans can use. *)
Definition decoded (db : redis) (id : string) : option Entry :=
  match get_string db (jobKey id) with
  | Some (Some raw) =>
      if String.eqb raw "" then None
      else match json_unmarshal raw with Ok e => Some e | Bad _ => None end
  | _ => None
  end.

Definition job_value (db : redis) (id : string) : option string :=
  default None (get_string db (jobKey id)).

Lemma decode_candidates_spec db ids cands missing :
  Forall (λ id, is_Some (get_string db (jobKey id))) ids →
  decode_candidates ids (Ok <$> (job_value db <$> ids)) cands missing
  = (cands ++ omap (decoded db) ids, missing ++ filter (λ id, decoded db id = None) ids, None).
Proof.
  intros Hids. revert cands missing. induction Hids as [|id ids [o Ho] Hids IH]; intros cands missing.
  { cbn. by rewrite !app_nil_r. }
  rewrite !fmap_cons. cbn [decode_candidates omap list_omap]. rewrite filter_cons.
  unfold job_value at 1. rewrite Ho. cbn [default from_option Datatypes.id].
  assert (decoded db id = match o with
    | Some raw => if String.eqb raw "" then None
                  else match json_unmarshal raw with Ok e => Some e | Bad _ => None end
    | None => None end) as Ed by (unfold decoded; by rewrite Ho; destruct o).
  destruct o as [raw|]; [destruct (String.eqb raw ""); [| destruct (json_unmarshal raw) as [e|]] |];
    rewrite IH, <- app_assoc, Ed; try (rewrite decide_True by done); try done.
Qed.

Lemma get_job_ok db id :
  is_Some (get_string db (jobKey id)) →
  command (GET (jobKey id)) db = (db, Ok (job_value db id)).
Proof. intros [o Ho]. unfold command, GET, lift, job_value. by rewrite Ho. Qed.

Lemma distinct_consumers_spec cands seen c :
  c ∈ distinct_consumers cands seen ↔ c ∈ seen ∨ ∃ e, e ∈ cands ∧ ConsumerID e = c.
Proof.
  revert seen. induction cands as [|e cands IH]; intros seen; cbn [distinct_consumers].
  { set_solver. }
  destruct (bool_decide_reflect (ConsumerID e ∈ seen)); rewrite IH; set_solver.
Qed.

Lemma alive_map_spec db ids m :
  let r := alive_map ids (Ok <$> ((λ c, has_key db (liveKey c)) <$> ids)) m in
  r.2 = None ∧ ∀ c, r.1 !! c = if decide (c ∈ ids) then Some (has_key db (liveKey c)) else m !! c.
Proof.
  cbv zeta. revert m. induction ids as [|id ids IH]; intros m; [by split; [| intros c; case_decide; [set_solver |]] |].
  rewrite !fmap_cons. cbn [alive_map]. destruct (IH (<[id := has_key db (liveKey id)]> m)) as [I1 I2].
  split; [done |]. intros c. rewrite I2. destruct (decide (c = id)) as [-> | Hne].
  - rewrite lookup_insert_eq. repeat case_decide; set_solver.
  - rewrite lookup_insert_ne by done. repeat case_decide; set_solver.
Qed.

Lemma live_ok db c : command (EXISTS (liveKey c)) db = (db, Ok (has_key db (liveKey c))).
Proof. done. Qed.

(** Lines 539-575 on a reachable Redis: the candidates whose consumer is dead. *)
Lemma dead_filter db cands c e :
  let unique := distinct_consumers cands [] in
  let m := (alive_map unique (Ok <$> ((λ c, has_key db (liveKey c)) <$> unique)) ∅).1 in
  e ∈ cands → ConsumerID e = c → dead m e = negb (has_key db (liveKey c)).
Proof.
  cbv zeta. intros He <-. unfold dead.
  destruct (alive_map_spec db (distinct_consumers cands []) ∅) as [_ Hm]. rewrite Hm.
  rewrite decide_True; [done |]. apply distinct_consumers_spec. right. by exists e.
Qed.

(** Lines 539-575, from the decoded candidates on. *)
Lemma list_dead_quiet (limit : Z) (cands : list Entry) w :
  quiet w → 0 <= limit →
  ∃ net out, list_dead limit cands w = (World (w_db w) net, (out, None)) ∧
    Z.of_nat (length out) <= limit ∧
    ∀ e, e ∈ out → e ∈ cands ∧ has_key (w_db w) (liveKey (ConsumerID e)) = false.
Proof.
  intros Hq Hl. unfold list_dead, mbind, io_bind. set (unique := distinct_consumers cands []).
  destruct (pipeline_quiet ((λ c, command (EXISTS (liveKey c))) <$> unique) w Hq) as (net & -> & _).
  rewrite (run_cmds_read _ (λ c, has_key (w_db w) (liveKey c))) by (intros; apply live_ok).
  cbn [fst snd]. rewrite first_error_ok.
  pose proof (dead_filter (w_db w) cands) as Hd. cbv zeta in Hd. fold unique in Hd.
  destruct (alive_map_spec (w_db w) unique ∅) as [Ha _].
  destruct (alive_map unique _ ∅) as [m err]. cbn [fst snd] in *. subst err.
  exists net. eexists. split; [done |]. split; [rewrite length_take; lia |].
  intros e He%take_elem_of. apply list_elem_of_filter in He as [Hdead He]. split; [done |].
  rewrite (Hd _ e He eq_refl) in Hdead. by apply negb_true_iff.
Qed.

Lemma prune_missing_quiet missing w z :
  quiet w → get_zset (w_db w) indexKey = Some z →
  ∃ db net, prune_missing missing w = (World db net, tt) ∧ Forall (λ f, f = Fine) net ∧
    (∀ c, has_key db (liveKey c) = has_key (w_db w) (liveKey c)) ∧
    get_zset db indexKey = Some (filter (λ p, p.1 ∉ missing) z).
Proof.
  intros Hq Hz. unfold prune_missing. case_decide as Hm.
  - exists (w_db w), (w_net w). split; [by destruct w |]. split_and!; [done | done |].
    rewrite Hz. f_equal. symmetry. apply map_filter_id. apply nil_length_inv in Hm. rewrite Hm.
    intros i x _. apply not_elem_of_nil.
  - unfold mbind, io_bind.
    destruct (pipeline_quiet (zrems indexKey missing) w Hq) as (n3 & -> & Hn3).
    destruct (zrems_spec indexKey missing (w_db w) z Hz) as [Z1 Z2].
    eexists _, n3. split; [done |]. split_and!; [done | | done].
    intros c. unfold has_key. by rewrite Z2 by discriminate.
Qed.

(** ListOrphans reports only true orphans and forgets no job: every entry it
    returns is an indexed job claimed longer ago than the grace whose consumer has
    no heartbeat, it returns at most [limit] of them, and the ids it drops from the
    index are ids whose payload is gone or cannot be decoded. *)
Theorem ListOrphans_sound (s : WorkStore) (now limit grace : Z) (w : world) (z : gmap string Q)
  (Hq : quiet w) (Hz : get_zset (w_db w) indexKey = Some z)
  (Ht : ∀ id, is_Some (z !! id) → is_Some (get_string (w_db w) (jobKey id))) :
  let '(w', (out, err)) := ListOrphans (Some s) now limit grace w in
  err = None ∧
  Z.of_nat (length out) <= (if limit <? 1 then 100 else limit) ∧
  (∀ e, e ∈ out →
     has_key (w_db w) (liveKey (ConsumerID e)) = false ∧
     ∃ id q, z !! id = Some q ∧ decoded (w_db w) id = Some e ∧
       Qle_bool q (inject_Z (now - seconds (resolveGrace grace))) = true) ∧
  ∃ pruned : list string, get_zset (w_db w') indexKey = Some (filter (λ p, p.1 ∉ pruned) z) ∧
    ∀ id, id ∈ pruned → decoded (w_db w) id = None.
Proof.
  unfold ListOrphans. set (lim := if limit <? 1 then 100 else limit).
  set (r := ZRange None (Some (false, inject_Z (now - seconds (resolveGrace grace))))).
  assert (0 <= lim) as Hlim by (unfold lim; destruct (Z.ltb_spec limit 1); lia).
  assert (∃ pruned : list string, get_zset (w_db w) indexKey = Some (filter (λ p, p.1 ∉ pruned) z) ∧
    ∀ id, id ∈ pruned → decoded (w_db w) id = None) as Hnone.
  { exists []. split; [| by intros id ?%not_elem_of_nil]. rewrite Hz. f_equal. symmetry.
    apply map_filter_id. intros i x _. apply not_elem_of_nil. }
  unfold mbind, io_bind.
  set (rng := ZRANGEBYSCORE_LIMIT indexKey r (Z.to_nat (lim * 3))).
  destruct (do_quiet (command rng) w Hq) as (n1 & -> & Hn1).
  assert (command rng (w_db w) = (w_db w, Ok (take (Z.to_nat (lim * 3)) (zrange_members r z).*1))) as ->.
  { unfold command, rng, ZRANGEBYSCORE_LIMIT, lift. by rewrite Hz. }
  cbn [fst snd]. set (ids := take _ _).
  assert (∀ id, id ∈ ids → ∃ q, z !! id = Some q ∧ in_zrange r q = true) as Hids.
  { intros id Hid. apply elem_of_zrange. by eapply take_elem_of. }
  case_decide as Hl; [cbn; split_and!; [done | lia | by intros e ?%not_elem_of_nil | done] |].
  destruct (pipeline_quiet ((λ id, command (GET (jobKey id))) <$> ids) (World (w_db w) n1) Hn1)
    as (n2 & -> & Hn2). cbn [w_db].
  assert (Forall (λ id, is_Some (get_string (w_db w) (jobKey id))) ids) as Htyped.
  { apply Forall_forall. intros id (q & Hq' & _)%Hids. apply Ht. by exists q. }
  rewrite (run_cmds_read _ (job_value (w_db w))).
  2: { intros id Hid. apply get_job_ok. rewrite Forall_forall in Htyped. by apply Htyped. }
  cbn [fst snd]. rewrite decode_candidates_spec by done. cbn [app].
  set (cands := omap _ ids). set (missing := filter _ ids).
  destruct (prune_missing_quiet missing (World (w_db w) n2) z Hn2 Hz)
    as (db2 & n3 & -> & Hn3 & Hlive & Hpr). cbn [w_db] in Hlive.
  assert (∃ pruned : list string, get_zset db2 indexKey = Some (filter (λ p, p.1 ∉ pruned) z) ∧
    ∀ id, id ∈ pruned → decoded (w_db w) id = None) as Hpruned.
  { exists missing. split; [done |]. by intros id [Hd _]%list_elem_of_filter. }
  case_decide as Hc; [cbn; split_and!; [done | lia | by intros e ?%not_elem_of_nil | done] |].
  destruct (list_dead_quiet lim cands (World db2 n3) Hn3 Hlim) as (n4 & out & -> & Hlen & Hout).
  cbn [w_db] in *. split_and!; [done | done | | done].
  intros e [He Hdead]%Hout. rewrite Hlive in Hdead. split; [done |].
  apply list_elem_of_omap in He as (id & Hid & Hdec).
  destruct (Hids id Hid) as (q & Hq' & Hr). exists id, q. split_and!; [done | done |].
  unfold in_zrange, r in Hr. exact Hr.
Qed.
End props.

(** ** A concrete codec

    Any injective encoding satisfies the laws; this one numbers the values. *)

Definition number {A} `{Countable A} (x : A) : string := itoa (Zpos (encode x)).

Definition unnumber {A} `{Countable A} (s : string) : option A :=
  match atoi s with Some (Zpos p) => decode p | _ => None end.

Lemma unnumber_number {A} `{Countable A} (x : A) : unnumber (number x) = Some x.
Proof. unfold unnumber, number. rewrite atoi_itoa. apply decode_encode. Qed.

#[export] Instance entry_eq_dec : EqDecision Entry.
Proof. solve_decision. Defined.

Definition entry_tuple (e : Entry) :=
  (JobID e, Payload e, Encoding e, Topic e, Partition e, Offset e, ConsumerID e, Fence e,
   ClaimedAt e, ClaimedAtUnix e, Runtime e).

Definition tuple_entry t :=
  let '(a, b, c, d, e, f, g, h, i, j, k) := t in mkEntry a b c d e f g h i j k.

#[export] Instance entry_countable : Countable Entry.
Proof. refine (inj_countable' entry_tuple tuple_entry _). by intros []. Defined.

Definition of_option {A} (o : option A) : result A :=
  match o with Some a => Ok a | None => Bad "decode error" end.

#[export] Instance number_codec : EntryCodec := {|
  json_marshal e := Ok (number e);
  json_unmarshal s := of_option (unnumber s);
  cjson_decode s :=
    (λ e : Entry, LuaObj (Some (ConsumerID e)) (Some (Fence e)) (Some (Some (ClaimedAtUnix e))))
      <$> unnumber s;
  gzip p := Ok p;
  gunzip z := Ok z;
  jval := string;
  jtrue := "true";
  jstring s := s;
  json_object s := of_option (unnumber s);
  json_encode m := Ok (number m)
|}.

#[export] Instance number_laws : CodecLaws.
Proof.
  split.
  - intros e. by eexists.
  - intros e s [= <-]. change (of_option (unnumber (number e)) = Ok e).
    by rewrite unnumber_number.
  - intros e s [= <-]. unfold cjson_decode, number_codec. by rewrite unnumber_number.
  - by intros p z [= <-].
Qed.

Definition demo_claim : ClaimParams := mkClaim "job-1" "payload" "jobs" 0 7 "pod-a" 0 0 0.
Definition demo_stamp : stamp := Stamp "2024-01-01T00:00:00.5Z" 1704067200 "fence-1".
Definition demo_entry : Entry := entry_of demo_stamp demo_claim.

(** A working set in which pod-a holds job-1 and is alive. *)
Definition demo_work : world :=
  World (put (liveKey "pod-a") (RString "1")
           (put (jobKey "job-1") (RString (number demo_entry)) empty_redis)) [].

Lemma demo_stored : stored (w_db demo_work) "job-1" (number demo_entry).
Proof. reflexivity. Qed.

Lemma Claim_respects_owner_witness :
  ∃ net, Claim (Some (mkWorkStore "")) demo_stamp
           (mkClaim "job-1" "p" "jobs" 0 7 "pod-b" 0 0 0) demo_work
         = (World (w_db demo_work) net, (lost, None)).
Proof.
  apply (Claim_respects_owner (mkWorkStore "") demo_stamp
    (mkClaim "job-1" "p" "jobs" 0 7 "pod-b" 0 0 0) demo_work demo_entry (number demo_entry));
    [constructor | done | exact demo_stored | reflexivity | done | done | left; reflexivity].
Defined.

Lemma ownership_is_fenced_witness :
  (StillOwned (Some (mkWorkStore "")) "job-1" "pod-a" "stale" demo_work).2
  = (is_owner demo_entry "pod-a" "stale", None) ∧
  (Renew (Some (mkWorkStore "")) "job-1" "pod-a" "stale" 0 demo_work).2
  = (is_owner demo_entry "pod-a" "stale", None) ∧
  (is_owner demo_entry "pod-a" "stale" = false →
     w_db (Complete (Some (mkWorkStore "")) "job-1" "pod-a" "stale" demo_work).1 = w_db demo_work ∧
     w_db (Renew (Some (mkWorkStore "")) "job-1" "pod-a" "stale" 0 demo_work).1 = w_db demo_work) ∧
  (is_owner demo_entry "pod-a" "stale" = true →
     let db := w_db (Complete (Some (mkWorkStore "")) "job-1" "pod-a" "stale" demo_work).1 in
     has_key db (jobKey "job-1") = false ∧ get_zset db indexKey = Some (delete "job-1" ∅) ∧
     get_set db (byConsumerKey "pod-a") = Some (∅ ∖ {["job-1"]})).
Proof.
  apply (ownership_is_fenced (mkWorkStore "") demo_work "job-1" (number demo_entry) demo_entry
    "pod-a" "stale" 0 ∅ ∅);
    [constructor | done | exact demo_stored | reflexivity | reflexivity | reflexivity].
Defined.

Lemma Claim_takes_free_job_witness :
  let '(w', (r, err)) := Claim (Some (mkWorkStore "")) demo_stamp demo_claim (World empty_redis []) in
  let e := entry_of demo_stamp demo_claim in
  let '(ttl, hbTTL, grace) := lease_of demo_claim in
  err = None ∧ r = won e ∧ Fence e = st_uuid demo_stamp ∧
  (∃ raw, stored (w_db w') "job-1" raw ∧ marshalEntryJSON e = Ok raw) ∧
  kttl (w_db w') !! jobKey "job-1" = Some (seconds ttl) ∧
  hbTTL + grace + reclaimSafetyBuffer <= ttl ∧
  get_zset (w_db w') indexKey = Some (<["job-1" := inject_Z (st_unix demo_stamp)]> ∅) ∧
  get_set (w_db w') (byConsumerKey "pod-a") = Some ({["job-1"]} ∪ ∅) ∧
  has_key (w_db w') (liveKey "pod-a") = true.
Proof.
  apply (Claim_takes_free_job (mkWorkStore "") demo_stamp demo_claim (World empty_redis []) ∅ ∅);
    [constructor | done | reflexivity | reflexivity | reflexivity].
Defined.

(** Redis loses the finish of the first attempt, Kafka is healthy. *)
Definition demo_system : system :=
  System (World (w_db demo_work) [Fine; Fine; Lost 0 0]) [] [].

Lemma reclaimOne_never_loses_witness :
  let x' := (reclaimOne (mkWorkStore "dlt") demo_entry demo_system).1 in
  one_message demo_entry demo_system x' ∧
  (not_lost demo_entry demo_system x' ∨
   get_string (w_db (sys demo_system)) (producedKey "job-1") = Some (Some "fence-1")).
Proof.
  apply (reclaimOne_never_loses (mkWorkStore "dlt") demo_entry demo_system). done.
Defined.

Lemma reclaimOne_produces_once_witness :
  let x := System (World (put (producedKey "job-1") (RString "fence-1") (w_db demo_work)) [])
             [Msg "jobs" "job-1" "body"] [Refused] in
  k_log (reclaimOne (mkWorkStore "dlt") demo_entry x).1 = [Msg "jobs" "job-1" "body"].
Proof.
  apply (reclaimOne_produces_once (mkWorkStore "dlt") demo_entry
    (System (World (put (producedKey "job-1") (RString "fence-1") (w_db demo_work)) [])
       [Msg "jobs" "job-1" "body"] [Refused])); [done | done | reflexivity].
Defined.

(** job-1 was claimed long ago and its consumer's heartbeat is gone. *)
Definition orphaned : world :=
  World (put_zset indexKey {["job-1" := 1704067200#1]}
           (put (jobKey "job-1") (RString (number demo_entry)) empty_redis)) [].

Lemma ListOrphans_sound_witness :
  let '(w', (out, err)) := ListOrphans (Some (mkWorkStore "")) 1704067300 10 0 orphaned in
  err = None ∧ Z.of_nat (length out) <= 10 ∧
  (∀ e, e ∈ out →
     has_key (w_db orphaned) (liveKey (ConsumerID e)) = false ∧
     ∃ id q, ({["job-1" := 1704067200#1]} : gmap string Q) !! id = Some q ∧
       decoded (w_db orphaned) id = Some e ∧
       Qle_bool q (inject_Z (1704067300 - seconds (resolveGrace 0))) = true) ∧
  ∃ pruned : list string,
    get_zset (w_db w') indexKey
    = Some (filter (λ p, p.1 ∉ pruned) ({["job-1" := 1704067200#1]} : gmap string Q)) ∧
    ∀ id, id ∈ pruned → decoded (w_db orphaned) id = None.
Proof.
  apply (ListOrphans_sound (mkWorkStore "") 1704067300 10 0 orphaned {["job-1" := 1704067200#1]}).
  - constructor.
  - reflexivity.
  - intros id [q Hq]. destruct (decide (id = "job-1")) as [-> | Hne]; [by eexists |].
    rewrite lookup_singleton_ne in Hq by done. discriminate Hq.
Defined.
