(* ===== verification/Watermark.v ===== *)
(** The watermark executor: pkg/daemon/watermark.go.

    Jobs of a partition run concurrently and finish in any order; only the
    contiguous prefix of finished offsets is marked for commit.  The executor is
    shared by the poll loop (dispatch and flush), by one goroutine per dispatched
    record (perform) and by shutdown; [step] is one atomic action of one of them
    (a critical section of the mutex with the channel operation beside it), so a
    run is any interleaving.  [completed], [dispatched] and [marked] are the
    history of the run: what finished, what was registered and what was handed to
    MarkCommitRecords, oldest first. *)
From S2P Require Import Prelude.

Definition partitionKey : Type := string * Z.

Record krec := mkRec { r_key : partitionKey; r_offset : Z }.

#[export] Instance krec_eq_dec : EqDecision krec.
Proof. solve_decision. Defined.

#[export] Instance krec_countable : Countable krec.
Proof.
  refine (inj_countable' (λ r, (r_key r, r_offset r)) (λ p, mkRec p.1 p.2) _). by intros [].
Defined.

Record partitionCommit := mkPC {
  expected : Z; inited : bool; done : gmap Z krec; pending : gset Z
}.

Definition new_pc : partitionCommit := mkPC 0 false ∅ ∅.

Notation parts := (gmap partitionKey partitionCommit).

Definition pc_of (ps : parts) (k : partitionKey) : partitionCommit := default new_pc (ps !! k).

(** [None]: the offset is already in flight. *)
Definition register (ps : parts) (rec : krec) : option parts :=
  let pc := pc_of ps (r_key rec) in
  if bool_decide (r_offset rec ∈ pending pc) then None
  else
    let pc1 :=
      if negb (inited pc) || (r_offset rec <? expected pc)
      then mkPC (r_offset rec) true (filter (λ p, r_offset rec <= p.1) (done pc)) (pending pc)
      else pc in
    Some (<[r_key rec := mkPC (expected pc1) (inited pc1) (done pc1)
                           ({[r_offset rec]} ∪ pending pc1)]> ps).

(** The partitions, and whether the completion is tracked (it then keeps its
    Window slot until the commit). *)
Definition noteDone (ps : parts) (rec : krec) : parts * bool :=
  match ps !! r_key rec with
  | None => (ps, false)
  | Some pc =>
      if negb (inited pc) || (expected pc <=? r_offset rec) then
        (<[r_key rec := mkPC (expected pc) (inited pc) (<[r_offset rec := rec]> (done pc))
                          (pending pc)]> ps, true)
      else
        (<[r_key rec := mkPC (expected pc) (inited pc) (done pc)
                          (pending pc ∖ {[r_offset rec]})]> ps, false)
  end.

Definition fail (ps : parts) (rec : krec) : parts :=
  match ps !! r_key rec with
  | None => ps
  | Some pc =>
      <[r_key rec := mkPC (expected pc) (inited pc) (done pc) (pending pc ∖ {[r_offset rec]})]> ps
  end.

(** The inner loop of FlushMarks: at most one round per completed offset. *)
Fixpoint flush_loop (fuel : nat) (pc : partitionCommit) (acc : list krec)
    : partitionCommit * list krec :=
  match fuel with
  | O => (pc, acc)
  | S fuel =>
      match done pc !! expected pc with
      | None => (pc, acc)
      | Some rec =>
          flush_loop fuel
            (mkPC (expected pc + 1) (inited pc) (delete (expected pc) (done pc))
               (pending pc ∖ {[expected pc]}))
            (acc ++ [rec])
      end
  end.

Definition flush_pc (pc : partitionCommit) : partitionCommit * list krec :=
  if negb (inited pc) then (pc, []) else flush_loop (size (done pc)) pc [].

(** Every partition, in some order; the records to mark. *)
Definition FlushMarks (ps : parts) : parts * list krec :=
  ((λ pc, (flush_pc pc).1) <$> ps, (map_to_list ps).*2 ≫= (λ pc, (flush_pc pc).2)).

(** ** The executor *)

Record executor := mkExec {
  window_cap : nat; sem_cap : nat;
  window : nat;                  (* Window slots taken *)
  inFlight : Z;
  accepting : bool;
  ps : parts;
  todo : option (list krec);     (* the records DispatchAndCommit still has *)
  waiting : list krec;           (* goroutines that wait for Sem *)
  performing : list krec;        (* goroutines in Process: they hold Sem *)
  applying : list krec;          (* goroutines in Apply: Sem is released *)
  dispatched : list krec;
  completed : list krec;
  marked : list krec
}.

(** NewWatermarkExecutor, from the worker count and the claim window. *)
Definition NewWatermarkExecutor (workers claimWindow : nat) : executor :=
  mkExec (if (claimWindow <? workers)%nat then workers else claimWindow) workers
    0 0 true ∅ None [] [] [] [] [] [].

Definition set_todo (t : option (list krec)) (e : executor) : executor :=
  mkExec (window_cap e) (sem_cap e) (window e) (inFlight e) (accepting e) (ps e) t
    (waiting e) (performing e) (applying e) (dispatched e) (completed e) (marked e).

(** MarkCommitRecords, and one Window slot released per marked record. *)
Definition flush (e : executor) : executor :=
  let '(ps', toMark) := FlushMarks (ps e) in
  mkExec (window_cap e) (sem_cap e) (window e - length toMark) (inFlight e) (accepting e) ps'
    (todo e) (waiting e) (performing e) (applying e) (dispatched e) (completed e)
    (marked e ++ toMark).

(** A free Window slot was taken for [rec]: lines 187-195. *)
Definition dispatch (rec : krec) (rest : list krec) (e : executor) : executor :=
  match register (ps e) rec with
  | None => set_todo (Some rest) e
  | Some ps' =>
      mkExec (window_cap e) (sem_cap e) (S (window e)) (inFlight e + 1) (accepting e) ps'
        (Some rest) (waiting e ++ [rec]) (performing e) (applying e) (dispatched e ++ [rec])
        (completed e) (marked e)
  end.

Definition drop (r : krec) (l : list krec) : list krec := filter (λ x, x ≠ r) l.

(** noteDone's lines 271-277 and fail's lines 295-297: the end of a perform. *)
Definition finish (r : krec) (ok : bool) (e : executor) : executor :=
  let '(ps', tracked) := if ok then noteDone (ps e) r else (fail (ps e) r, false) in
  mkExec (window_cap e) (sem_cap e) (if tracked then window e else window e - 1)%nat
    (inFlight e - 1) (accepting e) ps' (todo e) (drop r (waiting e)) (drop r (performing e))
    (drop r (applying e)) (dispatched e) (if ok then completed e ++ [r] else completed e) (marked e).

(** processWithSem takes a Sem slot and calls Process ... *)
Definition acquire_sem (r : krec) (e : executor) : executor :=
  mkExec (window_cap e) (sem_cap e) (window e) (inFlight e) (accepting e) (ps e) (todo e)
    (drop r (waiting e)) (performing e ++ [r]) (applying e) (dispatched e) (completed e)
    (marked e).

(** ... and gives the slot back when Process has returned, before Apply. *)
Definition release_sem (r : krec) (e : executor) : executor :=
  mkExec (window_cap e) (sem_cap e) (window e) (inFlight e) (accepting e) (ps e) (todo e)
    (waiting e) (drop r (performing e)) (applying e ++ [r]) (dispatched e) (completed e)
    (marked e).

Definition StopAccepting (e : executor) : executor :=
  mkExec (window_cap e) (sem_cap e) (window e) (inFlight e) false (ps e) (todo e)
    (waiting e) (performing e) (applying e) (dispatched e) (completed e) (marked e).

Inductive step : executor -> executor -> Prop :=
(* the poll loop *)
| s_poll e recs : todo e = None -> accepting e = true -> step e (set_todo (Some recs) e)
| s_idle e : todo e = None -> step e (flush e)
| s_stopped e r rs :
    todo e = Some (r :: rs) -> accepting e = false -> step e (flush (set_todo None e))
| s_cancel e r rs : todo e = Some (r :: rs) -> step e (flush (set_todo None e))
| s_timeout e r rs : todo e = Some (r :: rs) -> step e (flush e)
| s_dispatch e r rs :
    todo e = Some (r :: rs) -> (window e < window_cap e)%nat -> step e (dispatch r rs e)
| s_end e : todo e = Some [] -> step e (flush (set_todo None e))
(* the performers *)
| s_sem e r :
    r ∈ waiting e -> (length (performing e) < sem_cap e)%nat -> step e (acquire_sem r e)
| s_ctx_done e r : r ∈ waiting e -> step e (finish r false e)
| s_process_error e r : r ∈ performing e -> step e (finish r false e)
| s_processed e r : r ∈ performing e -> step e (release_sem r e)
| s_finish e r ok : r ∈ applying e -> step e (finish r ok e)
(* shutdown *)
| s_stop e : step e (StopAccepting e).

Inductive reachable (workers claimWindow : nat) : executor -> Prop :=
| reach_init : reachable workers claimWindow (NewWatermarkExecutor workers claimWindow)
| reach_step e e' :
    reachable workers claimWindow e -> step e e' -> reachable workers claimWindow e'.

(** ** Per-partition facts *)

(** Every pending offset is at or above the watermark, every completed one is
    pending and carries its own record. *)
Record pc_ok (k : partitionKey) (pc : partitionCommit) : Prop := {
  ok_inited : inited pc = true;
  ok_pending : ∀ o, o ∈ pending pc → expected pc <= o;
  ok_done : ∀ o r, done pc !! o = Some r → o ∈ pending pc ∧ r = mkRec k o
}.

Definition new_marks (k : partitionKey) (from : Z) (n : nat) : list krec :=
  (λ i, mkRec k (from + Z.of_nat i)) <$> seq 0 n.

(** The loop stops exactly at the first offset that is not completed: the fuel
    is enough, and the records are the contiguous prefix. *)
Lemma flush_loop_spec k fuel pc acc :
  pc_ok k pc → (size (done pc) <= fuel)%nat →
  ∃ n, let r := flush_loop fuel pc acc in
    r.2 = acc ++ new_marks k (expected pc) n ∧
    expected r.1 = expected pc + Z.of_nat n ∧ done r.1 !! expected r.1 = None ∧
    pc_ok k r.1 ∧
    (∀ i, (i < n)%nat → is_Some (done pc !! (expected pc + Z.of_nat i))) ∧
    (∀ o, o ∈ pending r.1 ↔ o ∈ pending pc ∧ expected r.1 <= o) ∧
    (∀ o, done r.1 !! o = if decide (o < expected r.1) then None else done pc !! o).
Proof.
  revert pc acc. induction fuel as [|fuel IH]; intros pc acc Hok Hsz.
  - exists 0%nat. assert (done pc = ∅) as Ed by (apply map_size_empty_inv; lia).
    cbn. rewrite Ed, !lookup_empty, app_nil_r.
    split_and!; try done; [lia | lia | |].
    + intros o. split; [intros Ho; split; [done | by apply (ok_pending _ _ Hok)] | by intros []].
    + intros o. rewrite lookup_empty. by case_decide.
  - cbn [flush_loop]. destruct (done pc !! expected pc) as [rec|] eqn:Er.
    + destruct (ok_done _ _ Hok _ _ Er) as [Hp ->].
      set (pc1 := mkPC _ _ _ _).
      assert (pc_ok k pc1) as Hok1.
      { split; cbn.
        - apply Hok.
        - intros o [Ho Hne]%elem_of_difference. apply (ok_pending _ _ Hok) in Ho. set_solver by lia.
        - intros o r [Hne Ho]%lookup_delete_Some. apply (ok_done _ _ Hok) in Ho as [Ho ->].
          split; [set_solver | done]. }
      destruct (IH pc1 (acc ++ [mkRec k (expected pc)]) Hok1) as (n & H1 & H2 & H3 & H4 & H5 & H6 & H7).
      { cbn. rewrite map_size_delete_Some by done. lia. }
      exists (S n). cbv zeta in *. split_and!; [| | exact H3 | exact H4 | | |].
      * rewrite H1, <- app_assoc. f_equal. cbn. unfold new_marks. cbn. rewrite Z.add_0_r. f_equal.
        rewrite <- fmap_S_seq, <- list_fmap_compose. apply list_fmap_ext. intros j i _. cbn.
        f_equal. lia.
      * rewrite H2. cbn. lia.
      * intros [|i] Hi; [rewrite Z.add_0_r; by eexists |]. specialize (H5 i ltac:(lia)).
        cbn in H5. rewrite lookup_delete_is_Some in H5. destruct H5 as [_ H5].
        by replace (expected pc + Z.of_nat (S i)) with (expected pc + 1 + Z.of_nat i) by lia.
      * intros o. rewrite H6. cbn. rewrite H2. cbn. rewrite elem_of_difference, elem_of_singleton.
        split; [naive_solver | intros [Ho Hle]; split; [split; [done | lia] | lia]].
      * intros o. rewrite H7. case_decide; [done |]. cbn. rewrite H2 in *. cbn in *.
        by rewrite lookup_delete_ne by lia.
    + exists 0%nat. cbn. rewrite app_nil_r. split_and!; try done; [lia | lia | |].
      * intros o. split; [intros Ho; split; [done | by apply (ok_pending _ _ Hok)] | by intros []].
      * intros o. case_decide as Ho; [| done]. destruct (done pc !! o) as [r|] eqn:Eo; [| done].
        apply (ok_done _ _ Hok) in Eo as [Hp _]. apply (ok_pending _ _ Hok) in Hp. lia.
Qed.

Lemma pc_ok_advance k pc rec :
  pc_ok k pc → done pc !! expected pc = Some rec →
  pc_ok k (mkPC (expected pc + 1) (inited pc) (delete (expected pc) (done pc))
             (pending pc ∖ {[expected pc]})).
Proof.
  intros Hok Er. split; cbn.
  - apply Hok.
  - intros o [Ho Hne]%elem_of_difference. apply (ok_pending _ _ Hok) in Ho. set_solver by lia.
  - intros o r [Hne Ho]%lookup_delete_Some. apply (ok_done _ _ Hok) in Ho as [Ho ->].
    split; [set_solver | done].
Qed.

Lemma flush_loop_size k fuel pc acc :
  pc_ok k pc →
  let r := flush_loop fuel pc acc in
  (size (pending r.1) + length r.2 = size (pending pc) + length acc)%nat.
Proof.
  cbv zeta. revert pc acc. induction fuel as [|fuel IH]; intros pc acc Hok; [done |].
  cbn [flush_loop]. destruct (done pc !! expected pc) as [rec|] eqn:Er; [| done].
  rewrite IH by (by eapply pc_ok_advance). cbn [pending]. rewrite length_app. cbn.
  destruct (ok_done _ _ Hok _ _ Er) as [Hp _].
  rewrite size_difference by set_solver. rewrite size_singleton.
  assert (0 < size (pending pc))%nat; [| lia].
  apply Nat.neq_0_lt_0. intros E%size_empty_inv. set_solver.
Qed.

(** The sum of a measure over the partitions. *)
Definition total (f : partitionCommit -> nat) (ps : parts) : nat :=
  foldr (λ pc n, (f pc + n)%nat) 0%nat (map_to_list ps).*2.

Lemma total_perm f (l k : list (partitionKey * partitionCommit)) :
  l ≡ₚ k →
  foldr (λ pc n, (f pc + n)%nat) 0%nat l.*2 = foldr (λ pc n, (f pc + n)%nat) 0%nat k.*2.
Proof. induction 1; cbn; try lia. Qed.

Lemma total_delete f ps k pc : ps !! k = Some pc → total f ps = (f pc + total f (delete k ps))%nat.
Proof.
  intros Hk. unfold total. by rewrite <- (total_perm f _ _ (map_to_list_delete ps k pc Hk)).
Qed.

Lemma total_insert f ps k pc :
  total f (<[k := pc]> ps) = (f pc + total f (delete k ps))%nat.
Proof.
  rewrite (total_delete f (<[k := pc]> ps) k pc) by apply lookup_insert_eq.
  f_equal. f_equal. apply delete_insert_eq.
Qed.

Lemma total_of f ps k :
  f new_pc = 0%nat → total f ps = (f (pc_of ps k) + total f (delete k ps))%nat.
Proof.
  intros H0. unfold pc_of. destruct (ps !! k) as [pc|] eqn:Ek;
    cbn [default from_option].
  - by apply total_delete.
  - rewrite H0. by rewrite (delete_id ps k Ek).
Qed.
