(* ===== verification/WatermarkProps.v ===== *)
(** Properties of the watermark executor, over every interleaving. *)
From S2P Require Import Prelude Watermark.

Definition running (e : executor) : list krec := waiting e ++ performing e ++ applying e.

Definition slots (ps : parts) : nat := total (λ pc, size (pending pc)) ps.

Definition pc_at (e : executor) (r : krec) : partitionCommit := pc_of (ps e) (r_key r).

(** A record is in flight: pending and not completed. *)
Definition in_flight (ps : parts) (r : krec) : Prop :=
  r_offset r ∈ pending (pc_of ps (r_key r)) ∧ done (pc_of ps (r_key r)) !! r_offset r = None.

(** The tracker is consistent with the history of dispatches and completions. *)
Record tracks (ps : parts) (disp comp : list krec) : Prop := {
  tr_ok : ∀ k pc, ps !! k = Some pc → pc_ok k pc;
  tr_done : ∀ k pc o, ps !! k = Some pc → is_Some (done pc !! o) → mkRec k o ∈ comp;
  tr_prefix : ∀ r, r ∈ disp → ∃ pc, ps !! r_key r = Some pc ∧
                (r_offset r < expected pc → r ∈ comp)
}.

Record wf (e : executor) : Prop := {
  wf_tracks : tracks (ps e) (dispatched e) (completed e);
  wf_running : ∀ r, r ∈ running e ↔ in_flight (ps e) r;
  wf_nodup : NoDup (running e);
  wf_inflight : inFlight e = Z.of_nat (length (running e));
  wf_slots : window e = slots (ps e);
  wf_window : (window e <= window_cap e)%nat;
  wf_sem : (length (performing e) <= sem_cap e)%nat
}.

(** ** Dropping a finished record *)

Lemma drop_app r l k : drop r (l ++ k) = drop r l ++ drop r k.
Proof. unfold drop. apply filter_app. Qed.

Lemma elem_of_drop r x l : x ∈ drop r l ↔ x ≠ r ∧ x ∈ l.
Proof. unfold drop. by rewrite list_elem_of_filter. Qed.

Lemma drop_id r l : r ∉ l → drop r l = l.
Proof.
  induction l as [|x l IH]; intros H; [done |]. unfold drop in *. rewrite filter_cons.
  rewrite not_elem_of_cons in H. destruct H as [H1 H2]. rewrite decide_True by done. by rewrite IH.
Qed.

Lemma length_drop r l : NoDup l → r ∈ l → S (length (drop r l)) = length l.
Proof.
  induction 1 as [|x l Hx Hl IH]; intros Hr; [by apply not_elem_of_nil in Hr |].
  unfold drop in *. rewrite filter_cons. apply elem_of_cons in Hr as [<- | Hr].
  - rewrite decide_False by naive_solver. fold (drop r l). by rewrite drop_id.
  - destruct (decide (x = r)) as [-> |]; [done |]. rewrite decide_True by done. cbn. by rewrite IH.
Qed.

Lemma NoDup_drop r l : NoDup l → NoDup (drop r l).
Proof. intros H. apply NoDup_filter, H. Qed.

Lemma length_drop_le r l : (length (drop r l) <= length l)%nat.
Proof. unfold drop. apply length_filter. Qed.

(** ** Flushing *)

Lemma fmap_Some_1' {A B} (f : A → B) (o : option A) y :
  f <$> o = Some y → ∃ x, f x = y ∧ o = Some x.
Proof. destruct o as [x|]; cbn; [intros [= <-]; by exists x | done]. Qed.

Lemma flush_pc_spec k pc :
  pc_ok k pc →
  ∃ n, let r := flush_pc pc in
    r.2 = new_marks k (expected pc) n ∧
    expected r.1 = expected pc + Z.of_nat n ∧ done r.1 !! expected r.1 = None ∧
    pc_ok k r.1 ∧
    (∀ i, (i < n)%nat → is_Some (done pc !! (expected pc + Z.of_nat i))) ∧
    (∀ o, o ∈ pending r.1 ↔ o ∈ pending pc ∧ expected r.1 <= o) ∧
    (∀ o, done r.1 !! o = if decide (o < expected r.1) then None else done pc !! o).
Proof.
  intros Hok. unfold flush_pc. rewrite (ok_inited _ _ Hok). cbn [negb].
  apply (flush_loop_spec k (size (done pc)) pc []); [done | lia].
Qed.

Lemma flush_pc_size k pc :
  pc_ok k pc → (size (pending (flush_pc pc).1) + length (flush_pc pc).2 = size (pending pc))%nat.
Proof.
  intros Hok. unfold flush_pc. rewrite (ok_inited _ _ Hok). cbn [negb].
  pose proof (flush_loop_size k (size (done pc)) pc [] Hok) as E. cbn in E. lia.
Qed.

Lemma FlushMarks_lookup ps k :
  (FlushMarks ps).1 !! k = (λ pc, (flush_pc pc).1) <$> ps !! k.
Proof. unfold FlushMarks. cbn [fst]. apply lookup_fmap. Qed.

Lemma elem_of_marks ps r :
  r ∈ (FlushMarks ps).2 ↔ ∃ k pc, ps !! k = Some pc ∧ r ∈ (flush_pc pc).2.
Proof.
  unfold FlushMarks. cbn [snd]. rewrite list_elem_of_bind. split.
  - intros (pc & Hr & ([k pc'] & -> & Hk%elem_of_map_to_list)%list_elem_of_fmap). by exists k, pc'.
  - intros (k & pc & Hk & Hr). exists pc. split; [done |]. apply list_elem_of_fmap.
    exists (k, pc). split; [done |]. by apply elem_of_map_to_list.
Qed.

(** A pending offset leaves the tracker exactly when it is committed. *)
Lemma flush_in_flight k pc o :
  pc_ok k pc →
  (o ∈ pending (flush_pc pc).1 ∧ done (flush_pc pc).1 !! o = None)
  ↔ (o ∈ pending pc ∧ done pc !! o = None).
Proof.
  intros Hok. destruct (flush_pc_spec k pc Hok) as (n & H1 & H2 & H3 & H4 & H5 & H6 & H7).
  rewrite H6, H7. split.
  - intros [[Hp Hle] Hd]. case_decide; [lia | done].
  - intros [Hp Hd]. destruct (decide (o < expected (flush_pc pc).1)) as [Hlt | Hlt].
    + exfalso. pose proof (ok_pending _ _ Hok o Hp) as Hle. rewrite H2 in Hlt.
      destruct (H5 (Z.to_nat (o - expected pc)) ltac:(lia)) as [r Hr].
      replace (expected pc + Z.of_nat (Z.to_nat (o - expected pc))) with o in Hr by lia. congruence.
    + split; [split; [done | lia] | done].
Qed.

Lemma pc_of_flush ps k :
  pc_of (FlushMarks ps).1 k = match ps !! k with Some pc => (flush_pc pc).1 | None => new_pc end.
Proof. unfold pc_of. rewrite FlushMarks_lookup. by destruct (ps !! k). Qed.

Lemma FlushMarks_slots ps :
  (∀ k pc, ps !! k = Some pc → pc_ok k pc) →
  (slots (FlushMarks ps).1 + length (FlushMarks ps).2 = slots ps)%nat.
Proof.
  intros Hok. unfold slots, total, FlushMarks. cbn [fst snd].
  rewrite map_to_list_fmap.
  assert (Forall (λ p, pc_ok p.1 p.2) (map_to_list ps)) as Hl.
  { apply Forall_forall. intros [k pc] Hk%elem_of_map_to_list. by apply Hok. }
  revert Hl. generalize (map_to_list ps). intros l.
  induction 1 as [|[k pc] l Hp Hl IH]; [done |]. cbn in *. rewrite length_app.
  pose proof (flush_pc_size k pc Hp). lia.
Qed.

Lemma flush_tracks ps disp comp :
  tracks ps disp comp → tracks (FlushMarks ps).1 disp comp.
Proof.
  intros [H1 H2 H3]. split.
  - intros k pc'. rewrite FlushMarks_lookup. intros (pc & <- & Hk)%fmap_Some_1'.
    by destruct (flush_pc_spec k pc (H1 _ _ Hk)) as (n & _ & _ & _ & Hok & _).
  - intros k pc' o. rewrite FlushMarks_lookup. intros (pc & <- & Hk)%fmap_Some_1' Hd.
    destruct (flush_pc_spec k pc (H1 _ _ Hk)) as (n & _ & _ & _ & _ & _ & _ & H7).
    rewrite H7 in Hd. case_decide; [by destruct Hd |]. by eapply H2.
  - intros r Hr. destruct (H3 r Hr) as (pc & Hk & Hlt). exists (flush_pc pc).1.
    rewrite FlushMarks_lookup, Hk. split; [done |]. intros Hr'.
    destruct (flush_pc_spec _ pc (H1 _ _ Hk)) as (n & _ & E & _ & _ & H5 & _).
    destruct (decide (r_offset r < expected pc)); [auto |]. rewrite E in Hr'.
    destruct r as [k o]. cbn in *. eapply H2; [exact Hk |].
    replace o with (expected pc + Z.of_nat (Z.to_nat (o - expected pc))) by lia.
    apply H5. lia.
Qed.

Lemma flush_wf e : wf e → wf (flush e).
Proof.
  intros [W1 W2 W3 W4 W5 W6 W7]. unfold flush.
  pose proof (flush_tracks _ _ _ W1) as T1.
  pose proof (FlushMarks_slots (ps e) (tr_ok _ _ _ W1)) as Hs.
  assert (∀ r, in_flight (FlushMarks (ps e)).1 r ↔ in_flight (ps e) r) as Hf.
  { intros r. unfold in_flight. rewrite pc_of_flush. unfold pc_of.
    destruct (ps e !! r_key r) as [pc|] eqn:Ek; [| done]. cbn.
    by apply (flush_in_flight (r_key r)), (tr_ok _ _ _ W1). }
  destruct (FlushMarks (ps e)) as [ps' toMark]. cbn [fst snd] in *.
  split; cbn; try done.
  - intros r. rewrite Hf. apply W2.
  - lia.
  - lia.
Qed.

(** ** Registering *)

Lemma register_some ps rec ps' :
  register ps rec = Some ps' →
  r_offset rec ∉ pending (pc_of ps (r_key rec)) ∧
  ∃ pc, ps' = <[r_key rec := pc]> ps ∧
    pending pc = {[r_offset rec]} ∪ pending (pc_of ps (r_key rec)) ∧
    inited pc = true ∧
    (done pc = done (pc_of ps (r_key rec)) ∧ expected pc = expected (pc_of ps (r_key rec)) ∧
     expected pc <= r_offset rec ∧ inited (pc_of ps (r_key rec)) = true
     ∨ done pc = filter (λ p, r_offset rec <= p.1) (done (pc_of ps (r_key rec))) ∧
       expected pc = r_offset rec ∧
       (inited (pc_of ps (r_key rec)) = false ∨ r_offset rec < expected (pc_of ps (r_key rec)))).
Proof.
  unfold register. case_bool_decide as Hp; [done |]. intros [= <-]. split; [done |].
  eexists. split; [done |]. destruct (inited (pc_of ps (r_key rec))) eqn:Ei; cbn [negb orb].
  - destruct (Z.ltb_spec (r_offset rec) (expected (pc_of ps (r_key rec)))); cbn;
      split_and!; auto; left; split_and!; auto.
  - cbn. split_and!; auto.
Qed.

Lemma pc_of_insert_eq (ps : parts) k pc : pc_of (<[k := pc]> ps) k = pc.
Proof. unfold pc_of. by rewrite lookup_insert_eq. Qed.

Lemma pc_of_insert_ne (ps : parts) k k' pc : k ≠ k' → pc_of (<[k := pc]> ps) k' = pc_of ps k'.
Proof. intros Hne. unfold pc_of. by rewrite lookup_insert_ne. Qed.

(** The tracker of a partition that exists or will: empty facts for a new one. *)
Lemma tracked_pc ps disp comp k :
  tracks ps disp comp →
  (∀ o, o ∈ pending (pc_of ps k) → expected (pc_of ps k) <= o) ∧
  (∀ o r, done (pc_of ps k) !! o = Some r →
     o ∈ pending (pc_of ps k) ∧ r = mkRec k o ∧ mkRec k o ∈ comp ∧
     inited (pc_of ps k) = true).
Proof.
  intros [H1 H2 _]. unfold pc_of. destruct (ps !! k) as [pc|] eqn:Ek; cbn.
  - destruct (H1 k pc Ek) as [O1 O2 O3]. split; [done |]. intros o r Hd.
    destruct (O3 o r Hd). split_and!; [done | done | | done]. eapply H2; [exact Ek | by eexists].
  - split; [by intros o ?%elem_of_empty | intros o r Hd; by rewrite lookup_empty in Hd].
Qed.

Lemma register_tracks ps rec ps' disp comp :
  tracks ps disp comp → register ps rec = Some ps' → tracks ps' (disp ++ [rec]) comp.
Proof.
  intros Ht Hr. destruct (register_some _ _ _ Hr) as (Hnp & pc & -> & Ep & Ei & Hcase).
  destruct (tracked_pc _ _ _ (r_key rec) Ht) as [P1 P2]. destruct Ht as [H1 H2 H3].
  set (pc0 := pc_of ps (r_key rec)) in *.
  assert (∀ o r, done pc !! o = Some r → done pc0 !! o = Some r) as Hsub.
  { intros o r. destruct Hcase as [(-> & _) | (-> & _)]; [done |].
    by intros [? _]%map_lookup_filter_Some. }
  split.
  - intros k pc' [[<- <-] | [Hne Hk]]%lookup_insert_Some; [| by apply H1]. split.
    + done.
    + intros o. rewrite Ep, elem_of_union, elem_of_singleton. intros [-> | Ho].
      * destruct Hcase as [(_ & _ & ? & _) | (_ & -> & _)]; lia.
      * pose proof (P1 _ Ho) as Hle. destruct Hcase as [(_ & -> & _) | (_ & E & [Hi | Hlt])]; [done | | lia].
        exfalso. unfold pc0, pc_of in *. destruct (ps !! r_key rec) as [pc1|] eqn:Ek; cbn in *.
        -- by rewrite (ok_inited _ _ (H1 _ _ Ek)) in Hi.
        -- by apply elem_of_empty in Ho.
    + intros o r Hd%Hsub. destruct (P2 o r Hd) as (Hp & -> & _). rewrite Ep.
      split; [by apply elem_of_union_r | done].
  - intros k pc' o [[<- <-] | [Hne Hk]]%lookup_insert_Some Hd; [| by eapply H2].
    destruct Hd as [r Hd%Hsub]. by apply (P2 o r).
  - intros r [Hr' | ->%list_elem_of_singleton]%elem_of_app.
    + destruct (H3 r Hr') as (pc1 & Hk & Hlt). destruct (decide (r_key rec = r_key r)) as [E | Hne].
      * exists pc. rewrite E, lookup_insert_eq. split; [done |]. intros Hlt'. apply Hlt.
        unfold pc0, pc_of in *. rewrite E, Hk in *. cbn in *.
        destruct Hcase as [(_ & E2 & _) | (_ & E2 & [Hi | Hlt2])]; [lia | | lia].
        by rewrite (ok_inited _ _ (H1 _ _ Hk)) in Hi.
      * exists pc1. by rewrite lookup_insert_ne.
    + exists pc. rewrite lookup_insert_eq. split; [done |].
      destruct Hcase as [(_ & _ & ? & _) | (_ & -> & _)]; lia.
Qed.

Lemma register_in_flight ps rec ps' disp comp r :
  tracks ps disp comp → register ps rec = Some ps' →
  in_flight ps' r ↔ r = rec ∨ in_flight ps r.
Proof.
  intros Ht Hr. destruct (register_some _ _ _ Hr) as (Hnp & pc & -> & Ep & _ & Hcase).
  destruct (tracked_pc _ _ _ (r_key rec) Ht) as [P1 P2].
  unfold in_flight. destruct (decide (r_key rec = r_key r)) as [E | Hne].
  2: { rewrite pc_of_insert_ne by done. split; [by right | intros [-> | H]; done]. }
  rewrite <- E, pc_of_insert_eq, Ep. set (pc0 := pc_of ps (r_key rec)) in *.
  assert (∀ o, done pc !! o = None ↔ done pc0 !! o = None ∨
            (∃ x, done pc0 !! o = Some x ∧ o < r_offset rec ∧ r_offset rec < expected pc0)) as Hd.
  { intros o. destruct Hcase as [(-> & _) | (Ed & Ee & Hi)].
    - split; [by left |]. intros [H | (x & H1 & H2 & H3)]; [done |].
      destruct (P2 _ _ H1) as (Hp & _). apply P1 in Hp. lia.
    - rewrite Ed, map_lookup_filter_None. cbn. split.
      + intros [H | H]; [by left |]. destruct (done pc0 !! o) as [x|] eqn:Eo; [| by left].
        specialize (H x eq_refl). right. exists x. destruct (P2 _ _ Eo) as (Hp & _ & _ & Hin).
        apply P1 in Hp. destruct Hi as [Hi | Hi]; [congruence |]. split_and!; [done | lia | lia].
      + intros [H | (x & H1 & H2 & H3)]; [by left |]. right. intros y Hy. lia. }
  rewrite elem_of_union, elem_of_singleton, Hd. destruct r as [k o]. cbn in *. subst k. split.
  - intros [[-> | Ho] Hdone]; [left; by destruct rec |]. right. split; [done |].
    destruct Hdone as [H | (x & H1 & H2 & H3)]; [done |]. apply P1 in Ho. lia.
  - intros [Heq | [Ho Hdone]]; [| split; [by right | by left]].
    assert (o = r_offset rec) as -> by (by rewrite <- Heq).
    split; [by left |]. left. destruct (done pc0 !! r_offset rec) as [x|] eqn:Eo; [| done].
    by destruct (P2 _ _ Eo) as (Hp & _).
Qed.

Lemma register_slots ps rec ps' :
  register ps rec = Some ps' → slots ps' = S (slots ps).
Proof.
  intros Hr. destruct (register_some _ _ _ Hr) as (Hnp & pc & -> & Ep & _).
  unfold slots. rewrite total_insert, (total_of _ ps (r_key rec)) by apply size_empty.
  rewrite Ep, size_union by set_solver. rewrite size_singleton. done.
Qed.

Lemma dispatch_wf r rs e : wf e → (window e < window_cap e)%nat → wf (dispatch r rs e).
Proof.
  intros [W1 W2 W3 W4 W5 W6 W7] Hw. unfold dispatch.
  destruct (register (ps e) r) as [ps'|] eqn:Er; [| by split].
  assert (∀ x, in_flight ps' x ↔ x = r ∨ in_flight (ps e) x) as Hf
    by (intros x; by eapply register_in_flight).
  assert (r ∉ running e) as Hr.
  { rewrite W2. unfold in_flight. intros [H _].
    by destruct (register_some _ _ _ Er) as (Hnp & _). }
  assert (running e ++ [r] ≡ₚ (waiting e ++ [r]) ++ performing e ++ applying e) as Hp.
  { unfold running. rewrite <- !app_assoc. f_equiv.
    rewrite app_assoc. apply Permutation_app_comm. }
  split; cbn; try done.
  - by eapply register_tracks.
  - intros x. unfold running. cbn. rewrite <- Hp, elem_of_app, list_elem_of_singleton, Hf, W2. tauto.
  - unfold running. cbn. rewrite <- Hp. apply NoDup_app. split_and!; [done | | apply NoDup_singleton].
    intros x Hx ->%list_elem_of_singleton. done.
  - rewrite <- Hp, length_app. cbn. lia.
  - rewrite (register_slots _ _ _ Er). lia.
Qed.

(** ** The end of a perform *)

Lemma running_pc e r :
  wf e → r ∈ running e →
  ∃ pc, ps e !! r_key r = Some pc ∧ r_offset r ∈ pending pc ∧ done pc !! r_offset r = None.
Proof.
  intros W Hr. apply (wf_running _ W) in Hr as [Hp Hd]. unfold pc_of in *.
  destruct (ps e !! r_key r) as [pc|]; cbn in *; [by exists pc |]. by apply elem_of_empty in Hp.
Qed.

Lemma running_drop e r ps' c w i :
  let e' := mkExec (window_cap e) (sem_cap e) w i (accepting e) ps' (todo e) (drop r (waiting e))
              (drop r (performing e)) (drop r (applying e)) (dispatched e) c (marked e) in
  running e' = drop r (running e).
Proof. unfold running. cbn. by rewrite !drop_app. Qed.

Lemma noteDone_wf e r : wf e → r ∈ running e → wf (finish r true e).
Proof.
  intros W Hr. destruct (running_pc e r W Hr) as (pc & Hk & Hp & Hd).
  destruct W as [W1 W2 W3 W4 W5 W6 W7]. pose proof (tr_ok _ _ _ W1 _ _ Hk) as Hok.
  unfold finish, noteDone. rewrite Hk, (ok_inited _ _ Hok). cbn [negb orb].
  rewrite (proj2 (Z.leb_le _ _) (ok_pending _ _ Hok _ Hp)).
  pose proof (length_drop r (running e) W3 Hr) as Hlen.
  split; rewrite ?running_drop; cbn; try done.
  - destruct W1 as [H1 H2 H3]. split.
    + intros k pc' [[<- <-] | [Hne Hk']]%lookup_insert_Some; [| by apply H1]. split; cbn.
      * done.
      * apply Hok.
      * intros o x [[<- <-] | [Hne Hx]]%lookup_insert_Some; [by destruct r | by apply Hok].
    + intros k pc' o [[<- <-] | [Hne Hk']]%lookup_insert_Some Hdo; apply elem_of_app; cbn in *.
      * destruct Hdo as [x [[<- <-] | [Hno Hx]]%lookup_insert_Some]; [right | left].
        -- destruct r. by apply list_elem_of_singleton.
        -- eapply H2; [exact Hk | by eexists].
      * left. by eapply H2.
    + intros x Hx. destruct (H3 x Hx) as (pc1 & Hk1 & Hlt).
      destruct (decide (r_key r = r_key x)) as [E | Hne].
      * eexists. rewrite E, lookup_insert_eq. split; [done |]. cbn. intros Hlt'.
        rewrite E in Hk. rewrite Hk in Hk1. injection Hk1 as <-. apply elem_of_app. left. auto.
      * exists pc1. rewrite lookup_insert_ne by done. split; [done |]. intros Hlt'.
        apply elem_of_app. left. auto.
  - intros x. rewrite elem_of_drop, W2. unfold in_flight.
    destruct (decide (r_key r = r_key x)) as [E | Hne].
    + rewrite <- E, pc_of_insert_eq. unfold pc_of. rewrite Hk. cbn.
      destruct (decide (r_offset r = r_offset x)) as [Eo | Hno].
      * rewrite <- Eo, lookup_insert_eq. split; [| naive_solver].
        intros [Hx _]. destruct x, r. cbn in *. congruence.
      * rewrite lookup_insert_ne by done. split; [naive_solver |]. intros Hx. split; [| done].
        intros ->. done.
    + rewrite pc_of_insert_ne by done. split; [naive_solver |]. intros Hx. split; [| done].
      intros ->. done.
  - by apply NoDup_drop.
  - lia.
  - rewrite W5. unfold slots. rewrite total_insert, (total_delete _ _ _ _ Hk). done.
  - pose proof (length_drop_le r (performing e)). lia.
Qed.

Lemma fail_wf e r : wf e → r ∈ running e → wf (finish r false e).
Proof.
  intros W Hr. destruct (running_pc e r W Hr) as (pc & Hk & Hp & Hd).
  destruct W as [W1 W2 W3 W4 W5 W6 W7]. pose proof (tr_ok _ _ _ W1 _ _ Hk) as Hok.
  unfold finish, fail. rewrite Hk.
  pose proof (length_drop r (running e) W3 Hr) as Hlen.
  assert (S (size (pending pc ∖ {[r_offset r]})) = size (pending pc)) as Hsz.
  { rewrite size_difference by set_solver. rewrite size_singleton.
    assert (size (pending pc) ≠ 0%nat); [| lia]. intros E%size_empty_inv. set_solver. }
  split; rewrite ?running_drop; cbn; try done.
  - destruct W1 as [H1 H2 H3]. split.
    + intros k pc' [[<- <-] | [Hne Hk']]%lookup_insert_Some; [| by apply H1]. split; cbn.
      * apply Hok.
      * intros o [Ho _]%elem_of_difference. by apply Hok.
      * intros o x Hx. destruct (ok_done _ _ Hok _ _ Hx) as [Ho ->]. split; [| done].
        apply elem_of_difference. split; [done |]. intros ->%elem_of_singleton. congruence.
    + intros k pc' o [[<- <-] | [Hne Hk']]%lookup_insert_Some Hdo; cbn in *; [| by eapply H2].
      by eapply H2.
    + intros x Hx. destruct (H3 x Hx) as (pc1 & Hk1 & Hlt).
      destruct (decide (r_key r = r_key x)) as [E | Hne].
      * eexists. rewrite E, lookup_insert_eq. split; [done |]. cbn.
        rewrite E in Hk. rewrite Hk in Hk1. by injection Hk1 as <-.
      * exists pc1. by rewrite lookup_insert_ne by done.
  - intros x. rewrite elem_of_drop, W2. unfold in_flight.
    destruct (decide (r_key r = r_key x)) as [E | Hne].
    + rewrite <- E, pc_of_insert_eq. unfold pc_of. rewrite Hk. cbn.
      rewrite elem_of_difference, elem_of_singleton. split.
      * intros [Hx [H1 H2]]. split_and!; [done | | done]. intros Eo. destruct x, r. cbn in *. congruence.
      * intros [[H1 H2] H3]. split_and!; [| done | done]. by intros ->.
    + rewrite pc_of_insert_ne by done. split; [naive_solver |]. intros Hx. split; [| done].
      intros ->. done.
  - by apply NoDup_drop.
  - lia.
  - rewrite W5. unfold slots. rewrite total_insert, (total_delete _ _ _ _ Hk). cbn. lia.
  - lia.
  - pose proof (length_drop_le r (performing e)). lia.
Qed.

Lemma drop_perm r l : NoDup l → r ∈ l → r :: drop r l ≡ₚ l.
Proof.
  induction 1 as [|x l Hx Hl IH]; intros Hr; [by apply not_elem_of_nil in Hr |].
  unfold drop in *. rewrite filter_cons. destruct (decide (x = r)) as [-> | Hne].
  - rewrite decide_False by naive_solver. fold (drop r l). by rewrite drop_id.
  - rewrite decide_True by done. apply elem_of_cons in Hr as [-> | Hr]; [done |].
    rewrite Permutation_swap. by rewrite IH.
Qed.

(** A goroutine that goes on to its next stage stays in flight. *)
Lemma stage_wf e e' :
  wf e → running e' ≡ₚ running e → (length (performing e') <= sem_cap e')%nat →
  ps e' = ps e → dispatched e' = dispatched e → completed e' = completed e →
  inFlight e' = inFlight e → window e' = window e → window_cap e' = window_cap e → wf e'.
Proof.
  intros [W1 W2 W3 W4 W5 W6 W7] Hp Hs E1 E2 E3 E4 E5 E6.
  split; rewrite ?E1, ?E2, ?E3, ?E4, ?E5, ?E6; try done.
  - intros x. rewrite Hp. apply W2.
  - by rewrite Hp.
  - by rewrite Hp.
Qed.

Lemma acquire_wf e r :
  wf e → r ∈ waiting e → (length (performing e) < sem_cap e)%nat → wf (acquire_sem r e).
Proof.
  intros W Hr Hlt. apply (stage_wf e); try done.
  - unfold running, acquire_sem. cbn.
    assert (NoDup (waiting e)) as Hw by (by pose proof (wf_nodup _ W) as [? _]%NoDup_app).
    rewrite <- (drop_perm r (waiting e)) at 2 by done. cbn.
    rewrite <- !app_assoc, app_assoc. cbn. rewrite <- Permutation_middle. by rewrite <- app_assoc.
  - cbn. rewrite length_app. cbn. lia.
Qed.

Lemma release_wf e r : wf e → r ∈ performing e → wf (release_sem r e).
Proof.
  intros W Hr. apply (stage_wf e); try done.
  - unfold running, release_sem. cbn.
    assert (NoDup (performing e)) as Hw
      by (by pose proof (wf_nodup _ W) as (_ & _ & [? _]%NoDup_app)%NoDup_app).
    rewrite <- (drop_perm r (performing e)) at 2 by done. cbn. f_equiv.
    rewrite app_assoc. apply Permutation_app_comm.
  - cbn. pose proof (length_drop_le r (performing e)). pose proof (wf_sem _ W). lia.
Qed.

Lemma step_wf e e' : step e e' → wf e → wf e'.
Proof.
  assert (∀ t x, wf x → wf (set_todo t x)) as Htodo by (intros t x W; by destruct W).
  destruct 1; intros W.
  - by apply Htodo.
  - by apply flush_wf.
  - by apply flush_wf, Htodo.
  - by apply flush_wf, Htodo.
  - by apply flush_wf.
  - by apply dispatch_wf.
  - by apply flush_wf, Htodo.
  - by apply acquire_wf.
  - apply fail_wf; [done |]. unfold running. set_solver.
  - apply fail_wf; [done |]. unfold running. set_solver.
  - by apply release_wf.
  - assert (r ∈ running e) by (unfold running; set_solver).
    destruct ok; [by apply noteDone_wf | by apply fail_wf].
  - by destruct W.
Qed.

Lemma reachable_wf workers claimWindow e : reachable workers claimWindow e → wf e.
Proof.
  induction 1 as [|e e' _ IH Hs]; [| by eapply step_wf].
  split; cbn; try done.
  - split; cbn; intros *; rewrite ?lookup_empty; try done. by intros ?%not_elem_of_nil.
  - intros r. unfold running, in_flight, pc_of. cbn. rewrite lookup_empty. cbn.
    rewrite elem_of_empty. split; [by intros ?%not_elem_of_nil | by intros []].
  - constructor.
  - lia.
  - lia.
Qed.

(** C12: in every interleaving of dispatches, completions, failures, timeouts,
    rebalances and shutdown, when FlushMarks marks an offset for commit, every
    record of that partition dispatched at or below it has completed: a crash
    after the commit loses no dispatched job. *)
Theorem commit_only_finished_prefix (workers claimWindow : nat) (e : executor)
  (Hr : reachable workers claimWindow e) :
  ∀ r d, r ∈ (FlushMarks (ps e)).2 → d ∈ dispatched e → r_key d = r_key r →
    r_offset d <= r_offset r → d ∈ completed e.
Proof.
  intros r d Hm Hd Hk Ho. apply reachable_wf in Hr. destruct (wf_tracks _ Hr) as [H1 H2 H3].
  apply elem_of_marks in Hm as (k & pc & Epc & Hm).
  destruct (flush_pc_spec k pc (H1 _ _ Epc)) as (n & E & _ & _ & _ & H5 & _). rewrite E in Hm.
  apply list_elem_of_fmap in Hm as (i & -> & Hi%elem_of_seq). cbn in *.
  destruct (H3 d Hd) as (pc' & Epc' & Hlt). rewrite Hk, Epc in Epc'. injection Epc' as <-.
  destruct (decide (r_offset d < expected pc)); [auto |].
  destruct d as [kd o]. cbn in *. subst kd. eapply H2; [exact Epc |].
  replace o with (expected pc + Z.of_nat (Z.to_nat (o - expected pc))) by lia. apply H5. lia.
Qed.

(** FlushMarks commits as much as it may: it marks exactly the contiguous
    run of completed offsets from the watermark on, leaves the watermark at the
    first offset that is not completed, and keeps everything above it. *)
Theorem FlushMarks_maximal_prefix (workers claimWindow : nat) (e : executor) (k : partitionKey)
  (pc : partitionCommit) (Hr : reachable workers claimWindow e) (Hk : ps e !! k = Some pc) :
  ∃ n pc', (FlushMarks (ps e)).1 !! k = Some pc' ∧
    (∀ r, r_key r = k → r ∈ (FlushMarks (ps e)).2 ↔ r ∈ new_marks k (expected pc) n) ∧
    expected pc' = expected pc + Z.of_nat n ∧ done pc' !! expected pc' = None ∧
    (∀ o, done pc' !! o = if decide (o < expected pc') then None else done pc !! o).
Proof.
  apply reachable_wf in Hr. destruct (wf_tracks _ Hr) as [H1 _ _].
  destruct (flush_pc_spec k pc (H1 _ _ Hk)) as (n & E1 & E2 & E3 & _ & _ & _ & E7).
  exists n, (flush_pc pc).1. rewrite FlushMarks_lookup, Hk. split_and!; try done.
  intros r Er. rewrite elem_of_marks. split.
  - intros (k' & pc1 & Hk' & Hr1).
    destruct (flush_pc_spec k' pc1 (H1 _ _ Hk')) as (m & F1 & _). rewrite F1 in Hr1.
    pose proof Hr1 as (i & -> & _)%list_elem_of_fmap. cbn in Er. subst k'.
    rewrite Hk in Hk'. injection Hk' as <-. by rewrite <- E1, F1.
  - intros Hr1. exists k, pc. by rewrite E1.
Qed.

(** C13: Window slots are conserved: the slots taken are exactly the offsets
    dispatched and not yet committed or failed, and never exceed the window; the
    performs inside Process never exceed the Sem (those in Apply have given their
    slot back); and inFlight counts exactly the performs that have not returned,
    whether they wait for the Sem, are in Process or in Apply. *)
Theorem window_slots_conserved (workers claimWindow : nat) (e : executor)
  (Hr : reachable workers claimWindow e) :
  window e = total (λ pc, size (pending pc)) (ps e) ∧
  (window e <= window_cap e)%nat ∧
  (length (performing e) <= sem_cap e)%nat ∧
  inFlight e = Z.of_nat (length (waiting e ++ performing e ++ applying e)) ∧
  (∀ r, r ∈ waiting e ++ performing e ++ applying e ↔
     r_offset r ∈ pending (pc_of (ps e) (r_key r)) ∧
     done (pc_of (ps e) (r_key r)) !! r_offset r = None).
Proof. apply reachable_wf in Hr. by destruct Hr. Qed.

(** ** Offsets that are never redelivered *)

(** The poll loop only gets records of other partitions or above [o]. *)
Definition skips (k : partitionKey) (o : Z) (recs : list krec) : Prop :=
  Forall (λ r, r_key r = k → o < r_offset r) recs.

(** Runs in which every batch of records the poll loop gets skips [o]. *)
Inductive steps_skipping (k : partitionKey) (o : Z) : executor -> executor -> Prop :=
| ss_refl e : steps_skipping k o e e
| ss_step e e' e'' :
    step e e' -> skips k o (default [] (todo e')) -> steps_skipping k o e' e'' ->
    steps_skipping k o e e''.

Definition marks_of (k : partitionKey) (e : executor) : list krec :=
  filter (λ r, r_key r = k) (marked e).

(** The watermark of [k] is at [o], which is not in flight. *)
Definition stuck (k : partitionKey) (o : Z) (e : executor) : Prop :=
  skips k o (default [] (todo e)) ∧
  ∃ pc, ps e !! k = Some pc ∧ expected pc = o ∧ o ∉ pending pc.

Lemma flush_stuck k o e :
  wf e → stuck k o e → stuck k o (flush e) ∧ marks_of k (flush e) = marks_of k e.
Proof.
  intros W [Hs (pc & Hk & He & Hp)]. destruct (wf_tracks _ W) as [H1 _ _].
  assert (∀ pc0, ps e !! k = Some pc0 → (flush_pc pc0).2 = [] ∧ expected (flush_pc pc0).1 = o ∧
            o ∉ pending (flush_pc pc0).1) as Hf.
  { intros pc0 Hk0. rewrite Hk in Hk0. injection Hk0 as <-.
    destruct (flush_pc_spec k pc (H1 _ _ Hk)) as (n & E1 & E2 & _ & _ & H5 & H6 & _).
    destruct n as [|n].
    - split; [done |]. split; [lia |]. rewrite H6. naive_solver.
    - exfalso. destruct (H5 0%nat ltac:(lia)) as [r Hr]. rewrite Z.add_0_r, He in Hr.
      apply (ok_done _ _ (H1 _ _ Hk)) in Hr as [Hr _]. done. }
  assert (∀ r, r ∈ (FlushMarks (ps e)).2 → r_key r ≠ k) as Hm.
  { intros r (k' & pc1 & Hk1 & Hr)%elem_of_marks Ek.
    destruct (flush_pc_spec k' pc1 (H1 _ _ Hk1)) as (m & F1 & _). rewrite F1 in Hr.
    pose proof Hr as (i & -> & _)%list_elem_of_fmap. cbn in Ek. subst k'.
    destruct (Hf pc1 Hk1) as [F2 _]. rewrite F2 in F1. rewrite <- F1 in Hr.
    by apply not_elem_of_nil in Hr. }
  unfold flush, marks_of, stuck. pose proof (FlushMarks_lookup (ps e) k) as Hl.
  rewrite Hk in Hl. destruct (FlushMarks (ps e)) as [ps' toMark]. cbn in *.
  destruct (Hf pc Hk) as (_ & F2 & F3). split; [split; [done |]; by eexists |].
  rewrite filter_app. assert (∀ l, (∀ r, r ∈ l → r_key r ≠ k) → filter (λ r, r_key r = k) l = []) as E.
  { induction l as [|x l IH]; intros Hx; [done |].
    rewrite filter_cons, decide_False by (apply Hx; by left). apply IH. intros r Hr. apply Hx. by right. }
  by rewrite (E toMark Hm), app_nil_r.
Qed.

Lemma finish_stuck k o r ok e :
  wf e → r ∈ running e → stuck k o e →
  stuck k o (finish r ok e) ∧ marks_of k (finish r ok e) = marks_of k e.
Proof.
  intros W Hr [Hs (pc & Hk & He & Hp)]. destruct (running_pc e r W Hr) as (pc1 & Hk1 & Hp1 & _).
  unfold finish, noteDone, fail. rewrite Hk1. unfold stuck, marks_of.
  destruct ok; [destruct (negb (inited pc1) || _) |]; cbn; (split; [split; [done |] | done]);
    (destruct (decide (r_key r = k)) as [<- | Hne];
     [rewrite Hk in Hk1; injection Hk1 as <-; eexists; rewrite lookup_insert_eq;
      split_and!; [done | done | cbn; set_solver]
     | exists pc; by rewrite lookup_insert_ne]).
Qed.

Lemma dispatch_stuck k o r rs e :
  wf e → todo e = Some (r :: rs) → stuck k o e →
  stuck k o (dispatch r rs e) ∧ marks_of k (dispatch r rs e) = marks_of k e.
Proof.
  intros W Ht [Hs (pc & Hk & He & Hp)]. rewrite Ht in Hs. cbn in Hs.
  apply Forall_cons in Hs as [Hr Hs].
  unfold dispatch, stuck, marks_of. destruct (register (ps e) r) as [ps'|] eqn:Er.
  2: { cbn. split; [split; [done | by exists pc] | done]. }
  cbn. split; [split; [done |] | done].
  destruct (register_some _ _ _ Er) as (Hnp & pc' & -> & Ep & Ei & Hcase).
  destruct (decide (r_key r = k)) as [<- | Hne]; [| exists pc; by rewrite lookup_insert_ne].
  exists pc'. rewrite lookup_insert_eq. unfold pc_of in *. rewrite Hk in *. cbn in *.
  specialize (Hr eq_refl). split; [done |].
  pose proof (ok_inited _ _ (tr_ok _ _ _ (wf_tracks _ W) _ _ Hk)) as Hi.
  destruct Hcase as [(_ & E & _) | (_ & _ & [Hi' | Hlt])]; [| congruence | lia].
  split; [congruence |]. rewrite Ep, elem_of_union, elem_of_singleton. intros [-> | Ho]; [lia | done].
Qed.

Lemma step_stuck k o e e' :
  step e e' → wf e → skips k o (default [] (todo e')) → stuck k o e →
  stuck k o e' ∧ marks_of k e' = marks_of k e.
Proof.
  intros Hst W Hsk Hs.
  assert (∀ t, skips k o (default [] t) → stuck k o (set_todo t e) ∧ wf (set_todo t e)) as Ht.
  { intros t Htd. destruct Hs as [_ Hs]. split; [done | by destruct W]. }
  destruct Hst.
  - split; [by apply Ht | done].
  - by apply flush_stuck.
  - destruct (Ht None) as [T1 T2]; [constructor |]. by apply (flush_stuck k o (set_todo None e)).
  - destruct (Ht None) as [T1 T2]; [constructor |]. by apply (flush_stuck k o (set_todo None e)).
  - by apply flush_stuck.
  - by apply dispatch_stuck.
  - destruct (Ht None) as [T1 T2]; [constructor |]. by apply (flush_stuck k o (set_todo None e)).
  - done.
  - apply finish_stuck; [done | unfold running; set_solver | done].
  - apply finish_stuck; [done | unfold running; set_solver | done].
  - done.
  - apply finish_stuck; [done | unfold running; set_solver | done].
  - done.
Qed.

(** A watermark waits for its offset forever. If the next offset to commit
    is not in flight and is never handed to this member again (the partition was
    reassigned, consumed past that offset elsewhere and came back at a higher
    one), then no later completion on the partition is ever marked for commit:
    nothing resets the tracker when a partition is revoked. *)
Theorem skipped_offset_blocks_commits (workers claimWindow : nat) (e e' : executor)
  (k : partitionKey) (o : Z)
  (Hr : reachable workers claimWindow e) (Hs : stuck k o e) (Hrun : steps_skipping k o e e') :
  marks_of k e' = marks_of k e ∧ ∃ pc, ps e' !! k = Some pc ∧ expected pc = o.
Proof.
  apply reachable_wf in Hr. induction Hrun as [e | e e1 e2 Hst Hsk _ IH].
  { split; [done |]. destruct Hs as [_ (pc & H1 & H2 & _)]. by exists pc. }
  destruct (step_stuck k o e e1 Hst Hr Hsk Hs) as [S1 S2].
  destruct IH as [I1 I2]; [by eapply step_wf | done |]. split; [congruence | done].
Qed.

(** ** A run: offset 5 is processed and committed, then the partition comes back
    at offset 10. *)

Definition k0 : partitionKey := ("jobs", 0).
Definition at_off (o : Z) : krec := mkRec k0 o.

Definition run1 : executor := set_todo (Some [at_off 5]) (NewWatermarkExecutor 2 4).
Definition run2 : executor := dispatch (at_off 5) [] run1.
Definition run3 : executor := acquire_sem (at_off 5) run2.
Definition run4 : executor := finish (at_off 5) true (release_sem (at_off 5) run3).
Definition run5 : executor := flush (set_todo None run4).
Definition run6 : executor := set_todo (Some [at_off 10]) run5.
Definition run7 : executor := dispatch (at_off 10) [] run6.

Lemma run4_reachable : reachable 2 4 run4.
Proof.
  eapply reach_step; [| apply s_finish; vm_compute; left; reflexivity].
  eapply reach_step; [| apply s_processed; vm_compute; left; reflexivity].
  eapply reach_step; [| apply s_sem; [vm_compute; left | vm_compute; lia]].
  eapply reach_step; [| apply s_dispatch; [reflexivity | vm_compute; lia]].
  eapply reach_step; [apply reach_init | by apply s_poll].
Qed.

Lemma run5_reachable : reachable 2 4 run5.
Proof. eapply reach_step; [apply run4_reachable | by apply s_end]. Qed.

Lemma commit_only_finished_prefix_witness :
  (FlushMarks (ps run4)).2 = [at_off 5] ∧
  ∀ r d, r ∈ (FlushMarks (ps run4)).2 → d ∈ dispatched run4 → r_key d = r_key r →
    r_offset d <= r_offset r → d ∈ completed run4.
Proof.
  split; [vm_compute; reflexivity |]. apply (commit_only_finished_prefix 2 4 run4 run4_reachable).
Defined.

Lemma FlushMarks_maximal_prefix_witness :
  ∃ n pc', (FlushMarks (ps run4)).1 !! k0 = Some pc' ∧
    (∀ r, r_key r = k0 → r ∈ (FlushMarks (ps run4)).2 ↔ r ∈ new_marks k0 5 n) ∧
    expected pc' = 5 + Z.of_nat n ∧ done pc' !! expected pc' = None ∧
    (∀ o, done pc' !! o = if decide (o < expected pc') then None
                          else done (pc_of (ps run4) k0) !! o).
Proof.
  apply (FlushMarks_maximal_prefix 2 4 run4 k0 (pc_of (ps run4) k0) run4_reachable).
  vm_compute. reflexivity.
Defined.

Lemma window_slots_conserved_witness :
  window run4 = total (λ pc, size (pending pc)) (ps run4) ∧
  (window run4 <= window_cap run4)%nat ∧
  (length (performing run4) <= sem_cap run4)%nat ∧
  inFlight run4 = Z.of_nat (length (waiting run4 ++ performing run4 ++ applying run4)) ∧
  (∀ r, r ∈ waiting run4 ++ performing run4 ++ applying run4 ↔
     r_offset r ∈ pending (pc_of (ps run4) (r_key r)) ∧
     done (pc_of (ps run4) (r_key r)) !! r_offset r = None).
Proof. apply (window_slots_conserved 2 4 run4 run4_reachable). Defined.

Lemma skipped_offset_blocks_commits_witness :
  marks_of k0 run7 = marks_of k0 run5 ∧ ∃ pc, ps run7 !! k0 = Some pc ∧ expected pc = 6.
Proof.
  apply (skipped_offset_blocks_commits 2 4 run5 run7 k0 6 run5_reachable).
  - split; [constructor |]. exists (pc_of (ps run5) k0). vm_compute. split_and!; [done | done | discriminate].
  - eapply ss_step; [by apply (s_poll run5 [at_off 10]) | by repeat constructor |].
    eapply ss_step; [apply s_dispatch; [reflexivity | vm_compute; lia] | constructor |].
    apply ss_refl.
Defined.
