(* ===== verification/Protocol.v ===== *)
(** JSON, timestamps, the wire messages (pkg/protocol) and job expiry
    (pkg/jobexpiry).

    encoding/json and the RFC 3339 text of time are operations of interfaces,
    [Json] and [TimeText], with the round trips the code relies on as laws.
    Times are nanoseconds since the epoch. *)
From S2P Require Import Prelude Redis Client.

(** ** JSON objects *)

(** A decoded value as Go's interface{} shows it to a type assertion; null,
    arrays and objects are kept as text, since the code never looks inside. *)
Inductive json :=
| JStr (s : string)
| JBool (b : bool)
| JNum (q : Q)
| JOther (text : string).

Notation object := (gmap string json).

(** Decoding into a nil map: [Ok None] is the JSON text null, which leaves the
    map nil without an error.  [float_numbers] is the text of a value once it was
    decoded into interface{}, which makes its numbers float64. *)
Class Json := {
  unmarshal : string -> result (option object);
  marshal : object -> result string;
  float_numbers : string -> string
}.

Class JsonLaws `{Json} := {
  marshal_ok : ∀ m, ∃ s, marshal m = Ok s;
  unmarshal_of_marshal : ∀ m s, marshal m = Ok s → unmarshal s = Ok (Some m)
}.

Class TimeText := {
  rfc3339_parse : string -> option Z;      (* time.Parse(time.RFC3339, _) *)
  rfc3339_format : Z -> string;            (* t.UTC().Format(time.RFC3339) *)
  minute_format : Z -> string              (* the minute in UTC, 200601021504 *)
}.

(** A Go function that may panic. *)
Inductive outcome (A : Type) := Done (a : A) | Panic.
Arguments Done {A} a.
Arguments Panic {A}.

(** Reading a nil map gives no field, writing to it panics. *)
Definition fields (m : option object) : object := default ∅ m.

(** [x, _ := m[k].(string)]. *)
Definition str_of (v : option json) : string :=
  match v with Some (JStr s) => s | _ => "" end.

Definition str_field (m : object) (k : string) : string := str_of (m !! k).

Definition num_field (m : object) (k : string) : option Q :=
  match m !! k with Some (JNum q) => Some q | _ => None end.

(** Conversion of a float64 to an integer type truncates towards zero. *)
Definition truncate (q : Q) : Z := Z.quot (Qnum q) (Z.pos (Qden q)).

(** ** pkg/protocol *)

Record SourceCoords := Src { Src_Topic : string; Src_Partition : Z; Src_Offset : Z }.

Record EventMessage := mkEvent {
  Ev_BatchID : string; Ev_JobID : string; Ev_Status : string; Ev_WorkerClass : string;
  Ev_OccurredAt : string; Ev_SrcTopic : string; Ev_SrcPartition : Z; Ev_SrcOffset : Z;
  Ev_BatchSeq : Z
}.

(** ** pkg/jobexpiry *)

(** The white space strings.TrimSpace cuts, in ASCII. *)
Definition is_space (c : Ascii.ascii) : bool :=
  existsb (fun n => is_char n c) [9%N; 10%N; 11%N; 12%N; 13%N; 32%N].

Fixpoint trim_left (s : string) : string :=
  match s with
  | String c r => if is_space c then trim_left r else s
  | EmptyString => s
  end.

Fixpoint trim_right (s : string) : string :=
  match s with
  | EmptyString => EmptyString
  | String c r =>
      match trim_right r with
      | EmptyString => if is_space c then EmptyString else String c EmptyString
      | r' => String c r'
      end
  end.

Definition TrimSpace (s : string) : string := trim_right (trim_left s).

Definition ExpiredErrorClass : string := "KafkaBatch::JobExpiry::ExpiredError".

Record FailureRecord := mkFailure {
  Fr_BatchID : string; Fr_JobID : string; Fr_WorkerClass : string; Fr_ErrorClass : string;
  Fr_ErrorMessage : string; Fr_Status : string; Fr_Attempt : Z
}.

Record DropOutcome := mkDrop {
  Drop_Event : option EventMessage; Drop_DLTPayload : string; Drop_DLTKey : string;
  Drop_Failure : option FailureRecord
}.

Section expiry.
Context `{Json} `{TimeText}.

Definition Expired (validTill : string) (now : Z) : bool :=
  let validTill := TrimSpace validTill in
  if String.eqb validTill "" then false
  else match rfc3339_parse validTill with
       | None => true
       | Some t => t <=? now
       end.

Definition NormalizeValidTill (rfc3339nano_parse : string -> option Z) (value : string) : string :=
  let value := TrimSpace value in
  if String.eqb value "" then ""
  else match rfc3339_parse value with
       | Some t => rfc3339_format t
       | None => match rfc3339nano_parse value with
                 | Some t => rfc3339_format t
                 | None => ""
                 end
       end.

(** [if _, ok := m[k]; !ok { m[k] = v }] on a map that may be nil. *)
Definition set_default (k : string) (v : json) (m : option object) : outcome (option object) :=
  match m with
  | None => Panic
  | Some m => Done (Some (match m !! k with None => <[k := v]> m | Some _ => m end))
  end.

Definition and_then {A B} (m : outcome A) (k : A -> outcome B) : outcome B :=
  match m with Done a => k a | Panic => Panic end.

Definition StampSource (m : option object) (src : SourceCoords) : outcome (option object) :=
  and_then (set_default "_src_topic" (JStr (Src_Topic src)) m) (fun m =>
  and_then (set_default "_src_partition" (JNum (inject_Z (Src_Partition src))) m) (fun m =>
  set_default "_src_offset" (JNum (inject_Z (Src_Offset src))) m)).

(** The SourceCoords function: stamped coordinates first, then inline ones. *)
Definition source_coords (m : object) : SourceCoords :=
  let topic := str_field m "_src_topic" in
  let topic := if String.eqb topic "" then str_field m "src_topic" else topic in
  let num (a b : string) :=
    match num_field m a with
    | Some v => truncate v
    | None => match num_field m b with Some v => truncate v | None => 0 end
    end in
  Src topic (num "_src_partition" "src_partition") (num "_src_offset" "src_offset").

Definition intFrom (v : option json) : Z :=
  match v with Some (JNum n) => truncate n | _ => 0 end.

(** [json.Marshal]'s text with its error dropped. *)
Definition marshal_or_empty (m : object) : string :=
  match marshal m with Ok s => s | Bad _ => "" end.

(** [_ = json.Unmarshal(raw, &m)] into an empty map. *)
Definition unmarshal_lenient (raw : string) : object :=
  match unmarshal raw with Ok (Some m) => m | _ => ∅ end.

Definition drop_message (validTill : string) : string :=
  if String.eqb validTill "" then "job expired"
  else ("Job expired (valid_till=" +:+ validTill +:+ ")")%string.

Definition BuildDrop (raw : string) (src : SourceCoords) (now : Z) : DropOutcome :=
  let m := unmarshal_lenient raw in
  let msg := drop_message (str_field m "valid_till") in
  let dlt :=
    <["dlt_at" := JStr (rfc3339_format now)]>
    (<["dlt_error_message" := JStr msg]>
    (<["dlt_error_class" := JStr ExpiredErrorClass]>
    (<["dlt_source_topic" := JStr (Src_Topic src)]>
    (<["dlt_type" := JStr "expired"]> m)))) in
  let dltRaw := marshal_or_empty dlt in
  let key := str_field m "job_id" in
  let key := if String.eqb key "" then "expired" else key in
  let batchID := str_field m "batch_id" in
  match num_field m "batch_seq" with
  | Some seqF =>
      if negb (String.eqb batchID "") && negb (Qle_bool seqF 0) then
        let jobID := str_field m "job_id" in
        let worker := str_field m "worker_class" in
        mkDrop
          (Some (mkEvent batchID jobID "failed" worker (rfc3339_format now)
                   (Src_Topic src) (Src_Partition src) (Src_Offset src) (truncate seqF)))
          dltRaw key
          (Some (mkFailure batchID jobID worker ExpiredErrorClass msg "expired"
                   (intFrom (m !! "attempt"))))
      else mkDrop None dltRaw key None
  | None => mkDrop None dltRaw key None
  end.
End expiry.
