(* ===== verification/Fairness.v ===== *)
(** The weighted fair scheduler: pkg/fairness/lua.go, scheduler.go, keys.go,
    lane.go and config.go.

    A lane keeps a ring (a sorted set of the tenants with ready jobs, ordered by
    virtual time), a list of ready jobs per tenant, the virtual times and
    weights, the leases of the jobs in flight (one sorted set for the lane and
    one per tenant, scored by expiry) and the forwarding buffer, which holds a
    job between its checkout and its confirmation.

    Virtual times, weights and scores are float64 in the program and exact
    rationals here; their text in Redis hashes is an interface, [NumText]. *)
From S2P Require Import Prelude Redis Client Kafka Protocol.
From Stdlib Require Import Qround.

(** ** Lanes, keys and settings *)

Definition Lane : Type := string.
Definition LaneTime : Lane := "time".
Definition LaneThroughput : Lane := "throughput".

Definition ns (lane : Lane) : string := ("kafka_batch:fair_" +:+ lane)%string.
Definition ringKey (lane : Lane) : string := (ns lane +:+ ":ring")%string.
Definition vtimeKey (lane : Lane) : string := (ns lane +:+ ":vtime")%string.
Definition weightKey (lane : Lane) : string := (ns lane +:+ ":weight")%string.
Definition readyPrefix (lane : Lane) : string := (ns lane +:+ ":ready:")%string.
Definition leasesKey (lane : Lane) : string := (ns lane +:+ ":leases")%string.
Definition leasePrefix (lane : Lane) : string := (ns lane +:+ ":lease:")%string.
Definition forwardingKey (lane : Lane) : string := (ns lane +:+ ":forwarding")%string.
Definition forwardingMetaKey (lane : Lane) : string := (ns lane +:+ ":forwarding_meta")%string.
Definition slotDedupPrefix (lane : Lane) : string := (ns lane +:+ ":slot_dedup:")%string.
Definition reclaimLockKey (lane : Lane) : string := (ns lane +:+ ":reclaim_lock")%string.
Definition reclaimClaimPrefix (lane : Lane) : string := (ns lane +:+ ":reclaim_claim:")%string.
Definition reclaimClaimKey (lane : Lane) (slotID : string) : string :=
  (reclaimClaimPrefix lane +:+ slotID)%string.
Definition ReadyKey (lane : Lane) (tenantID : string) : string :=
  (readyPrefix lane +:+ tenantID)%string.
Definition TenantLeaseKey (lane : Lane) (tenantID : string) : string :=
  (leasePrefix lane +:+ tenantID)%string.
Definition SlotDedupKey (lane : Lane) (slotID : string) : string :=
  (slotDedupPrefix lane +:+ slotID)%string.

Definition ValidateLane (lane : Lane) : error :=
  if String.eqb lane LaneTime || String.eqb lane LaneThroughput then None
  else Some ("unknown fairness lane " +:+ lane)%string.

(** Seconds are rationals, durations nanoseconds. *)
Definition nano : Q := inject_Z 1000000000.
Definition sec (n : Z) : Z := n * 1000000000.

Record Settings := mkSettings {
  ReadyWindow : Z; GlobalConcurrency : Z; MaxInflightPerTenant : Z; LeaseTTL : Q;
  DefaultWeight : Q; WeightedConcurrency : bool; ActiveCountTTL : Z;
  ActiveCountSource : string; ForwardingRecoveryGrace : Q; SlotDedupTTL : Z;
  WeightCacheTTL : Z; ResetVtimeWhenIdle : bool; VtimeIdleResetDebounce : Z
}.

Definition DefaultSettings : Settings :=
  mkSettings 500 50 0 1800 1 true (sec 5) "" 5 0 (sec 60) true (sec 15).

Definition LeaseTTLFloor : Q := 60.

Definition EffectiveVtimeIdleResetDebounce (s : Settings) : Z :=
  if sec 1 <=? VtimeIdleResetDebounce s then VtimeIdleResetDebounce s else sec 15.

Definition EffectiveLeaseTTL (s : Settings) : Q :=
  if Qle_bool LeaseTTLFloor (LeaseTTL s) then LeaseTTL s else LeaseTTLFloor.

Definition fetchN (s : Settings) : Z :=
  let n := GlobalConcurrency s * 3 in if n <? 60 then 60 else n.

Definition weightedFlag (s : Settings) : Z := if WeightedConcurrency s then 1 else 0.

Definition slotDedupTTL (s : Settings) : Z :=
  let ttl := SlotDedupTTL s in
  let ttl := if ttl <=? 0 then truncate (EffectiveLeaseTTL s) else ttl in
  if ttl <? 60 then 60 else ttl.

(** The text of numbers: Lua's tostring (%.17g) and tonumber, the prefix
    fmt.Sscanf reads with %f (0 when there is none) and strconv.ParseFloat. *)
Class NumText := {
  number_text : Q -> string;
  tonumber : string -> option Q;
  scan_float : string -> Q;
  parse_float : string -> result Q
}.

Class NumLaws `{NumText} := {
  tonumber_text : ∀ q, tonumber (number_text q) = Some q
}.

Section scheduler.
Context `{NumText} `{Json}.

(** ** The Lua scripts *)

Definition lua_error {R A} (e : string) : script R A := fun s => (s, Fail e).

(** Scores in [-inf, now]. *)
Definition upto (now : Q) : zrange := ZRange None (Some (false, now)).
Definition after (now : Q) : zrange := ZRange (Some (true, now)) None.

(** [tonumber(redis.call('HGET', ...) or '0')] where a nil result is used as a
    number, which is a Lua error. *)
Definition vtime_value {R} (o : option string) : script R Q :=
  match o with
  | None => mret 0%Q
  | Some v => match tonumber v with
              | Some q => mret q
              | None => lua_error "attempt to perform arithmetic on a nil value"
              end
  end.

(** [tonumber(HGET wh t or dw)], and dw when that is nil or not positive. *)
Definition weight_value (dw : Q) (o : option string) : Q :=
  match o with
  | None => dw
  | Some v => match tonumber v with
              | Some w => if Qle_bool w 0 then dw else w
              | None => dw
              end
  end.

Definition HGET_weight {R} (wh : string) (dw : Q) (t : string) : script R Q :=
  v ← HGET wh t; mret (weight_value dw v).

Definition EnqueueLua (ring vth tenant payload : string) (window : Z) (rprefix : string)
    : script Z unit :=
  let rk := (rprefix +:+ tenant)%string in
  full ← (if 0 <? window then n ← LLEN rk; mret (window <=? n) else mret false);
  when full (lua_return 0);;
  score ← ZSCORE ring tenant;
  (match score with
   | Some _ => mret tt
   | None =>
       v ← HGET vth tenant;
       vt ← vtime_value v;
       mn ← ZRANGE_HEAD ring 1;
       let vt := match mn with
                 | (_, m) :: _ => if Qle_bool m vt then vt else m
                 | [] => vt
                 end in
       ZADD ring vt tenant;;
       HSET vth tenant (number_text vt)
   end);;
  RPUSH rk payload;;
  lua_return 1.

(** A Lua numeric for over a table. *)
Fixpoint each {R A} (f : A -> script R unit) (l : list A) : script R unit :=
  match l with
  | [] => mret tt
  | x :: l => f x;; each f l
  end.

Inductive checkout_reply := Denied (why : string) | Got (tenant job : string).

(** The arguments both checkout scripts take; [settle] is what they do not
    share: how the tenant leaves or moves in the ring once its job is popped. *)
Section checkout.
Context (ring gl wh fwd fwd_meta rprefix lprefix slot_id : string).
Context (budget cap fetch_n weighted ahint : Z) (dw shint now ttl : Q).
Context (settle : string -> script checkout_reply unit).

Definition eff_cap (active : Z) (sum_w : Q) (t : string) : script checkout_reply Z :=
  e ← (if 0 <? budget then
         if weighted =? 1 then
           w_t ← HGET_weight wh dw t;
           let e := Qfloor (inject_Z budget * w_t / sum_w) in
           mret (if e <? 1 then 1 else e)
         else
           let e := Qceiling (inject_Z budget / inject_Z active) in
           mret (if e <? 1 then 1 else e)
       else mret 0);
  mret (if (0 <? cap) && ((e =? 0) || (cap <? e)) then cap else e).

Definition dispatchable (fallback : bool) (active : Z) (sum_w : Q) (t : string) (tin : Z)
    : script checkout_reply bool :=
  if fallback then mret ((cap =? 0) || (tin <? cap))
  else e ← eff_cap active sum_w t; mret ((e =? 0) || (tin <? e)).

Definition hand_out (t job : string) : script checkout_reply unit :=
  settle t;;
  let exp := (now + ttl)%Q in
  ZADD gl exp slot_id;;
  ZADD (lprefix +:+ t)%string exp slot_id;;
  HSET fwd slot_id job;;
  HSET fwd_meta slot_id t;;
  lua_return (Got t job).

Definition visit (active : Z) (sum_w : Q) (fallback : bool) (t : string)
    : script checkout_reply unit :=
  let lk := (lprefix +:+ t)%string in
  ZREMRANGEBYSCORE lk (upto now);;
  tin ← ZCARD lk;
  d ← dispatchable fallback active sum_w t tin;
  when d
    (job ← LPOP (rprefix +:+ t)%string;
     match job with
     | Some job => hand_out t job
     | None => ZREM ring t;; mret tt
     end).

Definition active_count (card : Z) : Z :=
  let active := if card <? 1 then 1 else card in
  if active <? ahint then ahint else active.

Definition sum_weights (active : Z) : Q :=
  if (weighted =? 1) && (0 <? budget) then
    if negb (Qle_bool shint 0) then shint
    else let s := (dw * inject_Z active)%Q in if Qle_bool s 0 then dw else s
  else 0%Q.

Definition checkout : script checkout_reply unit :=
  ZREMRANGEBYSCORE gl (upto now);;
  total ← ZCARD gl;
  when ((0 <? budget) && (budget <=? total)) (lua_return (Denied "budget"));;
  card ← ZCARD ring;
  let active := active_count card in
  let sum_w := sum_weights active in
  members ← ZRANGE_HEAD ring (Z.to_nat fetch_n);
  each (visit active sum_w false) members.*1;;
  each (visit active sum_w true) members.*1;;
  lua_return (Denied "none").
End checkout.

(** Lines 118-120. *)
Definition settle_time (ring rprefix : string) (t : string) : script checkout_reply unit :=
  n ← LLEN (rprefix +:+ t)%string;
  when (n =? 0) (ZREM ring t;; mret tt).

Definition CheckoutLuaTime (ring gl wh fwd fwd_meta : string) (budget cap : Z) (rprefix : string)
    (fetch_n : Z) (dw : Q) (weighted ahint : Z) (shint now ttl : Q) (slot_id lprefix : string)
    : script checkout_reply unit :=
  checkout ring gl wh fwd fwd_meta rprefix lprefix slot_id budget cap fetch_n weighted ahint
    dw shint now ttl (settle_time ring rprefix).

(** Lines 210-218: the tenant is charged 1/weight of virtual time. *)
Definition settle_count (ring vth wh rprefix : string) (dw : Q) (t : string)
    : script checkout_reply unit :=
  w ← HGET_weight wh dw t;
  score ← ZSCORE ring t;
  match score with
  | None => lua_error "attempt to perform arithmetic on a nil value"
  | Some score =>
      let vt := (score + 1 / w)%Q in
      HSET vth t (number_text vt);;
      n ← LLEN (rprefix +:+ t)%string;
      if n =? 0 then ZREM ring t;; mret tt else ZADD ring vt t
  end.

Definition CheckoutLuaCount (ring vth gl wh fwd fwd_meta : string) (budget cap : Z)
    (rprefix : string) (dw : Q) (fetch_n weighted ahint : Z) (shint now ttl : Q)
    (slot_id lprefix : string) : script checkout_reply unit :=
  checkout ring gl wh fwd fwd_meta rprefix lprefix slot_id budget cap fetch_n weighted ahint
    dw shint now ttl (settle_count ring vth wh rprefix dw).

(** [inc] is charged to the tenant, which moves in the ring if it has jobs. *)
Definition charge (vth ring rprefix t : string) (inc : Q) : script Z unit :=
  v ← HGET vth t;
  vt0 ← vtime_value v;
  let vt := (vt0 + inc)%Q in
  HSET vth t (number_text vt);;
  n ← LLEN (rprefix +:+ t)%string;
  when (0 <? n) (ZADD ring vt t).

Definition CompleteLuaTimeLease (K1 K2 K3 K4 t : string) (inc : Q) (rprefix slot : string)
    : script Z unit :=
  ZREM K1 slot;;
  held ← ZREM K2 slot;
  when held (charge K3 K4 rprefix t inc);;
  lua_return 1.

Definition CompleteLuaTimeLegacy (K1 K2 t : string) (inc : Q) (rprefix : string)
    : script Z unit :=
  charge K1 K2 rprefix t inc;;
  lua_return 1.

Definition CompleteLuaCountLease (K1 K2 slot : string) : script Z unit :=
  ZREM K1 slot;; ZREM K2 slot;; lua_return 1.

Definition ConfirmForwardLua (K1 K2 slot : string) : script Z unit :=
  here ← HEXISTS K1 slot;
  when here (HDEL K1 slot;; HDEL K2 slot;; lua_return 1);;
  lua_return 0.

(** Lines 279-285 and 290-296: the job goes back to the end of its list. *)
Definition put_back (K1 K2 K3 K4 slot tenant rprefix : string) : script Z unit :=
  job ← HGET K1 slot;
  match job with
  | None => lua_return 0
  | Some job =>
      HDEL K1 slot;;
      HDEL K2 slot;;
      RPUSH (rprefix +:+ tenant)%string job;;
      ZREM K3 slot;;
      ZREM K4 slot;; mret tt
  end.

Definition AbortForwardLuaTime (K1 K2 K3 K4 slot tenant rprefix : string) : script Z unit :=
  put_back K1 K2 K3 K4 slot tenant rprefix;;
  lua_return 1.

Definition AbortForwardLuaCount (K1 K2 K3 K4 K5 K6 K7 slot tenant rprefix : string) (dw : Q)
    : script Z unit :=
  put_back K1 K2 K3 K4 slot tenant rprefix;;
  w ← HGET_weight K7 dw tenant;
  v ← HGET K6 tenant;
  vt0 ← vtime_value v;
  let vt := (vt0 - 1 / w)%Q in
  HSET K6 tenant (number_text vt);;
  n ← LLEN (rprefix +:+ tenant)%string;
  when (0 <? n) (ZADD K5 vt tenant);;
  lua_return 1.

Definition RearmLeaseLua (K1 K2 slot : string) (expiry : Q) : script Z unit :=
  ZADD K1 expiry slot;; ZADD K2 expiry slot;; lua_return 1.

Definition ResetVtimeIfQuiescentLua (ring vth leases fwd : string) (now : Q) : script Z unit :=
  n ← ZCARD ring;
  when (0 <? n) (lua_return 0);;
  l ← ZCOUNT leases (after now);
  when (0 <? l) (lua_return 0);;
  f ← HLEN fwd;
  when (0 <? f) (lua_return 0);;
  DEL vth;;
  lua_return 1.

(** ** The scheduler of a lane *)

Record activeView := mkView { view_count : Z; view_sumWeight : Q }.

Record CheckoutResult := mkCheckout { Co_Tenant : string; Co_Payload : string; Co_Slot : string }.

Record StaleForward := mkStale { St_Slot : string; St_Tenant : string; St_Payload : string }.

Record Stats := mkStats {
  ActiveTenants : Z; InflightTotal : Z; ForwardingDepth : Z; Budget : Z; Window : Z
}.

(** The in-process state: two caches and when they were filled. *)
Record Scheduler := mkSched {
  sc_Lane : Lane; sc_Settings : Settings;
  sc_view : activeView; sc_viewAt : option Z;
  sc_weights : option (gmap string Q); sc_weightsAt : Z
}.

Definition NewScheduler (lane : Lane) (st : Settings) : Scheduler :=
  let st := mkSettings
    (if ReadyWindow st <=? 0 then 500 else ReadyWindow st)
    (GlobalConcurrency st) (MaxInflightPerTenant st) (LeaseTTL st)
    (if Qle_bool (DefaultWeight st) 0 then 1%Q else DefaultWeight st)
    (WeightedConcurrency st) (ActiveCountTTL st) (ActiveCountSource st)
    (ForwardingRecoveryGrace st) (SlotDedupTTL st) (WeightCacheTTL st)
    (ResetVtimeWhenIdle st) (VtimeIdleResetDebounce st) in
  mkSched lane st (mkView 0 0) None None 0.

Definition set_weights (s : Scheduler) (c : option (gmap string Q)) (at_ : Z) : Scheduler :=
  mkSched (sc_Lane s) (sc_Settings s) (sc_view s) (sc_viewAt s) c at_.

Definition set_view (s : Scheduler) (v : activeView) (at_ : Z) : Scheduler :=
  mkSched (sc_Lane s) (sc_Settings s) v (Some at_) (sc_weights s) (sc_weightsAt s).

(** The clock in float64 seconds. *)
Definition unix_seconds (now : Z) : Q := inject_Z now / nano.

(** An integer reply and its error, read as [n == 1, err]. *)
Definition is_one (r : result Z) : bool * error :=
  match r with Ok n => (n =? 1, None) | Bad e => (false, Some e) end.

Definition result_error {A} (r : result A) : error :=
  match r with Ok _ => None | Bad e => Some e end.

Definition Enqueue (s : Scheduler) (tenantID payload : string) : io (bool * error) :=
  match ValidateLane (sc_Lane s) with
  | Some e => mret (false, Some e)
  | None =>
      let l := sc_Lane s in
      r ← do (call (EnqueueLua (ringKey l) (vtimeKey l) tenantID payload
                      (ReadyWindow (sc_Settings s)) (readyPrefix l)));
      mret (is_one r)
  end.

Definition uniqueStrings (l : list string) : list string :=
  foldl (fun out x => if decide (x ∈ out) then out else out ++ [x]) [] l.

Definition WeightFor (s : Scheduler) (now : Z) (tenantID : string) : io (Scheduler * Q) :=
  let cached :=
    c ← sc_weights s;
    if now - sc_weightsAt s <? WeightCacheTTL (sc_Settings s) then c !! tenantID else None in
  match cached with
  | Some w => mret (s, w)
  | None =>
      r ← do (command (HGETALL (weightKey (sc_Lane s))));
      match r with
      | Bad _ => mret (s, DefaultWeight (sc_Settings s))
      | Ok all =>
          let cache := omap (fun v => let f := scan_float v in
                                      if Qle_bool f 0 then None else Some f) all in
          mret (set_weights s (Some cache) now,
                default (DefaultWeight (sc_Settings s)) (cache !! tenantID))
      end
  end.

Definition bustWeightCache (s : Scheduler) : Scheduler := set_weights s None (sc_weightsAt s).

Definition SetWeight (s : Scheduler) (tenantID : string) (weight : Q) : io (Scheduler * error) :=
  r ← do (command (HSET (weightKey (sc_Lane s)) tenantID (number_text weight)));
  mret (bustWeightCache s, result_error r).

(** Lines 511-517: the tenants of the lease keys that are not empty. *)
Fixpoint leased_tenants (prefix : string) (keys : list string) : io (list string) :=
  match keys with
  | [] => mret []
  | k :: keys =>
      r ← do (command (ZCARD k));
      rest ← leased_tenants prefix keys;
      mret (match r with
            | Ok n => if 0 <? n
                      then String.substring (String.length prefix)
                             (String.length k - String.length prefix) k :: rest
                      else rest
            | Bad _ => rest
            end)
  end.

Fixpoint total_weight (s : Scheduler) (now : Z) (ts : list string) (sum : Q)
    : io (Scheduler * Q) :=
  match ts with
  | [] => mret (s, sum)
  | t :: ts =>
      sw ← WeightFor s now t;
      total_weight sw.1 now ts (sum + sw.2)%Q
  end.

Definition computeRingLeaseView (s : Scheduler) (now : Z) : io (Scheduler * activeView) :=
  let prefix := leasePrefix (sc_Lane s) in
  r ← do (command (ZRANGE_ALL (ringKey (sc_Lane s))));
  match r with
  | Bad _ => mret (s, mkView 0 0)
  | Ok members =>
      k ← do (command (SCAN prefix));
      leased ← leased_tenants prefix (match k with Ok keys => keys | Bad _ => [] end);
      let uniq := uniqueStrings (members ++ leased) in
      sw ← (if weightedFlag (sc_Settings s) =? 1 then total_weight s now uniq 0
            else mret (s, 0%Q));
      mret (sw.1, mkView (Z.of_nat (length uniq)) sw.2)
  end.

(** [ingest] is the answer of the ingest-lag counter, if one is configured. *)
Definition computeActiveView (s : Scheduler) (now : Z) (ingest : option (result Z))
    : io (Scheduler * activeView) :=
  sv ← computeRingLeaseView s now;
  let '(s, ringView) := (sv : Scheduler * activeView) in
  match ingest with
  | Some (Ok n) =>
      if String.eqb (ActiveCountSource (sc_Settings s)) "ingest_lag" then
        let sum := view_sumWeight ringView in
        let dw := DefaultWeight (sc_Settings s) in
        let dw := if Qle_bool dw 0 then 1%Q else dw in
        let sum := if (weightedFlag (sc_Settings s) =? 1) && Qle_bool sum 0 && (0 <? n)
                   then (dw * inject_Z n)%Q else sum in
        mret (s, mkView n sum)
      else mret (s, ringView)
  | _ => mret (s, ringView)
  end.

Definition activeViewCached (s : Scheduler) (now : Z) (ingest : option (result Z))
    : io (Scheduler * activeView) :=
  let fresh := match sc_viewAt s with
               | Some at_ => now - at_ <? ActiveCountTTL (sc_Settings s)
               | None => false
               end in
  if fresh then mret (s, sc_view s)
  else
    sv ← computeActiveView s now ingest;
    mret (set_view sv.1 sv.2 now, sv.2).

(** [rtime] is the server's TIME, [slotID] the new uuid. *)
Definition checkout_script (s : Scheduler) (view : activeView) (rtime : Q) (slotID : string)
    : script checkout_reply unit :=
  let l := sc_Lane s in
  let st := sc_Settings s in
  if String.eqb l LaneTime then
    CheckoutLuaTime (ringKey l) (leasesKey l) (weightKey l) (forwardingKey l)
      (forwardingMetaKey l) (GlobalConcurrency st) (MaxInflightPerTenant st) (readyPrefix l)
      (fetchN st) (DefaultWeight st) (weightedFlag st) (view_count view) (view_sumWeight view)
      rtime (EffectiveLeaseTTL st) slotID (leasePrefix l)
  else
    CheckoutLuaCount (ringKey l) (vtimeKey l) (leasesKey l) (weightKey l) (forwardingKey l)
      (forwardingMetaKey l) (GlobalConcurrency st) (MaxInflightPerTenant st) (readyPrefix l)
      (DefaultWeight st) (fetchN st) (weightedFlag st) (view_count view) (view_sumWeight view)
      rtime (EffectiveLeaseTTL st) slotID (leasePrefix l).

Definition Checkout (s : Scheduler) (now : Z) (ingest : option (result Z)) (rtime : Q)
    (slotID : string) : io (Scheduler * (option CheckoutResult * error)) :=
  match ValidateLane (sc_Lane s) with
  | Some e => mret (s, (None, Some e))
  | None =>
      sv ← activeViewCached s now ingest;
      r ← do (call (checkout_script s sv.2 rtime slotID));
      mret (sv.1, match r with
                  | Bad e => (None, Some e)
                  | Ok (Denied _) => (None, None)
                  | Ok (Got tenant payload) => (Some (mkCheckout tenant payload slotID), None)
                  end)
  end.

Definition ConfirmForward (s : Scheduler) (slotID : string) : io (bool * error) :=
  if String.eqb slotID "" then mret (false, None)
  else
    r ← do (call (ConfirmForwardLua (forwardingKey (sc_Lane s)) (forwardingMetaKey (sc_Lane s))
                    slotID));
    mret (is_one r).

Definition abort_script (s : Scheduler) (slotID tenantID : string) : script Z unit :=
  let l := sc_Lane s in
  if String.eqb l LaneTime then
    AbortForwardLuaTime (forwardingKey l) (forwardingMetaKey l) (leasesKey l)
      (TenantLeaseKey l tenantID) slotID tenantID (readyPrefix l)
  else
    AbortForwardLuaCount (forwardingKey l) (forwardingMetaKey l) (leasesKey l)
      (TenantLeaseKey l tenantID) (ringKey l) (vtimeKey l) (weightKey l)
      slotID tenantID (readyPrefix l) (DefaultWeight (sc_Settings s)).

Definition AbortForward (s : Scheduler) (slotID tenantID : string) : io (bool * error) :=
  if String.eqb slotID "" || String.eqb tenantID "" then mret (false, None)
  else r ← do (call (abort_script s slotID tenantID)); mret (is_one r).

Definition CompleteSlot (s : Scheduler) (now : Z) (tenantID slotID : string) (durationSec : Q)
    : io (Scheduler * error) :=
  let l := sc_Lane s in
  if String.eqb slotID "" && String.eqb l LaneThroughput then mret (s, None)
  else if String.eqb l LaneThroughput then
    r ← do (call (CompleteLuaCountLease (leasesKey l) (TenantLeaseKey l tenantID) slotID));
    mret (s, result_error r)
  else
    sw ← WeightFor s now tenantID;
    let inc := if Qle_bool sw.2 0 then durationSec else (durationSec / sw.2)%Q in
    r ← do (call (if String.eqb slotID "" then
                    CompleteLuaTimeLegacy (vtimeKey l) (ringKey l) tenantID inc (readyPrefix l)
                  else
                    CompleteLuaTimeLease (leasesKey l) (TenantLeaseKey l tenantID) (vtimeKey l)
                      (ringKey l) tenantID inc (readyPrefix l) slotID));
    mret (sw.1, result_error r).

Definition RenewLease (s : Scheduler) (now : Z) (tenantID slotID : string) : io error :=
  if String.eqb slotID "" then mret None
  else
    let expiry := (unix_seconds now + EffectiveLeaseTTL (sc_Settings s))%Q in
    rs ← pipeline [command (ZADD_XX (leasesKey (sc_Lane s)) expiry slotID);
                   command (ZADD_XX (TenantLeaseKey (sc_Lane s) tenantID) expiry slotID)];
    mret (first_error rs).

Definition rearmLease (s : Scheduler) (now : Z) (tenantID slotID : string) : io error :=
  let expiry := (unix_seconds now + EffectiveLeaseTTL (sc_Settings s))%Q in
  r ← do (call (RearmLeaseLua (leasesKey (sc_Lane s)) (TenantLeaseKey (sc_Lane s) tenantID)
                  slotID expiry));
  mret (result_error r).

Definition SlotLeaseActive (s : Scheduler) (now : Z) (slotID : string) : io (bool * Q * error) :=
  if String.eqb slotID "" then mret (false, 0%Q, None)
  else
    r ← do (command (ZSCORE (leasesKey (sc_Lane s)) slotID));
    mret (match r with
          | Ok None => (false, 0%Q, None)
          | Bad e => (false, 0%Q, Some e)
          | Ok (Some score) => (negb (Qle_bool score (unix_seconds now)), score, None)
          end).

Definition ClaimSlotExecution (s : Scheduler) (slotID : string) : io (bool * error) :=
  if String.eqb slotID "" then mret (true, None)
  else
    r ← do (command (SET_NX_EX (SlotDedupKey (sc_Lane s) slotID) "1"
                       (slotDedupTTL (sc_Settings s))));
    mret (match r with Bad e => (true, Some e) | Ok ok => (ok, None) end).

Definition ClearSlotExecution (s : option Scheduler) (slotID : string) : io error :=
  match s with
  | None => mret None
  | Some s =>
      if String.eqb slotID "" then mret None
      else r ← do (command (DEL (SlotDedupKey (sc_Lane s) slotID))); mret (result_error r)
  end.

(** ** Recovery *)

(** A job map's tenant: tenant_id, then batch_id, then job_id. *)
Definition tenant_of (m : object) (fallback : string) : string :=
  let t := str_field m "tenant_id" in
  if negb (String.eqb t "") then t
  else
    let b := str_field m "batch_id" in
    if negb (String.eqb b "") then b
    else
      let j := str_field m "job_id" in
      if negb (String.eqb j "") then j else fallback.

Definition tenantFromPayload (raw : string) : string :=
  match unmarshal raw with
  | Bad _ => ""
  | Ok m => tenant_of (fields m) ""
  end.

Definition TenantFromMessage (m : object) : string := tenant_of m "default".

(** The marked payload and its Kafka key, or an error; a null payload makes the
    write to the nil map panic. *)
Definition markSlot (raw tenantID slotID : string) (lane : Lane) : outcome (result (string * string)) :=
  match unmarshal raw with
  | Bad e => Done (Bad e)
  | Ok None => Panic
  | Ok (Some m) =>
      let m := <["_fair_slot_id" := JStr slotID]>
              (<["_fair_type" := JStr lane]>
              (<["_fair_slot" := JBool true]> m)) in
      let m := match m !! "tenant_id" with
               | Some _ => m
               | None => <["tenant_id" := JStr tenantID]> m
               end in
      Done (match marshal m with
            | Bad e => Bad e
            | Ok out => Ok (out, str_field m "job_id")
            end)
  end.

(** Lines 268-299: one entry at a time, stopping at the first Redis error of the
    lease lookup. *)
Fixpoint stale_among (s : Scheduler) (now : Q) (entries : list (string * string))
    (out : list StaleForward) : io (list StaleForward * error) :=
  match entries with
  | [] => mret (out, None)
  | (slotID, payload) :: entries =>
      r ← do (command (ZSCORE (leasesKey (sc_Lane s)) slotID));
      match r with
      | Bad e => mret (out, Some e)
      | Ok lease =>
          let kept := match lease with
                      | Some exp => negb (Qle_bool exp now)
                                    || negb (Qle_bool (ForwardingRecoveryGrace (sc_Settings s))
                                               (now - exp))
                      | None => false
                      end in
          if kept then stale_among s now entries out
          else
            t ← do (command (HGET (forwardingMetaKey (sc_Lane s)) slotID));
            let tenant := match t with Ok (Some t) => t | _ => "" end in
            let tenant := if String.eqb tenant "" then tenantFromPayload payload else tenant in
            stale_among s now entries
              (if String.eqb tenant "" then out else out ++ [mkStale slotID tenant payload])
      end
  end.

Definition ListStaleForwards (s : Scheduler) (now : Z) : io (list StaleForward * error) :=
  r ← do (command (HGETALL (forwardingKey (sc_Lane s))));
  match r with
  | Bad e => mret ([], Some e)
  | Ok entries => stale_among s (unix_seconds now) (map_to_list entries) []
  end.

Definition reclaimClaimTTL : Z := 30.

Definition ReclaimStaleForward (s : Scheduler) (now : Z) (entry : StaleForward)
    (produce : string -> string -> kio error) : kio (outcome error) :=
  r ← redis_io (do (command (SET_NX_EX (reclaimClaimKey (sc_Lane s) (St_Slot entry)) "1"
                               reclaimClaimTTL)));
  match r with
  | Bad e => mret (Done (Some e))
  | Ok false => mret (Done None)
  | Ok true =>
      match markSlot (St_Payload entry) (St_Tenant entry) (St_Slot entry) (sc_Lane s) with
      | Panic => mret Panic
      | Done (Bad e) => mret (Done (Some e))
      | Done (Ok (marked, key)) =>
          err ← produce marked key;
          match err with
          | Some e =>
              _ ← redis_io (AbortForward s (St_Slot entry) (St_Tenant entry));
              mret (Done (Some e))
          | None =>
              c ← redis_io (ConfirmForward s (St_Slot entry));
              match c.2 with
              | Some e => mret (Done (Some e))
              | None =>
                  e ← redis_io (rearmLease s now (St_Tenant entry) (St_Slot entry));
                  mret (Done e)
              end
          end
      end
  end.

(** Errors of the per-tenant sweeps are ignored. *)
Fixpoint sweep_keys (keys : list string) (now : Q) : io unit :=
  match keys with
  | [] => mret tt
  | k :: keys => _ ← do (command (ZREMRANGEBYSCORE k (upto now))); sweep_keys keys now
  end.

(** The number swept is what ZREMRANGEBYSCORE would report: the size lost. *)
Definition ZREMRANGEBYSCORE_n (k : string) (r : zrange) : script Z Z :=
  before ← ZCARD k;
  ZREMRANGEBYSCORE k r;;
  rest ← ZCARD k;
  mret (before - rest).

Definition ReclaimExpiredLeases (s : Scheduler) (now : Z) : io (Z * error) :=
  let t := unix_seconds now in
  r ← do (command (SET_NX_EX (reclaimLockKey (sc_Lane s)) "1" 25));
  match r with
  | Bad e => mret (0, Some e)
  | Ok false => mret (0, None)
  | Ok true =>
      n ← do (command (ZREMRANGEBYSCORE_n (leasesKey (sc_Lane s)) (upto t)));
      match n with
      | Bad e => mret (0, Some e)
      | Ok n =>
          k ← do (command (SCAN (leasePrefix (sc_Lane s))));
          match k with
          | Bad e => mret (n, Some e)
          | Ok keys => sweep_keys keys t;; mret (n, None)
          end
      end
  end.

(** ** Inspection and maintenance *)

Definition ReadyDepth (s : Scheduler) (tenantID : string) : io (result Z) :=
  do (command (LLEN (ReadyKey (sc_Lane s) tenantID))).

Definition RingSize (s : Scheduler) : io (result Z) :=
  do (command (ZCARD (ringKey (sc_Lane s)))).

Definition stats (s : Scheduler) (now : Z) : io (Stats * error) :=
  let l := sc_Lane s in
  let none := mkStats 0 0 0 0 0 in
  rs ← pipeline [command (ZCARD (ringKey l));
                 command (ZCOUNT (leasesKey l) (after (unix_seconds now)));
                 command (HLEN (forwardingKey l))];
  mret (match first_error rs with
        | Some e => (none, Some e)
        | None =>
            match rs with
            | [Ok a; Ok i; Ok f] =>
                (mkStats a i f (GlobalConcurrency (sc_Settings s)) (ReadyWindow (sc_Settings s)),
                 None)
            | _ => (none, None)
            end
        end).

Definition ResetVtimeIfQuiescent (s : Scheduler) (now : Z) : io (bool * error) :=
  match ValidateLane (sc_Lane s) with
  | Some e => mret (false, Some e)
  | None =>
      let l := sc_Lane s in
      r ← do (call (ResetVtimeIfQuiescentLua (ringKey l) (vtimeKey l) (leasesKey l)
                      (forwardingKey l) (unix_seconds now)));
      mret (is_one r)
  end.

Definition IngestPending (ingest : option (result Z)) : bool * error :=
  match ingest with
  | None => (false, None)
  | Some (Bad e) => (false, Some e)
  | Some (Ok n) => (0 <? n, None)
  end.

Definition Vtime (s : Scheduler) (tenantID : string) : io (Q * error) :=
  r ← do (command (HGET (vtimeKey (sc_Lane s)) tenantID));
  mret (match r with
        | Bad e => (0%Q, Some e)
        | Ok None => (0%Q, None)
        | Ok (Some v) => match parse_float v with Ok q => (q, None) | Bad e => (0%Q, Some e) end
        end).

(** DEL of many keys. *)
Definition DEL_all {R} (keys : list string) : script R unit := each DEL keys.

Definition ResetLane (s : Scheduler) : io (Scheduler * error) :=
  let s := bustWeightCache s in
  r ← do (command (SCAN (ns (sc_Lane s))));
  match r with
  | Bad e => mret (s, Some e)
  | Ok [] => mret (s, None)
  | Ok keys => d ← do (command (DEL_all keys)); mret (s, result_error d)
  end.
End scheduler.
