(* ===== verification/Concrete.v ===== *)
(** Concrete instances of the interfaces of the model.

    The theorems hold for any text of numbers, JSON and times that satisfies the
    stated round trips.  These instances satisfy them, so that the theorems can
    be applied to concrete inputs: each value is written as one decimal number. *)
From S2P Require Import Prelude Redis Client Protocol Fairness.

(** ** Numbers *)

(** Numerator and denominator in one decimal number; it has no parameter and
    satisfies the law, so that the theorems can be applied to concrete lanes. *)
Definition q_text (q : Q) : string := itoa (Z.pos (encode (Qnum q, Qden q))).

Definition text_q (s : string) : option Q :=
  match atoi s with
  | Some (Z.pos p) => (λ '(n, d), Qmake n d) <$> decode p
  | _ => None
  end.

#[export] Instance pair_text : NumText := {|
  number_text := q_text;
  tonumber := text_q;
  scan_float s := default 0%Q (text_q s);
  parse_float s := match text_q s with Some q => Ok q | None => Bad "syntax" end
|}.

#[export] Instance pair_laws : NumLaws.
Proof.
  split. intros q. change (text_q (q_text q) = Some q). unfold text_q, q_text. rewrite atoi_itoa. rewrite decode_encode.
  by destruct q.
Qed.

(** ** JSON *)

#[export] Instance Q_eq_dec : EqDecision Q.
Proof. solve_decision. Defined.

#[export] Instance Q_countable : Countable Q.
Proof. refine (inj_countable' (λ q, (Qnum q, Qden q)) (λ p, Qmake p.1 p.2) _). by intros []. Defined.

#[export] Instance json_eq_dec : EqDecision json.
Proof. solve_decision. Defined.

Definition json_sum (j : json) : string + (bool + (Q + string)) :=
  match j with
  | JStr s => inl s
  | JBool b => inr (inl b)
  | JNum q => inr (inr (inl q))
  | JOther t => inr (inr (inr t))
  end.

Definition sum_json (x : string + (bool + (Q + string))) : json :=
  match x with
  | inl s => JStr s
  | inr (inl b) => JBool b
  | inr (inr (inl q)) => JNum q
  | inr (inr (inr t)) => JOther t
  end.

#[export] Instance json_countable : Countable json.
Proof. refine (inj_countable' json_sum sum_json _). by intros []. Defined.

Definition object_text (m : object) : string := itoa (Z.pos (encode m)).

Definition text_object (s : string) : result (option object) :=
  if String.eqb s "null" then Ok None
  else match atoi s with
       | Some (Z.pos p) =>
           match decode p : option object with Some m => Ok (Some m) | None => Bad "syntax" end
       | _ => Bad "syntax"
       end.

#[export] Instance number_json : Json := {|
  unmarshal := text_object;
  marshal m := Ok (object_text m);
  float_numbers t := t
|}.

Lemma itoa_null (z : Z) : itoa z ≠ "null"%string.
Proof. intros E. assert (atoi (itoa z) = atoi "null") as E' by by rewrite E. by rewrite atoi_itoa in E'. Qed.

#[export] Instance number_json_laws : JsonLaws.
Proof.
  split; [by eexists |]. intros m s [= <-]. change (text_object (object_text m) = Ok (Some m)).
  unfold text_object, object_text. destruct (String.eqb_spec (itoa (Z.pos (encode m))) "null") as [E|_].
  - by apply itoa_null in E.
  - by rewrite atoi_itoa, decode_encode.
Qed.

(** ** Times *)

#[export] Instance nanos_text : TimeText := {|
  rfc3339_parse := atoi; rfc3339_format := itoa; minute_format := itoa
|}.
