(* ===== verification/FairnessSpec.v ===== *)
(** What the scripts of the fair scheduler do, without Redis.

    [lane_state] is the state of a lane; [rep l s a] says that the keys of lane
    [l] in the keyspace [s] hold [a].  Each script, run from a keyspace that
    holds a lane, returns and leaves a keyspace that holds the lane described
    here. *)
From S2P Require Import Prelude Redis Client Kafka Protocol Fairness.
From Stdlib Require Import Qround.

Record lane_state := LaneState {
  ring : gmap string Q;                 (* tenant, virtual time *)
  ready : string -> list string;        (* waiting jobs of a tenant *)
  vtime : gmap string Q;
  weights : gmap string string;
  leases : gmap string Q;               (* slot, expiry *)
  tlease : string -> gmap string Q;     (* the leases of a tenant *)
  fwd : gmap string string;             (* slot, job *)
  meta : gmap string string             (* slot, tenant *)
}.

(** Pointwise update of a function on tenants. *)
Definition upd {A} (t : string) (x : A) (f : string -> A) (t' : string) : A :=
  if decide (t = t') then x else f t'.

Lemma upd_eq {A} t (x : A) f : upd t x f t = x.
Proof. unfold upd. by rewrite decide_True. Qed.

Lemma upd_ne {A} t t' (x : A) f : t ≠ t' → upd t x f t' = f t'.
Proof. intros. unfold upd. by rewrite decide_False. Qed.

Definition set_ring x a := LaneState x (ready a) (vtime a) (weights a) (leases a) (tlease a) (fwd a) (meta a).
Definition set_ready t x a := LaneState (ring a) (upd t x (ready a)) (vtime a) (weights a) (leases a) (tlease a) (fwd a) (meta a).
Definition set_vtime x a := LaneState (ring a) (ready a) x (weights a) (leases a) (tlease a) (fwd a) (meta a).
Definition set_wts x a := LaneState (ring a) (ready a) (vtime a) x (leases a) (tlease a) (fwd a) (meta a).
Definition set_leases x a := LaneState (ring a) (ready a) (vtime a) (weights a) x (tlease a) (fwd a) (meta a).
Definition set_tlease t x a := LaneState (ring a) (ready a) (vtime a) (weights a) (leases a) (upd t x (tlease a)) (fwd a) (meta a).
Definition set_fwd x a := LaneState (ring a) (ready a) (vtime a) (weights a) (leases a) (tlease a) x (meta a).
Definition set_meta x a := LaneState (ring a) (ready a) (vtime a) (weights a) (leases a) (tlease a) (fwd a) x.

(** ** Keys of a lane *)

Lemma append_inj (p a b : string) : (p +:+ a = p +:+ b)%string → a = b.
Proof. induction p as [|c p IH]; cbn; [done |]. intros [= E]. auto. Qed.

Lemma append_assoc (a b c : string) : ((a +:+ b) +:+ c = a +:+ (b +:+ c))%string.
Proof.
  induction a as [|x a IH]; [done |].
  change (String x ((a +:+ b) +:+ c) = String x (a +:+ (b +:+ c)))%string. by rewrite IH.
Qed.

Lemma ns_ne (l : Lane) (a b : string) : a ≠ b → (ns l +:+ a)%string ≠ (ns l +:+ b)%string.
Proof. intros Hab E. apply Hab. by apply append_inj in E. Qed.

Lemma ReadyKey_ne l t t' : t ≠ t' → ReadyKey l t ≠ ReadyKey l t'.
Proof. intros Ht E. apply Ht. by apply append_inj in E. Qed.

Lemma TenantLeaseKey_ne l t t' : t ≠ t' → TenantLeaseKey l t ≠ TenantLeaseKey l t'.
Proof. intros Ht E. apply Ht. by apply append_inj in E. Qed.

Ltac lane_ne :=
  unfold ringKey, vtimeKey, weightKey, ReadyKey, readyPrefix, leasesKey, TenantLeaseKey,
    leasePrefix, forwardingKey, forwardingMetaKey, SlotDedupKey, slotDedupPrefix,
    reclaimLockKey, reclaimClaimKey, reclaimClaimPrefix;
  rewrite ?append_assoc; apply ns_ne; intros ?; discriminate.

#[export] Hint Extern 0 (ReadyKey _ _ ≠ ReadyKey _ _) => apply ReadyKey_ne; assumption : keys.
#[export] Hint Extern 0 (TenantLeaseKey _ _ ≠ TenantLeaseKey _ _) =>
  apply TenantLeaseKey_ne; assumption : keys.
#[export] Hint Extern 0 (_ ≠ _) => lane_ne : keys.

Section rep.
Context `{NumText}.

Record rep (l : Lane) (s : redis) (a : lane_state) : Prop := {
  rep_ring : get_zset s (ringKey l) = Some (ring a);
  rep_ready : ∀ t, get_list s (ReadyKey l t) = Some (ready a t);
  rep_vtime : get_hash s (vtimeKey l) = Some (number_text <$> vtime a);
  rep_weights : get_hash s (weightKey l) = Some (weights a);
  rep_leases : get_zset s (leasesKey l) = Some (leases a);
  rep_tlease : ∀ t, get_zset s (TenantLeaseKey l t) = Some (tlease a t);
  rep_fwd : get_hash s (forwardingKey l) = Some (fwd a);
  rep_meta : get_hash s (forwardingMetaKey l) = Some (meta a)
}.

(** ** Writes to one key of the lane *)

Section writes.
Context (l : Lane) (s : redis) (a : lane_state) (R : rep l s a).

Ltac rewrite_rep := destruct R; split; cbn [ring ready vtime weights leases tlease fwd meta
  set_ring set_ready set_vtime set_wts set_leases set_tlease set_fwd set_meta];
  try (intros t'); reads; auto.

Lemma rep_put_ring z : rep l (put_zset (ringKey l) z s) (set_ring z a).
Proof. rewrite_rep. Qed.
Lemma rep_put_leases z : rep l (put_zset (leasesKey l) z s) (set_leases z a).
Proof. rewrite_rep. Qed.
Lemma rep_put_fwd h : rep l (put_hash (forwardingKey l) h s) (set_fwd h a).
Proof. rewrite_rep. Qed.
Lemma rep_put_meta h : rep l (put_hash (forwardingMetaKey l) h s) (set_meta h a).
Proof. rewrite_rep. Qed.
Lemma rep_put_vtime h : rep l (put_hash (vtimeKey l) (number_text <$> h) s) (set_vtime h a).
Proof. rewrite_rep. Qed.

Lemma rep_put_weights h : rep l (put_hash (weightKey l) h s) (set_wts h a).
Proof. rewrite_rep. Qed.

Lemma rep_put_ready t x : rep l (put_list (ReadyKey l t) x s) (set_ready t x a).
Proof.
  rewrite_rep. destruct (decide (t = t')) as [<-|Ht].
  - rewrite upd_eq. by reads.
  - rewrite upd_ne by done. by reads.
Qed.

Lemma rep_put_tlease t x : rep l (put_zset (TenantLeaseKey l t) x s) (set_tlease t x a).
Proof.
  rewrite_rep. destruct (decide (t = t')) as [<-|Ht].
  - rewrite upd_eq. by reads.
  - rewrite upd_ne by done. by reads.
Qed.

Lemma rep_del_vtime : rep l (del_key (vtimeKey l) s) (set_vtime ∅ a).
Proof.
  rewrite_rep. rewrite fmap_empty. unfold get_hash. cbn. by rewrite lookup_delete_eq.
Qed.

(** Writes to a key that is not one of the lane's. *)
Lemma rep_other k v :
  k ≠ ringKey l → (∀ t, k ≠ ReadyKey l t) → k ≠ vtimeKey l → k ≠ weightKey l →
  k ≠ leasesKey l → (∀ t, k ≠ TenantLeaseKey l t) → k ≠ forwardingKey l →
  k ≠ forwardingMetaKey l → rep l (put k v s) a.
Proof.
  intros. destruct R. split; try (intros t'); reads; auto.
Qed.
End writes.
End rep.

(** [fstep] runs one command on a key of the lane and replaces the written
    keyspace by a variable that represents the updated lane. *)
Ltac fknown :=
  match goal with
  | R : rep ?l ?s ?a |- get_zset ?s (ringKey _) = _ => exact (rep_ring _ _ _ R)
  | R : rep ?l ?s ?a |- get_list ?s (ReadyKey _ ?t) = _ => exact (rep_ready _ _ _ R t)
  | R : rep ?l ?s ?a |- get_hash ?s (vtimeKey _) = _ => exact (rep_vtime _ _ _ R)
  | R : rep ?l ?s ?a |- get_hash ?s (weightKey _) = _ => exact (rep_weights _ _ _ R)
  | R : rep ?l ?s ?a |- get_zset ?s (leasesKey _) = _ => exact (rep_leases _ _ _ R)
  | R : rep ?l ?s ?a |- get_zset ?s (TenantLeaseKey _ ?t) = _ => exact (rep_tlease _ _ _ R t)
  | R : rep ?l ?s ?a |- get_hash ?s (forwardingKey _) = _ => exact (rep_fwd _ _ _ R)
  | R : rep ?l ?s ?a |- get_hash ?s (forwardingMetaKey _) = _ => exact (rep_meta _ _ _ R)
  end.

Ltac absorb_with R' :=
  let N := fresh "R" in pose proof R' as N;
  match type of N with rep ?l ?x _ => generalize dependent x end;
  match goal with R : rep _ _ _ |- _ => clear R end;
  let s' := fresh "s" in intros s' N.

Ltac absorb :=
  match goal with
  | R : rep ?l ?s ?a |- context [put_zset (ringKey ?l) ?z ?s] => absorb_with (rep_put_ring l s a R z)
  | R : rep ?l ?s ?a |- context [put_zset (leasesKey ?l) ?z ?s] => absorb_with (rep_put_leases l s a R z)
  | R : rep ?l ?s ?a |- context [put_zset (TenantLeaseKey ?l ?t) ?z ?s] => absorb_with (rep_put_tlease l s a R t z)
  | R : rep ?l ?s ?a |- context [put_hash (forwardingKey ?l) ?z ?s] => absorb_with (rep_put_fwd l s a R z)
  | R : rep ?l ?s ?a |- context [put_hash (forwardingMetaKey ?l) ?z ?s] => absorb_with (rep_put_meta l s a R z)
  | R : rep ?l ?s ?a |- context [put_hash (vtimeKey ?l) (number_text <$> ?z) ?s] => absorb_with (rep_put_vtime l s a R z)
  | R : rep ?l ?s ?a |- context [put_hash (weightKey ?l) ?z ?s] => absorb_with (rep_put_weights l s a R z)
  | R : rep ?l ?s ?a |- context [put_list (ReadyKey ?l ?t) ?z ?s] => absorb_with (rep_put_ready l s a R t z)
  | R : rep ?l ?s ?a |- context [del_key (vtimeKey ?l) ?s] => absorb_with (rep_del_vtime l s a R)
  end.

(** The commands of the scripts are written on [prefix +:+ tenant]. *)
Ltac fold_keys :=
  repeat match goal with
  | |- context [(readyPrefix ?l +:+ ?t)%string] => change (readyPrefix l +:+ t)%string with (ReadyKey l t)
  | |- context [(leasePrefix ?l +:+ ?t)%string] => change (leasePrefix l +:+ t)%string with (TenantLeaseKey l t)
  end.

Ltac fstep :=
  fold_keys;
  lazymatch goal with
  | |- wp (mbind _ _) _ _ => apply wp_bind
  | |- wp (mret _) _ _ => apply wp_ret
  | |- wp (lua_return _) _ _ => apply wp_return
  | |- wp (HGET _ _) _ _ => eapply wp_HGET; [fknown |]
  | |- wp (HSET (vtimeKey _) _ _) _ _ =>
      eapply wp_HSET; [fknown |]; rewrite <- fmap_insert; absorb
  | |- wp (HSET _ _ _) _ _ => eapply wp_HSET; [fknown |]; absorb
  | |- wp (HDEL _ _) _ _ => eapply wp_HDEL; [fknown |]; absorb
  | |- wp (HEXISTS _ _) _ _ => eapply wp_HEXISTS; [fknown |]
  | |- wp (HLEN _) _ _ => eapply wp_HLEN; [fknown |]
  | |- wp (ZREM _ _) _ _ => eapply wp_ZREM; [fknown |]; absorb
  | |- wp (ZADD _ _ _) _ _ => eapply wp_ZADD; [fknown |]; absorb
  | |- wp (ZSCORE _ _) _ _ => eapply wp_ZSCORE; [fknown |]
  | |- wp (ZCARD _) _ _ => eapply wp_ZCARD; [fknown |]
  | |- wp (ZCOUNT _ _) _ _ => eapply wp_ZCOUNT; [fknown |]
  | |- wp (ZRANGE_HEAD _ _) _ _ => eapply wp_ZRANGE_HEAD; [fknown |]
  | |- wp (ZREMRANGEBYSCORE _ _) _ _ => eapply wp_ZREMRANGEBYSCORE; [fknown |]; absorb
  | |- wp (LLEN _) _ _ => eapply wp_LLEN; [fknown |]
  | |- wp (RPUSH _ _) _ _ => eapply wp_RPUSH; [fknown |]; absorb
  | |- wp (DEL _) _ _ => apply wp_DEL; absorb
  end; cbv beta iota.

Ltac fsteps := repeat fstep.

(** ** The specification of each script *)

Definition prune (now : Q) (z : gmap string Q) : gmap string Q :=
  filter (λ p, in_zrange (upto now) p.2 = false) z.

(** The virtual time a tenant joins the ring with: its own, or that of the
    head of the ring when that is later. *)
Definition join_vt (a : lane_state) (t : string) : Q :=
  let vt := default 0%Q (vtime a !! t) in
  match zset_sorted (ring a) with
  | (_, m) :: _ => if Qle_bool m vt then vt else m
  | [] => vt
  end.

Definition joined (t : string) (a : lane_state) : lane_state :=
  match ring a !! t with
  | Some _ => a
  | None => set_vtime (<[t := join_vt a t]> (vtime a)) (set_ring (<[t := join_vt a t]> (ring a)) a)
  end.

Definition full (window : Z) (t : string) (a : lane_state) : bool :=
  (0 <? window) && (window <=? Z.of_nat (length (ready a t))).

Definition enqueued (t payload : string) (a : lane_state) : lane_state :=
  let a' := joined t a in set_ready t (ready a' t ++ [payload]) a'.

Definition confirmed (slot : string) (a : lane_state) : lane_state :=
  set_meta (delete slot (meta a)) (set_fwd (delete slot (fwd a)) a).

Definition returned (slot t job : string) (a : lane_state) : lane_state :=
  set_tlease t (delete slot (tlease a t))
    (set_leases (delete slot (leases a))
      (set_ready t (ready a t ++ [job]) (confirmed slot a))).

Section scripts.
Context `{NumLaws} (l : Lane).

Definition weight (dw : Q) (a : lane_state) (t : string) : Q := weight_value dw (weights a !! t).

Lemma vtime_read {R} a t s (Q : redis → flow R QArith_base.Q → Prop) :
  Q s (Next (default 0%Q (vtime a !! t))) →
  wp (vtime_value ((number_text <$> vtime a) !! t)) s Q.
Proof.
  intros HQ. rewrite lookup_fmap. destruct (vtime a !! t) as [q|]; cbn; [| done].
  by rewrite tonumber_text.
Qed.

Lemma EnqueueLua_spec s a t p window :
  rep l s a →
  wp (EnqueueLua (ringKey l) (vtimeKey l) t p window (readyPrefix l)) s
    (returns (λ s' r, if full window t a then rep l s' a ∧ r = 0
                      else rep l s' (enqueued t p a) ∧ r = 1)).
Proof.
  intros R. unfold EnqueueLua. apply wp_bind.
  assert (wp (if 0 <? window then n ← LLEN (readyPrefix l +:+ t)%string; mret (window <=? n)
              else mret false) s (λ s' (f : flow Z bool), s' = s ∧ f = Next (full window t a))) as Hf.
  { unfold full. destruct (0 <? window); [| done]. by fsteps. }
  eapply wp_mono; [| exact Hf]. intros s' f [-> ->]. cbv beta iota. clear Hf.
  apply wp_bind. apply wp_when; intros Ef; rewrite Ef; [by fstep |].
  fstep. fstep. apply wp_bind. unfold enqueued, joined.
  destruct (ring a !! t) as [q|] eqn:Eq.
  - fsteps. done.
  - do 3 fstep. apply vtime_read. do 2 fstep.
    assert (match take 1 (zset_sorted (ring a)) with
            | [] => default 0%Q (vtime a !! t)
            | (_, m) :: _ => if Qle_bool m (default 0%Q (vtime a !! t))
                             then default 0%Q (vtime a !! t) else m
            end = join_vt a t) as ->.
    { unfold join_vt. by destruct (zset_sorted (ring a)) as [|[? ?] ?]. }
    fsteps. done.
Qed.

Lemma ConfirmForwardLua_spec s a slot :
  rep l s a →
  wp (ConfirmForwardLua (forwardingKey l) (forwardingMetaKey l) slot) s
    (returns (λ s' r, match fwd a !! slot with
                      | Some _ => rep l s' (confirmed slot a) ∧ r = 1
                      | None => rep l s' a ∧ r = 0
                      end)).
Proof.
  intros R. unfold ConfirmForwardLua. fsteps. apply wp_when; intros Eb.
  - apply bool_decide_eq_true in Eb as [job ->]. by fsteps.
  - apply bool_decide_eq_false in Eb. apply eq_None_not_Some in Eb. rewrite Eb. by fsteps.
Qed.

Lemma put_back_spec s a slot t (Q : redis → flow Z unit → Prop) :
  rep l s a →
  match fwd a !! slot with
  | Some job => ∀ s', rep l s' (returned slot t job a) → Q s' (Next tt)
  | None => Q s (Return 0)
  end →
  wp (put_back (forwardingKey l) (forwardingMetaKey l) (leasesKey l) (TenantLeaseKey l t)
        slot t (readyPrefix l)) s Q.
Proof.
  intros R HQ. unfold put_back. fsteps. destruct (fwd a !! slot) as [job|].
  - fsteps. by apply HQ.
  - by fsteps.
Qed.

Lemma AbortForwardLuaTime_spec s a slot t :
  rep l s a →
  wp (AbortForwardLuaTime (forwardingKey l) (forwardingMetaKey l) (leasesKey l)
        (TenantLeaseKey l t) slot t (readyPrefix l)) s
    (returns (λ s' r, match fwd a !! slot with
                      | Some job => rep l s' (returned slot t job a) ∧ r = 1
                      | None => rep l s' a ∧ r = 0
                      end)).
Proof.
  intros R. unfold AbortForwardLuaTime. fstep. apply (put_back_spec s a); [done |].
  destruct (fwd a !! slot) as [job|]; [| done]. intros s' R'. by fsteps.
Qed.

(** The throughput lane gives the charge back and puts the tenant in the ring. *)
Definition refund (dw : Q) (t : string) (a : lane_state) : lane_state :=
  let vt := (default 0%Q (vtime a !! t) - 1 / weight dw a t)%Q in
  set_ring (<[t := vt]> (ring a)) (set_vtime (<[t := vt]> (vtime a)) a).

Lemma AbortForwardLuaCount_spec s a slot t dw :
  rep l s a →
  wp (AbortForwardLuaCount (forwardingKey l) (forwardingMetaKey l) (leasesKey l)
        (TenantLeaseKey l t) (ringKey l) (vtimeKey l) (weightKey l) slot t (readyPrefix l) dw) s
    (returns (λ s' r, match fwd a !! slot with
                      | Some job => rep l s' (refund dw t (returned slot t job a)) ∧ r = 1
                      | None => rep l s' a ∧ r = 0
                      end)).
Proof.
  intros R. unfold AbortForwardLuaCount. fstep. apply (put_back_spec s a); [done |].
  destruct (fwd a !! slot) as [job|]; [| done]. clear R. intros s' R. unfold HGET_weight. fsteps.
  apply (vtime_read (returned slot t job a)). fsteps. apply wp_when; intros Eb.
  - by fsteps.
  - apply Z.ltb_ge in Eb. exfalso. revert Eb.
    cbn [ready set_vtime returned set_tlease set_leases set_ready]. rewrite upd_eq, length_app.
    cbn. lia.
Qed.

Lemma CompleteLuaCountLease_spec s a slot t :
  rep l s a →
  wp (CompleteLuaCountLease (leasesKey l) (TenantLeaseKey l t) slot) s
    (returns (λ s' _, rep l s' (set_tlease t (delete slot (tlease a t))
                                  (set_leases (delete slot (leases a)) a)))).
Proof. intros R. unfold CompleteLuaCountLease. by fsteps. Qed.

(** The time lane charges the duration; the tenant moves if it has jobs. *)
Definition charged (t : string) (inc : Q) (a : lane_state) : lane_state :=
  let vt := (default 0%Q (vtime a !! t) + inc)%Q in
  let a := set_vtime (<[t := vt]> (vtime a)) a in
  if decide (ready a t = []) then a else set_ring (<[t := vt]> (ring a)) a.

Lemma charge_spec s a t inc (Q : redis → flow Z unit → Prop) :
  rep l s a → (∀ s', rep l s' (charged t inc a) → Q s' (Next tt)) →
  wp (charge (vtimeKey l) (ringKey l) (readyPrefix l) t inc) s Q.
Proof.
  intros R HQ. unfold charge. fsteps. apply vtime_read. fsteps.
  unfold charged in HQ. cbn [ready set_vtime] in *.
  apply wp_when; intros Eb.
  - fsteps. apply HQ. rewrite decide_False; [done |]. intros E. by rewrite E in Eb.
  - apply HQ. rewrite decide_True; [done |]. apply Z.ltb_ge in Eb.
    apply nil_length_inv. lia.
Qed.

Lemma CompleteLuaTimeLease_spec s a t inc slot :
  rep l s a →
  wp (CompleteLuaTimeLease (leasesKey l) (TenantLeaseKey l t) (vtimeKey l) (ringKey l) t inc
        (readyPrefix l) slot) s
    (returns (λ s' _, let a' := set_tlease t (delete slot (tlease a t))
                                  (set_leases (delete slot (leases a)) a) in
                      match tlease a t !! slot with
                      | Some _ => rep l s' (charged t inc a')
                      | None => rep l s' a'
                      end)).
Proof.
  intros R. unfold CompleteLuaTimeLease. fsteps. cbn [tlease set_leases].
  apply wp_when; intros Eb.
  - apply bool_decide_eq_true in Eb as [q ->]. eapply charge_spec; [done |].
    intros s' R'. by fsteps.
  - apply bool_decide_eq_false in Eb. apply eq_None_not_Some in Eb. rewrite Eb. by fsteps.
Qed.

Lemma CompleteLuaTimeLegacy_spec s a t inc :
  rep l s a →
  wp (CompleteLuaTimeLegacy (vtimeKey l) (ringKey l) t inc (readyPrefix l)) s
    (returns (λ s' _, rep l s' (charged t inc a))).
Proof.
  intros R. unfold CompleteLuaTimeLegacy. fstep. eapply charge_spec; [done |].
  intros s' R'. by fsteps.
Qed.

Lemma RearmLeaseLua_spec s a t slot exp :
  rep l s a →
  wp (RearmLeaseLua (leasesKey l) (TenantLeaseKey l t) slot exp) s
    (returns (λ s' _, rep l s' (set_tlease t (<[slot := exp]> (tlease a t))
                                  (set_leases (<[slot := exp]> (leases a)) a)))).
Proof. intros R. unfold RearmLeaseLua. by fsteps. Qed.

Definition quiescent (now : Q) (a : lane_state) : bool :=
  bool_decide (size (ring a) = 0%nat) &&
  bool_decide (length (zrange_members (after now) (leases a)) = 0%nat) &&
  bool_decide (size (fwd a) = 0%nat).

Lemma ResetVtime_spec s a now :
  rep l s a →
  wp (ResetVtimeIfQuiescentLua (ringKey l) (vtimeKey l) (leasesKey l) (forwardingKey l) now) s
    (returns (λ s' r, if quiescent now a then rep l s' (set_vtime ∅ a) ∧ r = 1
                      else rep l s' a ∧ r = 0)).
Proof.
  intros R. unfold ResetVtimeIfQuiescentLua, quiescent. fsteps.
  apply wp_when; intros E1; [fstep; apply Z.ltb_lt in E1;
    rewrite bool_decide_eq_false_2 by lia; done | apply Z.ltb_ge in E1].
  rewrite (bool_decide_eq_true_2 (size (ring a) = 0%nat)) by lia. fsteps.
  apply wp_when; intros E2; [fstep; apply Z.ltb_lt in E2;
    rewrite bool_decide_eq_false_2 by lia; done | apply Z.ltb_ge in E2].
  rewrite (bool_decide_eq_true_2 (length _ = 0%nat)) by lia. fsteps.
  apply wp_when; intros E3; [fstep; apply Z.ltb_lt in E3;
    rewrite bool_decide_eq_false_2 by lia; done | apply Z.ltb_ge in E3].
  rewrite (bool_decide_eq_true_2 (size (fwd a) = 0%nat)) by lia. by fsteps.
Qed.
End scripts.
