(* ===== verification/FairnessCheckout.v ===== *)
(** What a checkout does: which tenant it picks and how the lane changes.

    Both checkout scripts run the same two rounds over the first tenants of the
    ring: in the first round a tenant may hold its share of the lane's budget,
    in the second only the hard cap counts.  [checkout_spec] gives, for each
    reply, the tenants that were passed over and why. *)
From S2P Require Import Prelude Redis Client Kafka Protocol Fairness FairnessSpec.
From Stdlib Require Import Qround.

Lemma prune_prune now z : prune now (prune now z) = prune now z.
Proof.
  unfold prune. apply map_eq. intros i. rewrite !map_lookup_filter.
  destruct (z !! i) as [q|]; cbn; [| done].
  case_guard as E; cbn; [| done]. by rewrite option_guard_True.
Qed.

Lemma size_prune now z : (size (prune now z) ≤ size z)%nat.
Proof. apply map_subseteq_size, map_filter_subseteq. Qed.

(** Expired leases may be gone, and tenants without jobs may have left the
    ring; nothing else differs. *)
Record swept (now : Q) (a a' : lane_state) : Prop := {
  sw_ready : ∀ t, ready a' t = ready a t;
  sw_vtime : vtime a' = vtime a;
  sw_weights : weights a' = weights a;
  sw_leases : leases a' = leases a;
  sw_fwd : fwd a' = fwd a;
  sw_meta : meta a' = meta a;
  sw_tlease : ∀ t, tlease a' t = tlease a t ∨ tlease a' t = prune now (tlease a t);
  sw_ring : ∀ t, ring a' !! t = ring a !! t ∨ ring a' !! t = None ∧ ready a t = []
}.

Lemma swept_refl now a : swept now a a.
Proof. split; auto. Qed.

Lemma swept_trans now a b c : swept now a b → swept now b c → swept now a c.
Proof.
  intros Hab Hbc. split; try (etransitivity; [apply Hbc | apply Hab]).
  - intros t. destruct (sw_tlease _ _ _ Hab t) as [E|E], (sw_tlease _ _ _ Hbc t) as [->| ->];
      rewrite E; auto. rewrite prune_prune. auto.
  - intros t. pose proof (sw_ready _ _ _ Hab t) as Hr.
    destruct (sw_ring _ _ _ Hbc t) as [E|[E ?]], (sw_ring _ _ _ Hab t) as [E'|[E' ?]];
      rewrite E, ?E'; auto; right; split; congruence.
Qed.

Lemma swept_prune now a a' t : swept now a a' → prune now (tlease a' t) = prune now (tlease a t).
Proof. intros Hs. destruct (sw_tlease _ _ _ Hs t) as [->| ->]; [done | apply prune_prune]. Qed.

(** ** One checkout *)

(** The arguments of a checkout, as the scripts name them. *)
Record checkout_args := CheckoutArgs {
  budget : Z; cap : Z; fetch_n : Z; weighted : Z; ahint : Z;
  dw : Q; shint : Q; now : Q; ttl : Q; slot_id : string
}.

Section checkout.
Context `{NumLaws} (l : Lane) (g : checkout_args).

Definition at_least_one (e : Z) : Z := if e <? 1 then 1 else e.

(** A tenant's share of the budget, 0 when there is no budget. *)
Definition share (active : Z) (sum_w w : Q) : Z :=
  if 0 <? budget g then
    if weighted g =? 1 then at_least_one (Qfloor (inject_Z (budget g) * w / sum_w))
    else at_least_one (Qceiling (inject_Z (budget g) / inject_Z active))
  else 0.

Definition capped (e : Z) : Z :=
  if (0 <? cap g) && ((e =? 0) || (cap g <? e)) then cap g else e.

(** The most jobs a tenant may have in flight in a round, 0 for no limit. *)
Definition limit (active : Z) (sum_w : Q) (fallback : bool) (a : lane_state) (t : string) : Z :=
  if fallback then cap g else capped (share active sum_w (weight (dw g) a t)).

Definition inflight (a : lane_state) (t : string) : Z :=
  Z.of_nat (size (prune (now g) (tlease a t))).

Definition admits (active : Z) (sum_w : Q) (fallback : bool) (a : lane_state) (t : string) : bool :=
  let e := limit active sum_w fallback a t in (e =? 0) || (inflight a t <? e).

Definition passed_over active sum_w fallback a t : Prop :=
  ready a t = [] ∨ admits active sum_w fallback a t = false.

Lemma swept_admits active sum_w fb a a' t :
  swept (now g) a a' → admits active sum_w fb a' t = admits active sum_w fb a t.
Proof.
  intros Hs. unfold admits, limit, inflight, weight.
  by rewrite (swept_prune _ _ _ t Hs), (sw_weights _ _ _ Hs).
Qed.

Lemma swept_passed active sum_w fb a a' t :
  swept (now g) a a' → passed_over active sum_w fb a' t → passed_over active sum_w fb a t.
Proof.
  intros Hs. unfold passed_over. by rewrite (swept_admits _ _ _ _ _ t Hs), (sw_ready _ _ _ Hs).
Qed.

(** What a script does with the tenant whose job it popped. *)
Context (settle : string -> script checkout_reply unit).
Context (settled : string -> lane_state -> lane_state).
Hypothesis settle_ok : ∀ s a t, rep l s a → is_Some (ring a !! t) →
  wp (settle t) s (λ s' f, f = Next tt ∧ rep l s' (settled t a)).

(** The lane after tenant [t] was given a slot for [job], [rest] being left. *)
Definition handed (t job : string) (rest : list string) (a : lane_state) : lane_state :=
  let exp := (now g + ttl g)%Q in
  let a := settled t (set_ready t rest (set_tlease t (prune (now g) (tlease a t)) a)) in
  let a := set_leases (<[slot_id g := exp]> (leases a)) a in
  let a := set_tlease t (<[slot_id g := exp]> (tlease a t)) a in
  let a := set_fwd (<[slot_id g := job]> (fwd a)) a in
  set_meta (<[slot_id g := t]> (meta a)) a.

Lemma hand_out_spec s a t job (Q : redis → flow checkout_reply unit → Prop) :
  rep l s a → is_Some (ring a !! t) →
  (∀ s', (let a := settled t a in
          let exp := (now g + ttl g)%Q in
          let a := set_leases (<[slot_id g := exp]> (leases a)) a in
          let a := set_tlease t (<[slot_id g := exp]> (tlease a t)) a in
          let a := set_fwd (<[slot_id g := job]> (fwd a)) a in
          rep l s' (set_meta (<[slot_id g := t]> (meta a)) a)) → Q s' (Return (Got t job))) →
  wp (hand_out (leasesKey l) (forwardingKey l) (forwardingMetaKey l) (leasePrefix l)
        (slot_id g) (now g) (ttl g) settle t job) s Q.
Proof.
  intros R Ht HQ. unfold hand_out. apply wp_bind.
  eapply wp_mono; [| by eapply settle_ok]. intros s' f [-> R']. cbv beta iota. clear R.
  fsteps. by apply HQ.
Qed.

Lemma dispatchable_spec s a fb active sum_w t (Q : redis → flow checkout_reply bool → Prop) :
  rep l s a →
  Q s (Next (admits active sum_w fb a t)) →
  wp (dispatchable (weightKey l) (budget g) (cap g) (weighted g) (dw g) fb active sum_w t
        (inflight a t)) s Q.
Proof.
  intros R HQ. unfold dispatchable, admits, limit in *. destruct fb; [by fsteps |].
  unfold eff_cap, share, HGET_weight, capped, at_least_one, weight in *. fsteps.
  destruct (0 <? budget g); [| by fsteps]. destruct (weighted g =? 1); by fsteps.
Qed.

Definition run_visit active sum_w fb t : script checkout_reply unit :=
  visit (ringKey l) (leasesKey l) (weightKey l) (forwardingKey l) (forwardingMetaKey l)
    (readyPrefix l) (leasePrefix l) (slot_id g) (budget g) (cap g) (weighted g) (dw g)
    (now g) (ttl g) settle active sum_w fb t.

(** Every tenant a round visits is in the ring, or has no job. *)
Definition covered (a : lane_state) (t : string) : Prop :=
  is_Some (ring a !! t) ∨ ready a t = [].

Lemma swept_covered a a' t : swept (now g) a a' → covered a t → covered a' t.
Proof.
  intros Hs Hc. unfold covered. rewrite (sw_ready _ _ _ Hs).
  destruct Hc, (sw_ring _ _ _ Hs t) as [->|[_ ?]]; auto.
Qed.

Lemma swept_tlease a t : swept (now g) a (set_tlease t (prune (now g) (tlease a t)) a).
Proof.
  split; auto; cbn. intros t'. unfold upd. case_decide as E; [subst |]; auto.
Qed.

Lemma visit_spec s a fb active sum_w t :
  rep l s a → covered a t →
  wp (run_visit active sum_w fb t) s (λ s' f,
    match f with
    | Next _ => ∃ a', rep l s' a' ∧ swept (now g) a a' ∧ passed_over active sum_w fb a t
    | Return (Got t' job) =>
        t' = t ∧ ∃ rest, ready a t = job :: rest ∧ admits active sum_w fb a t = true ∧
                         rep l s' (handed t job rest a)
    | _ => False
    end).
Proof.
  intros R Hc. unfold run_visit, visit. fsteps.
  set (a1 := set_tlease t (prune (now g) (tlease a t)) a).
  change (set_tlease t (filter _ (tlease a t)) a) with a1 in *.
  pose proof (swept_tlease a t) as Hs. fold a1 in Hs.
  assert (Z.of_nat (size (tlease a1 t)) = inflight a1 t) as ->.
  { unfold inflight, a1. cbn. by rewrite upd_eq, prune_prune. }
  eapply dispatchable_spec; [done |]. rewrite (swept_admits _ _ _ _ _ t Hs).
  apply wp_when; intros Ea.
  - fstep. eapply wp_LPOP; [fold_keys; fknown | |].
    + intros En. fsteps. exists (set_ring (delete t (ring a1)) a1).
      change (ready a1 t) with (ready a t) in En.
      split; [done |]. split; [| by left]. eapply swept_trans; [exact Hs |].
      split; auto. cbn. intros t'. destruct (decide (t = t')) as [<-|].
      * rewrite lookup_delete_eq. auto.
      * rewrite lookup_delete_ne by done. auto.
    + intros job rest En. fold_keys. absorb. change (ready a1 t) with (ready a t) in En.
      eapply hand_out_spec; [done | | intros s9 R9; split; [done | by exists rest]].
      cbn. destruct Hc as [?|Hc]; [done | by rewrite Hc in En].
  - exists a1. unfold passed_over. auto.
Qed.

Lemma each_spec fb active sum_w ms s a :
  rep l s a → Forall (covered a) ms →
  wp (each (run_visit active sum_w fb) ms) s (λ s' f,
    match f with
    | Next _ => ∃ a', rep l s' a' ∧ swept (now g) a a'
                      ∧ Forall (passed_over active sum_w fb a) ms
    | Return (Got t job) =>
        ∃ pre post a1 rest, ms = pre ++ t :: post ∧
          Forall (passed_over active sum_w fb a) pre ∧ swept (now g) a a1 ∧
          ready a t = job :: rest ∧ admits active sum_w fb a t = true ∧
          covered a t ∧ rep l s' (handed t job rest a1)
    | _ => False
    end).
Proof.
  revert s a. induction ms as [|t ms IH]; intros s a R Hc; cbn [each].
  { fsteps. exists a. auto using swept_refl. }
  inversion Hc as [|? ? Ht Hms]; subst. apply wp_bind.
  eapply wp_mono; [| by apply visit_spec]. intros s1 [[]|[why|t' job]|e] Hv; try done.
  - destruct Hv as (a1 & R1 & Hs1 & Hp). eapply wp_mono.
    2: { apply (IH s1 a1); [done |]. eapply Forall_impl; [done |].
         intros m. by apply swept_covered. }
    intros s2 [[]|[why|t' job]|e] H2; try done.
    + destruct H2 as (a2 & R2 & Hs2 & Hp2). exists a2. split; [done |].
      split; [by eapply swept_trans |]. constructor; [done |].
      eapply Forall_impl; [exact Hp2 |]. intros m. by apply swept_passed.
    + destruct H2 as (pre & post & a2 & rest & -> & Hp2 & Hs2 & Hr & Had & Hcv & R2).
      exists (t :: pre), post, a2, rest. split; [done |]. split.
      { constructor; [done |]. eapply Forall_impl; [exact Hp2 |]. intros m. by apply swept_passed. }
      split; [by eapply swept_trans |]. rewrite (sw_ready _ _ _ Hs1) in Hr.
      rewrite (swept_admits _ _ _ _ _ _ Hs1) in Had. split_and!; try done.
      by eapply Forall_elt in Hms.
  - destruct Hv as (-> & rest & Hr & Ha & R1). exists [], ms, a, rest.
    split_and!; auto using swept_refl.
Qed.

(** ** The whole script *)

Definition pruned (a : lane_state) : lane_state := set_leases (prune (now g) (leases a)) a.

Definition has_room (a : lane_state) : Prop :=
  budget g <= 0 ∨ Z.of_nat (size (prune (now g) (leases a))) < budget g.

(** The tenants a checkout looks at: the head of the ring. *)
Definition members (a : lane_state) : list string :=
  (take (Z.to_nat (fetch_n g)) (zset_sorted (ring a))).*1.

Definition actives (a : lane_state) : Z := active_count (ahint g) (Z.of_nat (size (ring a))).
Definition weight_sum (a : lane_state) : Q :=
  sum_weights (budget g) (weighted g) (dw g) (shint g) (actives a).

Definition passes (fb : bool) (a : lane_state) (t : string) : Prop :=
  passed_over (actives a) (weight_sum a) fb a t.
Definition takes (fb : bool) (a : lane_state) (t : string) : bool :=
  admits (actives a) (weight_sum a) fb a t.

(** Why a checkout replied as it did, and the lane it leaves. *)
Inductive checkout_post (a : lane_state) (s' : redis) : checkout_reply -> Prop :=
| post_budget :
    ¬ has_room a → rep l s' (pruned a) → checkout_post a s' (Denied "budget")
| post_none a' :
    has_room a → Forall (passes false a) (members a) → Forall (passes true a) (members a) →
    swept (now g) (pruned a) a' → rep l s' a' → checkout_post a s' (Denied "none")
| post_share pre post t job rest a1 :
    has_room a → members a = pre ++ t :: post → Forall (passes false a) pre →
    ready a t = job :: rest → takes false a t = true →
    swept (now g) (pruned a) a1 → rep l s' (handed t job rest a1) →
    checkout_post a s' (Got t job)
| post_fallback pre post t job rest a1 :
    has_room a → Forall (passes false a) (members a) →
    members a = pre ++ t :: post → Forall (passes true a) pre →
    ready a t = job :: rest → takes true a t = true →
    swept (now g) (pruned a) a1 → rep l s' (handed t job rest a1) →
    checkout_post a s' (Got t job).

Lemma members_covered a : Forall (covered a) (members a).
Proof.
  apply Forall_forall. intros t (p & -> & Hp)%list_elem_of_fmap. left.
  apply take_elem_of in Hp. destruct p as [t q]. apply zset_sorted_elem in Hp. by exists q.
Qed.

Definition run_checkout : script checkout_reply unit :=
  Fairness.checkout (ringKey l) (leasesKey l) (weightKey l) (forwardingKey l)
    (forwardingMetaKey l) (readyPrefix l) (leasePrefix l) (slot_id g) (budget g) (cap g)
    (fetch_n g) (weighted g) (ahint g) (dw g) (shint g) (now g) (ttl g) settle.

Lemma room_test a :
  (0 <? budget g) && (budget g <=? Z.of_nat (size (prune (now g) (leases a)))) = false ↔ has_room a.
Proof. unfold has_room. rewrite andb_false_iff, Z.ltb_ge, Z.leb_gt. done. Qed.

Theorem checkout_spec s a :
  rep l s a → wp run_checkout s (returns (checkout_post a)).
Proof.
  intros R. unfold run_checkout, Fairness.checkout. fsteps.
  change (leases (set_leases (filter _ (leases a)) a)) with (prune (now g) (leases a)).
  change (set_leases (filter _ (leases a)) a) with (pruned a) in *.
  apply wp_when; intros Eb.
  { fstep. apply post_budget; [| done]. rewrite <- room_test. by rewrite Eb. }
  apply room_test in Eb. fsteps.
  change (size (ring (pruned a))) with (size (ring a)).
  change ((take (Z.to_nat (fetch_n g)) (zset_sorted (ring (pruned a)))).*1) with (members a).
  fold (actives a). fold (weight_sum a).
  eapply wp_mono; [| apply (each_spec false (actives a) (weight_sum a) (members a) _ (pruned a));
                     [done | exact (members_covered a)]].
  intros s1 [[]|[why|t job]|e] H1; try done.
  - destruct H1 as (a1 & R1 & Hs1 & Hp1). fstep.
    eapply wp_mono; [| apply (each_spec true (actives a) (weight_sum a) (members a) _ a1); [done |]].
    2: { eapply Forall_impl; [exact (members_covered a) |]. intros m.
         by apply (swept_covered (pruned a)). }
    intros s2 [[]|[why|t job]|e] H2; try done.
    + destruct H2 as (a2 & R2 & Hs2 & Hp2). fstep. apply (post_none _ _ a2); try done;
        [| by eapply swept_trans].
      eapply Forall_impl; [exact Hp2 |]. intros m Hm. exact (swept_passed _ _ _ (pruned a) a1 m Hs1 Hm).
    + destruct H2 as (pre & post & a2 & rest & Em & Hp2 & Hs2 & Hr & Had & _ & R2).
      rewrite (sw_ready _ _ _ Hs1) in Hr. rewrite (swept_admits _ _ _ _ _ _ Hs1) in Had.
      apply (post_fallback _ _ pre post t job rest a2); try done; [| by eapply swept_trans].
      eapply Forall_impl; [exact Hp2 |]. intros m Hm. exact (swept_passed _ _ _ (pruned a) a1 m Hs1 Hm).
  - destruct H1 as (pre & post & a1 & rest & Em & Hp1 & Hs1 & Hr & Had & _ & R1).
    by apply (post_share _ _ pre post t job rest a1).
Qed.
End checkout.

(** ** The two lanes *)

Section lanes.
Context `{NumLaws} (l : Lane).

(** The time lane: the tenant leaves the ring with its last job. *)
Definition settled_time (t : string) (a : lane_state) : lane_state :=
  if decide (ready a t = []) then set_ring (delete t (ring a)) a else a.

Lemma settle_time_ok s a t :
  rep l s a → is_Some (ring a !! t) →
  wp (settle_time (ringKey l) (readyPrefix l) t) s
    (λ s' f, f = Next tt ∧ rep l s' (settled_time t a)).
Proof.
  intros R _. unfold settle_time, settled_time. fsteps. apply wp_when; intros Eb.
  - fsteps. split; [done |]. rewrite decide_True; [done |].
    apply Z.eqb_eq in Eb. apply nil_length_inv. lia.
  - split; [done |]. rewrite decide_False; [done |]. intros E. by rewrite E in Eb.
Qed.

(** The throughput lane: the tenant is charged the inverse of its weight. *)
Definition settled_count (dw : Q) (t : string) (a : lane_state) : lane_state :=
  let vt := (default 0%Q (ring a !! t) + 1 / weight dw a t)%Q in
  let a := set_vtime (<[t := vt]> (vtime a)) a in
  if decide (ready a t = []) then set_ring (delete t (ring a)) a
  else set_ring (<[t := vt]> (ring a)) a.

Lemma settle_count_ok dw s a t :
  rep l s a → is_Some (ring a !! t) →
  wp (settle_count (ringKey l) (vtimeKey l) (weightKey l) (readyPrefix l) dw t) s
    (λ s' f, f = Next tt ∧ rep l s' (settled_count dw t a)).
Proof.
  intros R [q Hq]. unfold settle_count, settled_count, HGET_weight. fsteps. rewrite Hq.
  fsteps. cbn [ready set_vtime default]. destruct (Z.eqb_spec (Z.of_nat (length (ready a t))) 0) as [E|E].
  - fsteps. split; [done |]. rewrite decide_True; [done |]. apply nil_length_inv. lia.
  - fsteps. split; [done |]. rewrite decide_False; [done |]. intros E'. by rewrite E' in E.
Qed.

(** The arguments [Checkout] passes. *)
Definition args_of (s : Scheduler) (view : activeView) (rtime : Q) (slotID : string)
    : checkout_args :=
  let st := sc_Settings s in
  CheckoutArgs (GlobalConcurrency st) (MaxInflightPerTenant st) (fetchN st) (weightedFlag st)
    (view_count view) (DefaultWeight st) (view_sumWeight view) rtime (EffectiveLeaseTTL st) slotID.

Definition settled_of (s : Scheduler) : string -> lane_state -> lane_state :=
  if String.eqb (sc_Lane s) LaneTime then settled_time
  else settled_count (DefaultWeight (sc_Settings s)).
End lanes.

(** A checkout of a scheduler, from the lane [a]. *)
Lemma checkout_script_spec `{NumLaws} (s : Scheduler) view rtime slotID db a :
  rep (sc_Lane s) db a →
  wp (checkout_script s view rtime slotID) db
    (returns (checkout_post (sc_Lane s) (args_of s view rtime slotID) (settled_of s) a)).
Proof.
  intros R. unfold checkout_script, settled_of, CheckoutLuaTime, CheckoutLuaCount.
  destruct (String.eqb (sc_Lane s) LaneTime);
    apply (checkout_spec (sc_Lane s) (args_of s view rtime slotID)); try done; intros;
    [by apply settle_time_ok | by apply settle_count_ok].
Qed.
