(* ===== verification/FairnessTrace.v ===== *)
(** Histories of a lane: any interleaving of the scripts of the scheduler.

    Every operation of a scheduler is one script or one command on the server
    (a lost connection ran it or did not), so the histories of a lane are the
    sequences of these steps, whatever process runs them.  [history] records
    what was accepted and what was confirmed; [lane_inv] is the invariant. *)
From S2P Require Import Prelude Redis Client Kafka Protocol Fairness FairnessSpec FairnessCheckout.
From Stdlib Require Import Qround.

(** What a tenant enqueued, what of it was handed to Kafka for good, and how
    many leases were re-armed for reclaimed forwards. *)
Record history := History {
  h_in : string -> list string; h_out : string -> list string; h_rearmed : nat
}.

Definition no_history : history := History (λ _, []) (λ _, []) 0.
Definition accepted (t p : string) (h : history) : history :=
  History (upd t (p :: h_in h t) (h_in h)) (h_out h) (h_rearmed h).
Definition handed_over (t p : string) (h : history) : history :=
  History (h_in h) (upd t (p :: h_out h t) (h_out h)) (h_rearmed h).
Definition rearmed (h : history) : history := History (h_in h) (h_out h) (S (h_rearmed h)).

(** The jobs of a tenant in the forwarding buffer. *)
Definition pairs (a : lane_state) : gmap string (string * string) :=
  map_zip_with pair (fwd a) (meta a).

Definition of_tenant (t : string) (p : string * (string * string)) : option string :=
  if decide (p.2.2 = t) then Some p.2.1 else None.

Definition buffered (a : lane_state) (t : string) : list string :=
  omap (of_tenant t) (map_to_list (pairs a)).

(** The lane read back from the keyspace. *)
Definition ready_of (l : Lane) (db : redis) (t : string) : list string :=
  default [] (get_list db (ReadyKey l t)).
Definition leases_of (l : Lane) (db : redis) : gmap string Q :=
  default ∅ (get_zset db (leasesKey l)).
Definition tenant_leases_of (l : Lane) (db : redis) (t : string) : gmap string Q :=
  default ∅ (get_zset db (TenantLeaseKey l t)).
Definition ring_of (l : Lane) (db : redis) : gmap string Q := default ∅ (get_zset db (ringKey l)).
Definition forwarding_of (l : Lane) (db : redis) : gmap string string :=
  default ∅ (get_hash db (forwardingKey l)).
Definition slot_tenant_of (l : Lane) (db : redis) : gmap string string :=
  default ∅ (get_hash db (forwardingMetaKey l)).
Definition buffered_of (l : Lane) (db : redis) (t : string) : list string :=
  omap (of_tenant t)
    (map_to_list (map_zip_with pair (forwarding_of l db) (slot_tenant_of l db))).

(** A lane with nothing in it, except virtual times and weights. *)
Definition empty_lane (vt : gmap string Q) (wts : gmap string string) : lane_state :=
  LaneState ∅ (λ _, []) vt wts ∅ (λ _, ∅) ∅ ∅.

Section trace.
Context `{NumLaws} (s : Scheduler).
Notation l := (sc_Lane s).
Notation st := (sc_Settings s).

Inductive reach : redis -> history -> Prop :=
| reach_empty db vt wts : rep l db (empty_lane vt wts) → reach db no_history
| reach_enqueue db h t p db' r :
    reach db h →
    run (EnqueueLua (ringKey l) (vtimeKey l) t p (ReadyWindow st) (readyPrefix l)) db
      = (db', Some r) →
    reach db' (if r =? 1 then accepted t p h else h)
| reach_checkout db h view rtime slot db' r :
    reach db h → forwarding_of l db !! slot = None →
    run (checkout_script s view rtime slot) db = (db', Some r) →
    reach db' h
| reach_confirm db h slot db' r :
    reach db h →
    run (ConfirmForwardLua (forwardingKey l) (forwardingMetaKey l) slot) db = (db', Some r) →
    reach db' (match forwarding_of l db !! slot, slot_tenant_of l db !! slot with
               | Some p, Some t => handed_over t p h
               | _, _ => h
               end)
| reach_abort db h slot t db' r :
    reach db h →
    (* the caller names the tenant of the checkout *)
    slot_tenant_of l db !! slot = Some t ∨ forwarding_of l db !! slot = None →
    run (abort_script s slot t) db = (db', Some r) →
    reach db' h
| reach_complete_count db h t slot db' r :
    reach db h →
    run (CompleteLuaCountLease (leasesKey l) (TenantLeaseKey l t) slot) db = (db', Some r) →
    reach db' h
| reach_complete_time db h t inc slot db' r :
    reach db h →
    run (CompleteLuaTimeLease (leasesKey l) (TenantLeaseKey l t) (vtimeKey l) (ringKey l) t inc
           (readyPrefix l) slot) db = (db', Some r) →
    reach db' h
| reach_complete_legacy db h t inc db' r :
    reach db h →
    run (CompleteLuaTimeLegacy (vtimeKey l) (ringKey l) t inc (readyPrefix l)) db = (db', Some r) →
    reach db' h
| reach_renew db h slot exp :
    reach db h → reach (command (ZADD_XX (leasesKey l) exp slot) db).1 h
| reach_renew_tenant db h t slot exp :
    reach db h → reach (command (ZADD_XX (TenantLeaseKey l t) exp slot) db).1 h
| reach_rearm db h t slot exp db' r :
    reach db h →
    run (RearmLeaseLua (leasesKey l) (TenantLeaseKey l t) slot exp) db = (db', Some r) →
    reach db' (rearmed h)
| reach_sweep db h at_ :
    reach db h → reach (command (ZREMRANGEBYSCORE (leasesKey l) (upto at_)) db).1 h
| reach_sweep_tenant db h t at_ :
    reach db h → reach (command (ZREMRANGEBYSCORE (TenantLeaseKey l t) (upto at_)) db).1 h
| reach_reset db h at_ db' r :
    reach db h →
    run (ResetVtimeIfQuiescentLua (ringKey l) (vtimeKey l) (leasesKey l) (forwardingKey l) at_) db
      = (db', Some r) →
    reach db' h
| reach_weight db h t w :
    reach db h → reach (command (HSET (weightKey l) t (number_text w)) db).1 h
| reach_other db h db' :
    (* another component writes its own keys *)
    reach db h → (∀ a, rep l db a → rep l db' a) → reach db' h.

(** ** The invariant *)

Record lane_inv (a : lane_state) (h : history) : Prop := {
  inv_jobs : ∀ t, h_in h t ≡ₚ ready a t ++ buffered a t ++ h_out h t;
  inv_meta : ∀ slot, is_Some (fwd a !! slot) ↔ is_Some (meta a !! slot);
  inv_budget : 0 < GlobalConcurrency st →
    Z.of_nat (size (leases a)) <= GlobalConcurrency st + Z.of_nat (h_rearmed h);
  inv_cap : 0 < MaxInflightPerTenant st →
    ∀ t, Z.of_nat (size (tlease a t)) <= MaxInflightPerTenant st + Z.of_nat (h_rearmed h);
  inv_ring : l ≠ LaneTime → ∀ t, ready a t ≠ [] → is_Some (ring a !! t)
}.

Lemma pairs_lookup a slot :
  pairs a !! slot = (p ← fwd a !! slot; t ← meta a !! slot; Some (p, t)).
Proof. unfold pairs. rewrite map_lookup_zip_with. done. Qed.

Lemma buffered_insert a a' slot p t :
  pairs a' = <[slot := (p, t)]> (pairs a) → pairs a !! slot = None →
  ∀ t', buffered a' t' ≡ₚ (if decide (t = t') then [p] else []) ++ buffered a t'.
Proof.
  intros E Hn t'. unfold buffered. rewrite E, map_to_list_insert by done. cbn.
  unfold of_tenant at 1. cbn. by case_decide.
Qed.

Lemma buffered_delete a a' slot p t :
  pairs a' = delete slot (pairs a) → pairs a !! slot = Some (p, t) →
  ∀ t', buffered a t' ≡ₚ (if decide (t = t') then [p] else []) ++ buffered a' t'.
Proof.
  intros E Hs. apply (buffered_insert a' a slot).
  - by rewrite E, insert_delete_id.
  - by rewrite E, lookup_delete_eq.
Qed.

(** A step that keeps jobs and slots, adds no lease and strands no tenant. *)
Lemma inv_calm a a' h :
  lane_inv a h → (∀ t, ready a' t = ready a t) → fwd a' = fwd a → meta a' = meta a →
  (size (leases a') ≤ size (leases a))%nat →
  (∀ t, size (tlease a' t) ≤ size (tlease a t))%nat →
  (∀ t, ready a t ≠ [] → is_Some (ring a !! t) → is_Some (ring a' !! t)) →
  lane_inv a' h.
Proof.
  intros [I1 I2 I3 I4 I5] Hr Hf Hm Hl Ht Hg. split.
  - intros t. rewrite Hr. unfold buffered, pairs. rewrite Hf, Hm. apply I1.
  - by rewrite Hf, Hm.
  - intros Hb. specialize (I3 Hb). lia.
  - intros Hc t. specialize (I4 Hc t). specialize (Ht t). lia.
  - intros Hlane t. rewrite Hr. intros Hne. auto.
Qed.

Lemma size_upd t t' (x : gmap string Q) f :
  (size x ≤ size (f t))%nat → (size (upd t x f t') ≤ size (f t'))%nat.
Proof. intros Hx. unfold upd. by case_decide as E; [subst |]. Qed.

Lemma size_delete_le (k : string) (z : gmap string Q) : (size (delete k z) ≤ size z)%nat.
Proof. apply map_subseteq_size, delete_subseteq. Qed.

Lemma size_insert_le (k : string) q (z : gmap string Q) : (size (<[k := q]> z) ≤ S (size z))%nat.
Proof. rewrite map_size_insert. destruct (z !! k); cbn; lia. Qed.

Lemma is_Some_insert {A} (m : gmap string A) k k' x :
  is_Some (m !! k') → is_Some (<[k := x]> m !! k').
Proof.
  intros Hs. destruct (decide (k = k')) as [->|].
  - by rewrite lookup_insert_eq.
  - by rewrite lookup_insert_ne.
Qed.

Lemma inv_swept now_ a a' h : swept now_ a a' → lane_inv a h → lane_inv a' h.
Proof.
  intros Hs Hi. apply (inv_calm a); try apply Hs; [done | by rewrite (sw_leases _ _ _ Hs) | |].
  - intros t. destruct (sw_tlease _ _ _ Hs t) as [->| ->]; [done | apply size_prune].
  - intros t Hr. destruct (sw_ring _ _ _ Hs t) as [->|[_ ?]]; done.
Qed.

(** ** Each step keeps the invariant *)

Lemma joined_frame t a :
  (∀ t', ready (joined t a) t' = ready a t') ∧ fwd (joined t a) = fwd a ∧
  meta (joined t a) = meta a ∧ leases (joined t a) = leases a ∧
  (∀ t', tlease (joined t a) t' = tlease a t') ∧
  is_Some (ring (joined t a) !! t) ∧
  (∀ t', is_Some (ring a !! t') → is_Some (ring (joined t a) !! t')).
Proof.
  unfold joined. destruct (ring a !! t) as [q|] eqn:E; split_and!; auto; cbn.
  - by rewrite lookup_insert_eq.
  - intros t'. apply is_Some_insert.
Qed.

Lemma inv_enqueued a h t p : lane_inv a h → lane_inv (enqueued t p a) (accepted t p h).
Proof.
  intros I. destruct (joined_frame t a) as (Hr & Hf & Hm & Hl & Ht & Hj & Hg).
  assert (lane_inv (joined t a) h) as [I1 I2 I3 I4 I5].
  { apply (inv_calm a); try done; [by rewrite Hl | intros t'; by rewrite Ht | auto]. }
  split; [| done | done | done |].
  - intros t'. cbn. unfold upd. case_decide as E; [subst | apply I1].
    rewrite (I1 t'). unfold buffered, pairs. cbn. rewrite <- (app_assoc _ [p]). cbn.
    by rewrite <- Permutation_middle.
  - intros Hlane t'. cbn. unfold upd. case_decide as E; [by subst | by apply I5].
Qed.

Lemma inv_confirmed a h slot p :
  lane_inv a h → fwd a !! slot = Some p →
  lane_inv (confirmed slot a)
    (match meta a !! slot with Some t => handed_over t p h | None => h end).
Proof.
  intros [I1 I2 I3 I4 I5] Hp. destruct (proj1 (I2 slot)) as [t Ht]; [by exists p |]. rewrite Ht.
  split; cbn; [| | done | done | done].
  - intros t'. rewrite (I1 t').
    rewrite (buffered_delete a (confirmed slot a) slot p t).
    + unfold upd. destruct (decide (t = t')) as [->|]; [| done]. cbn.
      rewrite (Permutation_middle (buffered _ _)). done.
    + unfold pairs. cbn. by rewrite map_delete_zip_with.
    + rewrite pairs_lookup, Hp, Ht. done.
  - intros slot'. destruct (decide (slot = slot')) as [<-|].
    + by rewrite !lookup_delete_eq.
    + by rewrite !lookup_delete_ne.
Qed.

Lemma inv_returned a h slot t p :
  lane_inv a h → fwd a !! slot = Some p → meta a !! slot = Some t →
  (l ≠ LaneTime → is_Some (ring a !! t)) →
  lane_inv (returned slot t p a) h.
Proof.
  intros [I1 I2 I3 I4 I5] Hp Ht Hring. split; cbn.
  - intros t'. rewrite (I1 t').
    rewrite (buffered_delete a (confirmed slot a) slot p t).
    + change (buffered (returned slot t p a) t') with (buffered (confirmed slot a) t').
      unfold upd. destruct (decide (t = t')) as [->|]; [| done]. cbn.
      by rewrite <- app_assoc.
    + unfold pairs. cbn. by rewrite map_delete_zip_with.
    + rewrite pairs_lookup, Hp, Ht. done.
  - intros slot'. destruct (decide (slot = slot')) as [<-|].
    + by rewrite !lookup_delete_eq.
    + by rewrite !lookup_delete_ne.
  - intros Hb. specialize (I3 Hb). pose proof (size_delete_le slot (leases a)). lia.
  - intros Hc t'. specialize (I4 Hc t').
    pose proof (size_upd t t' (delete slot (tlease a t)) (tlease a) (size_delete_le _ _)). lia.
  - intros Hlane t'. unfold upd. case_decide as E; [subst; auto | by apply I5].
Qed.

(** Putting the tenant back in the ring first makes no difference. *)
Lemma refund_returned dw_ t slot p a :
  refund dw_ t (returned slot t p a) = returned slot t p (refund dw_ t a).
Proof. done. Qed.

Lemma inv_refund dw_ t a h :
  lane_inv a h → lane_inv (refund dw_ t a) h ∧ is_Some (ring (refund dw_ t a) !! t).
Proof.
  intros I. unfold refund. split; [| cbn; by rewrite lookup_insert_eq].
  apply (inv_calm a); try done. intros t' _. cbn. apply is_Some_insert.
Qed.

Lemma inv_charged t inc a h : lane_inv a h → lane_inv (charged t inc a) h.
Proof.
  intros I. unfold charged. case_decide; apply (inv_calm a); try done.
  intros t' _. cbn. apply is_Some_insert.
Qed.

Lemma settled_frame t a :
  (∀ t', ready (settled_of s t a) t' = ready a t') ∧ fwd (settled_of s t a) = fwd a ∧
  meta (settled_of s t a) = meta a ∧ leases (settled_of s t a) = leases a ∧
  (∀ t', tlease (settled_of s t a) t' = tlease a t') ∧
  (∀ t', t' ≠ t → ring (settled_of s t a) !! t' = ring a !! t') ∧
  (ready a t ≠ [] → is_Some (ring a !! t) → is_Some (ring (settled_of s t a) !! t)).
Proof.
  unfold settled_of, settled_time, settled_count.
  destruct (String.eqb l LaneTime); cbn; case_decide; cbn; split_and!; auto; try done.
  all: try (intros t' Ht; by rewrite ?lookup_delete_ne, ?lookup_insert_ne by done).
  intros. by rewrite lookup_insert_eq.
Qed.

Lemma capped_bound g e tin :
  0 < cap g → 0 <= tin → (capped g e =? 0) || (tin <? capped g e) = true → tin < cap g.
Proof.
  intros Hc Ht. unfold capped. destruct (Z.ltb_spec 0 (cap g)); [| lia]. cbn.
  destruct (Z.eqb_spec e 0), (Z.ltb_spec (cap g) e); cbn;
    rewrite orb_true_iff, Z.eqb_eq, Z.ltb_lt; lia.
Qed.

Lemma admits_bound g active sum_w fb a t :
  0 < cap g → admits g active sum_w fb a t = true → inflight g a t < cap g.
Proof.
  intros Hc. unfold admits, limit.
  destruct fb; [rewrite orb_true_iff, Z.eqb_eq, Z.ltb_lt; lia |].
  apply capped_bound; [done |]. unfold inflight. lia.
Qed.

Lemma inv_handed view rtime slot a h t job rest active sum_w fb :
  let g := args_of s view rtime slot in
  lane_inv a h → fwd a !! slot = None → ready a t = job :: rest →
  (0 < GlobalConcurrency st → Z.of_nat (size (leases a)) < GlobalConcurrency st) →
  admits g active sum_w fb a t = true → is_Some (ring a !! t) →
  lane_inv (handed g (settled_of s) t job rest a) h.
Proof.
  intros g [I1 I2 I3 I4 I5] Hslot Hr Hroom Had Hring.
  set (a0 := set_ready t rest (set_tlease t (prune (now g) (tlease a t)) a)).
  destruct (settled_frame t a0) as (Sr & Sf & Sm & Sl & St & Sg & Sg').
  unfold handed. fold a0. split; cbn -[a0]; rewrite ?Sf, ?Sm, ?Sl.
  - intros t'. rewrite (I1 t'), Sr.
    symmetry. etransitivity.
    { apply Permutation_app_head, Permutation_app_tail, (buffered_insert a _ slot job t).
      - unfold pairs. cbn -[a0]. rewrite ?Sf, ?Sm. cbn. by rewrite map_insert_zip_with.
      - rewrite pairs_lookup, Hslot. done. }
    cbn. unfold upd. destruct (decide (t = t')) as [<-|]; [| done]. rewrite Hr. cbn.
    symmetry. apply Permutation_middle.
  - intros slot'. cbn. destruct (decide (slot = slot')) as [<-|].
    + rewrite !lookup_insert_eq. split; eauto.
    + rewrite !lookup_insert_ne by done. apply I2.
  - intros Hb. specialize (Hroom Hb). etransitivity; [apply inj_le, size_insert_le | cbn; lia].
  - intros Hc t'. specialize (I4 Hc t'). unfold upd. case_decide as E; rewrite St; [subst t' |].
    + pose proof (admits_bound g active sum_w fb a t Hc Had) as Hb. unfold inflight in Hb.
      change (cap g) with (MaxInflightPerTenant st) in Hb.
      etransitivity; [apply inj_le, size_insert_le |]. cbn. rewrite upd_eq. cbn in *. lia.
    + cbn. by rewrite upd_ne.
  - intros Hlane t'. rewrite Sr. cbn. unfold upd. case_decide as E; [subst t' |].
    + intros Hne. apply Sg'; [| done]. cbn. by rewrite upd_eq.
    + rewrite Sg by congruence. cbn. by apply I5.
Qed.

Lemma run_post {R A} (m : script R A) db P db' r :
  wp m db (returns P) → run m db = (db', Some r) → P db' r.
Proof. intros (s1 & r1 & E & HP)%wp_run. rewrite E. by intros [= <- <-]. Qed.

Lemma inv_pruned view rtime slot a h :
  lane_inv a h → lane_inv (pruned (args_of s view rtime slot) a) h.
Proof. intros I. apply (inv_calm a); try done. apply size_prune. Qed.

Lemma inv_checkout view rtime slot a h db' r :
  lane_inv a h → fwd a !! slot = None →
  checkout_post l (args_of s view rtime slot) (settled_of s) a db' r →
  ∃ a', rep l db' a' ∧ lane_inv a' h.
Proof.
  intros I Hslot Hp. set (g := args_of s view rtime slot) in *.
  assert (∀ pre post t job rest a1 fb, has_room g a → members g a = pre ++ t :: post →
            ready a t = job :: rest → takes g fb a t = true → swept (now g) (pruned g a) a1 →
            lane_inv (handed g (settled_of s) t job rest a1) h) as Hgot.
  { intros pre post t job rest a1 fb Hroom Em Hr Ht Hs.
    apply (inv_handed view rtime slot a1 h t job rest (actives g a) (weight_sum g a) fb).
    - eapply inv_swept; [exact Hs | by apply inv_pruned].
    - by rewrite (sw_fwd _ _ _ Hs).
    - by rewrite (sw_ready _ _ _ Hs).
    - intros Hb. rewrite (sw_leases _ _ _ Hs). destruct Hroom as [Hn|]; [| done].
      cbn in Hn. lia.
    - by rewrite (swept_admits g _ _ _ _ _ _ Hs).
    - pose proof (members_covered g a) as Hc. rewrite Em in Hc. apply Forall_elt in Hc.
      apply (swept_covered g (pruned g a) a1 t) in Hc; [| done].
      destruct Hc as [?|Hc]; [done |]. rewrite (sw_ready _ _ _ Hs) in Hc. cbn in Hc. congruence. }
  inversion Hp; subst; eexists; (split; [eassumption |]).
  - by apply inv_pruned.
  - eapply inv_swept; [eassumption | by apply inv_pruned].
  - eapply Hgot; eauto.
  - eapply Hgot; eauto.
Qed.

Lemma inv_abort slot t a h db db' r :
  rep l db a → lane_inv a h → meta a !! slot = Some t ∨ fwd a !! slot = None →
  run (abort_script s slot t) db = (db', Some r) → ∃ a', rep l db' a' ∧ lane_inv a' h.
Proof.
  intros R I Hm E. unfold abort_script in E.
  destruct (String.eqb_spec l LaneTime) as [El|El].
  - apply (run_post _ _ _ _ _ (AbortForwardLuaTime_spec l db a slot t R)) in E.
    destruct (fwd a !! slot) as [p|] eqn:Ef; [| exists a; naive_solver].
    destruct E as [R' _]. eexists. split; [exact R' |]. destruct Hm; [| done].
    by apply inv_returned.
  - apply (run_post _ _ _ _ _ (AbortForwardLuaCount_spec l db a slot t _ R)) in E.
    destruct (fwd a !! slot) as [p|] eqn:Ef; [| exists a; naive_solver].
    destruct E as [R' _]. eexists. split; [exact R' |]. destruct Hm; [| done].
    rewrite refund_returned. destruct (inv_refund (DefaultWeight st) t a h I) as [I' Hr].
    by apply inv_returned.
Qed.

Lemma inv_release t slot a h :
  lane_inv a h →
  lane_inv (set_tlease t (delete slot (tlease a t)) (set_leases (delete slot (leases a)) a)) h.
Proof.
  intros I. apply (inv_calm a); try done; [apply size_delete_le |].
  intros t'. apply size_upd, size_delete_le.
Qed.

Lemma inv_rearmed t slot exp a h :
  lane_inv a h →
  lane_inv (set_tlease t (<[slot := exp]> (tlease a t))
              (set_leases (<[slot := exp]> (leases a)) a)) (rearmed h).
Proof.
  intros [I1 I2 I3 I4 I5]. split; cbn; try done.
  - intros Hb. specialize (I3 Hb). pose proof (size_insert_le slot exp (leases a)). lia.
  - intros Hc t'. specialize (I4 Hc t'). unfold upd. case_decide; subst; [| lia].
    pose proof (size_insert_le slot exp (tlease a t')). lia.
Qed.

Lemma fwd_of_rep db a : rep l db a → forwarding_of l db = fwd a ∧ slot_tenant_of l db = meta a.
Proof.
  intros R. unfold forwarding_of, slot_tenant_of.
  by rewrite (rep_fwd _ _ _ R), (rep_meta _ _ _ R).
Qed.

(** The commands that are not scripts. *)
Lemma rep_zadd_xx k db a (set : gmap string Q → lane_state) z slot exp :
  get_zset db k = Some z → (∀ z', rep l (put_zset k z' db) (set z')) → rep l db a →
  rep l (command (ZADD_XX k exp slot) db).1
    (match z !! slot with Some _ => set (<[slot := exp]> z) | None => a end).
Proof.
  intros E Hs R. unfold command, ZADD_XX, lift, modify. rewrite E. cbn.
  by destruct (z !! slot).
Qed.

Lemma rep_zrem_range k db (set : gmap string Q → lane_state) z at_ :
  get_zset db k = Some z → (∀ z', rep l (put_zset k z' db) (set z')) →
  rep l (command (ZREMRANGEBYSCORE k (upto at_)) db).1 (set (prune at_ z)).
Proof. intros E Hs. unfold command, ZREMRANGEBYSCORE, lift, modify. rewrite E. cbn. apply Hs. Qed.

Theorem reach_inv db h : reach db h → ∃ a, rep l db a ∧ lane_inv a h.
Proof.
  induction 1 as [db vt wts R | db h t p db' r _ [a [R I]] E | db h view rtime slot db' r _ [a [R I]] Hs E
    | db h slot db' r _ [a [R I]] E | db h slot t db' r _ [a [R I]] Hm E
    | db h t slot db' r _ [a [R I]] E | db h t inc slot db' r _ [a [R I]] E
    | db h t inc db' r _ [a [R I]] E | db h slot exp _ [a [R I]] | db h t slot exp _ [a [R I]]
    | db h t slot exp db' r _ [a [R I]] E | db h at_ _ [a [R I]] | db h t at_ _ [a [R I]]
    | db h at_ db' r _ [a [R I]] E | db h t w _ [a [R I]] | db h db' _ [a [R I]] Ho].
  - eexists. split; [exact R |]. split; cbn; try done; intros; rewrite ?map_size_empty; lia.
  - apply (run_post _ _ _ _ _ (EnqueueLua_spec l db a t p _ R)) in E.
    destruct (full _ t a); destruct E as [R' ->]; eexists; (split; [exact R' |]); [done |].
    by apply inv_enqueued.
  - apply (run_post _ _ _ _ _ (checkout_script_spec s view rtime slot db a R)) in E.
    rewrite (proj1 (fwd_of_rep db a R)) in Hs. by eapply inv_checkout.
  - apply (run_post _ _ _ _ _ (ConfirmForwardLua_spec l db a slot R)) in E.
    destruct (fwd_of_rep db a R) as [-> ->]. destruct (fwd a !! slot) as [p|] eqn:Ef.
    + destruct E as [R' _]. eexists. split; [exact R' |]. by apply inv_confirmed.
    + destruct E as [R' _]. eauto.
  - destruct (fwd_of_rep db a R) as [Ef Em]. rewrite Ef, Em in Hm.
    eapply inv_abort; eauto.
  - apply (run_post _ _ _ _ _ (CompleteLuaCountLease_spec l db a slot t R)) in E.
    eexists. split; [exact E | by apply inv_release].
  - apply (run_post _ _ _ _ _ (CompleteLuaTimeLease_spec l db a t inc slot R)) in E. cbv zeta in E.
    destruct (tlease a t !! slot); eexists; (split; [exact E |]);
      [by apply inv_charged, inv_release | by apply inv_release].
  - apply (run_post _ _ _ _ _ (CompleteLuaTimeLegacy_spec l db a t inc R)) in E.
    eexists. split; [exact E |]. by apply inv_charged.
  - eexists. split.
    { apply (rep_zadd_xx _ db a (λ z, set_leases z a) _ slot exp (rep_leases _ _ _ R)); [| done].
      intros z. by apply rep_put_leases. }
    destruct (leases a !! slot) eqn:El; [| done]. apply (inv_calm a); try done. cbn.
    by rewrite map_size_insert_Some.
  - eexists. split.
    { apply (rep_zadd_xx _ db a (λ z, set_tlease t z a) _ slot exp (rep_tlease _ _ _ R t)); [| done].
      intros z. by apply rep_put_tlease. }
    destruct (tlease a t !! slot) eqn:El; [| done]. apply (inv_calm a); try done.
    intros t'. apply size_upd. by rewrite map_size_insert_Some.
  - apply (run_post _ _ _ _ _ (RearmLeaseLua_spec l db a t slot exp R)) in E.
    eexists. split; [exact E | by apply inv_rearmed].
  - eexists. split.
    { apply (rep_zrem_range _ db (λ z, set_leases z a) _ at_ (rep_leases _ _ _ R)).
      intros z. by apply rep_put_leases. }
    apply (inv_calm a); try done. apply size_prune.
  - eexists. split.
    { apply (rep_zrem_range _ db (λ z, set_tlease t z a) _ at_ (rep_tlease _ _ _ R t)).
      intros z. by apply rep_put_tlease. }
    apply (inv_calm a); try done. intros t'. apply size_upd, size_prune.
  - apply (run_post _ _ _ _ _ (ResetVtime_spec l db a at_ R)) in E.
    destruct (quiescent at_ a); destruct E as [R' _]; eexists; (split; [exact R' |]); [| done].
    by apply (inv_calm a).
  - exists (set_wts (<[t := number_text w]> (weights a)) a). split; [| by apply (inv_calm a)].
    unfold command, HSET, lift, modify. rewrite (rep_weights _ _ _ R). cbn.
    by apply rep_put_weights.
  - exists a. auto.
Qed.
End trace.
