(* ===== verification/FairnessProps.v ===== *)
(** The properties of the fair scheduler. *)
From S2P Require Import Prelude Redis Client Kafka Protocol Fairness FairnessSpec FairnessCheckout FairnessTrace.
From Stdlib Require Import Qround Lqa.

Section props.
Context `{NumLaws} (s : Scheduler).
Notation l := (sc_Lane s).
Notation st := (sc_Settings s).

Lemma read_back db a :
  rep l db a →
  (∀ t, ready_of l db t = ready a t) ∧ (∀ t, buffered_of l db t = buffered a t) ∧
  leases_of l db = leases a ∧ (∀ t, tenant_leases_of l db t = tlease a t) ∧
  ring_of l db = ring a.
Proof.
  intros R. unfold ready_of, leases_of, tenant_leases_of, ring_of, buffered_of.
  destruct (fwd_of_rep s db a R) as [-> ->].
  split_and!; intros; by rewrite ?(rep_ready _ _ _ R), ?(rep_leases _ _ _ R),
    ?(rep_tlease _ _ _ R), ?(rep_ring _ _ _ R).
Qed.

(** C14: Whatever the interleaving of the scheduler's operations, every job a
    tenant enqueued is in exactly one place: its ready list, the forwarding
    buffer, or confirmed as produced. *)
Theorem fair_jobs_conserved db h :
  reach s db h →
  ∀ t, h_in h t ≡ₚ ready_of l db t ++ buffered_of l db t ++ h_out h t.
Proof.
  intros (a & R & I)%reach_inv t. destruct (read_back db a R) as (-> & -> & _).
  apply (inv_jobs _ _ _ I).
Qed.

(** C16: The leases of a lane never outnumber its budget, nor those of a tenant
    its cap, except by the leases re-armed for reclaimed forwards. *)
Theorem fair_limits_respected db h :
  reach s db h →
  (0 < GlobalConcurrency st →
     Z.of_nat (size (leases_of l db)) <= GlobalConcurrency st + Z.of_nat (h_rearmed h)) ∧
  (0 < MaxInflightPerTenant st → ∀ t,
     Z.of_nat (size (tenant_leases_of l db t)) <= MaxInflightPerTenant st + Z.of_nat (h_rearmed h)).
Proof.
  intros (a & R & I)%reach_inv. destruct (read_back db a R) as (_ & _ & -> & Ht & _).
  split; [apply (inv_budget _ _ _ I) |]. intros Hc t. rewrite Ht. by apply (inv_cap _ _ _ I).
Qed.

(** On the throughput lane no tenant with a ready job is ever outside the
    ring, so that a checkout can always find it. *)
Theorem throughput_never_strands db h t :
  l = LaneThroughput → reach s db h → ready_of l db t ≠ [] → is_Some (ring_of l db !! t).
Proof.
  intros El (a & R & I)%reach_inv. destruct (read_back db a R) as (-> & _ & _ & _ & ->).
  apply (inv_ring _ _ _ I). by rewrite El.
Qed.

(** ** Selection *)

(** The tenants a checkout looks at, in ring order, and the leases of a tenant
    that have not expired. *)
Definition window (db : redis) : list string :=
  (take (Z.to_nat (fetchN st)) (zset_sorted (ring_of l db))).*1.
Definition live (db : redis) (now : Q) (t : string) : Z :=
  Z.of_nat (size (prune now (tenant_leases_of l db t))).
Definition live_total (db : redis) (now : Q) : Z :=
  Z.of_nat (size (prune now (leases_of l db))).

(** The first-round limit of a tenant for the hints of a view; 0 is no limit. *)
Definition tenant_limit (db : redis) (view : activeView) (t : string) : Z :=
  let active := active_count (view_count view) (Z.of_nat (size (ring_of l db))) in
  let g := args_of s view 0 EmptyString in
  capped g (share g active
    (sum_weights (GlobalConcurrency st) (weightedFlag st) (DefaultWeight st)
       (view_sumWeight view) active)
    (weight_value (DefaultWeight st) (default ∅ (get_hash db (weightKey l)) !! t))).

(** A tenant has nothing to give under a limit. *)
Definition nothing_for (db : redis) (now : Q) (limit : Z) (t : string) : Prop :=
  ready_of l db t = [] ∨ limit ≠ 0 ∧ limit <= live db now t.

Lemma nothing_for_spec db a view rtime slot fb t :
  rep l db a → passes (args_of s view rtime slot) fb a t →
  nothing_for db rtime (if fb then MaxInflightPerTenant st else tenant_limit db view t) t.
Proof.
  intros R Hp. destruct (read_back db a R) as (Hr & _ & _ & Ht & Hg).
  unfold nothing_for, live, tenant_limit. rewrite Hr, Ht, Hg, (rep_weights _ _ _ R).
  destruct Hp as [?|Hp]; [by left | right]. unfold admits in Hp.
  apply orb_false_iff in Hp as [H1 H2]. apply Z.eqb_neq in H1. apply Z.ltb_ge in H2.
  by destruct fb.
Qed.

(** A checkout always returns.  It hands out the first job of the first
    tenant in virtual-time order that is below its share of the budget, else of
    the first one below the hard cap; it refuses for lack of budget only when
    the live leases reach it, and finds nothing only when every tenant it looks
    at has no job or is at its cap. *)
Theorem checkout_selects db a view rtime slot :
  rep l db a →
  ∃ db' r, run (checkout_script s view rtime slot) db = (db', Some r) ∧
  match r with
  | Denied why =>
      (why = "budget"%string ∧ 0 < GlobalConcurrency st ∧
         GlobalConcurrency st <= live_total db rtime) ∨
      (why = "none"%string ∧
         Forall (λ t, nothing_for db rtime (MaxInflightPerTenant st) t) (window db))
  | Got t job =>
      (0 < GlobalConcurrency st → live_total db rtime < GlobalConcurrency st) ∧
      head (ready_of l db t) = Some job ∧
      forwarding_of l db' !! slot = Some job ∧ slot_tenant_of l db' !! slot = Some t ∧
      ∃ pre post, window db = pre ++ t :: post ∧
        (Forall (λ u, nothing_for db rtime (tenant_limit db view u) u) pre
         ∨ Forall (λ u, nothing_for db rtime (tenant_limit db view u) u) (window db) ∧
           Forall (λ u, nothing_for db rtime (MaxInflightPerTenant st) u) pre)
  end.
Proof.
  intros R. destruct (wp_run _ _ _ (checkout_script_spec s view rtime slot db a R)) as (db' & r & E & Hp).
  exists db', r. split; [done |]. clear E. destruct (read_back db a R) as (Hr & _ & Hl & _ & Hg).
  set (g := args_of s view rtime slot) in *.
  assert (window db = members g a) as Ew by (unfold window; by rewrite Hg).
  assert (has_room g a ↔ (0 < GlobalConcurrency st → live_total db rtime < GlobalConcurrency st)) as Hroom.
  { unfold has_room, live_total. rewrite Hl. cbn. destruct (Z.le_gt_cases (GlobalConcurrency st) 0); lia. }
  assert (∀ fb ts, Forall (passes g fb a) ts → Forall (λ u, nothing_for db rtime
            (if fb then MaxInflightPerTenant st else tenant_limit db view u) u) ts) as Hf.
  { intros fb ts Hts. eapply Forall_impl; [exact Hts |]. intros u Hu.
    exact (nothing_for_spec db a view rtime slot fb u R Hu). }
  assert (∀ t job rest a1, rep l db' (handed g (settled_of s) t job rest a1) →
            forwarding_of l db' !! slot = Some job ∧ slot_tenant_of l db' !! slot = Some t) as Hslot.
  { intros t job rest a1 R'. destruct (fwd_of_rep s db' _ R') as [-> ->]. cbn.
    by rewrite !lookup_insert_eq. }
  inversion Hp; subst.
  - left. split; [done |]. rewrite Hroom in *. lia.
  - right. split; [done |]. rewrite Ew. by apply (Hf true).
  - rewrite Hr, Ew. split; [by apply Hroom |]. match goal with H : ready a t = _ |- _ => rewrite H end.
    split; [done |]. edestruct Hslot as [-> ->]; [eassumption |]. split_and!; try done.
    exists pre, post. split; [done |]. left. by apply (Hf false).
  - rewrite Hr, Ew. split; [by apply Hroom |]. match goal with H : ready a t = _ |- _ => rewrite H end.
    split; [done |]. edestruct Hslot as [-> ->]; [eassumption |]. split_and!; try done.
    exists pre, post. split; [done |]. right. split; [by apply (Hf false) | by apply (Hf true)].
Qed.

(** ** Weighted fairness *)

Definition backlogged (db : redis) (t : string) : Prop :=
  ready_of l db t ≠ [] ∧ is_Some (ring_of l db !! t).

Definition given (t : string) (r : checkout_reply) : nat :=
  match r with Got t' _ => if decide (t' = t) then 1 else 0 | Denied _ => 0 end.

(** A period in which tenants [i] and [j] always have jobs waiting: checkouts,
    enqueues, confirmations and completions in any order, with the number of
    jobs given to each of the two. *)
Inductive serving (i j : string) (db0 : redis) : nat -> nat -> redis -> Prop :=
| serve_start : serving i j db0 0 0 db0
| serve_checkout ni nj db view rtime slot db' r :
    serving i j db0 ni nj db →
    run (checkout_script s view rtime slot) db = (db', Some r) →
    backlogged db' i → backlogged db' j →
    serving i j db0 (ni + given i r) (nj + given j r) db'
| serve_enqueue ni nj db t p db' r :
    serving i j db0 ni nj db →
    run (EnqueueLua (ringKey l) (vtimeKey l) t p (ReadyWindow st) (readyPrefix l)) db
      = (db', Some r) →
    serving i j db0 ni nj db'
| serve_confirm ni nj db slot db' r :
    serving i j db0 ni nj db →
    run (ConfirmForwardLua (forwardingKey l) (forwardingMetaKey l) slot) db = (db', Some r) →
    serving i j db0 ni nj db'
| serve_complete ni nj db t slot db' r :
    serving i j db0 ni nj db →
    run (CompleteLuaCountLease (leasesKey l) (TenantLeaseKey l t) slot) db = (db', Some r) →
    serving i j db0 ni nj db'.

Definition weight_in (db : redis) (t : string) : Q :=
  weight_value (DefaultWeight st) (default ∅ (get_hash db (weightKey l)) !! t).

(** The service a tenant got, in virtual time. *)
Definition service (n : nat) (w : Q) : Q := (inject_Z (Z.of_nat n) * (1 / w))%Q.

Lemma service_add n k w : (service (n + k) w == service n w + service k w)%Q.
Proof. unfold service. rewrite Nat2Z.inj_add, inject_Z_plus. ring. Qed.

Lemma service_1 w : (service 1 w == 1 / w)%Q.
Proof. unfold service. cbn [Z.of_nat Pos.of_succ_nat]. change (inject_Z 1) with 1%Q. ring. Qed.

(** The virtual time of tenant [t] is its start plus its service. *)
Record paced (wts : gmap string string) (a : lane_state) (t : string) (v w : Q) (n : nat) (q : Q) : Prop := {
  pc_weights : weights a = wts;
  pc_weight : weight (DefaultWeight st) a t = w;
  pc_ready : ready a t ≠ [];
  pc_ring : ring a !! t = Some q;
  pc_score : (q == v + service n w)%Q
}.

Lemma paced_same wts a a' t v w n q :
  paced wts a t v w n q → weights a' = weights a → ready a' t ≠ [] → ring a' !! t = ring a !! t →
  paced wts a' t v w n q.
Proof.
  intros [P1 P2 P3 P4 P5] Hw Hr Hg. split; [congruence | | done | congruence | done].
  unfold weight in *. by rewrite Hw.
Qed.

Lemma unlimited_passes view rtime slot fb a t :
  GlobalConcurrency st <= 0 → MaxInflightPerTenant st = 0 →
  passes (args_of s view rtime slot) fb a t → ready a t = [].
Proof.
  intros Hb Hc [?|Hp]; [done |]. exfalso. revert Hp. unfold admits, limit, capped, share. cbn.
  rewrite Hc. destruct (Z.ltb_spec 0 (GlobalConcurrency st)); [lia |]. by destruct fb.
Qed.

(** The tenant picked is at or before every tenant that has a job. *)
Lemma picked_is_minimal view rtime slot a pre t post q u r :
  let g := args_of s view rtime slot in
  members g a = pre ++ t :: post → Forall (λ m, ready a m = []) pre →
  ring a !! t = Some q → ring a !! u = Some r → ready a u ≠ [] → (q <= r)%Q.
Proof.
  intros g Em Hpre Ht Hu Hru. unfold members in Em.
  apply fmap_app_inv in Em as (pre' & rest & -> & E2 & Em).
  destruct rest as [|[t' q'] post']; [done |]. injection E2 as <- ->.
  assert (zset_sorted (ring a) = pre' ++ (t, q') ::
            (post' ++ drop (Z.to_nat (fetch_n g)) (zset_sorted (ring a)))) as Es.
  { rewrite <- (take_drop (Z.to_nat (fetch_n g)) (zset_sorted (ring a))) at 1. rewrite Em.
    by rewrite <- app_assoc. }
  assert (q' = q) as ->.
  { assert ((t, q') ∈ zset_sorted (ring a)) as Hin by (rewrite Es; set_solver).
    apply zset_sorted_elem in Hin. congruence. }
  apply (zset_sorted_order _ _ _ _ _ _ _ Es Hu). intros Hin.
  rewrite Forall_forall in Hpre. apply Hru, Hpre, list_elem_of_fmap. by exists (u, r).
Qed.

Lemma given_0 t job u : given u (Got t job) = 0%nat → t ≠ u.
Proof. cbn. case_decide; done. Qed.

(** One checkout of an unlimited throughput lane: only the tenant picked moves,
    by the inverse of its weight, and it was at the head of the backlog. *)
Lemma handed_moves view rtime slot a a1 t job rest q :
  let g := args_of s view rtime slot in
  l = LaneThroughput → swept rtime (pruned g a) a1 → ready a t = job :: rest →
  ring a !! t = Some q →
  let a' := handed g (settled_of s) t job rest a1 in
  weights a' = weights a ∧
  (∀ u, ready a u ≠ [] → t ≠ u → ready a' u = ready a u ∧ ring a' !! u = ring a !! u) ∧
  (ready a' t ≠ [] → ring a' !! t = Some (q + 1 / weight (DefaultWeight st) a t)%Q).
Proof.
  intros g El Hs Hr Hq a'.
  assert (∀ u, ready a u ≠ [] → ring a1 !! u = ring a !! u) as Hring.
  { intros u Hu. by destruct (sw_ring _ _ _ Hs u) as [|[_ ?]]. }
  assert (ring a1 !! t = Some q) as Hq1 by (rewrite Hring by (by rewrite Hr); done).
  unfold a', handed, settled_of. rewrite El. cbn. unfold settled_count. cbn.
  rewrite upd_eq, Hq1. cbn. case_decide as Erest; cbn.
  - split; [apply (sw_weights _ _ _ Hs) |]. split.
    + intros u Hu Hne. by rewrite upd_ne, lookup_delete_ne, (sw_ready _ _ _ Hs), Hring.
    + by rewrite upd_eq.
  - split; [apply (sw_weights _ _ _ Hs) |]. split.
    + intros u Hu Hne. by rewrite upd_ne, lookup_insert_ne, (sw_ready _ _ _ Hs), Hring.
    + intros _. rewrite lookup_insert_eq. unfold weight. cbn. by rewrite (sw_weights _ _ _ Hs).
Qed.

Lemma checkout_moves view rtime slot db a db' r :
  l = LaneThroughput → GlobalConcurrency st <= 0 → MaxInflightPerTenant st = 0 →
  rep l db a → run (checkout_script s view rtime slot) db = (db', Some r) →
  ∃ a', rep l db' a' ∧ weights a' = weights a ∧
    (∀ u, ready a u ≠ [] → given u r = 0%nat → ready a' u = ready a u ∧ ring a' !! u = ring a !! u) ∧
    (∀ t q, given t r ≠ 0%nat → ring a !! t = Some q → ready a' t ≠ [] →
       ring a' !! t = Some (q + 1 / weight (DefaultWeight st) a t)%Q ∧
       ∀ u x, ring a !! u = Some x → ready a u ≠ [] → (q <= x)%Q).
Proof.
  intros El Hb Hc R E.
  apply (run_post _ _ _ _ _ (checkout_script_spec s view rtime slot db a R)) in E.
  set (g := args_of s view rtime slot) in *.
  assert (∀ fb ts, Forall (passes g fb a) ts → Forall (λ m, ready a m = []) ts) as Hempty.
  { intros fb ts Hts. eapply Forall_impl; [exact Hts |]. intros m.
    by apply unlimited_passes. }
  assert (∀ pre post t job rest a1, members g a = pre ++ t :: post →
    Forall (λ m, ready a m = []) pre → ready a t = job :: rest →
    swept (now g) (pruned g a) a1 → rep l db' (handed g (settled_of s) t job rest a1) →
    r = Got t job → ∃ a', rep l db' a' ∧ weights a' = weights a ∧
      (∀ u, ready a u ≠ [] → given u r = 0%nat → ready a' u = ready a u ∧ ring a' !! u = ring a !! u) ∧
      (∀ t q, given t r ≠ 0%nat → ring a !! t = Some q → ready a' t ≠ [] →
         ring a' !! t = Some (q + 1 / weight (DefaultWeight st) a t)%Q ∧
         ∀ u x, ring a !! u = Some x → ready a u ≠ [] → (q <= x)%Q)) as Hgot.
  { intros pre post t job rest a1 Em Hpre Hr Hs R' ->.
    pose proof (members_covered g a) as Hcov. rewrite Em in Hcov. apply Forall_elt in Hcov.
    destruct Hcov as [[q Hq]|?]; [| congruence].
    destruct (handed_moves view rtime slot a a1 t job rest q El Hs Hr Hq) as (Hw & Hu & Ht).
    eexists. split; [exact R' |]. split; [done |]. split.
    - intros u Hne Hg. apply Hu; [done | by eapply given_0].
    - intros t' q' Hg Hq' Hr'. cbn in Hg. case_decide; [subst t' | done].
      assert (q' = q) as -> by congruence. split; [by apply Ht |].
      intros u x Hx Hux. by eapply (picked_is_minimal view rtime slot a pre t post). }
  inversion E; subst; try (by eapply Hgot; eauto).
  - eexists. split; [eassumption |]. split_and!; done.
  - eexists. split; [eassumption |].
    match goal with H : swept _ _ _ |- _ => rename H into Hs end.
    split; [apply (sw_weights _ _ _ Hs) |]. split; [| done].
    intros u Hu _. split; [apply (sw_ready _ _ _ Hs) |].
    by destruct (sw_ring _ _ _ Hs u) as [|[_ ?]].
Qed.

Definition level (wts : gmap string string) (i j : string) (vi vj wi wj : Q) (ni nj : nat)
    (db : redis) : Prop :=
  ∃ a qi qj, rep l db a ∧ paced wts a i vi wi ni qi ∧ paced wts a j vj wj nj qj ∧
             (qi <= qj + 1 / wi)%Q ∧ (qj <= qi + 1 / wj)%Q.

Lemma level_sym wts i j vi vj wi wj ni nj db :
  level wts i j vi vj wi wj ni nj db → level wts j i vj vi wj wi nj ni db.
Proof. intros (a & qi & qj & R & Pi & Pj & H1 & H2). exists a, qj, qi. auto. Qed.

(** A step that moves neither tenant. *)
Lemma level_same wts i j vi vj wi wj ni nj a a' qi qj db' :
  paced wts a i vi wi ni qi → paced wts a j vj wj nj qj →
  (qi <= qj + 1 / wi)%Q → (qj <= qi + 1 / wj)%Q →
  rep l db' a' → weights a' = weights a →
  (∀ t, ready a t ≠ [] → is_Some (ring a !! t) → ready a' t ≠ [] ∧ ring a' !! t = ring a !! t) →
  level wts i j vi vj wi wj ni nj db'.
Proof.
  intros Pi Pj H1 H2 R Hw Hs. exists a', qi, qj. split; [done |].
  split; [| split]; [| | done]; eapply paced_same; eauto;
    apply Hs; [apply Pi | by rewrite (pc_ring _ _ _ _ _ _ _ Pi)
              | apply Pi | by rewrite (pc_ring _ _ _ _ _ _ _ Pi)
              | apply Pj | by rewrite (pc_ring _ _ _ _ _ _ _ Pj)
              | apply Pj | by rewrite (pc_ring _ _ _ _ _ _ _ Pj)].
Qed.

(** The tenant picked moves up by its step, from below the other one. *)
Lemma level_picked wts i j vi vj wi wj ni nj a a' qi qj db' :
  (0 < wi)%Q → (0 < wj)%Q →
  paced wts a i vi wi ni qi → paced wts a j vj wj nj qj → (qj <= qi + 1 / wj)%Q → (qi <= qj)%Q →
  rep l db' a' → weights a' = weights a → ready a' i ≠ [] →
  ring a' !! i = Some (qi + 1 / weight (DefaultWeight st) a i)%Q →
  ready a' j = ready a j → ring a' !! j = ring a !! j →
  level wts i j vi vj wi wj (ni + 1) nj db'.
Proof.
  intros Hwi Hwj Pi Pj H2 Hmin R Hw Hri Hqi Hrj Hqj. exists a', (qi + 1 / wi)%Q, qj.
  rewrite (pc_weight _ _ _ _ _ _ _ Pi) in Hqi.
  assert (0 < 1 / wi)%Q by (apply Qlt_shift_div_l; [done | lra]).
  split; [done |]. split; [| split; [| split; lra]].
  - split; try done; [rewrite Hw; apply Pi | | ].
    + unfold weight. rewrite Hw. apply (pc_weight _ _ _ _ _ _ _ Pi).
    + rewrite service_add, service_1, (pc_score _ _ _ _ _ _ _ Pi). lra.
  - eapply paced_same; eauto. rewrite Hrj. apply Pj.
Qed.

Lemma given_cases t r : given t r = 0%nat ∨ given t r = 1%nat ∧ ∃ job, r = Got t job.
Proof. destruct r as [|t' job]; cbn; [by left |]. case_decide; subst; eauto. Qed.

Lemma level_checkout wts i j vi vj wi wj ni nj db view rtime slot db' r :
  l = LaneThroughput → GlobalConcurrency st <= 0 → MaxInflightPerTenant st = 0 → i ≠ j →
  (0 < wi)%Q → (0 < wj)%Q → level wts i j vi vj wi wj ni nj db →
  run (checkout_script s view rtime slot) db = (db', Some r) →
  backlogged db' i → backlogged db' j →
  level wts i j vi vj wi wj (ni + given i r) (nj + given j r) db'.
Proof.
  intros El Hb Hc Hij Hwi Hwj (a & qi & qj & R & Pi & Pj & H1 & H2) E [Bi _] [Bj _].
  destruct (checkout_moves view rtime slot db a db' r El Hb Hc R E) as (a' & R' & Hw & Hsame & Hmove).
  destruct (read_back db' a' R') as (Hr & _). rewrite Hr in Bi, Bj.
  pose proof (pc_ready _ _ _ _ _ _ _ Pi) as Ri. pose proof (pc_ready _ _ _ _ _ _ _ Pj) as Rj.
  pose proof (pc_ring _ _ _ _ _ _ _ Pi) as Qi. pose proof (pc_ring _ _ _ _ _ _ _ Pj) as Qj.
  destruct (given_cases i r) as [Gi|[Gi [job ->]]].
  - destruct (given_cases j r) as [Gj|[Gj [job ->]]].
    + rewrite Gi, Gj, !Nat.add_0_r. destruct (Hsame i Ri Gi) as [E1 E2].
      destruct (Hsame j Rj Gj) as [E3 E4]. exists a', qi, qj. split; [done |].
      split; [by eapply paced_same |]. by split; [eapply paced_same |].
    + rewrite Gi, Gj, Nat.add_0_r. destruct (Hmove j qj) as [Hm Hmin]; [by rewrite Gj | done | done |].
      destruct (Hsame i Ri Gi) as [E1 E2]. apply level_sym.
      eapply (level_picked wts j i vj vi wj wi nj ni a a' qj qi); eauto.
  - assert (given j (Got i job) = 0%nat) as Gj by (cbn; by rewrite decide_False).
    rewrite Gi, Gj, Nat.add_0_r. destruct (Hmove i qi) as [Hm Hmin]; [by rewrite Gi | done | done |].
    destruct (Hsame j Rj Gj) as [E3 E4].
    eapply (level_picked wts i j vi vj wi wj ni nj a a' qi qj); eauto.
Qed.

Lemma level_enqueue wts i j vi vj wi wj ni nj db t p db' r :
  level wts i j vi vj wi wj ni nj db →
  run (EnqueueLua (ringKey l) (vtimeKey l) t p (ReadyWindow st) (readyPrefix l)) db
    = (db', Some r) →
  level wts i j vi vj wi wj ni nj db'.
Proof.
  intros (a & qi & qj & R & Pi & Pj & H1 & H2) E.
  apply (run_post _ _ _ _ _ (EnqueueLua_spec l db a t p _ R)) in E.
  destruct (full _ t a); destruct E as [R' _]; [by exists a, qi, qj |].
  eapply level_same; eauto.
  - unfold enqueued, joined. by destruct (ring a !! t).
  - intros u Hu Hg. destruct (joined_frame t a) as (Hr & _). unfold enqueued. cbn. split.
    + unfold upd. case_decide; [by intros [_ [=]]%app_nil | by rewrite Hr].
    + unfold joined. destruct (ring a !! t) eqn:Et; [done |]. cbn.
      rewrite lookup_insert_ne; [done |]. intros ->. rewrite Et in Hg. by destruct Hg.
Qed.

Lemma serving_level i j db0 wts vi vj wi wj ni nj db :
  l = LaneThroughput → GlobalConcurrency st <= 0 → MaxInflightPerTenant st = 0 → i ≠ j →
  (0 < wi)%Q → (0 < wj)%Q → level wts i j vi vj wi wj 0 0 db0 →
  serving i j db0 ni nj db → level wts i j vi vj wi wj ni nj db.
Proof.
  intros El Hb Hc Hij Hwi Hwj H0'. induction 1 as [| | | ni nj db slot db' r _ IH E
    | ni nj db t slot db' r _ IH E]; [done | by eapply level_checkout | by eapply level_enqueue | |];
    destruct IH as (a & qi & qj & R & Pi & Pj & H1 & H2).
  - apply (run_post _ _ _ _ _ (ConfirmForwardLua_spec l db a slot R)) in E.
    destruct (fwd a !! slot); destruct E as [R' _]; eapply level_same; eauto.
  - apply (run_post _ _ _ _ _ (CompleteLuaCountLease_spec l db a slot t R)) in E.
    eapply level_same; eauto.
Qed.

(** C17: While two tenants of the throughput lane always have jobs waiting and
    nothing caps them (no global budget, no cap per tenant), and their virtual times
    start within one job of each other, then over any run of checkouts, enqueues,
    confirms and completions (without aborts, changes of weights or resets) the jobs
    given to each, divided by its weight, differ by at most one job of each: the
    long-run shares are proportional to the weights. *)
Theorem weighted_fairness db0 a0 i j vi vj ni nj db :
  l = LaneThroughput → GlobalConcurrency st <= 0 → MaxInflightPerTenant st = 0 → i ≠ j →
  rep l db0 a0 → ready_of l db0 i ≠ [] → ready_of l db0 j ≠ [] →
  ring_of l db0 !! i = Some vi → ring_of l db0 !! j = Some vj →
  (0 < weight_in db0 i)%Q → (0 < weight_in db0 j)%Q →
  (vi <= vj + 1 / weight_in db0 i)%Q → (vj <= vi + 1 / weight_in db0 j)%Q →
  serving i j db0 ni nj db →
  (service ni (weight_in db0 i) - service nj (weight_in db0 j)
     <= 1 / weight_in db0 i + 1 / weight_in db0 j)%Q ∧
  (service nj (weight_in db0 j) - service ni (weight_in db0 i)
     <= 1 / weight_in db0 i + 1 / weight_in db0 j)%Q.
Proof.
  intros El Hb Hc Hij R Ri Rj Vi Vj Wi Wj H1 H2 Hs.
  destruct (read_back db0 a0 R) as (Hr & _ & _ & _ & Hg). rewrite Hr in Ri, Rj. rewrite Hg in Vi, Vj.
  assert (∀ t, weight_in db0 t = weight (DefaultWeight st) a0 t) as Hw.
  { intros t. unfold weight_in. by rewrite (rep_weights _ _ _ R). }
  rewrite !Hw in *. set (wi := weight _ a0 i) in *. set (wj := weight _ a0 j) in *.
  assert (level (weights a0) i j vi vj wi wj 0 0 db0) as Hl.
  { exists a0, vi, vj. split; [done |]. split; [| split]; [| | done]; split; try done;
      unfold service; cbn [Z.of_nat]; change (inject_Z 0) with 0%Q; ring. }
  apply (serving_level i j db0 _ _ _ _ _ ni nj db) in Hl; try done.
  destruct Hl as (a & qi & qj & _ & Pi & Pj & L1 & L2).
  pose proof (pc_score _ _ _ _ _ _ _ Pi) as Ei. pose proof (pc_score _ _ _ _ _ _ _ Pj) as Ej.
  split; lra.
Qed.
End props.
From S2P Require Import Concrete.

(** ** Witnesses *)

Definition free_settings : Settings :=
  mkSettings 500 0 0 1800 1 true (sec 5) "" 5 0 (sec 60) true (sec 15).
Definition demo_fast : Scheduler := NewScheduler LaneThroughput free_settings.
Definition demo_slow : Scheduler := NewScheduler LaneTime DefaultSettings.

Lemma rep_empty l : rep l empty_redis (empty_lane ∅ ∅).
Proof. split; try done. Qed.

Definition enqueue_on (s : Scheduler) (t p : string) : script Z unit :=
  EnqueueLua (ringKey (sc_Lane s)) (vtimeKey (sc_Lane s)) t p (ReadyWindow (sc_Settings s))
    (readyPrefix (sc_Lane s)).

Definition db_after {R A} (m : script R A) (db : redis) : redis := (run m db).1.

Lemma run_after {R A} (m : script R A) db r :
  (run m db).2 = Some r → run m db = (db_after m db, Some r).
Proof. unfold db_after. destruct (run m db). cbn. by intros ->. Qed.

Definition no_view : activeView := mkView 0 0.
Definition demo_one : redis := db_after (enqueue_on demo_slow "acme" "job") empty_redis.
Definition demo_out : redis := db_after (checkout_script demo_slow no_view 100 "slot-1") demo_one.
Definition demo_back : redis := db_after (abort_script demo_slow "slot-1" "acme") demo_out.

Lemma demo_one_reach : reach demo_slow demo_one (accepted "acme" "job" no_history).
Proof.
  apply (reach_enqueue demo_slow empty_redis no_history "acme" "job" demo_one 1).
  - apply (reach_empty _ _ ∅ ∅), rep_empty.
  - apply run_after. by vm_compute.
Qed.

Lemma demo_out_reach : reach demo_slow demo_out (accepted "acme" "job" no_history).
Proof.
  apply (reach_checkout demo_slow demo_one _ no_view 100 "slot-1" demo_out (Got "acme" "job"));
    [apply demo_one_reach | by vm_compute | apply run_after; by vm_compute].
Qed.

Lemma demo_back_reach : reach demo_slow demo_back (accepted "acme" "job" no_history).
Proof.
  apply (reach_abort demo_slow demo_out _ "slot-1" "acme" demo_back 1);
    [apply demo_out_reach | left; by vm_compute | apply run_after; by vm_compute].
Qed.

Lemma fair_jobs_conserved_witness :
  h_in (accepted "acme" "job" no_history) "acme"
  ≡ₚ ready_of LaneTime demo_back "acme" ++ buffered_of LaneTime demo_back "acme" ++ [].
Proof. exact (fair_jobs_conserved demo_slow demo_back _ demo_back_reach "acme"). Defined.

Lemma fair_limits_respected_witness :
  Z.of_nat (size (leases_of LaneTime demo_out)) <= 50.
Proof.
  exact (proj1 (fair_limits_respected demo_slow demo_out _ demo_out_reach) eq_refl).
Defined.

Definition demo_two : redis :=
  db_after (enqueue_on demo_fast "b" "b2") (db_after (enqueue_on demo_fast "b" "b1")
    (db_after (enqueue_on demo_fast "a" "a2") (db_after (enqueue_on demo_fast "a" "a1") empty_redis))).

Lemma demo_two_reach :
  reach demo_fast demo_two
    (accepted "b" "b2" (accepted "b" "b1" (accepted "a" "a2" (accepted "a" "a1" no_history)))).
Proof.
  do 4 (eapply (reach_enqueue demo_fast _ _ _ _ _ 1); [| apply run_after; by vm_compute]).
  apply (reach_empty _ _ ∅ ∅), rep_empty.
Qed.

Lemma throughput_never_strands_witness : is_Some (ring_of LaneThroughput demo_two !! "a").
Proof.
  apply (throughput_never_strands demo_fast demo_two _ "a" eq_refl demo_two_reach).
  by vm_compute.
Defined.

Lemma checkout_selects_witness :
  ∃ db' r, run (checkout_script demo_fast no_view 100 "slot-1") demo_two = (db', Some r) ∧
  match r with
  | Denied why => why = "budget"%string ∨ why = "none"%string
  | Got t job => head (ready_of LaneThroughput demo_two t) = Some job
  end.
Proof.
  destruct (reach_inv demo_fast demo_two _ demo_two_reach) as (a & R & _).
  destruct (checkout_selects demo_fast demo_two a no_view 100 "slot-1" R) as (db' & r & E & Hr).
  exists db', r. split; [exact E |]. destruct r.
  - destruct Hr as [[Hw _]|[Hw _]]; [left | right]; exact Hw.
  - exact (proj1 (proj2 Hr)).
Defined.

Definition demo_served : redis := db_after (checkout_script demo_fast no_view 100 "slot-1") demo_two.

Lemma demo_serving : serving demo_fast "a" "b" demo_two 1 0 demo_served.
Proof.
  apply (serve_checkout demo_fast "a" "b" demo_two 0 0 demo_two no_view 100 "slot-1" demo_served
           (Got "a" "a1")); [constructor | apply run_after; by vm_compute | |];
    (split; [by vm_compute | eexists; vm_compute; reflexivity]).
Qed.

Lemma weighted_fairness_witness :
  (service 1 (weight_in demo_fast demo_two "a") - service 0 (weight_in demo_fast demo_two "b")
     <= 1 / weight_in demo_fast demo_two "a" + 1 / weight_in demo_fast demo_two "b")%Q.
Proof.
  destruct (reach_inv demo_fast demo_two _ demo_two_reach) as (a & R & _).
  refine (proj1 (weighted_fairness demo_fast demo_two a "a" "b" 0 0 1 0 demo_served
                   _ _ _ _ _ _ _ _ _ _ _ _ _ _));
    [reflexivity | by vm_compute | reflexivity | discriminate | exact R | ..];
    [by vm_compute | by vm_compute | by vm_compute | by vm_compute | by vm_compute
    | by vm_compute | by vm_compute | by vm_compute | exact demo_serving].
Defined.

(** On the time lane an aborted forward can strand its job: the checkout of
    a tenant's last ready job takes the tenant out of the ring, the abort puts
    the job back in the ready list but not the tenant in the ring, and the next
    checkout finds nothing. *)
Theorem time_abort_strands :
  reach demo_slow demo_back (accepted "acme" "job" no_history) ∧
  ready_of LaneTime demo_back "acme" = ["job"%string] ∧
  ring_of LaneTime demo_back = ∅ ∧
  (run (checkout_script demo_slow no_view 200 "slot-2") demo_back).2 = Some (Denied "none").
Proof. split; [exact demo_back_reach |]. by vm_compute. Qed.
