(* ===== verification/Forwarder.v ===== *)
(** The fair forwarder and dispatcher: pkg/fairness/forwarder.go and
    dispatcher.go.

    The dispatcher enqueues the messages of the ingest topic into the scheduler;
    the forwarder checks jobs out, produces them to the ready topic and confirms
    or aborts the forward.  What a pass reads from outside (the clock, the
    server's time, the new slot id, the ingest lag) is a [tick]. *)
From S2P Require Import Prelude Redis Client Kafka Protocol Fairness.

Record tick := Tick { tk_now : Z; tk_rtime : Q; tk_slot : string; tk_ingest : option (result Z) }.

Inductive forwardOutcome := forwardDidWork | forwardIdle | forwardFailed.

Definition reclaimInterval : Z := sec 30.
Definition idleCheckInterval : Z := sec 5.
Definition defaultBurst : Z := 50.

(** The zero time.Time is [None]: any interval has passed since. *)
Record Forwarder := mkForwarder {
  fw_Lane : Lane; fw_Scheduler : Scheduler; fw_ReadyTopic : string;
  fw_Resolve : option (string -> result string);
  fw_OnExpired : option (CheckoutResult -> string -> kio error);
  fw_lastLeaseReclaim : option Z; fw_lastForwardReclaim : option Z;
  fw_lastIdleCheck : option Z; fw_quiescentSince : option Z; fw_vtimeResetDone : bool
}.

Definition set_sched (f : Forwarder) (s : Scheduler) : Forwarder :=
  mkForwarder (fw_Lane f) s (fw_ReadyTopic f) (fw_Resolve f) (fw_OnExpired f)
    (fw_lastLeaseReclaim f) (fw_lastForwardReclaim f) (fw_lastIdleCheck f)
    (fw_quiescentSince f) (fw_vtimeResetDone f).

Definition set_reclaims (f : Forwarder) (lease forward : option Z) : Forwarder :=
  mkForwarder (fw_Lane f) (fw_Scheduler f) (fw_ReadyTopic f) (fw_Resolve f) (fw_OnExpired f)
    lease forward (fw_lastIdleCheck f) (fw_quiescentSince f) (fw_vtimeResetDone f).

Definition set_idle (f : Forwarder) (check since : option Z) (done : bool) : Forwarder :=
  mkForwarder (fw_Lane f) (fw_Scheduler f) (fw_ReadyTopic f) (fw_Resolve f) (fw_OnExpired f)
    (fw_lastLeaseReclaim f) (fw_lastForwardReclaim f) check since done.

(** [now.Sub(last) >= d]. *)
Definition elapsed (now : Z) (last : option Z) (d : Z) : bool :=
  match last with None => true | Some t => d <=? now - t end.

Section forwarder.
Context `{NumText} `{Json} `{TimeText}.

Definition readyTopicFor (f : Forwarder) (payload : string) : result string :=
  match fw_Resolve f with
  | Some resolve => resolve payload
  | None => if String.eqb (fw_ReadyTopic f) ""
            then Bad "forwarder has no ready topic router configured"
            else Ok (fw_ReadyTopic f)
  end.

(** Whether the job was expired, hence dealt with. *)
Definition handleExpired (f : Forwarder) (now : Z) (job : CheckoutResult)
    : kio (Forwarder * bool) :=
  match unmarshal (Co_Payload job) with
  | Bad _ => mret (f, false)
  | Ok m =>
      if negb (Expired (str_field (fields m) "valid_till") now) then mret (f, false)
      else
        e ← (match fw_OnExpired f with
             | Some drop => drop job (Co_Payload job)
             | None => mret None
             end);
        match e with
        | Some _ => mret (f, true)
        | None =>
            c ← redis_io (CompleteSlot (fw_Scheduler f) now (Co_Tenant job) (Co_Slot job) 0);
            let f := set_sched f c.1 in
            _ ← redis_io (ConfirmForward (fw_Scheduler f) (Co_Slot job));
            mret (f, true)
        end
  end.

Definition forwardJob (f : Forwarder) (job : CheckoutResult) : kio (outcome error) :=
  let abort (e : string) : kio (outcome error) :=
    _ ← redis_io (AbortForward (fw_Scheduler f) (Co_Slot job) (Co_Tenant job));
    mret (Done (Some e)) in
  match markSlot (Co_Payload job) (Co_Tenant job) (Co_Slot job) (fw_Lane f) with
  | Panic => mret Panic
  | Done (Bad e) => abort e
  | Done (Ok (marked, key)) =>
      let key := if String.eqb key "" then Co_Tenant job else key in
      match readyTopicFor f (Co_Payload job) with
      | Bad e => abort e
      | Ok topic =>
          err ← Produce topic key marked;
          match err with
          | Some e => abort e
          | None =>
              c ← redis_io (ConfirmForward (fw_Scheduler f) (Co_Slot job));
              mret (Done c.2)
          end
      end
  end.

Definition forwardOnceOutcome (f : Forwarder) (t : tick)
    : kio (Forwarder * outcome forwardOutcome) :=
  c ← redis_io (Checkout (fw_Scheduler f) (tk_now t) (tk_ingest t) (tk_rtime t) (tk_slot t));
  let f := set_sched f c.1 in
  match c.2 with
  | (_, Some _) => mret (f, Done forwardFailed)
  | (None, None) => mret (f, Done forwardIdle)
  | (Some job, None) =>
      h ← handleExpired f (tk_now t) job;
      if (h : Forwarder * bool).2 then mret (h.1, Done forwardDidWork)
      else
        e ← forwardJob h.1 job;
        mret (h.1, match e with
                   | Panic => Panic
                   | Done (Some _) => Done forwardFailed
                   | Done None => Done forwardDidWork
                   end)
  end.

Definition ForwardOnce (f : Forwarder) (t : tick) : kio (Forwarder * outcome bool) :=
  r ← forwardOnceOutcome f t;
  mret (r.1, match r.2 with
             | Panic => Panic
             | Done forwardDidWork => Done true
             | Done _ => Done false
             end).

(** [ticks] are the passes until the context is cancelled. *)
Fixpoint drainBurst (f : Forwarder) (ticks : list tick) (burst n : nat)
    : kio (Forwarder * outcome (nat * bool * bool)) :=
  match burst, ticks with
  | O, _ => mret (f, Done (n, false, false))
  | _, [] => mret (f, Done (n, false, false))
  | S burst, t :: ticks =>
      r ← forwardOnceOutcome f t;
      match r.2 with
      | Panic => mret (r.1, Panic)
      | Done forwardDidWork => drainBurst r.1 ticks burst (S n)
      | Done forwardIdle => mret (r.1, Done (n, true, false))
      | Done forwardFailed => mret (r.1, Done (n, false, true))
      end
  end.

Fixpoint reclaim_each (f : Forwarder) (now : Z) (stale : list StaleForward) : kio (outcome unit) :=
  match stale with
  | [] => mret (Done tt)
  | e :: stale =>
      r ← ReclaimStaleForward (fw_Scheduler f) now e (fun payload key =>
            match readyTopicFor f payload with
            | Bad e => mret (Some e)
            | Ok topic => Produce topic key payload
            end);
      match r with
      | Panic => mret Panic
      | Done _ => reclaim_each f now stale
      end
  end.

Definition maybeReclaim (f : Forwarder) (now : Z) : kio (Forwarder * outcome unit) :=
  f ← (if elapsed now (fw_lastLeaseReclaim f) reclaimInterval then
         _ ← redis_io (ReclaimExpiredLeases (fw_Scheduler f) now);
         mret (set_reclaims f (Some now) (fw_lastForwardReclaim f))
       else mret f);
  if elapsed now (fw_lastForwardReclaim f) reclaimInterval then
    let f := set_reclaims f (fw_lastLeaseReclaim f) (Some now) in
    st ← redis_io (ListStaleForwards (fw_Scheduler f) now);
    match st with
    | (_, Some _) => mret (f, Done tt)
    | (stale, None) => r ← reclaim_each f now stale; mret (f, r)
    end
  else mret (f, Done tt).

Definition redisIdle (f : Forwarder) (now : Z) : io (bool * error) :=
  st ← stats (fw_Scheduler f) now;
  mret (match st with
        | (_, Some e) => (false, Some e)
        | (st, None) => ((ActiveTenants st =? 0) && (InflightTotal st =? 0)
                         && (ForwardingDepth st =? 0), None)
        end).

Definition maybeResetVtimeIdle (f : Forwarder) (t : tick) : io Forwarder :=
  let now := tk_now t in
  if negb (ResetVtimeWhenIdle (sc_Settings (fw_Scheduler f))) then mret f
  else if negb (elapsed now (fw_lastIdleCheck f) idleCheckInterval) then mret f
  else
    idle ← redisIdle f now;
    match idle with
    | (_, Some _) | (false, None) => mret (set_idle f (Some now) None false)
    | (true, None) =>
        let f := set_idle f (Some now) (fw_quiescentSince f) (fw_vtimeResetDone f) in
        if fw_vtimeResetDone f then mret f
        else match fw_quiescentSince f with
        | None => mret (set_idle f (Some now) (Some now) false)
        | Some since =>
            if now - since <? EffectiveVtimeIdleResetDebounce (sc_Settings (fw_Scheduler f))
            then mret f
            else match IngestPending (tk_ingest t) with
            | (_, Some _) => mret f
            | (true, None) => mret (set_idle f (Some now) None false)
            | (false, None) =>
                r ← ResetVtimeIfQuiescent (fw_Scheduler f) now;
                mret (match r with
                      | (_, Some _) => f
                      | (_, None) => set_idle f (Some now) (Some since) true
                      end)
            end
        end
    end.

(** One iteration of Run: drain, reclaim, reset; whether it then sleeps.
    [burst] is the configured burst with its default. *)
Definition run_iteration (f : Forwarder) (ticks : list tick) (t : tick) (burst : Z)
    : kio (Forwarder * outcome bool) :=
  let burst := if burst <=? 0 then defaultBurst else burst in
  d ← drainBurst f ticks (Z.to_nat burst) 0;
  match d.2 with
  | Panic => mret (d.1, Panic)
  | Done (n, empty, failed) =>
      m ← maybeReclaim d.1 (tk_now t);
      match m.2 with
      | Panic => mret (m.1, Panic)
      | Done tt =>
          f ← redis_io (maybeResetVtimeIdle m.1 t);
          mret (f, Done (negb ((Z.of_nat n =? burst) && negb empty && negb failed
                               || (0 <? Z.of_nat n) && failed)))
      end
  end.

(** ** The dispatcher *)

Record DispatchOutcome := mkDispatch {
  Di_CommitOffset : bool; Di_Enqueued : bool; Di_Backpressure : bool; Di_TenantID : string
}.

Definition Dispatch (sched : option Scheduler) (onExpired : option (string -> SourceCoords -> kio error))
    (now : Z) (raw : string) (src : SourceCoords) : kio (outcome (DispatchOutcome * error)) :=
  match unmarshal raw with
  | Bad _ => mret (Done (mkDispatch true false false "", None))
  | Ok m =>
      let tenantID := TenantFromMessage (fields m) in
      let out := mkDispatch true false false tenantID in
      if Expired (str_field (fields m) "valid_till") now then
        e ← (match onExpired with Some drop => drop raw src | None => mret None end);
        mret (Done (out, e))
      else match sched with
      | None => mret (Done (out, None))
      | Some sched =>
          match StampSource m src with
          | Panic => mret Panic
          | Done m =>
              match marshal (fields m) with
              | Bad e => mret (Done (out, Some e))
              | Ok stamped =>
                  r ← redis_io (Enqueue sched tenantID stamped);
                  mret (Done (match r with
                              | (_, Some e) => (out, Some e)
                              | (false, None) => (mkDispatch false false true tenantID, None)
                              | (true, None) => (mkDispatch true true false tenantID, None)
                              end))
              end
          end
      end
  end.
End forwarder.

(** The coordinator starts the forwarder of a lane once; the flag says whether
    this call starts it. *)
Definition Ensure (started : gset Lane) (lane : Lane) : gset Lane * bool :=
  if decide (lane ∈ started) then (started, false) else ({[lane]} ∪ started, true).
