(* ===== verification/ForwarderProps.v ===== *)
(** The properties of the forwarder and the dispatcher. *)
From S2P Require Import Prelude Redis Client Kafka Protocol Fairness FairnessSpec FairnessCheckout FairnessTrace Forwarder.

(** ** Go functions as steps of the lane *)

Section steps.
Context `{NumLaws} `{Json} `{TimeText}.
Implicit Types (s : Scheduler) (w : world) (h : history).

(** A command that changes nothing, whatever the network does. *)
Lemma do_reads {A} (c : cmd A) w : (∀ db, (c db).1 = db) → w_db (do c w).1 = w_db w.
Proof.
  intros Hc. pose proof (do_cases c w) as Hd. destruct (do c w) as [w' r]. cbn.
  destruct Hd as [[-> _]|[-> _]]; auto.
Qed.

Lemma read_ZCARD k db : (command (ZCARD k) db).1 = db.
Proof. unfold command, ZCARD, lift. by destruct (get_zset db k). Qed.
Lemma read_ZRANGE_ALL k db : (command (ZRANGE_ALL k) db).1 = db.
Proof. unfold command, ZRANGE_ALL, lift. by destruct (get_zset db k). Qed.
Lemma read_HGETALL k db : (command (HGETALL k) db).1 = db.
Proof. unfold command, HGETALL, lift. by destruct (get_hash db k). Qed.
Lemma read_SCAN k db : (command (SCAN k) db).1 = db.
Proof. done. Qed.

Lemma WeightFor_db s now t w :
  w_db (WeightFor s now t w).1 = w_db w ∧ sc_Lane (WeightFor s now t w).2.1 = sc_Lane s ∧
  sc_Settings (WeightFor s now t w).2.1 = sc_Settings s.
Proof.
  unfold WeightFor. destruct (sc_weights s ≫= _) as [q|]; [done |].
  unfold mbind, io_bind.
  pose proof (do_reads (command (HGETALL (weightKey (sc_Lane s)))) w (read_HGETALL _)) as Hd.
  destruct (do _ w) as [w' [all|e]]; cbn in *; auto.
Qed.

Lemma leased_tenants_db prefix keys w : w_db (leased_tenants prefix keys w).1 = w_db w.
Proof.
  revert w. induction keys as [|k keys IH]; intros w; cbn [leased_tenants]; [done |].
  unfold mbind, io_bind. pose proof (do_reads (command (ZCARD k)) w (read_ZCARD k)) as Hd.
  destruct (do _ w) as [w' r]. specialize (IH w').
  destruct (leased_tenants prefix keys w') as [w'' rest]. cbn in *. congruence.
Qed.

Lemma total_weight_db s now ts sum w :
  w_db (total_weight s now ts sum w).1 = w_db w ∧
  sc_Lane (total_weight s now ts sum w).2.1 = sc_Lane s ∧
  sc_Settings (total_weight s now ts sum w).2.1 = sc_Settings s.
Proof.
  revert s sum w. induction ts as [|t ts IH]; intros s sum w; cbn [total_weight]; [done |].
  unfold mbind, io_bind. destruct (WeightFor_db s now t w) as (E1 & E2 & E3).
  destruct (WeightFor s now t w) as [w' [s' q]]. cbn in *.
  destruct (IH s' (sum + q)%Q w') as (-> & -> & ->). auto.
Qed.

Lemma activeViewCached_db s now ingest w :
  w_db (activeViewCached s now ingest w).1 = w_db w ∧
  sc_Lane (activeViewCached s now ingest w).2.1 = sc_Lane s ∧
  sc_Settings (activeViewCached s now ingest w).2.1 = sc_Settings s.
Proof.
  unfold activeViewCached. destruct (match sc_viewAt s with Some _ => _ | None => _ end); [done |].
  unfold computeActiveView, computeRingLeaseView, mbind, io_bind.
  pose proof (do_reads (command (ZRANGE_ALL (ringKey (sc_Lane s)))) w (read_ZRANGE_ALL _)) as H1'.
  destruct (do _ w) as [w1 [ms|e]]; cbn in H1'.
  2: { destruct ingest as [[n|e']|]; cbn; auto. destruct (String.eqb _ _); cbn; auto. }
  pose proof (do_reads (command (SCAN (leasePrefix (sc_Lane s)))) w1 (read_SCAN _)) as H2'.
  destruct (do _ w1) as [w2 k]; cbn in H2'.
  set (keys := match k with Ok keys => keys | Bad _ => [] end).
  pose proof (leased_tenants_db (leasePrefix (sc_Lane s)) keys w2) as H3'.
  destruct (leased_tenants _ keys w2) as [w3 leased]. cbn in H3'.
  destruct (weightedFlag (sc_Settings s) =? 1).
  - destruct (total_weight_db s now (uniqueStrings (ms ++ leased)) 0 w3) as (E4 & E5 & E6).
    destruct (total_weight s now _ 0 w3) as [w4 [s4 q]]. cbn in *.
    destruct ingest as [[n|e']|]; cbn; [| split_and!; congruence..].
    destruct (String.eqb _ _); cbn; split_and!; congruence.
  - cbn. destruct ingest as [[n|e']|]; cbn; [| split_and!; congruence..].
    destruct (String.eqb _ _); cbn; split_and!; congruence.
Qed.

(** A script call either did not run or ran to its reply. *)
Lemma do_script {R} (m : script R unit) w (P : redis → R → Prop) :
  wp m (w_db w) (returns P) →
  w_db (do (call m) w).1 = w_db w ∧ (∃ e, (do (call m) w).2 = Bad e) ∨
  ∃ r, run m (w_db w) = (w_db (do (call m) w).1, Some r) ∧
       ((do (call m) w).2 = Ok r ∨ ∃ e, (do (call m) w).2 = Bad e).
Proof.
  intros (db' & r & E & _)%wp_run. pose proof (do_cases (call m) w) as Hd.
  destruct (do (call m) w) as [w' x]. unfold call in Hd. rewrite E in Hd. cbn in *.
  destruct Hd as [[-> He]|[-> Hx]]; [left; auto | right]. exists r. auto.
Qed.

(** Two schedulers that differ in their caches have the same histories. *)
Definition same_lane s s' : Prop := sc_Lane s' = sc_Lane s ∧ sc_Settings s' = sc_Settings s.

Lemma reach_same s s' db h : same_lane s s' → reach s db h → reach s' db h.
Proof.
  destruct s as [l0 st0 v0 va0 c0 ca0], s' as [l1 st1 v1 va1 c1 ca1].
  intros [E1 E2]. cbn in E1, E2. subst l1 st1.
  set (x := mkSched l0 st0 v1 va1 c1 ca1).
  induction 1 as [db vt wts R
    | db h t p db' r _ IH E
    | db h view rtime slot db' r _ IH Hs E
    | db h slot db' r _ IH E
    | db h slot t db' r _ IH Hm E
    | db h t slot db' r _ IH E
    | db h t inc slot db' r _ IH E
    | db h t inc db' r _ IH E
    | db h slot exp _ IH
    | db h t slot exp _ IH
    | db h t slot exp db' r _ IH E
    | db h at_ _ IH
    | db h t at_ _ IH
    | db h at_ db' r _ IH E
    | db h t w _ IH
    | db h db' _ IH Ho].
  - exact (reach_empty x _ _ _ R).
  - exact (reach_enqueue x db h t p db' r IH E).
  - exact (reach_checkout x db h view rtime slot db' r IH Hs E).
  - exact (reach_confirm x db h slot db' r IH E).
  - exact (reach_abort x db h slot t db' r IH Hm E).
  - exact (reach_complete_count x db h t slot db' r IH E).
  - exact (reach_complete_time x db h t inc slot db' r IH E).
  - exact (reach_complete_legacy x db h t inc db' r IH E).
  - exact (reach_renew x db h slot exp IH).
  - exact (reach_renew_tenant x db h t slot exp IH).
  - exact (reach_rearm x db h t slot exp db' r IH E).
  - exact (reach_sweep x db h at_ IH).
  - exact (reach_sweep_tenant x db h t at_ IH).
  - exact (reach_reset x db h at_ db' r IH E).
  - exact (reach_weight x db h t w IH).
  - exact (reach_other x db h db' IH Ho).
Qed.

Lemma Checkout_reach s now ingest rtime slot w h :
  reach s (w_db w) h → forwarding_of (sc_Lane s) (w_db w) !! slot = None →
  let '(w', (s', (o, e))) := Checkout s now ingest rtime slot w in
  reach s (w_db w') h ∧ same_lane s s' ∧
  ∀ job, o = Some job →
    Co_Slot job = slot ∧ forwarding_of (sc_Lane s) (w_db w') !! slot = Some (Co_Payload job) ∧
    slot_tenant_of (sc_Lane s) (w_db w') !! slot = Some (Co_Tenant job).
Proof.
  intros Hr Hs. unfold Checkout. destruct (ValidateLane (sc_Lane s)); [done |].
  unfold mbind, io_bind. destruct (activeViewCached_db s now ingest w) as (E1 & E2 & E3).
  destruct (activeViewCached s now ingest w) as [w1 [s1 view]]. cbn in E1, E2, E3.
  rewrite <- E1 in Hr, Hs. destruct (reach_inv s _ _ Hr) as (a & R & _). cbn [fst snd].
  pose proof (checkout_script_spec s view rtime slot (w_db w1) a R) as Hc.
  destruct (do_script _ w1 _ Hc) as [[Hn [e He]]|(r & Er & Hx)].
  - destruct (do _ w1) as [w2 x]. cbn in *. subst x. rewrite Hn. done.
  - assert (reach s (w_db (do (call (checkout_script s view rtime slot)) w1).1) h) as Hr2.
    { by eapply reach_checkout. }
    destruct (do _ w1) as [w2 x]. cbn [fst snd] in *.
    destruct Hx as [->|[e ->]]; [| done]. destruct r as [why|t p]; [done |]. cbn.
    split; [done |]. split; [done |]. intros job [= <-]. split; [done |]. apply (run_post _ _ _ _ _ Hc) in Er. cbn.
    inversion Er; subst;
      match goal with R' : rep _ _ (handed _ _ _ _ _ _) |- _ =>
        destruct (fwd_of_rep s _ _ R') as [-> ->] end; cbn; by rewrite !lookup_insert_eq.
Qed.

Lemma AbortForward_reach s slot t w h :
  reach s (w_db w) h → slot_tenant_of (sc_Lane s) (w_db w) !! slot = Some t →
  reach s (w_db (AbortForward s slot t w).1) h.
Proof.
  intros Hr Ht. unfold AbortForward. destruct (_ || _); [done |].
  unfold mbind, io_bind. destruct (reach_inv s _ _ Hr) as (a & R & _).
  assert (∃ P, wp (abort_script s slot t) (w_db w) (returns P)) as [P Hw].
  { unfold abort_script. destruct (String.eqb _ _); eexists;
      [by apply AbortForwardLuaTime_spec | by apply AbortForwardLuaCount_spec]. }
  destruct (do_script _ w _ Hw) as [[Hn _]|(r & Er & _)]; destruct (do _ w) as [w2 x]; cbn in *.
  - by rewrite Hn.
  - eapply reach_abort; eauto.
Qed.

Lemma ConfirmForward_reach s slot w h :
  reach s (w_db w) h →
  reach s (w_db (ConfirmForward s slot w).1) h ∨
  ∃ p t, forwarding_of (sc_Lane s) (w_db w) !! slot = Some p ∧
         slot_tenant_of (sc_Lane s) (w_db w) !! slot = Some t ∧
         reach s (w_db (ConfirmForward s slot w).1) (handed_over t p h).
Proof.
  intros Hr. unfold ConfirmForward. destruct (String.eqb slot ""); [by left |].
  unfold mbind, io_bind. destruct (reach_inv s _ _ Hr) as (a & R & _).
  destruct (do_script _ w _ (ConfirmForwardLua_spec (sc_Lane s) (w_db w) a slot R))
    as [[Hn _]|(r & Er & _)]; destruct (do _ w) as [w2 x]; cbn in *.
  - left. by rewrite Hn.
  - apply (reach_confirm s _ h) in Er; [| done].
    destruct (forwarding_of _ _ !! slot) as [p|], (slot_tenant_of _ _ !! slot) as [t|]; eauto 10.
Qed.

Lemma CompleteSlot_reach s now t slot d w h :
  reach s (w_db w) h →
  reach s (w_db (CompleteSlot s now t slot d w).1) h ∧
  same_lane s (CompleteSlot s now t slot d w).2.1 ∧
  forwarding_of (sc_Lane s) (w_db (CompleteSlot s now t slot d w).1)
    = forwarding_of (sc_Lane s) (w_db w) ∧
  slot_tenant_of (sc_Lane s) (w_db (CompleteSlot s now t slot d w).1)
    = slot_tenant_of (sc_Lane s) (w_db w).
Proof.
  intros Hr. unfold CompleteSlot. destruct (String.eqb slot "" && _) eqn:E0; [done |].
  destruct (String.eqb (sc_Lane s) LaneThroughput) eqn:E1; unfold mbind, io_bind.
  - destruct (reach_inv s _ _ Hr) as (a & R & _).
    pose proof (CompleteLuaCountLease_spec (sc_Lane s) (w_db w) a slot t R) as Hw.
    destruct (do_script _ w _ Hw) as [[Hn _]|(r & Er & _)]; destruct (do _ w) as [w2 x]; cbn in *.
    + by rewrite Hn.
    + split; [by eapply reach_complete_count |]. split; [done |].
      apply (run_post _ _ _ _ _ Hw) in Er. destruct (fwd_of_rep s _ _ R) as [-> ->].
      by destruct (fwd_of_rep s _ _ Er) as [-> ->].
  - destruct (WeightFor_db s now t w) as (F1 & F2 & F3).
    destruct (WeightFor s now t w) as [w1 [s1 q]]. cbn in *. rewrite <- F1 in *.
    destruct (reach_inv s _ _ Hr) as (a & R & _).
    set (inc := if Qle_bool q 0 then d else (d / q)%Q). destruct (String.eqb slot "").
    + pose proof (CompleteLuaTimeLegacy_spec (sc_Lane s) (w_db w1) a t inc R) as Hw.
      destruct (do_script _ w1 _ Hw) as [[Hn _]|(r & Er & _)]; destruct (do _ w1) as [w2 x]; cbn in *.
      * by rewrite Hn.
      * split; [by eapply reach_complete_legacy |]. split; [done |].
        apply (run_post _ _ _ _ _ Hw) in Er. destruct (fwd_of_rep s _ _ R) as [-> ->].
        destruct (fwd_of_rep s _ _ Er) as [-> ->]. unfold charged. by case_decide.
    + pose proof (CompleteLuaTimeLease_spec (sc_Lane s) (w_db w1) a t inc slot R) as Hw.
      destruct (do_script _ w1 _ Hw) as [[Hn _]|(r & Er & _)]; destruct (do _ w1) as [w2 x]; cbn in *.
      * by rewrite Hn.
      * split; [by eapply reach_complete_time |]. split; [done |].
        apply (run_post _ _ _ _ _ Hw) in Er. destruct (fwd_of_rep s _ _ R) as [-> ->].
        cbv zeta in Er. destruct (tlease a t !! slot);
          destruct (fwd_of_rep s _ _ Er) as [-> ->]; [| done]. unfold charged. by case_decide.
Qed.

(** ** One pass of the forwarder *)

(** The drop handler for expired jobs leaves the keys of the lane alone. *)
Definition keeps_lane (f : Forwarder) : Prop :=
  match fw_OnExpired f with
  | None => True
  | Some drop => ∀ job raw S a, rep (sc_Lane (fw_Scheduler f)) (w_db (sys S)) a →
                   rep (sc_Lane (fw_Scheduler f)) (w_db (sys (drop job raw S).1)) a
  end.

(** The job was appended to the ready topic, marked with its slot. *)
Definition forwarded (f : Forwarder) (slot t job : string) (S S' : system) : Prop :=
  ∃ topic marked k0, markSlot job t slot (fw_Lane f) = Done (Ok (marked, k0)) ∧ readyTopicFor f job = Ok topic ∧
    k_log S' = k_log S ++ [Msg topic (if String.eqb k0 "" then t else k0) marked].

(** The job had expired, and the drop handler, if there is one, was called on it in
    the state [S1] and accepted it. *)
Definition dropped (f : Forwarder) (now : Z) (slot t job : string) (S1 S' : system) : Prop :=
  (∃ m, unmarshal job = Ok m ∧ Expired (str_field (fields m) "valid_till") now = true) ∧
  match fw_OnExpired f with
  | None => k_log S' = k_log S1
  | Some drop => ∃ S2, drop (mkCheckout t job slot) job S1 = (S2, None) ∧ k_log S' = k_log S2
  end.

(** The state after the checkout of a pass. *)
Definition after_checkout (f : Forwarder) (t : tick) (S : system) : system :=
  System (Checkout (fw_Scheduler f) (tk_now t) (tk_ingest t) (tk_rtime t) (tk_slot t) (sys S)).1 (k_log S) (k_net S).

Lemma redis_io_sys {A} (m : io A) S :
  redis_io m S = (System (m (sys S)).1 (k_log S) (k_net S), (m (sys S)).2).
Proof. unfold redis_io. by destruct (m (sys S)). Qed.

Lemma Produce_log topic key p S :
  sys (Produce topic key p S).1 = sys S ∧
  ((Produce topic key p S).2 = None → k_log (Produce topic key p S).1 = k_log S ++ [Msg topic key p]).
Proof. unfold Produce. by destruct (k_net S) as [|[] net]. Qed.

Lemma forwardJob_reach f t job slot S h :
  let s := fw_Scheduler f in
  reach s (w_db (sys S)) h →
  forwarding_of (sc_Lane s) (w_db (sys S)) !! slot = Some job →
  slot_tenant_of (sc_Lane s) (w_db (sys S)) !! slot = Some t →
  let S' := (forwardJob f (mkCheckout t job slot) S).1 in
  reach s (w_db (sys S')) h ∨ reach s (w_db (sys S')) (handed_over t job h) ∧ forwarded f slot t job S S'.
Proof.
  intros s Hr Hf Ht. unfold forwardJob, mbind, kio_bind. cbn [Co_Payload Co_Tenant Co_Slot].
  destruct (markSlot job t slot (fw_Lane f)) as [[[marked k0]|e]|] eqn:Em; [| |by left].
  2: { rewrite redis_io_sys. left. cbn. by apply AbortForward_reach. }
  destruct (readyTopicFor f job) as [topic|e] eqn:Et0.
  2: { rewrite redis_io_sys. left. cbn. by apply AbortForward_reach. }
  set (key := if String.eqb k0 "" then t else k0).
  destruct (Produce_log topic key marked S) as [Hsys Hlog].
  destruct (Produce topic key marked S) as [S1 [e|]]; cbn in Hsys, Hlog; rewrite redis_io_sys; cbn.
  - left. rewrite Hsys. by apply AbortForward_reach.
  - rewrite Hsys. destruct (ConfirmForward_reach s slot (sys S) h Hr) as [?|(p & t' & Ep & Et & Hr')];
      [by left | right]. rewrite Hf in Ep. rewrite Ht in Et. injection Ep as <-. injection Et as <-.
    split; [done |]. exists topic, marked, k0. split; [done |]. split; [done |]. cbn. auto.
Qed.

Lemma handleExpired_reach f now t job slot S h :
  let s := fw_Scheduler f in
  keeps_lane f → reach s (w_db (sys S)) h →
  forwarding_of (sc_Lane s) (w_db (sys S)) !! slot = Some job →
  slot_tenant_of (sc_Lane s) (w_db (sys S)) !! slot = Some t →
  let '(S', (f', b)) := handleExpired f now (mkCheckout t job slot) S in
  if b then reach s (w_db (sys S')) h
            ∨ reach s (w_db (sys S')) (handed_over t job h) ∧ dropped f now slot t job S S'
  else S' = S ∧ f' = f.
Proof.
  intros s Hk Hr Hf Ht. unfold handleExpired, mbind, kio_bind. cbn [Co_Payload Co_Tenant Co_Slot].
  destruct (unmarshal job) as [m|e] eqn:Eu; [| done].
  destruct (Expired _ now) eqn:Ee; [| done]. cbn [negb].
  assert (∃ S1 e, (match fw_OnExpired f with
     | Some drop => drop (mkCheckout t job slot) job | None => mret (M:=kio) None end) S = (S1, e) ∧
     (∀ a, rep (sc_Lane s) (w_db (sys S)) a → rep (sc_Lane s) (w_db (sys S1)) a) ∧
     (e = None → ∀ S', k_log S' = k_log S1 → dropped f now slot t job S S')) as (S1 & e & E & Hk1 & Hd).
  { unfold keeps_lane, dropped in *. destruct (fw_OnExpired f) as [drop|].
    - destruct (drop (mkCheckout t job slot) job S) as [S1 e] eqn:Ed. exists S1, e. split; [done |]. split.
      + intros a R. pose proof (Hk (mkCheckout t job slot) job S a R) as H'. by rewrite Ed in H'.
      + intros -> S' El. split; [eauto |]. by exists S1.
    - exists S, None. split; [done |]. split; [done |]. intros _ S' El. split; [eauto | done]. }
  lazymatch goal with |- context [match ?m S with _ => _ end] =>
    replace (m S) with (S1, e) by (symmetry; exact E) end. clear E.
  pose proof (reach_other s _ _ _ Hr Hk1) as Hr1. destruct e as [e|]; [by left |].
  destruct (reach_inv s _ _ Hr) as (a & R & _). destruct (fwd_of_rep s _ _ R) as [F1 F2].
  destruct (fwd_of_rep s _ _ (Hk1 a R)) as [F3 F4]. rewrite F1 in Hf. rewrite F2 in Ht.
  rewrite redis_io_sys. destruct (CompleteSlot_reach s now t slot 0 (sys S1) h Hr1) as (C1 & C2 & C3 & C4).
  rewrite F3 in C3. rewrite F4 in C4. fold s.
  destruct (CompleteSlot s now t slot 0 (sys S1)) as [w2 [s2 e2]]. cbn in *. rewrite redis_io_sys. cbn.
  assert (same_lane s2 s) as C2' by (destruct C2; split; congruence).
  destruct (ConfirmForward_reach s2 slot w2 h) as [Hc|(p & t' & Ep & Et & Hc)].
  - by apply (reach_same s).
  - left. by apply (reach_same s2).
  - right. split; [| by apply Hd]. apply (reach_same s2); [done |].
    rewrite (proj1 C2') in C3, C4. rewrite C3, Hf in Ep. rewrite C4, Ht in Et.
    by injection Ep as ->; injection Et as ->.
Qed.

(** C15: Whatever Redis and Kafka do during a pass of the forwarder, every
    job of the lane is still in it afterwards, except possibly the one the pass
    checked out.  That one left it only after its marked message was appended, under
    its own key or else its tenant's, to the ready topic of the job, or, when it had
    expired, after the drop handler accepted it in the state after the checkout. *)
Theorem forwardOnce_never_loses f t S h :
  keeps_lane f → reach (fw_Scheduler f) (w_db (sys S)) h →
  forwarding_of (sc_Lane (fw_Scheduler f)) (w_db (sys S)) !! tk_slot t = None →
  let S' := (forwardOnceOutcome f t S).1 in
  reach (fw_Scheduler f) (w_db (sys S')) h ∨
  ∃ tenant job, reach (fw_Scheduler f) (w_db (sys S')) (handed_over tenant job h) ∧
    (forwarded f (tk_slot t) tenant job S S' ∨ dropped f (tk_now t) (tk_slot t) tenant job (after_checkout f t S) S').
Proof.
  intros Hk Hr Hs. unfold forwardOnceOutcome, mbind, kio_bind. rewrite redis_io_sys.
  unfold after_checkout. set (s := fw_Scheduler f) in *.
  pose proof (Checkout_reach s (tk_now t) (tk_ingest t) (tk_rtime t) (tk_slot t) (sys S) h Hr Hs) as Hc.
  destruct (Checkout s _ _ _ _ (sys S)) as [w1 [s1 [o e]]]. cbn [fst snd].
  destruct Hc as (Hr1 & Hsame & Hjob). destruct e as [e|]; [destruct o; by left |].
  destruct o as [[tn job sl]|]; [| by left]. destruct (Hjob _ eq_refl) as (E1 & E2 & E3).
  cbn in E1, E2, E3. subst sl. destruct Hsame as [L1 L2].
  assert (same_lane s1 s) as Hback by done.
  set (S1 := System w1 (k_log S) (k_net S)). set (f1 := set_sched f s1).
  assert (reach (fw_Scheduler f1) (w_db (sys S1)) h) as Hr1' by (by apply (reach_same s)).
  rewrite <- L1 in E2, E3.
  assert (keeps_lane f1) as Hk1.
  { unfold keeps_lane, f1. cbn. rewrite L1. exact Hk. }
  pose proof (handleExpired_reach f1 (tk_now t) tn job (tk_slot t) S1 h Hk1 Hr1' E2 E3) as He.
  destruct (handleExpired f1 _ _ S1) as [S2 [f2 b]]. cbn [fst snd]. destruct b.
  - cbn. destruct He as [He|[He Hd]]; [left; by apply (reach_same s1) |].
    right. exists tn, job. split; [by apply (reach_same s1) | by right].
  - destruct He as [-> ->].
    pose proof (forwardJob_reach f1 tn job (tk_slot t) S1 h Hr1' E2 E3) as Hf.
    destruct (forwardJob f1 _ S1) as [S3 e3]. cbn in *.
    destruct Hf as [Hf|[Hf Hfw]]; [left; by apply (reach_same s1) |].
    right. exists tn, job. split; [by apply (reach_same s1) | by left].
Qed.

(** ** The dispatcher *)

Lemma Enqueue_reach s t p w h :
  reach s (w_db w) h →
  let '(w', (ok, e)) := Enqueue s t p w in
  match e with
  | None => reach s (w_db w') (if (ok : bool) then accepted t p h else h)
  | Some _ => reach s (w_db w') h ∨ reach s (w_db w') (accepted t p h)
  end.
Proof.
  intros Hr. unfold Enqueue. destruct (ValidateLane (sc_Lane s)); [by left |].
  unfold mbind, io_bind. destruct (reach_inv s _ _ Hr) as (a & R & _).
  destruct (do_script _ w _ (EnqueueLua_spec (sc_Lane s) (w_db w) a t p
      (ReadyWindow (sc_Settings s)) R))
    as [[Hn [e He]]|(r & Er & Hx)]; destruct (do _ w) as [w' x]; cbn [fst snd] in *.
  - subst x. cbn. rewrite Hn. by left.
  - apply (reach_enqueue s _ h) in Er; [| done].
    destruct Hx as [->|[e ->]]; cbn; [done |]. destruct (r =? 1); auto.
Qed.

(** The dispatcher lets an ingest offset be committed only when its message
    is dealt with: it is not JSON, it has expired and the drop handler accepted
    it, or its job, stamped with the message's coordinates, is in the lane.
    With no room in the tenant's window nothing is enqueued and the offset is
    kept back; the handler panics only on the JSON text null. *)
Theorem dispatch_commits_only_handled s onExpired now raw src S h :
  reach s (w_db (sys S)) h →
  let '(S', r) := Dispatch (Some s) onExpired now raw src S in
  match r with
  | Panic => unmarshal raw = Ok None
  | Done (out, Some _) => True
  | Done (out, None) =>
      (S' = S ∧ ∃ e, unmarshal raw = Bad e) ∨
      ∃ m, unmarshal raw = Ok m ∧
        if Expired (str_field (fields m) "valid_till") now then
          match onExpired with
          | Some drop => (S', None) = drop raw src S
          | None => S' = S
          end
        else if Di_CommitOffset out then
          ∃ stamped m', StampSource m src = Done m' ∧ marshal (fields m') = Ok stamped ∧
            reach s (w_db (sys S')) (accepted (TenantFromMessage (fields m)) stamped h)
        else Di_Backpressure out = true ∧ reach s (w_db (sys S')) h
  end.
Proof.
  intros Hr. unfold Dispatch. destruct (unmarshal raw) as [m|e] eqn:Eu; [| cbn; eauto].
  unfold mbind, kio_bind.
  destruct (Expired _ now) eqn:Ex.
  { destruct onExpired as [drop|]; cbn.
    - destruct (drop raw src S) as [S' [e|]] eqn:Ed; cbn; [done |]. right. exists m. by rewrite Ex.
    - right. exists m. by rewrite Ex. }
  destruct (StampSource m src) as [m'|] eqn:Es.
  - destruct (marshal (fields m')) as [stamped|e] eqn:Em; [| done].
    rewrite redis_io_sys. pose proof (Enqueue_reach s (TenantFromMessage (fields m)) stamped (sys S) h Hr) as He.
    destruct (Enqueue s _ stamped (sys S)) as [w' [ok e]]. cbn. destruct e as [e|]; [by destruct ok |].
    destruct ok; cbn; right; exists m; (split; [done |]); rewrite Ex; cbn; [| done].
    exists stamped, m'. done.
  - destruct m as [m|]; [done |]. done.
Qed.
End steps.

(** ** Witnesses *)

From S2P Require Import Concrete FairnessProps.

Definition demo_forwarder : Forwarder :=
  mkForwarder LaneTime demo_slow "jobs.ready" None None None None None None false.
Definition demo_system (db : redis) : system := System (World db []) [] [].
Definition demo_tick : tick := Tick (sec 1000) 1000 "slot-1" None.

Lemma forwardOnce_never_loses_witness :
  let S' := (forwardOnceOutcome demo_forwarder demo_tick (demo_system demo_one)).1 in
  let h := accepted "acme" "job" no_history in
  reach demo_slow (w_db (sys S')) h ∨
  ∃ tenant job, reach demo_slow (w_db (sys S')) (handed_over tenant job h) ∧
    (forwarded demo_forwarder "slot-1" tenant job (demo_system demo_one) S'
     ∨ dropped demo_forwarder (sec 1000) "slot-1" tenant job
         (after_checkout demo_forwarder demo_tick (demo_system demo_one)) S').
Proof.
  apply (forwardOnce_never_loses demo_forwarder demo_tick (demo_system demo_one));
    [exact I | exact demo_one_reach | vm_compute; reflexivity].
Defined.

Definition demo_message : object := <["tenant_id" := JStr "acme"]> ∅.
Definition demo_src : SourceCoords := Src "ingest" 0 7.

Lemma dispatch_commits_only_handled_witness :
  let '(S', r) := Dispatch (Some demo_slow) None 0 (object_text demo_message) demo_src
                    (demo_system empty_redis) in
  match r with
  | Panic => unmarshal (object_text demo_message) = Ok None
  | Done (out, Some _) => True
  | Done (out, None) =>
      (S' = demo_system empty_redis ∧ ∃ e, unmarshal (object_text demo_message) = Bad e) ∨
      ∃ m, unmarshal (object_text demo_message) = Ok m ∧
        if Expired (str_field (fields m) "valid_till") 0 then S' = demo_system empty_redis
        else if Di_CommitOffset out then
          ∃ stamped m', StampSource m demo_src = Done m' ∧ marshal (fields m') = Ok stamped ∧
            reach demo_slow (w_db (sys S'))
              (accepted (TenantFromMessage (fields m)) stamped no_history)
        else Di_Backpressure out = true ∧ reach demo_slow (w_db (sys S')) no_history
  end.
Proof.
  apply (dispatch_commits_only_handled demo_slow None 0 (object_text demo_message) demo_src
           (demo_system empty_redis) no_history).
  apply (reach_empty _ _ ∅ ∅), rep_empty.
Defined.
