(* ===== verification/Control.v ===== *)
(** The small control stores a job processor consults: uniqueness locks
    (pkg/uniq), the cancellation cache (pkg/cancellation), operator-deleted
    retries (pkg/retrycancel) and the tenant guard's counters
    (pkg/tenantguard). *)
From S2P Require Import Prelude Redis Client Protocol Fairness Store.

(** ** pkg/uniq *)

Module Uniq.

Definition KeyPrefix : string := "kb:uniq:".

Definition releaseLua (K1 jobID : string) : script Z unit :=
  v ← GET K1;
  if decide (v = Some jobID) then DEL K1;; lua_return 1
  else lua_return 0.

(** hex.DecodeString: pairs of hexadecimal digits, either case. *)
Definition hex_digit (c : Ascii.ascii) : option N :=
  let n := Ascii.N_of_ascii c in
  if ((48 <=? n) && (n <=? 57))%N then Some (n - 48)%N
  else if ((97 <=? n) && (n <=? 102))%N then Some (n - 87)%N
  else if ((65 <=? n) && (n <=? 70))%N then Some (n - 55)%N
  else None.

Fixpoint hex_decode (s : string) : option string :=
  match s with
  | EmptyString => Some EmptyString
  | String a (String b s) =>
      match hex_digit a, hex_digit b, hex_decode s with
      | Some x, Some y, Some r => Some (String (Ascii.ascii_of_N (16 * x + y)) r)
      | _, _, _ => None
      end
  | String _ EmptyString => None
  end.

(** The lock's key, when the wire fingerprint is sixteen bytes of hex. *)
Definition lock_key (fpHex : string) : option string :=
  match hex_decode fpHex with
  | Some bin => if decide (String.length bin = 16%nat) then Some (KeyPrefix +:+ bin)%string
                else None
  | None => None
  end.

Definition ReleaseLock (fpHex jobID : string) : io error :=
  if String.eqb fpHex "" || String.eqb jobID "" then mret None
  else match lock_key fpHex with
       | None => mret None
       | Some key => r ← do (call (releaseLua key jobID)); mret (result_error r)
       end.

Definition default_ttl : Z := 7 * 24 * 3600.

(** The locker's time to live in seconds. *)
Definition NewLocker (ttl : Z) : Z := if ttl <=? 0 then default_ttl else ttl.

Section locker.
(** The 16-byte fingerprint of a worker class and a payload: two xxhash sums of
    the canonical JSON, a third-party hash. *)
Context {payload : Type} (fingerprint : string -> payload -> string).

Definition redisKey (worker : string) (p : payload) : string :=
  (KeyPrefix +:+ fingerprint worker p)%string.

(** A locker that is nil is [None]. *)
Definition Claim (l : option Z) (worker : string) (p : payload) (jobID : string)
    : io (bool * error) :=
  match l with
  | None => mret (true, None)
  | Some ttl =>
      r ← do (command (SET_NX_EX (redisKey worker p) jobID ttl));
      mret (match r with Bad _ => (true, None) | Ok ok => (ok, None) end)
  end.

Definition ClaimMany (l : option Z) (inputs : list (string * payload * string)) : io (list bool) :=
  match inputs, l with
  | [], _ => mret []
  | _, None => mret ((λ _, true) <$> inputs)
  | _, Some ttl =>
      rs ← pipeline ((λ '(w, p, j), command (SET_NX_EX (redisKey w p) j ttl)) <$> inputs);
      mret (match first_error rs with
            | Some _ => (λ _, true) <$> inputs
            | None => (λ r, match r with Ok ok => ok | Bad _ => true end) <$> rs
            end)
  end.

Definition Release (l : option Z) (fpHex jobID : string) : io error :=
  match l with None => mret None | Some _ => ReleaseLock fpHex jobID end.
End locker.
End Uniq.

Definition ReleaseUniqLock (s : option RedisStore) (fpHex jobID : string) : io error :=
  match s with None => mret None | Some _ => Uniq.ReleaseLock fpHex jobID end.

(** ** pkg/cancellation *)

Module Cancellation.

(** A snapshot of the cancelled batch ids; [fetchedAt] is None when zero. *)
Record Cache := mkCache {
  ttl : Z; ids : gset string; fetchedAt : option Z; loaded : bool
}.

Definition New (ttl : Z) : Cache := mkCache ttl ∅ None false.

Definition fresh (c : Cache) (now : Z) : bool :=
  if ttl c <=? 0 then false
  else match fetchedAt c with None => false | Some at_ => now - at_ <? ttl c end.

(** [fetch] loads the ids from the store. *)
Definition currentIDs (fetch : io (list string * error)) (c : Cache) (now : Z)
    : io (Cache * gset string) :=
  if loaded c && fresh c now then mret (c, ids c)
  else
    r ← fetch;
    match r with
    | (_, Some _) => mret (c, if loaded c then ids c else ∅)
    | (l, None) =>
        let next := list_to_set (filter (λ id, id ≠ ""%string) l) in
        mret (mkCache (ttl c) next (Some now) true, next)
    end.

Definition Cancelled (fetch : io (list string * error)) (c : option Cache) (now : Z)
    (batchID : string) : io (option Cache * (bool * error)) :=
  match c with
  | None => mret (None, (false, None))
  | Some c0 =>
      if String.eqb batchID "" then mret (c, (false, None))
      else
        r ← currentIDs fetch c0 now;
        mret (Some r.1, (bool_decide (batchID ∈ r.2), None))
  end.

Definition Add (c : option Cache) (batchID : string) : option Cache :=
  match c with
  | None => None
  | Some c0 => if String.eqb batchID "" then c
               else Some (mkCache (ttl c0) ({[batchID]} ∪ ids c0) (fetchedAt c0) true)
  end.

Definition Reset (c : Cache) : Cache := mkCache (ttl c) ∅ None false.
End Cancellation.

(** ** pkg/retrycancel *)

Module RetryCancel.

Definition cancelKey : string := "kafka_batch:retry:cancel".
Definition skipKey : string := "kafka_batch:retry:skip".
Definition defaultTTL : Z := 7 * 24 * 3600.

(** A store that is not available is [None]; otherwise its TTL in seconds. *)
Definition ttl (s : option Z) : Z :=
  match s with Some t => if t <=? 0 then defaultTTL else t | None => defaultTTL end.

Definition distinct_ids (jobIDs : list string) : list string :=
  uniqueStrings (filter (λ id, id ≠ ""%string) jobIDs).

(** SADD of many members: how many are new. *)
Definition SADD_many (k : string) (ms : list string) : script Z Z :=
  lift (fun s => get_set s k) (fun x s =>
    (put_set k (list_to_set ms ∪ x) s,
     Next (Z.of_nat (size (list_to_set ms ∖ x : gset string))))).

Definition Cancel (s : option Z) (jobIDs : list string) : io (Z * error) :=
  match s, distinct_ids jobIDs with
  | None, _ | _, [] => mret (0, None)
  | _, ids =>
      r ← do (command (SADD_many cancelKey ids));
      match r with
      | Bad e => mret (0, Some e)
      | Ok n => _ ← do (command (EXPIRE cancelKey (ttl s))); mret (n, None)
      end
  end.

Definition Cancelled (s : option Z) (jobID : string) : io bool :=
  match s with
  | None => mret false
  | Some _ =>
      if String.eqb jobID "" then mret false
      else r ← do (command (SISMEMBER cancelKey jobID));
           mret (match r with Ok b => b | Bad _ => false end)
  end.

Definition Acknowledge (s : option Z) (jobID : string) : io unit :=
  match s with
  | None => mret tt
  | Some _ =>
      if String.eqb jobID "" then mret tt
      else _ ← do (command (SREM cancelKey jobID)); mret tt
  end.

Definition ClearCancelSet (s : option Z) : io error :=
  match s with
  | None => mret None
  | Some _ => r ← do (command (DEL cancelKey)); mret (result_error r)
  end.

Definition mark_field (topic : string) (partition : Z) : string :=
  (topic +:+ ":" +:+ itoa partition)%string.

(** The marks as (topic, partition, offset). *)
Definition SetSkipWatermarks (s : option Z) (marks : list (string * Z * Z)) : io error :=
  match s, marks with
  | None, _ | _, [] => mret None
  | _, _ =>
      r ← do (command (HMSET skipKey ((λ '(t, p, o), (mark_field t p, itoa o)) <$> marks)));
      match r with
      | Bad e => mret (Some e)
      | Ok _ => x ← do (command (EXPIRE skipKey (ttl s))); mret (result_error x)
      end
  end.

Definition SkipUntil (s : option Z) (topic : string) (partition : Z) : io (option Z) :=
  match s with
  | None => mret None
  | Some _ =>
      r ← do (command (HGET skipKey (mark_field topic partition)));
      mret (match r with
            | Ok (Some v) => let '(n, ok) := parseInt v in if (ok : bool) then Some n else None
            | _ => None
            end)
  end.

Definition ShouldSkip (s : option Z) (topic : string) (partition offset : Z) (jobID : string)
    : io bool :=
  lim ← SkipUntil s topic partition;
  match lim with
  | Some n => if offset <=? n then mret true else Cancelled s jobID
  | None => Cancelled s jobID
  end.
End RetryCancel.

(** ** pkg/tenantguard *)

Module TenantGuard.

Definition errorPrefix : string := "kafka_batch:tenant_errors:".
Definition activeKey : string := "kafka_batch:tenant_errors:active".
Definition skewSeconds : Z := 120.

Inductive Outcome := OK | Fail | Retry.

Definition name (o : Outcome) : string :=
  match o with OK => "ok" | Fail => "fail" | Retry => "retry" end.

Definition normalizedWindow (w : Z) : Z := if w <? 60 then 60 else w.

(** [(epoch / 60) * 60], with Go's truncated division. *)
Definition bucketEpoch (epoch : Z) : Z := Z.quot epoch 60 * 60.

Definition unix (now : Z) : Z := now / 1000000000.

Section guard.
Context `{TimeText}.

Definition minuteStamp (epoch : Z) : string := minute_format (sec epoch).

Definition bucketKey (tenantID : string) (at_ : Z) : string :=
  (errorPrefix +:+ tenantID +:+ ":" +:+ minuteStamp (bucketEpoch (unix at_)))%string.

Definition Record_ (tenantID : string) (o : Outcome) (windowSeconds at_ : Z) : io unit :=
  if String.eqb tenantID "" then mret tt
  else
    let key := bucketKey tenantID at_ in
    _ ← pipeline [command (HINCRBY key (name o) 1);
                  command (EXPIRE key (normalizedWindow windowSeconds + skewSeconds));
                  command (ZADD activeKey (inject_Z (unix at_)) tenantID)];
    mret tt.

Record Counts := mkCounts { c_OK : Z; c_Fail : Z; c_Retry : Z }.

(** The minute buckets from [b] on, at most [n] of them. *)
Fixpoint buckets (n : nat) (b stop : Z) : list Z :=
  match n with
  | O => []
  | S n => if b <=? stop then b :: buckets n (b + 60) stop else []
  end.

Definition add_bucket (c : Counts) (r : result (gmap string string)) : Counts :=
  match r with
  | Bad _ => c
  | Ok m => mkCounts (c_OK c + (parseInt (at_key m "ok")).1)
                     (c_Fail c + (parseInt (at_key m "fail")).1)
                     (c_Retry c + (parseInt (at_key m "retry")).1)
  end.

Definition WindowCounts (tenantID : string) (windowSeconds at_ : Z) : io Counts :=
  if String.eqb tenantID "" then mret (mkCounts 0 0 0)
  else
    let win := normalizedWindow windowSeconds in
    let start := bucketEpoch (unix at_ - win) in
    let stop := bucketEpoch (unix at_) in
    let bs := buckets (Z.to_nat (win / 60 + 2)) start stop in
    rs ← pipeline ((λ b, command (HGETALL (errorPrefix +:+ tenantID +:+ ":" +:+ minuteStamp b)%string)) <$> bs);
    mret (match first_error rs with
          | Some _ => mkCounts 0 0 0
          | None => foldl add_bucket (mkCounts 0 0 0) rs
          end).

Definition ActiveTenants (withinSeconds at_ : Z) : io (list string) :=
  let floor := unix at_ - normalizedWindow withinSeconds in
  let below := if floor - skewSeconds <? 0 then 0 else floor - skewSeconds in
  _ ← do (command (ZREMRANGEBYSCORE activeKey
            (ZRange (Some (false, 0%Q)) (Some (false, inject_Z below)))));
  r ← do (command (ZRANGEBYSCORE activeKey (ZRange (Some (false, inject_Z floor)) None)));
  mret (match r with Ok l => l | Bad _ => [] end).

(** The rate in percent, the samples, and whether there are enough of them. *)
Definition ErrorRate (tenantID : string) (windowSeconds minSamples : Z) (includeRetries : bool)
    (at_ : Z) : io (Q * Z * bool) :=
  c ← WindowCounts tenantID windowSeconds at_;
  let fails := if includeRetries then c_Fail c + c_Retry c else c_Fail c in
  let denom := c_OK c + fails in
  mret (if (denom =? 0) || (denom <? minSamples) then (0%Q, denom, false)
        else ((inject_Z fails / inject_Z denom * 100)%Q, denom, true)).
End guard.
End TenantGuard.
