(* ===== verification/Job.v ===== *)
(** Job execution: pkg/control/job (processor.go, fair.go), the retry consumer
    pkg/control/retry/processor.go and the retry tiers of pkg/config.

    A job message is decoded, checked for cancellation and expiry, run by its
    handler (inside its fair slot, if it has one) and turned into an outcome: a
    completion event, a retry message or a dead letter, which the caller
    produces before it commits.  Handlers are arguments; the lease renewals that
    run beside a handler are steps of the lane ([FairnessTrace]), not part of
    this sequential code.  One reading of the clock serves a whole call. *)
From S2P Require Import Prelude Redis Client Kafka Protocol Fairness Store Control.

(** ** The job message *)

Record JobMessage := mkJob {
  J_JobID : string; J_BatchID : option string; J_JobType : string; J_WorkerClass : string;
  J_Payload : option json; J_Attempt : Z; J_MaxRetries : option Z; J_EnqueuedAt : string;
  J_TenantID : option string;
  J_BatchSeq : option Z; J_RetryTier : string; J_ValidTill : string; J_BatchCounted : bool;
  J_RetryAfter : string; J_RetryTo : string; J_UniqFP : string; J_Reclaim : bool
}.

(** Decoding of one field into a Go struct: absent and null leave the zero
    value, another type is an error. *)
Definition typeError : string := "json: cannot unmarshal into Go struct field".

Definition is_null (v : option json) : bool :=
  match v with None => true | Some (JOther t) => String.eqb t "null" | Some _ => false end.

Definition opt_str (m : object) (k : string) : result (option string) :=
  match m !! k with
  | Some (JStr s) => Ok (Some s)
  | v => if is_null v then Ok None else Bad typeError
  end.

(** An integer of the range given; a fraction and a value out of range are
    errors. *)
Definition opt_num (lo hi : Z) (m : object) (k : string) : result (option Z) :=
  match m !! k with
  | Some (JNum q) =>
      if ((Qnum q mod Z.pos (Qden q)) =? 0) && (lo <=? truncate q) && (truncate q <=? hi)
      then Ok (Some (truncate q)) else Bad typeError
  | v => if is_null v then Ok None else Bad typeError
  end.

(** Go's int and int64, and int32. *)
Definition opt_int : object -> string -> result (option Z) := opt_num minInt64 maxInt64.
Definition opt_int32 : object -> string -> result (option Z) := opt_num (- 2 ^ 31) (2 ^ 31 - 1).

Definition opt_bool (m : object) (k : string) : result (option bool) :=
  match m !! k with
  | Some (JBool b) => Ok (Some b)
  | v => if is_null v then Ok None else Bad typeError
  end.

Definition opt_map (m : object) (k : string) : result (option json) :=
  match m !! k with
  | Some (JOther t) => if String.eqb t "null" then Ok None else Ok (Some (JOther t))
  | None => Ok None
  | Some _ => Bad typeError
  end.

#[export] Instance result_ret : MRet result := @Ok.
#[export] Instance result_bind : MBind result := fun A B k m =>
  match m with Ok a => k a | Bad e => Bad e end.

(** A value as map[string]interface{} holds it. *)
Definition as_floats `{Json} (v : json) : json := match v with JOther t => JOther (float_numbers t) | v => v end.

(** The fields of a decoded object as a job. *)
Definition job_of_object `{Json} (m : object) : result JobMessage :=
  id ← opt_str m "job_id"; batch ← opt_str m "batch_id"; type ← opt_str m "job_type";
  class ← opt_str m "worker_class"; payload ← opt_map m "payload"; attempt ← opt_int m "attempt";
  max ← opt_int m "max_retries"; enqueued ← opt_str m "enqueued_at"; tenant ← opt_str m "tenant_id";
  seq ← opt_int m "batch_seq"; tier ← opt_str m "retry_tier"; till ← opt_str m "valid_till";
  counted ← opt_bool m "batch_counted"; after ← opt_str m "retry_after"; to ← opt_str m "retry_to";
  fp ← opt_str m "_uniq_fp"; reclaim ← opt_bool m "_reclaim";
  mret (mkJob (default ""%string id) batch (default ""%string type) (default ""%string class) (as_floats <$> payload)
          (default 0 attempt) max (default ""%string enqueued) tenant seq (default ""%string tier)
          (default ""%string till) (default false counted) (default ""%string after)
          (default ""%string to) (default ""%string fp) (default false reclaim)).

Definition deref (s : option string) : string := default ""%string s.

(** ** Configuration *)

Record Daemon := mkDaemon {
  SkipCancelledJobs : bool; MaxRetries : Z; RetryTopicBase : string; RetryTiers : gmap string Z;
  RetryProgression : list string; TenantGuardEnabled : bool; TenantGuardWindowSeconds : Z;
  EventsTopic : string; CallbacksTopic : string; DeadLetterTopic : string;
  EventEmitRetries : Z; EventEmitBackoff : Z
}.

Definition RetryTopic (c : Daemon) (tier : string) : string :=
  (RetryTopicBase c +:+ "." +:+ tier)%string.

(** Indexing an empty progression panics. *)
Definition RetryTierFor (c : Daemon) (nextAttempt : Z) (workerTier : string) : outcome string :=
  if negb (String.eqb workerTier "") && bool_decide (is_Some (RetryTiers c !! workerTier))
  then Done workerTier
  else
    let idx := int64 (nextAttempt - 1) in
    let idx := if idx <? 0 then 0 else idx in
    let n := Z.of_nat (length (RetryProgression c)) in
    let idx := if n <=? idx then n - 1 else idx in
    if idx <? 0 then Panic
    else match RetryProgression c !! Z.to_nat idx with Some t => Done t | None => Panic end.

Definition retryDelay (c : Daemon) (tier : string) : Z :=
  match RetryTiers c !! tier with
  | Some s => if s <? 0 then sec 30 else sec s
  | None => sec 30
  end.

(** ** Errors of a handler *)

(** [he_Class] is the class of a HandlerError, None for any other error. *)
Record exec_error := ExecError { he_Class : option string; he_Message : string }.

Definition className (e : exec_error) : string :=
  match he_Class e with
  | Some c => if String.eqb c "" then "GoExecutionError" else c
  | None => "GoExecutionError"
  end.

Definition nonRetryable (e : exec_error) : bool :=
  String.eqb (className e) "UnknownHandler" || String.eqb (className e) "Overloaded".

Record FailureEntry := mkFailureEntry {
  fe_BatchID : string; fe_JobID : string; fe_WorkerClass : string; fe_ErrorClass : string;
  fe_ErrorMessage : string; fe_Status : string; fe_Attempt : Z
}.

(** What the processor calls outside this package: the failure recorder of the
    MySQL mode, the registered handlers, the exhaustion hook and the running-job
    markers of the liveness reporter. *)
Record Hooks := mkHooks {
  hk_RecordFailure : FailureEntry -> kio unit;
  hk_ClearFailure : string -> string -> kio unit;
  hk_Lookup : string -> option (JobMessage -> kio (option exec_error));
  hk_Exhausted : JobMessage -> exec_error -> Z -> kio unit;
  hk_JobStarted : JobMessage -> SourceCoords -> kio unit;
  hk_JobFinished : string -> kio unit;
  hk_Runtime : string -> string                 (* the manifest's runtime of a job type *)
}.

Record Processor := mkProcessor {
  p_Cfg : Daemon; p_Store : option RedisStore; p_Hooks : Hooks;
  p_FairTime : option Scheduler; p_FairThroughput : option Scheduler;
  p_CancelCache : option Cancellation.Cache; p_RetryCancel : option (option Z)
}.

Record Outcome := mkOutcome {
  O_CommitOffset : bool; O_Event : option EventMessage; O_RetryTopic : string;
  O_RetryKey : string; O_RetryPayload : option string; O_DLTPayload : option string;
  O_DLTKey : string
}.

Definition committed : Outcome := mkOutcome true None "" "" None None "".

Definition with_event (o : Outcome) (e : option EventMessage) : Outcome :=
  mkOutcome (O_CommitOffset o) e (O_RetryTopic o) (O_RetryKey o) (O_RetryPayload o)
    (O_DLTPayload o) (O_DLTKey o).
Definition with_dlt (o : Outcome) (payload key : string) : Outcome :=
  mkOutcome (O_CommitOffset o) (O_Event o) (O_RetryTopic o) (O_RetryKey o) (O_RetryPayload o)
    (Some payload) key.
Definition with_retry (o : Outcome) (topic key payload : string) : Outcome :=
  mkOutcome (O_CommitOffset o) (O_Event o) topic key (Some payload) (O_DLTPayload o) (O_DLTKey o).

Definition set_cache (p : Processor) (c : option Cancellation.Cache) : Processor :=
  mkProcessor (p_Cfg p) (p_Store p) (p_Hooks p) (p_FairTime p) (p_FairThroughput p) c (p_RetryCancel p).

Section job.
Context `{NumText} `{Json} `{TimeText}.

Definition unmarshal_job (raw : string) : result JobMessage :=
  match unmarshal raw with Bad e => Bad e | Ok m => job_of_object (fields m) end.

(** ** Events and payloads *)

Definition buildEvent (job : JobMessage) (status : string) (src : SourceCoords) (now : Z)
    : EventMessage :=
  mkEvent (deref (J_BatchID job)) (J_JobID job) status (J_WorkerClass job) (rfc3339_format now)
    (Src_Topic src) (Src_Partition src) (Src_Offset src) (default 0 (J_BatchSeq job)).

(** [job.BatchID != nil && job.BatchSeq != nil]. *)
Definition in_batch (job : JobMessage) : bool :=
  match J_BatchID job, J_BatchSeq job with Some _, Some _ => true | _, _ => false end.

Definition event_if (b : bool) (job : JobMessage) (status : string) (src : SourceCoords) (now : Z)
    : option EventMessage :=
  if b then Some (buildEvent job status src now) else None.

Definition retry_fields (job : JobMessage) (retryAt : Z) (retryTo : string) (m : object) : object :=
  let m := <["retry_to" := JStr retryTo]>
          (<["retry_after" := JStr (rfc3339_format retryAt)]>
          (<["retry_count" := JNum (inject_Z (int64 (J_Attempt job + 1)))]>
          (<["attempt" := JNum (inject_Z (int64 (J_Attempt job + 1)))]> m))) in
  let m := if J_BatchCounted job then <["batch_counted" := JBool true]> m else m in
  delete "_fair_type" (delete "_fair_slot_id" (delete "_fair_slot" m)).

Definition buildRetryPayload (raw : string) (job : JobMessage) (retryAt : Z) (retryTo : string)
    : outcome (result string) :=
  match unmarshal raw with
  | Bad e => Done (Bad e)
  | Ok None => Panic
  | Ok (Some m) => Done (marshal (retry_fields job retryAt retryTo m))
  end.

Definition buildFairDeferPayload (raw : string) (retryAt : Z) (retryTo : string)
    : outcome (result string) :=
  match unmarshal raw with
  | Bad e => Done (Bad e)
  | Ok None => Panic
  | Ok (Some m) => Done (marshal (<["retry_to" := JStr retryTo]>
                                 (<["retry_after" := JStr (rfc3339_format retryAt)]> m)))
  end.

Definition jobMap (raw : string) : object := unmarshal_lenient raw.

Definition dltPayload (base : object) (topic errClass errMsg : string) (now : Z) : string * string :=
  let base :=
    <["dlt_at" := JStr (rfc3339_format now)]>
    (<["dlt_error_message" := JStr errMsg]>
    (<["dlt_error_class" := JStr errClass]>
    (<["dlt_source_topic" := JStr topic]>
    (<["dlt_type" := JStr "job"]> base)))) in
  let key := str_field base "job_id" in
  (marshal_or_empty base, if String.eqb key "" then "dlt" else key).

(** ** fair.go *)

Record fairMeta := mkFairMeta {
  fm_slot : bool; fm_slotID : string; fm_tenantID : string; fm_lane : Lane
}.

Definition isReclaimPayload (raw : string) : bool :=
  match m ← unmarshal raw; opt_bool (fields m) "_reclaim" with
  | Ok (Some b) => b
  | _ => false
  end.

Definition parseFairMeta (raw : string) : fairMeta :=
  match unmarshal raw with
  | Bad _ => mkFairMeta false "" "" ""
  | Ok m =>
      let m := fields m in
      let ty := str_field m "_fair_type" in
      mkFairMeta (match m !! "_fair_slot" with Some (JBool b) => b | _ => false end)
        (str_field m "_fair_slot_id") (str_field m "tenant_id")
        (if String.eqb ty "" then LaneTime else ty)
  end.

Definition fairScheduler (p : Processor) (raw : string) : option Scheduler :=
  if String.eqb (fm_lane (parseFairMeta raw)) LaneThroughput then p_FairThroughput p
  else p_FairTime p.

Definition set_fair (p : Processor) (raw : string) (s : Scheduler) : Processor :=
  if String.eqb (fm_lane (parseFairMeta raw)) LaneThroughput
  then mkProcessor (p_Cfg p) (p_Store p) (p_Hooks p) (p_FairTime p) (Some s) (p_CancelCache p) (p_RetryCancel p)
  else mkProcessor (p_Cfg p) (p_Store p) (p_Hooks p) (Some s) (p_FairThroughput p) (p_CancelCache p) (p_RetryCancel p).

(** How running a job ended: errFairSkipped, another error, or success. *)
Inductive ran := Ran (e : option exec_error) | Skipped.

Definition slot_tenant (fm : fairMeta) : string :=
  if String.eqb (fm_tenantID fm) "" then "default" else fm_tenantID fm.

(** [dur] is how long the handler took, in seconds. *)
Definition withFairSlot (p : Processor) (raw : string) (now : Z) (dur : Q)
    (perform : kio (option exec_error)) : kio (Processor * ran) :=
  match fairScheduler p raw with
  | None => e ← perform; mret (p, Ran e)
  | Some sched =>
      let fm := parseFairMeta raw in
      if negb (fm_slot fm) || String.eqb (fm_slotID fm) "" then e ← perform; mret (p, Ran e)
      else
        (if isReclaimPayload raw
         then _ ← redis_io (ClearSlotExecution (Some sched) (fm_slotID fm)); mret tt
         else mret tt);;
        c ← redis_io (ClaimSlotExecution sched (fm_slotID fm));
        match c with
        | (_, Some e) => mret (p, Ran (Some (ExecError None e)))
        | (false, None) => mret (p, Skipped)
        | (true, None) =>
            e ← perform;
            d ← redis_io (CompleteSlot sched now (slot_tenant fm) (fm_slotID fm) dur);
            mret (set_fair p raw d.1, Ran e)
        end
  end.

Definition releaseFairSlotIfHeld (p : Processor) (raw : string) (now : Z) : kio Processor :=
  let fm := parseFairMeta raw in
  if negb (fm_slot fm) || String.eqb (fm_slotID fm) "" then mret p
  else match fairScheduler p raw with
       | None => mret p
       | Some sched =>
           d ← redis_io (CompleteSlot sched now (slot_tenant fm) (fm_slotID fm) 0);
           mret (set_fair p raw d.1)
       end.

(** ** Side effects of an outcome *)

Definition releaseUniq (p : Processor) (job : JobMessage) : kio unit :=
  _ ← redis_io (ReleaseUniqLock (p_Store p) (J_UniqFP job) (J_JobID job)); mret tt.

Definition recordTenantOutcome (p : Processor) (job : JobMessage) (o : TenantGuard.Outcome) (now : Z)
    : kio unit :=
  if negb (TenantGuardEnabled (p_Cfg p)) then mret tt
  else match p_Store p with
       | None => mret tt
       | Some _ =>
           redis_io (TenantGuard.Record_ (deref (J_TenantID job)) o
                       (TenantGuardWindowSeconds (p_Cfg p)) now)
       end.

Definition recordExecutionFailure (p : Processor) (job : JobMessage) (e : exec_error) (status : string)
    : kio unit :=
  if String.eqb (deref (J_BatchID job)) "" then mret tt
  else hk_RecordFailure (p_Hooks p)
         (mkFailureEntry (deref (J_BatchID job)) (J_JobID job) (J_WorkerClass job) (className e)
            (he_Message e) status (J_Attempt job)).

Definition clearFailure (p : Processor) (job : JobMessage) : kio unit :=
  hk_ClearFailure (p_Hooks p) (deref (J_BatchID job)) (J_JobID job).

Definition batchCancelled (p : Processor) (batchID : string) (now : Z)
    : kio (Processor * (bool * error)) :=
  match p_CancelCache p with
  | Some c =>
      r ← redis_io (Cancellation.Cancelled (CancelledBatchIDs (p_Store p) now) (Some c) now batchID);
      mret (set_cache p r.1, r.2)
  | None =>
      match p_Store p with
      | None => mret (p, (false, None))
      | Some _ => r ← redis_io (BatchCancelled batchID); mret (p, r)
      end
  end.

(** ** Failures *)

Definition result_out : Type := Outcome * error.

Definition maxRetries (p : Processor) (job : JobMessage) : Z :=
  default (MaxRetries (p_Cfg p)) (J_MaxRetries job).

Definition set_counted (job : JobMessage) : JobMessage :=
  mkJob (J_JobID job) (J_BatchID job) (J_JobType job) (J_WorkerClass job) (J_Payload job)
    (J_Attempt job) (J_MaxRetries job) (J_EnqueuedAt job) (J_TenantID job) (J_BatchSeq job)
    (J_RetryTier job) (J_ValidTill job) true (J_RetryAfter job) (J_RetryTo job) (J_UniqFP job)
    (J_Reclaim job).

Definition handleFailure (p : Processor) (job : JobMessage) (raw : string) (src : SourceCoords)
    (now : Z) (e : exec_error) : kio (outcome result_out) :=
  let dead := dltPayload (jobMap raw) (Src_Topic src) (className e) (he_Message e) now in
  let failed := with_dlt (with_event committed (event_if (in_batch job) job "failed" src now))
                  dead.1 dead.2 in
  if nonRetryable e then
    releaseUniq p job;;
    recordTenantOutcome p job TenantGuard.Fail now;;
    mret (Done (failed, None))
  else if J_Attempt job <? maxRetries p job then
    match RetryTierFor (p_Cfg p) (int64 (J_Attempt job + 1)) (J_RetryTier job) with
    | Panic => mret Panic
    | Done tier =>
        let retryAt := now + retryDelay (p_Cfg p) tier in
        let touch := in_batch job && negb (J_BatchCounted job) in
        let out := with_event committed (event_if touch job "executed" src now) in
        let job' := if touch then set_counted job else job in
        match buildRetryPayload raw job' retryAt (Src_Topic src) with
        | Panic => mret Panic
        | Done (Bad err) => mret (Done (out, Some err))
        | Done (Ok payload) =>
            recordTenantOutcome p job' TenantGuard.Retry now;;
            mret (Done (with_retry out (RetryTopic (p_Cfg p) tier) (J_JobID job) payload, None))
        end
    end
  else
    recordExecutionFailure p job e "failed";;
    (match hk_Lookup (p_Hooks p) (J_JobType job) with
     | Some _ => hk_Exhausted (p_Hooks p) job e (maxRetries p job)
     | None => mret tt
     end);;
    releaseUniq p job;;
    recordTenantOutcome p job TenantGuard.Fail now;;
    mret (Done (failed, None)).

Definition fairSkipDeferGrace : Z := sec 5.

Definition handleFairSkip (p : Processor) (job : JobMessage) (raw : string) (src : SourceCoords)
    (now : Z) (run : kio (option exec_error)) : kio (outcome result_out) :=
  match p_Store p, J_BatchID job, J_BatchSeq job with
  | Some st, Some batch, Some seq =>
      if J_BatchCounted job then mret (Done (committed, None))
      else
        r ← redis_io (CompletionRecorded (Some st) batch seq);
        match r with
        | (_, Some e) => mret (Done (committed, Some e))
        | (true, None) => mret (Done (committed, None))
        | (false, None) =>
            let fm := parseFairMeta raw in
            l ← (match fairScheduler p raw with
                 | Some sched => if String.eqb (fm_slotID fm) "" then mret (false, 0%Q, None)
                                 else redis_io (SlotLeaseActive sched now (fm_slotID fm))
                 | None => mret (false, 0%Q, None)
                 end);
            match (l : bool * Q * error) with
            | (_, _, Some e) => mret (Done (committed, Some e))
            | (true, expiry, None) =>
                let retryAt := sec (truncate expiry) + fairSkipDeferGrace in
                let retryAt := if retryAt <=? now then now + fairSkipDeferGrace else retryAt in
                match buildFairDeferPayload raw retryAt (Src_Topic src) with
                | Panic => mret Panic
                | Done (Bad e) => mret (Done (committed, Some e))
                | Done (Ok payload) =>
                    match RetryTierFor (p_Cfg p) (int64 (J_Attempt job + 1)) (J_RetryTier job) with
                    | Panic => mret Panic
                    | Done tier =>
                        mret (Done (with_retry committed (RetryTopic (p_Cfg p) tier) (J_JobID job)
                                      payload, None))
                    end
                end
            | (false, _, None) =>
                e ← run;
                match e with
                | Some e => handleFailure p job raw src now e
                | None =>
                    (if 0 <? J_Attempt job then clearFailure p job else mret tt);;
                    releaseUniq p job;;
                    mret (Done (with_event committed (Some (buildEvent job "success" src now)), None))
                end
            end
        end
  | _, _, _ => mret (Done (committed, None))
  end.

(** ** Process *)

(** fmt's %q on a string with no character to escape. *)
Definition quoted (s : string) : string :=
  let q := String (Ascii.ascii_of_N 34) "" in (q +:+ s +:+ q)%string.

Definition unknown_handler (p : Processor) (job : JobMessage) : string :=
  if String.eqb (hk_Runtime (p_Hooks p) (J_JobType job)) "ruby"
  then ("job_type " +:+ quoted (J_JobType job)
        +:+ " is runtime ruby — consume via Karafka JobConsumer")%string
  else ("unknown job_type " +:+ quoted (J_JobType job))%string.

(** Lines 115-175: the job is neither cancelled nor expired. *)
Definition execute (p : Processor) (job : JobMessage) (raw : string) (src : SourceCoords)
    (now : Z) (dur : Q) : kio (Processor * outcome result_out) :=
  match hk_Lookup (p_Hooks p) (J_JobType job) with
  | None =>
      let dead := dltPayload (jobMap raw) (Src_Topic src) "UnknownHandler" (unknown_handler p job) now in
      releaseUniq p job;;
      mret (p, Done (with_dlt (with_event committed (event_if (in_batch job) job "failed" src now))
                       dead.1 dead.2, None))
  | Some handler =>
      hk_JobStarted (p_Hooks p) job src;;
      r ← withFairSlot p raw now dur (handler job);
      let '(p, how) := (r : Processor * ran) in
      o ← (match how with
           | Skipped => handleFairSkip p job raw src now (handler job)
           | Ran (Some e) => handleFailure p job raw src now e
           | Ran None =>
               (match J_BatchID job with
                | Some _ => if 0 <? J_Attempt job then clearFailure p job else mret tt
                | None => mret tt
                end);;
               releaseUniq p job;;
               recordTenantOutcome p job TenantGuard.OK now;;
               mret (Done (with_event committed (event_if (in_batch job) job "success" src now), None))
           end);
      hk_JobFinished (p_Hooks p) (J_JobID job);;
      mret (p, o)
  end.

Definition expire_job (p : Processor) (job : JobMessage) (raw : string) (src : SourceCoords) (now : Z)
    : kio (Processor * outcome result_out) :=
  p ← releaseFairSlotIfHeld p raw now;
  let drop := BuildDrop raw src now in
  (match Drop_Failure drop with
   | Some f => hk_RecordFailure (p_Hooks p)
                 (mkFailureEntry (Fr_BatchID f) (Fr_JobID f) (Fr_WorkerClass f) (Fr_ErrorClass f)
                    (Fr_ErrorMessage f) (Fr_Status f) (Fr_Attempt f))
   | None => mret tt
   end);;
  releaseUniq p job;;
  mret (p, Done (with_dlt (with_event committed (Drop_Event drop)) (Drop_DLTPayload drop)
                   (Drop_DLTKey drop), None)).

Definition Process (p : Processor) (raw : string) (src : SourceCoords) (now : Z) (dur : Q)
    : kio (Processor * outcome result_out) :=
  match unmarshal_job raw with
  | Bad e =>
      let dead := dltPayload (<["raw_payload" := JStr raw]> ∅) (Src_Topic src) "json.ParseError" e now in
      mret (p, Done (with_dlt committed dead.1 dead.2, None))
  | Ok job =>
      c ← (match J_BatchID job with
           | Some b => if SkipCancelledJobs (p_Cfg p) then batchCancelled p b now
                       else mret (p, (false, None))
           | None => mret (p, (false, None))
           end);
      let '(p, cancelled) := (c : Processor * (bool * error)) in
      match cancelled with
      | (_, Some e) => mret (p, Done (committed, Some e))
      | (true, None) => releaseUniq p job;; mret (p, Done (committed, None))
      | (false, None) =>
          d ← (match p_RetryCancel p with
               | Some s => redis_io (RetryCancel.Cancelled s (J_JobID job))
               | None => mret false
               end);
          if (d : bool) then
            (match J_BatchID job with Some _ => clearFailure p job | None => mret tt end);;
            (match p_RetryCancel p with
             | Some s => redis_io (RetryCancel.Acknowledge s (J_JobID job))
             | None => mret tt
             end);;
            releaseUniq p job;;
            mret (p, Done (with_event committed (event_if (in_batch job) job "failed" src now), None))
          else if Expired (J_ValidTill job) now then expire_job p job raw src now
          else execute p job raw src now dur
      end
  end.

(** ** The retry consumer *)

Record RetryOutcome := mkRetryOutcome {
  R_CommitOffset : bool; R_PauseFor : option Z; R_Produce : option (string * string * string);
  R_DLT : option (string * string); R_Event : option EventMessage; R_AckCancelJobID : string;
  R_Failure : option FailureRecord
}.

Definition retry_ok : RetryOutcome := mkRetryOutcome true None None None None "" None.

Definition failedEvent (m : object) (src : SourceCoords) (now : Z) : option EventMessage :=
  let batchID := str_field m "batch_id" in
  let seqF := default 0%Q (num_field m "batch_seq") in
  if String.eqb batchID "" || Qle_bool seqF 0 then None
  else Some (mkEvent batchID (str_field m "job_id") "failed" (str_field m "worker_class")
               (rfc3339_format now) (Src_Topic src) (Src_Partition src) (Src_Offset src)
               (truncate seqF)).

Definition dltRaw (raw topic : string) (now : Z) : string * string :=
  (marshal_or_empty (<["dlt_at" := JStr (rfc3339_format now)]>
     (<["dlt_raw_payload" := JStr raw]> (<["dlt_source_topic" := JStr topic]>
     (<["dlt_type" := JStr "retry_routing"]> ∅)))), "retry"%string).

Definition dltMap (m : object) (raw topic : string) (now : Z) : string * string :=
  let m := <["dlt_at" := JStr (rfc3339_format now)]>
     (<["dlt_raw_payload" := JStr raw]> (<["dlt_source_topic" := JStr topic]>
     (<["dlt_type" := JStr "retry_routing"]> m))) in
  let key := str_field m "job_id" in
  (marshal_or_empty m, if String.eqb key "" then "retry"%string else key).

(** The first layout that parses; both accept the fractional seconds. *)
Definition parseTime (nano_parse : string -> option Z) (v : option json) : option Z :=
  match v with
  | Some (JStr s) =>
      if String.eqb s "" then None
      else match nano_parse s with Some t => Some t | None => rfc3339_parse s end
  | _ => None
  end.

Definition redeliver (m : object) : object :=
  let m := delete "retry_to" (delete "retry_after" m) in
  match m !! "attempt" with Some a => <["retry_count" := a]> m | None => m end.

Definition ProcessRetry (cancel : option (option Z)) (maxPause : Z) (nano_parse : string -> option Z)
    (raw : string) (src : SourceCoords) (now : Z) : kio RetryOutcome :=
  match unmarshal raw with
  | Bad _ | Ok None =>
      mret (mkRetryOutcome true None None (Some (dltRaw raw (Src_Topic src) now)) None "" None)
  | Ok (Some m) =>
      let jobID := str_field m "job_id" in
      skip ← (match cancel with
              | Some s => redis_io (RetryCancel.ShouldSkip s (Src_Topic src) (Src_Partition src)
                                      (Src_Offset src) jobID)
              | None => mret false
              end);
      mret (if (skip : bool) then
              mkRetryOutcome true None None None (failedEvent m src now) jobID None
            else
              let retryTo := str_field m "retry_to" in
              if String.eqb retryTo "" then
                mkRetryOutcome true None None (Some (dltMap m raw (Src_Topic src) now))
                  (failedEvent m src now) "" None
              else if Expired (str_field m "valid_till") now then
                let drop := BuildDrop raw src now in
                mkRetryOutcome true None None (Some (Drop_DLTPayload drop, Drop_DLTKey drop))
                  (Drop_Event drop) "" (Drop_Failure drop)
              else
                let wait := match parseTime nano_parse (m !! "retry_after") with
                            | Some t => t - now
                            | None => 0
                            end in
                if 0 <? wait then
                  mkRetryOutcome false (Some (if maxPause <? wait then maxPause else wait))
                    None None None "" None
                else
                  let m := redeliver m in
                  mkRetryOutcome true None
                    (Some (retryTo, str_field m "job_id", marshal_or_empty m)) None None "" None)
  end.
End job.
