(* ===== verification/JobProps.v ===== *)
(** The properties of job execution and of the retry consumer. *)
From S2P Require Import Prelude Redis Client Kafka Protocol Ledger Fairness Store Control Job.

(** The text of a time parses to a time that is not later, in both layouts. *)
Class TimeLaws `{TimeText} := {
  format_parses : ∀ t, ∃ t', rfc3339_parse (rfc3339_format t) = Some t' ∧ t' <= t;
  format_not_empty : ∀ t, rfc3339_format t ≠ ""%string
}.

Section props.
Context `{NumText} `{JsonLaws} `{TimeLaws}.

(** ** A retry message decodes to the next attempt *)

(** The job of attempt [n], redelivered by the retry consumer. *)
Definition at_attempt (job : JobMessage) (n : Z) (counted : bool) : JobMessage :=
  mkJob (J_JobID job) (J_BatchID job) (J_JobType job) (J_WorkerClass job) (J_Payload job)
    n (J_MaxRetries job) (J_EnqueuedAt job) (J_TenantID job) (J_BatchSeq job) (J_RetryTier job)
    (J_ValidTill job) counted "" "" (J_UniqFP job) (J_Reclaim job).

(** The fields that a retry does not touch. *)
Definition stable_fields : list string :=
  ["job_id"; "batch_id"; "job_type"; "worker_class"; "payload"; "max_retries"; "enqueued_at"; "tenant_id";
   "batch_seq"; "retry_tier"; "valid_till"; "_uniq_fp"; "_reclaim"]%string.

Ltac next_field Ej :=
  repeat match type of Ej with
  | (?x ≫= _) = Ok _ => destruct x as [?|?]; [cbn [mbind result_bind] in * | done]
  | _ => progress cbn [mbind result_bind] in *
  end.

Lemma job_of_object_attempt m m' job n counted :
  job_of_object m = Ok job →
  Forall (λ k, m' !! k = m !! k) stable_fields →
  opt_int m' "attempt" = Ok (Some n) → opt_str m' "retry_after" = Ok None → opt_str m' "retry_to" = Ok None →
  (opt_bool m' "batch_counted" = Ok (Some counted)
   ∨ m' !! "batch_counted"%string = m !! "batch_counted"%string ∧ counted = J_BatchCounted job) →
  job_of_object m' = Ok (at_attempt job n counted).
Proof.
  intros Ej Hs Ha Hra Hrt Hc. unfold stable_fields in Hs.
  repeat match goal with Hs : Forall _ (_ :: _) |- _ => apply Forall_cons in Hs as [? Hs] end.
  unfold job_of_object in *. rewrite Ha, Hra, Hrt.
  assert (∀ k, m' !! k = m !! k → opt_str m' k = opt_str m k) as Hstr
    by (intros k E; unfold opt_str; by rewrite E).
  assert (∀ k, m' !! k = m !! k → opt_int m' k = opt_int m k) as Hint
    by (intros k E; unfold opt_int, opt_num; by rewrite E).
  assert (∀ k, m' !! k = m !! k → opt_bool m' k = opt_bool m k) as Hbool
    by (intros k E; unfold opt_bool; by rewrite E).
  assert (opt_map m' "payload" = opt_map m "payload") as Hmap.
  { unfold opt_map. match goal with E : m' !! "payload"%string = _ |- _ => by rewrite E end. }
  rewrite Hmap. rewrite !Hstr, !Hint, (Hbool "_reclaim"%string) by assumption.
  destruct (opt_bool m "batch_counted") as [v|] eqn:Eb.
  - next_field Ej. injection Ej as <-. destruct Hc as [-> | [E ->]]; [done |].
    by rewrite (Hbool "batch_counted"%string E), Eb.
  - next_field Ej. done.
Qed.

Lemma opt_int_inject m k n :
  m !! k = Some (JNum (inject_Z n)) → minInt64 <= n <= maxInt64 → opt_int m k = Ok (Some n).
Proof.
  intros E Hn. unfold opt_int, opt_num. rewrite E. unfold truncate. cbn [Qnum Qden inject_Z].
  rewrite Z.mod_1_r, Z.quot_1_r.
  destruct (Z.leb_spec minInt64 n); [| lia]. by destruct (Z.leb_spec n maxInt64); [| lia].
Qed.

Lemma opt_int_range m k n : opt_int m k = Ok (Some n) → minInt64 <= n <= maxInt64.
Proof.
  unfold opt_int, opt_num. destruct (m !! k) as [[t|b|q|t]|] eqn:E; cbn; try done;
    [| by destruct (String.eqb t "null")].
  destruct (Z.leb_spec minInt64 (truncate q)), (Z.leb_spec (truncate q) maxInt64); cbn;
    rewrite ?andb_false_r; try done. rewrite ?andb_true_r.
  destruct (_ =? 0); [| done]. by intros [= <-].
Qed.

(** The attempt of a decoded job and its own retry limit are 64-bit. *)
Lemma job_ranges m job :
  job_of_object m = Ok job →
  minInt64 <= J_Attempt job ∧ ∀ n, J_MaxRetries job = Some n → n <= maxInt64.
Proof.
  unfold job_of_object. intros Ej.
  destruct (opt_int m "attempt") as [a|] eqn:Ea; [| next_field Ej; done].
  destruct (opt_int m "max_retries") as [x|] eqn:Ex; [| next_field Ej; done].
  next_field Ej. injection Ej as <-. cbn [J_Attempt J_MaxRetries]. split.
  - destruct a as [a|]; [apply opt_int_range in Ea; cbn; lia | cbn; unfold minInt64; lia].
  - intros n ->. apply opt_int_range in Ex. lia.
Qed.

(** What the retry consumer produces for a retry payload. *)
Definition next_object (job : JobMessage) (retryAt : Z) (retryTo : string) (m : object) : object :=
  redeliver (retry_fields job retryAt retryTo m).

Ltac fields_ne :=
  repeat first [ rewrite lookup_delete_ne by discriminate | rewrite lookup_insert_ne by discriminate ].

Lemma retry_fields_lookup job at_ to m k :
  k ∉ ["retry_to"; "retry_after"; "retry_count"; "attempt"; "batch_counted"; "_fair_slot";
       "_fair_slot_id"; "_fair_type"]%string →
  retry_fields job at_ to m !! k = m !! k.
Proof.
  intros Hk. rewrite !not_elem_of_cons in Hk. destruct_and!. unfold retry_fields; cbv zeta.
  rewrite !lookup_delete_ne by congruence. destruct (J_BatchCounted job);
    by rewrite !lookup_insert_ne by congruence.
Qed.

Lemma redeliver_lookup m k :
  k ≠ "retry_to"%string → k ≠ "retry_after"%string → k ≠ "retry_count"%string →
  redeliver m !! k = m !! k.
Proof.
  intros H1' H2' H3'. unfold redeliver; cbv zeta. destruct (delete _ _ !! "attempt"%string);
    rewrite ?lookup_insert_ne by congruence; by rewrite !lookup_delete_ne by congruence.
Qed.

Lemma next_attempt job at_ to m :
  next_object job at_ to m !! "attempt"%string = Some (JNum (inject_Z (int64 (J_Attempt job + 1)))).
Proof.
  unfold next_object. rewrite redeliver_lookup by discriminate. unfold retry_fields; cbv zeta. fields_ne.
  destruct (J_BatchCounted job); fields_ne; by rewrite lookup_insert_eq.
Qed.

Lemma next_counted job at_ to m :
  next_object job at_ to m !! "batch_counted"%string
  = if J_BatchCounted job then Some (JBool true) else m !! "batch_counted"%string.
Proof.
  unfold next_object. rewrite redeliver_lookup by discriminate. unfold retry_fields; cbv zeta. fields_ne.
  destruct (J_BatchCounted job); fields_ne; by rewrite ?lookup_insert_eq.
Qed.

Lemma next_stable job at_ to m :
  Forall (λ k, next_object job at_ to m !! k = m !! k) stable_fields.
Proof.
  unfold stable_fields, next_object. repeat constructor;
    (rewrite redeliver_lookup by discriminate; apply retry_fields_lookup; by apply (bool_decide_unpack _)).
Qed.

Lemma next_erased job at_ to m k :
  k = "retry_after"%string ∨ k = "retry_to"%string → next_object job at_ to m !! k = None.
Proof.
  unfold next_object, redeliver; cbv zeta. intros [-> | ->];
    destruct (delete _ _ !! "attempt"%string); rewrite ?lookup_insert_ne by discriminate;
    [| | apply lookup_delete_eq | apply lookup_delete_eq];
    (rewrite lookup_delete_ne by discriminate; apply lookup_delete_eq).
Qed.

Lemma next_unslotted job at_ to m : next_object job at_ to m !! "_fair_slot"%string = None.
Proof.
  unfold next_object. rewrite redeliver_lookup by discriminate. unfold retry_fields; cbv zeta.
  rewrite !lookup_delete_ne by discriminate. by rewrite lookup_delete_eq.
Qed.

(** The next delivery of a failed job is the same job, one attempt later. *)
Lemma next_job job job' at_ to m :
  job_of_object m = Ok job → J_Attempt job' = J_Attempt job → J_Attempt job < maxInt64 →
  J_BatchCounted job' = true ∨ J_BatchCounted job' = J_BatchCounted job →
  job_of_object (next_object job' at_ to m)
  = Ok (at_attempt job (J_Attempt job + 1) (J_BatchCounted job')).
Proof.
  intros Ej Ha Hlt Hc. destruct (job_ranges m job Ej) as [Hlo _].
  apply (job_of_object_attempt m); [done | apply next_stable | | | |].
  - apply opt_int_inject; [rewrite next_attempt, Ha, int64_id |]; [done | lia..].
  - unfold opt_str. by rewrite next_erased by auto.
  - unfold opt_str. by rewrite next_erased by auto.
  - destruct (J_BatchCounted job') eqn:Ec.
    + left. unfold opt_bool. by rewrite next_counted, Ec.
    + right. rewrite next_counted, Ec. split; [done |]. by destruct Hc.
Qed.

(** ** The life of a job that always fails *)

Lemma RetryTierFor_done c n tier :
  RetryProgression c ≠ [] → ∃ t, RetryTierFor c n tier = Done t.
Proof.
  intros Hp. unfold RetryTierFor. destruct (_ && _); [by eexists |]. cbv zeta.
  set (n1 := int64 (n - 1)). set (i := if n1 <? 0 then 0 else n1).
  set (len := Z.of_nat (length (RetryProgression c))).
  assert (0 < len) by (unfold len; destruct (RetryProgression c); cbn; [done | lia]).
  assert (0 <= i) by (unfold i; destruct (Z.ltb_spec n1 0); lia).
  set (j := if len <=? i then len - 1 else i).
  assert (0 <= j < len) by (unfold j; destruct (Z.leb_spec len i); lia).
  destruct (Z.ltb_spec j 0); [lia |].
  destruct (RetryProgression c !! Z.to_nat j) eqn:E; [by eexists |].
  apply lookup_ge_None in E. unfold len in *. lia.
Qed.

Definition unslotted (raw : string) : Prop :=
  ∃ m, unmarshal raw = Ok (Some m) ∧ m !! "_fair_slot"%string = None.

Lemma withFairSlot_plain p raw now dur perform S :
  unslotted raw →
  withFairSlot p raw now dur perform S = ((perform S).1, (p, Ran (perform S).2)).
Proof.
  intros (m & E & Hm). unfold withFairSlot, parseFairMeta. rewrite E. cbn.
  unfold mbind, kio_bind. rewrite Hm. cbn. destruct (fairScheduler p raw);
    by destruct (perform S).
Qed.

(** The processor the job runs on: no cancellation, and a handler that fails
    with a retryable error every time. *)
Record failing (p : Processor) (type : string) (e : exec_error) : Prop := {
  fl_skip : SkipCancelledJobs (p_Cfg p) = false;
  fl_cancel : p_RetryCancel p = None;
  fl_tiers : RetryProgression (p_Cfg p) ≠ [];
  fl_error : nonRetryable e = false;
  fl_handler : ∃ h, hk_Lookup (p_Hooks p) type = Some h ∧ ∀ job S, (h job S).2 = Some e
}.

(** One delivery of a plain job that fails. *)
Lemma Process_fails p job raw src now dur e S :
  failing p (J_JobType job) e → unmarshal_job raw = Ok job → unslotted raw →
  J_ValidTill job = ""%string →
  ∃ S', (Process p raw src now dur S).2 = (p, (handleFailure p job raw src now e S').2).
Proof.
  intros [F1 F2 F3 F4 (h & Hh & He)] Ej Hu Hv. unfold Process. rewrite Ej, F1.
  unfold mbind, kio_bind, mret, kio_ret.
  assert (∀ A (x : A), match J_BatchID job with Some _ => x | None => x end = x) as Hc
    by (intros; by destruct (J_BatchID job)).
  rewrite Hc, F2, Hv.
  replace (Expired "" now) with false by reflexivity.
  unfold execute, mbind, kio_bind, mret, kio_ret. rewrite Hh.
  destruct (hk_JobStarted (p_Hooks p) job src S) as [S1 []].
  rewrite withFairSlot_plain by done. rewrite (He job S1). cbn.
  destruct (handleFailure p job raw src now e (h job S1).1) as [S2 o] eqn:Eo.
  destruct (hk_JobFinished (p_Hooks p) (J_JobID job) S2) as [S3 []].
  exists (h job S1).1. by rewrite Eo.
Qed.

Definition touches (job : JobMessage) : bool := in_batch job && negb (J_BatchCounted job).

Definition retried_job (job : JobMessage) : JobMessage :=
  if touches job then set_counted job else job.

Lemma handleFailure_retries p job raw src now e S m :
  failing p (J_JobType job) e → unmarshal raw = Ok (Some m) → J_Attempt job < maxRetries p job →
  ∃ tier body, marshal (retry_fields (retried_job job) (now + retryDelay (p_Cfg p) tier)
                          (Src_Topic src) m) = Ok body ∧
    (handleFailure p job raw src now e S).2
    = Done (with_retry (with_event committed (event_if (touches job) job "executed" src now))
              (RetryTopic (p_Cfg p) tier) (J_JobID job) body, None).
Proof.
  intros F Eu Ha. unfold handleFailure. rewrite (fl_error _ _ _ F).
  destruct (Z.ltb_spec (J_Attempt job) (maxRetries p job)); [| lia].
  destruct (RetryTierFor_done (p_Cfg p) (int64 (J_Attempt job + 1)) (J_RetryTier job)
              (fl_tiers _ _ _ F)) as [tier ->].
  fold (touches job). fold (retried_job job).
  destruct (marshal_ok (retry_fields (retried_job job) (now + retryDelay (p_Cfg p) tier)
                          (Src_Topic src) m)) as [body Eb].
  exists tier, body. split; [done |]. unfold buildRetryPayload. rewrite Eu, Eb.
  unfold mbind, kio_bind, mret, kio_ret. by destruct (recordTenantOutcome _ _ _ _ S).
Qed.

Lemma handleFailure_exhausted p job raw src now e S :
  nonRetryable e = false → maxRetries p job <= J_Attempt job →
  ∃ dlt key, (handleFailure p job raw src now e S).2
    = Done (with_dlt (with_event committed (event_if (in_batch job) job "failed" src now)) dlt key, None).
Proof.
  intros He Ha. unfold handleFailure. rewrite He.
  destruct (Z.ltb_spec (J_Attempt job) (maxRetries p job)); [lia |].
  unfold mbind, kio_bind, mret, kio_ret. destruct (recordExecutionFailure _ _ _ _ S) as [S1 []].
  destruct (hk_Lookup (p_Hooks p) (J_JobType job)); [destruct (hk_Exhausted _ _ _ _ S1) as [S2 []] |];
    (destruct (releaseUniq p job _) as [S3 []]; destruct (recordTenantOutcome _ _ _ _ S3) as [S4 []];
     by eexists _, _).
Qed.

(** A retry message that is due goes back to its topic. *)
Lemma ProcessRetry_due maxPause nano_parse body src now S m to t :
  unmarshal body = Ok (Some m) → str_field m "retry_to" = to → to ≠ ""%string →
  str_field m "valid_till" = ""%string → m !! "retry_after"%string = Some (JStr (rfc3339_format t)) →
  (∀ x t', nano_parse x = Some t' → rfc3339_parse x = Some t') → t <= now →
  ∃ raw', marshal (redeliver m) = Ok raw' ∧
    (ProcessRetry None maxPause nano_parse body src now S)
    = (S, mkRetryOutcome true None (Some (to, str_field (redeliver m) "job_id", raw')) None None "" None).
Proof.
  intros Eu Et Hto Hv Hr Hn Hnow. destruct (marshal_ok (redeliver m)) as [raw' Em].
  exists raw'. split; [done |]. unfold ProcessRetry. rewrite Eu. unfold mbind, kio_bind, mret, kio_ret.
  rewrite Et, Hv. destruct (String.eqb_spec to ""); [done |].
  replace (Expired "" now) with false by reflexivity. rewrite Hr. unfold parseTime.
  destruct (String.eqb_spec (rfc3339_format t) "") as [E|_]; [by apply format_not_empty in E |].
  destruct (format_parses t) as (t' & Ep & Hle).
  assert (match nano_parse (rfc3339_format t) with
          | Some t0 => Some t0 | None => rfc3339_parse (rfc3339_format t) end = Some t') as ->.
  { destruct (nano_parse _) eqn:En; [apply Hn in En; congruence | done]. }
  destruct (Z.ltb_spec 0 (t' - now)); [lia |]. unfold marshal_or_empty. by rewrite Em.
Qed.

Lemma job_valid_till m job :
  job_of_object m = Ok job → J_ValidTill job = ""%string → str_field m "valid_till" = ""%string.
Proof.
  unfold job_of_object, str_field, str_of. intros Ej Hv.
  destruct (m !! "valid_till"%string) as [[t|b|q|t]|] eqn:E; try done.
  assert (opt_str m "valid_till" = Ok (Some t)) as Et by (unfold opt_str; by rewrite E).
  rewrite Et in Ej.
  next_field Ej.
  injection Ej as <-. exact Hv.
Qed.

(** A failed job's retry message, once due, comes back as the next attempt. *)
Lemma retry_round maxPause nano_parse body rsrc due S m job to at_ :
  (∀ x t, nano_parse x = Some t → rfc3339_parse x = Some t) →
  marshal (retry_fields (retried_job job) at_ to m) = Ok body → job_of_object m = Ok job →
  J_ValidTill job = ""%string → to ≠ ""%string → at_ <= due → J_Attempt job < maxInt64 →
  ∃ raw' m', ProcessRetry None maxPause nano_parse body rsrc due S
      = (S, mkRetryOutcome true None (Some (to, str_field m' "job_id", raw')) None None "" None) ∧
    unmarshal raw' = Ok (Some m') ∧
    job_of_object m' = Ok (at_attempt job (J_Attempt job + 1) (J_BatchCounted (retried_job job))) ∧
    m' !! "_fair_slot"%string = None.
Proof.
  intros Hn Eb Ej Hv Hto Hdue Hlt. set (m1 := retry_fields (retried_job job) at_ to m) in *.
  destruct (ProcessRetry_due maxPause nano_parse body rsrc due S m1 to at_) as (raw' & Er & ->); try done.
  { by apply unmarshal_of_marshal. }
  { unfold m1, retry_fields, str_field; cbv zeta. fields_ne. destruct (J_BatchCounted _); fields_ne;
      by rewrite lookup_insert_eq. }
  { unfold m1, str_field. rewrite retry_fields_lookup by by apply (bool_decide_unpack _).
    by apply (job_valid_till m job). }
  { unfold m1, retry_fields; cbv zeta. fields_ne. destruct (J_BatchCounted _); fields_ne;
      by rewrite lookup_insert_eq. }
  exists raw', (redeliver m1). split; [done |]. split; [by apply unmarshal_of_marshal |].
  split; [| apply next_unslotted]. apply (next_job job (retried_job job)); [done | | done |];
    unfold retried_job; destruct (touches job); auto.
Qed.

(** How a job ended: dead-lettered after some runs, or not within the times
    given. *)
Inductive fate := DeadLettered (runs : nat) | Unfinished.

Definition one_more (f : fate) : fate :=
  match f with DeadLettered n => DeadLettered (S n) | Unfinished => Unfinished end.

(** The deliveries of a job: at each pair of times the processor handles it, and
    the retry consumer the retry message, if there is one. *)
Fixpoint life (p : Processor) (maxPause : Z) (nano_parse : string -> option Z) (dur : Q)
    (raw : string) (src : SourceCoords) (ts : list (Z * Z)) (S : system)
    : list EventMessage * fate :=
  match ts with
  | [] => ([], Unfinished)
  | (now, due) :: ts =>
      let '(S1, (p1, o)) := Process p raw src now dur S in
      match o with
      | Done (out, None) =>
          let evs := option_list (O_Event out) in
          match O_RetryPayload out with
          | Some body =>
              let '(S2, r) := ProcessRetry None maxPause nano_parse body
                                (Src (O_RetryTopic out) 0 0) due S1 in
              match R_Produce r with
              | Some (topic, key, raw') =>
                  let '(es, f) := life p1 maxPause nano_parse dur raw'
                                    (Src topic (Src_Partition src) (Src_Offset src)) ts S2 in
                  (evs ++ es, one_more f)
              | None => (evs, Unfinished)
              end
          | None => (evs, match O_DLTPayload out with
                          | Some _ => DeadLettered 1
                          | None => Unfinished
                          end)
          end
      | _ => ([], Unfinished)
      end
  end.

(** The statuses a batch job reports while it fails. *)
Definition reports (job : JobMessage) (retries : nat) : list string :=
  if in_batch job then
    (if J_BatchCounted job then []
     else match retries with O => [] | S _ => ["executed"%string] end) ++ ["failed"%string]
  else [].

Definition about (job : JobMessage) (e : EventMessage) : Prop :=
  Ev_BatchID e = deref (J_BatchID job) ∧ Ev_BatchSeq e = default 0 (J_BatchSeq job) ∧
  Ev_JobID e = J_JobID job.

Lemma reports_next job n :
  option_list (Ev_Status <$> event_if (touches job) job "executed" (Src "" 0 0) 0)
    ++ reports (at_attempt job (J_Attempt job + 1) (J_BatchCounted (retried_job job))) n
  = reports job (S n).
Proof.
  unfold reports, event_if, touches, retried_job. fold (touches job). cbn [in_batch at_attempt J_BatchID J_BatchSeq].
  change (in_batch (at_attempt job (J_Attempt job + 1) (J_BatchCounted (if touches job then set_counted job else job))))
    with (in_batch job).
  unfold touches. destruct (in_batch job); [| done]. cbn. destruct (J_BatchCounted job) eqn:E; cbn;
    [by rewrite E | done].
Qed.

(** C18: A job whose handler always fails with a retryable error runs exactly once
    more than the retries it has left and is then dead-lettered.  The job has no
    valid_till and no fair slot, the processor does not check for cancellation, every
    message is delivered once and a retry message when it is due; through the retry topics it comes back as the same job one
    attempt later, and its batch sees one executed report, unless it was
    counted before, and one failed report. *)
Theorem retries_are_bounded p maxPause nano_parse dur raw src ts S m job e :
  failing p (J_JobType job) e → MaxRetries (p_Cfg p) <= maxInt64 →
  (∀ x t, nano_parse x = Some t → rfc3339_parse x = Some t) →
  Forall (λ t, ∀ tier, t.1 + retryDelay (p_Cfg p) tier <= t.2) ts →
  unmarshal raw = Ok (Some m) → job_of_object m = Ok job → m !! "_fair_slot"%string = None →
  J_ValidTill job = ""%string → Src_Topic src ≠ ""%string →
  (Z.to_nat (maxRetries p job - J_Attempt job) < length ts)%nat →
  let n := Z.to_nat (maxRetries p job - J_Attempt job) in
  (life p maxPause nano_parse dur raw src ts S).2 = DeadLettered (1 + n) ∧
  Ev_Status <$> (life p maxPause nano_parse dur raw src ts S).1 = reports job n ∧
  Forall (about job) (life p maxPause nano_parse dur raw src ts S).1.
Proof.
  intros F Hmax Hn Ht. revert raw src S m job F Hmax.
  induction Ht as [|[now due] ts Htime Ht IH]; intros raw src S m job F Hmax Eu Ej Hm Hv Hsrc Hlen;
    [cbn in Hlen; lia |].
  cbn [life]. cbn in Htime.
  assert (unmarshal_job raw = Ok job) as Euj by (unfold unmarshal_job; by rewrite Eu).
  assert (unslotted raw) as Hu by (by exists m).
  destruct (Process_fails p job raw src now dur e S F Euj Hu Hv) as [S0 EP].
  destruct (Process p raw src now dur S) as [S1 [p1 o]]. cbn in EP. injection EP as -> ->.
  destruct (Z.lt_ge_cases (J_Attempt job) (maxRetries p job)) as [Hlt|Hge].
  - destruct (handleFailure_retries p job raw src now e S0 m F Eu Hlt) as (tier & body & Eb & ->).
    cbn [O_Event O_RetryPayload O_RetryTopic with_retry with_event committed option_list].
    destruct (retry_round maxPause nano_parse body (Src (RetryTopic (p_Cfg p) tier) 0 0) due S1 m job
      (Src_Topic src) (now + retryDelay (p_Cfg p) tier)) as (raw' & m' & -> & Eu' & Ej' & Hm'); try done.
    { destruct (job_ranges m job Ej) as [_ Hr]. unfold maxRetries in Hlt.
      destruct (J_MaxRetries job) as [x|]; cbn in Hlt; [specialize (Hr x eq_refl) |]; lia. }
    cbn [R_Produce]. set (job' := at_attempt job (J_Attempt job + 1) (J_BatchCounted (retried_job job))) in *.
    specialize (IH raw' (Src (Src_Topic src) (Src_Partition src) (Src_Offset src)) S1 m' job').
    assert (maxRetries p job' = maxRetries p job) as Emax by done.
    assert (Z.to_nat (maxRetries p job - J_Attempt job) = Datatypes.S (Z.to_nat (maxRetries p job' - J_Attempt job'))) as En.
    { rewrite Emax. cbn [J_Attempt job' at_attempt]. lia. }
    destruct IH as (IH1 & IH2 & IH3); try done.
    { rewrite En in Hlen. cbn [length] in Hlen. lia. }
    destruct (life p maxPause nano_parse dur raw' _ ts S1) as [es f]. cbn [fst snd] in *.
    rewrite IH1, En. split; [done |]. split.
    + rewrite fmap_app, IH2. rewrite <- (reports_next job). fold job'. f_equal.
      by destruct (touches job).
    + apply Forall_app. split; [| exact IH3]. by destruct (touches job); repeat constructor.
  - destruct (handleFailure_exhausted p job raw src now e S0 (fl_error _ _ _ F) Hge) as (dlt & key & ->).
    cbn [O_Event O_RetryPayload O_DLTPayload with_dlt with_event committed].
    replace (Z.to_nat (maxRetries p job - J_Attempt job)) with 0%nat by lia.
    split; [done |]. unfold reports, event_if. destruct (in_batch job); cbn; [| done].
    split; [by destruct (J_BatchCounted job) | by repeat constructor].
Qed.

(** ** A fair slot that is already held *)

(** The message [m] carries the fair slot [slot], is no reclaim, and its
    processor runs [sched] for it. *)
Record slotted (p : Processor) (raw : string) (m : object) (job : JobMessage) (sched : Scheduler)
    (slot : string) : Prop := {
  sl_raw : unmarshal raw = Ok (Some m);
  sl_job : job_of_object m = Ok job;
  sl_slot : m !! "_fair_slot"%string = Some (JBool true);
  sl_id : str_field m "_fair_slot_id" = slot;
  sl_named : slot ≠ ""%string;
  sl_fresh : m !! "_reclaim"%string = None;
  sl_sched : fairScheduler p raw = Some sched
}.

(** A processor without cancellation whose running-job markers are off. *)
Record steady (p : Processor) (type : string) : Prop := {
  sd_skip : SkipCancelledJobs (p_Cfg p) = false;
  sd_cancel : p_RetryCancel p = None;
  sd_tiers : RetryProgression (p_Cfg p) ≠ [];
  sd_known : is_Some (hk_Lookup (p_Hooks p) type);
  sd_started : ∀ job src, hk_JobStarted (p_Hooks p) job src = mret tt;
  sd_finished : ∀ id, hk_JobFinished (p_Hooks p) id = mret tt
}.

Lemma redis_do {A} (c : cmd A) (S : system) :
  quiet (sys S) → (∀ db, (c db).1 = db) →
  ∃ net, redis_io (do c) S = (System (World (w_db (sys S)) net) (k_log S) (k_net S), (c (w_db (sys S))).2)
         ∧ Forall (λ f, f = Fine) net.
Proof.
  intros Hq Hc. destruct (do_quiet c (sys S) Hq) as (net & E & Hn). exists net.
  unfold redis_io. by rewrite E, Hc.
Qed.

Lemma claim_held sched slot S :
  quiet (sys S) → slot ≠ ""%string → has_key (w_db (sys S)) (SlotDedupKey (sc_Lane sched) slot) = true →
  ∃ net, redis_io (ClaimSlotExecution sched slot) S
         = (System (World (w_db (sys S)) net) (k_log S) (k_net S), (false, None))
         ∧ Forall (λ f, f = Fine) net.
Proof.
  intros Hq Hs Hk. unfold ClaimSlotExecution, redis_io, mbind, io_bind.
  destruct (String.eqb_spec slot ""); [done |].
  destruct (do_quiet (command (SET_NX_EX (SlotDedupKey (sc_Lane sched) slot) "1"
                                 (slotDedupTTL (sc_Settings sched)))) (sys S) Hq) as (net & E & Hn).
  exists net. rewrite E. unfold command, SET_NX_EX. by rewrite Hk.
Qed.

Lemma withFairSlot_held p raw m job sched slot now dur perform S :
  slotted p raw m job sched slot → quiet (sys S) →
  has_key (w_db (sys S)) (SlotDedupKey (sc_Lane sched) slot) = true →
  ∃ net, withFairSlot p raw now dur perform S
         = (System (World (w_db (sys S)) net) (k_log S) (k_net S), (p, Skipped))
         ∧ Forall (λ f, f = Fine) net.
Proof.
  intros [L1 L2 L3 L4 L5 L6 L7] Hq Hk. unfold withFairSlot. rewrite L7.
  unfold parseFairMeta, isReclaimPayload. rewrite L1. cbn. unfold opt_bool. rewrite L3, L4, L6. cbn.
  destruct (String.eqb_spec slot ""); [done |]. unfold mbind, kio_bind, mret, kio_ret.
  destruct (claim_held sched slot S Hq L5 Hk) as (net & -> & Hn). by exists net.
Qed.

Lemma skip_deferred p raw m job sched slot src now run S st b q B Z exp :
  slotted p raw m job sched slot → steady p (J_JobType job) → quiet (sys S) →
  p_Store p = Some st → J_BatchID job = Some b → J_BatchSeq job = Some q → 1 <= q →
  J_BatchCounted job = false → get_bits (w_db (sys S)) (bitmapKey b) = Some B → q - 1 ∉ B →
  get_zset (w_db (sys S)) (leasesKey (sc_Lane sched)) = Some Z → Z !! slot = Some exp →
  Qle_bool exp (unix_seconds now) = false →
  ∃ net tier body retryAt, now < retryAt ∧
    marshal (<["retry_to" := JStr (Src_Topic src)]>
            (<["retry_after" := JStr (rfc3339_format retryAt)]> m)) = Ok body ∧
    handleFairSkip p job raw src now run S
    = (System (World (w_db (sys S)) net) (k_log S) (k_net S),
       Done (with_retry committed (RetryTopic (p_Cfg p) tier) (J_JobID job) body, None)).
Proof.
  intros [L1 L2 L3 L4 L5 L6 L7] D Hq Es Eb Eq Hq1 Ec EB HB EZ Ez Hlive.
  unfold handleFairSkip. rewrite Es, Eb, Eq, Ec. unfold CompletionRecorded.
  destruct (Z.ltb_spec q 1); [lia |]. unfold mbind, kio_bind, redis_io, io_bind.
  destruct (do_quiet (command (GETBIT (bitmapKey b) (q - 1))) (sys S) Hq) as (net & E & Hn).
  rewrite E. unfold command at 1 2, GETBIT, lift. rewrite EB. cbn.
  rewrite bool_decide_eq_false_2 by done. cbn. rewrite L7.
  unfold parseFairMeta. rewrite L1. cbn. rewrite L4.
  destruct (String.eqb_spec slot ""); [done |]. unfold SlotLeaseActive, mbind, io_bind.
  destruct (String.eqb_spec slot ""); [done |].
  destruct (do_quiet (command (ZSCORE (leasesKey (sc_Lane sched)) slot))
              (World (w_db (sys S)) net) Hn) as (net' & E' & Hn').
  cbn [sys k_log k_net]. rewrite E'. unfold command, ZSCORE, lift. cbn [w_db]. rewrite EZ. cbn. rewrite Ez. cbn.
  rewrite Hlive. cbn. unfold buildFairDeferPayload. rewrite L1.
  set (r0 := sec (truncate exp) + fairSkipDeferGrace).
  set (retryAt := if r0 <=? now then now + fairSkipDeferGrace else r0).
  destruct (marshal_ok (<["retry_to"%string := JStr (Src_Topic src)]>
              (<["retry_after"%string := JStr (rfc3339_format retryAt)]> m))) as [body Ebody].
  rewrite Ebody. destruct (RetryTierFor_done (p_Cfg p) (int64 (J_Attempt job + 1)) (J_RetryTier job)
    (sd_tiers _ _ D)) as [tier ->].
  exists net', tier, body, retryAt. split; [| by split].
  unfold retryAt. destruct (Z.leb_spec r0 now); unfold fairSkipDeferGrace, sec; lia.
Qed.

(** The processor reaches handleFairSkip. *)
Lemma Process_skipped p raw m job sched slot src now dur S :
  slotted p raw m job sched slot → steady p (J_JobType job) → quiet (sys S) →
  J_ValidTill job = ""%string →
  has_key (w_db (sys S)) (SlotDedupKey (sc_Lane sched) slot) = true →
  ∃ net h, Forall (λ f, f = Fine) net ∧
    Process p raw src now dur S
    = (o ← handleFairSkip p job raw src now (h job);
       hk_JobFinished (p_Hooks p) (J_JobID job);; mret (p, o))
        (System (World (w_db (sys S)) net) (k_log S) (k_net S)).
Proof.
  intros L D Hq Hv Hk.
  assert (unmarshal_job raw = Ok job) as Ej.
  { unfold unmarshal_job. rewrite (sl_raw _ _ _ _ _ _ L). apply L. }
  unfold Process. rewrite Ej, (sd_skip _ _ D), Hv.
  unfold mbind, kio_bind, mret, kio_ret.
  assert (∀ A (x : A), match J_BatchID job with Some _ => x | None => x end = x) as Hc
    by (intros; by destruct (J_BatchID job)).
  rewrite Hc, (sd_cancel _ _ D). change (Expired "" now) with false. cbv iota.
  unfold execute, mbind, kio_bind, mret, kio_ret. destruct (sd_known _ _ D) as [h ->].
  rewrite (sd_started _ _ D). unfold mret, kio_ret.
  destruct (withFairSlot_held p raw m job sched slot now dur (h job) S L Hq Hk) as (net & -> & Hn).
  by exists net, h.
Qed.

(** A fair job that belongs to no batch is dropped when its slot was claimed
    before, even if the lease of that slot is gone: the message is committed and
    neither run, nor retried, nor dead-lettered. *)
Lemma unbatched_skip_drops p raw m job sched slot src now dur S :
  slotted p raw m job sched slot → steady p (J_JobType job) → quiet (sys S) →
  J_ValidTill job = ""%string → J_BatchID job = None →
  has_key (w_db (sys S)) (SlotDedupKey (sc_Lane sched) slot) = true →
  ∃ net, Process p raw src now dur S
         = (System (World (w_db (sys S)) net) (k_log S) (k_net S), (p, Done (committed, None))).
Proof.
  intros L D Hq Hv Eb Hk.
  destruct (Process_skipped p raw m job sched slot src now dur S L D Hq Hv Hk) as (net & h & _ & ->).
  exists net. unfold handleFairSkip, mbind, kio_bind. rewrite Eb, (sd_finished _ _ D).
  by destruct (p_Store p).
Qed.

(** A fair job delivered again while the holder of its slot is alive is not
    run: the handler has no effect on the result, Redis and Kafka are left as
    they were, and the message is deferred, with its slot and its attempt
    unchanged, to a time after now. *)
Theorem held_slot_is_deferred p raw m job sched slot src now dur S st b q B Z exp :
  slotted p raw m job sched slot → steady p (J_JobType job) → quiet (sys S) →
  J_ValidTill job = ""%string →
  has_key (w_db (sys S)) (SlotDedupKey (sc_Lane sched) slot) = true →
  p_Store p = Some st → J_BatchID job = Some b → J_BatchSeq job = Some q → 1 <= q →
  J_BatchCounted job = false → get_bits (w_db (sys S)) (bitmapKey b) = Some B → q - 1 ∉ B →
  get_zset (w_db (sys S)) (leasesKey (sc_Lane sched)) = Some Z → Z !! slot = Some exp →
  Qle_bool exp (unix_seconds now) = false →
  ∃ net tier body retryAt, now < retryAt ∧
    marshal (<["retry_to" := JStr (Src_Topic src)]>
            (<["retry_after" := JStr (rfc3339_format retryAt)]> m)) = Ok body ∧
    Process p raw src now dur S
    = (System (World (w_db (sys S)) net) (k_log S) (k_net S),
       (p, Done (with_retry committed (RetryTopic (p_Cfg p) tier) (J_JobID job) body, None))).
Proof.
  intros L D Hq Hv Hk Es Eb Eq Hq1 Ec EB HB EZ Ez Hlive.
  destruct (Process_skipped p raw m job sched slot src now dur S L D Hq Hv Hk) as (net & h & Hn & ->).
  unfold mbind, kio_bind.
  destruct (skip_deferred p raw m job sched slot src now (h job)
    (System (World (w_db (sys S)) net) (k_log S) (k_net S)) st b q B Z exp)
    as (net' & tier & body & at_ & Hat & Em & ->); try done.
  exists net', tier, body, at_. rewrite (sd_finished _ _ D). done.
Qed.
End props.

(** ** Concrete runs *)

From S2P Require Import Concrete.

#[export] Instance nanos_laws : TimeLaws.
Proof.
  split.
  - intros t. exists t. split; [| lia]. change (atoi (itoa t) = Some t). apply atoi_itoa.
  - intros t E. change (itoa t = ""%string) in E.
    assert (atoi (itoa t) = atoi "") as E' by by rewrite E. by rewrite atoi_itoa in E'.
Qed.

Definition demo_cfg : Daemon :=
  mkDaemon false 2 "retry" (<["short"%string := 5]> ∅) ["short"%string] false 60
    "events" "callbacks" "dead" 0 0.

Definition demo_hooks : Hooks := mkHooks
  (λ _, mret tt) (λ _ _, mret tt) (λ _, Some (λ _, mret (Some (ExecError None "boom"))))
  (λ _ _ _, mret tt) (λ _ _, mret tt) (λ _, mret tt) (λ _, ""%string).

Definition demo_lane : Scheduler := NewScheduler LaneTime DefaultSettings.

Definition demo_proc : Processor :=
  mkProcessor demo_cfg (Some (mkStore (sec 60) (sec 60))) demo_hooks (Some demo_lane) None None None.

Definition demo_object : object :=
  <["job_id"%string := JStr "j"]> (<["batch_id"%string := JStr "b"]>
  (<["batch_seq"%string := JNum 1]> (<["job_type"%string := JStr "mail"]> ∅))).

Definition demo_job : JobMessage :=
  mkJob "j" (Some "b"%string) "mail" "" None 0 None "" None (Some 1) "" "" false "" "" "" false.

Definition demo_times : list (Z * Z) := [(sec 0, sec 30); (sec 40, sec 70); (sec 80, sec 110)].

Lemma demo_delay tier : retryDelay demo_cfg tier <= sec 30.
Proof.
  unfold retryDelay, demo_cfg, sec; cbn [RetryTiers].
  destruct (decide (tier = "short"%string)) as [->|Hne];
    [by rewrite lookup_insert_eq | rewrite lookup_insert_ne, lookup_empty by congruence; lia].
Qed.

Lemma demo_due : Forall (λ t, ∀ tier, t.1 + retryDelay demo_cfg tier <= t.2) demo_times.
Proof.
  unfold demo_times. rewrite !Forall_cons, Forall_nil.
  repeat split; intros tier; pose proof (demo_delay tier); unfold sec in *; cbn [fst snd]; lia.
Qed.

Definition demo_world (db : redis) : system := System (World db []) [] [].

Lemma retries_are_bounded_witness :
  let raw := object_text demo_object in
  let r := life demo_proc (sec 60) atoi 1 raw (Src "jobs" 0 7) demo_times (demo_world empty_redis) in
  r.2 = DeadLettered 3 ∧ Ev_Status <$> r.1 = ["executed"; "failed"]%string.
Proof.
  refine (let H := retries_are_bounded demo_proc (sec 60) atoi 1 (object_text demo_object) (Src "jobs" 0 7)
            demo_times (demo_world empty_redis) demo_object demo_job (ExecError None "boom")
            _ _ _ demo_due _ _ _ _ _ _ in conj (proj1 H) (proj1 (proj2 H))).
  - split; [reflexivity | reflexivity | discriminate | reflexivity |].
    eexists. split; [reflexivity |]. reflexivity.
  - vm_compute. discriminate.
  - intros x t E. exact E.
  - by apply unmarshal_of_marshal.
  - by vm_compute.
  - by vm_compute.
  - reflexivity.
  - discriminate.
  - cbn. lia.
Defined.

(** The slot [s1] is leased until 100 s and its handler has started. *)
Definition demo_held : redis :=
  put_zset (leasesKey LaneTime) (<["s1"%string := 100%Q]> ∅)
    ((command (SET_NX_EX (SlotDedupKey LaneTime "s1") "1" 60) empty_redis).1).

Definition demo_slotted : object :=
  <["_fair_slot"%string := JBool true]> (<["_fair_slot_id"%string := JStr "s1"]> demo_object).

Lemma held_slot_is_deferred_witness :
  ∃ net tier body retryAt, sec 10 < retryAt ∧
    marshal (<["retry_to" := JStr "jobs"]>
            (<["retry_after" := JStr (rfc3339_format retryAt)]> demo_slotted)) = Ok body ∧
    Process demo_proc (object_text demo_slotted) (Src "jobs" 0 7) (sec 10) 1 (demo_world demo_held)
    = (System (World demo_held net) [] [],
       (demo_proc, Done (with_retry committed (RetryTopic demo_cfg tier) "j" body, None))).
Proof.
  refine (held_slot_is_deferred demo_proc (object_text demo_slotted) demo_slotted demo_job demo_lane "s1"
            (Src "jobs" 0 7) (sec 10) 1 (demo_world demo_held) (mkStore (sec 60) (sec 60)) "b" 1 ∅
            (<["s1"%string := 100%Q]> ∅) 100 _ _ _ _ _ _ _ _ _ _ _ _ _ _ _).
  - split; [by apply unmarshal_of_marshal | by vm_compute | by vm_compute | by vm_compute | discriminate
           | by vm_compute | ].
    unfold fairScheduler, parseFairMeta. rewrite (unmarshal_of_marshal demo_slotted) by done. by vm_compute.
  - split; [reflexivity | reflexivity | discriminate | by eexists | reflexivity | reflexivity].
  - constructor.
  - reflexivity.
  - by vm_compute.
  - reflexivity.
  - reflexivity.
  - reflexivity.
  - lia.
  - reflexivity.
  - by vm_compute.
  - by vm_compute.
  - by vm_compute.
  - by vm_compute.
  - by vm_compute.
Defined.
