(* ===== verification/Produce.v ===== *)
(** Publishing: the batch produce of pkg/kafkaclient/delivery.go and the
    delivery of outcomes, pkg/daemon/produce.go.

    A producer is a record of operations; [kafka] is the one the daemon uses.  A
    context that ends while the code sleeps is the argument [ends], asked with
    the number of attempts made. *)
From S2P Require Import Prelude Redis Client Kafka Protocol Fairness Store Control Job.

(** ** kafkaclient *)

(** One produce result: the index of its record ([None] without one) and its
    error. *)
Definition kresult : Type := option nat * error.

(** [if firstErr == nil { firstErr = e }] *)
Definition keep_first (first e : error) : error := match first with Some _ => first | None => e end.

(** The loop over the results: for each record whether it has a result and its
    error, and the first error. *)
Fixpoint correlate (n : nat) (results : list kresult) (out : list (bool * error)) (first : error)
    : list (bool * error) * error :=
  match results with
  | [] => (out, first)
  | (None, e) :: rs => correlate n rs out (keep_first first e)
  | (Some i, e) :: rs =>
      if decide (i < n)%nat
      then correlate n rs (alter (λ o, (true, match e with Some _ => e | None => o.2 end)) i out)
             (keep_first first e)
      else correlate n rs out (keep_first first (Some "produce result for unknown record"%string))
  end.

(** A record without a result is not known to be durable. *)
Definition missing_result (i : nat) (o : bool * error) : error :=
  match o with
  | (false, None) => Some ("produce result missing for record " +:+ itoa (Z.of_nat i))%string
  | _ => None
  end.

Definition correlateOutcomes (n : nat) (results : list kresult) : list error * error :=
  let '(out, first) := correlate n results (replicate n (false, None)) None in
  let missing := imap missing_result out in
  (zip_with keep_first out.*2 missing, keep_first first (head (omap id missing))).

(** franz-go's ProduceSync: each record is delivered or not; the results come in
    the order of completion. *)
Class Completion := { completion : list kresult -> list kresult }.
Class CompletionLaws `{Completion} := { completion_perm : ∀ l, completion l ≡ₚ l }.

Fixpoint produce_each (ms : list message) : kio (list error) :=
  match ms with
  | [] => mret []
  | m :: ms =>
      e ← Produce (m_topic m) (m_key m) (m_payload m);
      es ← produce_each ms;
      mret (e :: es)
  end.

(** The outcome of each record, and the first error. *)
Definition ProduceManySync `{Completion} (ms : list message) : kio (list error * error) :=
  match ms with
  | [] => mret ([], None)
  | _ =>
      es ← produce_each ms;
      mret (correlateOutcomes (length ms) (completion (imap (λ i e, (Some i, e)) es)))
  end.

(** The interfaces the daemon's code asks of a producer; [None] when it does not
    have the batch operation. *)
Record Producer := mkProducer {
  pr_Produce : string -> string -> string -> kio error;
  pr_ManySync : option (list message -> kio (list error * error));
  pr_Many : option (list message -> kio error)
}.

(** The first error of the results. *)
Definition ProduceMany (ms : list message) : kio error :=
  es ← produce_each ms; mret (head (omap id es)).

Definition kafka `{Completion} : Producer :=
  mkProducer Produce (Some ProduceManySync) (Some ProduceMany).

Section produce.
Context `{Json} `{TimeText}.

(** ** Completion events *)

Definition event_object (e : EventMessage) : object :=
  <["batch_id" := JStr (Ev_BatchID e)]> (<["job_id" := JStr (Ev_JobID e)]>
  (<["status" := JStr (Ev_Status e)]> (<["worker_class" := JStr (Ev_WorkerClass e)]>
  (<["occurred_at" := JStr (Ev_OccurredAt e)]> (<["src_topic" := JStr (Ev_SrcTopic e)]>
  (<["src_partition" := JNum (inject_Z (Ev_SrcPartition e))]>
  (<["src_offset" := JNum (inject_Z (Ev_SrcOffset e))]>
  (<["batch_seq" := JNum (inject_Z (Ev_BatchSeq e))]> ∅)))))))).

Definition event_key (e : EventMessage) : string :=
  (Ev_SrcTopic e +:+ "/" +:+ itoa (Ev_SrcPartition e))%string.

(** [retries] produces may still follow a failed one. *)
Fixpoint emit_loop (cfg : Daemon) (prod : Producer) (ends : Z -> bool) (key raw : string)
    (retries : nat) (attempts : Z) : kio error :=
  err ← pr_Produce prod (EventsTopic cfg) key raw;
  match err with
  | None => mret None
  | Some e =>
      match retries with
      | O => mret (Some e)
      | S retries =>
          if (0 <? EventEmitBackoff cfg) && ends (attempts + 1) then mret (Some e)
          else emit_loop cfg prod ends key raw retries (attempts + 1)
      end
  end.

Definition produceEventWithRetry (cfg : Daemon) (prod : Producer) (ends : Z -> bool)
    (ev : option EventMessage) : kio error :=
  match ev with
  | None => mret None
  | Some ev =>
      let maxAttempts := if EventEmitRetries cfg <=? 0 then 3 else EventEmitRetries cfg in
      emit_loop cfg prod ends (event_key ev) (marshal_or_empty (event_object ev))
        (Z.to_nat maxAttempts) 0
  end.

Definition noDeadLetter : string := "dead_letter_topic not configured".

Definition park_object (ev : EventMessage) (emitErr : error) : object :=
  <["dlt_type" := JStr "event_emit_failed"]>
  (<["dlt_error_message" := JStr (default ""%string emitErr)]>
  (<["event" := JOther (marshal_or_empty (event_object ev))]> (event_object ev))).

Definition park_key (ev : EventMessage) : string :=
  if String.eqb (Ev_BatchID ev) "" then
    (if String.eqb (Ev_JobID ev) "" then "event_emit_failed" else Ev_JobID ev)
  else Ev_BatchID ev.

Definition parkFailedEventEmit (cfg : Daemon) (prod : Producer) (ev : option EventMessage)
    (emitErr : error) : kio error :=
  match ev with
  | None => mret None
  | Some ev =>
      if String.eqb (DeadLetterTopic cfg) "" then mret (Some noDeadLetter)
      else match marshal (park_object ev emitErr) with
           | Bad e => mret (Some ("marshal event_emit_failed DLT: " +:+ e)%string)
           | Ok raw => pr_Produce prod (DeadLetterTopic cfg) (park_key ev) raw
           end
  end.

Definition emitEventOrPark (cfg : Daemon) (prod : Producer) (ends : Z -> bool)
    (ev : option EventMessage) : kio error :=
  match ev with
  | None => mret None
  | Some _ =>
      e ← produceEventWithRetry cfg prod ends ev;
      match e with
      | None => mret None
      | Some err =>
          d ← parkFailedEventEmit cfg prod ev (Some err);
          mret (match d with
                | None => None
                | Some dltErr => Some ("event emit failed (" +:+ err +:+ ") and DLT park failed: " +:+ dltErr)%string
                end)
      end
  end.

(** ** Outcomes *)

Definition produce_opt (prod : Producer) (topic key : string) (payload : option string) : kio error :=
  match payload with None => mret None | Some raw => pr_Produce prod topic key raw end.

(** One after the other, stopping at the first error. *)
Definition then_ (m k : kio error) : kio error :=
  e ← m; match e with Some e => mret (Some e) | None => k end.

Definition apply_sequential (cfg : Daemon) (prod : Producer) (ends : Z -> bool) (out : Outcome) : kio error :=
  then_ (emitEventOrPark cfg prod ends (O_Event out))
    (then_ (produce_opt prod (O_RetryTopic out) (O_RetryKey out) (O_RetryPayload out))
       (produce_opt prod (DeadLetterTopic cfg) (O_DLTKey out) (O_DLTPayload out))).

(** The records of an outcome, in the order they are appended. *)
Definition event_record (cfg : Daemon) (out : Outcome) : list message :=
  match O_Event out with
  | Some ev => [Msg (EventsTopic cfg) (event_key ev) (marshal_or_empty (event_object ev))]
  | None => []
  end.
Definition retry_record (out : Outcome) : list message :=
  match O_RetryPayload out with
  | Some raw => [Msg (O_RetryTopic out) (O_RetryKey out) raw]
  | None => []
  end.
Definition dlt_record (cfg : Daemon) (out : Outcome) : list message :=
  match O_DLTPayload out with
  | Some raw => [Msg (DeadLetterTopic cfg) (O_DLTKey out) raw]
  | None => []
  end.

Definition records (cfg : Daemon) (out : Outcome) : list message :=
  event_record cfg out ++ retry_record out ++ dlt_record cfg out.

(** The error of the record at an index; [None] for the index -1 too. *)
Definition error_at (outs : list error) (present : bool) (i : nat) : error :=
  if present then mjoin (outs !! i) else None.

Definition applyJobSideEffectsBatched (cfg : Daemon) (prod : Producer)
    (many : list message -> kio (list error * error)) (ends : Z -> bool) (out : Outcome) : kio error :=
  let recs := records cfg out in
  let has {A} (o : option A) : bool := if o then true else false in
  let retryIdx := length (event_record cfg out) in
  let dltIdx := (retryIdx + length (retry_record out))%nat in
  r ← many recs;
  let outs := r.1 in
  if decide (length outs = length recs) then
    then_ (match error_at outs (has (O_Event out)) 0 with
           | Some _ => emitEventOrPark cfg prod ends (O_Event out)
           | None => mret None
           end)
      (then_ (mret (error_at outs (has (O_RetryPayload out)) retryIdx))
         (mret (error_at outs (has (O_DLTPayload out)) dltIdx)))
  else apply_sequential cfg prod ends out.

Definition applyJobSideEffects (cfg : Daemon) (prod : Producer) (ends : Z -> bool) (out : Outcome)
    : kio error :=
  match pr_ManySync prod with
  | Some many =>
      if decide (2 <= length (records cfg out))%nat
      then applyJobSideEffectsBatched cfg prod many ends out
      else apply_sequential cfg prod ends out
  | None => apply_sequential cfg prod ends out
  end.

Definition applyJobOutcome (cfg : Daemon) (prod : Producer) (ends : Z -> bool) (out : Outcome) : kio error :=
  then_ (applyJobSideEffects cfg prod ends out)
    (mret (if O_CommitOffset out then None else Some "job not committed"%string)).

(** The error of a retry message that is not due carries its pause. *)
Inductive retry_error := RetryPaused (d : Z) | RetryFailed (e : string).

Definition applyRetryOutcome (cfg : Daemon) (prod : Producer) (ends : Z -> bool) (out : RetryOutcome)
    : kio (option retry_error) :=
  e ← then_ (emitEventOrPark cfg prod ends (R_Event out))
        (then_ (match R_Produce out with
                | Some (topic, key, body) => pr_Produce prod topic key body
                | None => mret None
                end)
           (match R_DLT out with
            | Some (raw, key) => pr_Produce prod (DeadLetterTopic cfg) key raw
            | None => mret None
            end));
  mret (match e with
        | Some e => Some (RetryFailed e)
        | None => RetryPaused <$> R_PauseFor out
        end).

(** The handler of the retry consumer (daemon.go): the cancel set is acknowledged
    and the failure recorded only once the outcome is durable. *)
Definition retryHandler (cfg : Daemon) (prod : Producer) (cancel : option (option Z)) (hooks : Hooks)
    (maxPause : Z) (nano_parse : string -> option Z) (ends : Z -> bool) (raw : string)
    (src : SourceCoords) (now : Z) : kio (option retry_error) :=
  out ← ProcessRetry cancel maxPause nano_parse raw src now;
  e ← applyRetryOutcome cfg prod ends out;
  match e with
  | Some e => mret (Some e)
  | None =>
      (match cancel with
       | Some s => if String.eqb (R_AckCancelJobID out) "" then mret tt
                   else redis_io (RetryCancel.Acknowledge s (R_AckCancelJobID out))
       | None => mret tt
       end);;
      (match R_Failure out with
       | Some f => hk_RecordFailure hooks
                     (mkFailureEntry (Fr_BatchID f) (Fr_JobID f) (Fr_WorkerClass f) (Fr_ErrorClass f)
                        (Fr_ErrorMessage f) (Fr_Status f) (Fr_Attempt f))
       | None => mret tt
       end);;
      mret None
  end.
End produce.
