(* ===== verification/ProduceProps.v ===== *)
(** The properties of publishing: the outcome of a job whose delivery reports no
    error is in Kafka. *)
From S2P Require Import Prelude Redis Client Kafka Protocol Fairness Store Control Job Produce.

(** ** The log only grows *)

(** A computation that only adds to the log and leaves Redis alone. *)
Definition appends {A} (m : kio A) : Prop :=
  ∀ S, ∃ l, k_log (m S).1 = k_log S ++ l ∧ sys (m S).1 = sys S.

Lemma appends_ret {A} (a : A) : appends (mret a : kio A).
Proof. intros S. exists []. by rewrite app_nil_r. Qed.

Lemma appends_bind {A B} (m : kio A) (k : A → kio B) :
  appends m → (∀ a, appends (k a)) → appends (m ≫= k).
Proof.
  intros Hm Hk S. unfold mbind, kio_bind. destruct (Hm S) as (l & El & Es).
  destruct (m S) as [S1 a]. destruct (Hk a S1) as (l' & El' & Es').
  exists (l ++ l'). cbn in *. by rewrite El', El, Es', Es, <- app_assoc.
Qed.

Lemma appends_Produce t k p : appends (Produce t k p).
Proof.
  intros S. unfold Produce. destruct (k_net S) as [|[] net]; cbn;
    first [by exists [Msg t k p] | by exists []; rewrite app_nil_r].
Qed.

Create HintDb appends.
#[export] Hint Resolve appends_ret appends_bind appends_Produce : appends.

Lemma appends_in {A} (m : kio A) S x : appends m → x ∈ k_log S → x ∈ k_log (m S).1.
Proof. intros Hm Hx. destruct (Hm S) as (l & -> & _). apply elem_of_app. auto. Qed.

Lemma Produce_ok t k p S S' : Produce t k p S = (S', None) → Msg t k p ∈ k_log S'.
Proof.
  unfold Produce. destruct (k_net S) as [|[] net]; intros [= <-]; cbn;
    apply elem_of_app; right; apply list_elem_of_singleton; done.
Qed.

Lemma appends_each ms : appends (produce_each ms).
Proof. induction ms; cbn; eauto 6 with appends. Qed.
#[export] Hint Resolve appends_each : appends.

Lemma produce_each_ok ms S :
  length (produce_each ms S).2 = length ms ∧
  ∀ i m, ms !! i = Some m → (produce_each ms S).2 !! i = Some None → m ∈ k_log (produce_each ms S).1.
Proof.
  revert S. induction ms as [|m ms IH]; intros S; [done |]. cbn [produce_each].
  unfold mbind, kio_bind. destruct (Produce _ _ _ S) as [S1 e] eqn:E.
  specialize (IH S1). pose proof (appends_in (produce_each ms) S1) as Hin.
  destruct (produce_each ms S1) as [S2 es]. cbn in *. destruct IH as [IHl IH].
  split; [by rewrite IHl |]. intros [|i] m'; cbn; [| apply IH].
  intros [= ->] [= ->]. apply Hin; [apply appends_each |].
  apply Produce_ok in E. by destruct m'.
Qed.

(** ** Outcomes are correlated by record, whatever the order of completion *)

Lemma correlate_length n rs out first : length (correlate n rs out first).1 = length out.
Proof.
  revert out first. induction rs as [|[[j|] e] rs IH]; intros out first; cbn; [done | | by rewrite IH].
  destruct (decide _); rewrite IH; [by rewrite length_alter | done].
Qed.

Lemma correlate_other n rs out first i :
  Some i ∉ rs.*1 → (correlate n rs out first).1 !! i = out !! i.
Proof.
  revert out first. induction rs as [|[[j|] e] rs IH]; intros out first Hi; cbn in *; [done | ..];
    apply not_elem_of_cons in Hi as [Hne Hi]; [| by apply IH].
  destruct (decide _); rewrite IH by done; [| done]. apply list_lookup_alter_ne. congruence.
Qed.

Lemma correlate_record n rs out first i e :
  NoDup rs.*1 → (Some i, e) ∈ rs → (i < n)%nat → out !! i = Some (false, None) →
  (correlate n rs out first).1 !! i = Some (true, e).
Proof.
  revert out first. induction rs as [|[o e'] rs IH]; intros out first Hnd Hi Hn Hl.
  - by apply elem_of_nil in Hi.
  - cbn in Hnd. apply NoDup_cons in Hnd as [Ho Hnd]. apply elem_of_cons in Hi as [Hi|Hi].
    + injection Hi as <- <-. cbn. rewrite decide_True by done.
      rewrite correlate_other by done. etrans; [apply list_lookup_alter_eq |].
      assert (∀ (f : bool * error → bool * error) x, x = Some (false, None) → f <$> x = Some (f (false, None))) as Hf
        by by intros f x ->.
      rewrite (Hf _ _ Hl). by destruct e.
    + destruct o as [j|]; cbn; [| by apply IH]. destruct (decide _); apply IH; auto.
      rewrite list_lookup_alter_ne; [done |]. intros ->. apply Ho. by apply list_elem_of_fmap_2' with (Some i, e).
Qed.

(** The results of the records, numbered. *)
Definition numbered (es : list error) : list kresult := imap (λ i e, (Some i, e)) es.

Lemma numbered_NoDup es : NoDup (numbered es).*1.
Proof.
  apply NoDup_alt. intros i j x. unfold numbered. rewrite !list_lookup_fmap, !list_lookup_imap.
  intros Hi Hj. destruct (es !! i), (es !! j); cbn in *; congruence.
Qed.

Lemma correlateOutcomes_exact es rs :
  rs ≡ₚ numbered es → (correlateOutcomes (length es) rs).1 = es.
Proof.
  intros Hp. unfold correlateOutcomes. destruct (correlate _ _ _ _) as [out first] eqn:Eo. cbn.
  assert (out = (λ e, (true, e)) <$> es) as ->.
  { apply list_eq. intros i. rewrite list_lookup_fmap. change out with (out, first).1. rewrite <- Eo.
    destruct (es !! i) as [e|] eqn:E.
    - assert (i < length es)%nat as Hi by by eapply lookup_lt_Some. apply correlate_record.
      + rewrite Hp. apply numbered_NoDup.
      + rewrite Hp. apply list_elem_of_lookup_2 with i. unfold numbered. by rewrite list_lookup_imap, E.
      + done.
      + by apply lookup_replicate.
    - apply lookup_ge_None. rewrite correlate_length, length_replicate. by apply lookup_ge_None. }
  clear. apply list_eq. intros i. rewrite lookup_zip_with, list_lookup_imap, !list_lookup_fmap.
  destruct (es !! i) as [[e|]|]; done.
Qed.

Section props.
Context `{CompletionLaws} `{JsonLaws} `{TimeText}.

(** The batch produce reports for each record what happened to that record. *)
Lemma ProduceManySync_each ms : ∀ S,
  (ProduceManySync ms S).1 = (produce_each ms S).1 ∧ (ProduceManySync ms S).2.1 = (produce_each ms S).2.
Proof.
  intros S. unfold ProduceManySync. destruct ms as [|m ms]; [done |].
  unfold mbind, kio_bind. destruct (produce_each (m :: ms) S) as [S' es] eqn:E. unfold mret, kio_ret.
  pose proof (produce_each_ok (m :: ms) S) as [Hl _]. rewrite E in Hl. cbn [fst snd] in Hl |- *.
  split; [done |]. rewrite <- Hl. apply correlateOutcomes_exact, completion_perm.
Qed.

(** ** Completion events *)

Lemma appends_emit_loop cfg ends key raw n a : appends (emit_loop cfg kafka ends key raw n a).
Proof.
  revert a. induction n; intros a; cbn; apply appends_bind; eauto with appends; intros [e|];
    eauto with appends. destruct (_ && _); eauto with appends.
Qed.

Lemma appends_emit cfg ends ev : appends (emitEventOrPark cfg kafka ends ev).
Proof.
  destruct ev as [ev|]; cbn; [| auto with appends]. apply appends_bind; [apply appends_emit_loop |].
  intros [err|]; [| auto with appends]. apply appends_bind; [| auto with appends].
  cbn. destruct (String.eqb _ _); [auto with appends |].
  destruct (marshal _); [apply appends_Produce | auto with appends].
Qed.
Hint Resolve appends_emit : appends.

Lemma emit_loop_ok cfg ends key raw n a S S' :
  emit_loop cfg kafka ends key raw n a S = (S', None) → Msg (EventsTopic cfg) key raw ∈ k_log S'.
Proof.
  revert a S. induction n as [|n IH]; intros a S; cbn; unfold mbind, kio_bind;
    destruct (Produce _ _ _ S) as [S1 [e|]] eqn:E; intros Hm; unfold mret, kio_ret in *.
  - done.
  - injection Hm as <-. by apply Produce_ok in E.
  - destruct (_ && _); [done |]. by eapply IH.
  - injection Hm as <-. by apply Produce_ok in E.
Qed.

(** The event is on the events topic or parked on the dead-letter topic. *)
Definition event_kept (cfg : Daemon) (ev : EventMessage) (log : list message) : Prop :=
  Msg (EventsTopic cfg) (event_key ev) (marshal_or_empty (event_object ev)) ∈ log ∨
  ∃ err raw, marshal (park_object ev err) = Ok raw ∧ Msg (DeadLetterTopic cfg) (park_key ev) raw ∈ log.

Lemma emitEventOrPark_ok cfg ends ev S S' :
  emitEventOrPark cfg kafka ends (Some ev) S = (S', None) → event_kept cfg ev (k_log S').
Proof.
  cbn. unfold mbind, kio_bind.
  destruct (emit_loop _ _ _ _ _ _ _ S) as [S1 [err|]] eqn:E; unfold mret, kio_ret.
  - cbn. destruct (String.eqb _ _); [done |]. destruct (marshal_ok (park_object ev (Some err))) as [raw Er].
    rewrite Er. cbn. destruct (Produce _ _ _ S1) as [S2 [d|]] eqn:E2; [done |]. intros [= <-].
    right. exists (Some err), raw. split; [done |]. by apply Produce_ok in E2.
  - intros [= <-]. left. by eapply emit_loop_ok.
Qed.

(** ** Outcomes *)

(** Everything an outcome carries is in the log. *)
Definition durable (cfg : Daemon) (out : Outcome) (log : list message) : Prop :=
  (∀ ev, O_Event out = Some ev → event_kept cfg ev log) ∧
  Forall (λ m, m ∈ log) (retry_record out ++ dlt_record cfg out).

Lemma then_ok m k S S' : then_ m k S = (S', None) → ∃ S1, m S = (S1, None) ∧ k S1 = (S', None).
Proof.
  unfold then_, mbind, kio_bind. destruct (m S) as [S1 [e|]]; [done |]. eauto.
Qed.

Lemma appends_then m k : appends m → appends k → appends (then_ m k).
Proof. intros Hm Hk. apply appends_bind; [done |]. intros [e|]; auto with appends. Qed.
Hint Resolve appends_then : appends.

Lemma appends_opt t k p : appends (produce_opt kafka t k p).
Proof. destruct p; cbn; auto with appends. Qed.
Hint Resolve appends_opt : appends.

Lemma event_kept_mono cfg ev l l' : (∀ m, m ∈ l → m ∈ l') → event_kept cfg ev l → event_kept cfg ev l'.
Proof. intros Hl [H'|(err & raw & E & H')]; [left; auto | right; exists err, raw; auto]. Qed.

(** What a step that keeps the log leaves there. *)
Lemma appends_sub {A} (m : kio A) S S' a : m S = (S', a) → appends m → ∀ x, x ∈ k_log S → x ∈ k_log S'.
Proof. intros E Hm x Hx. pose proof (appends_in m S x Hm Hx) as H'. by rewrite E in H'. Qed.

Lemma event_step_ok cfg ends ev S S' :
  emitEventOrPark cfg kafka ends ev S = (S', None) → ∀ e, ev = Some e → event_kept cfg e (k_log S').
Proof. intros E e ->. by eapply emitEventOrPark_ok. Qed.

Lemma opt_step_ok t k p S S' :
  produce_opt kafka t k p S = (S', None) → ∀ raw, p = Some raw → Msg t k raw ∈ k_log S'.
Proof. intros E raw ->. by apply Produce_ok in E. Qed.

Lemma sequential_durable cfg ends out S S' :
  apply_sequential cfg kafka ends out S = (S', None) → durable cfg out (k_log S').
Proof.
  intros (S1 & E1 & (S2 & E2 & E3)%then_ok)%then_ok.
  assert (∀ x, x ∈ k_log S1 → x ∈ k_log S2) as H12 by (eapply appends_sub; eauto with appends).
  assert (∀ x, x ∈ k_log S2 → x ∈ k_log S') as H23 by (eapply appends_sub; eauto with appends).
  split.
  - intros ev He. eapply event_kept_mono; [| by eapply event_step_ok]. auto.
  - unfold retry_record, dlt_record. apply Forall_app. split.
    + destruct (O_RetryPayload out) as [raw|]; constructor; [| done].
      apply H23. by eapply opt_step_ok.
    + destruct (O_DLTPayload out) as [raw|]; constructor; [| done]. by eapply opt_step_ok.
Qed.

Lemma error_at_lookup (outs : list error) b i :
  error_at outs b i = None → b = true → (i < length outs)%nat → outs !! i = Some None.
Proof.
  unfold error_at. intros E -> Hi. destruct (outs !! i) as [[e|]|] eqn:El; cbn in E; [done | done |].
  apply lookup_ge_None in El. by apply Nat.lt_nge in Hi.
Qed.

Lemma batched_durable cfg ends out S S' :
  applyJobSideEffectsBatched cfg kafka ProduceManySync ends out S = (S', None) →
  durable cfg out (k_log S').
Proof.
  unfold applyJobSideEffectsBatched, mbind, kio_bind. destruct (ProduceManySync_each (records cfg out) S) as [H1_ H2_].
  destruct (ProduceManySync (records cfg out) S) as [S0 [outs0 first]]. cbn [fst snd] in *. subst S0 outs0.
  destruct (produce_each_ok (records cfg out) S) as [Hl Hok].
  destruct (produce_each (records cfg out) S) as [S1 outs]. cbn [fst snd] in *.
  rewrite decide_True by done. intros (S2 & E2 & (S3 & E3 & E4)%then_ok)%then_ok.
  injection E3 as -> Er. injection E4 as -> Ed.
  assert (∀ x, x ∈ k_log S1 → x ∈ k_log S') as H12.
  { eapply appends_sub; [exact E2 |]. destruct (error_at _ _ _); auto with appends. }
  assert (∀ i m b, records cfg out !! i = Some m → error_at outs b i = None → b = true → m ∈ k_log S1)
    as Hrec.
  { intros i m b Hm He Hb. eapply Hok; [done |]. eapply error_at_lookup; [done | done |].
    rewrite Hl. by eapply lookup_lt_Some. }
  clear Hl Hok. split.
  - intros ev He. rewrite He in E2. destruct (error_at outs true 0) as [err|] eqn:E0.
    + by eapply emitEventOrPark_ok.
    + injection E2 as ->. left. eapply (Hrec 0%nat); [| exact E0 | done].
      unfold records, event_record. by rewrite He.
  - apply Forall_app. split.
    + unfold retry_record in *. destruct (O_RetryPayload out) as [raw|] eqn:Ep; constructor; [| done].
      apply H12. eapply Hrec; [| exact Er | done]. unfold records, retry_record. rewrite Ep.
      rewrite lookup_app_r by done. by rewrite Nat.sub_diag.
    + destruct (O_DLTPayload out) as [raw|] eqn:Ep; unfold dlt_record; rewrite Ep; constructor; [| done].
      apply H12. eapply Hrec; [| exact Ed | done]. unfold records, dlt_record. rewrite Ep.
      rewrite app_assoc, lookup_app_r by (rewrite length_app; done). rewrite length_app.
      by rewrite Nat.sub_diag.
Qed.

(** The outcome of a job that was delivered without an error is in Kafka. *)
Lemma applied_durable cfg ends out S S' :
  applyJobSideEffects cfg kafka ends out S = (S', None) → durable cfg out (k_log S').
Proof.
  unfold applyJobSideEffects, kafka, pr_ManySync. destruct (decide _); intros E.
  - by eapply batched_durable.
  - by eapply sequential_durable.
Qed.
End props.
