(* ===== verification/Consumers.v ===== *)
(** The consumer loops of pkg/daemon: consumers.go, retry_consumer.go,
    retry_fetch_pause.go, consumption_fetch_pause.go and the workers of
    partition_engine.go.

    The franz-go client is the list of the calls made to it, oldest first.  Its
    documented meaning for commits is [position]: a mark moves the committed
    position of a partition forward to the offset after the record and never
    backward, SetOffsets moves it to the offset given.  Handlers are arguments. *)
From S2P Require Import Prelude Redis Client Kafka Protocol Fairness Store Control Job Produce.

Definition tp : Type := string * Z.     (* a topic and a partition *)

Record krecord := mkK { kr_topic : string; kr_partition : Z; kr_offset : Z; kr_value : string }.

Definition part_of (r : krecord) : tp := (kr_topic r, kr_partition r).
Definition src_of (r : krecord) : SourceCoords := Src (kr_topic r) (kr_partition r) (kr_offset r).

Inductive kcall :=
| MarkCommit (r : krecord)
| SetOffsets (m : gmap tp Z)
| PausePartition (p : tp) | ResumePartition (p : tp)
| PauseTopic (t : string) | ResumeTopic (t : string).

(** The next offset a commit would write for a partition. *)
Definition after_call (p : tp) (pos : option Z) (c : kcall) : option Z :=
  match c with
  | MarkCommit r =>
      if decide (part_of r = p)
      then Some (match pos with Some o => Z.max o (kr_offset r + 1) | None => kr_offset r + 1 end)
      else pos
  | SetOffsets m => match m !! p with Some o => Some o | None => pos end
  | _ => pos
  end.

Definition position (calls : list kcall) (p : tp) : option Z := foldl (after_call p) None calls.

(** ** Rewinding *)

(** The lowest offset of each partition among the records. *)
Definition undispatchedRewindOffsets (recs : list krecord) : gmap tp Z :=
  foldl (λ m r, match m !! part_of r with
                | Some o => if kr_offset r <? o then <[part_of r := kr_offset r]> m else m
                | None => <[part_of r := kr_offset r]> m
                end) ∅ recs.

Definition rewindUndispatched (recs : list krecord) : list kcall :=
  let offsets := undispatchedRewindOffsets recs in
  if decide (offsets = ∅) then [] else [SetOffsets offsets].

(** ** The client wrapper *)

Record consumerClient := mkClient {
  cc_topics : list string;
  cc_topicPaused : gmap string bool;           (* the pause applied to a topic *)
  cc_killswitchWant : gmap string bool; cc_priorityWant : gmap string bool;
  cc_partPaused : gmap string (list Z);        (* killswitch pauses of partitions *)
  cc_deferredPaused : gmap tp Z;               (* the offset to come back to *)
  cc_enginePaused : gset tp;
  cc_calls : list kcall
}.

Definition set_calls (c : consumerClient) (l : list kcall) : consumerClient :=
  mkClient (cc_topics c) (cc_topicPaused c) (cc_killswitchWant c) (cc_priorityWant c) (cc_partPaused c)
    (cc_deferredPaused c) (cc_enginePaused c) l.
Definition send (c : consumerClient) (l : list kcall) : consumerClient := set_calls c (cc_calls c ++ l).

Definition set_deferred (c : consumerClient) (d : gmap tp Z) : consumerClient :=
  mkClient (cc_topics c) (cc_topicPaused c) (cc_killswitchWant c) (cc_priorityWant c) (cc_partPaused c)
    d (cc_enginePaused c) (cc_calls c).
Definition set_engine (c : consumerClient) (d : gset tp) : consumerClient :=
  mkClient (cc_topics c) (cc_topicPaused c) (cc_killswitchWant c) (cc_priorityWant c) (cc_partPaused c)
    (cc_deferredPaused c) d (cc_calls c).
Definition set_parts (c : consumerClient) (d : gmap string (list Z)) : consumerClient :=
  mkClient (cc_topics c) (cc_topicPaused c) (cc_killswitchWant c) (cc_priorityWant c) d
    (cc_deferredPaused c) (cc_enginePaused c) (cc_calls c).
Definition set_wants (c : consumerClient) (paused kill prio : gmap string bool) : consumerClient :=
  mkClient (cc_topics c) paused kill prio (cc_partPaused c) (cc_deferredPaused c) (cc_enginePaused c)
    (cc_calls c).

Definition newGroupConsumerClient (topics : list string) : consumerClient :=
  mkClient topics ∅ ∅ ∅ ∅ ∅ ∅ [].

Definition flag (m : gmap string bool) (t : string) : bool := default false (m !! t).

(** ** Topic pauses: the OR of the killswitch and of priority yielding *)

Definition applyTopicPauseLocked (c : consumerClient) (topic : string) : consumerClient :=
  let want := flag (cc_killswitchWant c) topic || flag (cc_priorityWant c) topic in
  if Bool.eqb want (flag (cc_topicPaused c) topic) then c
  else
    let c := send c [if want then PauseTopic topic else ResumeTopic topic] in
    set_wants c (<[topic := want]> (cc_topicPaused c)) (cc_killswitchWant c) (cc_priorityWant c).

Definition setPriorityTopicPause (c : consumerClient) (topic : string) (want : bool)
    : consumerClient * bool :=
  let before := flag (cc_topicPaused c) topic in
  let c := set_wants c (cc_topicPaused c) (cc_killswitchWant c) (<[topic := want]> (cc_priorityWant c)) in
  let c := applyTopicPauseLocked c topic in
  (c, negb (Bool.eqb (flag (cc_topicPaused c) topic) before)).

(** [paused] is pauseCtl.Paused for the group of this client. *)
Definition sync_topic (paused : tp -> bool) (c : consumerClient) (topic : string) : consumerClient :=
  applyTopicPauseLocked
    (set_wants c (cc_topicPaused c) (<[topic := paused (topic, 0)]> (cc_killswitchWant c))
       (cc_priorityWant c)) topic.

Definition sync_parts (paused : tp -> bool) (c : consumerClient) (e : string * list Z) : consumerClient :=
  let '(topic, parts) := e in
  let still := filter (λ p, paused (topic, p) = true) parts in
  let gone := filter (λ p, paused (topic, p) = false) parts in
  let c := send c ((λ p, ResumePartition (topic, p)) <$> gone) in
  set_parts c (match still with
               | [] => delete topic (cc_partPaused c)
               | _ => <[topic := still]> (cc_partPaused c)
               end).

Definition syncConsumptionFetchPause (pauseCtl : option (tp -> bool)) (c : consumerClient)
    : consumerClient :=
  match pauseCtl with
  | None => c
  | Some paused =>
      let c := foldl (sync_topic paused) c (cc_topics c) in
      foldl (sync_parts paused) c (map_to_list (cc_partPaused c))
  end.

Definition anyTopicPaused (c : consumerClient) : bool :=
  existsb snd (map_to_list (cc_topicPaused c)) || negb (bool_decide (cc_partPaused c = ∅))
  || negb (bool_decide (cc_deferredPaused c = ∅)) || negb (bool_decide (cc_enginePaused c = ∅)).

Definition pausedPollWait : Z := 500000000.
Definition idlePollWait : Z := sec 5.

Definition pollWait (c : consumerClient) : Z :=
  if anyTopicPaused c then pausedPollWait else idlePollWait.

Definition pauseConsumptionPartition (c : consumerClient) (p : tp) : consumerClient :=
  let parts := default [] (cc_partPaused c !! p.1) in
  if bool_decide (p.2 ∈ parts) then c
  else send (set_parts c (<[p.1 := parts ++ [p.2]]> (cc_partPaused c))) [PausePartition p].

(** ** Deferred pauses *)

(** The client rewinds at once when this offset is a new minimum. *)
Definition pauseDeferredPartition (c : consumerClient) (p : tp) (offset : Z) : consumerClient :=
  let rewind := match cc_deferredPaused c !! p with Some o => offset <? o | None => true end in
  let c := if rewind then set_deferred c (<[p := offset]> (cc_deferredPaused c)) else c in
  let c := send c [PausePartition p] in
  if rewind then send c [SetOffsets {[p := offset]}] else c.

Definition deferClientPartitionPause (c : consumerClient) (r : krecord) (wait : Z) : consumerClient :=
  if wait <=? 0 then c else pauseDeferredPartition c (part_of r) (kr_offset r).

(** The timer of a deferred pause: resume only. *)
Definition clearDeferredPartitionPause (c : consumerClient) (p : tp) : consumerClient :=
  match cc_deferredPaused c !! p with
  | None => c
  | Some _ => send (set_deferred c (delete p (cc_deferredPaused c))) [ResumePartition p]
  end.

Definition dropDeferredForRevoked (c : consumerClient) (revoked : list tp) : consumerClient :=
  set_deferred c (foldl (λ m p, delete p m) (cc_deferredPaused c) revoked).

Definition invalidateDeferredPauses (c : consumerClient) : consumerClient := set_deferred c ∅.

Definition pauseEnginePartition (c : consumerClient) (p : tp) : consumerClient :=
  if bool_decide (p ∈ cc_enginePaused c) then c
  else send (set_engine c ({[p]} ∪ cc_enginePaused c)) [PausePartition p].

Definition resumeEnginePartition (c : consumerClient) (p : tp) : consumerClient :=
  send (set_engine c (cc_enginePaused c ∖ {[p]})) [ResumePartition p].

(** ** Polled records and the killswitch *)

(** The records to process; the others are paused and rewound. *)
Fixpoint split_paused (paused : tp -> bool) (c : consumerClient) (recs : list krecord)
    : consumerClient * list krecord * list krecord :=
  match recs with
  | [] => (c, [], [])
  | r :: recs =>
      if paused (part_of r) then
        let c := if paused (kr_topic r, 0) then c else pauseConsumptionPartition c (part_of r) in
        let '(c, ok, skipped) := split_paused paused c recs in (c, ok, r :: skipped)
      else let '(c, ok, skipped) := split_paused paused c recs in (c, r :: ok, skipped)
  end.

Definition collectPollRecords (pauseCtl : option (tp -> bool)) (c : consumerClient)
    (recs : list krecord) : consumerClient * list krecord :=
  match pauseCtl with
  | None => (c, recs)
  | Some paused =>
      let '(c, ok, skipped) := split_paused paused c recs in
      (send c (rewindUndispatched skipped), ok)
  end.

Definition filterPriorityRecords (known : string -> bool) (pauseCtl : option (tp -> bool))
    (c : consumerClient) (recs : list krecord) : consumerClient * list krecord :=
  collectPollRecords pauseCtl c (filter (λ r, known (kr_topic r) = true) recs).

(** ** Record by record *)

(** What a handler answers; a recovered panic is [Failed]. *)
Inductive handled := Fine_ | Paused (d : Z) | Failed (e : string).

Definition retryHandlerErrorBackoff : Z := sec 1.

(** The pause after an answer; a backpressure or retry pause of no length
    counts as an error for the retry loop only. *)
Definition backoff_of (retry : bool) (h : handled) : Z :=
  match h with
  | Paused d => if retry && (d <=? 0) then retryHandlerErrorBackoff else d
  | _ => retryHandlerErrorBackoff
  end.

(** runConsumerLoop's batch and processRetryRecords: once a record of a
    partition is not handled, nothing after it in the batch is. *)
Fixpoint process_records (retry : bool) (handle : krecord -> kio handled) (stopped : gset tp)
    (recs : list krecord) (c : consumerClient) : kio consumerClient :=
  match recs with
  | [] => mret c
  | r :: recs =>
      if decide (part_of r ∈ stopped) then process_records retry handle stopped recs c
      else
        h ← handle r;
        match h with
        | Fine_ => process_records retry handle stopped recs (send c [MarkCommit r])
        | _ => process_records retry handle ({[part_of r]} ∪ stopped) recs
                 (deferClientPartitionPause c r (backoff_of retry h))
        end
  end.

Definition consumer_batch := process_records false.
Definition processRetryRecords := process_records true.

(** ** One worker per partition *)

(** runWorker on one delivered batch of its partition. *)
Definition worker_batch (handle : list krecord -> kio error) (recs : list krecord) (c : consumerClient)
    : kio consumerClient :=
  match recs with
  | [] => mret c
  | _ =>
      e ← handle recs;
      mret (match e with
            | Some _ => c
            | None => send c (MarkCommit <$> recs)
            end)
  end.

(** The batches a worker receives until it is told to quit. *)
Fixpoint runWorker (handle : list krecord -> kio error) (batches : list (list krecord))
    (c : consumerClient) : kio consumerClient :=
  match batches with
  | [] => mret c
  | b :: batches => c ← worker_batch handle b c; runWorker handle batches c
  end.
