(* ===== verification/ConsumersProps.v ===== *)
(** The properties of the consumer loops: which offsets they commit. *)
From S2P Require Import Prelude Redis Client Kafka Protocol Fairness Store Control Job Produce Consumers.

(** ** Positions *)

Lemma position_app l l' p : position (l ++ l') p = foldl (after_call p) (position l p) l'.
Proof. apply foldl_app. Qed.

Lemma position_mark l r p :
  position (l ++ [MarkCommit r]) p =
  if decide (part_of r = p)
  then Some (match position l p with Some o => Z.max o (kr_offset r + 1) | None => kr_offset r + 1 end)
  else position l p.
Proof. by rewrite position_app. Qed.

(** The committed position of a partition, if there is one, is at most [o]. *)
Definition at_most (calls : list kcall) (p : tp) (o : Z) : Prop :=
  ∀ x, position calls p = Some x → x <= o.

Lemma defer_other c r w p :
  p ≠ part_of r → position (cc_calls (deferClientPartitionPause c r w)) p = position (cc_calls c) p.
Proof.
  intros Hp. unfold deferClientPartitionPause, pauseDeferredPartition. destruct (w <=? 0); [done |].
  destruct (match _ with Some _ => _ | None => _ end); cbn [cc_calls send set_calls set_deferred];
    rewrite !position_app; cbn [foldl after_call]; [| done].
  by rewrite lookup_singleton_ne by congruence.
Qed.

Lemma defer_at_most c r w :
  at_most (cc_calls c) (part_of r) (kr_offset r) →
  at_most (cc_calls (deferClientPartitionPause c r w)) (part_of r) (kr_offset r).
Proof.
  intros Hm. unfold deferClientPartitionPause, pauseDeferredPartition. destruct (w <=? 0); [done |].
  destruct (match _ with Some _ => _ | None => _ end); intros x; cbn [cc_calls send set_calls set_deferred];
    rewrite !position_app; cbn [foldl after_call]; [| apply Hm].
  rewrite lookup_singleton_eq. intros [= <-]. done.
Qed.

(** ** Record by record *)

(** The records of the batch whose handler answered without an error. *)
Fixpoint fine_records (handle : krecord -> kio handled) (stopped : gset tp) (recs : list krecord)
    (S : system) : list krecord :=
  match recs with
  | [] => []
  | r :: recs =>
      if decide (part_of r ∈ stopped) then fine_records handle stopped recs S
      else match handle r S with
           | (S', Fine_) => r :: fine_records handle stopped recs S'
           | (S', _) => fine_records handle ({[part_of r]} ∪ stopped) recs S'
           end
  end.

(** Offsets of a partition ascend through a batch. *)
Definition ascending (recs : list krecord) : Prop :=
  StronglySorted (λ r r', part_of r = part_of r' → kr_offset r < kr_offset r') recs.

Lemma process_stopped retry handle stopped recs c S p :
  p ∈ stopped → position (cc_calls (process_records retry handle stopped recs c S).2) p
                = position (cc_calls c) p.
Proof.
  revert stopped c S. induction recs as [|r recs IH]; intros stopped c S Hp; cbn; [done |].
  destruct (decide _) as [Hin|Hout]; [by apply IH |].
  assert (p ≠ part_of r) by congruence.
  unfold mbind, kio_bind. destruct (handle r S) as [S1 [| d | e]].
  - rewrite IH by done. cbn [cc_calls send set_calls]. rewrite position_mark. by rewrite decide_False by congruence.
  - rewrite IH by set_solver. by apply defer_other.
  - rewrite IH by set_solver. by apply defer_other.
Qed.

Lemma process_kept retry handle stopped recs c S :
  ascending recs → (∀ r, r ∈ recs → at_most (cc_calls c) (part_of r) (kr_offset r)) →
  ∀ r, r ∈ recs → r ∈ fine_records handle stopped recs S ∨
    at_most (cc_calls (process_records retry handle stopped recs c S).2) (part_of r) (kr_offset r).
Proof.
  revert stopped c S. induction recs as [|r recs IH]; intros stopped c S Ha Hc r' Hr';
    [by apply elem_of_nil in Hr' |].
  apply StronglySorted_inv in Ha as [Ha Hlt]. rewrite Forall_forall in Hlt. cbn.
  assert (∀ r'', r'' ∈ recs → at_most (cc_calls c) (part_of r'') (kr_offset r'')) as Hc'
    by (intros; apply Hc; by right).
  destruct (decide _) as [Hin|Hout].
  { apply elem_of_cons in Hr' as [-> | Hr']; [| by apply IH].
    right. intros x. rewrite process_stopped by done. apply Hc. by left. }
  unfold mbind, kio_bind. destruct (handle r S) as [S1 h].
  assert (∀ w, (∀ r'', r'' ∈ recs →
    at_most (cc_calls (deferClientPartitionPause c r w)) (part_of r'') (kr_offset r''))) as Hd.
  { intros w r'' Hr''. destruct (decide (part_of r'' = part_of r)) as [E|Hne].
    - rewrite E. intros x Hx. apply defer_at_most in Hx; [| apply Hc; by left].
      specialize (Hlt r'' Hr'' (eq_sym E)). lia.
    - intros x. rewrite defer_other by done. by apply Hc'. }
  assert (∀ S1 w, r' = r ∨ r' ∈ recs → r' ∈ fine_records handle ({[part_of r]} ∪ stopped) recs S1 ∨
    at_most (cc_calls (process_records retry handle ({[part_of r]} ∪ stopped) recs
      (deferClientPartitionPause c r w) S1).2) (part_of r') (kr_offset r')) as Hstop.
  { intros S2 w [-> | Hin]; [| by apply IH; auto]. right. intros x. rewrite process_stopped by set_solver.
    apply defer_at_most. apply Hc. by left. }
  apply elem_of_cons in Hr'. destruct h; [| by apply Hstop..].
  destruct Hr' as [-> | Hr']; [left; by left |].
  destruct (IH stopped (send c [MarkCommit r]) S1 Ha) with (r := r') as [Hf|Hm]; [| done | left; by right | by right].
  intros r'' Hr'' x. cbn [cc_calls send set_calls]. rewrite position_mark. destruct (decide _) as [E|]; [| by apply Hc'].
  specialize (Hlt r'' Hr'' E). intros [= <-]. destruct (position (cc_calls c) (part_of r'')) as [o|] eqn:Eo;
    [specialize (Hc' r'' Hr'' o Eo) |]; lia.
Qed.

(** The serial consumer loops commit only what was handled: after a poll
    batch, a record whose handler did not answer without an error is not below
    the committed position of its partition, so it is delivered again. *)
Theorem loops_commit_only_handled retry handle recs c S :
  ascending recs → (∀ r, r ∈ recs → at_most (cc_calls c) (part_of r) (kr_offset r)) →
  ∀ r x, r ∈ recs → position (cc_calls (process_records retry handle ∅ recs c S).2) (part_of r) = Some x →
    kr_offset r < x → r ∈ fine_records handle ∅ recs S.
Proof.
  intros Ha Hc r x Hr Hx Hlt.
  destruct (process_kept retry handle ∅ recs c S Ha Hc r Hr) as [Hf|Hm]; [done |].
  specialize (Hm x Hx). lia.
Qed.

(** ** One worker per partition *)

Lemma position_marks p recs l :
  Forall (λ r, part_of r = p) recs →
  ∀ r, r ∈ recs → ∃ x, position (l ++ (MarkCommit <$> recs)) p = Some x ∧ kr_offset r < x.
Proof.
  revert l. induction recs as [|r recs IH]; intros l Hp r' Hr'; [by apply elem_of_nil in Hr' |].
  apply Forall_cons in Hp as [Hp Hps]. cbn. rewrite cons_middle, app_assoc.
  assert (∀ recs l x, position l p = Some x → Forall (λ r, part_of r = p) recs →
    ∃ y, position (l ++ (MarkCommit <$> recs)) p = Some y ∧ x <= y) as Hup.
  { clear. induction recs as [|r recs IH]; intros l x Hx Hp; [exists x; rewrite app_nil_r; auto with lia |].
    apply Forall_cons in Hp as [Hp Hps]. cbn. rewrite cons_middle, app_assoc.
    destruct (IH (l ++ [MarkCommit r]) (Z.max x (kr_offset r + 1))) as (y & Hy & Hle); [| done |].
    - by rewrite position_mark, decide_True, Hx.
    - exists y. split; [done | lia]. }
  apply elem_of_cons in Hr' as [-> | Hr']; [| by apply IH].
  destruct (Hup recs (l ++ [MarkCommit r])
    (match position l p with Some o => Z.max o (kr_offset r + 1) | None => kr_offset r + 1 end))
    as (y & Hy & Hle); [by rewrite position_mark, decide_True | done |].
  exists y. split; [done |]. destruct (position l p); lia.
Qed.

(** C20: A partition worker commits past a batch its handler failed on: the batch
    is neither marked nor rewound, and the next batch of the partition that
    succeeds moves the committed position beyond every record of it. *)
Theorem worker_commits_past_failure handle b1 b2 c S S1 S2 e p :
  handle b1 S = (S1, Some e) → handle b2 S1 = (S2, None) → b1 ≠ [] → b2 ≠ [] →
  Forall (λ r, part_of r = p) (b1 ++ b2) → ascending (b1 ++ b2) →
  let calls := cc_calls (runWorker handle [b1; b2] c S).2 in
  calls = cc_calls c ++ (MarkCommit <$> b2) ∧
  ∃ x, position calls p = Some x ∧ Forall (λ r, kr_offset r < x) b1.
Proof.
  intros E1 E2 N1 N2 Hp Ha. destruct b1 as [|r1 b1]; [done |]. destruct b2 as [|r2 b2]; [done |].
  cbn [runWorker worker_batch]. unfold mbind, kio_bind. rewrite E1. unfold mret, kio_ret.
  rewrite E2. cbn [fst snd]. split; [done |].
  apply Forall_app in Hp as [Hp1 Hp2].
  destruct (position_marks p (r2 :: b2) (cc_calls c) Hp2 r2) as (x & Hx & Hlt); [by left |].
  exists x. split; [exact Hx |]. apply Forall_forall. intros r Hr.
  apply StronglySorted_app in Ha as (Ha & _ & _).
  assert (kr_offset r < kr_offset r2); [| lia]. apply Ha; [done | by left |].
  rewrite Forall_forall in Hp1. rewrite (Hp1 r) by done. by apply Forall_cons in Hp2 as [-> _].
Qed.

(** ** Topic pauses *)

(** Whether the client's calls leave a topic paused. *)
Definition after_topic (t : string) (b : bool) (c : kcall) : bool :=
  match c with
  | PauseTopic t' => if decide (t' = t) then true else b
  | ResumeTopic t' => if decide (t' = t) then false else b
  | _ => b
  end.

Definition topic_paused (calls : list kcall) (t : string) : bool := foldl (after_topic t) false calls.

Ltac client_simpl :=
  cbn [cc_calls send set_calls set_wants set_parts cc_topicPaused cc_killswitchWant cc_priorityWant].

Lemma topic_paused_app l l' t :
  topic_paused (l ++ l') t = foldl (after_topic t) (topic_paused l t) l'.
Proof. apply foldl_app. Qed.

(** A topic is paused exactly when one of its two reasons asks for it. *)
Definition pauses_agree (c : consumerClient) : Prop :=
  ∀ t, topic_paused (cc_calls c) t = flag (cc_topicPaused c) t ∧
       flag (cc_topicPaused c) t = flag (cc_killswitchWant c) t || flag (cc_priorityWant c) t.

Lemma flag_insert m t b t' : flag (<[t := b]> m) t' = if decide (t = t') then b else flag m t'.
Proof.
  unfold flag. destruct (decide (t = t')) as [->|Hne]; [by rewrite lookup_insert_eq |].
  by rewrite lookup_insert_ne.
Qed.

(** Changing the reasons of one topic and reconciling it. *)
Lemma apply_agree c t kill prio :
  pauses_agree c →
  (∀ t', t ≠ t' → flag kill t' = flag (cc_killswitchWant c) t' ∧ flag prio t' = flag (cc_priorityWant c) t') →
  pauses_agree (applyTopicPauseLocked (set_wants c (cc_topicPaused c) kill prio) t).
Proof.
  intros Hc Hk t'. unfold applyTopicPauseLocked. client_simpl.
  destruct (Hc t') as [H1 H2]. destruct (decide (t = t')) as [->|Hne].
  - destruct (Bool.eqb_spec (flag kill t' || flag prio t') (flag (cc_topicPaused c) t')) as [E|Hd]; client_simpl; [done |].
    rewrite topic_paused_app, flag_insert, decide_True by done. split; [| done].
    destruct (flag kill t' || flag prio t'); cbn; by rewrite decide_True.
  - destruct (Hk t' Hne) as [E1 E2].
    destruct (Bool.eqb _ _); client_simpl; [by rewrite E1, E2 |].
    rewrite topic_paused_app, flag_insert, decide_False, E1, E2 by done. split; [| done].
    destruct (flag kill t || flag prio t); cbn; by rewrite decide_False.
Qed.

(** Neither pausing partitions nor marks change the topics. *)
Lemma parts_agree c d l :
  pauses_agree c → (∀ b t, foldl (after_topic t) b l = b) → pauses_agree (set_parts (send c l) d).
Proof. intros Hc Hl t. client_simpl. rewrite topic_paused_app, Hl. apply Hc. Qed.

Lemma sync_agree paused c :
  pauses_agree c → pauses_agree (syncConsumptionFetchPause (Some paused) c).
Proof.
  intros Hc. cbn.
  assert (∀ l c, pauses_agree c → pauses_agree (foldl (sync_topic paused) c l)) as Ht.
  { clear. induction l as [|t l IH]; intros c Hc; cbn; [done |]. apply IH, apply_agree; [done |].
    intros t' Hne. rewrite flag_insert, decide_False by done. done. }
  assert (∀ l c, pauses_agree c → pauses_agree (foldl (sync_parts paused) c l)) as Hp.
  { clear. induction l as [|[t ps] l IH]; intros c Hc; cbn; [done |]. apply IH, parts_agree; [done |].
    intros b t'. induction (filter _ ps) as [|x xs IHx]; [done | exact IHx]. }
  apply Hp, Ht, Hc.
Qed.

Inductive pause_step :=
| Killswitch (paused : tp -> bool)
| Priority (topic : string) (want : bool).

Definition pause_run (c : consumerClient) (s : pause_step) : consumerClient :=
  match s with
  | Killswitch paused => syncConsumptionFetchPause (Some paused) c
  | Priority t want => (setPriorityTopicPause c t want).1
  end.

(** The killswitch and priority yielding never undo each other's pause: after any
    sequence of their decisions a topic is paused at the client exactly when one
    of them last asked for it. *)
Lemma pauses_never_clobber topics steps :
  pauses_agree (foldl pause_run (newGroupConsumerClient topics) steps).
Proof.
  assert (∀ c, pauses_agree c → pauses_agree (foldl pause_run c steps)) as Hs; [| by apply Hs].
  induction steps as [|s steps IH]; intros c Hc; cbn; [done |]. apply IH. destruct s as [paused|t want]; cbn.
  - by apply sync_agree.
  - apply apply_agree; [done |]. intros t' Hne. rewrite flag_insert, decide_False by done. done.
Qed.

(** Only partition 0 of a topic is paused. *)
Definition only_zero (topic : string) (p : tp) : bool := bool_decide (p = (topic, 0)).

(** A pause of partition 0 alone pauses its whole topic. *)
Lemma partition_zero_pauses_topic topic c :
  topic ∈ cc_topics c → pauses_agree c →
  topic_paused (cc_calls (syncConsumptionFetchPause (Some (only_zero topic)) c)) topic = true.
Proof.
  intros Hin Hc. set (paused := only_zero topic).
  pose proof (sync_agree paused c Hc topic) as [-> ->].
  assert (∀ l c, topic ∈ l → flag (cc_killswitchWant (foldl (sync_topic paused) c l)) topic = true) as Ht.
  { assert (∀ t c, cc_killswitchWant (sync_topic paused c t) = <[t := paused (t, 0)]> (cc_killswitchWant c)) as Ek.
    { intros t c'. unfold sync_topic, applyTopicPauseLocked. by destruct (Bool.eqb _ _). }
    assert (∀ l c, flag (cc_killswitchWant c) topic = true →
      flag (cc_killswitchWant (foldl (sync_topic paused) c l)) topic = true) as Hkeep.
    { induction l as [|t l IH]; intros c' Hf; cbn; [done |]. apply IH. rewrite Ek, flag_insert.
      destruct (decide (t = topic)) as [->|]; [by apply bool_decide_eq_true | done]. }
    induction l as [|t l IH]; intros c' Hl; [by apply elem_of_nil in Hl |].
    apply elem_of_cons in Hl as [<- | Hl]; cbn; [| by apply IH]. apply Hkeep.
    rewrite Ek, flag_insert, decide_True by done. by apply bool_decide_eq_true. }
  assert (∀ l c, cc_killswitchWant (foldl (sync_parts paused) c l) = cc_killswitchWant c) as Hp.
  { induction l as [|[t ps] l IH]; intros c'; cbn; [done |]. by rewrite IH. }
  cbn. by rewrite Hp, Ht.
Qed.

(** ** Concrete runs *)

Definition demo_rec (o : Z) : krecord := mkK "events" 0 o "e".

(** The handler of the third record fails. *)
Definition demo_handle (r : krecord) : kio handled :=
  mret (if kr_offset r =? 7 then Failed "redis" else Fine_).

Lemma demo_ascending : ascending (demo_rec <$> [5; 6; 7; 8]).
Proof. repeat constructor. Qed.

Lemma loops_commit_only_handled_witness :
  demo_rec 6 ∈ fine_records demo_handle ∅ (demo_rec <$> [5; 6; 7; 8]) (System (World empty_redis []) [] []).
Proof.
  refine (loops_commit_only_handled false demo_handle (demo_rec <$> [5; 6; 7; 8])
            (newGroupConsumerClient ["events"%string]) (System (World empty_redis []) [] [])
            demo_ascending _ (demo_rec 6) 7 _ _ _).
  - intros r _ x. discriminate.
  - apply list_elem_of_lookup_2 with 1%nat. reflexivity.
  - vm_compute. reflexivity.
  - reflexivity.
Defined.

(** Fails on the batch that starts at 5. *)
Definition demo_batch (recs : list krecord) : kio error :=
  mret (match recs with r :: _ => if kr_offset r =? 5 then Some "redis"%string else None | [] => None end).

Lemma worker_commits_past_failure_witness :
  ∃ x, position (cc_calls (runWorker demo_batch [demo_rec <$> [5; 6]; demo_rec <$> [7; 8]]
         (newGroupConsumerClient ["events"%string]) (System (World empty_redis []) [] [])).2)
         ("events"%string, 0) = Some x ∧ Forall (λ r, kr_offset r < x) (demo_rec <$> [5; 6]).
Proof.
  refine (proj2 (worker_commits_past_failure demo_batch (demo_rec <$> [5; 6]) (demo_rec <$> [7; 8])
            (newGroupConsumerClient ["events"%string]) (System (World empty_redis []) [] [])
            (System (World empty_redis []) [] []) (System (World empty_redis []) [] []) "redis"
            ("events"%string, 0) eq_refl eq_refl _ _ _ demo_ascending)).
  - discriminate.
  - discriminate.
  - repeat constructor.
Defined.
