(* ===== verification/SuperFetch.v ===== *)
(** The SuperFetch executor: pkg/daemon/superfetch.go.

    A poll batch is claimed in Redis chunk by chunk, each claimed record is marked
    for commit and its job performed on a goroutine of its own.  The poll
    goroutine is [DispatchClaimsAndAcks], a sequential program; the performs it
    starts finish on their own, which it sees as jobs that leave the in-flight set
    ([finished]) and free their window slots.  One perform is [perform]. *)
From S2P Require Import Prelude Redis Client Kafka Protocol Fairness Store Workset Control Job Produce Consumers.

(** ** Construction *)

Record SuperFetchConfig := mkSFConfig {
  SuperFetchConcurrency : Z; SuperFetchClaimWindow : Z; SuperFetchLeaseTTL : Z;
  SuperFetchOrphanGrace : Z; SuperFetchReclaimEvery : Z; LivenessTTL : Z;
  LivenessHeartbeatInterval : Z
}.

Definition SuperFetchWorkers (c : SuperFetchConfig) : Z :=
  if SuperFetchConcurrency c <? 1 then 10 else SuperFetchConcurrency c.

Definition SuperFetchClaimWindowSize (c : SuperFetchConfig) : Z :=
  let workers := SuperFetchWorkers c in
  if workers <=? SuperFetchClaimWindow c then SuperFetchClaimWindow c else workers * 2.

Definition LivenessTTLDuration (c : SuperFetchConfig) : Z :=
  if LivenessTTL c <=? 0 then sec 180 else LivenessTTL c.

Definition LivenessHeartbeatIntervalDuration (c : SuperFetchConfig) : Z :=
  if LivenessHeartbeatInterval c <=? 0 then sec 20 else LivenessHeartbeatInterval c.

(** A job's processing: the outcome and the error of Process, and Apply. *)
Definition process_fn : Type := string -> SourceCoords -> kio (outcome (Outcome * error)).

Record SuperFetchExecutor := mkSF {
  sf_Work : option WorkStore; sf_ConsumerID : string; sf_LeaseTTL : Z; sf_HeartbeatTTL : Z;
  sf_HeartbeatEvery : Z; sf_OrphanGrace : Z;
  sf_ClaimWindow : nat; sf_Sem : nat;                   (* the capacities of the channels *)
  sf_Process : process_fn; sf_Apply : Outcome -> kio error
}.

Definition NewSuperFetchExecutor (cfg : SuperFetchConfig) (work : option WorkStore) (consumerID : string)
    (process : process_fn) (apply : Outcome -> kio error) : SuperFetchExecutor :=
  let lease := if SuperFetchLeaseTTL cfg <=? 0 then sec 120 else SuperFetchLeaseTTL cfg in
  let grace := if SuperFetchOrphanGrace cfg <=? 0 then DefaultOrphanGrace else SuperFetchOrphanGrace cfg in
  let hbTTL := LivenessTTLDuration cfg in
  let reclaimEvery := if SuperFetchReclaimEvery cfg <=? 0 then sec 30 else SuperFetchReclaimEvery cfg in
  let minLease := hbTTL + grace + reclaimEvery + sec 30 in
  mkSF work consumerID (if lease <? minLease then minLease else lease) hbTTL
    (LivenessHeartbeatIntervalDuration cfg) grace (Z.to_nat (SuperFetchClaimWindowSize cfg))
    (Z.to_nat (SuperFetchWorkers cfg)) process apply.

(** ** Dispatch *)

Inductive dispatchKind := dispatchClaim | dispatchDuplicate | dispatchMalformed.

Record dispatchItem := mkItem { it_rec : krecord; it_jobID : string; it_kind : dispatchKind }.

(** The jobs in flight in this executor (each holds one window slot), the calls
    made to the Kafka client, and the performs started with their fences. *)
Record dispatch := mkDispatchState {
  ds_inFlight : gset string; ds_calls : list kcall; ds_started : list (krecord * string * string)
}.

(** A fresh uuid per claim, the scripts the server lacks and the clock, for the
    chunk that starts at an index of the batch. *)
Record claim_env := mkEnv { ce_uuid : nat -> string; ce_missing : list bool; ce_now : string * Z }.

(** What happens around a record: whether new work is still accepted, the jobs
    that finish before it and while it waits for a slot, and whether the context
    ends during that wait. *)
Record around := mkAround {
  ar_accepting : bool; ar_finished : gset string; ar_freed : gset string; ar_ends : bool
}.

Section superfetch.
Context `{EntryCodec} `{Json}.

Definition extractJobID (raw : string) : string :=
  match m ← unmarshal raw; opt_str (fields m) "job_id" with
  | Ok (Some id) => id
  | _ => ""
  end.

Definition add_calls (d : dispatch) (l : list kcall) : dispatch :=
  mkDispatchState (ds_inFlight d) (ds_calls d ++ l) (ds_started d).
Definition set_inFlight (d : dispatch) (s : gset string) : dispatch :=
  mkDispatchState s (ds_calls d) (ds_started d).
Definition forget (d : dispatch) (id : string) : dispatch := set_inFlight d (ds_inFlight d ∖ {[id]}).
Definition start (d : dispatch) (r : krecord) (id fence : string) : dispatch :=
  mkDispatchState (ds_inFlight d) (ds_calls d) (ds_started d ++ [(r, id, fence)]).

(** Whether the record was routed and marked. *)
Definition processMissingJobID (e : SuperFetchExecutor) (r : krecord) (d : dispatch)
    : kio (outcome (dispatch * bool)) :=
  o ← sf_Process e (kr_value r) (src_of r);
  match o with
  | Panic => mret Panic
  | Done (_, Some _) => mret (Done (d, false))
  | Done (out, None) =>
      err ← sf_Apply e out;
      mret (Done (match err with
                  | Some _ => (d, false)
                  | None => (add_calls d [MarkCommit r], true)
                  end))
  end.

Definition claim_params (e : SuperFetchExecutor) (it : dispatchItem) : ClaimParams :=
  mkClaim (it_jobID it) (kr_value (it_rec it)) (kr_topic (it_rec it)) (kr_partition (it_rec it))
    (kr_offset (it_rec it)) (sf_ConsumerID e) (sf_LeaseTTL e) (sf_HeartbeatTTL e) (sf_OrphanGrace e).

(** The effects of a chunk in record order; [Some n]: the outcome of item [n] is
    unknown and everything from it on must be delivered again. *)
Fixpoint flush_items (e : SuperFetchExecutor) (items : list dispatchItem)
    (results : list (ClaimResult * error)) (idx : nat) (d : dispatch)
    : kio (outcome (dispatch * option nat)) :=
  match items with
  | [] => mret (Done (d, None))
  | it :: items =>
      match it_kind it with
      | dispatchMalformed =>
          p ← processMissingJobID e (it_rec it) d;
          match p with
          | Panic => mret Panic
          | Done (d, false) => mret (Done (d, Some idx))
          | Done (d, true) => flush_items e items results (S idx) d
          end
      | dispatchDuplicate => flush_items e items results (S idx) (add_calls d [MarkCommit (it_rec it)])
      | dispatchClaim =>
          match results with
          | [] => mret Panic
          | (res, err) :: results =>
              match err with
              | Some _ => mret (Done (forget d (it_jobID it), Some idx))
              | None =>
                  let d := add_calls d [MarkCommit (it_rec it)] in
                  if Won res
                  then flush_items e items results (S idx) (start d (it_rec it) (it_jobID it) (cr_Fence res))
                  else flush_items e items results (S idx) (forget d (it_jobID it))
              end
          end
      end
  end.

Definition is_claim (it : dispatchItem) : bool :=
  match it_kind it with dispatchClaim => true | _ => false end.

Definition flushDispatchChunk (e : SuperFetchExecutor) (env : claim_env) (chunk : list dispatchItem)
    (d : dispatch) : kio (outcome (dispatch * option nat)) :=
  let params := claim_params e <$> filter (λ it, is_claim it = true) chunk in
  results ← (if decide (length params = 0%nat) then mret []
             else redis_io (ClaimMany (sf_Work e) (ce_missing env) (ce_now env)
                              (imap (λ i p, (ce_uuid env i, p)) params)));
  flush_items e chunk results 0 d.

(** The claim items give their in-flight entries back. *)
Definition releaseChunkClaims (items : list dispatchItem) (d : dispatch) : dispatch :=
  foldl (λ d it, if is_claim it then forget d (it_jobID it) else d) d items.

Definition maxClaimPipeline : nat := 256.

(** [recs] is the poll batch, [from] the index of the chunk's first record. *)
Definition flush (e : SuperFetchExecutor) (env : nat -> claim_env) (recs : list krecord)
    (chunk : list dispatchItem) (from : nat) (d : dispatch) : kio (outcome (dispatch * bool)) :=
  match chunk with
  | [] => mret (Done (d, true))
  | _ =>
      r ← flushDispatchChunk e (env from) chunk d;
      mret (match r with
            | Panic => Panic
            | Done (d, None) => Done (d, true)
            | Done (d, Some stop) =>
                let d := releaseChunkClaims (drop (S stop) chunk) d in
                Done (add_calls d (rewindUndispatched (drop (from + stop) recs)), false)
            end)
  end.

Definition chunk_ids (chunk : list dispatchItem) : gset string :=
  list_to_set (it_jobID <$> filter (λ it, is_claim it = true) chunk).

(** A job leaves the in-flight set when its perform ends, never while it waits in
    the chunk. *)
Definition finish_jobs (d : dispatch) (chunk : list dispatchItem) (done : gset string) : dispatch :=
  set_inFlight d (ds_inFlight d ∖ (done ∖ chunk_ids chunk)).

Definition abortPending (recs : list krecord) (chunk : list dispatchItem) (from : nat) (d : dispatch)
    : dispatch :=
  add_calls (releaseChunkClaims chunk d) (rewindUndispatched (drop from recs)).

(** The item of a record and the chunk it joins, or the end of the batch. *)
Inductive admitted := Admit (it : dispatchItem) (chunk : list dispatchItem) (from : nat) | Stop_.

(** A new job takes a window slot; when the window is full the pending chunk is
    flushed first and the loop waits. *)
Definition admit_record (e : SuperFetchExecutor) (env : nat -> claim_env) (recs : list krecord) (i : nat)
    (r : krecord) (a : around) (chunk : list dispatchItem) (from : nat) (d : dispatch)
    : kio (outcome (dispatch * admitted)) :=
  let id := extractJobID (kr_value r) in
  if String.eqb id "" then mret (Done (d, Admit (mkItem r id dispatchMalformed) chunk from))
  else if decide (id ∈ ds_inFlight d) then
    mret (Done (d, Admit (mkItem r id dispatchDuplicate) chunk from))
  else
    let take d := set_inFlight d ({[id]} ∪ ds_inFlight d) in
    if decide (size (ds_inFlight d) < sf_ClaimWindow e)%nat
    then mret (Done (take d, Admit (mkItem r id dispatchClaim) chunk from))
    else
      f ← flush e env recs chunk from d;
      match f with
      | Panic => mret Panic
      | Done (d, false) => mret (Done (d, Stop_))
      | Done (d, true) =>
          let d := finish_jobs d [] (ar_freed a) in
          if decide (size (ds_inFlight d) < sf_ClaimWindow e)%nat
          then if ar_ends a then mret (Done (add_calls d (rewindUndispatched (drop i recs)), Stop_))
               else mret (Done (take d, Admit (mkItem r id dispatchClaim) [] (from + length chunk)))
          else mret (Done (add_calls d (rewindUndispatched (drop i recs)), Stop_))
      end.

Fixpoint dispatch_loop (e : SuperFetchExecutor) (env : nat -> claim_env) (recs : list krecord)
    (i : nat) (rest : list (krecord * around)) (chunk : list dispatchItem) (from : nat) (d : dispatch)
    : kio (outcome dispatch) :=
  match rest with
  | [] =>
      f ← flush e env recs chunk from d;
      mret (match f with Panic => Panic | Done (d, _) => Done d end)
  | (r, a) :: rest =>
      if negb (ar_accepting a) then mret (Done (abortPending recs chunk from d))
      else
        let d := finish_jobs d chunk (ar_finished a) in
        x ← admit_record e env recs i r a chunk from d;
        match x with
        | Panic => mret Panic
        | Done (d, Stop_) => mret (Done d)
        | Done (d, Admit it chunk from) =>
            let chunk := chunk ++ [it] in
            if decide (maxClaimPipeline <= length chunk)%nat then
              f ← flush e env recs chunk from d;
              match f with
              | Panic => mret Panic
              | Done (d, false) => mret (Done d)
              | Done (d, true) => dispatch_loop e env recs (S i) rest [] (from + length chunk) d
              end
            else dispatch_loop e env recs (S i) rest chunk from d
        end
  end.

Definition DispatchClaimsAndAcks (e : SuperFetchExecutor) (accepting : bool) (env : nat -> claim_env)
    (batch : list (krecord * around)) (d : dispatch) : kio (outcome dispatch) :=
  match sf_Work e with
  | None => mret (Done d)
  | Some _ =>
      if negb accepting then mret (Done d)
      else dispatch_loop e env batch.*1 0 batch [] 0 d
  end.

(** ** Perform *)

(** How a perform ended: left in the working set for reclaim, or delivered (with
    whether Complete was acknowledged). *)
Inductive performed := LeftForReclaim | Delivered (out : Outcome) (completed : bool) | Crashed.

(** The attempts at Process; [true]: the attempt got a perform slot.  The
    context ends when the list does. *)
Fixpoint process_attempts (e : SuperFetchExecutor) (r : krecord) (first : bool) (more : list bool)
    : kio (outcome (option Outcome)) :=
  o ← (if first then sf_Process e (kr_value r) (src_of r)
       else mret (Done (mkOutcome false None "" "" None None "", Some "context canceled"%string)));
  match o with
  | Panic => mret Panic
  | Done (out, None) => mret (Done (Some out))
  | Done (_, Some _) =>
      match more with
      | [] => mret (Done None)
      | next :: more => process_attempts e r next more
      end
  end.

(** Apply, tried until it succeeds or the context ends after [patience] more. *)
Fixpoint apply_attempts (e : SuperFetchExecutor) (out : Outcome) (patience : nat) : kio bool :=
  err ← sf_Apply e out;
  match err with
  | None => mret true
  | Some _ => match patience with O => mret false | S n => apply_attempts e out n end
  end.

Fixpoint complete_attempts (e : SuperFetchExecutor) (jobID fence : string) (tries : nat) : kio bool :=
  match tries with
  | O => mret false
  | S n =>
      err ← redis_io (Complete (sf_Work e) jobID (sf_ConsumerID e) fence);
      match err with
      | None => mret true
      | Some _ => complete_attempts e jobID fence n
      end
  end.

(** [patience] bounds the attempts at Apply, [tries] the retries (at most 4) of
    Complete, before the context ends. *)
Definition perform (e : SuperFetchExecutor) (r : krecord) (jobID fence : string)
    (first : bool) (more : list bool) (patience tries : nat) : kio performed :=
  p ← process_attempts e r first more;
  match p with
  | Panic => mret Crashed
  | Done None => mret LeftForReclaim
  | Done (Some out) =>
      ok ← apply_attempts e out patience;
      if negb ok then mret LeftForReclaim
      else c ← complete_attempts e jobID fence (S (min tries 4)); mret (Delivered out c)
  end.

(** ** Lease renewal *)

Definition registerRenew (renew : gmap string string) (jobID fence : string) : gmap string string :=
  <[jobID := fence]> renew.

Definition unregisterRenew (renew : gmap string string) (jobID fence : string) : gmap string string :=
  if decide (renew !! jobID = Some fence) then delete jobID renew else renew.

(** One tick of the renew loop: a lost fence is dropped, an error keeps the
    entry. *)
Definition renew_tick (e : SuperFetchExecutor) (missing : list bool) (renew : gmap string string)
    : io (gmap string string) :=
  let entries := map_to_list renew in
  if decide (length entries = 0%nat) then mret renew
  else
    rs ← RenewMany (sf_Work e) missing (sf_ConsumerID e) entries (sf_LeaseTTL e);
    mret (foldl (λ m er, match er with
                         | ((id, f), (false, None)) => unregisterRenew m id f
                         | _ => m
                         end) renew (zip entries rs)).
End superfetch.
