(* ===== verification/SuperFetchProps.v ===== *)
(** The properties of the SuperFetch executor: an offset is given up only for a
    job that the working set owns, and a job leaves the working set only once its
    outcome is in Kafka. *)
From S2P Require Import Prelude Redis Client Kafka Protocol Fairness Store Workset Control Job Produce ProduceProps Consumers ConsumersProps SuperFetch.

(** ** Claims never drop a job *)

Definition owned (db : redis) (id : string) : Prop := has_key db (jobKey id) = true.

(** A script under which the working set's jobs stay. *)
Definition keeps {R A} (m : script R A) : Prop := ∀ s id, owned s id → owned (m s).1 id.

Lemma keeps_ret {R A} (a : A) : keeps (mret a : script R A).
Proof. by intros s id H. Qed.
Lemma keeps_return {R A} (r : R) : keeps (lua_return r : script R A).
Proof. by intros s id H. Qed.

Lemma keeps_bind {R A B} (m : script R A) (k : A → script R B) :
  keeps m → (∀ a, keeps (k a)) → keeps (m ≫= k).
Proof.
  intros Hm Hk s id Hs. unfold mbind, script_bind. specialize (Hm s id Hs).
  destruct (m s) as [s' [a|r|e]]; cbn in *; auto. by apply Hk.
Qed.

Lemma keeps_when {R} b (m : script R unit) : keeps m → keeps (when b m).
Proof. intros Hm. destruct b; [done | apply keeps_ret]. Qed.

Lemma keeps_lift {R A B} (get : redis → option A) (k : A → script R B) :
  (∀ a, keeps (k a)) → keeps (lift get k).
Proof. intros Hk s id Hs. unfold lift. destruct (get s); [by apply Hk | done]. Qed.

Lemma keeps_modify {R} (f : redis → redis) :
  (∀ s id, owned s id → owned (f s) id) → keeps (modify f : script R unit).
Proof. intros Hf s id Hs. by apply Hf. Qed.

Lemma owned_put s k v id : owned s id → owned (put k v s) id.
Proof.
  unfold owned, has_key, put. cbn. intros H. destruct (decide (k = jobKey id)) as [->|Hne].
  - by rewrite lookup_insert_eq.
  - by rewrite lookup_insert_ne.
Qed.

Lemma owned_ttl s k t id : owned s id → owned (set_ttl k t s) id.
Proof. done. Qed.

Lemma owned_ne s s' id : kdb s' !! jobKey id = kdb s !! jobKey id → owned s id → owned s' id.
Proof. intros E. unfold owned, has_key. by rewrite E. Qed.

Section commands.
Context {R : Type}.

Lemma keeps_EXISTS k : keeps (EXISTS k : script R bool).
Proof. by intros s id H. Qed.
Lemma keeps_GET k : keeps (GET k : script R _).
Proof. apply keeps_lift. intros a. apply keeps_ret. Qed.
Lemma keeps_EXPIRE k t : keeps (EXPIRE k t : script R unit).
Proof. apply keeps_modify. intros s id. apply owned_ne. by rewrite kdb_expire. Qed.

Lemma keeps_SET_EX k v t : keeps (SET_EX k v t : script R unit).
Proof.
  apply keeps_modify. intros s id H. apply owned_ttl. destruct (decide (k = jobKey id)) as [->|Hne].
  - unfold owned, has_key, put. cbn. by rewrite lookup_insert_eq.
  - apply owned_put. revert H. apply owned_ne. by apply kdb_del_ne.
Qed.

Lemma keeps_SADD k m : keeps (SADD k m : script R unit).
Proof.
  apply keeps_lift. intros x. apply keeps_modify. intros s id H. unfold put_set.
  rewrite decide_False by set_solver. by apply owned_put.
Qed.

Lemma keeps_ZADD k q m : keeps (ZADD k q m : script R unit).
Proof.
  apply keeps_lift. intros x. apply keeps_modify. intros s id H. unfold put_zset.
  rewrite decide_False by (rewrite dom_insert_L; set_solver). by apply owned_put.
Qed.

Lemma keeps_SREM c m : keeps (SREM (byConsumerKey c) m : script R unit).
Proof.
  apply keeps_lift. intros x. apply keeps_modify. intros s id. apply owned_ne.
  apply kdb_put_set_ne. discriminate.
Qed.
End commands.

Create HintDb keeps.
#[export] Hint Resolve keeps_ret keeps_return keeps_bind keeps_when keeps_EXISTS keeps_GET keeps_EXPIRE
  keeps_SET_EX keeps_SADD keeps_ZADD keeps_SREM : keeps.

(** A script under which one job stays. *)
Definition spares {R A} (id : string) (m : script R A) : Prop := ∀ s, owned s id → owned (m s).1 id.

Lemma spares_keeps {R A} id (m : script R A) : keeps m → spares id m.
Proof. intros Hm s. apply Hm. Qed.

Lemma spares_bind {R A B} id (m : script R A) (k : A → script R B) :
  spares id m → (∀ a, spares id (k a)) → spares id (m ≫= k).
Proof.
  intros Hm Hk s Hs. unfold mbind, script_bind. specialize (Hm s Hs).
  destruct (m s) as [s' [a|r|e]]; cbn in *; auto. by apply Hk.
Qed.

Lemma spares_DEL {R} id id' : id ≠ id' → spares id (DEL (jobKey id') : script R unit).
Proof.
  intros Hne s. apply owned_ne. apply kdb_del_ne. intros E. apply Hne. unfold jobKey, jobKeyPrefix in E. by simplify_eq/=.
Qed.

Lemma keeps_ZREM_index {R} m : keeps (ZREM indexKey m : script R _).
Proof. apply keeps_lift. intros z s id. apply owned_ne. apply kdb_put_zset_ne. discriminate. Qed.
#[export] Hint Resolve keeps_ZREM_index : keeps.

Section claims.
Context `{EntryCodec}.

Lemma keeps_seed K4 c t : keeps (seed_live K4 c t).
Proof. apply keeps_bind; [auto with keeps |]. intros []; cbn; auto with keeps. Qed.
Hint Resolve keeps_seed : keeps.

Lemma keeps_claim_obj K1 K3 K4 id c ttl now g hb obj : keeps (claim_obj K1 K3 K4 id c ttl now g hb obj).
Proof.
  unfold claim_obj. destruct (lo_consumer obj) as [owner|]; [| auto with keeps].
  destruct (_ && _).
  - apply keeps_bind; [auto with keeps |]. intros alive.
    apply keeps_bind; [auto with keeps |]. intros []. apply keeps_bind; [auto with keeps |].
    intros []. apply keeps_SREM.
  - destruct (String.eqb _ _); [| auto with keeps]. repeat (apply keeps_bind; [auto with keeps | intros []]).
    auto with keeps.
Qed.

(** The end of a claim that takes the job. *)
Lemma claim_take K1 K2 K3 K4 id c payload ttl now hb :
  K1 = jobKey id →
  ∀ s, let m := (SET_EX K1 payload ttl;; SADD K2 id;; ZADD K3 (inject_Z now) id;;
                 seed_live K4 c hb;; lua_return 1) : script Z unit in
  (∀ i, owned s i → owned (m s).1 i) ∧ owned (m s).1 id.
Proof.
  intros -> s m. assert (keeps m) as Hk.
  { unfold m. repeat (apply keeps_bind; [auto with keeps | intros []]). auto with keeps. }
  split; [by apply Hk |]. unfold m. unfold mbind at 1, script_bind at 1. cbn.
  assert (keeps (SADD K2 id;; ZADD K3 (inject_Z now) id;; seed_live K4 c hb;; lua_return 1 : script Z unit)) as Hr.
  { repeat (apply keeps_bind; [auto with keeps | intros []]). auto with keeps. }
  apply Hr. unfold owned, has_key. cbn. by rewrite lookup_insert_eq.
Qed.

Lemma GET_cases {R} k s :
  (∃ o, (GET k : script R _) s = (s, Next o) ∧ get_string s k = Some o) ∨
  (∃ e, (GET k : script R _) s = (s, Fail e)).
Proof. unfold GET, lift. destruct (get_string s k) as [o|]; [left | right]; by eexists. Qed.

Lemma run_bind_next {R A B} (m : script R A) (k : A → script R B) s s' a :
  m s = (s', Next a) → run (m ≫= k) s = run (k a) s'.
Proof. intros E. unfold run, mbind, script_bind. by rewrite E. Qed.

Lemma run_bind_fail {R A B} (m : script R A) (k : A → script R B) s s' e :
  m s = (s', Fail e) → run (m ≫= k) s = (s', None).
Proof. intros E. unfold run, mbind, script_bind. by rewrite E. Qed.

Lemma keeps_run (m : script Z unit) s id :
  keeps m → owned s id → (∀ i, owned s i → owned (run m s).1 i) ∧ owned (run m s).1 id.
Proof.
  intros Km Hs. assert ((run m s).1 = (m s).1) as -> by (unfold run; by destruct (m s) as [s' []]).
  split; [apply Km | by apply Km].
Qed.

(** Whatever the keyspace holds, a claim that answers leaves its job owned. *)
Lemma claim_owned K2 id c payload ttl now g hb s :
  let r := run (claimScript (jobKey id) K2 indexKey liveConsumerPrefix id c payload ttl now g hb) s in
  (∀ i, owned s i → owned r.1 i) ∧ (∀ n, r.2 = Some n → owned r.1 id).
Proof.
  unfold claimScript. set (hbTTL := if hb <? 1 then ttl else hb).
  destruct (claim_take (jobKey id) K2 indexKey liveConsumerPrefix id c payload ttl now hbTTL eq_refl s)
    as [Hk Ho].
  set (take_ := SET_EX (jobKey id) payload ttl;; _) in *.
  destruct (GET_cases (R:=Z) (jobKey id) s) as [(o & E & Eg)|(err & E)].
  2: { cbv zeta. rewrite (run_bind_fail _ _ _ _ _ E). by split. }
  destruct o as [raw|].
  - assert (owned s id) as Hs.
    { unfold owned, has_key. unfold get_string in Eg. destruct (kdb s !! jobKey id); [done | discriminate]. }
    cbv zeta. edestruct (keeps_run) as [H1 H2]; [| exact Hs | split; [exact H1 | intros _ _; exact H2]].
    apply keeps_bind; [auto with keeps |]. intros o. apply keeps_bind.
    + destruct o as [raw'|]; [| auto with keeps]. destruct (cjson_decode raw'); [apply keeps_claim_obj | auto with keeps].
    + intros []. unfold take_. repeat (apply keeps_bind; [auto with keeps | intros []]). auto with keeps.
  - cbv zeta. rewrite (run_bind_next _ _ _ _ _ E). assert (run (mret tt;; take_) s = run take_ s) as -> by done.
    assert ((run take_ s).1 = (take_ s).1) as -> by (unfold run; by destruct (take_ s) as [s' []]).
    auto.
Qed.

(** Complete touches no job but its own. *)
Lemma complete_spares c fence id id' :
  id ≠ id' → spares id (completeScript (jobKey id') (byConsumerKey c) indexKey id' c fence).
Proof.
  intros Hne. unfold completeScript. apply spares_bind; [apply spares_keeps; auto with keeps |].
  intros [raw|].
  - destruct (cjson_decode raw); [| apply spares_keeps; auto with keeps].
    apply spares_bind; [apply spares_keeps; auto with keeps | intros []].
    apply spares_bind; [by apply spares_DEL | intros []].
    apply spares_keeps. apply keeps_bind; [auto with keeps | intros []].
    apply keeps_bind; [auto with keeps | intros b]. auto with keeps.
  - apply spares_keeps. apply keeps_bind; [auto with keeps | intros []].
    apply keeps_bind; [auto with keeps | intros b]. auto with keeps.
Qed.

(** ** Pipelined claims *)

(** A command that keeps the jobs and, when it answers, leaves [id] owned. *)
Definition good (c : cmd Z) (id : string) : Prop :=
  ∀ db, (∀ i, owned db i → owned (c db).1 i) ∧ (∀ n, (c db).2 = Ok n → owned (c db).1 id).

Definition ok_owned (db : redis) (r : result Z) (id : string) : Prop := ∀ n, r = Ok n → owned db id.

Lemma ok_owned_mono db db' rs ids :
  (∀ i, owned db i → owned db' i) → Forall2 (ok_owned db) rs ids → Forall2 (ok_owned db') rs ids.
Proof. intros H' Hf. eapply Forall2_impl; [exact Hf |]. intros r id Hr n E. apply H'. by eapply Hr. Qed.

Lemma run_cmds_good cs ids db :
  Forall2 good cs ids →
  (∀ i, owned db i → owned (run_cmds cs db).1 i) ∧
  Forall2 (ok_owned (run_cmds cs db).1) (run_cmds cs db).2 ids.
Proof.
  intros Hf. revert db. induction Hf as [|c id cs ids Hc Hf IH]; intros db; cbn; [split; [done | constructor] |].
  destruct (Hc db) as [Hk Ho]. destruct (c db) as [db1 r]. specialize (IH db1) as [IHk IHo].
  destruct (run_cmds cs db1) as [db2 rs]. cbn in *. split; [auto |]. constructor; [| done].
  intros n E. apply IHk. by eapply Ho.
Qed.

Lemma pipeline_good cs ids w :
  Forall2 good cs ids →
  (∀ i, owned (w_db w) i → owned (w_db (pipeline cs w).1) i) ∧
  Forall2 (ok_owned (w_db (pipeline cs w).1)) (pipeline cs w).2 ids.
Proof.
  intros Hf. unfold pipeline. destruct (w_net w) as [|[|ran got] net].
  - destruct (run_cmds_good cs ids (w_db w) Hf) as [Hk Ho]. by destruct (run_cmds cs (w_db w)).
  - destruct (run_cmds_good cs ids (w_db w) Hf) as [Hk Ho]. by destruct (run_cmds cs (w_db w)).
  - destruct (run_cmds_good (take ran cs) (take ran ids) (w_db w)) as [Hk Ho]; [by apply Forall2_take |].
    pose proof (Forall2_length _ _ _ Hf) as Hl.
    destruct (run_cmds (take ran cs) (w_db w)) as [db rs]. cbn in *. split; [done |].
    rewrite <- (take_drop (length (take got rs)) ids). apply Forall2_app.
    + pose proof (Forall2_length _ _ _ Ho) as Hr. apply (Forall2_take _ _ _ got) in Ho.
      rewrite take_take in Ho. rewrite length_take in Hr.
      assert (take (length (take got rs)) ids = take (got `min` ran) ids) as ->; [| exact Ho].
      rewrite length_take. replace (got `min` length rs)%nat with (got `min` ran `min` length ids)%nat by lia.
      rewrite <- take_take. by rewrite (take_ge ids) by lia.
    + assert (∀ l m, length l = m → Forall2 (ok_owned db) (replicate m (Bad networkError)) l) as Hb.
      { induction l as [|x l IH]; intros [|m] Hm; cbn in *; try done; constructor; [done |]. apply IH. lia. }
      apply Hb. rewrite length_drop. lia.
Qed.

Lemma refuse_good missing cs ids : Forall2 good cs ids → Forall2 good (refuse missing cs) ids.
Proof.
  intros Hf. revert missing. induction Hf as [|c id cs ids Hc Hf IH]; intros missing; cbn; constructor; [| apply IH].
  destruct (default false (head missing)); [| done]. by intros db.
Qed.

Lemma again_good (cs : list (cmd Z)) ids (rs : list (result Z)) :
  Forall2 good cs ids → Forall2 good (again cs rs) (again ids rs).
Proof.
  intros Hf. revert rs. induction Hf as [|c id cs ids Hc Hf IH]; intros [|r rs]; cbn; try constructor.
  destruct (refused r); [constructor; [done | apply IH] | apply IH].
Qed.

Lemma patch_owned db rs rs' ids :
  Forall2 (ok_owned db) rs ids → Forall2 (ok_owned db) rs' (again ids rs) →
  Forall2 (ok_owned db) (patch rs rs') ids.
Proof.
  intros Hf. revert rs'. induction Hf as [|r id rs ids Hr Hf IH]; intros rs' Hp; cbn in *; [constructor |].
  destruct (refused r).
  - inversion Hp; subst. constructor; [done |]. by apply IH.
  - constructor; [done |]. by apply IH.
Qed.

Lemma evalsha_good missing cs ids w :
  Forall2 good cs ids →
  let r := evalsha_retry missing cs w in
  (∀ i, owned (w_db w) i → owned (w_db r.1) i) ∧ Forall2 (ok_owned (w_db r.1)) r.2.2 ids ∧
  length r.2.1 = length cs.
Proof.
  intros Hf. unfold evalsha_retry, mbind, io_bind.
  destruct (pipeline_good (refuse missing cs) ids w (refuse_good missing cs ids Hf)) as [Hk Ho].
  destruct (pipeline (refuse missing cs) w) as [w1 p]. cbn [fst snd] in *.
  assert (length p = length cs) as Hl.
  { apply Forall2_length in Ho, Hf. by rewrite Ho, Hf. }
  destruct (decide _); [done |].
  destruct (pipeline_good (again cs p) (again ids p) w1 (again_good cs ids p Hf)) as [Hk' Ho'].
  destruct (pipeline (again cs p) w1) as [w2 p2]. cbn [fst snd] in *. split; [auto |]. split; [| done].
  apply patch_owned; [| done]. by eapply ok_owned_mono.
Qed.

Definition cmd_keeps {A} (c : cmd A) : Prop := ∀ db i, owned db i → owned (c db).1 i.

Lemma run_cmds_keeps {A} (cs : list (cmd A)) db i :
  Forall cmd_keeps cs → owned db i → owned (run_cmds cs db).1 i.
Proof.
  intros Hf. revert db. induction Hf as [|c cs Hc Hf IH]; intros db Hi; cbn; [done |].
  specialize (Hc db i Hi). destruct (c db) as [db1 r]. specialize (IH db1 Hc). by destruct (run_cmds cs db1).
Qed.

Lemma pipeline_keeps {A} (cs : list (cmd A)) w i :
  Forall cmd_keeps cs → owned (w_db w) i → owned (w_db (pipeline cs w).1) i.
Proof.
  intros Hf Hi. unfold pipeline. destruct (w_net w) as [|[|ran got] net].
  - pose proof (run_cmds_keeps cs (w_db w) i Hf Hi). by destruct (run_cmds cs (w_db w)).
  - pose proof (run_cmds_keeps cs (w_db w) i Hf Hi). by destruct (run_cmds cs (w_db w)).
  - pose proof (run_cmds_keeps (take ran cs) (w_db w) i (Forall_take _ ran _ Hf) Hi).
    by destruct (run_cmds (take ran cs) (w_db w)).
Qed.

Lemma command_keeps {A} (m : script A A) : keeps m → cmd_keeps (command m).
Proof. intros Hm db i Hi. specialize (Hm db i Hi). unfold command. by destruct (m db) as [db' []]. Qed.

(** What is known of a claim: an answer without an error means the job is owned. *)
Definition state_owned (db : redis) (c : claim_state) (id : string) : Prop :=
  match c with Settled _ (Some _) => True | _ => owned db id end.

Definition answer_owned (db : redis) (x : ClaimResult * error) (id : string) : Prop :=
  x.2 = None → owned db id.

Lemma settle_owned db blocked es stale rs :
  length stale = length es → Forall2 (ok_owned db) rs (JobID <$> es) →
  Forall2 (state_owned db) (settle_all blocked es stale rs) (JobID <$> es).
Proof.
  revert stale rs. induction es as [|e es IH]; intros [|x stale] rs Hl Hf; cbn in *; try done.
  inversion Hf as [|r id rs' ids Hr Hf']; subst.
  constructor; [| apply IH; [lia | done]]. unfold settle.
  destruct (if blocked then x else Ok 0); [| done]. destruct r as [n|]; [| done].
  specialize (Hr n eq_refl). by destruct (n =? 1), (n =? 2).
Qed.

Lemma resolve_owned db cs ids gets :
  Forall2 (state_owned db) cs ids → Forall2 (answer_owned db) (resolve cs gets) ids.
Proof.
  intros Hf. revert gets. induction Hf as [|c id cs ids Hc Hf IH]; intros gets; cbn; [constructor |].
  destruct c as [r [e|]|id']; cbn in Hc.
  - constructor; [| apply IH]. intros E. discriminate E.
  - constructor; [| apply IH]. by intros _.
  - destruct gets as [|g gets]; (constructor; [by intros _ | apply IH]).
Qed.

Lemma prepare_sent now q e m :
  prepare now q = Ok (e, m) → JobID e = cl_JobID q.2 ∧ good (call m) (cl_JobID q.2).
Proof.
  destruct q as [uuid p]. unfold prepare. destruct (String.eqb _ _); [done |].
  destruct (marshalEntryJSON _) as [raw|]; [| done]. intros [= <- <-]. split; [done |].
  unfold claim_call. destruct (lease_of p) as [[ttl hb] g]. intros db. unfold call.
  destruct (claim_owned (byConsumerKey (cl_ConsumerID p)) (cl_JobID p) (cl_ConsumerID p) raw (seconds ttl)
    now.2 (seconds g) (seconds hb) db) as [Hk Ho].
  cbn [st_unix]. destruct (run _ db) as [db' [n|]]; cbn in *; split; auto; [by intros; eapply Ho | done].
Qed.

Lemma sends_good now params :
  Forall2 good ((λ x, call x.2) <$> omap sent (prepare now <$> params))
    (JobID <$> (omap sent (prepare now <$> params)).*1).
Proof.
  induction params as [|q params IH]; cbn; [constructor |].
  destruct (prepare now q) as [[e m]|err] eqn:E; cbn; [| exact IH].
  apply prepare_sent in E as [Ei Hg]. constructor; [| exact IH]. by rewrite Ei.
Qed.

Lemma place_owned db now params outs :
  Forall2 (answer_owned db) outs (JobID <$> (omap sent (prepare now <$> params)).*1) →
  Forall2 (answer_owned db) (place (prepare now <$> params) outs) ((λ q, cl_JobID q.2) <$> params).
Proof.
  revert outs. induction params as [|q params IH]; intros outs Hf; cbn; [constructor |].
  cbn in Hf. destruct (prepare now q) as [[e m]|err] eqn:E; cbn in *.
  - inversion Hf; subst. constructor; [| by apply IH]. by apply prepare_sent in E as [<- _].
  - constructor; [intros E'; discriminate E' | by apply IH].
Qed.

(** Whatever the network does, a pipelined claim that is answered without an
    error leaves its job in the working set, and no claim drops a job. *)
Lemma ClaimMany_owned s missing now params w :
  let r := ClaimMany (Some s) missing now params w in
  (∀ i, owned (w_db w) i → owned (w_db r.1) i) ∧
  Forall2 (answer_owned (w_db r.1)) r.2 ((λ q, cl_JobID q.2) <$> params).
Proof.
  unfold ClaimMany. destruct (decide _) as [E|_].
  { cbn. destruct params; [| done]. split; [done | constructor]. }
  cbv zeta. set (slots := prepare now <$> params). set (sends := omap sent slots).
  destruct (evalsha_good missing _ _ w (sends_good now params)) as (Hk & Ho & Hl).
  fold slots in Hk, Ho, Hl. fold sends in Hk, Ho, Hl. unfold mbind, io_bind.
  destruct (evalsha_retry missing _ w) as [w1 [p1 p2]]. cbn [fst snd] in *.
  rewrite length_fmap in Hl.
  set (states := settle_all _ _ _ _). assert (Forall2 (state_owned (w_db w1)) states (JobID <$> sends.*1)) as Hs.
  { apply settle_owned; [by rewrite length_fmap | done]. }
  destruct (decide _).
  - cbn. split; [done |]. by apply place_owned, resolve_owned.
  - set (gets := (λ id, command (GET (jobKey id))) <$> resumed_ids states).
    assert (Forall cmd_keeps gets) as Hg.
    { apply Forall_fmap, Forall_forall. intros id _. apply command_keeps. apply keeps_GET. }
    pose proof (λ i, pipeline_keeps gets w1 i Hg) as Hp. destruct (pipeline gets w1) as [w2 gs]. cbn in *.
    split; [auto |]. apply place_owned, resolve_owned. eapply Forall2_impl; [exact Hs |].
    intros [r [err|]|id'] id; cbn; auto.
Qed.
End claims.

(** ** Dispatch *)

Section dispatch.
Context `{EntryCodec} `{CompletionLaws} `{JsonLaws} `{TimeText}.
Context (e : SuperFetchExecutor) (ws : WorkStore) (cfg : Daemon) (ends : Z → bool).

(** The executor publishes outcomes through the daemon's producer, and its
    processing adds to the log and leaves the working set alone. *)
Record wired : Prop := {
  wi_work : sf_Work e = Some ws;
  wi_apply : sf_Apply e = applyJobSideEffects cfg kafka ends;
  wi_log : ∀ raw src S, ∃ l, k_log (sf_Process e raw src S).1 = k_log S ++ l;
  wi_keep : ∀ raw src S id, owned (w_db (sys S)) id → owned (w_db (sys (sf_Process e raw src S).1)) id
}.
Context (W : wired).

(** The log only grows and the working set keeps its jobs. *)
Definition grew (S S' : system) : Prop :=
  (∃ l, k_log S' = k_log S ++ l) ∧ ∀ id, owned (w_db (sys S)) id → owned (w_db (sys S')) id.

Lemma grew_refl S : grew S S.
Proof. split; [exists []; by rewrite app_nil_r | done]. Qed.

Lemma grew_trans S1 S2 S3 : grew S1 S2 → grew S2 S3 → grew S1 S3.
Proof.
  intros [[l E] H12] [[l' E'] H23]. split; [exists (l ++ l'); by rewrite E', E, app_assoc | auto].
Qed.
Hint Resolve grew_refl : core.

Lemma grew_process raw src S : grew S (sf_Process e raw src S).1.
Proof. split; [apply W | intros id; apply W]. Qed.

Lemma grew_appends {A} (m : kio A) S : appends m → grew S (m S).1.
Proof. intros Hm. destruct (Hm S) as (l & El & Es). split; [by exists l |]. intros id. by rewrite Es. Qed.

Lemma appends_apply out : appends (sf_Apply e out).
Proof.
  rewrite (wi_apply W). assert (appends (apply_sequential cfg kafka ends out)) as Hs.
  { unfold apply_sequential. repeat apply appends_then; [apply appends_emit | apply appends_opt..]. }
  unfold applyJobSideEffects, kafka at 1, pr_ManySync. destruct (decide _); [| exact Hs].
  unfold applyJobSideEffectsBatched. apply appends_bind.
  - intros S. destruct (ProduceManySync_each (records cfg out) S) as [-> _]. apply appends_each.
  - intros outs. destruct (decide _); [| exact Hs]. apply appends_then; [| apply appends_then; apply appends_ret].
    destruct (error_at _ _ _); [apply appends_emit | apply appends_ret].
Qed.

(** The processing of a record succeeded and its outcome is in Kafka. *)
Definition delivered (r : krecord) (log : list message) : Prop :=
  ∃ S1 S2 out, sf_Process e (kr_value r) (src_of r) S1 = (S2, Done (out, None)) ∧ durable cfg out log.

Lemma durable_mono out l l' : (∀ m, m ∈ l → m ∈ l') → durable cfg out l → durable cfg out l'.
Proof.
  intros Hl [He Hr]. split; [intros ev E; eapply event_kept_mono; eauto |].
  eapply Forall_impl; [exact Hr |]. auto.
Qed.

Lemma grew_log S S' m : grew S S' → m ∈ k_log S → m ∈ k_log S'.
Proof. intros [[l ->] _] Hm. apply elem_of_app. auto. Qed.

(** [F0] are the jobs in flight before the batch. *)
Context (F0 : gset string).

Definition safe (S : system) (id : string) : Prop := id ∈ F0 ∨ owned (w_db (sys S)) id.

(** A record whose offset may be given up. *)
Definition settled (S : system) (r : krecord) : Prop :=
  (extractJobID (kr_value r) = ""%string ∧ delivered r (k_log S)) ∨ safe S (extractJobID (kr_value r)).

Lemma safe_mono S S' id : grew S S' → safe S id → safe S' id.
Proof. intros [_ Hk] [Hf|Ho]; [by left | right; auto]. Qed.

Lemma settled_mono S S' r : grew S S' → settled S r → settled S' r.
Proof.
  intros Hg [[E (S1 & S2 & out & Ep & Hd)]|Hs]; [left | right; by eapply safe_mono].
  split; [done |]. exists S1, S2, out. split; [done |]. eapply durable_mono; [| exact Hd].
  intros m. by apply grew_log.
Qed.

(** The items of a chunk: what is known of each, given the claims before it. *)
Fixpoint items_ok (S : system) (G : gset string) (items : list dispatchItem) : Prop :=
  match items with
  | [] => True
  | it :: items =>
      it_jobID it = extractJobID (kr_value (it_rec it)) ∧
      match it_kind it with
      | dispatchMalformed => it_jobID it = ""%string ∧ items_ok S G items
      | dispatchDuplicate => (safe S (it_jobID it) ∨ it_jobID it ∈ G) ∧ items_ok S G items
      | dispatchClaim => items_ok S ({[it_jobID it]} ∪ G) items
      end
  end.

Lemma items_ok_mono S S' G items : grew S S' → items_ok S G items → items_ok S' G items.
Proof.
  intros Hg. revert G. induction items as [|it items IH]; intros G; cbn; [done |].
  intros [E Hk]. split; [done |]. destruct (it_kind it); [auto | | destruct Hk; auto].
  destruct Hk as [[Hs|Hs] Hk]; split; auto. left. by eapply safe_mono.
Qed.

Definition claims (items : list dispatchItem) : list dispatchItem := filter (λ it, is_claim it = true) items.

(** A perform starts for a job the working set owns. *)
Definition started_ok (S : system) (x : krecord * string * string) : Prop :=
  owned (w_db (sys S)) x.1.2 ∧ x.1.2 = extractJobID (kr_value x.1.1).

Lemma started_mono S S' l : grew S S' → Forall (started_ok S) l → Forall (started_ok S') l.
Proof. intros [_ Hk] Hl. eapply Forall_impl; [exact Hl |]. intros x [Ho E]. split; auto. Qed.

(** What flushing a list of items does, up to the item whose outcome is unknown. *)
Record flushed (S S' : system) (items : list dispatchItem) (d d' : dispatch) (n : nat) : Prop := {
  fl_grew : grew S S';
  fl_calls : ds_calls d' = ds_calls d ++ (MarkCommit <$> take n (it_rec <$> items));
  fl_settled : Forall (settled S') (take n (it_rec <$> items));
  fl_flight : ds_inFlight d' ⊆ ds_inFlight d;
  fl_started : ∃ l, ds_started d' = ds_started d ++ l ∧ Forall (started_ok S') l;
  fl_claims : Forall (λ it, safe S' (it_jobID it)) (claims (take n items))
}.

Lemma flushed_zero S items d d' S' :
  grew S S' → ds_calls d' = ds_calls d → ds_started d' = ds_started d → ds_inFlight d' ⊆ ds_inFlight d →
  flushed S S' items d d' 0.
Proof.
  intros Hg Ec Es Hf. split.
  - done.
  - cbn. by rewrite app_nil_r.
  - apply Forall_nil. exact I.
  - done.
  - exists []. rewrite app_nil_r. split; [done |]. apply Forall_nil. exact I.
  - apply Forall_nil. exact I.
Qed.

Lemma flushed_step S S1 S' it items d d1 d' n :
  flushed S1 S' items d1 d' n → grew S S1 → ds_calls d1 = ds_calls d ++ [MarkCommit (it_rec it)] →
  ds_inFlight d1 ⊆ ds_inFlight d → settled S1 (it_rec it) →
  (is_claim it = true → safe S1 (it_jobID it)) →
  (∃ l, ds_started d1 = ds_started d ++ l ∧ Forall (started_ok S1) l) →
  flushed S S' (it :: items) d d' (Datatypes.S n).
Proof.
  intros [F1 F2 F3 F4 F5 F6] Hg Ec Hf Hs Hc (l & El & Hl). split.
  - by eapply grew_trans.
  - cbn. rewrite F2, Ec, <- app_assoc. done.
  - cbn. constructor; [by eapply settled_mono | done].
  - set_solver.
  - destruct F5 as (l' & E' & Hl'). exists (l ++ l'). rewrite E', El, app_assoc. split; [done |].
    apply Forall_app. split; [by eapply started_mono | done].
  - unfold claims in *. rewrite firstn_cons, filter_cons. destruct (decide (is_claim it = true)) as [E|]; [| done].
    constructor; [| done]. eapply safe_mono; [exact F1 | by apply Hc].
Qed.

(** A record without a job id is marked only once its outcome is delivered. *)
Lemma missing_ok r d S :
  let x := processMissingJobID e r d S in
  grew S x.1 ∧
  (∀ d', x.2 = Done (d', false) → d' = d) ∧
  (∀ d', x.2 = Done (d', true) → d' = add_calls d [MarkCommit r] ∧ delivered r (k_log x.1)).
Proof.
  unfold processMissingJobID, mbind, kio_bind. pose proof (grew_process (kr_value r) (src_of r) S) as Hg.
  destruct (sf_Process e _ _ S) as [S1 [[out [err|]]|]] eqn:Ep; cbn in *.
  - split_and!; [done | by intros d' [= ->] | by intros].
  - pose proof (grew_appends _ S1 (appends_apply out)) as Ha.
    destruct (sf_Apply e out S1) as [S2 [err|]] eqn:Ea; cbn in *.
    + split_and!; [by eapply grew_trans | by intros d' [= ->] | by intros].
    + split_and!; [by eapply grew_trans | by intros | intros d' [= <-]]. split; [done |].
      exists S, S1, out. split; [done |]. rewrite (wi_apply W) in Ea.
      by eapply applied_durable.
  - split_and!; [done | by intros..].
Qed.

Lemma settled_safe S r : safe S (extractJobID (kr_value r)) → settled S r.
Proof. by right. Qed.

Lemma flush_items_ok items : ∀ results idx d S G,
  items_ok S G items → (∀ id, id ∈ G → safe S id) →
  Forall2 (answer_owned (w_db (sys S))) results (it_jobID <$> claims items) →
  let x := flush_items e items results idx d S in
  (∀ d', x.2 = Done (d', None) → flushed S x.1 items d d' (length items)) ∧
  (∀ d' n, x.2 = Done (d', Some n) →
     ∃ m, n = (idx + m)%nat ∧ (m < length items)%nat ∧ flushed S x.1 items d d' m).
Proof.
  induction items as [|it items IH]; intros results idx d S G Hok HG Hans.
  { cbn. split; [intros d' [= <-]; by apply flushed_zero | done]. }
  cbn [items_ok] in Hok. destruct Hok as [Eid Hok]. unfold claims in Hans. rewrite filter_cons in Hans.
  assert (∀ results d1 S1 G', grew S S1 → ds_calls d1 = ds_calls d ++ [MarkCommit (it_rec it)] →
    ds_inFlight d1 ⊆ ds_inFlight d → settled S1 (it_rec it) →
    (is_claim it = true → safe S1 (it_jobID it)) →
    (∃ l, ds_started d1 = ds_started d ++ l ∧ Forall (started_ok S1) l) →
    items_ok S1 G' items → (∀ id, id ∈ G' → safe S1 id) →
    Forall2 (answer_owned (w_db (sys S1))) results (it_jobID <$> claims items) →
    let x := flush_items e items results (Datatypes.S idx) d1 S1 in
    (∀ d', x.2 = Done (d', None) → flushed S x.1 (it :: items) d d' (length (it :: items))) ∧
    (∀ d' n, x.2 = Done (d', Some n) →
       ∃ m, n = (idx + m)%nat ∧ (m < length (it :: items))%nat ∧ flushed S x.1 (it :: items) d d' m)) as Hstep.
  { intros rs d1 S1 G' Hg Hc Hf Hs Hcl Hst Hi HG' Ha.
    destruct (IH rs (Datatypes.S idx) d1 S1 G' Hi HG' Ha) as [Hnone Hsome]. split.
    - intros d' E. eapply flushed_step; eauto.
    - intros d' n E. destruct (Hsome d' n E) as (m & -> & Hm & Hfl). exists (Datatypes.S m).
      split; [lia |]. split; [cbn; lia |]. eapply flushed_step; eauto. }
  assert (∃ l : list (krecord * string * string), ds_started d = ds_started d ++ l ∧
    ∀ S1 : system, Forall (started_ok S1) l) as (l0 & El0 & Hl0).
  { exists []. rewrite app_nil_r. split; [done |]. intros S1. by apply Forall_nil. }
  cbn [flush_items]. unfold is_claim in Hans. destruct (it_kind it) eqn:Ek; cbn in Hans.
  - inversion Hans as [|[res err] id rs ids Hr Hf]; subst. destruct err as [err|].
    { cbn. split; [done |]. intros d' n [= <- <-]. exists 0%nat. split; [lia |]. split; [lia |].
      apply flushed_zero; try done. cbn. set_solver. }
    specialize (Hr eq_refl). assert (safe S (it_jobID it)) as Hs by by right.
    assert (settled S (it_rec it)) as Hst by (apply settled_safe; by rewrite <- Eid).
    assert (∀ id, id ∈ {[it_jobID it]} ∪ G → safe S id) as HG'.
    { intros id [->%elem_of_singleton|Hi]%elem_of_union; auto. }
    destruct (Won res).
    + apply (Hstep rs _ S ({[it_jobID it]} ∪ G)); try done.
      exists [(it_rec it, it_jobID it, cr_Fence res)]. split; [done |].
      constructor; [by split | by apply Forall_nil].
    + apply (Hstep rs _ S ({[it_jobID it]} ∪ G)); try done; [cbn; set_solver |]. exists l0. auto.
  - destruct Hok as [Hsafe Hok]. assert (safe S (it_jobID it)) as Hs by (destruct Hsafe; auto).
    apply (Hstep results _ S G); try done; [apply settled_safe; by rewrite <- Eid |]. exists l0. auto.
  - destruct Hok as [Hnil Hok]. destruct (missing_ok (it_rec it) d S) as (Hg & Hno & Hyes).
    unfold mbind, kio_bind. destruct (processMissingJobID e (it_rec it) d S) as [S1 [[d1 []]|]]; cbn in *.
    + destruct (Hyes d1 eq_refl) as [-> Hd]. apply (Hstep results _ S1 G); try done.
      * left. by rewrite <- Eid.
      * unfold is_claim. by rewrite Ek.
      * exists l0. auto.
      * by eapply items_ok_mono.
      * intros id Hi. eapply safe_mono; eauto.
      * eapply Forall2_impl; [exact Hans |]. intros x id Hx E. apply Hg. by apply Hx.
    + rewrite (Hno d1 eq_refl). split; [done |]. intros d' n [= <- <-]. exists 0%nat.
      split; [lia |]. split; [lia |]. by apply flushed_zero.
    + by split.
Qed.

Lemma flushed_before S S1 S' items d d' n : grew S S1 → flushed S1 S' items d d' n → flushed S S' items d d' n.
Proof. intros Hg [F1 F2 F3 F4 F5 F6]. split; try done. by eapply grew_trans. Qed.

Lemma claim_ids (l : list dispatchItem) (uuid : nat → string) :
  (λ q : string * ClaimParams, cl_JobID q.2) <$> imap (λ i p, (uuid i, p)) (claim_params e <$> l) = it_jobID <$> l.
Proof.
  revert uuid. induction l as [|it l IH]; intros uuid; cbn; [done |]. f_equal.
  apply (IH (λ i, uuid (Datatypes.S i))).
Qed.

Lemma chunk_ok env chunk d S :
  items_ok S ∅ chunk →
  let x := flushDispatchChunk e env chunk d S in
  (∀ d', x.2 = Done (d', None) → flushed S x.1 chunk d d' (length chunk)) ∧
  (∀ d' n, x.2 = Done (d', Some n) → (n < length chunk)%nat ∧ flushed S x.1 chunk d d' n).
Proof.
  intros Hok. unfold flushDispatchChunk, mbind, kio_bind. fold (claims chunk).
  set (first := if decide _ then _ else _).
  assert (∃ S1, (first S).1 = S1 ∧ grew S S1 ∧
    Forall2 (answer_owned (w_db (sys S1))) (first S).2 (it_jobID <$> claims chunk)) as (S1 & E1 & Hg & Ha).
  { unfold first. destruct (decide _) as [E|_].
    - rewrite length_fmap in E. apply nil_length_inv in E. rewrite E. exists S. split_and!; [done | done |]. constructor.
    - unfold redis_io. rewrite (wi_work W).
      set (ps := imap _ _). destruct (ClaimMany_owned ws (ce_missing env) (ce_now env) ps (sys S)) as [Hk Hf].
      assert ((λ q, cl_JobID q.2) <$> ps = it_jobID <$> claims chunk) as Ep by apply claim_ids. rewrite Ep in Hf.
      destruct (ClaimMany _ _ _ ps (sys S)) as [w rs] eqn:E. cbn in *. eexists. split; [done |].
      split; [split; [exists []; by rewrite app_nil_r | done] | done]. }
  destruct (first S) as [S1' rs]. cbn in E1, Ha. subst S1'.
  destruct (flush_items_ok chunk rs 0 d S1 ∅) as [Hnone Hsome]; [by eapply items_ok_mono | done | done |].
  split.
  - intros d' E. eapply flushed_before; eauto.
  - intros d' n E. destruct (Hsome d' n E) as (m & -> & Hm & Hf). split; [done |]. eapply flushed_before; eauto.
Qed.

(** ** The batch *)

Lemma items_ok_snoc S chunk it : ∀ G,
  items_ok S G chunk → it_jobID it = extractJobID (kr_value (it_rec it)) →
  match it_kind it with
  | dispatchMalformed => it_jobID it = ""%string
  | dispatchDuplicate => safe S (it_jobID it) ∨ it_jobID it ∈ G ∪ chunk_ids chunk
  | dispatchClaim => True
  end → items_ok S G (chunk ++ [it]).
Proof.
  induction chunk as [|x chunk IH]; intros G Hok E Hk.
  - cbn. split; [done |]. destruct (it_kind it); [done | | done]. split; [| done].
    destruct Hk as [|Hk]; [by left | right]. unfold chunk_ids in Hk. set_solver.
  - cbn in Hok |- *. destruct Hok as [Ex Hx]. split; [done |].
    assert (chunk_ids (x :: chunk) = (if is_claim x then {[it_jobID x]} else ∅) ∪ chunk_ids chunk) as Ec.
    { unfold chunk_ids. rewrite filter_cons. destruct (is_claim x); [by cbn | cbn; set_solver]. }
    unfold is_claim in Ec. destruct (it_kind x).
    + apply IH; [done | done |]. destruct (it_kind it); [done | | done].
      destruct Hk as [|Hk]; [by left | right; set_solver].
    + destruct Hx as [Hs Hx]. split; [done |]. apply IH; [done | done |].
      destruct (it_kind it); [done | | done]. destruct Hk as [|Hk]; [by left | right; set_solver].
    + destruct Hx as [Hs Hx]. split; [done |]. apply IH; [done | done |].
      destruct (it_kind it); [done | | done]. destruct Hk as [|Hk]; [by left | right; set_solver].
Qed.

Section batch.
Context (recs : list krecord) (d0 : dispatch).

(** The records before [from] are marked and settled, those of the chunk wait. *)
Record pending (chunk : list dispatchItem) (from : nat) (d : dispatch) (S : system) : Prop := {
  pe_recs : it_rec <$> chunk = take (length chunk) (drop from recs);
  pe_calls : ds_calls d = ds_calls d0 ++ (MarkCommit <$> take from recs);
  pe_settled : Forall (settled S) (take from recs);
  pe_items : items_ok S ∅ chunk;
  pe_flight : ∀ id, id ∈ ds_inFlight d → safe S id ∨ id ∈ chunk_ids chunk;
  pe_started : ∃ l, ds_started d = ds_started d0 ++ l ∧ Forall (started_ok S) l
}.

(** The batch is over: a settled prefix is marked, the rest is fetched again. *)
Definition finished_batch (d : dispatch) (S : system) : Prop :=
  ∃ k l, ds_calls d = ds_calls d0 ++ (MarkCommit <$> take k recs) ++ rewindUndispatched (drop k recs) ∧
    Forall (settled S) (take k recs) ∧
    ds_started d = ds_started d0 ++ l ∧ Forall (started_ok S) l.

Lemma pending_flushed chunk from d S S' d' n :
  pending chunk from d S → (n ≤ length chunk)%nat → flushed S S' chunk d d' n →
  ds_calls d' = ds_calls d0 ++ (MarkCommit <$> take (from + n) recs) ∧
  Forall (settled S') (take (from + n) recs) ∧
  (∃ l, ds_started d' = ds_started d0 ++ l ∧ Forall (started_ok S') l).
Proof.
  intros [P1 P2 P3 P4 P5 P6] Hn [F1 F2 F3 F4 F5 F6].
  assert (take n (it_rec <$> chunk) = take n (drop from recs)) as Et.
  { rewrite P1, take_take. by rewrite Nat.min_l. }
  rewrite Et in F2, F3. rewrite <- take_take_drop. split_and!.
  - by rewrite F2, P2, fmap_app, app_assoc.
  - apply Forall_app. split; [| done]. eapply Forall_impl; [exact P3 |]. intros r. by apply settled_mono.
  - destruct P6 as (l & El & Hl), F5 as (l' & E' & Hl'). exists (l ++ l'). rewrite E', El, app_assoc.
    split; [done |]. apply Forall_app. split; [by eapply started_mono | done].
Qed.

Lemma release_calls items : ∀ d,
  ds_calls (releaseChunkClaims items d) = ds_calls d ∧ ds_started (releaseChunkClaims items d) = ds_started d.
Proof.
  induction items as [|x items IH]; intros d; [done |]. cbn.
  destruct (is_claim x); [exact (IH (forget d (it_jobID x))) | exact (IH d)].
Qed.

Lemma flush_ok env chunk from d S :
  pending chunk from d S →
  let x := flush e env recs chunk from d S in
  (∀ d', x.2 = Done (d', true) → pending [] (from + length chunk) d' x.1) ∧
  (∀ d', x.2 = Done (d', false) → finished_batch d' x.1).
Proof.
  intros P. unfold flush. destruct chunk as [|it chunk']; [| set (chunk := it :: chunk') in *].
  { cbn. rewrite Nat.add_0_r. split; [by intros d' [= <-] | done]. }
  destruct (chunk_ok (env from) chunk d S (pe_items _ _ _ _ P)) as [Hnone Hsome].
  unfold mbind, kio_bind. destruct (flushDispatchChunk e (env from) chunk d S) as [S' [[d1 [n|]]|]]; cbn [fst snd mret kio_ret] in *.
  - split; [done |]. intros d' [= <-]. destruct (Hsome d1 n eq_refl) as [Hn Hf].
    destruct (pending_flushed chunk from d S S' d1 n P ltac:(lia) Hf) as (Ec & Hs & (l & El & Hl)).
    exists (from + n)%nat, l.
    unfold add_calls. cbn [ds_calls ds_started]. destruct (release_calls (drop n chunk') d1) as [-> ->].
    by rewrite Ec, <- app_assoc.
  - split; [| done]. intros d' [= <-]. specialize (Hnone d1 eq_refl).
    destruct (pending_flushed chunk from d S S' d1 (length chunk) P ltac:(lia) Hnone) as (Ec & Hs & Hst).
    split; [done | done | done | done | | done]. intros id Hi. left. destruct Hnone as [F1 F2 F3 F4 F5 F6].
    destruct (pe_flight _ _ _ _ P id (F4 _ Hi)) as [Hsafe|Hc]; [by eapply safe_mono |].
    rewrite take_ge in F6 by done. unfold chunk_ids in Hc. fold (claims chunk) in Hc.
    apply elem_of_list_to_set, list_elem_of_fmap in Hc as (y & -> & Hy). rewrite Forall_forall in F6. by apply F6.
  - by split.
Qed.

Lemma pending_finish chunk from d S done_ :
  pending chunk from d S → pending chunk from (finish_jobs d chunk done_) S.
Proof.
  intros [P1 P2 P3 P4 P5 P6]. split; try done. cbn. intros id Hi. apply P5. set_solver.
Qed.

Lemma pending_stop from d S :
  pending [] from d S → finished_batch (add_calls d (rewindUndispatched (drop from recs))) S.
Proof.
  intros [P1 P2 P3 P4 P5 (l & El & Hl)]. exists from, l. cbn. rewrite P2, <- app_assoc. done.
Qed.

(** A record joins the chunk. *)
Lemma pending_join chunk from d S r it s :
  pending chunk from d S → recs !! (from + length chunk)%nat = Some r → it_rec it = r →
  it_jobID it = extractJobID (kr_value r) →
  match it_kind it with
  | dispatchMalformed => it_jobID it = ""%string
  | dispatchDuplicate => it_jobID it ∈ ds_inFlight d
  | dispatchClaim => True
  end →
  s ⊆ ds_inFlight d ∪ (if is_claim it then {[it_jobID it]} else ∅) →
  pending (chunk ++ [it]) from (set_inFlight d s) S.
Proof.
  intros [P1 P2 P3 P4 P5 P6] Hr Er Eid Hk Hs.
  assert (chunk_ids (chunk ++ [it]) = chunk_ids chunk ∪ (if is_claim it then {[it_jobID it]} else ∅)) as Ec.
  { unfold chunk_ids. rewrite filter_app, filter_cons, fmap_app, list_to_set_app_L. f_equal.
    destruct (is_claim it); cbn; set_solver. }
  split; try done.
  - rewrite fmap_app, length_app, P1. cbn. rewrite <- take_take_drop, drop_drop. f_equal. subst r.
    apply drop_S in Hr. rewrite Hr. done.
  - apply items_ok_snoc; [done | by rewrite Er | ].
    destruct (it_kind it); [done | | done]. destruct (P5 _ Hk); [by left | right; set_solver].
  - cbn. rewrite Ec. intros id Hi. apply Hs in Hi. apply elem_of_union in Hi as [Hi|Hi]; [| right; set_solver].
    destruct (P5 id Hi); [by left | right; set_solver].
Qed.

Lemma set_same d : set_inFlight d (ds_inFlight d) = d.
Proof. by destruct d. Qed.

Lemma admit_ok env i r a chunk from d S :
  pending chunk from d S → i = (from + length chunk)%nat → recs !! i = Some r →
  let x := admit_record e env recs i r a chunk from d S in
  (∀ d', x.2 = Done (d', Stop_) → finished_batch d' x.1) ∧
  (∀ d' it chunk' from', x.2 = Done (d', Admit it chunk' from') →
     pending (chunk' ++ [it]) from' d' x.1 ∧ i = (from' + length chunk')%nat).
Proof.
  intros P -> Hr. unfold admit_record. set (id := extractJobID (kr_value r)).
  destruct (String.eqb_spec id "") as [Ee|_].
  { cbn. split; [done |]. intros d' it c f [= <- <- <- <-]. split; [| done]. rewrite <- (set_same d).
    eapply pending_join; try done; cbn; set_solver. }
  destruct (decide (id ∈ ds_inFlight d)) as [Hi|_].
  { cbn. split; [done |]. intros d' it c f [= <- <- <- <-]. split; [| done]. rewrite <- (set_same d).
    eapply pending_join; try done; cbn; set_solver. }
  destruct (decide (_ < _)%nat).
  { cbn. split; [done |]. intros d' it c f [= <- <- <- <-]. split; [| done].
    eapply pending_join; try done; cbn; set_solver. }
  unfold mbind, kio_bind. destruct (flush_ok env chunk from d S P) as [Hgo Hstop].
  destruct (flush e env recs chunk from d S) as [S' [[d1 []]|]]; cbn [fst snd] in *; [| |by split].
  - specialize (Hgo d1 eq_refl). apply (pending_finish _ _ _ _ (ar_freed a)) in Hgo.
    assert (recs !! (from + length chunk + length (@nil dispatchItem))%nat = Some r) as Hr' by (cbn; by rewrite Nat.add_0_r).
    destruct (decide _); [destruct (ar_ends a) |]; cbn.
    + split; [intros d' [= <-]; by apply pending_stop | done].
    + split; [done |]. intros d' it c f [= <- <- <- <-]. split; [| cbn; lia].
      eapply (pending_join []); try done; cbn; set_solver.
    + split; [intros d' [= <-]; by apply pending_stop | done].
  - cbn. split; [intros d' [= <-]; by apply Hstop | done].
Qed.

Lemma loop_ok env rest : ∀ i chunk from d S,
  pending chunk from d S → i = (from + length chunk)%nat → rest.*1 = drop i recs →
  let x := dispatch_loop e env recs i rest chunk from d S in
  ∀ d', x.2 = Done d' → finished_batch d' x.1.
Proof.
  induction rest as [|[r a] rest IH]; intros i chunk from d S P Hi Hrest.
  - cbn [dispatch_loop]. unfold mbind, kio_bind. destruct (flush_ok env chunk from d S P) as [Hgo Hstop].
    destruct (flush e env recs chunk from d S) as [S' [[d1 []]|]]; cbn in *; [| |done]; intros d' [= <-]; [| auto].
    specialize (Hgo d1 eq_refl) as [P1 P2 P3 P4 P5 (l & El & Hl)]. rewrite <- Hi in *.
    exists i, l. rewrite <- Hrest. cbn. rewrite app_nil_r. done.
  - assert (recs !! i = Some r ∧ rest.*1 = drop (Datatypes.S i) recs) as [Hr Hrest'].
    { cbn in Hrest. assert (recs !! i = Some r) as Hr.
      { rewrite <- (Nat.add_0_r i), <- lookup_drop, <- Hrest. done. }
      split; [done |]. apply drop_S in Hr. rewrite Hr in Hrest. by injection Hrest. }
    cbn [dispatch_loop]. destruct (ar_accepting a); cbn [negb].
    2: { cbn. intros d' [= <-]. unfold abortPending. destruct P as [P1 P2 P3 P4 P5 (l & El & Hl)].
         exists from, l. cbn. destruct (release_calls chunk d) as [-> ->]. rewrite P2, <- app_assoc. done. }
    apply (pending_finish _ _ _ _ (ar_finished a)) in P. set (d1 := finish_jobs d chunk _) in *.
    unfold mbind, kio_bind. destruct (admit_ok env i r a chunk from d1 S P Hi Hr) as [Hstop Hgo].
    destruct (admit_record e env recs i r a chunk from d1 S) as [S2 [[d2 [it c f|]]|]]; cbn [fst snd] in *; [| |done].
    + destruct (Hgo d2 it c f eq_refl) as [P2 Ei]. clear Hgo Hstop.
      destruct (decide _).
      * destruct (flush_ok env (c ++ [it]) f d2 S2 P2) as [Hgo Hstop].
        destruct (flush e env recs (c ++ [it]) f d2 S2) as [S3 [[d3 []]|]]; cbn [fst snd] in *; [| |done].
        -- apply IH; [by apply Hgo | cbn; rewrite length_app; cbn; lia | done].
        -- cbn. intros d' [= <-]. by apply Hstop.
      * apply IH; [done | rewrite length_app; cbn; lia | done].
    + cbn. intros d' [= <-]. by apply Hstop.
Qed.
End batch.

(** ** Performs *)

Lemma process_attempts_ok r more : ∀ first S,
  let x := process_attempts e r first more S in
  grew S x.1 ∧
  ∀ out, x.2 = Done (Some out) → ∃ S1 S2, sf_Process e (kr_value r) (src_of r) S1 = (S2, Done (out, None)).
Proof.
  induction more as [|next more IH]; intros first S; cbn [process_attempts]; unfold mbind, kio_bind.
  - destruct first; [| by cbn]. pose proof (grew_process (kr_value r) (src_of r) S) as Hg.
    destruct (sf_Process e _ _ S) as [S1 [[out [err|]]|]] eqn:Ep; cbn in *; (split; [done |]); try done.
    intros out' [= <-]. eauto.
  - assert (∀ S1, grew S S1 → let x := process_attempts e r next more S1 in grew S x.1 ∧
      ∀ out, x.2 = Done (Some out) →
        ∃ S1 S2, sf_Process e (kr_value r) (src_of r) S1 = (S2, Done (out, None))) as Hrest.
    { intros S1 Hg. destruct (IH next S1) as [Hg' Ho]. split; [by eapply grew_trans | done]. }
    destruct first; [| by apply Hrest]. pose proof (grew_process (kr_value r) (src_of r) S) as Hg.
    destruct (sf_Process e _ _ S) as [S1 [[out [err|]]|]] eqn:Ep; cbn in Hg |- *.
    + by apply Hrest.
    + split; [done |]. intros out' [= <-]. eauto.
    + by split.
Qed.

Lemma apply_attempts_ok out patience : ∀ S,
  let x := apply_attempts e out patience S in grew S x.1 ∧ (x.2 = true → durable cfg out (k_log x.1)).
Proof.
  induction patience as [|n IH]; intros S; cbn [apply_attempts]; unfold mbind, kio_bind;
    pose proof (grew_appends _ S (appends_apply out)) as Hg;
    destruct (sf_Apply e out S) as [S1 [err|]] eqn:E; cbn in Hg |- *.
  - by split.
  - split; [done |]. intros _. rewrite (wi_apply W) in E. by eapply applied_durable.
  - destruct (IH S1) as [Hg' Hd]. split; [by eapply grew_trans | done].
  - split; [done |]. intros _. rewrite (wi_apply W) in E. by eapply applied_durable.
Qed.

(** Only job [id] may have left the working set. *)
Definition grew_but (id : string) (S S' : system) : Prop :=
  (∃ l, k_log S' = k_log S ++ l) ∧ ∀ id', id' ≠ id → owned (w_db (sys S)) id' → owned (w_db (sys S')) id'.

Lemma grew_but_trans id S1 S2 S3 : grew_but id S1 S2 → grew_but id S2 S3 → grew_but id S1 S3.
Proof. intros [[l E] H12] [[l' E'] H23]. split; [exists (l ++ l'); by rewrite E', E, app_assoc | auto]. Qed.

Lemma grew_grew_but id S S' : grew S S' → grew_but id S S'.
Proof. intros [Hl Ho]. split; auto. Qed.

Lemma complete_call_ok jobID fence S :
  grew_but jobID S (redis_io (Complete (sf_Work e) jobID (sf_ConsumerID e) fence) S).1.
Proof.
  unfold redis_io, Complete. rewrite (wi_work W). destruct (String.eqb_spec jobID ""); cbn.
  { split; [exists []; by rewrite app_nil_r | done]. }
  unfold mbind, io_bind, do. set (c := call _).
  assert (∀ id', id' ≠ jobID → owned (w_db (sys S)) id' → owned (w_db (pipeline [c] (sys S)).1) id') as Hk.
  { assert (∀ db id', id' ≠ jobID → owned db id' → owned (c db).1 id') as Hc.
    { intros db id' Hne Ho. unfold c, call, run.
      pose proof (complete_spares (sf_ConsumerID e) fence id' jobID Hne db Ho) as Hs.
      by destruct (completeScript _ _ _ _ _ _ db) as [db' []]. }
    intros id' Hne Ho. specialize (Hc (w_db (sys S)) id' Hne Ho). unfold pipeline.
    destruct (w_net (sys S)) as [|[|ran got] net]; cbn.
    1,2: by destruct (c (w_db (sys S))).
    destruct ran; cbn; [done |]. rewrite firstn_nil. cbn. by destruct (c (w_db (sys S))). }
  destruct (pipeline [c] (sys S)) as [w rs]. destruct (default _ _); cbn in *;
    (split; [exists []; by rewrite app_nil_r | done]).
Qed.

Lemma complete_attempts_ok jobID fence tries : ∀ S,
  grew_but jobID S (complete_attempts e jobID fence tries S).1.
Proof.
  induction tries as [|n IH]; intros S; cbn [complete_attempts]; [by apply grew_grew_but |].
  unfold mbind, kio_bind. pose proof (complete_call_ok jobID fence S) as Hc.
  destruct (redis_io _ S) as [S1 [err|]]; cbn in *; [by eapply grew_but_trans | done].
Qed.

(** A perform removes no job but its own, and its own only after its outcome is
    in Kafka. *)
Lemma perform_ok r jobID fence first more patience tries S :
  let x := perform e r jobID fence first more patience tries S in
  grew_but jobID S x.1 ∧
  (grew S x.1 ∧ (x.2 = LeftForReclaim ∨ x.2 = Crashed) ∨
   delivered r (k_log x.1) ∧ ∃ out c, x.2 = Delivered out c).
Proof.
  unfold perform, mbind, kio_bind. destruct (process_attempts_ok r more first S) as [Hg Ho].
  destruct (process_attempts e r first more S) as [S1 [[out|]|]]; cbn [fst snd] in *.
  - destruct (Ho out eq_refl) as (Sa & Sb & Ep). destruct (apply_attempts_ok out patience S1) as [Hg' Hd].
    destruct (apply_attempts e out patience S1) as [S2 []]; cbn [fst snd negb] in *.
    + pose proof (complete_attempts_ok jobID fence (Datatypes.S (min tries 4)) S2) as Hc'.
      destruct (complete_attempts e jobID fence (Datatypes.S (min tries 4)) S2) as [S3 c].
      cbn. split.
      * eapply grew_but_trans; [by apply grew_grew_but | by eapply grew_but_trans; [apply grew_grew_but |]].
      * right. split; [| by eauto]. exists Sa, Sb, out. split; [done |].
        eapply durable_mono; [| by apply Hd]. destruct Hc' as [[l El] _]. cbn in El. intros m Hm. rewrite El. set_solver.
    + assert (grew S S2) by by eapply grew_trans. split; [by apply grew_grew_but | left; auto].
  - split; [by apply grew_grew_but | left; auto].
  - split; [by apply grew_grew_but | left; auto].
Qed.

(** Performs of started jobs, one after another in any order: the record, its job
    id and fence, and how the perform's attempts go. *)
Fixpoint performs (jobs : list (krecord * string * string * (bool * list bool * nat * nat))) : kio unit :=
  match jobs with
  | [] => mret tt
  | (r, id, fence, (first, more, patience, tries)) :: jobs =>
      _ ← perform e r id fence first more patience tries;
      performs jobs
  end.

(** A job is accounted for: in flight before the batch, in the working set, or
    a record of it was delivered. *)
Definition kept (S : system) (id : string) : Prop :=
  safe S id ∨ ∃ r, extractJobID (kr_value r) = id ∧ delivered r (k_log S).

Lemma delivered_mono r S S' : (∃ l, k_log S' = k_log S ++ l) → delivered r (k_log S) → delivered r (k_log S').
Proof.
  intros [l El] (S1 & S2 & out & Ep & Hd). exists S1, S2, out. split; [done |].
  eapply durable_mono; [| exact Hd]. intros m Hm. rewrite El. set_solver.
Qed.

Lemma performs_keep jobs : ∀ S,
  Forall (λ x, x.1.2 = extractJobID (kr_value x.1.1)) jobs.*1 →
  (∃ l, k_log (performs jobs S).1 = k_log S ++ l) ∧ ∀ id, kept S id → kept (performs jobs S).1 id.
Proof.
  induction jobs as [|[[[r id] fence] [[[first more] patience] tries]] jobs IH]; intros S Hf.
  { cbn. split; [exists []; by rewrite app_nil_r | done]. }
  apply Forall_cons in Hf as [Eid Hf]. cbn in Eid. cbn [performs]. unfold mbind, kio_bind.
  destruct (perform_ok r id fence first more patience tries S) as [Hb Hx].
  destruct (perform e r id fence first more patience tries S) as [S1 p]. cbn [fst snd] in *.
  destruct (IH S1 Hf) as [Hl Hk]. split.
  - destruct Hb as [[l E] _], Hl as [l' E']. exists (l ++ l'). by rewrite E', E, app_assoc.
  - intros i Hi. apply Hk. destruct Hi as [Hi|(r' & Er & Hd)].
    + destruct Hx as [[Hg _]|[Hd _]]; [left; by eapply safe_mono |]. destruct (decide (i = id)) as [->|Hne].
      * right. by exists r.
      * left. destruct Hi as [|Ho]; [by left | right; by apply Hb].
    + right. exists r'. split; [done |]. eapply delivered_mono; [| exact Hd]. apply Hb.
Qed.
End dispatch.

Section claims.
Context `{EntryCodec} `{CompletionLaws} `{JsonLaws} `{TimeText}.

(** C19: SuperFetch loses no job.  [DispatchClaimsAndAcks] marks a prefix of the
    poll batch for commit and rewinds the fetch position to the rest; a perform is
    started only for a job the working set owns.  However those performs then go,
    in whatever order, number and with whatever failures of Redis, of the broker
    and of the processor, every record whose offset was given up is accounted for:
    a record without a job id was processed and its outcome is in Kafka; any other
    record's job was in flight before the batch, or is still in the working set
    for reclaim, or was processed and its outcome is in Kafka. *)
Theorem superfetch_keeps_every_job (e : SuperFetchExecutor) ws cfg ends env batch d S S' d' jobs :
  wired e ws cfg ends →
  DispatchClaimsAndAcks e true env batch d S = (S', Done d') →
  ds_started d = [] → jobs.*1 ⊆ ds_started d' →
  let recs := batch.*1 in
  let S'' := (performs e jobs S').1 in
  ∃ k, ds_calls d' = ds_calls d ++ (MarkCommit <$> take k recs) ++ rewindUndispatched (drop k recs) ∧
    (∀ x, x ∈ ds_started d' → owned (w_db (sys S')) x.1.2) ∧
    ∀ r, r ∈ take k recs →
      extractJobID (kr_value r) = ""%string ∧ delivered e cfg r (k_log S'') ∨
      kept e cfg (ds_inFlight d) S'' (extractJobID (kr_value r)).
Proof.
  intros W E Es Hjobs recs S''. unfold DispatchClaimsAndAcks in E. rewrite (wi_work _ _ _ _ W) in E. cbn [negb] in E.
  assert (pending e cfg (ds_inFlight d) recs d [] 0 d S) as P0.
  { split; [done | by rewrite app_nil_r | by apply Forall_nil | done | by intros; left; left |].
    exists []. rewrite app_nil_r. split; [done | by apply Forall_nil]. }
  pose proof (loop_ok e ws cfg ends W (ds_inFlight d) recs d env batch 0 [] 0 d S P0 eq_refl eq_refl) as Hloop.
  fold recs in E. rewrite E in Hloop. destruct (Hloop d' eq_refl) as (k & l & Ec & Hs & El & Hl). clear Hloop P0.
  cbn [fst] in *. rewrite Es in El. cbn in El. rewrite El in *.
  exists k. split; [exact Ec |]. rewrite Forall_forall in Hl. split; [intros x Hx; by apply Hl |].
  destruct (performs_keep e ws cfg ends W (ds_inFlight d) jobs S') as [Hlog Hk].
  { apply Forall_forall. intros x Hx. apply Hl. by apply Hjobs. }
  intros r Hr. rewrite Forall_forall in Hs. destruct (Hs r Hr) as [[Ee Hd]|Hsafe].
  - left. split; [done |]. eapply delivered_mono; [exact W | exact Hlog | exact Hd].
  - right. apply Hk. by left.
Qed.
End claims.

(** The lease outlasts the time a dead consumer may go unnoticed: its heartbeat's
    time to live, the grace for orphans and a sweep of the reclaimer. *)
Lemma lease_outlasts_sweep cfg work id process apply :
  let e := NewSuperFetchExecutor cfg work id process apply in
  sf_HeartbeatTTL e + sf_OrphanGrace e + sec 30 <= sf_LeaseTTL e ∧ 0 < sf_OrphanGrace e ∧ 0 < sf_HeartbeatTTL e.
Proof.
  unfold NewSuperFetchExecutor, LivenessTTLDuration, DefaultOrphanGrace, sec, second. cbn.
  repeat case_match; rewrite ?Z.leb_le, ?Z.leb_gt, ?Z.ltb_lt, ?Z.ltb_ge in *; lia.
Qed.

(** ** A concrete batch *)

From S2P Require Import Concrete JobProps.

(** An entry is stored as its owner and its fence. *)
#[export] Instance owner_codec : EntryCodec := {|
  json_marshal e := Ok (ConsumerID e +:+ " " +:+ Fence e)%string;
  json_unmarshal _ := Bad "not read back";
  cjson_decode s :=
    match String.index 0 " " s with
    | Some n => Some (LuaObj (Some (String.substring 0 n s))
                        (Some (String.substring (S n) (String.length s) s)) None)
    | None => None
    end;
  gzip p := Ok p;
  gunzip z := Ok z;
  jval := string;
  jtrue := "true";
  jstring s := s;
  json_object _ := Bad "not read back";
  json_encode _ := Bad "not written"
|}.

#[export] Instance send_order : Completion := {| completion l := l |}.
#[export] Instance send_order_laws : CompletionLaws.
Proof. by split. Qed.

Definition demo_process : process_fn := λ raw src,
  mret (Done (with_event committed (Some (mkEvent "b" "j" "success" "W" "t" (Src_Topic src)
                                            (Src_Partition src) (Src_Offset src) 1)), None)).

Definition demo_executor : SuperFetchExecutor :=
  mkSF (Some (mkWorkStore "dlt")) "pod-a" (sec 300) (sec 180) (sec 20) (sec 60) 4 2 demo_process
    (applyJobSideEffects demo_cfg kafka (λ _, false)).

Definition demo_raw (id : string) : string := object_text {["job_id" := JStr id]}.

Definition demo_around : around := mkAround true ∅ ∅ false.

(** Two jobs, a second delivery of the first, and a record without a job id. *)
Definition demo_poll : list (krecord * around) :=
  (λ x : Z * string, (mkK "jobs" 0 x.1 (demo_raw x.2), demo_around)) <$> [(3, "a"); (4, "b"); (5, "a"); (6, "")]%string.

(** The third round trip to Redis is lost; the broker refuses one message. *)
Definition demo_system : system := System (World empty_redis [Fine; Fine; Lost 0 0]) [] [Refused].

Definition demo_env (_ : nat) : claim_env :=
  mkEnv (λ i, ("fence-" +:+ itoa (Z.of_nat i))%string) [] ("2024-01-01T00:00:00Z"%string, 1704067200).

Lemma demo_wired : wired demo_executor (mkWorkStore "dlt") demo_cfg (λ _, false).
Proof. split; try done. intros raw src S. exists []. cbn. by rewrite app_nil_r. Qed.

Definition demo_dispatched : system * outcome dispatch :=
  DispatchClaimsAndAcks demo_executor true demo_env demo_poll (mkDispatchState ∅ [] []) demo_system.

Definition demo_jobs (d : dispatch) : list (krecord * string * string * (bool * list bool * nat * nat)) :=
  (λ x, (x, (true, [], 1, 1)%nat)) <$> take 1 (ds_started d).

Definition demo_state : dispatch :=
  match demo_dispatched.2 with Done d => d | Panic => mkDispatchState ∅ [] [] end.

Lemma superfetch_keeps_every_job_witness :
  let recs := demo_poll.*1 in
  let S'' := (performs demo_executor (demo_jobs demo_state) demo_dispatched.1).1 in
  length (demo_jobs demo_state) = 1%nat ∧
  ∃ k, ds_calls demo_state = [] ++ (MarkCommit <$> take k recs) ++ rewindUndispatched (drop k recs) ∧
    (∀ x, x ∈ ds_started demo_state → owned (w_db (sys demo_dispatched.1)) x.1.2) ∧
    ∀ r, r ∈ take k recs →
      extractJobID (kr_value r) = ""%string ∧ delivered demo_executor demo_cfg r (k_log S'') ∨
      kept demo_executor demo_cfg ∅ S'' (extractJobID (kr_value r)).
Proof.
  split; [vm_compute; reflexivity |].
  refine (superfetch_keeps_every_job demo_executor (mkWorkStore "dlt") demo_cfg (λ _, false) demo_env demo_poll
    (mkDispatchState ∅ [] []) demo_system demo_dispatched.1 demo_state (demo_jobs demo_state) demo_wired _ eq_refl _).
  - vm_compute. reflexivity.
  - intros x Hx. unfold demo_jobs in Hx. rewrite <- list_fmap_compose in Hx.
    apply list_elem_of_fmap in Hx as (y & -> & Hy). eapply elem_of_take in Hy as (i & Hy & _).
    by eapply list_elem_of_lookup_2.
Defined.
