(* ===== verification/Events.v ===== *)
(** The events consumer and the callbacks consumer: pkg/control/event and
    pkg/control/callback, with the callback message of pkg/protocol.

    A poll batch of completion events is applied to the ledger in one round trip;
    the batches it finishes, and those whose callback an earlier attempt left
    undispatched, give callback messages.  The callbacks consumer claims each
    message's callback (unless the ledger already did) and invokes it.  A context
    that ends is an argument, as in [Produce]. *)
From S2P Require Import Prelude Redis Client Kafka Protocol Fairness Ledger Store Control Job Produce.

(** ** Messages *)

Record CallbackMessage := mkCallback {
  Cb_BatchID : string; Cb_Outcome : string; Cb_TotalJobs : Z; Cb_CompletedCount : Z;
  Cb_FailedCount : Z; Cb_TouchedCount : Z; Cb_OnSuccess : string; Cb_OnComplete : string;
  Cb_Meta : option object; Cb_CallbackArgs : option object; Cb_FinishedAt : string;
  Cb_Reconciled : bool; Cb_Preclaimed : bool
}.

(** A time as the store writes it. *)
Definition clock_at `{TimeText} (now : Z) : clock := Clock (rfc3339_format now) (inject_Z now / inject_Z 1000000000)%Q.

Section messages.
Context `{Json}.

Definition DecodeJSONMap (raw : string) : option object :=
  if String.eqb raw "" then None
  else match unmarshal raw with Ok m => m | Bad _ => None end.

(** [omitempty] drops a zero value. *)
Definition omit_str (k v : string) (m : object) : object :=
  if String.eqb v "" then m else <[k := JStr v]> m.
Definition omit_int (k : string) (v : Z) (m : object) : object :=
  if v =? 0 then m else <[k := JNum (inject_Z v)]> m.
Definition omit_bool (k : string) (v : bool) (m : object) : object :=
  if v then <[k := JBool true]> m else m.
Definition omit_map (k : string) (v : option object) (m : object) : result object :=
  match v with
  | None => Ok m
  | Some x => if decide (x = ∅) then Ok m else t ← marshal x; Ok (<[k := JOther t]> m)
  end.

(** json.Marshal of a callback message. *)
Definition callback_json (cb : CallbackMessage) : result string :=
  let m : object := <["batch_id" := JStr (Cb_BatchID cb)]> (<["outcome" := JStr (Cb_Outcome cb)]>
    (<["total_jobs" := JNum (inject_Z (Cb_TotalJobs cb))]>
    (<["completed_count" := JNum (inject_Z (Cb_CompletedCount cb))]>
    (<["failed_count" := JNum (inject_Z (Cb_FailedCount cb))]>
    (<["finished_at" := JStr (Cb_FinishedAt cb)]> ∅))))) in
  let m := omit_int "touched_count" (Cb_TouchedCount cb) m in
  let m := omit_str "on_success" (Cb_OnSuccess cb) m in
  let m := omit_str "on_complete" (Cb_OnComplete cb) m in
  let m := omit_bool "reconciled" (Cb_Reconciled cb) m in
  let m := omit_bool "preclaimed" (Cb_Preclaimed cb) m in
  m ← omit_map "meta" (Cb_Meta cb) m;
  m ← omit_map "callback_args" (Cb_CallbackArgs cb) m;
  marshal m.

Definition opt_object (m : object) (k : string) : result (option object) :=
  v ← opt_map m k;
  match v with
  | Some (JOther t) => match unmarshal t with Ok o => Ok o | Bad _ => Bad typeError end
  | _ => Ok None
  end.

(** json.Unmarshal into a callback message. *)
Definition callback_of_object (m : object) : result CallbackMessage :=
  id ← opt_str m "batch_id"; outcome ← opt_str m "outcome"; total ← opt_int m "total_jobs";
  completed ← opt_int m "completed_count"; failed ← opt_int m "failed_count";
  touched ← opt_int m "touched_count"; succ ← opt_str m "on_success"; compl ← opt_str m "on_complete";
  meta ← opt_object m "meta"; args ← opt_object m "callback_args"; fin ← opt_str m "finished_at";
  rec ← opt_bool m "reconciled"; pre ← opt_bool m "preclaimed";
  mret (mkCallback (deref id) (deref outcome) (default 0 total) (default 0 completed)
          (default 0 failed) (default 0 touched) (deref succ) (deref compl) meta args (deref fin)
          (default false rec) (default false pre)).

Definition decode_callback (raw : string) : result CallbackMessage :=
  m ← unmarshal raw; callback_of_object (fields m).

(** json.Unmarshal into an event message. *)
Definition event_of_object (m : object) : result EventMessage :=
  batch ← opt_str m "batch_id"; job ← opt_str m "job_id"; status ← opt_str m "status";
  class ← opt_str m "worker_class"; at_ ← opt_str m "occurred_at"; topic ← opt_str m "src_topic";
  part ← opt_int32 m "src_partition"; off ← opt_int m "src_offset"; seq ← opt_int m "batch_seq";
  mret (mkEvent (deref batch) (deref job) (deref status) (deref class) (deref at_) (deref topic)
          (default 0 part) (default 0 off) (default 0 seq)).

Definition decode_event (raw : string) : result EventMessage :=
  m ← unmarshal raw; event_of_object (fields m).

(** ** The events consumer *)

Record EventProcessor := mkEventProcessor {
  ep_Cfg : Daemon; ep_Store : RedisStore; ep_Producer : Producer; ep_NodeID : string
}.

(** The event as the ledger takes it; an event that cannot count is skipped. *)
Definition completion_event (raw : string) : option CompletionEvent :=
  match decode_event raw with
  | Bad _ => None
  | Ok ev =>
      if String.eqb (Ev_BatchID ev) "" || (Ev_BatchSeq ev <=? 0) then None
      else Some (mkCompletion (Ev_BatchID ev) (Ev_JobID ev) (Ev_Status ev) (Ev_BatchSeq ev))
  end.

Definition finished_callback (now : clock) (fin : FinishedBatch) : option CallbackMessage :=
  match fb_Batch fin with
  | None => None
  | Some b =>
      let finishedAt := if String.eqb (FinishedAt b) "" then c_rfc3339 now else FinishedAt b in
      Some (mkCallback (ID b) (fb_Outcome fin) (TotalJobs b) (CompletedCount b) (FailedCount b)
              (TouchedCount b) (OnSuccess b) (OnComplete b) None (DecodeJSONMap (CallbackArgs b))
              finishedAt false true)
  end.

Definition replay_callback (b : Batch) : CallbackMessage :=
  mkCallback (ID b) (Status b) (TotalJobs b) (CompletedCount b) (FailedCount b) (TouchedCount b)
    (OnSuccess b) (OnComplete b) None (DecodeJSONMap (CallbackArgs b)) (FinishedAt b) false false.

(** What the context does after a failed attempt. *)
Inductive waited := Waited | EndedBefore | EndedAsleep.

Definition callbackProduceAttempts : nat := 3.

(** [more] attempts may follow this one. *)
Fixpoint produce_attempts (p : EventProcessor) (wait : nat -> waited) (key raw : string)
    (more attempt : nat) : kio error :=
  err ← pr_Produce (ep_Producer p) (CallbacksTopic (ep_Cfg p)) key raw;
  match err, more with
  | None, _ => mret None
  | Some e, O => mret (Some e)
  | Some e, S more =>
      match wait attempt with
      | EndedBefore => mret (Some e)
      | EndedAsleep => mret (Some "context canceled"%string)
      | Waited => produce_attempts p wait key raw more (S attempt)
      end
  end.

Definition produceOneCallback (p : EventProcessor) (wait : nat -> waited) (cb : CallbackMessage)
    : kio error :=
  match callback_json cb with
  | Bad e => mret (Some ("callback marshal: " +:+ e)%string)
  | Ok raw => produce_attempts p wait (Cb_BatchID cb) raw (callbackProduceAttempts - 1) 1
  end.

Definition dead_callback (cb : CallbackMessage) (cause : string) : object :=
  let dlt : object := <["batch_id" := JStr (Cb_BatchID cb)]>
    (<["dlt_type" := JStr "callback_produce_failed"]> (<["outcome" := JStr (Cb_Outcome cb)]>
    (<["on_success" := JStr (Cb_OnSuccess cb)]> (<["on_complete" := JStr (Cb_OnComplete cb)]>
    (<["dlt_error_message" := JStr cause]> ∅))))) in
  match callback_json cb with
  | Ok raw => <["dlt_raw_payload" := JStr raw]> dlt
  | Bad _ => dlt
  end.

(** Best effort: an error is only logged. *)
Definition deadLetterCallback (p : EventProcessor) (cb : CallbackMessage) (cause : string) : kio unit :=
  if String.eqb (DeadLetterTopic (ep_Cfg p)) "" then mret tt
  else match marshal (dead_callback cb cause) with
       | Bad _ => mret tt
       | Ok raw =>
           _ ← pr_Produce (ep_Producer p) (DeadLetterTopic (ep_Cfg p)) (Cb_BatchID cb) raw;
           mret tt
       end.

Fixpoint recordCallbackRunners (p : EventProcessor) (cbs : list CallbackMessage) : kio unit :=
  if String.eqb (ep_NodeID p) "" then mret tt
  else match cbs with
       | [] => mret tt
       | cb :: cbs =>
           (if String.eqb (Cb_BatchID cb) "" then mret tt
            else _ ← redis_io (RecordCallbackRunner (Some (ep_Store p)) (Cb_BatchID cb) (ep_NodeID p));
                 mret tt);;
           recordCallbackRunners p cbs
       end.

(** One callback on its own: produced, or dead-lettered after the attempts. *)
Definition produce_or_park (p : EventProcessor) (wait : nat -> waited) (cb : CallbackMessage) : kio unit :=
  err ← produceOneCallback p wait cb;
  match err with
  | Some e => deadLetterCallback p cb e
  | None => recordCallbackRunners p [cb]
  end.

(** The callbacks and the outcomes of their records, one by one. *)
Fixpoint settle_callbacks (p : EventProcessor) (wait : nat -> waited)
    (cbs : list CallbackMessage) (outs : list error) : kio unit :=
  match cbs, outs with
  | cb :: cbs, out :: outs =>
      match out with
      | None => recordCallbackRunners p [cb]
      | Some _ => produce_or_park p wait cb
      end;;
      settle_callbacks p wait cbs outs
  | _, _ => mret tt
  end.

Fixpoint produce_or_park_all (p : EventProcessor) (wait : nat -> waited)
    (cbs : list CallbackMessage) : kio unit :=
  match cbs with
  | [] => mret tt
  | cb :: cbs => produce_or_park p wait cb;; produce_or_park_all p wait cbs
  end.

(** The records of the callbacks, or nothing when one cannot be encoded. *)
Fixpoint callback_records (topic : string) (cbs : list CallbackMessage) : option (list message) :=
  match cbs with
  | [] => Some []
  | cb :: cbs =>
      match callback_json cb with
      | Bad _ => None
      | Ok raw => cons (Msg topic (Cb_BatchID cb) raw) <$> callback_records topic cbs
      end
  end.

(** The batch produce of a producer without outcomes per record. *)
Definition produce_legacy (p : EventProcessor) (wait : nat -> waited) (cbs : list CallbackMessage)
    : kio unit :=
  match pr_Many (ep_Producer p), callback_records (CallbacksTopic (ep_Cfg p)) cbs with
  | Some many, Some records =>
      err ← many records;
      match err with
      | None => recordCallbackRunners p cbs
      | Some _ => produce_or_park_all p wait cbs
      end
  | _, _ => produce_or_park_all p wait cbs
  end.

(** Always returns nil. *)
Definition produceCallbacks (p : EventProcessor) (wait : nat -> waited) (cbs : list CallbackMessage)
    : kio error :=
  (if decide (length cbs = 0%nat) then mret tt
   else match pr_ManySync (ep_Producer p), callback_records (CallbacksTopic (ep_Cfg p)) cbs with
        | Some many, Some records =>
            r ← many records;
            if decide (length r.1 = length cbs) then settle_callbacks p wait cbs r.1
            else produce_legacy p wait cbs
        | _, _ => produce_legacy p wait cbs
        end);;
  mret None.

(** A poll batch of events: the callbacks it gives and the error. *)
Definition ProcessBatch (p : EventProcessor) (wait : nat -> waited) (now : clock)
    (missing : list bool) (rawEvents : list string) : kio (list CallbackMessage * error) :=
  let events := omap completion_event rawEvents in
  if decide (length events = 0%nat) then mret ([], None)
  else
    r ← redis_io (Completions.RecordCompletionsBatch (ep_Store p) now missing events);
    match r with
    | (_, Some e) => mret ([], Some e)
    | (result, None) =>
        let cbs := omap (finished_callback now) (Finished result) in
        f ← redis_io (FindReplayCallbackBatches (Some (ep_Store p)) (Replays result));
        match f with
        | (_, Some e) => mret (cbs, Some e)
        | (replayBatches, None) =>
            let cbs := cbs ++ (replay_callback <$> replayBatches) in
            err ← produceCallbacks p wait cbs;
            mret (cbs, err)
        end
    end.

(** ** The callbacks consumer *)

Record CallbackProcessor := mkCallbackProcessor {
  cp_Store : option RedisStore; cp_Invoker : option (CallbackMessage -> kio error);
  cp_DLT : option (string -> string -> kio error); cp_NodeID : string
}.

Definition claimKind (outcome : string) : string :=
  if String.eqb outcome "success" || String.eqb outcome "success_only" then "success" else "complete".

Definition ProduceDLT (prod : Producer) (topic key payload : string) : kio error :=
  if String.eqb topic "" then mret None else pr_Produce prod topic key payload.

Definition malformed_callback (raw err : string) : object :=
  <["dlt_type" := JStr "malformed_callback"]> (<["dlt_raw_payload" := JStr raw]>
  (<["dlt_error_class" := JStr "json.SyntaxError"]> (<["dlt_error_message" := JStr err]> ∅))).

Definition callback_error (cb : CallbackMessage) (err : string) : object :=
  <["batch_id" := JStr (Cb_BatchID cb)]> (<["dlt_type" := JStr "callback_error"]>
  (<["dlt_error_message" := JStr err]> (<["on_success" := JStr (Cb_OnSuccess cb)]>
  (<["on_complete" := JStr (Cb_OnComplete cb)]> (<["outcome" := JStr (Cb_Outcome cb)]> ∅))))).

Definition to_dlt (p : CallbackProcessor) (key : string) (dlt : object) : kio unit :=
  match cp_DLT p with
  | None => mret tt
  | Some produce => _ ← produce key (marshal_or_empty dlt); mret tt
  end.

(** The callback's own claim; the second part says whether it may go on. *)
Definition claim_callback (p : CallbackProcessor) (now : clock) (cb : CallbackMessage)
    : kio (outcome (bool * error)) :=
  if Cb_Preclaimed cb then mret (Done (true, None))
  else match cp_Store p with
       | None => mret Panic
       | Some _ =>
           r ← redis_io (ClaimCallback now (Cb_BatchID cb) (cp_NodeID p) [claimKind (Cb_Outcome cb)]);
           mret (Done r)
       end.

(** The invoke marker: false when an earlier attempt invoked the callback. *)
Definition invoke_guard (p : CallbackProcessor) (now : clock) (cb : CallbackMessage) : kio bool :=
  match cp_Store p with
  | None => mret true
  | Some s =>
      r ← redis_io (MarkCallbackInvoked (Some s) now (Cb_BatchID cb) (claimKind (Cb_Outcome cb)));
      mret (match r with (_, Some _) => true | (won, None) => won end)
  end.

Definition invoke_callback (p : CallbackProcessor) (now : clock) (cb : CallbackMessage) : kio unit :=
  _ ← redis_io (RecordCallbackRunner (cp_Store p) (Cb_BatchID cb) (cp_NodeID p));
  match cp_Invoker p with
  | None => mret tt
  | Some invoke =>
      go ← invoke_guard p now cb;
      if (negb go : bool) then mret tt
      else
        err ← invoke cb;
        match err with
        | Some e => to_dlt p (Cb_BatchID cb) (callback_error cb e)
        | None => mret tt
        end
  end.

(** Whether to commit, and the error. *)
Definition ProcessCallback (p : CallbackProcessor) (now : clock) (raw : string)
    : kio (outcome (bool * error)) :=
  match decode_callback raw with
  | Bad e => to_dlt p "malformed_callback" (malformed_callback raw e);; mret (Done (true, None))
  | Ok cb =>
      if String.eqb (Cb_BatchID cb) "" then mret (Done (true, None))
      else
        c ← claim_callback p now cb;
        match c with
        | Panic => mret Panic
        | Done (_, Some e) => mret (Done (false, Some e))
        | Done (false, None) => mret (Done (true, None))
        | Done (true, None) => invoke_callback p now cb;; mret (Done (true, None))
        end
  end.

Definition callbackMethod (cb : CallbackMessage) : string :=
  if (String.eqb (Cb_Outcome cb) "success" || String.eqb (Cb_Outcome cb) "success_only")
     && negb (String.eqb (Cb_OnSuccess cb) "") then "on_success" else "on_complete".

Definition callbackClass (cb : CallbackMessage) (method : string) : string :=
  if String.eqb method "on_success" then Cb_OnSuccess cb else Cb_OnComplete cb.

(** The handlers the daemon gives to the partition consumers: a batch is
    acknowledged as a whole. *)
Definition events_handler (p : EventProcessor) (wait : nat -> waited) (now : clock)
    (missing : list bool) (raws : list string) : kio error :=
  if decide (length raws = 0%nat) then mret None
  else r ← ProcessBatch p wait now missing raws; mret r.2.

Fixpoint callbacks_handler (p : CallbackProcessor) (now : clock) (raws : list string)
    : kio (outcome error) :=
  match raws with
  | [] => mret (Done None)
  | raw :: raws =>
      r ← ProcessCallback p now raw;
      match r with
      | Panic => mret Panic
      | Done (_, Some e) => mret (Done (Some e))
      | Done (false, None) => mret (Done (Some "callback process defer commit"%string))
      | Done (true, None) => callbacks_handler p now raws
      end
  end.
End messages.
