(* ===== verification/EventsProps.v ===== *)
(** The properties of the events and callbacks consumers: every callback gives
    one message, and is invoked at most once. *)
From S2P Require Import Prelude Redis Client Kafka Protocol Fairness Ledger Store StoreProps Control Job Produce ProduceProps Events.

(** ** Delivery of callbacks *)

Section delivery.
Context `{CompletionLaws} `{JsonLaws}.
Context (p : EventProcessor) (Hprod : ep_Producer p = kafka).

Lemma callback_json_ok cb : ∃ raw, callback_json cb = Ok raw.
Proof.
  assert (∀ k v m, ∃ m', omit_map k v m = Ok m') as Ho.
  { intros k [x|] m; cbn; [| by eexists]. destruct (decide _); [by eexists |].
    destruct (marshal_ok x) as [s E]. unfold mbind, result_bind. rewrite E. by eexists. }
  unfold callback_json. unfold mbind, result_bind.
  destruct (Ho "meta" (Cb_Meta cb) (omit_bool "preclaimed" (Cb_Preclaimed cb) (omit_bool "reconciled" (Cb_Reconciled cb)
    (omit_str "on_complete" (Cb_OnComplete cb) (omit_str "on_success" (Cb_OnSuccess cb) (omit_int "touched_count"
    (Cb_TouchedCount cb) (<["batch_id" := JStr (Cb_BatchID cb)]> (<["outcome" := JStr (Cb_Outcome cb)]>
    (<["total_jobs" := JNum (inject_Z (Cb_TotalJobs cb))]> (<["completed_count" := JNum (inject_Z (Cb_CompletedCount cb))]>
    (<["failed_count" := JNum (inject_Z (Cb_FailedCount cb))]> (<["finished_at" := JStr (Cb_FinishedAt cb)]> ∅)))))))))))) as [m1 ->].
  destruct (Ho "callback_args" (Cb_CallbackArgs cb) m1) as [m2 ->]. apply marshal_ok.
Qed.

Definition encoded (cb : CallbackMessage) : string :=
  match callback_json cb with Ok raw => raw | Bad _ => "" end.

(** The message of a callback, and the dead letter that stands for it. *)
Definition callback_message (cb : CallbackMessage) : message :=
  Msg (CallbacksTopic (ep_Cfg p)) (Cb_BatchID cb) (encoded cb).

Definition dead_message (cb : CallbackMessage) : message :=
  Msg (DeadLetterTopic (ep_Cfg p)) (Cb_BatchID cb) (marshal_or_empty (dead_callback cb produceError)).

Lemma json_encoded cb : callback_json cb = Ok (encoded cb).
Proof. unfold encoded. by destruct (callback_json_ok cb) as [raw ->]. Qed.

(** The broker answers every produce, and never refuses four in a row. *)
Definition patient (net : list delivery) : Prop :=
  Unknown ∉ net ∧ ∀ k, take 4 (drop k net) ≠ replicate 4 Refused.

Lemma patient_tail net : patient net → patient (tail net).
Proof.
  intros [Hu Hp]. destruct net as [|d net]; [done |]. split; [set_solver |]. intros k. apply (Hp (S k)).
Qed.

Lemma Produce_patient t k m S :
  patient (k_net S) →
  ∃ b, Produce t k m S =
    (System (sys S) (k_log S ++ if b : bool then [Msg t k m] else []) (tail (k_net S)),
     if b then None else Some produceError) ∧
    b = match k_net S with Refused :: _ => false | _ => true end.
Proof.
  intros [Hu _]. unfold Produce. destruct (k_net S) as [|[] net]; cbn.
  - exists true. done.
  - exists true. done.
  - exists false. rewrite app_nil_r. done.
  - set_solver.
Qed.

Lemma recordCallbackRunners_log cbs : ∀ S,
  k_log (recordCallbackRunners p cbs S).1 = k_log S ∧ k_net (recordCallbackRunners p cbs S).1 = k_net S.
Proof.
  induction cbs as [|cb cbs IH]; intros S; cbn [recordCallbackRunners]; destruct (String.eqb _ _); try done.
  unfold mbind, kio_bind. destruct (String.eqb (Cb_BatchID cb) ""); [exact (IH S) |].
  unfold redis_io. destruct (RecordCallbackRunner (Some (ep_Store p)) (Cb_BatchID cb) (ep_NodeID p) (sys S)) as [w e].
  exact (IH (System w (k_log S) (k_net S))).
Qed.

(** A callback that is produced on its own gives one message. *)
Lemma produce_or_park_one cb S :
  patient (k_net S) → DeadLetterTopic (ep_Cfg p) ≠ ""%string →
  let S' := (produce_or_park p (λ _, Waited) cb S).1 in
  (k_log S' = k_log S ++ [callback_message cb] ∨ k_log S' = k_log S ++ [dead_message cb]) ∧ patient (k_net S').
Proof.
  intros Hp Hd. unfold produce_or_park, produceOneCallback. rewrite json_encoded.
  unfold deadLetterCallback. destruct (String.eqb_spec (DeadLetterTopic (ep_Cfg p)) ""); [done |].
  cbn [produce_attempts callbackProduceAttempts Nat.sub]. rewrite Hprod. cbn [kafka pr_Produce]. unfold mbind, kio_bind.
  assert (∀ S, (let S' := (recordCallbackRunners p [cb] S).1 in k_log S' = k_log S ∧ k_net S' = k_net S)) as Hr
    by (intros; apply recordCallbackRunners_log).
  set (raw := encoded cb). destruct S as [w log net]. cbn in Hp.
  assert (∀ log' net', patient net' → log' = log ++ [callback_message cb] →
    let S' := (recordCallbackRunners p [cb] (System w log' net')).1 in
    (k_log S' = log ++ [callback_message cb] ∨ k_log S' = log ++ [dead_message cb]) ∧ patient (k_net S')) as Hok.
  { intros log' net' Hn ->. cbv zeta. destruct (Hr (System w (log ++ [callback_message cb]) net')) as [-> ->]. auto. }
  do 3 (match goal with |- context [Produce ?t ?k ?m (System w ?l ?n)] =>
    let b := fresh "b" in let E := fresh "E" in
    destruct (Produce_patient t k m (System w l n)) as (b & -> & E);
      [repeat apply patient_tail; exact Hp | destruct b; [apply Hok; [repeat apply patient_tail; exact Hp | rewrite ?app_nil_r; done] |]] end;
    cbn [k_log k_net sys]; rewrite ?app_nil_r).
  destruct (marshal_ok (dead_callback cb produceError)) as [d Ed].
  unfold mret, kio_ret. cbv beta iota zeta. rewrite Ed.
  match goal with |- context [Produce ?t ?k ?m (System w ?l ?n)] =>
    destruct (Produce_patient t k m (System w l n)) as (b & -> & Eb); [repeat apply patient_tail; exact Hp |] end.
  cbn in *. destruct b.
  - split; [| repeat apply patient_tail; exact Hp]. right. unfold dead_message, marshal_or_empty. by rewrite Ed.
  - exfalso. destruct Hp as [_ Hp]. apply (Hp 0%nat). cbn.
    destruct net as [|[] [|[] [|[] [|[] net]]]]; cbn in *; done.
Qed.

Lemma produce_each_patient ms : ∀ S,
  patient (k_net S) →
  ∃ bs, length bs = length ms ∧
    produce_each ms S = (System (sys S) (k_log S ++ mjoin (zip_with (λ m b, if b : bool then [m] else []) ms bs))
                           (drop (length ms) (k_net S)), (λ b : bool, if b then None else Some produceError) <$> bs) ∧
    patient (drop (length ms) (k_net S)).
Proof.
  induction ms as [|[t k m] ms IH]; intros S Hp.
  { exists []. cbn. rewrite app_nil_r. by destruct S. }
  cbn [produce_each]. unfold mbind, kio_bind. cbn [m_topic m_key m_payload].
  destruct (Produce_patient t k m S Hp) as (b & -> & _).
  match goal with |- context [produce_each ms ?S1] => destruct (IH S1) as (bs & Hl & -> & Hp') end.
  { by apply patient_tail. }
  cbn in Hp' |- *. exists (b :: bs). cbn. split; [by rewrite Hl |].
  assert (drop (length ms) (tail (k_net S)) = drop (Datatypes.S (length ms)) (k_net S)) as Ed
    by (destruct (k_net S); [apply drop_nil | done]).
  rewrite Ed in *. rewrite <- app_assoc. by destruct b.
Qed.

(** The message that stands for a callback. *)
Definition stands_for (m : message) (cb : CallbackMessage) : Prop :=
  m = callback_message cb ∨ m = dead_message cb.

Lemma settle_patient cbs : ∀ bs S,
  length bs = length cbs → patient (k_net S) → DeadLetterTopic (ep_Cfg p) ≠ ""%string →
  let S' := (settle_callbacks p (λ _, Waited) cbs ((λ b : bool, if b then None else Some produceError) <$> bs) S).1 in
  ∃ l ms, k_log S' = k_log S ++ l ∧ Forall2 stands_for ms cbs ∧
    mjoin (zip_with (λ cb b, if b : bool then [callback_message cb] else []) cbs bs) ++ l ≡ₚ ms.
Proof.
  induction cbs as [|cb cbs IH]; intros [|b bs] S Hl Hp Hd; try done.
  { exists [], []. cbn. rewrite app_nil_r. split; [done |]. split; [constructor | done]. }
  injection Hl as Hl. cbn [fmap list_fmap settle_callbacks]. unfold mbind, kio_bind. destruct b.
  - destruct (recordCallbackRunners_log [cb] S) as [El En].
    destruct (recordCallbackRunners p [cb] S) as [S1 []]. cbn [fst] in *. rewrite <- En in Hp. rewrite <- El.
    destruct (IH bs S1 Hl Hp Hd) as (l & ms & E & Hf & Hperm). exists l, (callback_message cb :: ms).
    split; [exact E |]. split; [constructor; [by left | done] |]. cbn. by f_equiv.
  - destruct (produce_or_park_one cb S Hp Hd) as [El Hp'].
    destruct (produce_or_park p _ cb S) as [S1 []]. cbn [fst] in *.
    destruct (IH bs S1 Hl Hp' Hd) as (l & ms & E & Hf & Hperm). cbn.
    assert (∃ m, k_log S1 = k_log S ++ [m] ∧ stands_for m cb) as (m & Em & Hm).
    { destruct El as [El|El]; (eexists; split; [exact El |]); [by left | by right]. }
    exists (m :: l), (m :: ms). split; [rewrite E, Em, <- app_assoc; done |]. split; [by constructor |].
    rewrite <- Permutation_middle. by f_equiv.
Qed.

Lemma callback_records_ok cbs :
  callback_records (CallbacksTopic (ep_Cfg p)) cbs = Some (callback_message <$> cbs).
Proof. induction cbs as [|cb cbs IH]; cbn; [done |]. rewrite json_encoded. by rewrite IH. Qed.

(** C21: a finished batch's callback gives exactly one message.  With the daemon's
    producer and a broker that answers every produce and never refuses four in a
    row, [produceCallbacks] returns no error, and what it adds to Kafka is, up to
    order, one message per callback: the callback on the callbacks topic, or a
    dead letter that carries it.  In particular no callback is lost, and none of
    the preclaimed ones, which the consumer does not deduplicate, is sent twice. *)
Theorem callbacks_delivered_once cbs S :
  patient (k_net S) → DeadLetterTopic (ep_Cfg p) ≠ ""%string →
  let r := produceCallbacks p (λ _, Waited) cbs S in
  r.2 = None ∧
  ∃ l ms, k_log r.1 = k_log S ++ l ∧ l ≡ₚ ms ∧ Forall2 stands_for ms cbs.
Proof.
  intros Hp Hd. unfold produceCallbacks, mbind, kio_bind. destruct (decide _) as [E|_].
  { destruct cbs; [| done]. cbn. split; [done |]. exists [], []. rewrite app_nil_r. split; [done |]. split; [done | constructor]. }
  rewrite callback_records_ok, Hprod. cbn [kafka pr_ManySync].
  destruct (ProduceManySync_each (callback_message <$> cbs) S) as [E1 E2].
  destruct (produce_each_patient (callback_message <$> cbs) S Hp) as (bs & Hl & E & Hp').
  rewrite E in E1, E2. destruct (ProduceManySync _ S) as [S1 [outs first]]. cbn [fst snd] in *. subst S1 outs.
  rewrite length_fmap in Hl. rewrite decide_True by (by rewrite length_fmap).
  match goal with |- context [settle_callbacks p _ cbs _ ?S1] =>
    destruct (settle_patient cbs bs S1 Hl Hp' Hd) as (l & ms & El & Hf & Hperm);
    destruct (settle_callbacks p _ cbs _ S1) as [S2 []] end.
  unfold mret, kio_ret. cbn [fst snd k_log] in *. split; [done |]. eexists _, ms.
  split; [by rewrite El, <- app_assoc |].
  split; [| done]. rewrite <- Hperm. f_equiv. clear. revert bs.
  induction cbs as [|cb cbs IH]; intros [|b bs]; cbn; [done.. |]. by f_equiv.
Qed.
End delivery.

(** ** Invocations *)

(** An invoker that leaves a trace of its calls, whatever it answers. *)
Definition invocation (cb : CallbackMessage) : message :=
  Msg "invoked" (Cb_BatchID cb) (claimKind (Cb_Outcome cb)).

Definition recording (answer : CallbackMessage → error) (cb : CallbackMessage) : kio error :=
  λ S, (System (sys S) (k_log S ++ [invocation cb]) (k_net S), answer cb).

Definition invocations (id kind : string) (S : system) : nat :=
  length (filter (λ m, m = Msg "invoked" id kind) (k_log S)).

Section invoke.
Context `{Json}.
Context (p : CallbackProcessor) (answer : CallbackMessage → error) (dlt : string).
Context (Hinv : cp_Invoker p = Some (recording answer)).
Context (Hdlt : cp_DLT p = Some (ProduceDLT (mkProducer Produce None None) dlt)) (Hname : dlt ≠ "invoked"%string).
Context (st : RedisStore) (Hst : cp_Store p = Some st).
Context (id kind : string).

(** The hash of the batch is there; it has the invoke marker of [kind]. *)
Definition present (db : redis) : Prop := ∃ h, get_hash db (batchKey id) = Some h ∧ h ≠ ∅.
Definition marked (db : redis) : Prop :=
  ∃ h v, get_hash db (batchKey id) = Some h ∧ h !! invoked_field kind = Some v.

Lemma marked_present db : marked db → present db.
Proof. intros (h & v & E & Hv). exists h. split; [done |]. intros ->. by rewrite lookup_empty in Hv. Qed.

(** A script that keeps the hash and the marker. *)
Definition retains {R A} (m : script R A) : Prop :=
  ∀ s, (present s → present (m s).1) ∧ (marked s → marked (m s).1).

Lemma retains_ret {R A} (a : A) : retains (mret a : script R A).
Proof. by intros s. Qed.
Lemma retains_return {R A} (r : R) : retains (lua_return r : script R A).
Proof. by intros s. Qed.
Lemma retains_EXISTS {R} k : retains (EXISTS k : script R bool).
Proof. by intros s. Qed.

Lemma retains_bind {R A B} (m : script R A) (k : A → script R B) :
  retains m → (∀ a, retains (k a)) → retains (m ≫= k).
Proof.
  intros Hm Hk s. unfold mbind, script_bind. destruct (Hm s) as [H1 H2].
  destruct (m s) as [s' [a|r|e]]; cbn in *; [| by split..]. destruct (Hk a s'). auto.
Qed.

Lemma retains_when {R} b (m : script R unit) : retains m → retains (when b m).
Proof. intros Hm. destruct b; [done | apply retains_ret]. Qed.

(** A write of a hash of some batch that only adds fields. *)
Lemma retains_put id' h h' s :
  get_hash s (batchKey id') = Some h → h' ≠ ∅ →
  (∀ v, h !! invoked_field kind = Some v → is_Some (h' !! invoked_field kind)) →
  let s' := put_hash (batchKey id') h' s in (present s → present s') ∧ (marked s → marked s').
Proof.
  intros E Hne Hk s'. destruct (decide (batchKey id' = batchKey id)) as [Ek|Ek].
  - unfold s'. rewrite Ek in *. split.
    + intros _. exists h'. split; [apply get_hash_put_hash | done].
    + intros (h0 & v & E0 & Hv). rewrite E in E0. injection E0 as <-. destruct (Hk v Hv) as [v' Hv'].
      exists h', v'. split; [apply get_hash_put_hash | done].
  - assert (get_hash s' (batchKey id) = get_hash s (batchKey id)) as Es.
    { unfold get_hash, s'. by rewrite kdb_put_hash_ne. }
    unfold present, marked. by rewrite Es.
Qed.

Lemma retains_HSET {R} id' f v : retains (HSET (batchKey id') f v : script R unit).
Proof.
  intros s. unfold HSET, lift. destruct (get_hash s (batchKey id')) as [h|] eqn:E; [| by split].
  apply (retains_put id' h); [done | apply insert_non_empty |]. intros x Hx.
  destruct (decide (f = invoked_field kind)) as [->|Hne]; [by rewrite lookup_insert_eq |].
  rewrite lookup_insert_ne by done. by eexists.
Qed.

Lemma retains_HSETNX {R} id' f v : retains (HSETNX (batchKey id') f v : script R bool).
Proof.
  intros s. unfold HSETNX, lift. destruct (get_hash s (batchKey id')) as [h|] eqn:E; [| by split].
  destruct (h !! f) eqn:Ef; [by split |]. apply (retains_put id' h); [done | apply insert_non_empty |].
  intros x Hx. rewrite lookup_insert_ne by congruence. by eexists.
Qed.

Lemma retains_ZREM {R} m : retains (ZREM doneIndex m : script R bool).
Proof.
  intros s. unfold ZREM, lift. destruct (get_zset s doneIndex) as [z|]; [| by split]. cbn.
  unfold present, marked, get_hash. rewrite kdb_put_zset_ne by discriminate. by split.
Qed.
Hint Resolve retains_ret retains_return retains_EXISTS retains_when retains_HSET retains_HSETNX retains_ZREM : keeps.

Lemma retains_claim id' now node kind' :
  retains (claimCallback (batchKey id') doneIndex now node id' kind').
Proof.
  unfold claimCallback. apply retains_bind; [auto with keeps | intros ex].
  apply retains_bind; [auto with keeps | intros []]. apply retains_bind; [auto with keeps | intros won].
  apply retains_bind; [| auto with keeps]. apply retains_when. apply retains_bind; [auto with keeps | intros []].
  apply retains_bind; [auto with keeps | intros b]. apply retains_bind; auto with keeps.
Qed.

Lemma retains_runner id' node : retains (recordCallbackRunner (batchKey id') node).
Proof.
  unfold recordCallbackRunner. apply retains_bind; [auto with keeps | intros ex].
  apply retains_bind; [auto with keeps | intros []]. apply retains_bind; [auto with keeps | intros []].
  apply retains_bind; auto with keeps.
Qed.

Lemma retains_invoke id' f now : retains (invokeCallback (batchKey id') f now).
Proof.
  unfold invokeCallback. apply retains_bind; [auto with keeps | intros ex].
  apply retains_bind; [auto with keeps | intros []]. apply retains_bind; auto with keeps.
Qed.

Lemma retains_call {R} (m : script R unit) db :
  retains m → (present db → present (call m db).1) ∧ (marked db → marked (call m db).1).
Proof.
  intros Hm. specialize (Hm db). unfold call, run. by destruct (m db) as [s' []].
Qed.

(** How often the callback may still be invoked. *)
Definition left_ (S : system) : nat :=
  match get_hash (w_db (sys S)) (batchKey id) with
  | Some h => if h !! invoked_field kind then 0 else 1
  | None => 1
  end.

Lemma left_marked S S' : (marked (w_db (sys S)) → marked (w_db (sys S'))) → (left_ S' <= left_ S)%nat.
Proof.
  intros Hm. unfold left_ at 2. destruct (get_hash (w_db (sys S)) (batchKey id)) as [h|] eqn:E.
  2: { unfold left_. repeat case_match; lia. }
  destruct (h !! invoked_field kind) as [v|] eqn:Ev.
  - destruct Hm as (h' & v' & E' & Hv'); [by exists h, v |]. unfold left_. by rewrite E', Hv'.
  - unfold left_. repeat case_match; lia.
Qed.

(** A step that uses up what it invokes. *)
Definition careful (S S' : system) : Prop :=
  quiet (sys S) → present (w_db (sys S)) →
  quiet (sys S') ∧ present (w_db (sys S')) ∧
  (invocations id kind S' + left_ S' <= invocations id kind S + left_ S)%nat.

Lemma careful_refl S : careful S S.
Proof. intros Hq Hp. split_and!; [done | done | lia]. Qed.

Lemma careful_trans S1 S2 S3 : careful S1 S2 → careful S2 S3 → careful S1 S3.
Proof.
  intros H12 H23 Hq Hp. destruct (H12 Hq Hp) as (Hq2 & Hp2 & Hn2). destruct (H23 Hq2 Hp2) as (Hq3 & Hp3 & Hn3).
  split_and!; [done | done | lia].
Qed.

(** A round trip whose script retains the marker. *)
Lemma careful_call {R A} (m : script R unit) (k : result R → io A) S :
  retains m → (∀ r w, (k r w).1 = w) → careful S (redis_io (do (call m) ≫= k) S).1.
Proof.
  intros Hm Hk Hq Hp. unfold redis_io, mbind, io_bind.
  destruct (do_quiet (call m) (sys S) Hq) as (net & -> & Hn). destruct (retains_call m (w_db (sys S)) Hm) as [H1 H2].
  specialize (Hk (call m (w_db (sys S))).2 (World (call m (w_db (sys S))).1 net)).
  destruct (k _ _) as [w a]. cbn in Hk |- *. subst w. cbn. split_and!; [done | auto |].
  apply Nat.add_le_mono; [done |]. by apply left_marked.
Qed.

Lemma careful_log S m net :
  m_topic m ≠ "invoked"%string → careful S (System (sys S) (k_log S ++ [m]) net).
Proof.
  intros Hm Hq Hp. split_and!; [done | done |]. unfold invocations. cbn.
  rewrite filter_app, filter_cons, filter_nil, decide_False by (intros ->; done). rewrite app_nil_r. done.
Qed.

Lemma careful_dlt key o S : careful S (to_dlt p key o S).1.
Proof.
  unfold to_dlt. rewrite Hdlt. unfold ProduceDLT. destruct (String.eqb dlt ""); [apply careful_refl |].
  unfold mbind, kio_bind. cbn [pr_Produce]. unfold Produce.
  destruct (k_net S) as [|[] net]; cbn; try (by apply careful_log). intros Hq Hp. split_and!; [done | done |].
  unfold invocations, left_. done.
Qed.

Lemma careful_claim now cb S : careful S (claim_callback p now cb S).1.
Proof.
  unfold claim_callback. destruct (Cb_Preclaimed cb); [apply careful_refl |]. rewrite Hst.
  unfold mbind at 1, kio_bind at 1.
  assert (careful S (redis_io (ClaimCallback now (Cb_BatchID cb) (cp_NodeID p) [claimKind (Cb_Outcome cb)]) S).1) as Hc.
  { unfold ClaimCallback. apply careful_call; [apply retains_claim |]. by intros [] w. }
  by destruct (redis_io _ S).
Qed.

Lemma careful_runner b node S :
  careful S (redis_io (RecordCallbackRunner (Some st) b node) S).1.
Proof.
  unfold RecordCallbackRunner. destruct (_ || _); [destruct S; apply careful_refl |].
  apply careful_call; [apply retains_runner |]. by intros [] w.
Qed.

(** The guard answers for the marker. *)
Lemma guard_ok now cb S :
  quiet (sys S) → present (w_db (sys S)) → Cb_BatchID cb ≠ ""%string →
  let r := invoke_guard p now cb S in
  careful S r.1 ∧ k_log r.1 = k_log S ∧
  (Cb_BatchID cb = id → claimKind (Cb_Outcome cb) = kind → r.2 = true → left_ S = 1%nat ∧ left_ r.1 = 0%nat).
Proof.
  intros Hq Hp Hid. unfold invoke_guard. rewrite Hst. unfold mbind at 1, kio_bind at 1.
  unfold MarkCallbackInvoked. apply String.eqb_neq in Hid as ->.
  fold (invoked_field (claimKind (Cb_Outcome cb))).
  set (c := call (invokeCallback _ _ _)).
  assert (careful S (redis_io (do c ≫= λ r, match r with Bad e => mret (true, Some e) | Ok n => mret (n =? 1, None) end) S).1) as Hc.
  { apply careful_call; [apply retains_invoke |]. by intros [] w. }
  revert Hc. unfold redis_io, mbind, io_bind, kio_bind. cbv zeta. destruct (do_quiet c (sys S) Hq) as (net & -> & Hn).
  destruct (c (w_db (sys S))) as [db' r] eqn:Ec. cbn [fst snd].
  intros Hc. destruct Hp as (h & Eh & Hne). destruct r as [n|err]; unfold mret, io_ret, kio_ret in Hc |- *;
    cbn in Hc |- *; (split; [done |]; split; [done |]); intros Ei Ek Hr; subst c;
    rewrite Ei, Ek, (invoke_script _ _ _ _ h Eh Hne) in Ec; unfold left_; cbn; rewrite Eh;
    destruct (h !! invoked_field kind) as [v|] eqn:Ev; try discriminate Ec.
  - injection Ec as <- <-. done.
  - injection Ec as <- <-. rewrite get_hash_put_hash, lookup_insert_eq. done.
Qed.

Lemma careful_invoke now cb S : Cb_BatchID cb ≠ ""%string → careful S (invoke_callback p now cb S).1.
Proof.
  intros Hid. unfold invoke_callback. rewrite Hst, Hinv. unfold mbind, kio_bind.
  pose proof (careful_runner (Cb_BatchID cb) (cp_NodeID p) S) as Hr.
  destruct (redis_io _ S) as [S1 x]. cbn [fst] in Hr. eapply careful_trans; [exact Hr |].
  clear Hr. intros Hq Hp. destruct (guard_ok now cb S1 Hq Hp Hid) as (Hg & El & Hk).
  destruct (invoke_guard p now cb S1) as [S2 []]; cbn [fst snd negb] in *; [| by apply Hg].
  destruct (Hg Hq Hp) as (Hq2 & Hp2 & Hn2).
  set (S3 := System (sys S2) (k_log S2 ++ [invocation cb]) (k_net S2)).
  assert (invocations id kind S3 + left_ S3 <= invocations id kind S1 + left_ S1)%nat as Hn3.
  { change (left_ S3) with (left_ S2). unfold invocations at 1, S3. cbn.
    rewrite filter_app, filter_cons, filter_nil, El, length_app.
    destruct (decide (invocation cb = _)) as [Ei|Ei].
    - injection Ei as Ei Ek. destruct (Hk Ei Ek eq_refl) as [-> ->]. unfold invocations. cbn. lia.
    - unfold invocations in Hn2 |- *. rewrite El in Hn2. cbn. lia. }
  unfold recording. fold S3. destruct (answer cb) as [e|]; cbv beta iota.
  - destruct (careful_dlt (Cb_BatchID cb) (callback_error cb e) S3) as (H1 & H2 & H3); [done | done |].
    split_and!; [done | done | by etrans].
  - split_and!; [done | done | done].
Qed.

Lemma careful_process now raw S : careful S (ProcessCallback p now raw S).1.
Proof.
  unfold ProcessCallback. destruct (decode_callback raw) as [cb|e].
  - destruct (String.eqb_spec (Cb_BatchID cb) ""); [apply careful_refl |]. unfold mbind at 1, kio_bind at 1.
    pose proof (careful_claim now cb S) as Hc. destruct (claim_callback p now cb S) as [S1 [[[] [err|]]|]]; try done.
    eapply careful_trans; [exact Hc |]. pose proof (careful_invoke now cb S1 ltac:(done)) as Hi.
    unfold mbind, kio_bind. by destruct (invoke_callback p now cb S1).
  - unfold mbind, kio_bind. pose proof (careful_dlt "malformed_callback" (malformed_callback raw e) S) as Hd.
    by destruct (to_dlt p _ _ S).
Qed.

(** Messages as they are delivered and delivered again. *)
Fixpoint deliveries (l : list (clock * string)) : kio unit :=
  match l with
  | [] => mret tt
  | (now, raw) :: l => _ ← ProcessCallback p now raw; deliveries l
  end.

(** C22: a callback is invoked at most once while Redis answers (an error of
    MarkCallbackInvoked is logged and the callback runs anyway, so a redelivery
    after one may run it again).  However often messages of the callbacks topic are
    delivered, in whatever order, preclaimed or not, and
    whatever the invoker answers, the callback of one kind of a batch that is in
    Redis runs at most once, and not at all when its marker is already set. *)
Theorem callback_invoked_at_most_once l S h :
  quiet (sys S) → get_hash (w_db (sys S)) (batchKey id) = Some h → h ≠ ∅ →
  (invocations id kind (deliveries l S).1 <=
   invocations id kind S + if h !! invoked_field kind then 0 else 1)%nat.
Proof.
  intros Hq Eh Hne. assert (careful S (deliveries l S).1) as Hc.
  { clear Hq Eh Hne. revert S. induction l as [|[now raw] l IH]; intros S; [apply careful_refl |].
    cbn [deliveries]. unfold mbind, kio_bind. pose proof (careful_process now raw S) as Hp.
    destruct (ProcessCallback p now raw S) as [S1 r]. eapply careful_trans; [exact Hp | apply IH]. }
  destruct Hc as (_ & _ & Hn); [done | by exists h |]. unfold left_ in Hn at 2. rewrite Eh in Hn. lia.
Qed.
End invoke.

(** ** Concrete runs *)

From S2P Require Import Concrete.

Definition demo_daemon : Daemon :=
  mkDaemon false 3 "retry" ∅ ["short"%string] false 0 "events" "callbacks" "dlt" 3 0.

#[export] Instance in_order : Completion := {| completion l := l |}.
#[export] Instance in_order_laws : CompletionLaws.
Proof. by split. Qed.

Definition demo_ep : EventProcessor := mkEventProcessor demo_daemon demo_store kafka "node-1".

Definition demo_cb (id : string) : CallbackMessage :=
  mkCallback id "success" 1 1 0 0 "S" "" None None "t" false true.

(** The batch's first record is refused, and its second four times in all: the
    second callback ends as a dead letter. *)
Definition demo_broker : list delivery := [Refused; Refused; Acked; Refused; Refused; Refused; Acked].

Lemma demo_patient : patient demo_broker.
Proof.
  split; [by intros H; repeat (apply elem_of_cons in H as [H|H]; [done |]); apply elem_of_nil in H |].
  intros k. do 7 (destruct k as [|k]; [done |]). cbn. by rewrite drop_nil.
Qed.

Lemma callbacks_delivered_once_witness :
  let S := System (World empty_redis []) [] demo_broker in
  let r := produceCallbacks demo_ep (λ _, Waited) [demo_cb "b1"; demo_cb "b2"] S in
  m_topic <$> k_log r.1 = ["callbacks"; "dlt"]%string ∧
  r.2 = None ∧ ∃ l ms, k_log r.1 = k_log S ++ l ∧ l ≡ₚ ms ∧ Forall2 (stands_for demo_ep) ms [demo_cb "b1"; demo_cb "b2"].
Proof.
  split; [vm_compute; reflexivity |].
  refine (callbacks_delivered_once demo_ep eq_refl [demo_cb "b1"; demo_cb "b2"]
    (System (World empty_redis []) [] demo_broker) demo_patient _).
  discriminate.
Defined.

Definition demo_cp : CallbackProcessor :=
  mkCallbackProcessor (Some demo_store) (Some (recording (λ _, Some "boom"%string)))
    (Some (ProduceDLT (mkProducer Produce None None) "dlt")) "node-1".

Definition demo_hash : redis := put_hash (batchKey "b1") {["status" := "success"]} empty_redis.

(** The message delivered three times. *)
Lemma callback_invoked_at_most_once_witness :
  let S := System (World demo_hash []) [] [] in
  let l := replicate 3 (demo_clock, encoded (demo_cb "b1")) in
  (invocations "b1" "success" (deliveries demo_cp l S).1 <= 1)%nat ∧
  invocations "b1" "success" (deliveries demo_cp l S).1 = 1%nat.
Proof.
  split; [| vm_compute; reflexivity].
  refine (callback_invoked_at_most_once demo_cp (λ _, Some "boom"%string) "dlt" eq_refl eq_refl _ demo_store eq_refl
    "b1" "success" (replicate 3 (demo_clock, encoded (demo_cb "b1"))) (System (World demo_hash []) [] [])
    {["status" := "success"]} _ _ _); [discriminate | constructor | apply get_hash_put_hash | done].
Defined.

(** ** A callback that is never produced *)

(** A sealed batch of one job, and the completion event of that job. *)
Definition demo_sealed : redis :=
  (CreateBatch (λ _ : unit, inl ""%string) (Some demo_store) demo_clock
     (mkCreate "b1" 1 "S" "" None None "" "" true) (World empty_redis [])).1.(w_db).

Definition demo_event : string :=
  object_text (event_object (mkEvent "b1" "j1" "success" "W" "t" "jobs" 0 7 1)).

(** The first delivery finishes the batch, but the round trip that reads it back
    is lost; then Redis answers again. *)
Definition demo_first : system * error :=
  events_handler demo_ep (λ _, Waited) demo_clock [] [demo_event]
    (System (World demo_sealed [Fine; Lost 0 0]) [] []).

Definition demo_again : system * error :=
  events_handler demo_ep (λ _, Waited) demo_clock [] [demo_event] demo_first.1.

(** The ledger stamps a finished batch's callback as dispatched before anything
    is produced.  When the batch cannot be read back, the handler fails and the
    event is delivered again; by then it is a duplicate, the replay leaves the
    stamped batch out, and so does the reconciler: the batch is finished, and its
    callback is on no topic. *)
Theorem callback_lost_after_failed_read :
  demo_first.2 = Some networkError ∧ demo_again.2 = None ∧ k_log demo_again.1 = [] ∧
  (DoneBatchesWithoutCallback (Some demo_store) (1800000000#1) (sys demo_again.1)).2 = ([], None) ∧
  (match get_hash (w_db (sys demo_again.1)) (batchKey "b1") with Some h => h !! "status" | None => None end)
    = Some "success"%string.
Proof. vm_compute. auto. Qed.
