(* ===== verification/Interleave.v ===== *)
(** Programs that run beside each other on a shared state.

    A program is a tree of calls; a call is one atomic step on the shared state,
    or never returns.  [run] executes a program alone, a pool executes several
    programs with steps of their surroundings in between, and a program that is
    never picked again stands for a process that crashed.  [wps] is a weakest
    precondition under interference: before every call the surroundings may move
    the state along a preorder, and every call must keep an invariant. *)
From S2P Require Import Prelude.

Inductive prog (Op : Type -> Type) (A : Type) : Type :=
| Ret (a : A)
| Call {X : Type} (o : Op X) (k : X -> prog Op A).
Arguments Ret {Op A} a.
Arguments Call {Op A X} o k.

Fixpoint prog_bind_ {Op A B} (k : A -> prog Op B) (m : prog Op A) : prog Op B :=
  match m with
  | Ret a => k a
  | Call o c => Call o (fun x => prog_bind_ k (c x))
  end.

#[export] Instance prog_ret Op : MRet (prog Op) := fun A a => Ret a.
#[export] Instance prog_bind Op : MBind (prog Op) := fun A B k m => prog_bind_ k m.

Definition perform {Op : Type -> Type} {X : Type} (o : Op X) : prog Op X := Call o (fun x => Ret x).

Section semantics.
Context {Op : Type -> Type} {St : Type} (exec : ∀ X, Op X -> St -> option (St * X)).
Arguments exec {X} _ _.

Fixpoint run_prog {A} (p : prog Op A) (s : St) : option (St * A) :=
  match p with
  | Ret a => Some (s, a)
  | Call o k => match exec o s with Some (s, x) => run_prog (k x) s | None => None end
  end.

Lemma run_prog_bind {A B} (m : prog Op A) (k : A -> prog Op B) s :
  run_prog (m ≫= k) s = match run_prog m s with Some (s, a) => run_prog (k a) s | None => None end.
Proof.
  unfold mbind, prog_bind. revert s.
  induction m as [a|X o c IH]; intros s; cbn; [done |]. destruct (exec o s) as [[s' x]|]; auto.
Qed.

Lemma run_prog_perform {X} (o : Op X) s : run_prog (perform o) s = exec o s.
Proof. cbn. by destruct (exec o s) as [[]|]. Qed.

Context (env : St -> St -> Prop) (starts : prog Op unit -> Prop).

(** One step of a pool of programs. *)
Inductive pool_step : St * list (prog Op unit) -> St * list (prog Op unit) -> Prop :=
| step_call X (o : Op X) k l1 l2 s s' x :
    exec o s = Some (s', x) -> pool_step (s, l1 ++ Call o k :: l2) (s', l1 ++ k x :: l2)
| step_env s s' l : env s s' -> pool_step (s, l) (s', l)
| step_start p s l : starts p -> pool_step (s, l) (s, p :: l).

(** A program of the pool may run to its end. *)
Lemma run_prog_steps (p : prog Op unit) s s' l1 l2 :
  run_prog p s = Some (s', tt) → rtc pool_step (s, l1 ++ p :: l2) (s', l1 ++ Ret tt :: l2).
Proof.
  revert s. induction p as [[]|X o k IH]; intros s E; cbn in E; [injection E as ->; reflexivity |].
  destruct (exec o s) as [[s1 x]|] eqn:Ex; [| done]. eapply rtc_l; [by apply step_call | by apply IH].
Qed.

Section logic.
Context (inv : St -> Prop) (ext : relation St) {ext_pre : PreOrder ext}.

Fixpoint wps {A} (p : prog Op A) (s : St) (Q : St -> A -> Prop) : Prop :=
  match p with
  | Ret a => Q s a
  | Call o k => ∀ s1, ext s s1 -> inv s1 -> ∀ s2 x, exec o s1 = Some (s2, x) -> inv s2 ∧ ext s1 s2 ∧ wps (k x) s2 Q
  end.

(** What is known survives steps of the surroundings. *)
Definition stable {A} (Q : St -> A -> Prop) : Prop := ∀ s s' a, ext s s' -> Q s a -> Q s' a.

Lemma wps_ext {A} (p : prog Op A) s s' Q : stable Q → ext s s' → wps p s Q → wps p s' Q.
Proof.
  intros HQ He. destruct p as [a|X o k]; cbn; [by apply HQ |].
  intros H s1 H1. apply H. by etrans.
Qed.

Lemma wps_mono {A} (p : prog Op A) s (Q Q' : St → A → Prop) :
  (∀ s' a, ext s s' → Q s' a → Q' s' a) → wps p s Q → wps p s Q'.
Proof.
  revert s. induction p as [a|X o k IH]; intros s HQ; cbn; [apply HQ; reflexivity |].
  intros H s1 H1 Hi s2 x Ex. destruct (H s1 H1 Hi s2 x Ex) as (Hi2 & H12 & Hk). repeat split; [done | done |].
  apply IH; [| done]. intros s' a Hs'. apply HQ. by etrans; [| etrans].
Qed.

Lemma wps_bind {A B} (p : prog Op A) (k : A → prog Op B) s (Q : St → B → Prop) :
  wps p s (λ s' a, wps (k a) s' Q) → wps (p ≫= k) s Q.
Proof.
  unfold mbind, prog_bind. revert s. induction p as [a|X o c IH]; intros s; cbn; [done |].
  intros H s1 H1 Hi s2 x Ex. destruct (H s1 H1 Hi s2 x Ex) as (Hi2 & H12 & Hk). eauto.
Qed.

(** [p] establishes [R], after which [k] goes on. *)
Lemma wps_then {A B} (p : prog Op A) (k : A → prog Op B) s (R : St → A → Prop) (Q : St → B → Prop) :
  wps p s R → (∀ s' a, ext s s' → R s' a → wps (k a) s' Q) → wps (p ≫= k) s Q.
Proof. intros Hp Hk. apply wps_bind. by eapply wps_mono. Qed.

Lemma wps_perform {X} (o : Op X) s (Q : St → X → Prop) :
  (∀ s1, ext s s1 → inv s1 → ∀ s2 x, exec o s1 = Some (s2, x) → inv s2 ∧ ext s1 s2 ∧ Q s2 x) →
  wps (perform o) s Q.
Proof. done. Qed.

(** A program that runs alone. *)
Lemma wps_run {A} (p : prog Op A) s Q s' a :
  inv s → wps p s Q → run_prog p s = Some (s', a) → inv s' ∧ ext s s' ∧ Q s' a.
Proof.
  revert s. induction p as [b|X o k IH]; intros s Hi; cbn; [by intros HQ [= -> ->]; repeat split |].
  intros H. destruct (exec o s) as [[s1 x]|] eqn:Ex; [| done].
  destruct (H s ltac:(reflexivity) Hi s1 x Ex) as (Hi1 & H1 & Hk). intros E.
  destruct (IH x s1 Hi1 Hk E) as (? & ? & ?). repeat split; [done | by etrans | done].
Qed.

(** Every state a pool reaches is in the invariant. *)
Definition pool_ok (c : St * list (prog Op unit)) : Prop :=
  inv c.1 ∧ ∀ p, p ∈ c.2 → wps p c.1 (λ _ _, True).

Lemma pool_ok_step c c' :
  (∀ s s', env s s' → inv s → inv s' ∧ ext s s') →
  (∀ p, starts p → ∀ s, inv s → wps p s (λ _ _, True)) →
  pool_step c c' → pool_ok c → pool_ok c'.
Proof.
  intros Henv Hst Hs [Hi Hp]. assert (@stable unit (λ _ _, True)) as Htt by done. destruct Hs as [X o k l1 l2 s s' x Ex|s s' l He|p s l Hp'].
  - cbn in *. destruct (Hp (Call o k) ltac:(apply elem_of_app; right; left) s ltac:(reflexivity) Hi s' x Ex) as (Hi' & Hx & Hk).
    split; [done |]. cbn. intros q [Hq|[->|Hq]%elem_of_cons]%elem_of_app; [| done |];
      (eapply wps_ext; [done | done |]; apply Hp; set_solver).
  - destruct (Henv s s' He Hi) as [Hi' Hx]. split; [done |]. cbn. intros q Hq. eapply wps_ext; [done | done | by apply Hp].
  - split; [done |]. cbn in *. intros q [->|Hq]%elem_of_cons; auto.
Qed.

Lemma pool_ok_steps c c' :
  (∀ s s', env s s' → inv s → inv s' ∧ ext s s') →
  (∀ p, starts p → ∀ s, inv s → wps p s (λ _ _, True)) →
  rtc pool_step c c' → pool_ok c → pool_ok c'.
Proof. intros Henv Hst Hr. induction Hr; eauto using pool_ok_step. Qed.
End logic.
End semantics.
