(* ===== verification/Sql.v ===== *)
(** What the stores on MySQL see of the database connection: a statement, or a
    transaction as a whole, takes effect and answers, fails without effect, or
    takes effect while its answer is lost. *)
From S2P Require Import Prelude Client.

Inductive sql_fault := SqlFine | SqlFails | SqlLost.

Definition sqlError : string := "mysql: connection lost".

(** The effect of a statement on the tables, and its answer. *)
Definition sql_answer {D A} (f : sql_fault) (stmt : D -> D * A) (d : D) : D * result A :=
  match f with
  | SqlFails => (d, Bad sqlError)
  | SqlLost => ((stmt d).1, Bad sqlError)
  | SqlFine => ((stmt d).1, Ok (stmt d).2)
  end.
