(* ===== verification/Calendar.v ===== *)
(** Civil dates and time zones, as Go's time package computes them.

    Instants are seconds since the Unix epoch.  A location is the list of its
    offset changes, as the time zone database gives them; [time.LoadLocation]
    is not modelled, so a theorem about a zone says which one. *)
From S2P Require Import Prelude.

(** ** Civil dates *)

(** Days from 1 January of year 1 to 1 January of year [y]. *)
Definition year_start (y : Z) : Z :=
  365 * (y - 1) + (y - 1) / 4 - (y - 1) / 100 + (y - 1) / 400.

Definition leap (y : Z) : bool :=
  ((y mod 4 =? 0) && negb (y mod 100 =? 0)) || (y mod 400 =? 0).

Definition year_of (n : Z) : Z :=
  let y := 400 * n / 146097 + 1 in
  if n <? year_start y then y - 1 else if year_start (y + 1) <=? n then y + 1 else y.

(** Days of the year before a month; 13 stands for the next January. *)
Definition month_start (lp : bool) (m : Z) : Z :=
  (if lp && (2 <? m) then 1 else 0) +
  nth (Z.to_nat (m - 1)) [0; 31; 59; 90; 120; 151; 181; 212; 243; 273; 304; 334; 365] 365.

Fixpoint find_month (lp : bool) (yd : Z) (m : Z) (more : nat) : Z :=
  match more with
  | O => m
  | S more => if yd <? month_start lp (m + 1) then m else find_month lp yd (m + 1) more
  end.

Definition month_of (lp : bool) (yd : Z) : Z := find_month lp yd 1 11.

Record date := mkDate { d_year : Z; d_month : Z; d_day : Z }.

Definition date_of (n : Z) : date :=
  let y := year_of n in
  let yd := n - year_start y in
  let m := month_of (leap y) yd in
  mkDate y m (yd - month_start (leap y) m + 1).

(** The day number of a date whose month and day may be out of range. *)
Definition day_number (y m d : Z) : Z :=
  let y' := y + (m - 1) / 12 in
  let m' := (m - 1) mod 12 + 1 in
  year_start y' + month_start (leap y') m' + (d - 1).

(** The Unix epoch's day number; 1 January of year 1 is a Monday. *)
Definition epoch : Z := 719162.

Definition weekday (n : Z) : Z := (n + 1) mod 7.

(** ** Locations *)

(** The offset before the first change, then the changes in order. *)
Record location := mkLocation { l_first : Z; l_changes : list (Z * Z) }.

Definition UTC : location := mkLocation 0 [].

(** The offset at an instant and the bounds of the period it holds in. *)
Fixpoint lookup_from (off : Z) (start : option Z) (changes : list (Z * Z)) (sec : Z)
    : Z * option Z * option Z :=
  match changes with
  | [] => (off, start, None)
  | (at_, off') :: changes =>
      if sec <? at_ then (off, start, Some at_) else lookup_from off' (Some at_) changes sec
  end.

Definition lookup_zone (l : location) (sec : Z) : Z * option Z * option Z :=
  lookup_from (l_first l) None (l_changes l) sec.

Definition offset_at (l : location) (sec : Z) : Z := (lookup_zone l sec).1.1.

(** ** Times in a location *)

Definition day_of (l : location) (t : Z) : Z := (t + offset_at l t) / 86400 + epoch.
Definition second_of_day (l : location) (t : Z) : Z := (t + offset_at l t) mod 86400.
Definition Year (l : location) (t : Z) : Z := d_year (date_of (day_of l t)).
Definition Month (l : location) (t : Z) : Z := d_month (date_of (day_of l t)).
Definition Day (l : location) (t : Z) : Z := d_day (date_of (day_of l t)).
Definition Weekday (l : location) (t : Z) : Z := weekday (day_of l t).
Definition Hour (l : location) (t : Z) : Z := second_of_day l t / 3600.
Definition Minute (l : location) (t : Z) : Z := second_of_day l t mod 3600 / 60.
Definition Second (l : location) (t : Z) : Z := second_of_day l t mod 60.

(** time.Date: the offset is looked up at the local reading taken as UTC, and
    again when the result is not in the period found. *)
Definition Date (y m d hh mm ss : Z) (l : location) : Z :=
  let unix := (day_number y m d - epoch) * 86400 + hh * 3600 + mm * 60 + ss in
  let '(off, start, end_) := lookup_zone l unix in
  if off =? 0 then unix
  else
    let utc := unix - off in
    let inside := match start with Some s => s <=? utc | None => true end
                  && match end_ with Some e => utc <? e | None => true end in
    unix - (if inside then off else offset_at l utc).

Definition AddDate (years months days : Z) (l : location) (t : Z) : Z :=
  Date (Year l t + years) (Month l t + months) (Day l t + days) (Hour l t) (Minute l t) (Second l t) l.

(** ** Dates are what they should be *)

Lemma year_length y : year_start (y + 1) = year_start y + 365 + (if leap y then 1 else 0).
Proof.
  unfold year_start, leap. destruct (Z.eqb_spec (y mod 4) 0), (Z.eqb_spec (y mod 100) 0), (Z.eqb_spec (y mod 400) 0);
    cbn; Z.to_euclidean_division_equations; lia.
Qed.

Lemma year_start_mono y y' : y <= y' → year_start y <= year_start y'.
Proof. intros Hy. unfold year_start. Z.to_euclidean_division_equations. lia. Qed.

Lemma year_start_lt y y' : y < y' → year_start (y + 1) <= year_start y'.
Proof. intros Hy. apply year_start_mono. lia. Qed.

Lemma year_of_spec n : year_start (year_of n) <= n < year_start (year_of n + 1).
Proof.
  unfold year_of. set (y := 400 * n / 146097 + 1).
  assert (year_start (y - 1) <= n < year_start (y + 2)) as Hy.
  { unfold year_start, y. Z.to_euclidean_division_equations. lia. }
  destruct (Z.ltb_spec n (year_start y)).
  - replace (y - 1 + 1) with y by lia. lia.
  - destruct (Z.leb_spec (year_start (y + 1)) n); [| lia]. replace (y + 1 + 1) with (y + 2) by lia. lia.
Qed.

Lemma year_of_unique n y : year_start y <= n < year_start (y + 1) → year_of n = y.
Proof.
  intros Hy. pose proof (year_of_spec n) as Hs. destruct (Z.lt_trichotomy (year_of n) y) as [Hl|[->|Hl]]; [| done |].
  - apply year_start_lt in Hl. lia.
  - apply year_start_lt in Hl. lia.
Qed.

Lemma month_cases m : 1 <= m <= 12 → m = 1 ∨ m = 2 ∨ m = 3 ∨ m = 4 ∨ m = 5 ∨ m = 6 ∨ m = 7 ∨ m = 8 ∨ m = 9 ∨ m = 10 ∨ m = 11 ∨ m = 12.
Proof. lia. Qed.

Lemma month_start_step lp m : 1 <= m <= 12 → month_start lp m + 28 <= month_start lp (m + 1).
Proof. intros [-> | [-> | [-> | [-> | [-> | [-> | [-> | [-> | [-> | [-> | [-> | ->]]]]]]]]]]]%month_cases; by destruct lp. Qed.

Lemma month_start_mono lp m m' : 1 <= m → m <= m' <= 13 → month_start lp m <= month_start lp m'.
Proof.
  intros Hm [Hl Hu]. revert Hu. pattern m'. apply Zlt_lower_bound_ind with (z := m); [| done].
  intros x IH Hx Hu. destruct (decide (x = m)) as [->|Hne]; [lia |].
  specialize (IH (x - 1) ltac:(lia) ltac:(lia)). pose proof (month_start_step lp (x - 1) ltac:(lia)) as Hs.
  replace (x - 1 + 1) with x in Hs by lia. lia.
Qed.

Lemma find_month_spec lp yd more : ∀ m,
  1 <= m → m + Z.of_nat more = 12 → month_start lp m <= yd < month_start lp 13 →
  let m' := find_month lp yd m more in
  1 <= m' <= 12 ∧ month_start lp m' <= yd < month_start lp (m' + 1).
Proof.
  induction more as [|more IH]; intros m Hm Hs Hy; cbn.
  - assert (m = 12) as -> by lia. by replace (12 + 1) with 13 by lia.
  - destruct (Z.ltb_spec yd (month_start lp (m + 1))); [lia |]. apply IH; lia.
Qed.

Lemma month_of_spec lp yd :
  0 <= yd < month_start lp 13 →
  1 <= month_of lp yd <= 12 ∧ month_start lp (month_of lp yd) <= yd < month_start lp (month_of lp yd + 1).
Proof. intros Hy. apply find_month_spec; [lia | done |]. by destruct lp. Qed.

Lemma month_of_unique lp yd m :
  1 <= m <= 12 → month_start lp m <= yd < month_start lp (m + 1) → month_of lp yd = m.
Proof.
  intros Hm Hy. assert (month_start lp 1 = 0) as H1 by by destruct lp.
  pose proof (month_start_mono lp 1 m ltac:(lia) ltac:(lia)). pose proof (month_start_mono lp (m + 1) 13 ltac:(lia) ltac:(lia)).
  destruct (month_of_spec lp yd ltac:(lia)) as [Hr Hs]. destruct (Z.lt_trichotomy (month_of lp yd) m) as [Hl|[Hl|Hl]]; [| done |].
  - pose proof (month_start_mono lp (month_of lp yd + 1) m ltac:(lia) ltac:(lia)). lia.
  - pose proof (month_start_mono lp (m + 1) (month_of lp yd) ltac:(lia) ltac:(lia)). lia.
Qed.

Lemma month_start_13 y : month_start (leap y) 13 = year_start (y + 1) - year_start y.
Proof.
  rewrite year_length. destruct (leap y); [change (month_start true 13) with 366 | change (month_start false 13) with 365]; lia.
Qed.

Lemma day_number_month y m d :
  1 <= m <= 12 → day_number y m d = year_start y + month_start (leap y) m + (d - 1).
Proof.
  intros Hm. unfold day_number. replace ((m - 1) / 12) with 0 by (rewrite Z.div_small; lia).
  rewrite Z.mod_small by lia. rewrite Z.add_0_r. by replace (m - 1 + 1) with m by lia.
Qed.

Lemma day_number_next_month y m :
  1 <= m <= 12 → day_number y (m + 1) 1 = year_start y + month_start (leap y) (m + 1).
Proof.
  intros Hm. destruct (decide (m = 12)) as [->|Hne].
  - change (12 + 1) with 13. rewrite month_start_13. unfold day_number.
    change ((13 - 1) / 12) with 1. change ((13 - 1) mod 12 + 1) with 1.
    assert (∀ b, month_start b 1 = 0) as -> by by intros []. lia.
  - rewrite day_number_month by lia. lia.
Qed.

(** A day number and the date it has. *)
Lemma date_of_spec n :
  let d := date_of n in
  1 <= d_month d <= 12 ∧ day_number (d_year d) (d_month d) 1 <= n < day_number (d_year d) (d_month d + 1) 1 ∧
  day_number (d_year d) (d_month d) (d_day d) = n ∧ 1 <= d_day d.
Proof.
  cbv zeta. unfold date_of. cbn [d_year d_month d_day]. set (y := year_of n). pose proof (year_of_spec n) as Hy. fold y in Hy.
  pose proof (month_start_13 y) as H13. destruct (month_of_spec (leap y) (n - year_start y) ltac:(lia)) as [Hr Hm].
  split; [done |]. rewrite day_number_next_month, !day_number_month by lia. lia.
Qed.

(** The days of a month all have its date. *)
Lemma date_of_month n y m :
  1 <= m <= 12 → day_number y m 1 <= n < day_number y (m + 1) 1 → d_year (date_of n) = y ∧ d_month (date_of n) = m.
Proof.
  intros Hm. rewrite day_number_next_month, day_number_month by lia. intros Hn.
  assert (month_start (leap y) 1 = 0) as H1 by by destruct (leap y).
  pose proof (month_start_mono (leap y) 1 m ltac:(lia) ltac:(lia)).
  pose proof (month_start_mono (leap y) (m + 1) 13 ltac:(lia) ltac:(lia)). pose proof (month_start_13 y).
  assert (year_of n = y) as Ey by (apply year_of_unique; lia). unfold date_of. rewrite Ey. cbn [d_year d_month d_day].
  split; [done |]. apply month_of_unique; lia.
Qed.

Lemma day_number_1 y m d : day_number y m d = day_number y m 1 + (d - 1).
Proof. unfold day_number. lia. Qed.

(** Years do not go back. *)
Lemma d_year_mono n n' : n <= n' → d_year (date_of n) <= d_year (date_of n').
Proof.
  intros Hn. unfold date_of. cbn [d_year]. pose proof (year_of_spec n). pose proof (year_of_spec n').
  destruct (Z.le_gt_cases (year_of n) (year_of n')) as [|Hl]; [done |]. apply year_start_lt in Hl. lia.
Qed.

Lemma d_year_bound n n' : d_year (date_of n') <= d_year (date_of n) + 5 → n' < n + 366 * 6.
Proof.
  unfold date_of. cbn [d_year]. intros Hy. pose proof (year_of_spec n). pose proof (year_of_spec n').
  pose proof (year_start_mono (year_of n' + 1) (year_of n + 6) ltac:(lia)) as Hm.
  assert (∀ y, year_start (y + 6) <= year_start y + 366 * 6) as Hb.
  { intros y. unfold year_start. Z.to_euclidean_division_equations. lia. }
  specialize (Hb (year_of n)). lia.
Qed.
