(* ===== verification/Cron.v ===== *)
(** Recurring schedules: the cron expressions and the planning of fires,
    pkg/cron/parser.go and schedule.go.

    Text is bytes; blanks and upper case are those of ASCII.  Loops without a
    bound of their own run under [iterate], which makes up to [2^n] steps and
    says so when it has not finished: a Go loop that never ends is one that is
    still running whatever [n] is.  Instants are nanoseconds since the epoch for
    the callers and seconds inside [Next], which only meets whole seconds. *)
From S2P Require Import Prelude Redis Client Calendar.

(** ** Bounded iteration *)

(** A step either goes on from a state or ends with a result. *)
Inductive progress (A B : Type) := Running (a : A) | Finished_ (b : B).
Arguments Running {A B} a.
Arguments Finished_ {A B} b.

Section iterate.
Context {A B : Type} (step : A -> progress A B).

(** Up to [2^n] steps. *)
Fixpoint iterate (n : nat) (a : A) : progress A B :=
  match n with
  | O => step a
  | S n => match iterate n a with Running a => iterate n a | Finished_ b => Finished_ b end
  end.
End iterate.

(** ** Strings *)

Definition is_space (c : Ascii.ascii) : bool :=
  let n := Ascii.N_of_ascii c in
  (N.eqb n 32 || (N.leb 9 n && N.leb n 13))%N.

Definition lower_char (c : Ascii.ascii) : Ascii.ascii :=
  let n := Ascii.N_of_ascii c in
  if (N.leb 65 n && N.leb n 90)%N then Ascii.ascii_of_N (n + 32) else c.

Fixpoint ToLower (s : string) : string :=
  match s with EmptyString => EmptyString | String c s => String (lower_char c) (ToLower s) end.

Fixpoint trim_left (s : string) : string :=
  match s with
  | String c r => if is_space c then trim_left r else s
  | EmptyString => s
  end.

Fixpoint trim_right (s : string) : string :=
  match s with
  | EmptyString => EmptyString
  | String c r =>
      match trim_right r with
      | EmptyString => if is_space c then EmptyString else String c EmptyString
      | r => String c r
      end
  end.

Definition TrimSpace (s : string) : string := trim_right (trim_left s).

(** strings.Split around a character, and strings.Fields around blanks. *)
Fixpoint split_on (sep : Ascii.ascii -> bool) (s : string) : list string :=
  match s with
  | EmptyString => [EmptyString]
  | String c s =>
      if sep c then EmptyString :: split_on sep s
      else match split_on sep s with
           | [] => [String c EmptyString]
           | w :: ws => String c w :: ws
           end
  end.

Definition Split (c : N) : string -> list string := split_on (is_char c).
Definition Fields (s : string) : list string :=
  filter (λ w, w ≠ EmptyString) (split_on is_space s).

(** The text before and after the first occurrence of a character. *)
Fixpoint cut (c : N) (s : string) : option (string * string) :=
  match s with
  | EmptyString => None
  | String x s =>
      if is_char c x then Some (EmptyString, s)
      else match cut c s with Some (a, b) => Some (String x a, b) | None => None end
  end.

(** strconv.Atoi *)
Definition Atoi (s : string) : option Z :=
  match parseInt s with (v, true) => Some v | _ => None end.

(** ** Expressions *)

Record Expr := mkExpr {
  e_minute : Z; e_hour : Z; e_dom : Z; e_month : Z; e_dow : Z; domStar : bool; dowStar : bool;
  e_raw : string
}.

Definition Raw (e : Expr) : string := e_raw e.

Definition monthNames : list (string * Z) :=
  [("jan", 1); ("feb", 2); ("mar", 3); ("apr", 4); ("may", 5); ("jun", 6); ("jul", 7); ("aug", 8);
   ("sep", 9); ("oct", 10); ("nov", 11); ("dec", 12)]%string.

Definition dowNames : list (string * Z) :=
  [("sun", 0); ("mon", 1); ("tue", 2); ("wed", 3); ("thu", 4); ("fri", 5); ("sat", 6)]%string.

Fixpoint assoc {V} (k : string) (l : list (string * V)) : option V :=
  match l with
  | [] => None
  | (k', v) :: l => if String.eqb k k' then Some v else assoc k l
  end.

Definition macros : list (string * string) :=
  [("@hourly", "0 * * * *"); ("@daily", "0 0 * * *"); ("@midnight", "0 0 * * *");
   ("@weekly", "0 0 * * 0"); ("@monthly", "0 0 1 * *"); ("@yearly", "0 0 1 1 *");
   ("@annually", "0 0 1 1 *")]%string.

Definition atoiOrName (s : string) (names : list (string * Z)) : result Z :=
  match assoc (ToLower s) names with
  | Some v => Ok v
  | None => match Atoi s with Some v => Ok v | None => Bad ("invalid number " +:+ s)%string end
  end.

(** [part == "*" || part == "?"] *)
Definition is_star (s : string) : bool := String.eqb s "*" || String.eqb s "?".

Definition check_range (min max lo hi step : Z) : result (Z * Z * Z) :=
  if (lo <? min) || (max <? hi) || (hi <? lo)
  then Bad ("value " +:+ itoa lo +:+ "-" +:+ itoa hi +:+ " out of range [" +:+ itoa min +:+ "," +:+ itoa max +:+ "]")%string
  else Ok (lo, hi, step).

(** The bounds of a term whose step has been taken off. *)
Definition parse_bounds (part : string) (step min max : Z) (names : list (string * Z)) : result (Z * Z * Z) :=
  if is_star part then Ok (min, max, step)
  else match cut 45 part with
       | Some (a, b) =>
           match atoiOrName a names with
           | Bad e => Bad e
           | Ok lo => match atoiOrName b names with Bad e => Bad e | Ok hi => check_range min max lo hi step end
           end
       | None => match atoiOrName part names with Bad e => Bad e | Ok lo => check_range min max lo lo step end
       end.

Definition parseTerm (part : string) (min max : Z) (names : list (string * Z)) : result (Z * Z * Z) :=
  match cut 47 part with
  | None => parse_bounds part 1 min max names
  | Some (part, stepStr) =>
      match Atoi stepStr with
      | Some step => if step <? 1 then Bad ("invalid step " +:+ stepStr)%string
                     else parse_bounds part step min max names
      | None => Bad ("invalid step " +:+ stepStr)%string
      end
  end.

(** [1 << uint(v)] in 64 bits: a shift that is too long gives 0. *)
Definition bit (v : Z) : Z := if (0 <=? v) && (v <? 64) then Z.shiftl 1 v else 0.

(** [for v := lo; v <= hi; v += step], where the sum wraps at 64 bits. *)
Definition mask_step (hi step : Z) (s : Z * Z) : progress (Z * Z) Z :=
  let '(v, mask) := s in
  if hi <? v then Finished_ mask else Running (int64 (v + step), Z.lor mask (bit v)).

(** At most 256 values are met: see [mask_loop_ends]. *)
Definition mask_loop (lo hi step mask : Z) : option Z :=
  match iterate (mask_step hi step) 8 (lo, mask) with Finished_ m => Some m | Running _ => None end.

(** [None]: the loop over the values has not ended. *)
Fixpoint parse_parts (field : string) (parts : list string) (min max : Z) (names : list (string * Z)) (mask : Z)
    : option (result Z) :=
  match parts with
  | [] => Some (Ok mask)
  | part :: parts =>
      if String.eqb part "" then Some (Bad ("empty term in " +:+ field)%string)
      else match parseTerm part min max names with
           | Bad e => Some (Bad e)
           | Ok (lo, hi, step) =>
               match mask_loop lo hi step mask with
               | None => None
               | Some mask => parse_parts field parts min max names mask
               end
           end
  end.

Definition parseField (field : string) (min max : Z) (names : list (string * Z)) : option (result (Z * bool)) :=
  match parse_parts field (Split 44 field) min max names 0 with
  | None => None
  | Some (Bad e) => Some (Bad e)
  | Some (Ok mask) =>
      Some (if mask =? 0 then Bad ("no values matched in " +:+ field)%string else Ok (mask, is_star field))
  end.

(** Bind through non-termination and errors; an error gets the field's name. *)
Definition field_of {A B} (what : string) (r : option (result A)) (k : A -> option (result B)) : option (result B) :=
  match r with
  | None => None
  | Some (Bad e) => Some (Bad ("cron: " +:+ what +:+ ": " +:+ e)%string)
  | Some (Ok a) => k a
  end.

(** Weekday 7 is Sunday, like 0. *)
Definition sunday (dow : Z) : Z :=
  if Z.testbit dow 7 then Z.clearbit (Z.lor dow 1) 7 else dow.

Definition parseFields (raw : string) : option (result Expr) :=
  match Fields raw with
  | [f0; f1; f2; f3; f4] =>
      field_of "minute" (parseField f0 0 59 []) (λ minute,
      field_of "hour" (parseField f1 0 23 []) (λ hour,
      field_of "day-of-month" (parseField f2 1 31 []) (λ dom,
      field_of "month" (parseField f3 1 12 monthNames) (λ month,
      field_of "day-of-week" (parseField f4 0 7 dowNames) (λ dow,
      Some (Ok (mkExpr minute.1 hour.1 dom.1 month.1 (sunday dow.1) dom.2 dow.2 "")))))))
  | fields => Some (Bad ("cron: expected 5 fields, got " +:+ itoa (Z.of_nat (length fields)) +:+ " in " +:+ raw)%string)
  end.

Definition set_raw (e : Expr) (raw : string) : Expr :=
  mkExpr (e_minute e) (e_hour e) (e_dom e) (e_month e) (e_dow e) (domStar e) (dowStar e) raw.

Definition Parse (expr : string) : option (result Expr) :=
  let raw := TrimSpace expr in
  match parseFields (default raw (assoc (ToLower raw) macros)) with
  | Some (Ok e) => Some (Ok (set_raw e raw))
  | r => r
  end.

(** ** Next *)

Definition dayMatches (e : Expr) (l : location) (t : Z) : bool :=
  if domStar e && dowStar e then true
  else
    let domMatch := Z.testbit (e_dom e) (Day l t) in
    let dowMatch := Z.testbit (e_dow e) (Weekday l t) in
    if domStar e then dowMatch else if dowStar e then domMatch else domMatch || dowMatch.

(** One turn of the scan; the result is [None] past the year limit. *)
Definition next_step (e : Expr) (l : location) (yearLimit : Z) (t : Z) : progress Z (option Z) :=
  if yearLimit <? Year l t then Finished_ None
  else if negb (Z.testbit (e_month e) (Month l t)) then
    Running (AddDate 0 1 0 l (Date (Year l t) (Month l t) 1 0 0 0 l))
  else if negb (dayMatches e l t) then
    Running (AddDate 0 0 1 l (Date (Year l t) (Month l t) (Day l t) 0 0 0 l))
  else if negb (Z.testbit (e_hour e) (Hour l t)) then
    Running (Date (Year l t) (Month l t) (Day l t) (Hour l t) 0 0 l + 3600)
  else if negb (Z.testbit (e_minute e) (Minute l t)) then Running (t + 60)
  else Finished_ (Some t).

(** The minute after an instant. *)
Definition next_minute (after : Z) : Z := after / 60000000000 * 60 + 60.

(** [2^22] turns: see [Next_first_match]. *)
Definition Next (e : Expr) (after : Z) (l : location) : option (option Z) :=
  let t := next_minute after in
  match iterate (next_step e l (Year l t + 5)) 22 t with
  | Finished_ r => Some ((λ t, t * 1000000000) <$> r)
  | Running _ => None
  end.

(** ** Planning *)

Definition MisfireSkip : string := "skip".
Definition MisfireFireOnce : string := "fire_once".
Definition MisfireBackfill : string := "backfill".

Definition MisfireValid (p : string) : bool :=
  String.eqb p MisfireSkip || String.eqb p MisfireFireOnce || String.eqb p MisfireBackfill.

Record Plan := mkPlan { Fires : list Z; NewNext : Z }.

Definition minute_ns : Z := 60000000000.

(** [left_] fires may still be planned. *)
Fixpoint backfill (e : Expr) (l : location) (now : Z) (left_ : nat) (cur : Z) (fires : list Z) : option Plan :=
  if now <? cur then Some (mkPlan fires cur)
  else match left_ with
       | O => Some (mkPlan fires cur)
       | S left_ =>
           let fires := fires ++ [cur] in
           match Next e cur l with
           | None => None
           | Some None => Some (mkPlan fires (cur + minute_ns))
           | Some (Some nn) =>
               match left_ with O => Some (mkPlan fires nn) | _ => backfill e l now left_ nn fires end
           end
       end.

(** The state is the number of instants walked and the last one. *)
Definition advance_step (e : Expr) (l : location) (now : Z) (s : Z * Z) : progress (Z * Z) (option Z) :=
  let '(i, cur) := s in
  if i <? 1000000 then
    match Next e cur l with
    | None => Finished_ None
    | Some None => Finished_ (Some (cur + minute_ns))
    | Some (Some nn) => if now <? nn then Finished_ (Some nn) else Running (i + 1, nn)
    end
  else Finished_ (Some (now + minute_ns)).

Definition advancePast (e : Expr) (l : location) (from now : Z) : option Z :=
  match iterate (advance_step e l now) 20 (0, from) with Finished_ r => r | Running _ => None end.

(** [next] is the schedule's NextRunAt, [misfire] its policy. *)
Definition PlanFires (misfire : string) (next : Z) (e : Expr) (l : location) (now grace maxBackfill : Z) : option Plan :=
  let maxBackfill := if maxBackfill <? 1 then 1 else maxBackfill in
  if String.eqb misfire MisfireBackfill then backfill e l now (Z.to_nat maxBackfill) next []
  else if String.eqb misfire MisfireSkip then
    let fires := if now - next <=? grace then [next] else [] in
    match advancePast e l next now with Some n => Some (mkPlan fires n) | None => None end
  else match advancePast e l next now with Some n => Some (mkPlan [next] n) | None => None end.
