(* ===== verification/CronProps.v ===== *)
(** The properties of recurring schedules: what [Next] returns, and when. *)
From S2P Require Import Prelude Redis Client Calendar Cron.

(** ** Iteration *)

Section iterate.
Context {A B : Type} (step : A → progress A B).

Fixpoint run_steps (k : nat) (a : A) : progress A B :=
  match k with
  | O => Running a
  | S k => match step a with Running a => run_steps k a | Finished_ b => Finished_ b end
  end.

Lemma run_steps_add j k a :
  run_steps (j + k) a = match run_steps j a with Running a => run_steps k a | Finished_ b => Finished_ b end.
Proof. revert a. induction j as [|j IH]; intros a; cbn; [done |]. by destruct (step a). Qed.

Lemma iterate_steps n a : iterate step n a = run_steps (2 ^ n) a.
Proof.
  revert a. induction n as [|n IH]; intros a; [cbn; by destruct (step a) |].
  cbn [iterate]. rewrite IH. replace (2 ^ S n)%nat with (2 ^ n + 2 ^ n)%nat by (cbn; lia).
  rewrite run_steps_add. by destruct (run_steps (2 ^ n) a).
Qed.

(** With a measure that every step lowers, the loop ends, in a state it reached. *)
Lemma run_steps_end (P : A → Prop) (μ : A → Z) :
  (∀ a a', P a → step a = Running a' → P a' ∧ 0 <= μ a ∧ μ a' < μ a) →
  ∀ k a, P a → μ a < Z.of_nat k → ∃ a' b, P a' ∧ step a' = Finished_ b ∧ run_steps (S k) a = Finished_ b.
Proof.
  intros Hstep k. induction k as [|k IH]; intros a HP Hk.
  - cbn. destruct (step a) as [a'|b] eqn:E; [destruct (Hstep a a' HP E) as (_ & H0 & _); lia |]. eauto.
  - destruct (step a) as [a'|b] eqn:E; [| exists a, b; cbn; rewrite E; eauto].
    destruct (Hstep a a' HP E) as (HP' & _ & Hlt). destruct (IH a' HP' ltac:(lia)) as (x & b & Hx & Ex & Er).
    exists x, b. split; [done |]. split; [done |]. change (run_steps (S (S k)) a) with
      (match step a with Running a => run_steps (S k) a | Finished_ b => Finished_ b end). by rewrite E.
Qed.

Lemma iterate_ends (P : A → Prop) (μ : A → Z) n a :
  (∀ a a', P a → step a = Running a' → P a' ∧ 0 <= μ a ∧ μ a' < μ a) →
  P a → μ a < 2 ^ Z.of_nat n - 1 → ∃ a' b, P a' ∧ step a' = Finished_ b ∧ iterate step n a = Finished_ b.
Proof.
  intros Hstep HP Hμ. rewrite iterate_steps. assert (Z.of_nat (2 ^ n) = 2 ^ Z.of_nat n) as E by by rewrite Nat2Z.inj_pow.
  assert (2 ^ n = S (2 ^ n - 1))%nat as -> by (pose proof (Nat.pow_nonzero 2 n ltac:(lia)); lia).
  apply (run_steps_end P μ); [done | done | lia].
Qed.

(** A state the step maps to itself is never left. *)
Lemma run_steps_stuck k m a a' :
  run_steps k a = Running a' → step a' = Running a' → ∃ x, run_steps m a = Running x.
Proof.
  intros Hk Hs. assert (∀ j, run_steps j a' = Running a') as Hst by (induction j; cbn; [done | by rewrite Hs]).
  destruct (decide (m <= k)%nat) as [Hm|Hm].
  - replace k with (m + (k - m))%nat in Hk by lia. rewrite run_steps_add in Hk.
    destruct (run_steps m a) as [x|b]; [by exists x | done].
  - replace m with (k + (m - k))%nat by lia. rewrite run_steps_add, Hk. eauto.
Qed.
End iterate.

(** ** The scan in a zone with one offset *)

Section fixed.
Context (off : Z) (Hoff : off mod 60 = 0) (e : Expr).
Notation l := (mkLocation off []).

Lemma Date_fixed y m d hh mm ss :
  Date y m d hh mm ss l = (day_number y m d - epoch) * 86400 + hh * 3600 + mm * 60 + ss - off.
Proof.
  unfold Date, lookup_zone. cbn. destruct (Z.eqb_spec off 0); [lia | done].
Qed.

Lemma day_of_fixed t : day_of l t = (t + off) / 86400 + epoch.
Proof. done. Qed.

(** What decides a match, from the day and the second of the day. *)
Definition matches (t : Z) : bool :=
  Z.testbit (e_month e) (Month l t) && dayMatches e l t && Z.testbit (e_hour e) (Hour l t)
  && Z.testbit (e_minute e) (Minute l t).

Lemma day_same t u : day_of l t = day_of l u →
  Month l t = Month l u ∧ dayMatches e l t = dayMatches e l u ∧ Year l t = Year l u.
Proof.
  intros E. unfold dayMatches, Day, Weekday, Month, Year. by rewrite E.
Qed.

Lemma month_jump t :
  let t2 := AddDate 0 1 0 l (Date (Year l t) (Month l t) 1 0 0 0 l) in
  t2 = (day_number (Year l t) (Month l t + 1) 1 - epoch) * 86400 - off ∧
  ∀ u, t <= u < t2 → Month l u = Month l t.
Proof.
  cbv zeta. set (y := Year l t). set (m := Month l t).
  destruct (date_of_spec (day_of l t)) as (Hm & Hd & _). fold y m in Hm, Hd.
  change (d_year (date_of (day_of l t))) with y in Hd. change (d_month (date_of (day_of l t))) with m in Hm, Hd.
  rewrite Date_fixed. set (t1 := _ - off).
  assert (day_of l t1 = day_number y m 1) as E1.
  { rewrite day_of_fixed. unfold t1. generalize (day_number y m 1). intros x. Z.to_euclidean_division_equations. lia. }
  assert (second_of_day l t1 = 0) as Es.
  { unfold second_of_day. cbn. unfold t1. Z.to_euclidean_division_equations. lia. }
  assert (day_number y m 1 < day_number y (m + 1) 1) as Hlt by lia.
  destruct (date_of_month (day_number y m 1) y m Hm ltac:(lia)) as [Ey Em].
  destruct (date_of_spec (day_number y m 1)) as (_ & _ & Ed & _). rewrite Ey, Em in Ed.
  rewrite (day_number_1 y m (d_day _)) in Ed.
  assert (AddDate 0 1 0 l t1 = (day_number y (m + 1) 1 - epoch) * 86400 - off) as E2.
  { unfold AddDate, Year, Month, Day, Hour, Minute, Second. rewrite E1, Es, Ey, Em.
    replace (d_day (date_of (day_number y m 1))) with 1 by lia. rewrite Date_fixed.
    change (0 / 3600) with 0. change (0 mod 3600 / 60) with 0. change (0 mod 60) with 0.
    rewrite !Z.add_0_r. lia. }
  split; [exact E2 |]. rewrite E2. intros u Hu.
  assert (day_of l t <= day_of l u < day_number y (m + 1) 1) as Hdu.
  { rewrite !day_of_fixed in *. split; [apply Z.add_le_mono_r, Z.div_le_mono; lia |].
    assert ((u + off) / 86400 < day_number y (m + 1) 1 - epoch); [| lia]. apply Z.div_lt_upper_bound; lia. }
  unfold Month at 1. destruct (date_of_month (day_of l u) y m Hm ltac:(lia)) as [_ ->]. done.
Qed.

Lemma day_jump t :
  let t2 := AddDate 0 0 1 l (Date (Year l t) (Month l t) (Day l t) 0 0 0 l) in
  t2 = (day_of l t + 1 - epoch) * 86400 - off ∧ ∀ u, t <= u < t2 → day_of l u = day_of l t.
Proof.
  cbv zeta. destruct (date_of_spec (day_of l t)) as (Hm & Hd & En & _). set (n := day_of l t) in *.
  assert (day_number (Year l t) (Month l t) (Day l t) = n) as En' by exact En.
  rewrite Date_fixed, En'. set (t1 := _ - off).
  assert (day_of l t1 = n) as E1.
  { rewrite day_of_fixed. unfold t1. Z.to_euclidean_division_equations. lia. }
  assert (second_of_day l t1 = 0) as Es.
  { unfold second_of_day. cbn. unfold t1. Z.to_euclidean_division_equations. lia. }
  assert (AddDate 0 0 1 l t1 = (n + 1 - epoch) * 86400 - off) as E2.
  { unfold AddDate, Year, Month, Day, Hour, Minute, Second. rewrite E1, Es, Date_fixed, !Z.add_0_r, day_number_1.
    rewrite day_number_1 in En. change (0 / 3600) with 0. change (0 mod 3600 / 60) with 0. change (0 mod 60) with 0. lia. }
  split; [exact E2 |]. rewrite E2. intros u Hu. unfold n. rewrite !day_of_fixed. f_equal.
  unfold n in Hu. rewrite day_of_fixed in Hu. Z.to_euclidean_division_equations. lia.
Qed.

Lemma hour_jump t :
  let t2 := Date (Year l t) (Month l t) (Day l t) (Hour l t) 0 0 l + 3600 in
  t2 = (t + off) / 3600 * 3600 + 3600 - off ∧
  ∀ u, t <= u < t2 → day_of l u = day_of l t ∧ Hour l u = Hour l t.
Proof.
  cbv zeta. destruct (date_of_spec (day_of l t)) as (_ & _ & En & _).
  assert (day_number (Year l t) (Month l t) (Day l t) = day_of l t) as En' by exact En.
  rewrite Date_fixed, En', day_of_fixed. unfold Hour, second_of_day. cbn [lookup_zone offset_at].
  change (offset_at l t) with off. assert ((day_of l t - epoch) * 86400 + (t + off) mod 86400 / 3600 * 3600 = (t + off) / 3600 * 3600) as E.
  { rewrite day_of_fixed. Z.to_euclidean_division_equations. lia. }
  rewrite day_of_fixed in E. split; [lia |]. intros u Hu. change (offset_at l u) with off. rewrite day_of_fixed.
  assert ((u + off) / 3600 = (t + off) / 3600) as Eh by (Z.to_euclidean_division_equations; lia).
  split; Z.to_euclidean_division_equations; lia.
Qed.

(** The scan has passed the minutes before [t] and none of them matches. *)
Definition scanned (t0 t : Z) : Prop :=
  t0 <= t ∧ t mod 60 = 0 ∧ ∀ u, t0 <= u < t → u mod 60 = 0 → matches u = false.

Lemma scanned_jump t0 t t' :
  scanned t0 t → t < t' → t' mod 60 = 0 → (∀ u, t <= u < t' → u mod 60 = 0 → matches u = false) →
  scanned t0 t' ∧ t < t'.
Proof.
  intros (Ht & Hm & Hs) Hlt Hm' Hu. split; [| done]. split; [lia |]. split; [done |].
  intros u Hr Hu60. destruct (Z.lt_ge_cases u t); [apply Hs; [lia | done] | apply Hu; [lia | done]].
Qed.

Lemma next_step_scans lim t0 t t' :
  scanned t0 t → next_step e l lim t = Running t' → scanned t0 t' ∧ t < t' ∧ Year l t <= lim.
Proof.
  intros Hs. pose proof Hs as (Ht & Hm & Hn). unfold next_step.
  destruct (Z.ltb_spec lim (Year l t)); [done |].
  destruct (Z.testbit (e_month e) (Month l t)) eqn:Em; cbn [negb].
  2: { intros E. injection E as <-. destruct (month_jump t) as [E Hj]. cbv zeta in E, Hj. rewrite E in Hj |- *.
       destruct (date_of_spec (day_of l t)) as (_ & Hd & _).
       change (d_year (date_of (day_of l t))) with (Year l t) in Hd.
       change (d_month (date_of (day_of l t))) with (Month l t) in Hd. rewrite day_of_fixed in Hd.
       destruct (scanned_jump t0 t ((day_number (Year l t) (Month l t + 1) 1 - epoch) * 86400 - off) Hs) as [H1 H2].
       - destruct Hd as [_ Hd]. clear - Hd. revert Hd. generalize (day_number (Year l t) (Month l t + 1) 1).
         intros x Hx. Z.to_euclidean_division_equations. lia.
       - generalize (day_number (Year l t) (Month l t + 1) 1). intros x. clear - Hoff. Z.to_euclidean_division_equations. lia.
       - intros u Hu _. unfold matches. by rewrite Hj, Em by done.
       - done. }
  destruct (dayMatches e l t) eqn:Ed; cbn [negb].
  2: { intros E. injection E as <-. destruct (day_jump t) as [E Hj]. cbv zeta in E, Hj. rewrite E in Hj |- *.
       destruct (scanned_jump t0 t ((day_of l t + 1 - epoch) * 86400 - off) Hs) as [H1 H2].
       - rewrite day_of_fixed. Z.to_euclidean_division_equations. lia.
       - generalize (day_of l t). intros x. clear - Hoff. Z.to_euclidean_division_equations. lia.
       - intros u Hu _. unfold matches. destruct (day_same u t (Hj u Hu)) as (_ & -> & _). rewrite Ed.
         by rewrite andb_false_r.
       - done. }
  destruct (Z.testbit (e_hour e) (Hour l t)) eqn:Eh; cbn [negb].
  2: { intros E. injection E as <-. destruct (hour_jump t) as [E Hj]. cbv zeta in E, Hj. rewrite E in Hj |- *.
       destruct (scanned_jump t0 t ((t + off) / 3600 * 3600 + 3600 - off) Hs) as [H1 H2].
       - Z.to_euclidean_division_equations. lia.
       - clear - Hoff. Z.to_euclidean_division_equations. lia.
       - intros u Hu _. unfold matches. destruct (Hj u Hu) as [_ ->]. rewrite Eh. by rewrite andb_false_r.
       - done. }
  destruct (Z.testbit (e_minute e) (Minute l t)) eqn:Ei; cbn [negb]; [done |]. intros E. injection E as <-.
  destruct (scanned_jump t0 t (t + 60) Hs) as [H1 H2]; [lia | | | done].
  - clear - Hm. Z.to_euclidean_division_equations. lia.
  - intros u Hu Hu60. assert (u = t) as -> by (clear - Hm Hu Hu60; Z.to_euclidean_division_equations; lia).
    unfold matches. rewrite Ei. by rewrite andb_false_r.
Qed.

Lemma Year_mono t u : t <= u → Year l t <= Year l u.
Proof.
  intros Hu. unfold Year. apply d_year_mono. rewrite !day_of_fixed. apply Z.add_le_mono_r, Z.div_le_mono; lia.
Qed.

Lemma Year_bound t u : Year l u <= Year l t + 5 → u < t + 366 * 6 * 86400 + 86400.
Proof.
  intros Hy. apply d_year_bound in Hy. rewrite !day_of_fixed in Hy. Z.to_euclidean_division_equations. lia.
Qed.

Lemma next_loop_ends t0 :
  t0 mod 60 = 0 →
  ∃ r, iterate (next_step e l (Year l t0 + 5)) 22 t0 = Finished_ r ∧
    match r with
    | Some t => scanned t0 t ∧ matches t = true ∧ Year l t <= Year l t0 + 5
    | None => ∀ u, t0 <= u → u mod 60 = 0 → Year l u <= Year l t0 + 5 → matches u = false
    end.
Proof.
  intros H0. destruct (iterate_ends (next_step e l (Year l t0 + 5)) (scanned t0)
    (λ t, (t0 + 366 * 6 * 86400 + 86400 - t) / 60) 22 t0) as (t & r & Hs & Er & Ei).
  - intros t t' Hs E. destruct (next_step_scans _ _ _ _ Hs E) as (Hs' & Hlt & Hy). split; [done |].
    apply Year_bound in Hy. destruct Hs as (_ & Hm & _), Hs' as (_ & Hm' & _).
    clear - Hlt Hy Hm Hm'. Z.to_euclidean_division_equations. lia.
  - split; [lia |]. split; [done |]. lia.
  - change (2 ^ Z.of_nat 22 - 1) with 4194303. Z.to_euclidean_division_equations. lia.
  - exists r. split; [done |]. revert Er. unfold next_step. destruct (Z.ltb_spec (Year l t0 + 5) (Year l t)).
    + intros E. injection E as <-. intros u Hu Hu60 Hy. destruct Hs as (_ & _ & Hs). apply Hs; [| done].
      split; [done |]. destruct (Z.lt_ge_cases u t) as [|Hge]; [done |]. apply Year_mono in Hge. lia.
    + destruct (Z.testbit (e_month e) _) eqn:Em; [| done]. destruct (dayMatches e l t) eqn:Ed; [| done].
      destruct (Z.testbit (e_hour e) _) eqn:Eh; [| done]. destruct (Z.testbit (e_minute e) _) eqn:Ei'; [| done].
      cbn. intros E. injection E as <-. split; [done |]. split; [| done]. unfold matches. by rewrite Em, Ed, Eh, Ei'.
Qed.
End fixed.

(** ** What Next returns *)

(** C23: [Next] ends and is exact in a zone without offset changes.  For every
    expression, every offset of whole minutes and every instant, the scan ends;
    a result is the first whole minute after the instant that the expression
    matches; and there is no result only when no minute up to the end of the
    fifth year to come matches. *)
Theorem Next_first_match e off after :
  off mod 60 = 0 →
  let l := mkLocation off [] in
  let first := next_minute after in
  ∃ r, Next e after l = Some r ∧
    match r with
    | Some t =>
        after < t ∧ ∃ s, t = s * 1000000000 ∧ first <= s ∧ s mod 60 = 0 ∧ matches off e s = true ∧
        ∀ u, after < u * 1000000000 → u < s → u mod 60 = 0 → matches off e u = false
    | None => ∀ u, after < u * 1000000000 → u mod 60 = 0 → Year l u <= Year l first + 5 → matches off e u = false
    end.
Proof.
  intros Hoff l first. assert (first mod 60 = 0) as H0.
  { unfold first, next_minute. Z.to_euclidean_division_equations. lia. }
  assert (∀ u, after < u * 1000000000 → u mod 60 = 0 → first <= u) as Hfirst.
  { unfold first, next_minute. intros u Hu Hm. clear - Hu Hm. Z.to_euclidean_division_equations. lia. }
  destruct (next_loop_ends off Hoff e first H0) as (r & E & Hr). unfold Next. fold first. unfold l. rewrite E.
  eexists. split; [done |]. destruct r as [s|]; cbn.
  - destruct Hr as ((Hle & Hm & Hs) & Hmatch & _). split.
    + unfold first, next_minute in Hle. clear - Hle. Z.to_euclidean_division_equations. lia.
    + exists s. split_and!; [done.. |]. intros u Hu Hlt Hu60. apply Hs; [| done]. split; [by apply Hfirst | done].
  - intros u Hu Hu60 Hy. apply Hr; [by apply Hfirst | done | done].
Qed.

(** ** What Next does not return from *)

(** New York in 2024: at 06:00 UTC on 3 November the clocks go from 02:00 back to
    01:00. *)
Definition fall_back : Z := 1730613600.
Definition NewYork : location := mkLocation (-14400) [(fall_back, -18000)].

(** Every day at three; its fire of 2 November 2024. *)
Definition nightly : Expr :=
  match Parse "0 3 * * *" with Some (Ok e) => e | _ => mkExpr 0 0 0 0 0 false false "" end.
Definition fired : Z := 1730530800 * 1000000000.

Lemma nightly_stuck n :
  ∃ t, iterate (next_step nightly NewYork (Year NewYork (next_minute fired) + 5)) n (next_minute fired) = Running t.
Proof. rewrite iterate_steps. apply (run_steps_stuck _ 128 _ _ fall_back); vm_compute; reflexivity. Qed.

Lemma nightly_none : Next nightly fired NewYork = None.
Proof. unfold Next. by destruct (nightly_stuck 22) as [t ->]. Qed.

(** C24: the scan for a job that runs at three every night never ends across the
    end of daylight saving time in New York: it comes to the second 01:00, takes
    [time.Date] of one o'clock, which is the first 01:00, adds an hour, and is
    where it was.  However many steps it is given it is still running. *)
Theorem Next_hangs_at_fall_back :
  Raw nightly = "0 3 * * *"%string ∧ Next nightly fired NewYork = None ∧
  ∀ n, ∃ t, iterate (next_step nightly NewYork (Year NewYork (next_minute fired) + 5)) n (next_minute fired) = Running t.
Proof. split; [reflexivity |]. split; [apply nightly_none | exact nightly_stuck]. Qed.

(** ** Parsing *)

Section mask.
Context (hi step : Z) (Hhi : hi <= 59) (Hstep : 1 <= step <= maxInt64).

(** The values the loop meets: small ones, and after a sum that wrapped, ones
    that the next sum brings back. *)
Definition met (v : Z) : Prop :=
  hi < v ∨ -59 <= v ∨ 2 ^ 63 - 59 <= step ∧ - 2 ^ 63 <= v ∧ -59 <= v + step <= 58.

Definition remaining (v : Z) : Z :=
  if hi <? v then 0
  else if step <? 2 ^ 63 - 59 then hi - v + 1
  else if -59 <=? v then 2 * (v + 59) + 1 else 2 * (v + step + 59) + 2.

Lemma int64_cases z : - 2 ^ 63 <= z < 2 ^ 64 → int64 z = z ∧ z < 2 ^ 63 ∨ int64 z = z - 2 ^ 64 ∧ 2 ^ 63 <= z.
Proof. intros Hz. unfold int64. Z.to_euclidean_division_equations. lia. Qed.

Lemma mask_step_met s s' :
  met s.1 → (- 2 ^ 63 <= s.1 < 2 ^ 63) → mask_step hi step s = Running s' →
  met s'.1 ∧ - 2 ^ 63 <= s'.1 < 2 ^ 63 ∧ 0 <= remaining s.1 ∧ remaining s'.1 < remaining s.1.
Proof.
  destruct s as [v mask]. unfold mask_step, met, remaining, maxInt64 in *. cbn. intros Hm Hr.
  destruct (Z.ltb_spec hi v); [done |]. intros E. injection E as <-. cbn.
  destruct (int64_cases (v + step)) as [[-> ?]|[-> ?]]; [lia | |];
    repeat (match goal with |- context [?a <? ?b] => destruct (Z.ltb_spec a b) | |- context [?a <=? ?b] => destruct (Z.leb_spec a b) end);
    lia.
Qed.

Lemma testbit_bit v i : Z.testbit (bit v) i = true ↔ i = v ∧ 0 <= v < 64.
Proof.
  unfold bit. destruct (Z.leb_spec 0 v), (Z.ltb_spec v 64); cbn; rewrite ?Z.bits_0; try (split; [done | lia]).
  rewrite Z.shiftl_1_l, Z.pow2_bits_eqb by lia. rewrite Z.eqb_eq. lia.
Qed.

Context (lo mask : Z) (Hlo : 0 <= lo <= hi).

(** What the loop has put into the mask when it is at [v]. *)
Record filled (v m : Z) : Prop := {
  fi_old : ∀ i, Z.testbit mask i = true → Z.testbit m i = true;
  fi_new : ∀ i, Z.testbit m i = true → Z.testbit mask i = true ∨ 0 <= i <= hi;
  fi_first : v = lo ∨ Z.testbit m lo = true;
  fi_exact : step < 2 ^ 62 → lo <= v < 2 ^ 63 - 1 ∧ (v - lo) mod step = 0 ∧
    ∀ i, Z.testbit m i = true ↔ Z.testbit mask i = true ∨ lo <= i < v ∧ i <= hi ∧ (i - lo) mod step = 0
}.

Lemma filled_step v m :
  filled v m → v <= hi → filled (int64 (v + step)) (Z.lor m (bit v)).
Proof.
  intros [F1 F2 F3 F4] Hv. assert (∀ i, Z.testbit (Z.lor m (bit v)) i = true ↔ Z.testbit m i = true ∨ i = v ∧ 0 <= v < 64) as Hb.
  { intros i. rewrite Z.lor_spec, orb_true_iff, testbit_bit. done. }
  split.
  - intros i Hi. apply Hb. auto.
  - intros i [Hi|[-> Hr]]%Hb; [auto | right; lia].
  - right. apply Hb. destruct F3 as [->|F3]; [right; lia | by left].
  - intros Hs. destruct (F4 Hs) as (Hr & Hmod & Hi). unfold int64. rewrite Z.mod_small by lia.
    split; [lia |]. split.
    { replace (v + step + 2 ^ 63 - 2 ^ 63 - lo) with (v - lo + 1 * step) by lia. by rewrite Z.mod_add by lia. }
    intros i. rewrite Hb, Hi. split.
    + intros [[?|?]|[-> ?]]; [by left | right; lia | right; lia].
    + intros [?|(Hlt & Hih & Him)]; [by left; left |]. destruct (Z.lt_ge_cases i v); [left; right; lia |].
      right. split; [| lia]. clear - Hmod Him Hlt H Hstep Hr. apply Z.mod_divide in Hmod, Him; [| lia..].
      destruct Hmod as [a Ha], Him as [b Hb]. assert (a * step <= b * step < (a + 1) * step) as Hab by lia.
      assert (a <= b) by nia. assert (b < a + 1) by nia. assert (b = a) as -> by lia. lia.
Qed.

(** The loop over a term's values ends; it adds the values of the term, and when
    the step is not so large that a sum wraps, nothing else. *)
Lemma mask_loop_ends :
  ∃ m, mask_loop lo hi step mask = Some m ∧
    (∀ i, Z.testbit mask i = true → Z.testbit m i = true) ∧
    (∀ i, Z.testbit m i = true → Z.testbit mask i = true ∨ 0 <= i <= hi) ∧ Z.testbit m lo = true ∧
    (step < 2 ^ 62 → ∀ i, Z.testbit m i = true ↔
       Z.testbit mask i = true ∨ lo <= i <= hi ∧ (i - lo) mod step = 0).
Proof.
  unfold mask_loop.
  destruct (iterate_ends (mask_step hi step) (λ s, met s.1 ∧ - 2 ^ 63 <= s.1 < 2 ^ 63 ∧ filled s.1 s.2)
    (λ s, remaining s.1) 8 (lo, mask)) as ([v m] & b & (Hm & Hr & F) & Es & ->).
  - intros [v m] s' (Hm & Hr & F) E. destruct (mask_step_met _ _ Hm Hr E) as (Hm' & Hr' & H0 & Hlt).
    split; [split; [exact Hm' | split; [exact Hr' |]] | split; [exact H0 | exact Hlt]]. unfold mask_step in E. cbn in F. destruct (Z.ltb_spec hi v); [done |].
    injection E as <-. by apply filled_step.
  - cbn. split; [right; left; lia |]. split; [lia |]. split; [done | by left | by left |].
    intros Hs. split; [lia |]. rewrite Z.sub_diag, Z.mod_0_l by lia. split; [done |]. intros i. split; [by left | intros [|]; [done | lia]].
  - cbn. unfold remaining, maxInt64 in *. change (2 ^ Z.of_nat 8 - 1) with 255.
    repeat (match goal with |- context [?a <? ?b] => destruct (Z.ltb_spec a b) | |- context [?a <=? ?b] => destruct (Z.leb_spec a b) end); lia.
  - unfold mask_step in Es. destruct (Z.ltb_spec hi v); [| done]. injection Es as <-. destruct F as [F1 F2 F3 F4]. cbn in *.
    exists m. split_and!; [done | done | done | by destruct F3 as [->|]; [lia |] |].
    intros Hs i. destruct (F4 Hs) as (_ & _ & ->). split; (intros [|]; [by left | right; lia]).
Qed.
End mask.

Lemma Atoi_range s v : Atoi s = Some v → minInt64 <= v <= maxInt64.
Proof.
  unfold Atoi, parseInt. destruct (match s with EmptyString => _ | String c r => _ end) as [neg body].
  destruct body as [|c body]; [done |]. destruct (digits _ 0) as [d|]; [| done].
  set (x := if neg then - d else d). destruct (Z.ltb_spec x minInt64); [done |]. destruct (Z.ltb_spec maxInt64 x); [done |].
  intros E. injection E as <-. lia.
Qed.

Lemma check_range_ok min max lo hi step r :
  check_range min max lo hi step = Ok r → r = (lo, hi, step) ∧ min <= lo <= hi ∧ hi <= max.
Proof.
  unfold check_range. destruct (Z.ltb_spec lo min), (Z.ltb_spec max hi), (Z.ltb_spec hi lo); cbn; try done.
  intros E. injection E as <-. split; [done | lia].
Qed.

Lemma parse_bounds_ok part step min max names lo hi step' :
  min <= max → parse_bounds part step min max names = Ok (lo, hi, step') →
  step' = step ∧ min <= lo <= hi ∧ hi <= max.
Proof.
  intros Hm. unfold parse_bounds. destruct (is_star part).
  { intros E. injection E as <- <- <-. lia. }
  destruct (cut 45 part) as [[a b]|]; repeat (destruct (atoiOrName _ names); [| done]);
    intros [E Hr]%check_range_ok; injection E as -> -> ->; done.
Qed.

Lemma parseTerm_ok part min max names lo hi step :
  min <= max → parseTerm part min max names = Ok (lo, hi, step) →
  min <= lo <= hi ∧ hi <= max ∧ 1 <= step <= maxInt64.
Proof.
  intros Hm. unfold parseTerm. destruct (cut 47 part) as [[p t]|].
  - destruct (Atoi t) as [n|] eqn:Ea; [| done]. apply Atoi_range in Ea. destruct (Z.ltb_spec n 1); [done |].
    intros E. apply parse_bounds_ok in E as (-> & ? & ?); [| done]. lia.
  - intros E. apply parse_bounds_ok in E as (-> & ? & ?); [| done]. unfold maxInt64. lia.
Qed.

Section field.
Context (field : string) (min max : Z) (names : list (string * Z)) (Hmin : 0 <= min <= max) (Hmax : max <= 59).

(** Value [v] is one of a term's. *)
Definition in_term (part : string) (v : Z) : Prop :=
  ∃ lo hi step, parseTerm part min max names = Ok (lo, hi, step) ∧ lo <= v <= hi ∧ (v - lo) mod step = 0.

(** No step is so large that a sum of the loop wraps. *)
Definition small_steps (parts : list string) : Prop :=
  ∀ part lo hi step, part ∈ parts → parseTerm part min max names = Ok (lo, hi, step) → step < 2 ^ 62.

Lemma parse_parts_ok parts : ∀ mask,
  ∃ r, parse_parts field parts min max names mask = Some r ∧
  ∀ m, r = Ok m →
    (∀ i, Z.testbit mask i = true → Z.testbit m i = true) ∧
    (∀ i, Z.testbit m i = true → Z.testbit mask i = true ∨ 0 <= i <= max) ∧
    (small_steps parts → ∀ i, Z.testbit m i = true ↔ Z.testbit mask i = true ∨ ∃ part, part ∈ parts ∧ in_term part i).
Proof.
  induction parts as [|part parts IH]; intros mask; cbn [parse_parts].
  { eexists. split; [done |]. intros m E. injection E as <-. split_and!; [done | by left |].
    intros _ i. split; [by left |]. intros [|(part & Hp & _)]; [done | by apply elem_of_nil in Hp]. }
  destruct (String.eqb part ""); [by eexists |].
  destruct (parseTerm part min max names) as [[[lo hi] step]|err] eqn:Et; [| by eexists].
  pose proof Et as Er. apply parseTerm_ok in Er as (Hl & Hh & Hs); [| lia].
  destruct (mask_loop_ends hi step ltac:(lia) Hs lo mask ltac:(lia)) as (m1 & -> & M1 & M2 & M3 & M4).
  destruct (IH m1) as (r & -> & Hr). eexists. split; [done |]. intros m E. destruct (Hr m E) as (R1 & R2 & R3).
  split_and!; [auto | |].
  - intros i [Hi|Hi]%R2; [apply M2 in Hi as [|]; [by left | right; lia] | by right].
  - intros Hsm i. rewrite R3.
    2: { intros p a b c Hp. apply Hsm. by apply elem_of_cons; right. }
    rewrite M4 by (apply (Hsm part lo hi); [by apply elem_of_cons; left | done]).
    assert (in_term part i ↔ lo <= i <= hi ∧ (i - lo) mod step = 0) as Hin.
    { unfold in_term. split; [intros (a & b & c & E' & H'); rewrite Et in E'; by simplify_eq | by eauto 6]. }
    rewrite <- Hin. split.
    + intros [[|]|(p & Hp & Hi)]; [by left | right; exists part; split; [by apply elem_of_cons; left | done] |].
      right. exists p. split; [by apply elem_of_cons; right | done].
    + intros [|(p & [->|Hp]%elem_of_cons & Hi)]; [by left; left | by left; right |]. right. eauto.
Qed.

Lemma parseField_ok :
  ∃ r, parseField field min max names = Some r ∧
  ∀ m star, r = Ok (m, star) →
    m ≠ 0 ∧ star = is_star field ∧ (∀ i, Z.testbit m i = true → 0 <= i <= max) ∧
    (small_steps (Split 44 field) → ∀ i, Z.testbit m i = true ↔ ∃ part, part ∈ Split 44 field ∧ in_term part i).
Proof.
  unfold parseField. destruct (parse_parts_ok (Split 44 field) 0) as (r & -> & Hr).
  destruct r as [mask|err]; [| by eexists]. destruct (Hr mask eq_refl) as (_ & R2 & R3).
  eexists. split; [done |]. intros m star. destruct (Z.eqb_spec mask 0); [done |]. intros E. injection E as <- <-.
  split_and!; [done | done | |].
  - intros i [Hi|Hi]%R2; [by rewrite Z.bits_0 in Hi | done].
  - intros Hs i. rewrite R3 by done. rewrite Z.bits_0. split; [by intros [|] | by right].
Qed.
End field.

(** A cron field allows exactly the values its terms list.  Unless a step is
    so large that adding it wraps at 64 bits, value [i] of a parsed field is
    allowed when one of the comma-separated terms has bounds around it and a step
    that leads to it. *)
Theorem parseField_values field min max names m star :
  0 <= min <= max → max <= 59 → parseField field min max names = Some (Ok (m, star)) →
  small_steps min max names (Split 44 field) →
  ∀ i, Z.testbit m i = true ↔ ∃ part, part ∈ Split 44 field ∧ in_term min max names part i.
Proof.
  intros Hmin Hmax E Hs. destruct (parseField_ok field min max names Hmin Hmax) as (r & E' & Hr).
  rewrite E in E'. injection E' as <-. by apply (Hr m star eq_refl).
Qed.

(** What a parsed mask says of its field.  It is not empty and holds no value above
    the largest; and unless a step is so large that a sum wraps, it holds exactly
    the values the terms of the field list, all of them in the field's range. *)
Record mask_of (field : string) (min max : Z) (names : list (string * Z)) (m : Z) : Prop := {
  mk_some : m ≠ 0;
  mk_top : ∀ i, Z.testbit m i = true → 0 <= i <= max;
  mk_exact : small_steps min max names (Split 44 field) →
    ∀ i, Z.testbit m i = true ↔ ∃ part, part ∈ Split 44 field ∧ in_term min max names part i;
  mk_range : small_steps min max names (Split 44 field) → ∀ i, Z.testbit m i = true → min <= i <= max
}.

(** The expression of five fields: minutes, hours, days, months and weekdays, of
    which 7 is Sunday as 0 is, and whether the days are left open. *)
Record well_formed (f0 f1 f2 f3 f4 : string) (e : Expr) : Prop := {
  wf_minute : mask_of f0 0 59 [] (e_minute e);
  wf_hour : mask_of f1 0 23 [] (e_hour e);
  wf_dom : mask_of f2 1 31 [] (e_dom e);
  wf_month : mask_of f3 1 12 monthNames (e_month e);
  wf_dow : ∃ m, mask_of f4 0 7 dowNames m ∧
    (∃ i, Z.testbit (e_dow e) i = true) ∧
    ∀ i, Z.testbit (e_dow e) i = true ↔
      i = 0 ∧ (Z.testbit m 0 = true ∨ Z.testbit m 7 = true) ∨ 1 <= i <= 6 ∧ Z.testbit m i = true;
  wf_stars : domStar e = is_star f2 ∧ dowStar e = is_star f4
}.

Lemma parsed_mask field min max names :
  0 <= min <= max → max <= 59 →
  ∃ r, parseField field min max names = Some r ∧
  ∀ p, r = Ok p → mask_of field min max names p.1 ∧ p.2 = is_star field.
Proof.
  intros Hmin Hmax. destruct (parseField_ok field min max names Hmin Hmax) as (r & E & Hr).
  exists r. split; [done |]. intros [m star] Er. destruct (Hr m star Er) as (H1 & H2 & H3 & H4).
  split; [| done]. split; cbn; [done | done | done |].
  intros Hs i Hi. apply (H4 Hs) in Hi as (part & _ & lo & hi & step & Et & Hb & _).
  apply parseTerm_ok in Et; lia.
Qed.

Lemma sunday_bits dow :
  (∀ i, Z.testbit dow i = true → 0 <= i <= 7) →
  ∀ i, Z.testbit (sunday dow) i = true ↔
    i = 0 ∧ (Z.testbit dow 0 = true ∨ Z.testbit dow 7 = true) ∨ 1 <= i <= 6 ∧ Z.testbit dow i = true.
Proof.
  intros Hb i. unfold sunday. destruct (Z.testbit dow 7) eqn:E7.
  - rewrite Z.clearbit_eqb, Z.lor_spec by lia. change 1 with (2 ^ 0) at 1. rewrite Z.pow2_bits_eqb by lia.
    destruct (Z.eqb_spec 0 i) as [<-|Hi]; [by rewrite orb_true_r; cbn; naive_solver |].
    rewrite orb_false_r. destruct (Z.eqb_spec 7 i) as [<-|Hi7]; cbn; rewrite ?andb_false_r, ?andb_true_r.
    + split; [done | intros [[? _]|[? _]]; lia].
    + split; [| intros [[? _]|[? ?]]; [lia | done]]. intros Hi'. right. pose proof (Hb i Hi'). split; [lia | done].
  - split.
    + intros Hi. pose proof (Hb i Hi). destruct (decide (i = 0)) as [->|]; [left; auto |].
      destruct (decide (i = 7)) as [->|]; [congruence |]. right. split; [lia | done].
    + intros [[-> [|]]|[_ ?]]; done.
Qed.

Lemma nonzero_bit m : m ≠ 0 → ∃ i, Z.testbit m i = true.
Proof.
  intros Hm. destruct (Z.lt_ge_cases 0 m); [exists (Z.log2 m); by apply Z.bit_log2 |].
  exists (Z.succ (Z.log2 (Z.pred (- m)))). apply Z.bits_above_log2_neg; lia.
Qed.

Lemma sunday_some f m : mask_of f 0 7 dowNames m → ∃ i, Z.testbit (sunday m) i = true.
Proof.
  intros M. destruct (nonzero_bit m (mk_some _ _ _ _ _ M)) as [i Hi].
  pose proof (mk_top _ _ _ _ _ M) as Ht. pose proof (Ht i Hi) as Hr.
  destruct (decide (i = 0)) as [->|]; [exists 0; apply sunday_bits; auto |].
  destruct (decide (i = 7)) as [->|]; [exists 0; apply sunday_bits; auto |].
  exists i. apply sunday_bits; [done |]. right. split; [lia | done].
Qed.

Lemma parseFields_ok src :
  ∃ r, parseFields src = Some r ∧
  ∀ e, r = Ok e → ∃ f0 f1 f2 f3 f4, Fields src = [f0; f1; f2; f3; f4] ∧ well_formed f0 f1 f2 f3 f4 e.
Proof.
  unfold parseFields. destruct (Fields src) as [|f0 [|f1 [|f2 [|f3 [|f4 [|]]]]]]; try by eexists.
  unfold field_of.
  destruct (parsed_mask f0 0 59 [] ltac:(lia) ltac:(lia)) as (r0 & -> & H0). destruct r0 as [p0|]; [| by eexists].
  destruct (parsed_mask f1 0 23 [] ltac:(lia) ltac:(lia)) as (r1 & -> & H1). destruct r1 as [p1|]; [| by eexists].
  destruct (parsed_mask f2 1 31 [] ltac:(lia) ltac:(lia)) as (r2 & -> & H2). destruct r2 as [p2|]; [| by eexists].
  destruct (parsed_mask f3 1 12 monthNames ltac:(lia) ltac:(lia)) as (r3 & -> & H3). destruct r3 as [p3|]; [| by eexists].
  destruct (parsed_mask f4 0 7 dowNames ltac:(lia) ltac:(lia)) as (r4 & -> & H4). destruct r4 as [p4|]; [| by eexists].
  eexists. split; [done |]. intros e E. injection E as <-. exists f0, f1, f2, f3, f4. split; [done |].
  destruct (H0 _ eq_refl), (H1 _ eq_refl), (H2 _ eq_refl), (H3 _ eq_refl), (H4 _ eq_refl) as [M4 S4].
  split; cbn; [done.. | | done]. exists p4.1. split; [done |]. split; [by eapply sunday_some |].
  apply sunday_bits, (mk_top _ _ _ _ _ M4).
Qed.

(** C25: parsing ends, and means what the fields say.  Whatever the text, [Parse]
    returns: an error, or the expression of the five fields of the text (of the
    macro's text, for a macro).  No mask is empty or has a value above its field's
    largest; and unless a step is so large (2^62 or more) that adding it wraps at 64
    bits, a mask holds exactly the values its comma-separated terms list, all of
    them in the field's range, with Sunday as 0 whether it is written 0 or 7. *)
Theorem Parse_well_formed text :
  ∃ r, Parse text = Some r ∧
  ∀ e, r = Ok e → Raw e = TrimSpace text ∧
    ∃ f0 f1 f2 f3 f4,
      Fields (default (TrimSpace text) (assoc (ToLower (TrimSpace text)) macros)) = [f0; f1; f2; f3; f4] ∧
      well_formed f0 f1 f2 f3 f4 e.
Proof.
  unfold Parse. destruct (parseFields_ok (default (TrimSpace text) (assoc (ToLower (TrimSpace text)) macros))) as (r & -> & Hr).
  destruct r as [e|err]; (eexists; split; [done |]); [| done]. intros e' E. injection E as <-. split; [done |].
  destruct (Hr e eq_refl) as (f0 & f1 & f2 & f3 & f4 & Ef & [W1 W2 W3 W4 W5 W6]). exists f0, f1, f2, f3, f4. by split.
Qed.

(** A step near the largest integer makes the loop wrap and allow values below
    the one that is named: here minutes 1 and 3 as well as 5. *)
Lemma huge_step_wraps :
  parseField "5/9223372036854775807" 0 59 [] = Some (Ok (2 ^ 1 + 2 ^ 3 + 2 ^ 5, false)).
Proof. vm_compute. reflexivity. Qed.

(** ** Planning *)

Lemma iterate_finished {A B} (step : A → progress A B) n a b :
  step a = Finished_ b → iterate step n a = Finished_ b.
Proof. intros E. induction n as [|n IH]; cbn; [done |]. by rewrite IH. Qed.

(** PlanFires' comment says that an instant within the grace of now always fires,
    whatever the policy.  With a schedule that fires every minute and the policy
    to skip, ten minutes late, the instants of the last minutes are within a
    grace of two minutes and none of them fires. *)
Definition every_minute : Expr := mkExpr (2 ^ 60 - 1) (2 ^ 24 - 1) (2 ^ 32 - 2) (2 ^ 13 - 2) (2 ^ 7 - 1) true true "* * * * *".

Lemma every_minute_parsed : Parse "* * * * *" = Some (Ok every_minute).
Proof. vm_compute. reflexivity. Qed.

Lemma skip_drops_on_time_fire :
  PlanFires MisfireSkip 0 every_minute UTC (600 * 1000000000) (120 * 1000000000) 0
  = Some (mkPlan [] (660 * 1000000000)).
Proof. vm_compute. reflexivity. Qed.

(** NewNext is said to be strictly after now; a backfill that stops at its cap is
    not. *)
Lemma capped_backfill_stays_due :
  PlanFires MisfireBackfill 0 every_minute UTC (600 * 1000000000) 0 2
  = Some (mkPlan [0; 60 * 1000000000] (120 * 1000000000)).
Proof. vm_compute. reflexivity. Qed.

(** ** Concrete uses *)

Lemma Next_first_match_witness :
  19800 mod 60 = 0 ∧
  ∃ r, Next every_minute 0 (mkLocation 19800 []) = Some r ∧
    match r with
    | Some t =>
        0 < t ∧ ∃ s, t = s * 1000000000 ∧ next_minute 0 <= s ∧ s mod 60 = 0 ∧ matches 19800 every_minute s = true ∧
        ∀ u, 0 < u * 1000000000 → u < s → u mod 60 = 0 → matches 19800 every_minute u = false
    | None => ∀ u, 0 < u * 1000000000 → u mod 60 = 0 →
        Year (mkLocation 19800 []) u <= Year (mkLocation 19800 []) (next_minute 0) + 5 → matches 19800 every_minute u = false
    end.
Proof. split; [reflexivity |]. exact (Next_first_match every_minute 19800 0 eq_refl). Defined.

Lemma weekdays_small : small_steps 0 59 [] (Split 44 "0,30-45/5").
Proof.
  intros part lo hi step Hp. assert (part = "0"%string ∨ part = "30-45/5"%string) as [-> | ->].
  { apply elem_of_cons in Hp as [|Hp]; [by left |]. apply elem_of_cons in Hp as [|Hp]; [by right |]. by apply elem_of_nil in Hp. }
  - assert (parseTerm "0" 0 59 [] = Ok (0, 0, 1)) as -> by (vm_compute; reflexivity). intros E. injection E as <- <- <-. lia.
  - assert (parseTerm "30-45/5" 0 59 [] = Ok (30, 45, 5)) as -> by (vm_compute; reflexivity).
    intros E. injection E as <- <- <-. lia.
Qed.

Lemma parseField_values_witness :
  ∃ m, parseField "0,30-45/5" 0 59 [] = Some (Ok (m, false)) ∧
  ∀ i, Z.testbit m i = true ↔ ∃ part, part ∈ Split 44 "0,30-45/5" ∧ in_term 0 59 [] part i.
Proof.
  eexists. split; [vm_compute; reflexivity |].
  refine (parseField_values "0,30-45/5" 0 59 [] _ false _ _ _ weekdays_small); [lia | lia | vm_compute; reflexivity].
Defined.
