(* ===== verification/CronStore.v ===== *)
(** The schedule store and the ticker of recurring schedules: pkg/cron/store.go,
    ticker.go and lock.go.

    MySQL is the two tables of the package.  A statement, or a transaction as a
    whole, takes effect and answers, fails without effect, or takes effect while
    its answer is lost.  DATETIME columns hold seconds, rounded as MySQL rounds
    them; the columns created_at and updated_at of a schedule are never read and
    left out.  Computations end or not as in [Cron]: a ticker that waits for an
    endless scan is [None]. *)
From S2P Require Import Prelude Redis Client Kafka Protocol Ledger Store Fairness Calendar Cron Sql.

(** ** Tables *)

Record sched_row := mkSchedRow {
  r_id : Z; r_name : string; r_cron : string; r_timezone : string; r_job_type : string;
  r_args : option string; r_tenant : option string; r_enabled : Z; r_misfire : string;
  r_next : Z; r_last : option Z
}.

Record fire_row := mkFireRow {
  f_status : string; f_job : option string; f_created : Z; f_dispatched : option Z
}.

(** The ledger's key is the schedule's id and the fire instant. *)
Record cron_db := mkCronDB { schedules : list sched_row; ledger : gmap (Z * Z) fire_row; next_id : Z }.

(** What was handed to the produce path. *)
Record enqueued := mkEnqueued { q_job : string; q_type : string; q_tenant : string; q_args : object }.

Record cron_world := CronWorld {
  cw_db : cron_db; cw_sql : list sql_fault; cw_jobs : list enqueued; cw_enq : list delivery
}.

Definition cio (A : Type) : Type := cron_world -> option (cron_world * A).
#[export] Instance cio_ret : MRet cio := fun A a w => Some (w, a).
#[export] Instance cio_bind : MBind cio := fun A B k m w =>
  match m w with Some (w, a) => k a w | None => None end.

(** A statement or transaction; [None] when its body does not end. *)
Definition exec {A} (f : cron_db -> option (cron_db * A)) : cio (result A) := fun w =>
  let rest := tail (cw_sql w) in
  match cw_sql w with
  | SqlFails :: _ => Some (CronWorld (cw_db w) rest (cw_jobs w) (cw_enq w), Bad sqlError)
  | SqlLost :: _ =>
      match f (cw_db w) with
      | Some (db, _) => Some (CronWorld db rest (cw_jobs w) (cw_enq w), Bad sqlError)
      | None => None
      end
  | _ =>
      match f (cw_db w) with
      | Some (db, a) => Some (CronWorld db rest (cw_jobs w) (cw_enq w), Ok a)
      | None => None
      end
  end.

(** A time as a DATETIME column stores it. *)
Definition datetime (ns : Z) : Z := (ns + 500000000) / 1000000000.
Definition nanos (sec : Z) : Z := sec * 1000000000.

(** ** Schedules *)

Record Schedule := mkSchedule {
  Sc_ID : Z; Sc_Name : string; Sc_CronExpr : string; Sc_Timezone : string; Sc_JobType : string;
  Sc_Args : option object; Sc_TenantID : string; Sc_Enabled : bool; Sc_Misfire : string;
  Sc_NextRunAt : Z; Sc_LastFire : option Z
}.

Record ClaimedFire := mkFired {
  Cf_ScheduleID : Z; Cf_Name : string; Cf_JobType : string; Cf_TenantID : string;
  Cf_Args : object; Cf_FireAt : Z
}.

Section store.
Context `{Json} (LoadLocation : string -> result location).

Definition Location (name tz : string) : result location :=
  if String.eqb tz "" || String.eqb tz "UTC" then Ok UTC
  else match LoadLocation tz with
       | Ok l => Ok l
       | Bad e => Bad ("schedule " +:+ name +:+ ": bad timezone " +:+ tz +:+ ": " +:+ e)%string
       end.

Definition decodeArgs (raw : option string) : object :=
  match raw with
  | None => ∅
  | Some s => if String.eqb s "" then ∅
              else match unmarshal s with Ok (Some m) => m | _ => ∅ end
  end.

Definition scanSchedule (r : sched_row) : Schedule :=
  mkSchedule (r_id r) (r_name r) (r_cron r) (r_timezone r) (r_job_type r) (Some (decodeArgs (r_args r)))
    (default ""%string (r_tenant r)) (r_enabled r =? 1) (r_misfire r) (nanos (r_next r)) (nanos <$> r_last r).

(** Inserts the row, or updates the row of that name. *)
Definition upsert_row (row : Z -> sched_row) (db : cron_db) : cron_db * Z :=
  match list_find (λ r, r_name r = r_name (row 0)) (schedules db) with
  | Some (i, old) =>
      let new := row (r_id old) in
      (mkCronDB (<[i := mkSchedRow (r_id old) (r_name old) (r_cron new) (r_timezone new) (r_job_type new)
                          (r_args new) (r_tenant new) (r_enabled new) (r_misfire new) (r_next new) (r_last old)]>
                   (schedules db)) (ledger db) (next_id db + 1), r_id old)
  | None => (mkCronDB (schedules db ++ [row (next_id db)]) (ledger db) (next_id db + 1), next_id db)
  end.

Definition Upsert (now : Z) (sc : Schedule) : cio (Z * error) :=
  let fail (e : string) : cio (Z * error) := mret (0, Some e) in
  if String.eqb (Sc_Name sc) "" || String.eqb (Sc_CronExpr sc) "" || String.eqb (Sc_JobType sc) ""
  then fail "cron upsert: name, cron_expr and job_type are required"
  else
    let misfire := if String.eqb (Sc_Misfire sc) "" then MisfireFireOnce else Sc_Misfire sc in
    if negb (MisfireValid misfire) then fail ("cron upsert: invalid misfire_policy " +:+ misfire)%string
    else
      let tz := if String.eqb (Sc_Timezone sc) "" then "UTC"%string else Sc_Timezone sc in
      match Parse (Sc_CronExpr sc) with
      | None => λ _, None
      | Some (Bad e) => fail e
      | Some (Ok expr) =>
          match Location (Sc_Name sc) tz with
          | Bad e => fail e
          | Ok loc =>
              match Next expr now loc with
              | None => λ _, None
              | Some None => fail ("cron upsert: " +:+ Sc_CronExpr sc +:+ " never fires")%string
              | Some (Some next) =>
                  match (match Sc_Args sc with None => Ok "{}"%string | Some m => marshal m end) with
                  | Bad e => fail e
                  | Ok args =>
                      let tenant := if String.eqb (Sc_TenantID sc) "" then None else Some (Sc_TenantID sc) in
                      r ← exec (λ db, Some (upsert_row (λ id, mkSchedRow id (Sc_Name sc) (Sc_CronExpr sc) tz
                                 (Sc_JobType sc) (Some args) tenant (if Sc_Enabled sc then 1 else 0) misfire
                                 (datetime next) None) db));
                      mret (match r with Ok id => (id, None) | Bad e => (0, Some e) end)
                  end
              end
          end
      end.

Definition map_rows (f : sched_row -> sched_row) (db : cron_db) : cron_db :=
  mkCronDB (f <$> schedules db) (ledger db) (next_id db).

Definition set_enabled (v : Z) (r : sched_row) : sched_row :=
  mkSchedRow (r_id r) (r_name r) (r_cron r) (r_timezone r) (r_job_type r) (r_args r) (r_tenant r) v
    (r_misfire r) (r_next r) (r_last r).

Definition error_of {A} (r : result A) : error := match r with Ok _ => None | Bad e => Some e end.

Definition SetEnabled (name : string) (enabled : bool) : cio error :=
  r ← exec (λ db, Some (map_rows (λ r, if String.eqb (r_name r) name
                                       then set_enabled (if enabled then 1 else 0) r else r) db, tt));
  mret (error_of r).

Definition Delete (name : string) : cio error :=
  r ← exec (λ db, Some (mkCronDB (filter (λ r, r_name r ≠ name) (schedules db)) (ledger db) (next_id db), tt));
  mret (error_of r).

Definition row_le (r r' : sched_row) : Prop := String.leb (r_name r) (r_name r') = true.
#[export] Instance row_le_dec : RelDecision row_le := λ r r', decide (String.leb (r_name r) (r_name r') = true).

Definition List_ : cio (list Schedule * error) :=
  r ← exec (λ db, Some (db, scanSchedule <$> merge_sort row_le (schedules db)));
  mret (match r with Ok l => (l, None) | Bad e => ([], Some e) end).

(** ** Claiming fires *)

Definition due_le (r r' : sched_row) : Prop := r_next r <= r_next r'.
#[export] Instance due_le_dec : RelDecision due_le := λ r r', Z_le_dec (r_next r) (r_next r').

(** [locked]: the rows other transactions hold, which are skipped. *)
Definition due_rows (locked : Z -> bool) (now limit : Z) (db : cron_db) : list sched_row :=
  take (Z.to_nat limit)
    (merge_sort due_le
       (filter (λ r, (r_enabled r =? 1) && (nanos (r_next r) <=? now) && negb (locked (r_id r)) = true) (schedules db))).

(** INSERT IGNORE of one fire; whether a row was inserted. *)
Definition insert_fire (created id fire : Z) (db : cron_db) : cron_db * bool :=
  match ledger db !! (id, datetime fire) with
  | Some _ => (db, false)
  | None =>
      (mkCronDB (schedules db)
         (<[(id, datetime fire) := mkFireRow "pending" None (datetime created) None]> (ledger db)) (next_id db), true)
  end.

Definition claimed_of (sc : Schedule) (fire : Z) : ClaimedFire :=
  mkFired (Sc_ID sc) (Sc_Name sc) (Sc_JobType sc) (Sc_TenantID sc) (default ∅ (Sc_Args sc)) fire.

Fixpoint insert_fires (created : Z) (sc : Schedule) (fires : list Z) (db : cron_db) (claimed : list ClaimedFire)
    : cron_db * list ClaimedFire :=
  match fires with
  | [] => (db, claimed)
  | fire :: fires =>
      let '(db, new) := insert_fire created (Sc_ID sc) fire db in
      insert_fires created sc fires db (if new : bool then claimed ++ [claimed_of sc fire] else claimed)
  end.

Definition advance_row (next : Z) (last_ : option Z) (r : sched_row) : sched_row :=
  mkSchedRow (r_id r) (r_name r) (r_cron r) (r_timezone r) (r_job_type r) (r_args r) (r_tenant r)
    (r_enabled r) (r_misfire r) (datetime next) (match last_ with Some f => Some (datetime f) | None => r_last r end).

Definition by_id (id : Z) (f : sched_row -> sched_row) : cron_db -> cron_db :=
  map_rows (λ r, if r_id r =? id then f r else r).

Fixpoint claim_due (created : Z) (plan : Schedule -> option (result Plan)) (due : list Schedule) (db : cron_db)
    (claimed : list ClaimedFire) : option (cron_db * list ClaimedFire) :=
  match due with
  | [] => Some (db, claimed)
  | sc :: due =>
      match plan sc with
      | None => None
      | Some (Bad _) => claim_due created plan due (by_id (Sc_ID sc) (set_enabled 0) db) claimed
      | Some (Ok p) =>
          let '(db, claimed) := insert_fires created sc (Fires p) db claimed in
          claim_due created plan due (by_id (Sc_ID sc) (advance_row (NewNext p) (last (Fires p))) db) claimed
      end
  end.

Definition ClaimAndAdvance (now created limit : Z) (locked : Z -> bool) (plan : Schedule -> option (result Plan))
    : cio (list ClaimedFire * error) :=
  let limit := if limit <=? 0 then 100 else limit in
  r ← exec (λ db, claim_due created plan (scanSchedule <$> due_rows locked now limit db) db []);
  mret (match r with Ok l => (l, None) | Bad e => ([], Some e) end).

Definition mark_row (now : Z) (job : string) (r : fire_row) : fire_row :=
  mkFireRow "dispatched" (Some job) (f_created r) (Some (datetime now)).

Definition MarkDispatched (now id fire : Z) (job : string) : cio error :=
  r ← exec (λ db, Some (mkCronDB (schedules db) (alter (mark_row now job) (id, datetime fire) (ledger db)) (next_id db), tt));
  mret (error_of r).

(** The schedule of a pending fire; a deleted one leaves its fires out. *)
Definition pending_fire (db : cron_db) (olderThan : Z) (x : Z * Z * fire_row) : option (Z * ClaimedFire) :=
  let '((id, at_), f) := x in
  if String.eqb (f_status f) "pending" && (nanos (f_created f) <? olderThan) then
    match list_find (λ r, r_id r = id) (schedules db) with
    | Some (_, r) => Some (f_created f, mkFired id (r_name r) (r_job_type r) (default ""%string (r_tenant r))
                             (decodeArgs (r_args r)) (nanos at_))
    | None => None
    end
  else None.

Definition created_le (x y : Z * ClaimedFire) : Prop := x.1 <= y.1.
#[export] Instance created_le_dec : RelDecision created_le := λ x y, Z_le_dec x.1 y.1.

Definition RecoverPending (olderThan limit : Z) : cio (list ClaimedFire * error) :=
  let limit := if limit <=? 0 then 100 else limit in
  r ← exec (λ db, Some (db, take (Z.to_nat limit)
         (merge_sort created_le (omap (pending_fire db olderThan) (map_to_list (ledger db)))).*2));
  mret (match r with Ok l => (l, None) | Bad e => ([], Some e) end).

Definition prunable (olderThan : Z) (f : fire_row) : bool :=
  String.eqb (f_status f) "dispatched"
  && match f_dispatched f with Some d => nanos d <? olderThan | None => false end.

Definition Prune (olderThan : Z) : cio (Z * error) :=
  r ← exec (λ db,
        let kept := filter (λ x, prunable olderThan x.2 = false) (ledger db) in
        Some (mkCronDB (schedules db) kept (next_id db), Z.of_nat (size (ledger db)) - Z.of_nat (size kept)));
  mret (match r with Ok n => (n, None) | Bad e => (0, Some e) end).

(** ** The ticker *)

Record Ticker := mkTicker {
  Window : Z; BatchSize : Z; MisfireGrace : Z; MaxBackfill : Z; RecoverEvery : Z; RecoverGrace : Z;
  PruneEvery : Z; PruneRetention : Z; HeartbeatEvery : Z; StaleFactor : Q;
  lastRecover : option Z; lastPrune : option Z; lastHeartbeat : option Z     (* None: never *)
}.

Definition orDefault (v d : Z) : Z := if v <=? 0 then d else v.

Definition applyDefaults (t : Ticker) : Ticker :=
  let window := orDefault (Window t) (sec 30) in
  mkTicker window (orDefault (BatchSize t) 100) (orDefault (MisfireGrace t) (2 * window))
    (orDefault (MaxBackfill t) 1000) (orDefault (RecoverEvery t) (sec 300)) (orDefault (RecoverGrace t) (sec 120))
    (orDefault (PruneEvery t) (sec 3600)) (orDefault (PruneRetention t) (sec (7 * 24 * 3600)))
    (orDefault (HeartbeatEvery t) (sec 60)) (if Qle_bool (StaleFactor t) 0 then 2 else StaleFactor t)
    (lastRecover t) (lastPrune t) (lastHeartbeat t).

Definition JobIDForFire (id fire : Z) : string :=
  ("sched-" +:+ itoa id +:+ "-" +:+ itoa (fire / 1000000000))%string.

Definition planFor (t : Ticker) (now : Z) (sc : Schedule) : option (result Plan) :=
  match Parse (Sc_CronExpr sc) with
  | None => None
  | Some (Bad e) => Some (Bad ("schedule " +:+ Sc_Name sc +:+ ": " +:+ e)%string)
  | Some (Ok expr) =>
      match Location (Sc_Name sc) (Sc_Timezone sc) with
      | Bad e => Some (Bad e)
      | Ok loc =>
          match PlanFires (Sc_Misfire sc) (Sc_NextRunAt sc) expr loc now (MisfireGrace t) (MaxBackfill t) with
          | None => None
          | Some p => Some (Ok p)
          end
      end
  end.

(** The produce path as the ticker sees it. *)
Definition Enqueue (q : enqueued) : cio error := fun w =>
  let rest := tail (cw_enq w) in
  match cw_enq w with
  | Refused :: _ => Some (CronWorld (cw_db w) (cw_sql w) (cw_jobs w) rest, Some produceError)
  | Unknown :: _ => Some (CronWorld (cw_db w) (cw_sql w) (cw_jobs w ++ [q]) rest, Some produceError)
  | _ => Some (CronWorld (cw_db w) (cw_sql w) (cw_jobs w ++ [q]) rest, None)
  end.

Definition markDispatchedAttempts : nat := 3.

(** [ended n]: the context has ended after attempt [n]. *)
Fixpoint mark_attempts (now : Z) (ended : nat -> bool) (id fire : Z) (job : string) (more attempt : nat) : cio unit :=
  e ← MarkDispatched now id fire job;
  match e, more with
  | None, _ => mret tt
  | Some _, O => mret tt
  | Some _, S more =>
      if ended attempt then mret tt else mark_attempts now ended id fire job more (S attempt)
  end.

Definition enqueue (now : Z) (ended : nat -> bool) (cf : ClaimedFire) : cio unit :=
  let job := JobIDForFire (Cf_ScheduleID cf) (Cf_FireAt cf) in
  e ← Enqueue (mkEnqueued job (Cf_JobType cf) (Cf_TenantID cf) (Cf_Args cf));
  match e with
  | Some _ => mret tt
  | None => mark_attempts now ended (Cf_ScheduleID cf) (Cf_FireAt cf) job (markDispatchedAttempts - 1) 1
  end.

Fixpoint enqueue_all (now : Z) (ended : nat -> bool) (l : list ClaimedFire) : cio unit :=
  match l with
  | [] => mret tt
  | cf :: l => enqueue now ended cf;; enqueue_all now ended l
  end.

Definition dispatchDue (t : Ticker) (now created : Z) (locked : Z -> bool) (ended : nat -> bool) : cio error :=
  r ← ClaimAndAdvance now created (BatchSize t) locked (planFor t now);
  match r with
  | (_, Some e) => mret (Some e)
  | (claimed, None) => enqueue_all now ended claimed;; mret None
  end.

Definition recover (t : Ticker) (now : Z) (ended : nat -> bool) : cio error :=
  r ← RecoverPending (now - RecoverGrace t) (BatchSize t);
  match r with
  | (_, Some e) => mret (Some e)
  | (pending, None) => enqueue_all now ended pending;; mret None
  end.

(** [None]: the scan does not end; [Some None]: no threshold. *)
Definition staleThreshold (t : Ticker) (sc : Schedule) : option (option Z) :=
  match Parse (Sc_CronExpr sc) with
  | None => None
  | Some (Bad _) => Some None
  | Some (Ok expr) =>
      match Location (Sc_Name sc) (Sc_Timezone sc) with
      | Bad _ => Some None
      | Ok loc =>
          match Next expr (Sc_NextRunAt sc) loc with
          | None => None
          | Some None => Some None
          | Some (Some a) =>
              match Next expr a loc with
              | None => None
              | Some None => Some None
              | Some (Some b) =>
                  if b - a <=? 0 then Some None
                  else Some (Some (truncate (inject_Z (b - a) * StaleFactor t)%Q))
              end
          end
      end
  end.

(** The enabled schedules and the stale ones with how long they are. *)
Fixpoint stale_schedules (t : Ticker) (now : Z) (l : list Schedule) (enabled : nat) (stale : list (string * Z))
    : option (nat * list (string * Z)) :=
  match l with
  | [] => Some (enabled, stale)
  | sc :: l =>
      if negb (Sc_Enabled sc) then stale_schedules t now l enabled stale
      else match staleThreshold t sc with
           | None => None
           | Some None => stale_schedules t now l (S enabled) stale
           | Some (Some threshold) =>
               let age := now - default (Sc_NextRunAt sc) (Sc_LastFire sc) in
               stale_schedules t now l (S enabled) (if threshold <? age then stale ++ [(Sc_Name sc, age)] else stale)
           end
  end.

Definition heartbeat (t : Ticker) (now : Z) : cio (result (nat * list (string * Z))) :=
  r ← List_;
  match r with
  | (_, Some e) => mret (Bad e)
  | (l, None) => λ w, match stale_schedules t now l 0 [] with Some x => Some (w, Ok x) | None => None end
  end.

(** [now.Sub(last) >= every]; a time that was never set is long ago. *)
Definition is_due (last_ : option Z) (now every : Z) : bool :=
  match last_ with None => true | Some l => every <=? now - l end.

(** One pass of the leader; [leader]: what acquiring the lock gave, [None]
    without a lock. *)
Definition tick (t : Ticker) (leader : option (result bool)) (now created : Z) (locked : Z -> bool)
    (ended : nat -> bool) : cio Ticker :=
  match leader with
  | Some (Bad _) | Some (Ok false) => mret t
  | _ =>
      _ ← dispatchDue t now created locked ended;
      let doRecover := is_due (lastRecover t) now (RecoverEvery t) in
      (if doRecover then _ ← recover t now ended; mret tt else mret tt);;
      let doPrune := is_due (lastPrune t) now (PruneEvery t) in
      (if doPrune then _ ← Prune (now - PruneRetention t); mret tt else mret tt);;
      let doBeat := is_due (lastHeartbeat t) now (HeartbeatEvery t) in
      (if doBeat then _ ← heartbeat t now; mret tt else mret tt);;
      mret (mkTicker (Window t) (BatchSize t) (MisfireGrace t) (MaxBackfill t) (RecoverEvery t) (RecoverGrace t)
              (PruneEvery t) (PruneRetention t) (HeartbeatEvery t) (StaleFactor t)
              (if doRecover then Some now else lastRecover t) (if doPrune then Some now else lastPrune t)
              (if doBeat then Some now else lastHeartbeat t))
  end.
End store.

(** ** The leader lock *)

Definition leaderLockKey : string := "kafka_batch:cron:leader_lock".

Record Lock := mkLock { lk_key : string; lk_ttl : Z }.

Definition NewLock (ttl : Z) : Lock := mkLock leaderLockKey (if ttl <=? 0 then sec 60 else ttl).

(** [random]: what reading the random bytes gave, as hexadecimal. *)
Definition Acquire (l : Lock) (random : result string) : io (string * bool * error) :=
  match random with
  | Bad e => mret (""%string, false, Some e)
  | Ok token =>
      r ← do (command (SET_NX_EX (lk_key l) token (seconds (lk_ttl l))));
      mret (match r with Ok got => (token, got, None) | Bad e => (""%string, false, Some e) end)
  end.

Definition Release (l : Lock) (token : string) : io unit :=
  if String.eqb token "" then mret tt
  else _ ← do (call (releaseLock (lk_key l) token)); mret tt.
