(* ===== verification/CronStoreProps.v ===== *)
(** The ledger of recurring fires: each is claimed once, and leaves the pending
    state only after its job was enqueued. *)
From S2P Require Import Prelude Redis Client Kafka Protocol Ledger Store Fairness Calendar Cron CronProps CronStore Sql.

Section ledger.
Context `{Json} (LoadLocation : string → result location).

Definition fire_key (cf : ClaimedFire) : Z * Z := (Cf_ScheduleID cf, datetime (Cf_FireAt cf)).

(** The job the ticker enqueues for a fire. *)
Definition job_of (cf : ClaimedFire) : enqueued :=
  mkEnqueued (JobIDForFire (Cf_ScheduleID cf) (Cf_FireAt cf)) (Cf_JobType cf) (Cf_TenantID cf) (Cf_Args cf).

(** What claims and recoveries handed out, and the rows that were pruned. *)
Record cron_history := mkHistory {
  h_claimed : list ClaimedFire; h_recovered : list ClaimedFire; h_pruned : list (Z * Z * fire_row)
}.

(** What the nodes of a deployment do to the store, in any order: claims,
    enqueues of fires that were handed out, recoveries, prunes and changes of the
    definitions, with any failures. *)
Inductive cron_reach : cron_world → cron_history → Prop :=
| cr_start w : ledger (cw_db w) = ∅ → cw_jobs w = [] → cron_reach w (mkHistory [] [] [])
| cr_claim w cs rs ps now created limit locked plan w' new err :
    cron_reach w (mkHistory cs rs ps) →
    ClaimAndAdvance now created limit locked plan w = Some (w', (new, err)) →
    cron_reach w' (mkHistory (cs ++ new) rs ps)
| cr_enqueue w h now ended cf w' :
    cron_reach w h → cf ∈ h_claimed h ++ h_recovered h → enqueue now ended cf w = Some (w', tt) →
    cron_reach w' h
| cr_recover w cs rs ps olderThan limit w' new err :
    cron_reach w (mkHistory cs rs ps) → RecoverPending olderThan limit w = Some (w', (new, err)) →
    cron_reach w' (mkHistory cs (rs ++ new) ps)
| cr_prune w cs rs ps olderThan w' r :
    cron_reach w (mkHistory cs rs ps) → Prune olderThan w = Some (w', r) →
    cron_reach w' (mkHistory cs rs (ps ++ map_to_list (ledger (cw_db w) ∖ ledger (cw_db w'))))
| cr_upsert w h now sc w' r :
    cron_reach w h → Upsert LoadLocation now sc w = Some (w', r) → cron_reach w' h
| cr_enabled w h name b w' r :
    cron_reach w h → SetEnabled name b w = Some (w', r) → cron_reach w' h
| cr_delete w h name w' r :
    cron_reach w h → Delete name w = Some (w', r) → cron_reach w' h.

(** The keys of the rows the ledger has, and of those it had before a prune. *)
Definition rows_ever (w : cron_world) (h : cron_history) : list (Z * Z) :=
  (h_pruned h).*1 ++ (map_to_list (ledger (cw_db w))).*1.

(** A row that is dispatched: a job of that fire was handed to the produce path. *)
Definition row_done (jobs : list enqueued) (k : Z * Z) (row : fire_row) : Prop :=
  f_status row = "dispatched"%string ∧
  ∃ cf, fire_key cf = k ∧ job_of cf ∈ jobs ∧ f_job row = Some (q_job (job_of cf)).

Definition row_ok (jobs : list enqueued) (k : Z * Z) (row : fire_row) : Prop :=
  f_status row = "pending"%string ∧ f_job row = None ∨ row_done jobs k row.

Record ledger_ok (w : cron_world) (h : cron_history) : Prop := {
  lo_once : fire_key <$> h_claimed h ⊆+ rows_ever w h;
  lo_handed : ∀ cf, cf ∈ h_claimed h ++ h_recovered h → fire_key cf ∈ rows_ever w h;
  lo_rows : ∀ k row, ledger (cw_db w) !! k = Some row → row_ok (cw_jobs w) k row;
  lo_pruned : ∀ k row, (k, row) ∈ h_pruned h → row_done (cw_jobs w) k row;
  lo_jobs : ∀ q, q ∈ cw_jobs w → ∃ cf, q = job_of cf ∧ fire_key cf ∈ rows_ever w h
}.

Lemma exec_cases {A} (f : cron_db → option (cron_db * A)) w w' r :
  exec f w = Some (w', r) →
  cw_jobs w' = cw_jobs w ∧
  (cw_db w' = cw_db w ∧ r = Bad sqlError ∨
   ∃ a, f (cw_db w) = Some (cw_db w', a) ∧ (r = Ok a ∨ r = Bad sqlError)).
Proof.
  unfold exec. destruct (cw_sql w) as [|[] net].
  - destruct (f (cw_db w)) as [[db a]|]; [| done]. intros E. injection E as <- <-. cbn. eauto 6.
  - destruct (f (cw_db w)) as [[db a]|]; [| done]. intros E. injection E as <- <-. cbn. eauto 6.
  - intros E. injection E as <- <-. cbn. auto.
  - destruct (f (cw_db w)) as [[db a]|]; [| done]. intros E. injection E as <- <-. cbn. eauto 6.
Qed.

Lemma elem_of_keys {A} (m : gmap (Z * Z) A) k : k ∈ (map_to_list m).*1 ↔ is_Some (m !! k).
Proof.
  rewrite list_elem_of_fmap. split.
  - intros ([k' x] & -> & Hx%elem_of_map_to_list). by exists x.
  - intros [x Hx]. exists (k, x). split; [done |]. by apply elem_of_map_to_list.
Qed.

Lemma keys_mono {A} (m m' : gmap (Z * Z) A) :
  (∀ k, is_Some (m !! k) → is_Some (m' !! k)) → (map_to_list m).*1 ⊆+ (map_to_list m').*1.
Proof.
  intros Hs. apply NoDup_submseteq; [apply NoDup_fst_map_to_list |]. intros k. rewrite !elem_of_keys. auto.
Qed.

Lemma row_done_mono jobs jobs' k row : jobs ⊆ jobs' → row_done jobs k row → row_done jobs' k row.
Proof. intros Hs (E & cf & Ek & Hj & Ej). split; [done |]. exists cf. auto. Qed.

(** A statement that loses no row and no job, and adds only rows and jobs in
    order, keeps the store in order. *)
Lemma ok_step w w' h :
  ledger_ok w h → (∀ k, is_Some (ledger (cw_db w) !! k) → is_Some (ledger (cw_db w') !! k)) →
  cw_jobs w ⊆ cw_jobs w' →
  (∀ k row, ledger (cw_db w') !! k = Some row → ledger (cw_db w) !! k = Some row ∨ row_ok (cw_jobs w') k row) →
  (∀ q, q ∈ cw_jobs w' → q ∈ cw_jobs w ∨ ∃ cf, q = job_of cf ∧ fire_key cf ∈ rows_ever w h) →
  ledger_ok w' h.
Proof.
  intros [O1 O2 O3 O4 O5] Hk Hj Hr Hq.
  assert (rows_ever w h ⊆+ rows_ever w' h) as Hm by (by apply submseteq_skips_l, keys_mono).
  assert (∀ k, k ∈ rows_ever w h → k ∈ rows_ever w' h) as He
    by (intros k Hin; by eapply elem_of_submseteq).
  split.
  - by etrans.
  - auto.
  - intros k row Hin. destruct (Hr k row Hin) as [Hold|]; [| done].
    destruct (O3 k row Hold) as [|Hd]; [by left | right]. by eapply row_done_mono.
  - intros k row Hin. eapply row_done_mono; [exact Hj | auto].
  - intros q Hin. destruct (Hq q Hin) as [(cf & -> & Hcf)%O5 | (cf & -> & Hcf)]; eauto.
Qed.

Lemma ok_same w w' h :
  ledger_ok w h → ledger (cw_db w') = ledger (cw_db w) → cw_jobs w' = cw_jobs w → ledger_ok w' h.
Proof. intros Ho El Ej. apply (ok_step w); rewrite ?El, ?Ej; auto. Qed.

Lemma exec_same {A} (f : cron_db → option (cron_db * A)) w w' r h :
  (∀ db db' a, f db = Some (db', a) → ledger db' = ledger db) →
  ledger_ok w h → exec f w = Some (w', r) → ledger_ok w' h.
Proof.
  intros Hf Ho E. apply exec_cases in E as [Ej [[Ed _]|(a & Ea & _)]]; apply (ok_same w); try done.
  - by rewrite Ed.
  - by eapply Hf.
Qed.

(** ** Claims *)

Lemma insert_fires_ok created sc fires jobs : ∀ db claimed db' out,
  insert_fires created sc fires db claimed = (db', out) →
  schedules db' = schedules db ∧
  ∃ new, out = claimed ++ new ∧ NoDup (fire_key <$> new) ∧
    (∀ cf, cf ∈ new → ledger db !! fire_key cf = None ∧ is_Some (ledger db' !! fire_key cf)) ∧
    (∀ k row, ledger db !! k = Some row → ledger db' !! k = Some row) ∧
    (∀ k row, ledger db' !! k = Some row → ledger db !! k = Some row ∨ row_ok jobs k row).
Proof.
  induction fires as [|fire fires IH]; intros db claimed db' out E; cbn [insert_fires] in E.
  { injection E as <- <-. split; [done |]. exists []. rewrite app_nil_r.
    split_and!; [done | constructor | by intros cf Hcf%elem_of_nil | done | by left]. }
  unfold insert_fire in E. destruct (ledger db !! (Sc_ID sc, datetime fire)) as [row0|] eqn:El.
  - by apply IH.
  - set (k0 := (Sc_ID sc, datetime fire)) in *. set (row0 := mkFireRow _ _ _ _) in E.
    destruct (IH _ _ _ _ E) as (Es & new & -> & Hn & Hnew & Hold & Hrows). cbn in Es, Hnew, Hold, Hrows.
    split; [done |]. exists (claimed_of sc fire :: new). rewrite <- app_assoc. split; [done |].
    assert (fire_key (claimed_of sc fire) = k0) as Ek by done. split_and!.
    + cbn. apply NoDup_cons. split; [| done]. rewrite Ek. intros Hin.
      apply list_elem_of_fmap in Hin as (cf & Ecf & Hcf). destruct (Hnew cf Hcf) as [Hnone _].
      rewrite <- Ecf, lookup_insert_eq in Hnone. done.
    + intros cf [->|Hcf]%elem_of_cons.
      * rewrite Ek. split; [done |]. exists row0. apply Hold. by rewrite lookup_insert_eq.
      * destruct (Hnew cf Hcf) as [Hnone Hsome]. split; [| done]. by apply lookup_insert_None in Hnone as [].
    + intros k row Hk. apply Hold. rewrite lookup_insert_ne; [done |]. intros <-. congruence.
    + intros k row Hk. destruct (Hrows k row Hk) as [Hk'|]; [| by right].
      apply lookup_insert_Some in Hk' as [[_ <-]|[_ Hk']]; [right; by left | by left].
Qed.

Lemma claim_due_ok created plan due jobs : ∀ db claimed db' out,
  claim_due created plan due db claimed = Some (db', out) →
  ∃ new, out = claimed ++ new ∧ NoDup (fire_key <$> new) ∧
    (∀ cf, cf ∈ new → ledger db !! fire_key cf = None ∧ is_Some (ledger db' !! fire_key cf)) ∧
    (∀ k row, ledger db !! k = Some row → ledger db' !! k = Some row) ∧
    (∀ k row, ledger db' !! k = Some row → ledger db !! k = Some row ∨ row_ok jobs k row).
Proof.
  induction due as [|sc due IH]; intros db claimed db' out E; cbn [claim_due] in E.
  { injection E as <- <-. exists []. rewrite app_nil_r.
    split_and!; [done | constructor | by intros cf Hcf%elem_of_nil | done | by left]. }
  destruct (plan sc) as [[p|err]|]; [| by apply IH in E | done].
  destruct (insert_fires created sc (Fires p) db claimed) as [db1 c1] eqn:Ei.
  destruct (insert_fires_ok created sc (Fires p) jobs _ _ _ _ Ei) as (_ & n1 & -> & N1 & F1 & O1 & R1).
  destruct (IH _ _ _ _ E) as (n2 & -> & N2 & F2 & O2 & R2). cbn in F2, O2, R2.
  exists (n1 ++ n2). rewrite app_assoc. split; [done |]. split_and!.
  - rewrite fmap_app. apply NoDup_app. split; [done |]. split; [| done]. intros k Hk1 Hk2.
    apply list_elem_of_fmap in Hk1 as (a & -> & Ha), Hk2 as (b & Eb & Hb).
    destruct (F1 a Ha) as [_ [row Hrow]], (F2 b Hb) as [Hnone _]. rewrite <- Eb in Hnone. congruence.
  - intros cf [Hcf|Hcf]%elem_of_app.
    + destruct (F1 cf Hcf) as [Hn [row Hr]]. split; [done |]. exists row. by apply O2.
    + destruct (F2 cf Hcf) as [Hn Hs]. split; [| done]. destruct (ledger db !! fire_key cf) as [row|] eqn:Er; [| done].
      apply O1 in Er. congruence.
  - auto.
  - intros k row Hk. destruct (R2 k row Hk) as [Hk'|]; [by apply R1 | by right].
Qed.

Lemma claim_ok w cs rs ps now created limit locked plan w' new err :
  ledger_ok w (mkHistory cs rs ps) → ClaimAndAdvance now created limit locked plan w = Some (w', (new, err)) →
  ledger_ok w' (mkHistory (cs ++ new) rs ps).
Proof.
  intros Ho. unfold ClaimAndAdvance, mbind, cio_bind.
  destruct (exec _ w) as [[w1 r]|] eqn:E; [| done]. intros Ew. injection Ew as <- Er.
  apply exec_cases in E as [Ej [[Ed ->]|(a & Ea & Hr)]].
  - injection Er as <- <-. rewrite app_nil_r. apply (ok_same w); [done | by rewrite Ed | done].
  - apply (claim_due_ok created plan _ (cw_jobs w1)) in Ea as (n & -> & N1 & F1 & K1 & R1).
    assert (ledger_ok w1 (mkHistory cs rs ps)) as Ho1.
    { apply (ok_step w); rewrite ?Ej in *; auto. intros k [row Hrow]. eauto. }
    destruct Hr as [->| ->]; injection Er as <- <-; [| by rewrite app_nil_r].
    assert ((map_to_list (ledger (cw_db w))).*1 ++ (fire_key <$> n) ⊆+ (map_to_list (ledger (cw_db w1))).*1) as Hs.
    { apply NoDup_submseteq.
      - apply NoDup_app. split; [apply NoDup_fst_map_to_list |]. split; [| done].
        intros k [row Hrow]%elem_of_keys (cf & -> & Hcf)%list_elem_of_fmap.
        destruct (F1 cf Hcf) as [Hnone _]. congruence.
      - intros k. rewrite elem_of_app, !elem_of_keys. intros [[row Hrow]|(cf & -> & Hcf)%list_elem_of_fmap].
        + eauto.
        + by apply F1. }
    destruct Ho as [O1 _ _ _ _], Ho1 as [P1 P2 P3 P4 P5]. cbn in *. split; cbn; try done.
    + rewrite fmap_app. unfold rows_ever in *. cbn in *. etrans; [apply submseteq_skips_r, O1 |].
      rewrite <- app_assoc. by apply submseteq_skips_l.
    + intros cf. rewrite <- app_assoc, elem_of_app, elem_of_app.
      intros [Hcf|[Hcf|Hcf]]; [apply P2; set_solver | | apply P2; set_solver].
      apply elem_of_app. right. apply elem_of_keys. by apply F1.
Qed.

(** ** Recoveries and prunes *)

Lemma datetime_nanos s : datetime (nanos s) = s.
Proof. unfold datetime, nanos. symmetry. apply (Z.div_unique _ _ _ 500000000); lia. Qed.

(** The sweep hands out fires whose row is in the ledger. *)
Lemma pending_fire_key db olderThan k row x :
  pending_fire db olderThan (k, row) = Some x → fire_key x.2 = k.
Proof.
  destruct k as [id at_]. unfold pending_fire. destruct (_ && _); [| done].
  destruct (list_find _ _) as [[i r]|]; [| done]. intros E. injection E as <-.
  unfold fire_key. cbn. by rewrite datetime_nanos.
Qed.

Lemma recover_ok w cs rs ps olderThan limit w' new err :
  ledger_ok w (mkHistory cs rs ps) → RecoverPending olderThan limit w = Some (w', (new, err)) →
  ledger_ok w' (mkHistory cs (rs ++ new) ps).
Proof.
  intros Ho. unfold RecoverPending, mbind, cio_bind.
  destruct (exec _ w) as [[w1 r]|] eqn:E; [| done]. intros Ew. injection Ew as <- Er.
  assert (ledger_ok w1 (mkHistory cs rs ps)) as Ho1.
  { eapply exec_same; [| exact Ho | exact E]. intros db db' a Ea. by injection Ea as <- _. }
  apply exec_cases in E as [Ej [[Ed ->]|(a & Ea & Hr)]]; [injection Er as <- <-; by rewrite app_nil_r |].
  destruct Hr as [->| ->]; injection Er as <- <-; [| by rewrite app_nil_r].
  injection Ea as Ed <-. destruct Ho1 as [P1 P2 P3 P4 P5]. split; try done. cbn.
  intros cf. rewrite app_assoc, elem_of_app. intros [Hcf|Hcf]; [by apply P2 |].
  apply elem_of_take in Hcf as (i & Hcf%list_elem_of_lookup_2 & _).
  apply list_elem_of_fmap in Hcf as (x & -> & Hx). rewrite merge_sort_Permutation in Hx.
  apply list_elem_of_omap in Hx as ([k row] & Hin & Hx). apply pending_fire_key in Hx as ->.
  apply elem_of_app. right. rewrite <- Ed. apply elem_of_keys. apply elem_of_map_to_list in Hin. eauto.
Qed.

Lemma keys_split {A} (m m' : gmap (Z * Z) A) :
  (map_to_list m).*1 ⊆+ (map_to_list (m ∖ m')).*1 ++ (map_to_list m').*1.
Proof.
  apply NoDup_submseteq; [apply NoDup_fst_map_to_list |]. intros k. rewrite elem_of_app, !elem_of_keys.
  intros [x Hx]. destruct (m' !! k) eqn:E; [eauto | left]. exists x. by apply lookup_difference_Some.
Qed.

(** A prune deletes rows of fires whose job was enqueued, and no other. *)
Lemma prune_ok w cs rs ps olderThan w' r :
  ledger_ok w (mkHistory cs rs ps) → Prune olderThan w = Some (w', r) →
  ledger_ok w' (mkHistory cs rs (ps ++ map_to_list (ledger (cw_db w) ∖ ledger (cw_db w')))).
Proof.
  intros [O1 O2 O3 O4 O5]. unfold Prune, mbind, cio_bind.
  destruct (exec _ w) as [[w1 x]|] eqn:E; [| done]. intros Ew. injection Ew as <- _.
  apply exec_cases in E as [Ej Hd].
  assert (∀ k row, ledger (cw_db w1) !! k = Some row → ledger (cw_db w) !! k = Some row) as Hsub.
  { destruct Hd as [[-> _]|(a & Ea & _)]; [done |]. injection Ea as <- _. cbn.
    by intros k row [? _]%map_lookup_filter_Some. }
  assert (∀ k row, ledger (cw_db w) !! k = Some row → ledger (cw_db w1) !! k = None →
            f_status row = "dispatched"%string) as Hgone.
  { destruct Hd as [[-> _]|(a & Ea & _)]; [congruence |]. injection Ea as <- _. cbn.
    intros k row Hk Hn. apply map_lookup_filter_None in Hn as [Hn|Hn]; [congruence |].
    specialize (Hn row Hk). cbn in Hn. unfold prunable in Hn.
    destruct (String.eqb_spec (f_status row) "dispatched"); [done | by destruct Hn]. }
  set (l := ledger (cw_db w)) in *. set (l' := ledger (cw_db w1)) in *.
  set (gone := map_to_list (l ∖ l')).
  assert (rows_ever w (mkHistory cs rs ps) ⊆+ rows_ever w1 (mkHistory cs rs (ps ++ gone))) as Hm.
  { unfold rows_ever. cbn. rewrite fmap_app, <- app_assoc. apply submseteq_skips_l, keys_split. }
  assert (∀ k, k ∈ rows_ever w (mkHistory cs rs ps) → k ∈ rows_ever w1 (mkHistory cs rs (ps ++ gone))) as He
    by (intros k Hin; by eapply elem_of_submseteq).
  split; cbn in *; rewrite ?Ej; auto.
  - by etrans.
  - intros k row [Hin|Hin]%elem_of_app; [auto |].
    apply elem_of_map_to_list, lookup_difference_Some in Hin as [Hk Hn].
    destruct (O3 k row Hk) as [[Hp _]|]; [| done]. specialize (Hgone k row Hk Hn). congruence.
  - intros q (cf & -> & Hcf)%O5. eauto.
Qed.

(** ** Enqueues *)

(** One attempt to mark: the row of a job that is in the log, or nothing. *)
Lemma mark_ok w h now cf w' r :
  job_of cf ∈ cw_jobs w → ledger_ok w h →
  MarkDispatched now (Cf_ScheduleID cf) (Cf_FireAt cf) (q_job (job_of cf)) w = Some (w', r) →
  ledger_ok w' h ∧ cw_jobs w' = cw_jobs w.
Proof.
  intros Hj Ho. unfold MarkDispatched, mbind, cio_bind.
  destruct (exec _ w) as [[w1 x]|] eqn:E; [| done]. intros Ew. injection Ew as <- _.
  apply exec_cases in E as [Ej [[Ed ->]|(a & Ea & _)]]; [split; [apply (ok_same w); [done | by rewrite Ed | done] | done] |].
  injection Ea as Ea _. split; [| done]. fold (fire_key cf) in Ea.
  assert (ledger (cw_db w1) = alter (mark_row now (q_job (job_of cf))) (fire_key cf) (ledger (cw_db w))) as El by (by rewrite <- Ea).
  apply (ok_step w); rewrite ?El, ?Ej; auto.
  - intros k Hk. by rewrite lookup_alter_is_Some.
  - intros k row. destruct (decide (fire_key cf = k)) as [<-|Hne].
    + rewrite lookup_alter_eq. destruct (ledger (cw_db w) !! _) as [row0|]; [| done]. intros Er. injection Er as <-.
      right. right. split; [done |]. by exists cf.
    + rewrite lookup_alter_ne by done. by left.
Qed.

Lemma mark_attempts_ok now ended cf h more : ∀ attempt w w' r,
  job_of cf ∈ cw_jobs w → ledger_ok w h →
  mark_attempts now ended (Cf_ScheduleID cf) (Cf_FireAt cf) (q_job (job_of cf)) more attempt w = Some (w', r) →
  ledger_ok w' h.
Proof.
  induction more as [|more IH]; intros attempt w w' r Hj Ho; cbn [mark_attempts]; unfold mbind, cio_bind;
    destruct (MarkDispatched _ _ _ _ w) as [[w1 x]|] eqn:E; try done;
    destruct (mark_ok _ _ _ _ _ _ Hj Ho E) as [Ho1 Ej].
  - destruct x; intros Ew; by injection Ew as <- <-.
  - destruct x as [err|]; [| intros Ew; by injection Ew as <- <-].
    destruct (ended attempt); [intros Ew; by injection Ew as <- <- |]. apply IH; [by rewrite Ej | done].
Qed.

Lemma enqueue_ok w h now ended cf w' r :
  ledger_ok w h → cf ∈ h_claimed h ++ h_recovered h → enqueue now ended cf w = Some (w', r) → ledger_ok w' h.
Proof.
  intros Ho Hin. unfold enqueue. fold (job_of cf). unfold mbind, cio_bind, Enqueue.
  assert (∀ net, let w1 := CronWorld (cw_db w) (cw_sql w) (cw_jobs w ++ [job_of cf]) net in
    ledger_ok w1 h ∧ job_of cf ∈ cw_jobs w1) as Hq.
  { intros net. split; [| cbn; set_solver]. apply (ok_step w); cbn; auto; [set_solver |].
    intros q [Hq| ->%list_elem_of_singleton]%elem_of_app; [by left | right].
    exists cf. split; [done |]. by apply (lo_handed _ _ Ho). }
  destruct (cw_enq w) as [|[] net]; cbn [tail].
  - destruct (Hq []) as [H1 H2]. by apply mark_attempts_ok.
  - destruct (Hq net) as [H1 H2]. by apply mark_attempts_ok.
  - intros E. injection E as <- <-. by apply (ok_same w).
  - intros E. injection E as <- <-. by apply Hq.
Qed.

Lemma upsert_same row db db' id : upsert_row row db = (db', id) → ledger db' = ledger db.
Proof. unfold upsert_row. destruct (list_find _ _) as [[i old]|]; intros E; by injection E as <- <-. Qed.

Lemma upsert_ok w h now sc w' r :
  ledger_ok w h → Upsert LoadLocation now sc w = Some (w', r) → ledger_ok w' h.
Proof.
  intros Ho. unfold Upsert. repeat (destruct (_ || _); [intros E; by injection E as <- <- |]).
  destruct (negb _); [intros E; by injection E as <- <- |]. destruct (Parse _) as [[ex|]|]; [| intros E; by injection E as <- <- | done].
  destruct (Location _ _ _) as [loc|]; [| intros E; by injection E as <- <-].
  destruct (Next _ _ _) as [[next|]|]; [| intros E; by injection E as <- <- | done].
  destruct (match Sc_Args sc with None => Ok "{}"%string | Some m => marshal m end) as [args|]; [| intros E; by injection E as <- <-].
  unfold mbind, cio_bind. destruct (exec _ w) as [[w1 x]|] eqn:E; [| done]. intros Ew. injection Ew as <- _.
  eapply exec_same; [| exact Ho | exact E]. intros db db' a Ea. injection Ea as Ea. by eapply upsert_same.
Qed.

Lemma filter_absent (k : Z * Z) l : k ∉ l → filter (k =.) l = [].
Proof.
  induction l as [|x l IH]; intros Hk; [done |]. apply not_elem_of_cons in Hk as [Hne Hk].
  rewrite filter_cons, decide_False by done. auto.
Qed.

Lemma filter_once (k : Z * Z) l : NoDup l → (length (filter (k =.) l) <= 1)%nat.
Proof.
  induction 1 as [|x l Hx Hn IH]; [cbn; lia |]. rewrite filter_cons. destruct (decide (k = x)) as [->|]; [| done].
  rewrite filter_absent by done. cbn. lia.
Qed.

Lemma rows_once w h k : k ∉ (h_pruned h).*1 → (length (filter (k =.) (rows_ever w h)) <= 1)%nat.
Proof.
  intros Hk. unfold rows_ever. rewrite filter_app, filter_absent by done. apply filter_once, NoDup_fst_map_to_list.
Qed.

Lemma claimed_at_most ks (fs : list ClaimedFire) k :
  fire_key <$> fs ⊆+ ks → (length (filter (k =.) ks) <= 1)%nat →
  (length (filter (λ cf, fire_key cf = k) fs) <= 1)%nat.
Proof.
  intros Hs Hl. assert (length (filter (λ cf, fire_key cf = k) fs) = length (filter (k =.) (fire_key <$> fs))) as ->.
  { clear. induction fs as [|cf fs IH]; [done |]. rewrite fmap_cons, !filter_cons.
    do 2 case_decide; cbn; congruence. }
  apply submseteq_Permutation in Hs as [rest Hp]. rewrite Hp, filter_app, length_app in Hl. lia.
Qed.

Lemma reach_ok w h : cron_reach w h → ledger_ok w h.
Proof.
  induction 1 as [w E1 E2|w cs rs ps now created limit locked plan w' new err _ IH E|w h now ended cf w' _ IH Hin E
    |w cs rs ps olderThan limit w' new err _ IH E|w cs rs ps olderThan w' r _ IH E|w h now sc w' r _ IH E
    |w h name b w' r _ IH E|w h name w' r _ IH E].
  - split; cbn; rewrite ?E1, ?E2; try (by intros ? ?%elem_of_nil); try (by intros ? ? ?%elem_of_nil); try done; apply submseteq_nil_l.
  - by eapply claim_ok.
  - by eapply enqueue_ok.
  - by eapply recover_ok.
  - by eapply prune_ok.
  - by eapply upsert_ok.
  - revert E. unfold SetEnabled, mbind, cio_bind. destruct (exec _ w) as [[w1 x]|] eqn:E; [| done].
    intros Ew. injection Ew as <- _. eapply exec_same; [| exact IH | exact E]. intros db db' a Ea. by injection Ea as <-.
  - revert E. unfold Delete, mbind, cio_bind. destruct (exec _ w) as [[w1 x]|] eqn:E; [| done].
    intros Ew. injection Ew as <- _. eapply exec_same; [| exact IH | exact E]. intros db db' a Ea. by injection Ea as <-.
Qed.

(** C26: a fire instant of a schedule is claimed at most once per ledger row.
    Whatever any number of nodes do (claims, enqueues, recoveries, prunes and edits
    of the schedules), with or without the leader lock, and however statements and
    produces fail: the claims are covered, with multiplicity, by the rows the ledger
    has and the rows a prune deleted, so an instant can be claimed again only after
    its row was pruned; a row is pending without a job or dispatched, and then, as
    every pruned row, its own fire was handed to the produce path; and only fires
    that got a row are ever enqueued. *)
Theorem cron_fires_claimed_once w h :
  cron_reach w h →
  let keys := (h_pruned h).*1 ++ (map_to_list (ledger (cw_db w))).*1 in
  let done_ (k : Z * Z) (row : fire_row) :=
    f_status row = "dispatched"%string ∧
    ∃ cf, fire_key cf = k ∧ job_of cf ∈ cw_jobs w ∧ f_job row = Some (q_job (job_of cf)) in
  fire_key <$> h_claimed h ⊆+ keys ∧
  (∀ k, k ∉ (h_pruned h).*1 → (length (filter (λ cf, fire_key cf = k) (h_claimed h)) <= 1)%nat) ∧
  (∀ k row, ledger (cw_db w) !! k = Some row →
     f_status row = "pending"%string ∧ f_job row = None ∨ done_ k row) ∧
  (∀ k row, (k, row) ∈ h_pruned h → done_ k row) ∧
  (∀ q, q ∈ cw_jobs w → ∃ cf, q = job_of cf ∧ fire_key cf ∈ keys).
Proof.
  intros [O1 O2 O3 O4 O5]%reach_ok. split; [done |]. split; [| done].
  intros k Hk. by apply (claimed_at_most (rows_ever w h)); [| apply rows_once].
Qed.
End ledger.

(** ** Recovery *)

Section recovery.
Context `{Json}.

Lemma omap_shorter {A B} (f : A → option B) (l : list A) : (length (omap f l) <= length l)%nat.
Proof. induction l as [|x l IH]; [done |]. cbn. destruct (f x); cbn; lia. Qed.

(** The sweep finds a pending fire that is old enough, when its schedule is still
    defined and the limit does not cut it off. *)
Lemma recover_finds w k row olderThan limit sched i :
  cw_sql w = [] → ledger (cw_db w) !! k = Some row → f_status row = "pending"%string →
  nanos (f_created row) < olderThan → list_find (λ r, r_id r = k.1) (schedules (cw_db w)) = Some (i, sched) →
  Z.of_nat (size (ledger (cw_db w))) <= limit → 0 < limit →
  ∃ w' l, RecoverPending olderThan limit w = Some (w', (l, None)) ∧
    ∃ cf, cf ∈ l ∧ Cf_ScheduleID cf = k.1 ∧ Cf_FireAt cf = nanos k.2.
Proof.
  intros Hq Hk Hs Ho Hf Hl Hp. unfold RecoverPending, mbind, cio_bind, exec. rewrite Hq.
  destruct (Z.leb_spec limit 0); [lia |]. eexists _, _. split; [done |].
  set (found := omap _ _).
  assert (length found <= Z.to_nat limit)%nat as Hlen.
  { unfold found. etrans; [apply omap_shorter |]. rewrite length_map_to_list. lia. }
  destruct k as [id at_]. cbn in Hf |- *.
  exists (mkFired id (r_name sched) (r_job_type sched) (default ""%string (r_tenant sched)) (decodeArgs (r_args sched)) (nanos at_)).
  split; [| done]. rewrite <- fmap_take. apply list_elem_of_fmap.
  eexists (f_created row, _). split; [done |]. rewrite take_ge by (by rewrite merge_sort_Permutation).
  rewrite merge_sort_Permutation. apply list_elem_of_omap. exists ((id, at_), row).
  split; [by apply elem_of_map_to_list |]. unfold pending_fire. rewrite Hs. cbn.
  destruct (Z.ltb_spec (nanos (f_created row)) olderThan); [| lia]. by rewrite Hf.
Qed.

(** Delete's comment says that the rows of a deleted schedule are pruned; one that
    is still pending is neither recovered nor pruned. *)
Lemma orphan_is_stuck w k row olderThan :
  cw_sql w = [] → ledger (cw_db w) !! k = Some row → f_status row = "pending"%string →
  ∃ w' n, Prune olderThan w = Some (w', (n, None)) ∧ ledger (cw_db w') !! k = Some row.
Proof.
  intros Hq Hk Hs. unfold Prune, mbind, cio_bind, exec. rewrite Hq. eexists _, _. split; [done |]. cbn.
  apply map_lookup_filter_Some. split; [done |]. cbn. unfold prunable. by rewrite Hs.
Qed.
End recovery.

(** ** The ticker at the end of daylight saving time *)

From S2P Require Import Concrete.

Definition zones (name : string) : result location :=
  if String.eqb name "America/New_York" then Ok NewYork else Bad "unknown time zone".

Definition nightly_row : sched_row :=
  mkSchedRow 1 "nightly" "0 3 * * *" "America/New_York" "report" None None 1 "fire_once" 1730530800 None.

Definition minutely_row : sched_row :=
  mkSchedRow 2 "minutely" "* * * * *" "UTC" "ping" None None 1 "fire_once" 1730530860 None.

Lemma nightly_plan now grace cap : PlanFires "fire_once" fired nightly NewYork now grace cap = None.
Proof.
  unfold PlanFires. change (String.eqb "fire_once" MisfireBackfill) with false.
  change (String.eqb "fire_once" MisfireSkip) with false.
  assert (advancePast nightly NewYork fired now = None) as ->; [| done].
  assert (advance_step nightly NewYork now (0, fired) = Finished_ None) as Hs.
  { unfold advance_step. change (0 <? 1000000) with true. rewrite nightly_none. reflexivity. }
  unfold advancePast. rewrite (iterate_finished _ 20 _ _ Hs). reflexivity.
Qed.

(** A ticker with a due schedule that runs at three in New York does not come back
    from the tick that fires it on 2 November 2024: the scan for its next instant
    does not end, inside the transaction that holds the rows of every due schedule. *)
Lemma fall_back_wedges_ticker t created ended :
  tick zones (applyDefaults t) None (nanos 1730530865) created (λ _, false) ended
    (CronWorld (mkCronDB [nightly_row; minutely_row] ∅ 3) [] [] []) = None.
Proof.
  assert (∀ n, 1 <= orDefault n 100) as Hb by (intros n; unfold orDefault; destruct (Z.leb_spec n 0); lia).
  unfold tick, dispatchDue, ClaimAndAdvance. set (b := BatchSize (applyDefaults t)).
  assert (1 <= b) as H1 by apply Hb. destruct (Z.leb_spec b 0); [lia |].
  unfold mbind, cio_bind, exec. cbn [cw_sql cw_db].
  assert (∃ rest, scanSchedule <$> due_rows (λ _, false) (nanos 1730530865) b (mkCronDB [nightly_row; minutely_row] ∅ 3)
    = scanSchedule nightly_row :: rest) as [rest ->].
  { unfold due_rows. replace (Z.to_nat b) with (S (Z.to_nat (b - 1))) by lia.
    exists (scanSchedule <$> take (Z.to_nat (b - 1)) [minutely_row]). vm_compute (merge_sort _ _). done. }
  cbn [claim_due]. assert (planFor zones (applyDefaults t) (nanos 1730530865) (scanSchedule nightly_row) = None) as ->; [| done].
  unfold planFor. change (Parse (Sc_CronExpr (scanSchedule nightly_row))) with (Parse "0 3 * * *").
  assert (Parse "0 3 * * *" = Some (Ok nightly)) as -> by (vm_compute; reflexivity).
  change (Location zones (Sc_Name (scanSchedule nightly_row)) (Sc_Timezone (scanSchedule nightly_row))) with (Ok NewYork).
  change (Sc_NextRunAt (scanSchedule nightly_row)) with fired.
  change (Sc_Misfire (scanSchedule nightly_row)) with "fire_once"%string.
  cbv iota beta. rewrite nightly_plan. reflexivity.
Qed.

(** ** A concrete trace *)

Definition demo_ticker : Ticker := applyDefaults (mkTicker 0 0 0 0 0 0 0 0 0 0 None None None).

(** Two nodes claim the same due fire; the second gets nothing. *)
Definition demo_cron : cron_world := CronWorld (mkCronDB [minutely_row] ∅ 3) [] [] [].

Definition demo_claim (w : cron_world) : option (cron_world * (list ClaimedFire * error)) :=
  ClaimAndAdvance (nanos 1730530870) (nanos 1730530870) 10 (λ _, false) (planFor zones demo_ticker (nanos 1730530870)) w.

Definition demo_claimed : cron_world * list ClaimedFire :=
  match demo_claim demo_cron with Some (w, (l, _)) => (w, l) | None => (demo_cron, []) end.

(** The claimed fire is enqueued, and its row is pruned later. *)
Definition demo_enqueued : cron_world :=
  match demo_claimed.2 with
  | cf :: _ => match enqueue (nanos 1730530871) (λ _, false) cf demo_claimed.1 with Some (w, _) => w | None => demo_claimed.1 end
  | [] => demo_claimed.1
  end.

Definition demo_pruned : cron_world :=
  match Prune (nanos 1830530871) demo_enqueued with Some (w, _) => w | None => demo_enqueued end.

Definition demo_history : cron_history :=
  mkHistory ([] ++ demo_claimed.2) []
    ([] ++ map_to_list (ledger (cw_db demo_enqueued) ∖ ledger (cw_db demo_pruned))).

Lemma demo_reach : cron_reach zones demo_pruned demo_history.
Proof.
  eapply (cr_prune _ demo_enqueued _ _ _ (nanos 1830530871)); [| vm_compute; reflexivity].
  refine (cr_enqueue zones demo_claimed.1 _ (nanos 1730530871) (λ _, false)
            (default (mkFired 0 "" "" "" ∅ 0) (head demo_claimed.2)) _ _ _ _).
  - refine (cr_claim zones demo_cron [] [] [] (nanos 1730530870) (nanos 1730530870) 10 (λ _, false)
       (planFor zones demo_ticker (nanos 1730530870)) demo_claimed.1 demo_claimed.2 None
       (cr_start zones demo_cron eq_refl eq_refl) _).
    vm_compute. reflexivity.
  - vm_compute. left.
  - vm_compute. reflexivity.
Qed.

Lemma cron_fires_claimed_once_witness :
  length (h_claimed demo_history) = 1%nat ∧ length (h_pruned demo_history) = 1%nat ∧
  fire_key <$> h_claimed demo_history ⊆+
    (h_pruned demo_history).*1 ++ (map_to_list (ledger (cw_db demo_pruned))).*1.
Proof.
  split; [vm_compute; reflexivity |]. split; [vm_compute; reflexivity |].
  apply (cron_fires_claimed_once zones demo_pruned demo_history demo_reach).
Defined.
