(* ===== verification/ScheduleIndex.v ===== *)
(** The index of delayed jobs: pkg/schedule/member.go, lua.go, redis.go, mysql.go.

    A delayed job is a record of the scheduled topic and a member of the index
    that points at it.  The index is kept in Redis, in two sorted sets, or in a
    table of MySQL; [IndexStore] is what the poller uses of either, the interface
    of store_iface.go. *)
From S2P Require Import Prelude Redis Client Store Sql.

(** ** Members *)

Record Member := mkMember { JobID : string; Partition : Z; Offset : Z }.

Definition int32 (z : Z) : Z := (z + 2 ^ 31) mod 2 ^ 32 - 2 ^ 31.

Definition BuildKey (partition offset : Z) : string := (itoa partition +:+ ":" +:+ itoa offset)%string.

Definition BuildMember (jobID : string) (partition offset : Z) : string :=
  (jobID +:+ ":" +:+ itoa partition +:+ ":" +:+ itoa offset)%string.

(** What is before and after the last colon. *)
Fixpoint last_colon (s : string) : option (string * string) :=
  match s with
  | EmptyString => None
  | String c s =>
      match last_colon s with
      | Some (a, b) => Some (String c a, b)
      | None => if is_char 58 c then Some (EmptyString, s) else None
      end
  end.

Definition ParseMember (member : string) : option Member :=
  match last_colon member with
  | None => None
  | Some (rest, offsetStr) =>
      if String.eqb rest "" then None
      else match last_colon rest with
           | None => None
           | Some (jobID, partStr) =>
               if String.eqb jobID "" || String.eqb partStr "" || String.eqb offsetStr "" then None
               else match parseInt partStr, parseInt offsetStr with
                    | (part, true), (off, true) => Some (mkMember jobID (int32 part) off)
                    | _, _ => None
                    end
           end
  end.

(** ** The interface *)

Record ScheduleEntry := mkEntry { E_JobID : string; E_RunAt : Z; E_Partition : Z; E_Offset : Z; E_BatchID : string }.

Definition entry_member (e : ScheduleEntry) : string := BuildMember (E_JobID e) (E_Partition e) (E_Offset e).

(** [proc] is the process that asks: the MySQL store counts read misses in the
    memory of the process.  [Ack] is the list of its statements, which are sent
    until one fails. *)
Class IndexStore (St : Type) := {
  ClaimDue (now leaseSeconds limit : Z) : St -> St * (list string * error);
  Ack (members : list string) : list (St -> St * error);
  Reclaim (now : Z) : St -> St * (Z * error);
  RecordReadMiss (proc : nat) (member : string) : St -> St * (Z * error);
  ClearReadMiss (proc : nat) (member : string) : St -> St * error;
  ScheduleMany (entries : list ScheduleEntry) : St -> St * error
}.

(** ** The index in Redis *)

Definition pendingKey : string := "kafka_batch:sched:pending".
Definition inflightKey : string := "kafka_batch:sched:inflight".
Definition readMissKey : string := "kafka_batch:sched:read_miss".

(** A time in seconds, as a score. *)
Definition epoch (ns : Z) : Q := inject_Z ns / inject_Z 1000000000.

(** LIMIT 0 n; a negative n is no limit. *)
Definition limited {A} (n : Z) (l : list A) : list A := if n <? 0 then l else take (Z.to_nat n) l.

Section scripts.
Context {R : Type}.

Fixpoint move_members (from to : string) (score : Q) (l : list string) : script R unit :=
  match l with
  | [] => mret tt
  | m :: l => _ ← ZREM from m; ZADD to score m;; move_members from to score l
  end.
End scripts.

Definition claimDueLua (now : Q) (limit : Z) (leaseUntil : Q) : script (list string) unit :=
  due ← ZRANGEBYSCORE pendingKey (ZRange None (Some (false, now)));
  let due := limited limit due in
  when (bool_decide (due = [])) (lua_return []);;
  move_members pendingKey inflightKey leaseUntil due;;
  lua_return due.

Definition reclaimLua (now : Q) (limit : Z) : script Z unit :=
  expired ← ZRANGEBYSCORE inflightKey (ZRange None (Some (false, now)));
  let expired := limited limit expired in
  move_members inflightKey pendingKey now expired;;
  lua_return (Z.of_nat (length expired)).

(** ZADD and ZREM with several members, HINCRBY with its reply. *)
Definition zadd_all (k : string) (l : list (Q * string)) : cmd unit :=
  command (lift (fun s => get_zset s k) (fun z => modify (put_zset k (foldl (fun z p => <[p.2 := p.1]> z) z l)))).

Definition zrem_all (k : string) (l : list string) : cmd unit :=
  command (lift (fun s => get_zset s k) (fun z => modify (put_zset k (foldl (fun z m => delete m z) z l)))).

Definition hincrby (k f : string) (d : Z) : cmd Z :=
  command (HINCRBY k f d;; v ← HGET k f; mret (default 0 (v ≫= atoi))).

Definition err {A} (r : result A) : error := match r with Ok _ => None | Bad e => Some e end.

Definition NewRedisStore (reclaimLimit : Z) : Z := if reclaimLimit <=? 0 then 500 else reclaimLimit.

Section redis_store.
Context (reclaimLimit : Z).

Definition redis_Schedule (jobID : string) (runAt partition offset : Z) : io error :=
  r ← do (zadd_all pendingKey [(epoch runAt, BuildMember jobID partition offset)]); mret (err r).

Definition redis_ScheduleMany (entries : list ScheduleEntry) : io error :=
  match entries with
  | [] => mret None
  | _ => r ← do (zadd_all pendingKey ((λ e, (epoch (E_RunAt e), entry_member e)) <$> entries)); mret (err r)
  end.

Definition redis_ClaimDue (now leaseSeconds limit : Z) : io (list string * error) :=
  r ← do (call (claimDueLua (epoch now) limit (epoch now + inject_Z leaseSeconds)%Q));
  mret (match r with Ok l => (l, None) | Bad e => ([], Some e) end).

Definition redis_Ack (members : list string) : list (io error) :=
  match members with
  | [] => []
  | _ => [r ← do (zrem_all inflightKey members); mret (err r)]
  end.

Definition redis_Reclaim (now : Z) : io (Z * error) :=
  r ← do (call (reclaimLua (epoch now) reclaimLimit));
  mret (match r with Ok n => (n, None) | Bad e => (0, Some e) end).

Definition redis_RecordReadMiss (member : string) : io (Z * error) :=
  r ← do (hincrby readMissKey member 1); mret (match r with Ok n => (n, None) | Bad e => (0, Some e) end).

Definition redis_ClearReadMiss (member : string) : io error :=
  r ← do (command (HDEL readMissKey member)); mret (err r).

Definition redis_index : IndexStore world := {|
  ClaimDue := redis_ClaimDue; Ack := redis_Ack; Reclaim := redis_Reclaim;
  RecordReadMiss _ := redis_RecordReadMiss; ClearReadMiss _ := redis_ClearReadMiss;
  ScheduleMany := redis_ScheduleMany
|}.
End redis_store.

(** ** The index in MySQL *)

(** A row of kafka_batch_scheduled_jobs, whose key is the job's id; times are in
    microseconds, as in a DATETIME(6) column. *)
Record job_row := mkJobRow {
  j_run_at : Z; j_partition : Z; j_offset : Z; j_batch : option string; j_lease : option Z
}.

(** [ix_locked]: for each transaction to come, the rows others hold. *)
Record mysql_index_db := mkIndexDB {
  ix_rows : gmap string job_row; ix_net : list sql_fault; ix_locked : list (string -> bool);
  ix_misses : gmap (nat * string) Z
}.

Definition micros (ns : Z) : Z := (ns + 500) / 1000.

(** A statement on the rows. *)
Definition statement {A} (f : gmap string job_row -> gmap string job_row * A) (d : mysql_index_db)
    : mysql_index_db * result A :=
  let '(rows, r) := sql_answer (default SqlFine (head (ix_net d))) f (ix_rows d) in
  (mkIndexDB rows (tail (ix_net d)) (ix_locked d) (ix_misses d), r).

Definition upsert_job (e : ScheduleEntry) (rows : gmap string job_row) : gmap string job_row :=
  <[E_JobID e := mkJobRow (micros (E_RunAt e)) (E_Partition e) (E_Offset e)
                   (if String.eqb (E_BatchID e) "" then None else Some (E_BatchID e)) None]> rows.

Definition mysql_Schedule (e : ScheduleEntry) (d : mysql_index_db) : mysql_index_db * error :=
  let '(d, r) := statement (fun rows => (upsert_job e rows, tt)) d in (d, err r).

Definition mysql_ScheduleMany (entries : list ScheduleEntry) (d : mysql_index_db) : mysql_index_db * error :=
  match entries with
  | [] => (d, None)
  | _ => let '(d, r) := statement (fun rows => (foldl (fun rows e => upsert_job e rows) rows entries, tt)) d in (d, err r)
  end.

Definition run_at_le (x y : string * job_row) : Prop := j_run_at x.2 <= j_run_at y.2.
#[export] Instance run_at_le_dec : RelDecision run_at_le := λ x y, Z_le_dec (j_run_at x.2) (j_run_at y.2).

(** Due, and without a lease that still runs. *)
Definition claimable (now : Z) (r : job_row) : bool :=
  (j_run_at r <=? now) && match j_lease r with None => true | Some t => t <=? now end.

Definition set_lease (lease : option Z) (r : job_row) : job_row :=
  mkJobRow (j_run_at r) (j_partition r) (j_offset r) (j_batch r) lease.

Definition row_member (x : string * job_row) : string := BuildMember x.1 (j_partition x.2) (j_offset x.2).

Definition claim_rows (locked : string -> bool) (now lease limit : Z) (rows : gmap string job_row)
    : gmap string job_row * list string :=
  let due := take (Z.to_nat limit)
    (merge_sort run_at_le (filter (λ x, claimable now x.2 && negb (locked x.1) = true) (map_to_list rows))) in
  (foldl (fun rows x => alter (set_lease (Some lease)) x.1 rows) rows due, row_member <$> due).

(** MySQL refuses a negative LIMIT. *)
Definition mysql_ClaimDue (now leaseSeconds limit : Z) (d : mysql_index_db) : mysql_index_db * (list string * error) :=
  if limit <? 0 then (d, ([], Some "mysql: syntax error"%string))
  else
    let locked := default (λ _, false) (head (ix_locked d)) in
    let '(d, r) := statement (claim_rows locked (micros now) (micros (now + leaseSeconds * 1000000000)) limit) d in
    (mkIndexDB (ix_rows d) (ix_net d) (tail (ix_locked d)) (ix_misses d),
     match r with Ok l => (l, None) | Bad e => ([], Some e) end).

Definition delete_job (jobID : string) (d : mysql_index_db) : mysql_index_db * error :=
  let '(d, r) := statement (fun rows => (delete jobID rows, tt)) d in (d, err r).

Definition mysql_Ack (members : list string) : list (mysql_index_db -> mysql_index_db * error) :=
  omap (λ m, (λ pm, delete_job (JobID pm)) <$> ParseMember m) members.

Definition expired_lease (now : Z) (r : job_row) : bool :=
  match j_lease r with None => false | Some t => t <=? now end.

Definition mysql_Reclaim (now : Z) (d : mysql_index_db) : mysql_index_db * (Z * error) :=
  let '(d, r) := statement (fun rows =>
    ((λ r, if expired_lease (micros now) r then set_lease None r else r) <$> rows,
     Z.of_nat (size (filter (λ x : string * job_row, expired_lease (micros now) x.2 = true) rows)))) d in
  (d, match r with Ok n => (n, None) | Bad e => (0, Some e) end).

Definition set_misses (m : gmap (nat * string) Z) (d : mysql_index_db) : mysql_index_db :=
  mkIndexDB (ix_rows d) (ix_net d) (ix_locked d) m.

Definition mysql_RecordReadMiss (proc : nat) (member : string) (d : mysql_index_db) : mysql_index_db * (Z * error) :=
  let n := default 0 (ix_misses d !! (proc, member)) + 1 in
  (set_misses (<[(proc, member) := n]> (ix_misses d)) d, (n, None)).

Definition mysql_ClearReadMiss (proc : nat) (member : string) (d : mysql_index_db) : mysql_index_db * error :=
  (set_misses (delete (proc, member) (ix_misses d)) d, None).

Definition mysql_index : IndexStore mysql_index_db := {|
  ClaimDue := mysql_ClaimDue; Ack := mysql_Ack; Reclaim := mysql_Reclaim;
  RecordReadMiss := mysql_RecordReadMiss; ClearReadMiss := mysql_ClearReadMiss;
  ScheduleMany := mysql_ScheduleMany
|}.
