(* ===== verification/ScheduleIndexProps.v ===== *)
(** What the index of delayed jobs promises: members read back, and the laws of
    [IndexStore] for the store in Redis and the store in MySQL. *)
From S2P Require Import Prelude Redis Client Store Sql ScheduleIndex.

(** ** Members *)

Fixpoint colonless (s : string) : Prop :=
  match s with EmptyString => True | String c s => is_char 58 c = false ∧ colonless s end.

Lemma colonless_uint (d : Decimal.uint) : colonless (DecimalString.NilEmpty.string_of_uint d).
Proof. by induction d; cbn. Qed.

Lemma colonless_itoa z : colonless (itoa z).
Proof.
  unfold itoa, DecimalString.NilZero.string_of_int, DecimalString.NilZero.string_of_uint.
  destruct (Z.to_int z) as [d|d]; destruct d; cbn; repeat split; apply colonless_uint.
Qed.

Lemma itoa_nonempty z : itoa z ≠ ""%string.
Proof. intros E. pose proof (atoi_itoa z) as H. by rewrite E in H. Qed.

Lemma itoa_inj : Inj (=) (=) itoa.
Proof. intros a b E. pose proof (atoi_itoa a) as H. rewrite E, atoi_itoa in H. congruence. Qed.

Lemma last_colon_none s : colonless s → last_colon s = None.
Proof. induction s as [|c s IH]; cbn; [done |]. intros [Hc Hs]. by rewrite (IH Hs), Hc. Qed.

Lemma last_colon_app a b : colonless b → last_colon (a +:+ ":" +:+ b) = Some (a, b).
Proof.
  intros Hb. induction a as [|c a IH].
  - change (last_colon (String (Ascii.ascii_of_N 58) b) = Some (""%string, b)). cbn [last_colon].
    by rewrite last_colon_none.
  - change (last_colon (String c (a +:+ ":" +:+ b)) = Some (String c a, b)). cbn [last_colon]. by rewrite IH.
Qed.

(** The id a member is about, when it has two colons. *)
Definition job_of (m : string) : option string :=
  match last_colon m with
  | Some (rest, _) => match last_colon rest with Some (j, _) => Some j | None => None end
  | None => None
  end.

Lemma append_assoc_colon a b c : (a +:+ ":" +:+ b +:+ ":" +:+ c)%string = ((a +:+ ":" +:+ b) +:+ ":" +:+ c)%string.
Proof. induction a as [|x a IH]; [reflexivity |]. exact (f_equal (String x) IH). Qed.

Lemma BuildMember_split j p o : last_colon (BuildMember j p o) = Some ((j +:+ ":" +:+ itoa p)%string, itoa o).
Proof. unfold BuildMember. rewrite append_assoc_colon. apply last_colon_app, colonless_itoa. Qed.

Lemma job_of_BuildMember j p o : job_of (BuildMember j p o) = Some j.
Proof. unfold job_of. by rewrite BuildMember_split, (last_colon_app j (itoa p)) by apply colonless_itoa. Qed.

Lemma BuildMember_inj j p o j' p' o' : BuildMember j p o = BuildMember j' p' o' → j = j' ∧ p = p' ∧ o = o'.
Proof.
  intros E. pose proof (BuildMember_split j p o) as H. rewrite E, BuildMember_split in H. injection H as H Ho.
  apply itoa_inj in Ho as ->. pose proof (last_colon_app j (itoa p) (colonless_itoa p)) as H'.
  rewrite <- H, last_colon_app in H' by apply colonless_itoa. injection H' as -> Hp. by apply itoa_inj in Hp as ->.
Qed.

Lemma BuildKey_inj p o p' o' : BuildKey p o = BuildKey p' o' → p = p' ∧ o = o'.
Proof.
  unfold BuildKey. intros E. pose proof (last_colon_app (itoa p) (itoa o) (colonless_itoa o)) as H.
  rewrite E, last_colon_app in H by apply colonless_itoa. injection H as Hp Ho.
  by apply itoa_inj in Hp as ->; apply itoa_inj in Ho as ->.
Qed.

Lemma ParseMember_job m pm : ParseMember m = Some pm → job_of m = Some (JobID pm).
Proof.
  unfold ParseMember, job_of. destruct (last_colon m) as [[rest off]|]; [| done].
  destruct (String.eqb rest ""); [done |]. destruct (last_colon rest) as [[j part]|]; [| done].
  destruct (_ || _); [done |]. destruct (parseInt part) as [? []], (parseInt off) as [? []]; try done. by intros [= <-].
Qed.

Lemma int32_id z : - 2 ^ 31 <= z < 2 ^ 31 → int32 z = z.
Proof. unfold int32. intros. rewrite Z.mod_small; lia. Qed.

(** A member that was built for a job with an id, a partition and an offset
    that fit their types is read back as what it was built from, whatever
    characters the job's id has. *)
Theorem ParseMember_BuildMember j p o :
  j ≠ ""%string → - 2 ^ 31 <= p < 2 ^ 31 → - maxInt64 <= o <= maxInt64 →
  ParseMember (BuildMember j p o) = Some (mkMember j p o).
Proof.
  intros Hj Hp Ho. unfold ParseMember. rewrite BuildMember_split.
  destruct (String.eqb_spec (j +:+ ":" +:+ itoa p) "") as [E|_]; [by destruct j |].
  rewrite last_colon_app by apply colonless_itoa.
  destruct (String.eqb_spec j ""); [done |]. destruct (String.eqb_spec (itoa p) ""); [by destruct (itoa_nonempty p) |].
  destruct (String.eqb_spec (itoa o) ""); [by destruct (itoa_nonempty o) |]. cbn [orb].
  rewrite !parseInt_itoa by (unfold maxInt64 in *; lia). by rewrite int32_id.
Qed.

Lemma ParseMember_BuildMember_witness :
  BuildMember "a:b" 3 77 = "a:b:3:77"%string ∧ ParseMember (BuildMember "a:b" 3 77) = Some (mkMember "a:b" 3 77).
Proof.
  split; [vm_compute; reflexivity |].
  apply (ParseMember_BuildMember "a:b" 3 77); [discriminate | lia | unfold maxInt64; lia].
Defined.

(** ** The laws of an index *)

(** [held]: the members in the index; [covers a m]: acknowledging or scheduling
    [a] may take [m] out of it. *)
Class IndexLaws (St : Type) `{IndexStore St} := {
  sound : St -> Prop;
  held : St -> gset string;
  covers : string -> string -> Prop;
  claim_law now lease limit s s' ms e :
    sound s → ClaimDue now lease limit s = (s', (ms, e)) → sound s' ∧ held s' = held s ∧ ∀ m, m ∈ ms → m ∈ held s;
  reclaim_law now s s' r : sound s → Reclaim now s = (s', r) → sound s' ∧ held s' = held s;
  miss_law proc m s s' r : sound s → RecordReadMiss proc m s = (s', r) → sound s' ∧ held s' = held s;
  clear_law proc m s s' r : sound s → ClearReadMiss proc m s = (s', r) → sound s' ∧ held s' = held s;
  ack_law ms f s s' r :
    sound s → f ∈ Ack ms → f s = (s', r) →
    sound s' ∧ held s' ⊆ held s ∧ ∀ m, m ∈ held s → m ∉ held s' → ∃ a, a ∈ ms ∧ covers a m;
  schedule_law es s s' e :
    sound s → ScheduleMany es s = (s', e) →
    sound s' ∧ held s' ⊆ held s ∪ list_to_set (entry_member <$> es) ∧
    (∀ m, m ∈ held s → m ∉ held s' → ∃ a, a ∈ entry_member <$> es ∧ a ≠ m ∧ covers a m) ∧
    (e = None → ∀ m, m ∈ entry_member <$> es → m ∈ held s' ∨ ∃ a, a ∈ entry_member <$> es ∧ a ≠ m ∧ covers a m)
}.

(** ** The laws in Redis *)

Definition index_keys (s : redis) (p i : gmap string Q) : Prop :=
  get_zset s pendingKey = Some p ∧ get_zset s inflightKey = Some i.

Definition redis_sound (w : world) : Prop := ∃ p i, index_keys (w_db w) p i.

Definition members_of (s : redis) : gset string :=
  dom (default ∅ (get_zset s pendingKey)) ∪ dom (default ∅ (get_zset s inflightKey)).

Lemma members_of_keys s p i : index_keys s p i → members_of s = dom p ∪ dom i.
Proof. unfold members_of. by intros [-> ->]. Qed.

(** A command takes the index from [s] to [s'] without losing its keys. *)
Definition index_to (R : gset string → gset string → Prop) (s s' : redis) : Prop :=
  ∀ p i, index_keys s p i → ∃ p' i', index_keys s' p' i' ∧ R (dom p ∪ dom i) (dom p' ∪ dom i').

(** Whatever the network does, a round trip ran its command or did nothing. *)
Lemma do_index {A} (c : cmd A) (R : gset string → gset string → Prop) w w' r :
  (∀ x, R x x) → index_to R (w_db w) (c (w_db w)).1 → redis_sound w → do c w = (w', r) →
  redis_sound w' ∧ R (members_of (w_db w)) (members_of (w_db w')) ∧
  ((∃ a, r = Ok a) → w_db w' = (c (w_db w)).1 ∧ r = (c (w_db w)).2).
Proof.
  intros HR Hc (p & i & Hk) E. pose proof (do_cases c w) as Hd. rewrite E in Hd.
  destruct Hd as [[Hw [e ->]]|[Hw Hr]]; rewrite Hw.
  - split; [exists p, i; by rewrite Hw |]. split; [apply HR |]. by intros [a [=]].
  - destruct (Hc p i Hk) as (p' & i' & Hk' & HR'). split; [exists p', i'; by rewrite Hw |].
    split; [by rewrite (members_of_keys _ _ _ Hk), (members_of_keys _ _ _ Hk') |].
    intros [a ->]. split; [done |]. destruct Hr as [Hr|[e [=]]]. done.
Qed.

Lemma pending_inflight : pendingKey ≠ inflightKey.
Proof. done. Qed.

Lemma move_members_spec {R} from to score l : from ≠ to → ∀ s z1 z2,
  get_zset s from = Some z1 → get_zset s to = Some z2 →
  ∃ s' z1' z2', move_members (R := R) from to score l s = (s', Redis.Next tt) ∧
    get_zset s' from = Some z1' ∧ get_zset s' to = Some z2' ∧
    dom z1' ∪ dom z2' = dom z1 ∪ dom z2 ∪ list_to_set l.
Proof.
  intros Hne. induction l as [|m l IH]; intros s z1 z2 H1 H2.
  - exists s, z1, z2. repeat split; [done | done |]. set_solver.
  - set (s1 := put_zset to (<[m := score]> z2) (put_zset from (delete m z1) s)).
    assert (move_members (R := R) from to score (m :: l) s = move_members from to score l s1) as ->.
    { unfold s1. cbn [move_members]. unfold mbind at 1, script_bind, ZREM, lift at 1. rewrite H1.
      unfold mbind at 1, script_bind, ZADD, lift. by rewrite (same_get_zset to _ s) by (by apply kdb_put_zset_ne); rewrite H2. }
    destruct (IH s1 (delete m z1) (<[m := score]> z2)) as (s' & z1' & z2' & -> & H1' & H2' & Hd).
    { unfold s1. rewrite (same_get_zset _ _ (put_zset from (delete m z1) s)) by (by apply kdb_put_zset_ne, not_eq_sym).
      apply get_zset_put_zset. }
    { apply get_zset_put_zset. }
    exists s', z1', z2'. repeat split; [done | done |]. rewrite Hd. rewrite dom_delete_L, dom_insert_L. cbn.
    apply set_eq. intros x. destruct (decide (x = m)); set_solver.
Qed.

Lemma limited_sub {A} n (l : list A) x : x ∈ limited n l → x ∈ l.
Proof. unfold limited. destruct (n <? 0); [done |]. apply subseteq_take. Qed.

Lemma zrange_dom r z m : m ∈ (zrange_members r z).*1 → m ∈ dom z.
Proof.
  intros ([m' q] & -> & Hx)%list_elem_of_fmap. apply list_elem_of_filter in Hx as [_ Hx].
  apply elem_of_dom. exists q. by apply zset_sorted_elem.
Qed.

(** A move between the two keys keeps the members of the index. *)
Lemma claim_script now limit lease s p i : index_keys s p i →
  ∃ s' p' i' due, run (claimDueLua now limit lease) s = (s', Some due) ∧ index_keys s' p' i' ∧
    dom p' ∪ dom i' = dom p ∪ dom i ∧ ∀ m, m ∈ due → m ∈ dom p.
Proof.
  intros [Hp Hi]. unfold run, claimDueLua, mbind at 1, script_bind at 1, ZRANGEBYSCORE, lift at 1. rewrite Hp.
  cbn [mret script_ret]. set (due := limited limit _).
  assert (∀ m, m ∈ due → m ∈ dom p) as Hdue by (intros m Hm; eapply zrange_dom, limited_sub, Hm).
  case_bool_decide as Hd.
  - exists s, p, i, []. repeat split; [done | done |]. intros m Hm. by apply elem_of_nil in Hm.
  - cbn [when]. unfold mbind at 1, script_bind at 1. cbn [mret script_ret]. unfold mbind, script_bind.
    destruct (move_members_spec (R := list string) pendingKey inflightKey lease due pending_inflight s p i Hp Hi)
      as (s' & p' & i' & -> & Hp' & Hi' & Hu).
    exists s', p', i', due. repeat split; [done | done | | done]. rewrite Hu. set_solver.
Qed.

Lemma reclaim_script now limit s p i : index_keys s p i →
  ∃ s' p' i' n, run (reclaimLua now limit) s = (s', Some n) ∧ index_keys s' p' i' ∧ dom p' ∪ dom i' = dom p ∪ dom i.
Proof.
  intros [Hp Hi]. unfold run, reclaimLua, mbind at 1, script_bind at 1, ZRANGEBYSCORE, lift at 1. rewrite Hi.
  cbn [mret script_ret]. set (due := limited limit _).
  assert (∀ m, m ∈ due → m ∈ dom i) as Hdue by (intros m Hm; eapply zrange_dom, limited_sub, Hm).
  unfold mbind, script_bind.
  destruct (move_members_spec (R := Z) inflightKey pendingKey now due (not_eq_sym pending_inflight) s i p Hi Hp)
    as (s' & i' & p' & -> & Hi' & Hp' & Hu).
  exists s', p', i', (Z.of_nat (length due)). repeat split; [done | done |]. set_solver.
Qed.

Lemma foldl_delete_dom (l : list string) (z : gmap string Q) :
  dom (foldl (λ z m, delete m z) z l) = dom z ∖ list_to_set l.
Proof.
  revert z. induction l as [|m l IH]; intros z; cbn; [set_solver |]. rewrite IH, dom_delete_L. set_solver.
Qed.

Lemma foldl_insert_dom (l : list (Q * string)) (z : gmap string Q) :
  dom (foldl (λ z p, <[p.2 := p.1]> z) z l) = dom z ∪ list_to_set l.*2.
Proof.
  revert z. induction l as [|[q m] l IH]; intros z; cbn; [set_solver |]. rewrite IH, dom_insert_L. set_solver.
Qed.

Lemma zrem_all_index l : ∀ s p i, index_keys s p i →
  ∃ s' i', zrem_all inflightKey l s = (s', Ok tt) ∧ index_keys s' p i' ∧ dom i' = dom i ∖ list_to_set l.
Proof.
  intros s p i [Hp Hi]. unfold zrem_all, command, lift, modify. rewrite Hi.
  eexists _, _. split; [done |]. split; [split |].
  - rewrite (same_get_zset _ _ s); [done |]. by apply kdb_put_zset_ne, not_eq_sym.
  - apply get_zset_put_zset.
  - apply foldl_delete_dom.
Qed.

Lemma zadd_all_index l : ∀ s p i, index_keys s p i →
  ∃ s' p', zadd_all pendingKey l s = (s', Ok tt) ∧ index_keys s' p' i ∧ dom p' = dom p ∪ list_to_set l.*2.
Proof.
  intros s p i [Hp Hi]. unfold zadd_all, command, lift, modify. rewrite Hp.
  eexists _, _. split; [done |]. split; [split |].
  - apply get_zset_put_zset.
  - rewrite (same_get_zset _ _ s); [done |]. by apply kdb_put_zset_ne.
  - apply foldl_insert_dom.
Qed.

(** The read-miss counters live under a key of their own. *)
Lemma miss_frame {A} (c : cmd A) s :
  (∀ k, k ≠ readMissKey → kdb (c s).1 !! k = kdb s !! k) → index_to eq s (c s).1.
Proof.
  intros Hf p i [Hp Hi]. exists p, i. split; [| done].
  split; [rewrite (same_get_zset _ _ s) | rewrite (same_get_zset _ _ s)]; try done; by apply Hf.
Qed.

Lemma hincrby_frame f d s k : k ≠ readMissKey → kdb (hincrby readMissKey f d s).1 !! k = kdb s !! k.
Proof.
  intros Hk. unfold hincrby, command, mbind, script_bind, HINCRBY, HGET, lift, mret, script_ret.
  repeat case_match; unfold wrongtype in *; simplify_eq/=; try done; by apply kdb_put_hash_ne, not_eq_sym.
Qed.

Lemma hdel_frame f s k : k ≠ readMissKey → kdb (command (HDEL (R := unit) readMissKey f) s).1 !! k = kdb s !! k.
Proof.
  intros Hk. unfold command, HDEL, lift, modify, wrongtype. destruct (get_hash s readMissKey); cbn; [| done].
  by apply kdb_put_hash_ne, not_eq_sym.
Qed.

(** A whole operation: a round trip and a function of its result. *)
Lemma round_trip {A B} (c : cmd A) (k : result A → B) (R : gset string → gset string → Prop) w w' b :
  (∀ x, R x x) → index_to R (w_db w) (c (w_db w)).1 → redis_sound w →
  (r ← do c; mret (k r)) w = (w', b) →
  redis_sound w' ∧ R (members_of (w_db w)) (members_of (w_db w')) ∧
  ∃ r, b = k r ∧ ((∃ a, r = Ok a) → w_db w' = (c (w_db w)).1 ∧ r = (c (w_db w)).2).
Proof.
  intros HR Hc Hs. unfold mbind, io_bind. destruct (do c w) as [w1 r] eqn:E. intros [= <- <-].
  destruct (do_index c R w w1 r HR Hc Hs E) as (? & ? & ?). repeat split; [done | done |]. by exists r.
Qed.

Section redis_laws.
Implicit Types (w : world) (ms : list string).

Lemma redis_claim now lease limit w w' ms e :
  redis_sound w → redis_ClaimDue now lease limit w = (w', (ms, e)) →
  redis_sound w' ∧ members_of (w_db w') = members_of (w_db w) ∧ ∀ m, m ∈ ms → m ∈ members_of (w_db w).
Proof.
  intros Hs E. pose proof Hs as (p & i & Hk).
  destruct (claim_script (epoch now) limit (epoch now + inject_Z lease)%Q _ p i Hk) as (s' & p' & i' & due & Er & Hk' & Hu & Hd).
  eapply (round_trip _ _ eq) in E as (Hs' & Hm & r & Er' & Hr); [| done | | done].
  - split; [done |]. split; [done |]. intros m Hin. destruct r as [l|x]; simplify_eq; [| by apply elem_of_nil in Hin].
    destruct (Hr ltac:(by eexists)) as [_ Hc]. unfold call in Hc. rewrite Er in Hc. injection Hc as ->.
    rewrite (members_of_keys _ _ _ Hk). apply elem_of_union_l. by apply Hd.
  - intros p0 i0 Hk0. unfold call. rewrite Er. exists p', i'. split; [done |].
    destruct Hk as [H1 H2], Hk0 as [H3 H4]. simplify_eq. done.
Qed.

Lemma redis_reclaim n now w w' r :
  redis_sound w → redis_Reclaim n now w = (w', r) → redis_sound w' ∧ members_of (w_db w') = members_of (w_db w).
Proof.
  intros Hs E. pose proof Hs as (p & i & Hk).
  destruct (reclaim_script (epoch now) n _ p i Hk) as (s' & p' & i' & c & Er & Hk' & Hu).
  eapply (round_trip _ _ eq) in E as (Hs' & Hm & _); [done | done | | done].
  intros p0 i0 Hk0. unfold call. rewrite Er. exists p', i'. split; [done |].
  destruct Hk as [H1 H2], Hk0 as [H3 H4]. simplify_eq. done.
Qed.

Lemma redis_ack ms f w w' r :
  redis_sound w → f ∈ redis_Ack ms → f w = (w', r) →
  redis_sound w' ∧ members_of (w_db w') ⊆ members_of (w_db w) ∧
  ∀ m, m ∈ members_of (w_db w) → m ∉ members_of (w_db w') → m ∈ ms.
Proof.
  intros Hs Hf E. cbn in Hf. destruct ms as [|m0 ms]; [by apply elem_of_nil in Hf |].
  apply list_elem_of_singleton in Hf as ->. set (l := m0 :: ms) in *.
  eapply (round_trip _ _ (λ x y, y ⊆ x ∧ x ∖ list_to_set l ⊆ y)) in E as (Hs' & [H1 H2] & _); [| set_solver | | done].
  - split; [done |]. split; [done |]. intros m Hm Hn.
    destruct (decide (m ∈ l)) as [|Hl]; [done |]. destruct Hn. apply H2, elem_of_difference. by rewrite elem_of_list_to_set.
  - intros p i Hk. destruct (zrem_all_index l _ p i Hk) as (s' & i' & -> & Hk' & Hd). exists p, i'. split; [done |].
    rewrite Hd. set_solver.
Qed.

Lemma redis_schedule es w w' e :
  redis_sound w → redis_ScheduleMany es w = (w', e) →
  redis_sound w' ∧ members_of (w_db w) ⊆ members_of (w_db w') ∧
  members_of (w_db w') ⊆ members_of (w_db w) ∪ list_to_set (entry_member <$> es) ∧
  (e = None → list_to_set (entry_member <$> es) ⊆ members_of (w_db w')).
Proof.
  intros Hs E. destruct es as [|e0 es]; [injection E as <- <-; repeat split; [done | set_solver ..] |].
  set (l := e0 :: es) in *. set (g := λ e, (epoch (E_RunAt e), entry_member e)).
  assert (list_to_set (g <$> l).*2 =@{gset string} list_to_set (entry_member <$> l)) as Hg
    by (rewrite <- list_fmap_compose; done).
  destruct Hs as (p & i & Hk). destruct (zadd_all_index (g <$> l) _ p i Hk) as (s' & p' & Es & Hk' & Hd).
  eapply (round_trip _ _ (λ x y, x ⊆ y ∧ y ⊆ x ∪ list_to_set (entry_member <$> l))) in E as (Hs' & [H1 H2] & r & -> & Hr);
    [| set_solver | | by exists p, i].
  - repeat split; [done | done | done |]. intros He. destruct r as [a|x]; [| done].
    destruct (Hr ltac:(by eexists)) as [Hw _]. change (w_db w' = (zadd_all pendingKey (g <$> l) (w_db w)).1) in Hw.
    rewrite Hw, Es. cbn. rewrite (members_of_keys _ _ _ Hk'), Hd, Hg. set_solver.
  - intros p0 i0 Hk0. exists p', i. split; [change (index_keys (zadd_all pendingKey (g <$> l) (w_db w)).1 p' i); by rewrite Es |].
    destruct Hk as [K1 K2], Hk0 as [K3 K4]. simplify_eq. rewrite Hd, Hg. set_solver.
Qed.

#[export] Instance redis_laws n : @IndexLaws world (redis_index n).
Proof.
  unshelve refine {| sound := redis_sound; held w := members_of (w_db w); covers := eq |}.
  - intros now lease limit w w' ms e. apply redis_claim.
  - intros now w w' r. apply redis_reclaim.
  - intros proc m w w' r Hs E. eapply (round_trip _ _ eq) in E as (Hs' & Hm & _); [done | done | | done].
    apply miss_frame. intros k Hk. by apply hincrby_frame.
  - intros proc m w w' r Hs E. eapply (round_trip _ _ eq) in E as (Hs' & Hm & _); [done | done | | done].
    apply miss_frame. intros k Hk. by apply hdel_frame.
  - intros ms f w w' r Hs Hf E. destruct (redis_ack ms f w w' r Hs Hf E) as (? & ? & Hm).
    split; [done |]. split; [done |]. intros m H1 H2. exists m. auto.
  - intros es w w' e Hs E. destruct (redis_schedule es w w' e Hs E) as (? & Hm & ? & He).
    split; [done |]. split; [done |]. split; [set_solver |]. intros -> m H1. left. apply He; [done |]. by apply elem_of_list_to_set.
Defined.
End redis_laws.

(** ** The laws in MySQL *)

Section mysql_laws.
Implicit Types (d : mysql_index_db) (rows : gmap string job_row).

Definition row_members (rows : gmap string job_row) : gset string := list_to_set (row_member <$> map_to_list rows).

Lemma elem_of_row_members m rows :
  m ∈ row_members rows ↔ ∃ j r, rows !! j = Some r ∧ m = BuildMember j (j_partition r) (j_offset r).
Proof.
  unfold row_members. rewrite elem_of_list_to_set, list_elem_of_fmap. split.
  - intros ([j r] & -> & Hj). exists j, r. by apply elem_of_map_to_list in Hj.
  - intros (j & r & Hj & ->). exists (j, r). by rewrite elem_of_map_to_list.
Qed.

(** Members of the same job. *)
Definition same_job (a m : string) : Prop := is_Some (job_of a) ∧ job_of a = job_of m.

Definition same_place (r r' : job_row) : Prop := j_partition r = j_partition r' ∧ j_offset r = j_offset r'.

(** Changing leases keeps the members. *)
Lemma same_places rows rows' :
  (∀ j, option_Forall2 same_place (rows !! j) (rows' !! j)) → row_members rows' = row_members rows.
Proof.
  intros H. apply set_eq. intros m. rewrite !elem_of_row_members.
  split; intros (j & r & Hj & ->); specialize (H j); rewrite Hj in H; inversion H as [x y [H1 H2] E1 E2|]; subst;
    exists j; eexists; (split; [done |]); by rewrite H1, H2.
Qed.

Lemma statement_cases {A} (f : gmap string job_row → gmap string job_row * A) d d' r :
  statement f d = (d', r) →
  (ix_rows d' = ix_rows d ∧ ∃ e, r = Bad e) ∨ (ix_rows d' = (f (ix_rows d)).1 ∧ (r = Ok (f (ix_rows d)).2 ∨ ∃ e, r = Bad e)).
Proof.
  unfold statement, sql_answer. destruct (default SqlFine (head (ix_net d))); intros [= <- <-]; cbn; eauto.
Qed.

Lemma lease_rows l lease : ∀ rows j,
  option_Forall2 same_place (rows !! j) (foldl (λ rows (x : string * job_row), alter (set_lease (Some lease)) x.1 rows) rows l !! j).
Proof.
  induction l as [|[k r] l IH]; intros rows j; cbn.
  - destruct (rows !! j); by constructor.
  - specialize (IH (alter (set_lease (Some lease)) k rows) j). revert IH. rewrite lookup_alter.
    destruct (decide (k = j)) as [->|]; [| done].
    destruct (rows !! j) as [r0|]; cbn; intros Hf; inversion Hf as [x y [H1 H2] E1 E2|]; subst; by constructor.
Qed.

Lemma mysql_claim now lease limit d d' ms e :
  mysql_ClaimDue now lease limit d = (d', (ms, e)) →
  row_members (ix_rows d') = row_members (ix_rows d) ∧ ∀ m, m ∈ ms → m ∈ row_members (ix_rows d).
Proof.
  unfold mysql_ClaimDue. destruct (limit <? 0).
  { intros [= <- <- <-]. split; [done |]. intros m Hm. by apply elem_of_nil in Hm. }
  destruct (statement _ d) as [d1 r] eqn:E. intros [= <- Hr]. cbn.
  apply statement_cases in E as [[-> [x ->]]|[-> Hc]].
  { injection Hr as <- <-. split; [done |]. intros m Hm. by apply elem_of_nil in Hm. }
  split; [apply same_places, lease_rows |]. intros m Hm.
  destruct Hc as [->|[x ->]]; injection Hr as <- <-; [| by apply elem_of_nil in Hm].
  apply list_elem_of_fmap in Hm as ([j r] & -> & Hx). apply take_elem_of in Hx.
  rewrite merge_sort_Permutation in Hx. apply list_elem_of_filter in Hx as [_ Hx]. apply elem_of_map_to_list in Hx.
  apply elem_of_row_members. by exists j, r.
Qed.

Lemma mysql_reclaim now d d' r : mysql_Reclaim now d = (d', r) → row_members (ix_rows d') = row_members (ix_rows d).
Proof.
  unfold mysql_Reclaim. destruct (statement _ d) as [d1 x] eqn:E. intros [= <- _].
  apply statement_cases in E as [[-> _]|[-> _]]; [done |]. cbn. apply same_places. intros j. rewrite lookup_fmap.
  destruct (ix_rows d !! j) as [r0|]; cbn; constructor. by destruct (expired_lease _ _).
Qed.

Lemma mysql_ack ms f d d' r :
  f ∈ mysql_Ack ms → f d = (d', r) →
  row_members (ix_rows d') ⊆ row_members (ix_rows d) ∧
  ∀ m, m ∈ row_members (ix_rows d) → m ∉ row_members (ix_rows d') → ∃ a, a ∈ ms ∧ same_job a m.
Proof.
  intros (a & Ha & Hf)%list_elem_of_omap E. destruct (ParseMember a) as [pm|] eqn:Hp; [| done]. injection Hf as <-.
  unfold delete_job in E. destruct (statement _ d) as [d1 x] eqn:Es. injection E as <- <-.
  apply statement_cases in Es as [[-> _]|[-> _]]; [split; [done |]; by intros m ? |]. cbn. split.
  - intros m. rewrite !elem_of_row_members. intros (j & r & [Hn Hj]%lookup_delete_Some & ->). eauto.
  - intros m. rewrite !elem_of_row_members. intros (j & r & Hj & ->) Hn. exists a. split; [done |].
    destruct (decide (JobID pm = j)) as [<-|Hne].
    + split; rewrite (ParseMember_job _ _ Hp); [done |]. by rewrite job_of_BuildMember.
    + destruct Hn. exists j, r. by rewrite lookup_delete_ne.
Qed.

(** What a row of the table is after entries were written. *)
Lemma upsert_lookup es : ∀ rows j,
  foldl (λ rows e, upsert_job e rows) rows es !! j = rows !! j ∧ (∀ e, e ∈ es → E_JobID e ≠ j) ∨
  ∃ e r, e ∈ es ∧ E_JobID e = j ∧ foldl (λ rows e, upsert_job e rows) rows es !! j = Some r ∧
         j_partition r = E_Partition e ∧ j_offset r = E_Offset e.
Proof.
  induction es as [|e es IH]; intros rows j; cbn; [left; split; [done |]; intros e He; by apply elem_of_nil in He |].
  destruct (IH (upsert_job e rows) j) as [[-> Hn]|(e' & r & He' & Hj & Hr & ?)].
  - unfold upsert_job. destruct (decide (E_JobID e = j)) as [<-|Hne].
    + right. eexists e, _. split; [by left |]. split; [done |]. rewrite lookup_insert_eq. done.
    + left. rewrite lookup_insert_ne by done. split; [done |]. intros e' [->|He']%elem_of_cons; auto.
  - right. exists e', r. split; [by right |]. done.
Qed.

Lemma mysql_schedule es d d' e :
  mysql_ScheduleMany es d = (d', e) →
  row_members (ix_rows d') ⊆ row_members (ix_rows d) ∪ list_to_set (entry_member <$> es) ∧
  (∀ m, m ∈ row_members (ix_rows d) → m ∉ row_members (ix_rows d') →
     ∃ a, a ∈ entry_member <$> es ∧ a ≠ m ∧ same_job a m) ∧
  (e = None → ∀ m, m ∈ entry_member <$> es →
     m ∈ row_members (ix_rows d') ∨ ∃ a, a ∈ entry_member <$> es ∧ a ≠ m ∧ same_job a m).
Proof.
  intros E. unfold mysql_ScheduleMany in E. destruct es as [|e0 es]; [injection E as <- <-; set_solver |].
  set (l := e0 :: es) in *. destruct (statement _ d) as [d1 r] eqn:Es. injection E as <- <-.
  apply statement_cases in Es as [[-> [x ->]]|[-> _]]; [set_solver |]. cbn [fst].
  set (rows := foldl _ _ l).
  assert (∀ e, e ∈ l → ∃ a, a ∈ entry_member <$> l ∧ a ∈ row_members rows ∧ ∃ p o, a = BuildMember (E_JobID e) p o) as Hnew.
  { intros e He. destruct (upsert_lookup l (ix_rows d) (E_JobID e)) as [[_ Hn]|(e' & r' & He' & Hj & Hr & Hp & Ho)].
    - by destruct (Hn e He).
    - exists (entry_member e'). split; [by apply list_elem_of_fmap_2 |]. unfold entry_member. rewrite Hj, <- Hp, <- Ho. split; [| eauto].
      apply elem_of_row_members. eauto. }
  split; [| split].
  - intros m. rewrite elem_of_row_members. intros (j & r' & Hj & ->).
    destruct (upsert_lookup l (ix_rows d) j) as [[Heq _]|(e & r2 & He & <- & Hr & Hp & Ho)].
    + apply elem_of_union_l, elem_of_row_members. exists j, r'. by rewrite <- Heq.
    + apply elem_of_union_r, elem_of_list_to_set. unfold rows in Hj. rewrite Hr in Hj. injection Hj as ->.
      rewrite Hp, Ho. change (entry_member e ∈ entry_member <$> l). by apply list_elem_of_fmap_2.
  - intros m. rewrite elem_of_row_members at 1. intros (j & r' & Hj & ->) Hn.
    destruct (upsert_lookup l (ix_rows d) j) as [[Heq _]|(e & r2 & He & <- & Hr & Hp & Ho)].
    + destruct Hn. apply elem_of_row_members. exists j, r'. unfold rows. by rewrite Heq.
    + destruct (Hnew e He) as (a & Ha & Hr2 & p & o & ->). exists (BuildMember (E_JobID e) p o). split; [done |].
      split; [by intros E; rewrite E in Hr2 |]. unfold same_job. rewrite !job_of_BuildMember. by split.
  - intros _ m (e & -> & He)%list_elem_of_fmap. destruct (Hnew e He) as (a & Ha & Hr & p & o & ->).
    destruct (decide (BuildMember (E_JobID e) p o = entry_member e)) as [<-|Hne]; [by left | right].
    eexists. split; [exact Ha |]. split; [done |]. unfold same_job, entry_member. rewrite !job_of_BuildMember. by split.
Qed.

#[export] Instance mysql_laws : @IndexLaws mysql_index_db mysql_index.
Proof.
  unshelve refine {| sound _ := True; held d := row_members (ix_rows d); covers := same_job |}.
  - intros now lease limit d d' ms e _ E. destruct (mysql_claim _ _ _ _ _ _ _ E). done.
  - intros now d d' r _ E. apply mysql_reclaim in E. done.
  - intros proc m d d' r _ [= <- _]. done.
  - intros proc m d d' r _ [= <- _]. done.
  - intros ms f d d' r _ Hf E. destruct (mysql_ack ms f d d' r Hf E). done.
  - intros es d d' e _ E. destruct (mysql_schedule es d d' e E) as (? & ? & ?). done.
Defined.
End mysql_laws.
