(* ===== verification/Poller.v ===== *)
(** The poller of delayed jobs: pkg/schedule/reader.go, router.go and poller.go.

    The poller is a program of [Interleave]: its calls are the round trips to the
    index, the read of the scheduled topic, the produces and the lookups of the
    batch's and the tenant's state.  What the brokers, the cache of cancelled
    batches and the tenant table will answer is part of the state. *)
From S2P Require Import Prelude Redis Client Kafka Protocol Interleave ScheduleIndex.

(** ** Reading the scheduled topic *)

Record ReadResult := mkRead { Found : gmap string string; Lost_ : list string }.

Record topic_record := mkRec { rec_topic : string; rec_partition : Z; rec_offset : Z; rec_value : string }.

(** One PollFetches: an error, or records; [late] says whether the deadline has
    passed when it returns. *)
Inductive polled := PollError (e : string) | PollRecords (l : list topic_record) (late : bool).

(** What the brokers answer to one read: the start and end offsets by partition
    (a partition that is not listed reads as zero), whether the client can be made, and the
    polls.  When the polls are used up, PollFetches blocks. *)
Record broker := mkBroker {
  br_start : result (gmap Z Z); br_end : result (gmap Z Z); br_client : error; br_polls : list polled
}.

Record partitionWant := mkWant { pw_partition : Z; pw_want : gset Z; pw_max : Z }.

Definition scanSlack : Z := 1000.

(** The offsets of one partition: what to read and what is lost. *)
Definition wanted (partition low high : Z) (offsets : list Z) : partitionWant * list string :=
  let alive := filter (λ off, low <= off ∧ off < high) offsets in
  (mkWant partition (list_to_set alive) (foldl Z.max (-1) alive),
   BuildKey partition <$> filter (λ off, off < low) offsets).

Definition read_plan (low high : gmap Z Z) (byPartition : gmap Z (list Z)) : list partitionWant * list string :=
  let all := (λ x, wanted x.1 (default 0 (low !! x.1)) (default 0 (high !! x.1)) x.2) <$> map_to_list byPartition in
  (filter (λ w, pw_want w ≠ ∅) all.*1, mjoin all.*2).

(** One record against the partitions still read; how much [remaining] drops. *)
Fixpoint take_record (r : topic_record) (reads : list partitionWant) (found : gmap string string)
    : list partitionWant * gmap string string * Z :=
  match reads with
  | [] => ([], found, 0)
  | w :: reads =>
      if negb (pw_partition w =? rec_partition r) then
        let '(reads, found, n) := take_record r reads found in (w :: reads, found, n)
      else if decide (pw_want w = ∅) then (w :: reads, found, 0)
      else if pw_max w + scanSlack <? rec_offset r then
        (mkWant (pw_partition w) ∅ (pw_max w) :: reads, found, Z.of_nat (size (pw_want w)))
      else if decide (rec_offset r ∈ pw_want w) then
        (mkWant (pw_partition w) (pw_want w ∖ {[rec_offset r]}) (pw_max w) :: reads,
         <[BuildKey (pw_partition w) (rec_offset r) := rec_value r]> found, 1)
      else (w :: reads, found, 0)
  end.

Fixpoint take_records (topic : string) (l : list topic_record) (reads : list partitionWant)
    (found : gmap string string) (remaining : Z) : list partitionWant * gmap string string * Z :=
  match l with
  | [] => (reads, found, remaining)
  | r :: l =>
      if negb (String.eqb (rec_topic r) topic) then take_records topic l reads found remaining
      else let '(reads, found, n) := take_record r reads found in
           take_records topic l reads found (remaining - n)
  end.

(** [None]: the read is blocked in PollFetches. *)
Fixpoint poll_loop (topic : string) (polls : list polled) (reads : list partitionWant)
    (found : gmap string string) (remaining : Z) : option (gmap string string * error) :=
  if remaining <=? 0 then Some (found, None)
  else match polls with
       | [] => None
       | PollError e :: _ => Some (found, Some ("poll scheduled topic: " +:+ e)%string)
       | PollRecords l late :: polls =>
           let '(reads, found, remaining) := take_records topic l reads found remaining in
           if late then Some (found, None) else poll_loop topic polls reads found remaining
       end.

Definition total_want (reads : list partitionWant) : Z :=
  foldr (λ w n, Z.of_nat (size (pw_want w)) + n) 0 reads.

Definition Read (topic : string) (b : broker) (byPartition : gmap Z (list Z)) : option (ReadResult * error) :=
  if decide (byPartition = ∅) then Some (mkRead ∅ [], None)
  else match br_start b, br_end b with
       | Bad e, _ => Some (mkRead ∅ [], Some ("list start offsets: " +:+ e)%string)
       | _, Bad e => Some (mkRead ∅ [], Some ("list end offsets: " +:+ e)%string)
       | Ok low, Ok high =>
           let '(reads, lost) := read_plan low high byPartition in
           if decide (reads = []) then Some (mkRead ∅ lost, None)
           else match br_client b with
                | Some e => Some (mkRead ∅ lost, Some ("schedule read client: " +:+ e)%string)
                | None =>
                    match poll_loop topic (br_polls b) reads ∅ (total_want reads) with
                    | Some (found, e) => Some (mkRead found lost, e)
                    | None => None
                    end
                end
       end.

(** ** The poller's calls and its world *)

Record pmessage := mkPMsg { pm_topic : string; pm_key : string; pm_partition : option Z; pm_payload : string }.

Section poller.
Context {St : Type} {IS : IndexStore St} `{Json}.

Inductive pop : Type -> Type :=
| OStore {X} (f : St -> St * X) : pop X
| ORead (byPartition : gmap Z (list Z)) : pop (ReadResult * error)
| OProduce (topic key : string) (partition : option Z) (payload : string) : pop error
| OCancelled (batchID : string) : pop (bool * error)
| OResolve (tenantID lane : string) : pop (option Z).

(** [sw_tried] and [sw_kept] are history: the members a client has tried to
    schedule, and those it was told are scheduled. *)
Record sched_world := mkSched {
  sw_store : St; sw_log : list pmessage; sw_net : list delivery; sw_brokers : list broker;
  sw_cancel : list (string -> bool * error); sw_resolve : list (string -> string -> option Z);
  sw_tried : gset string; sw_kept : gset string
}.

Definition with_store (s : St) (w : sched_world) : sched_world :=
  mkSched s (sw_log w) (sw_net w) (sw_brokers w) (sw_cancel w) (sw_resolve w) (sw_tried w) (sw_kept w).

Definition produce_to (m : pmessage) (w : sched_world) : sched_world * error :=
  let upd log := mkSched (sw_store w) log (tail (sw_net w)) (sw_brokers w) (sw_cancel w) (sw_resolve w) (sw_tried w) (sw_kept w) in
  match sw_net w with
  | Refused :: _ => (upd (sw_log w), Some produceError)
  | Unknown :: _ => (upd (sw_log w ++ [m]), Some produceError)
  | _ => (upd (sw_log w ++ [m]), None)
  end.

Definition exec_pop (topic : string) X (o : pop X) (w : sched_world) : option (sched_world * X) :=
  match o with
  | OStore f => let '(s, x) := f (sw_store w) in Some (with_store s w, x)
  | ORead by_ =>
      match sw_brokers w with
      | [] => None
      | b :: rest =>
          match Read topic b by_ with
          | Some r => Some (mkSched (sw_store w) (sw_log w) (sw_net w) rest (sw_cancel w) (sw_resolve w) (sw_tried w) (sw_kept w), r)
          | None => None
          end
      end
  | OProduce t k p m => Some (produce_to (mkPMsg t k p m) w)
  | OCancelled b =>
      Some (mkSched (sw_store w) (sw_log w) (sw_net w) (sw_brokers w) (tail (sw_cancel w)) (sw_resolve w) (sw_tried w) (sw_kept w),
            match head (sw_cancel w) with Some f => f b | None => (false, None) end)
  | OResolve t l =>
      Some (mkSched (sw_store w) (sw_log w) (sw_net w) (sw_brokers w) (sw_cancel w) (tail (sw_resolve w)) (sw_tried w) (sw_kept w),
            match head (sw_resolve w) with Some f => f t l | None => None end)
  end.

(** ** Routing *)

Record HandlerEntry := mkHandler { H_Runtime : string; H_Topic : string; H_FairnessType : string }.

Record Route_ := mkRoute { Rt_Topic : string; Rt_Key : string; Rt_Partition : option Z }.

Record DaemonRouter := mkRouter {
  R_Handlers : gmap string HandlerEntry; R_TimeIngest : string; R_ThroughputIngest : string;
  R_TenantPartitions : gmap string Z; R_Default : string; R_Tenants : bool   (* a tenant table is there *)
}.

(** The handler of a job by its type, or by the Go worker class. *)
Definition find_handler (r : DaemonRouter) (jobType worker : string) : option (string * HandlerEntry) :=
  let by_type := if String.eqb jobType "" then None else R_Handlers r !! jobType in
  match by_type with
  | Some h => Some (jobType, h)
  | None =>
      if String.eqb worker "" then None
      else snd <$> list_find (λ x : string * HandlerEntry, H_Runtime x.2 = "go"%string ∧ ("go:" +:+ x.1)%string = worker)
                     (map_to_list (R_Handlers r))
  end.

(** A route, or the tenant whose partition decides it. *)
Inductive routing := Routed (r : Route_) | Unroutable (e : string) | ByTenant (r : Route_) (tenantID lane : string).

Definition fairRoute (r : DaemonRouter) (fairnessType jobID tenantID batchID : string) : routing :=
  let key := if String.eqb tenantID "" then batchID else tenantID in
  let key := if String.eqb key "" then jobID else key in
  let go (topic : string) :=
    let route := mkRoute topic key None in
    if String.eqb tenantID "" then Routed route
    else match R_TenantPartitions r !! tenantID with
         | Some p => Routed (mkRoute topic "" (Some p))
         | None => if R_Tenants r then ByTenant route tenantID fairnessType else Routed route
         end in
  if String.eqb fairnessType "time" then go (R_TimeIngest r)
  else if String.eqb fairnessType "throughput" then go (R_ThroughputIngest r)
  else Unroutable ("unknown fairness_type " +:+ fairnessType)%string.

Definition route (r : DaemonRouter) (payload : object) : routing :=
  let jobType := str_field payload "job_type" in
  let jobID := str_field payload "job_id" in
  let worker := str_field payload "worker_class" in
  let handler := find_handler r jobType worker in
  let fairness := match handler with Some (_, h) => H_FairnessType h | None => ""%string end in
  let topic := match handler with Some (_, h) => H_Topic h | None => ""%string end in
  if negb (String.eqb fairness "") then
    fairRoute r fairness jobID (str_field payload "tenant_id") (str_field payload "batch_id")
  else if negb (String.eqb topic "") then Routed (mkRoute topic jobID None)
  else if negb (String.eqb (R_Default r) "") then Routed (mkRoute (R_Default r) jobID None)
  else Unroutable ("no route for job_type=" +:+ match handler with Some (jt, _) => jt | None => jobType end
                   +:+ " worker_class=" +:+ worker)%string.

Definition with_partition (r : Route_) (p : option Z) : Route_ :=
  match p with Some _ => mkRoute (Rt_Topic r) "" p | None => r end.

Definition Route (r : DaemonRouter) (payload : object) : prog pop (result Route_) :=
  match route r payload with
  | Routed x => mret (Ok x)
  | Unroutable e => mret (Bad e)
  | ByTenant x tenantID lane => p ← perform (OResolve tenantID lane); mret (Ok (with_partition x p))
  end.

(** ** The poller *)

Record Poller := mkPoller {
  P_Proc : nat; P_ReclaimEvery : Z; P_LeaseSeconds : Z; P_BatchSize : Z; P_ScheduledTopic : string;
  P_SkipCancelled : bool; P_DeadLetterTopic : string; P_Router : DaemonRouter; P_Partitioned : bool;
  P_lastReclaim : option Z                                   (* None: the zero time *)
}.

Definition maxReadMisses : Z := 10.

Definition worker_or_type (data : object) : string :=
  let w := str_field data "worker_class" in if String.eqb w "" then str_field data "job_type" else w.

Definition route_letter (jobID raw : string) (data : object) (routeErr : string) : object :=
  list_to_map [("job_id", JStr jobID); ("batch_id", JStr (str_field data "batch_id"));
               ("worker_class", JStr (worker_or_type data)); ("dlt_type", JStr "schedule_route_error");
               ("dlt_error_message", JStr routeErr); ("dlt_raw_payload", JStr raw)]%string.

Definition miss_letter (topic jobID location : string) (misses : Z) : object :=
  list_to_map [("job_id", JStr jobID); ("dlt_type", JStr "schedule_read_miss");
               ("dlt_error_message", JStr ("scheduled payload unread after " +:+ itoa misses +:+ " attempts at "
                                            +:+ topic +:+ "/" +:+ location));
               ("scheduled_topic", JStr topic); ("location", JStr location)]%string.

(** Parks a letter; whether it is on the dead-letter topic. *)
Definition park (p : Poller) (jobID : string) (letter : object) : prog pop bool :=
  if String.eqb (P_DeadLetterTopic p) "" then mret false
  else match marshal letter with
       | Bad _ => mret false
       | Ok raw => e ← perform (OProduce (P_DeadLetterTopic p) jobID None raw);
                   mret (match e with None => true | Some _ => false end)
       end.

Definition parkRouteError (p : Poller) (jobID raw : string) (data : object) (routeErr : string) : prog pop bool :=
  park p jobID (route_letter jobID raw data routeErr).

Definition parkReadMiss (p : Poller) (jobID location : string) (misses : Z) : prog pop bool :=
  park p jobID (miss_letter (P_ScheduledTopic p) jobID location misses).

Definition batch_cancelled (p : Poller) (data : object) : prog pop bool :=
  let batchID := str_field data "batch_id" in
  if P_SkipCancelled p && negb (String.eqb batchID "") then
    r ← perform (OCancelled batchID); mret (match r with (c, None) => c | _ => false end)
  else mret false.

Definition route_key (r : Route_) (data : object) : string :=
  if String.eqb (Rt_Key r) "" then str_field data "job_id" else Rt_Key r.

(** Whether the job can leave the index. *)
Definition produceDue (p : Poller) (raw jobID : string) : prog pop bool :=
  match unmarshal raw with
  | Bad _ => mret true
  | Ok m =>
      let data := fields m in
      c ← batch_cancelled p data;
      if (c : bool) then mret true
      else
        r ← Route (P_Router p) data;
        match r with
        | Bad e => parkRouteError p jobID raw data e
        | Ok rt =>
            e ← perform (OProduce (Rt_Topic rt) (route_key rt data)
                           (if P_Partitioned p then Rt_Partition rt else None) raw);
            mret (match e with None => true | Some _ => false end)
        end
  end.

Fixpoint by_partition (parsed : list (string * Member)) : gmap Z (list Z) :=
  match parsed with
  | [] => ∅
  | (_, pm) :: parsed =>
      let rest := by_partition parsed in
      <[Partition pm := Offset pm :: default [] (rest !! Partition pm)]> rest
  end.

(** One claimed member after the read: whether it was dispatched, and whether
    it leaves the index. *)
Definition settle_one (p : Poller) (read : ReadResult) (item : string * Member) : prog pop (bool * bool) :=
  let '(member, pm) := item in
  let loc := BuildKey (Partition pm) (Offset pm) in
  if decide (loc ∈ Lost_ read) then mret (false, true)
  else match Found read !! loc with
       | None =>
           m ← perform (OStore (RecordReadMiss (P_Proc p) member));
           if maxReadMisses <=? m.1 then
             ok ← parkReadMiss p (JobID pm) loc m.1;
             if (ok : bool) then
               _ ← perform (OStore (ClearReadMiss (P_Proc p) member)); mret (false, true)
             else mret (false, false)
           else mret (false, false)
       | Some raw =>
           _ ← perform (OStore (ClearReadMiss (P_Proc p) member));
           ok ← produceDue p raw (JobID pm);
           mret (ok, ok)
       end.

Fixpoint settle (p : Poller) (read : ReadResult) (items : list (string * Member)) (acked : Z) (done_ : list string)
    : prog pop (Z * list string) :=
  match items with
  | [] => mret (acked, done_)
  | item :: items =>
      r ← settle_one p read item;
      let '(sent, gone) := r : bool * bool in
      settle p read items (if sent then acked + 1 else acked) (if gone then done_ ++ [item.1] else done_)
  end.

(** The statements of an acknowledgement, until one fails. *)
Fixpoint run_ack (stmts : list (St -> St * error)) : prog pop error :=
  match stmts with
  | [] => mret None
  | f :: stmts => e ← perform (OStore f); match e with None => run_ack stmts | Some e => mret (Some e) end
  end.

Definition parse_all (members : list string) : list (string * Member) :=
  omap (λ m, pair m <$> ParseMember m) members.

Definition reclaim_due (p : Poller) (now : Z) : bool :=
  (0 <? P_ReclaimEvery p) && match P_lastReclaim p with None => true | Some t => P_ReclaimEvery p <=? now - t end.

(** The new time of the last reclaim beside Tick's results. *)
Definition Tick (p : Poller) (now : Z) : prog pop (option Z * (Z * error)) :=
  r ← (if reclaim_due p now then x ← perform (OStore (Reclaim now)); mret x.2 else mret None);
  match r with
  | Some e => mret (P_lastReclaim p, (0, Some e))
  | None =>
      let reclaimed := if reclaim_due p now then Some now else P_lastReclaim p in
      c ← perform (OStore (ClaimDue now (P_LeaseSeconds p) (P_BatchSize p)));
      match c with
      | (_, Some e) => mret (reclaimed, (0, Some e))
      | ([], None) => mret (reclaimed, (0, None))
      | (members, None) =>
          let parsed := parse_all members in
          rd ← perform (ORead (merge_sort Z.le <$> by_partition parsed));
          match rd with
          | (_, Some e) => mret (reclaimed, (0, Some e))
          | (read, None) =>
              x ← settle p read parsed 0 [];
              (if decide (x.2 = []) then mret tt else _ ← run_ack (Ack x.2); mret tt);;
              mret (reclaimed, (x.1, None))
          end
      end
  end.

(** ** The loop around the ticks *)

(** [ended]: whether the context has ended before each tick; [None]: the ticks
    given are used up. *)
Fixpoint drainDue (p : Poller) (nows : list (bool * Z)) (drained : bool) : prog pop (option (bool * error)) :=
  match nows with
  | [] => mret None
  | (true, _) :: _ => mret (Some (drained, None))
  | (false, now) :: nows =>
      t ← Tick p now;
      let p := mkPoller (P_Proc p) (P_ReclaimEvery p) (P_LeaseSeconds p) (P_BatchSize p) (P_ScheduledTopic p)
                 (P_SkipCancelled p) (P_DeadLetterTopic p) (P_Router p) (P_Partitioned p) t.1 in
      match t.2 with
      | (_, Some e) => mret (Some (drained, Some e))
      | (n, None) => if n =? 0 then mret (Some (drained, None)) else drainDue p nows true
      end
  end.
End poller.
Arguments pop : clear implicits.
Arguments sched_world : clear implicits.

(** Run's first wait and its greatest one. *)
Definition poll_bounds (interval cap : Z) : Z * Z :=
  let interval := if interval <=? 0 then 5000000000 else interval in
  let cap := if cap <=? 0 then 60000000000 else cap in
  (interval, if cap <? interval then interval else cap).

(** How long Run sleeps after a drain, and its next wait. *)
Definition next_wait (interval cap wait : Z) (drained : bool) (e : error) : Z * Z :=
  match e with
  | Some _ => (wait, Z.min (wait * 2) cap)
  | None => let wait := if drained then interval else wait in
            (wait, if drained then wait else Z.min (wait * 2) cap)
  end.
