(* ===== verification/PollerProps.v ===== *)
(** Delayed jobs are kept: whatever number of pollers run beside each other and
    wherever they stop, a job a client was told is scheduled is in the index or
    has been dispatched or parked. *)
From S2P Require Import Prelude Redis Client Kafka Protocol Interleave Store Sql ScheduleIndex ScheduleIndexProps Poller.

(** ** What a read gives *)

Section reading.
Context (topic : string) (payload : Z -> Z -> option string) (expired : Z -> Z -> Prop).

(** Brokers that answer truthfully: what is below the start of a partition is
    gone, and a record has the value that was written. *)
Definition honest (b : broker) : Prop :=
  (∀ low p o, br_start b = Ok low → o < default 0 (low !! p) → expired p o) ∧
  (∀ l late r, PollRecords l late ∈ br_polls b → r ∈ l → rec_topic r = topic →
     payload (rec_partition r) (rec_offset r) = Some (rec_value r)).

Definition truthful (found : gmap string string) : Prop :=
  ∀ loc v, found !! loc = Some v → ∃ p o, loc = BuildKey p o ∧ payload p o = Some v.

Lemma take_record_truthful r reads found reads' found' n :
  payload (rec_partition r) (rec_offset r) = Some (rec_value r) → truthful found →
  take_record r reads found = (reads', found', n) → truthful found'.
Proof.
  intros Hr. revert reads' found' n. induction reads as [|w reads IH]; intros reads' found' n Hf E; cbn in E; [by simplify_eq |].
  destruct (Z.eqb_spec (pw_partition w) (rec_partition r)) as [Hp|Hp]; cbn in E.
  - repeat case_decide; try (by simplify_eq); destruct (_ <? _); simplify_eq; try done.
    intros loc v. rewrite lookup_insert_Some. intros [[<- <-]|[_ Hl]]; [| by apply Hf].
    exists (pw_partition w), (rec_offset r). by rewrite Hp.
  - destruct (take_record r reads found) as [[a b] c] eqn:E'. simplify_eq. by eapply IH.
Qed.

Lemma take_records_truthful l : ∀ reads found remaining reads' found' n,
  (∀ r, r ∈ l → rec_topic r = topic → payload (rec_partition r) (rec_offset r) = Some (rec_value r)) →
  truthful found → take_records topic l reads found remaining = (reads', found', n) → truthful found'.
Proof.
  induction l as [|r l IH]; intros reads found remaining reads' found' n Hl Hf E; cbn in E; [by simplify_eq |].
  destruct (String.eqb_spec (rec_topic r) topic) as [Ht|]; cbn in E.
  - destruct (take_record r reads found) as [[a b] c] eqn:E'. eapply IH; [| | exact E]; [intros; apply Hl; [by right | done] |].
    eapply take_record_truthful; [| exact Hf | exact E']. apply Hl; [by left | done].
  - eapply IH; [| exact Hf | exact E]. intros; apply Hl; [by right | done].
Qed.

Lemma poll_loop_truthful polls : ∀ reads found remaining found' e,
  (∀ l late r, PollRecords l late ∈ polls → r ∈ l → rec_topic r = topic →
     payload (rec_partition r) (rec_offset r) = Some (rec_value r)) →
  truthful found → poll_loop topic polls reads found remaining = Some (found', e) → truthful found'.
Proof.
  induction polls as [|x polls IH]; intros reads found remaining found' e Hp Hf E; cbn in E;
    (destruct (remaining <=? 0); [by simplify_eq |]); [done |].
  destruct x as [x|l late]; [by simplify_eq |]. destruct (take_records topic l reads found remaining) as [[a b] c] eqn:E'.
  assert (truthful b) as Hb.
  { eapply take_records_truthful; [| exact Hf | exact E']. intros r Hr. eapply Hp; [by left | done]. }
  destruct late; [by simplify_eq |]. eapply IH; [| exact Hb | exact E]. intros l' late' r Hl. eapply Hp. by right.
Qed.

Lemma read_plan_lost low high by_ loc :
  loc ∈ (read_plan low high by_).2 → ∃ p o, loc = BuildKey p o ∧ o < default 0 (low !! p).
Proof.
  unfold read_plan. cbn. intros (l & Hl & ([w l'] & -> & ([p os] & [= -> ->] & _)%list_elem_of_fmap)%list_elem_of_fmap)%list_elem_of_join.
  apply list_elem_of_fmap in Hl as (o & -> & [Ho _]%list_elem_of_filter). eauto.
Qed.

(** What a read reports lost is gone, and what it found was written there. *)
Lemma Read_honest b by_ r e :
  honest b → Read topic b by_ = Some (r, e) →
  (∀ loc, loc ∈ Lost_ r → ∃ p o, loc = BuildKey p o ∧ expired p o) ∧ truthful (Found r).
Proof.
  intros [Hs Hp]. unfold Read.
  assert (truthful ∅) as He by (intros loc v Hl; by rewrite lookup_empty in Hl).
  assert (∀ loc, loc ∈ @nil string → ∃ p o, loc = BuildKey p o ∧ expired p o) as Hn
    by (intros loc Hl; by apply elem_of_nil in Hl).
  case_decide; [by intros [= <- <-] |].
  destruct (br_start b) as [low|x] eqn:Eb; [| by intros [= <- <-]].
  destruct (br_end b) as [high|x]; [| by intros [= <- <-]].
  destruct (read_plan low high by_) as [reads lost] eqn:Er.
  assert (∀ loc, loc ∈ lost → ∃ p o, loc = BuildKey p o ∧ expired p o) as Hl.
  { intros loc Hl. destruct (read_plan_lost low high by_ loc) as (p & o & -> & Ho); [by rewrite Er |]. eauto. }
  case_decide; [by intros [= <- <-] |]. destruct (br_client b); [by intros [= <- <-] |].
  destruct (poll_loop topic (br_polls b) reads ∅ (total_want reads)) as [[found e']|] eqn:El; [| done].
  intros [= <- <-]. split; [done |]. cbn. eapply poll_loop_truthful; eauto.
Qed.
End reading.

(** ** Settled jobs *)

Section polling.
Context {St : Type} `{IL : IndexLaws St} `{J : Json}.
Context (topic dlt : string) (router : DaemonRouter).
Context (payload : Z -> Z -> option string) (expired : Z -> Z -> Prop) (cancelled : string -> Prop).

Notation pworld := (sched_world St).

(** Why a member may leave the index: its record is gone from the topic, is no
    JSON object, belongs to a cancelled batch, was produced to where it routes,
    or a letter about it is on the dead-letter topic. *)
Inductive settled (log : list pmessage) (m : string) : Prop :=
| settled_lost pm : ParseMember m = Some pm → expired (Partition pm) (Offset pm) → settled log m
| settled_garbage pm raw e :
    ParseMember m = Some pm → payload (Partition pm) (Offset pm) = Some raw → unmarshal raw = Bad e → settled log m
| settled_cancelled pm raw d :
    ParseMember m = Some pm → payload (Partition pm) (Offset pm) = Some raw → unmarshal raw = Ok d →
    cancelled (str_field (fields d) "batch_id") → settled log m
| settled_produced pm raw d rt key part :
    ParseMember m = Some pm → payload (Partition pm) (Offset pm) = Some raw → unmarshal raw = Ok d →
    (route router (fields d) = Routed rt ∨ ∃ rt0 t l p, route router (fields d) = ByTenant rt0 t l ∧ rt = with_partition rt0 p) →
    key = route_key rt (fields d) → mkPMsg (Rt_Topic rt) key part raw ∈ log → settled log m
| settled_unroutable pm raw d e letter :
    ParseMember m = Some pm → payload (Partition pm) (Offset pm) = Some raw → unmarshal raw = Ok d →
    route router (fields d) = Unroutable e → marshal (route_letter (JobID pm) raw (fields d) e) = Ok letter →
    mkPMsg dlt (JobID pm) None letter ∈ log → settled log m
| settled_unread pm misses letter :
    ParseMember m = Some pm → maxReadMisses <= misses →
    marshal (miss_letter topic (JobID pm) (BuildKey (Partition pm) (Offset pm)) misses) = Ok letter →
    mkPMsg dlt (JobID pm) None letter ∈ log → settled log m.

Lemma settled_log_mono log log' m : log ⊆ log' → settled log m → settled log' m.
Proof.
  intros Hl []; [by eapply settled_lost | by eapply settled_garbage | by eapply settled_cancelled
    | by eapply settled_produced; eauto | by eapply settled_unroutable; eauto | by eapply settled_unread; eauto].
Qed.

(** No two members a client has tried to schedule are in each other's way. *)
Definition apart (tried : gset string) : Prop := ∀ a m, a ∈ tried → m ∈ tried → covers a m → a = m.

Record poll_inv (w : pworld) : Prop := {
  pi_sound : sound (sw_store w);
  pi_held : held (sw_store w) ⊆ sw_tried w;
  pi_kept : sw_kept w ⊆ sw_tried w;
  pi_brokers : Forall (honest topic payload expired) (sw_brokers w);
  pi_cancel : ∀ f b, f ∈ sw_cancel w → f b = (true, None) → cancelled b;
  pi_jobs : apart (sw_tried w) → ∀ m, m ∈ sw_kept w → m ∈ held (sw_store w) ∨ settled (sw_log w) m
}.

Definition grows (w w' : pworld) : Prop := sw_log w ⊆ sw_log w' ∧ sw_tried w ⊆ sw_tried w'.

#[local] Instance grows_pre : PreOrder grows.
Proof. split; [by split |]. intros a b c [H1 H2] [H3 H4]. split; [intros x Hx; auto | set_solver]. Qed.

Notation wpp := (wps (exec_pop topic) poll_inv grows).

#[local] Definition wpp_then {A B} := @wps_then _ _ (exec_pop topic) poll_inv grows grows_pre A B.
#[local] Definition wpp_mono {A} := @wps_mono _ _ (exec_pop topic) poll_inv grows grows_pre A.

(** ** One rule per call *)

Lemma inv_with_store w s :
  poll_inv w → sound s → held s ⊆ held (sw_store w) →
  (apart (sw_tried w) → ∀ m, m ∈ held (sw_store w) → m ∉ held s → settled (sw_log w) m) → poll_inv (with_store s w).
Proof.
  intros [I1 I2 I3 I4 I5 I6] Hs Hh Hl. split; cbn; [done | set_solver | done | done | done |].
  intros Ha m Hm. destruct (I6 Ha m Hm) as [Hin|]; [| by right].
  destruct (decide (m ∈ held s)); [by left | right]. by apply Hl.
Qed.

Lemma wp_store {X} (f : St → St * X) w Q :
  (∀ w1 s x, grows w w1 → poll_inv w1 → f (sw_store w1) = (s, x) →
     sound s ∧ held s ⊆ held (sw_store w1) ∧
     (apart (sw_tried w1) → ∀ m, m ∈ held (sw_store w1) → m ∉ held s → settled (sw_log w1) m) ∧ Q (with_store s w1) x) →
  wpp (perform (OStore f)) w Q.
Proof.
  intros Hf. apply wps_perform. intros w1 Hw Hi w2 x E. cbn in E. destruct (f (sw_store w1)) as [s y] eqn:Ef. simplify_eq.
  destruct (Hf w1 s x Hw Hi Ef) as (? & ? & ? & ?). split; [by apply inv_with_store |]. by split.
Qed.

(** A call of the index that keeps what it holds. *)
Lemma wp_store_keep {X} (f : St → St * X) w (Q : pworld → X → Prop) :
  (∀ s s' x, sound s → f s = (s', x) → sound s' ∧ held s' = held s) →
  (∀ w1 x, grows w w1 → Q w1 x) → wpp (perform (OStore f)) w Q.
Proof.
  intros Hf HQ. apply wp_store. intros w1 s x Hw Hi E. destruct (Hf _ _ _ (pi_sound _ Hi) E) as [Hs ->].
  split; [done |]. split; [done |]. split; [done |]. by apply HQ.
Qed.

Lemma wp_produce t k part m w (Q : pworld → error → Prop) :
  (∀ w1 e, grows w w1 → (e = None → mkPMsg t k part m ∈ sw_log w1) → Q w1 e) →
  wpp (perform (OProduce t k part m)) w Q.
Proof.
  intros HQ. apply wps_perform. intros w1 Hw Hi w2 e E. cbn in E. injection E as E. unfold produce_to in E.
  assert (grows w1 w2 ∧ poll_inv w2 ∧ (e = None → mkPMsg t k part m ∈ sw_log w2)) as (H1 & H2 & H3).
  { assert (∀ log, sw_log w1 ⊆ log → poll_inv (mkSched (sw_store w1) log (tail (sw_net w1)) (sw_brokers w1) (sw_cancel w1)
              (sw_resolve w1) (sw_tried w1) (sw_kept w1))) as Hlog.
    { destruct Hi as [I1 I2 I3 I4 I5 I6]. intros log Hl. split; cbn; auto.
      intros Ha x Hx. destruct (I6 Ha x Hx); [by left | right; by eapply settled_log_mono]. }
    assert (mkPMsg t k part m ∈ sw_log w1 ++ [mkPMsg t k part m]) as Hin by set_solver.
    assert (sw_log w1 ⊆ sw_log w1 ++ [mkPMsg t k part m]) as Hsub by set_solver.
    destruct (sw_net w1) as [|[] net]; simplify_eq/=; (split; [by split |]); (split; [by apply Hlog |]); done. }
  split; [done |]. split; [done |]. apply HQ; [by etrans | done].
Qed.

Lemma wp_cancelled b w (Q : pworld → bool * error → Prop) :
  (∀ w1 r, grows w w1 → (r = (true, None) → cancelled b) → Q w1 r) → wpp (perform (OCancelled b)) w Q.
Proof.
  intros HQ. apply wps_perform. intros w1 Hw Hi w2 r E. cbn in E. injection E as <- <-.
  destruct Hi as [I1 I2 I3 I4 I5 I6]. split; [split; cbn; auto |].
  { intros f x Hf. apply I5. destruct (sw_cancel w1); [done | by right]. }
  split; [by split |]. apply HQ; [done |]. intros E. destruct (sw_cancel w1) as [|f l]; [done |]. eapply I5; [by left | exact E].
Qed.

Lemma wp_resolve t l w (Q : pworld → option Z → Prop) :
  (∀ w1 r, grows w w1 → Q w1 r) → wpp (perform (OResolve t l)) w Q.
Proof.
  intros HQ. apply wps_perform. intros w1 Hw [I1 I2 I3 I4 I5 I6] w2 r E. cbn in E. injection E as <- <-.
  split; [split; cbn; auto |]. split; [by split |]. by apply HQ.
Qed.

Lemma wp_read by_ w (Q : pworld → ReadResult * error → Prop) :
  (∀ w1 r e, grows w w1 → (∀ loc, loc ∈ Lost_ r → ∃ p o, loc = BuildKey p o ∧ expired p o) →
     truthful payload (Found r) → Q w1 (r, e)) → wpp (perform (ORead by_)) w Q.
Proof.
  intros HQ. apply wps_perform. intros w1 Hw [I1 I2 I3 I4 I5 I6] w2 r E. cbn in E.
  destruct (sw_brokers w1) as [|b rest] eqn:Eb; [done |]. destruct (Read topic b by_) as [[r' e]|] eqn:Er; [| done].
  simplify_eq. apply Forall_cons in I4 as [Hb Hrest].
  split; [split; cbn; auto |]. split; [by split |].
  destruct (Read_honest topic payload expired b by_ r' e Hb Er). by apply HQ.
Qed.

(** ** The poller's functions *)

Section one_poller.
Context (p : Poller) (Hr : P_Router p = router) (Hd : P_DeadLetterTopic p = dlt) (Ht : P_ScheduledTopic p = topic).

Lemma wp_park jobID letter w :
  wpp (park p jobID letter) w
    (λ w' ok, ok = true → ∃ raw, marshal letter = Ok raw ∧ mkPMsg dlt jobID None raw ∈ sw_log w').
Proof.
  unfold park. destruct (String.eqb _ ""); [done |]. destruct (marshal letter) as [raw|] eqn:Em; [| done].
  apply wps_bind, wp_produce. rewrite Hd. intros w1 e Hw Hin. destruct e; cbn; [done |]. intros _. eauto.
Qed.

Lemma wp_batch_cancelled d w :
  wpp (batch_cancelled p d) w (λ _ c, c = true → cancelled (str_field d "batch_id")).
Proof.
  unfold batch_cancelled. destruct (_ && _); [| done]. apply wps_bind, wp_cancelled.
  intros w1 [c [e|]] Hw Hc; cbn; [done |]. intros ->. by apply Hc.
Qed.

Lemma wp_Route d w :
  wpp (Route router d) w (λ _ r, match r with
    | Ok rt => route router d = Routed rt ∨ ∃ rt0 t l x, route router d = ByTenant rt0 t l ∧ rt = with_partition rt0 x
    | Bad e => route router d = Unroutable e
    end).
Proof.
  unfold Route. destruct (route router d) as [rt|e|rt t l] eqn:E; [by left | done |].
  apply wps_bind, wp_resolve. intros w1 x Hw. right. eauto 6.
Qed.

Lemma wp_produceDue m pm raw w :
  ParseMember m = Some pm → payload (Partition pm) (Offset pm) = Some raw →
  wpp (produceDue p raw (JobID pm)) w (λ w' ok, ok = true → settled (sw_log w') m).
Proof.
  intros Hm Hp. unfold produceDue. destruct (unmarshal raw) as [d|e] eqn:Hu; [| by intros _; eapply settled_garbage].
  eapply wpp_then; [apply wp_batch_cancelled |]. intros w1 [] _ Hc; [by intros _; eapply settled_cancelled; eauto |].
  eapply wpp_then; [rewrite Hr; apply wp_Route |]. intros w2 [rt|e] _ Hrt; cbn beta in *.
  - apply wps_bind, wp_produce. intros w3 [e|] _ Hin; cbn; [done |]. intros _. eapply settled_produced; eauto.
  - eapply wpp_mono; [| apply wp_park]. cbn. intros w3 ok _ Hin ->. destruct (Hin eq_refl) as (letter & Hl & Hlog).
    by eapply settled_unroutable.
Qed.

(** What the read promises to the loop over the claimed members. *)
Definition read_ok (r : ReadResult) : Prop :=
  (∀ loc, loc ∈ Lost_ r → ∃ p o, loc = BuildKey p o ∧ expired p o) ∧ truthful payload (Found r).

Lemma wp_settle_one r m pm w :
  read_ok r → ParseMember m = Some pm →
  wpp (settle_one p r (m, pm)) w (λ w' x, x.2 = true → settled (sw_log w') m).
Proof.
  intros [Hl Hf] Hm. unfold settle_one. case_decide as Hin.
  - intros _. destruct (Hl _ Hin) as (p0 & o0 & [<- <-]%BuildKey_inj & He). by eapply settled_lost.
  - destruct (Found r !! _) as [raw|] eqn:Ef.
    + destruct (Hf _ _ Ef) as (p0 & o0 & [<- <-]%BuildKey_inj & He).
      apply wps_bind, wp_store_keep; [intros s s' x; apply clear_law |]. intros w1 x _.
      eapply wpp_then; [by apply wp_produceDue |]. by intros w2 ok _ Hok.
    + apply wps_bind, wp_store_keep; [intros s s' x; apply miss_law |]. intros w1 [n e] _. cbn [fst].
      destruct (Z.leb_spec maxReadMisses n); [| done]. eapply wpp_then; [apply wp_park |].
      intros w2 [] _ Hp; [| done]. destruct (Hp eq_refl) as (letter & Hml & Hlog). rewrite Ht in Hml.
      apply wps_bind, wp_store_keep; [intros s s' x; apply clear_law |]. intros w3 x [Hg _] _.
      eapply settled_log_mono; [exact Hg |]. by eapply settled_unread.
Qed.

Lemma wp_settle r items : ∀ acked done_ w,
  read_ok r → (∀ m pm, (m, pm) ∈ items → ParseMember m = Some pm) → (∀ m, m ∈ done_ → settled (sw_log w) m) →
  wpp (settle p r items acked done_) w
    (λ w' x, ∀ m, m ∈ x.2 → settled (sw_log w') m ∧ (m ∈ done_ ∨ m ∈ items.*1)).
Proof.
  induction items as [|[m pm] items IH]; intros acked done_ w Hr' Hi Hs; cbn [settle].
  { cbn. intros m Hm. auto. }
  eapply wpp_then; [apply (wp_settle_one r m pm w Hr'); apply Hi; by left |].
  intros w1 [sent gone] [Hg _] Hx. cbn in Hx. eapply wpp_mono.
  2: { apply IH; [done | intros; apply Hi; by right |].
       destruct gone; [| intros x Hin; eapply settled_log_mono; eauto].
       intros x [Hin|Hin%list_elem_of_singleton]%elem_of_app; [eapply settled_log_mono; eauto | subst x; by apply Hx]. }
  cbn. intros w2 [n l] _ Hl x Hin. destruct (Hl x Hin) as [? Hor]. split; [done |].
  destruct gone; [| set_solver]. set_solver.
Qed.

Lemma wp_run_ack ms stmts : ∀ w,
  (∀ f, f ∈ stmts → f ∈ Ack ms) → (∀ m, m ∈ ms → settled (sw_log w) m ∧ m ∈ sw_tried w) →
  wpp (run_ack stmts) w (λ _ _, True).
Proof.
  induction stmts as [|f stmts IH]; intros w Hf Hm; cbn [run_ack]; [done |].
  apply wps_bind, wp_store. intros w1 s e [Hl Htr] Hi E.
  destruct (ack_law ms f _ _ _ (pi_sound _ Hi) ltac:(apply Hf; by left) E) as (Hs & Hh & Hc).
  split; [done |]. split; [done |]. split.
  - intros Ha m Hin Hn. destruct (Hc m Hin Hn) as (a & Hina & Hcov). destruct (Hm a Hina) as [Hsa Hta].
    rewrite <- (Ha a m); [by eapply settled_log_mono | set_solver | by apply (pi_held _ Hi) | done].
  - destruct e as [e|]; [done |]. apply IH; [intros g Hg; apply Hf; by right |].
    intros m Hin. destruct (Hm m Hin). split; [by eapply settled_log_mono | cbn; set_solver].
Qed.

Lemma parse_all_sound ms m pm : (m, pm) ∈ parse_all ms → m ∈ ms ∧ ParseMember m = Some pm.
Proof.
  intros (x & Hx & E)%list_elem_of_omap. destruct (ParseMember x) as [y|] eqn:Ex; [| done]. by injection E as -> ->.
Qed.

Lemma wp_Tick now w : wpp (Tick p now) w (λ _ _, True).
Proof.
  unfold Tick. eapply (wpp_then _ _ _ (λ _ _, True)).
  { destruct (reclaim_due p now); [| done]. apply wps_bind, wp_store_keep; [intros s s' x; apply reclaim_law | done]. }
  intros w1 [e|] _ _; [done |]. apply wps_bind, wp_store. intros w2 s [ms e] _ Hi E.
  destruct (claim_law _ _ _ _ _ _ _ (pi_sound _ Hi) E) as (Hs & Hh & Hms). rewrite Hh.
  split; [done |]. split; [done |]. split; [done |]. destruct e as [e|]; [by destruct ms |].
  destruct ms as [|m0 ms']; [done |]. set (ms := m0 :: ms') in *.
  assert (∀ m, m ∈ ms → m ∈ sw_tried w2) as Htried by (intros m Hm; apply (pi_held _ Hi); by apply Hms).
  clearbody ms. apply wps_bind, wp_read. intros w3 r [e|] [_ Hg3] Hlost Hfound; [done |].
  eapply wpp_then.
  { apply (wp_settle r (parse_all ms) 0 []); [done | | intros m Hm; by apply elem_of_nil in Hm].
    intros m pm Hm. by apply parse_all_sound in Hm as [_ ?]. }
  intros w4 [n l] [_ Hg4] Hl. cbn [fst snd] in *. apply wps_bind. case_decide; [done |].
  eapply wpp_then; [| by intros; done]. eapply wpp_mono; [| apply (wp_run_ack l (Ack l))]; [done | done |].
  intros m Hm. destruct (Hl m Hm) as [? [Hn|Hin]]; [by apply elem_of_nil in Hn |]. split; [done |].
  apply list_elem_of_fmap in Hin as ([x pm] & -> & [Hx _]%parse_all_sound). cbn in *. set_solver.
Qed.
End one_poller.

Lemma wp_drainDue nows : ∀ p drained w,
  P_Router p = router → P_DeadLetterTopic p = dlt → P_ScheduledTopic p = topic →
  wpp (drainDue p nows drained) w (λ _ _, True).
Proof.
  induction nows as [|[[] now] nows IH]; intros q drained w H1 H2 H3; cbn [drainDue]; [done | done |].
  eapply wpp_then; [by apply wp_Tick |]. intros w1 [lr [n [e|]]] _ _; cbn; [done |]. destruct (n =? 0); [done |]. by apply IH.
Qed.

(** ** Any number of pollers and clients *)

(** Clients schedule entries, other producers write, and what the networks and
    the caches will answer changes. *)
Inductive poll_env : pworld -> pworld -> Prop :=
| env_schedule es w s e :
    ScheduleMany es (sw_store w) = (s, e) ->
    poll_env w (mkSched s (sw_log w) (sw_net w) (sw_brokers w) (sw_cancel w) (sw_resolve w)
                  (sw_tried w ∪ list_to_set (entry_member <$> es))
                  (match e with None => sw_kept w ∪ list_to_set (entry_member <$> es) | Some _ => sw_kept w end))
| env_answers w s l net brokers cancel resolve :
    sound s -> held s = held (sw_store w) -> Forall (honest topic payload expired) brokers ->
    (∀ f b, f ∈ cancel -> f b = (true, None) -> cancelled b) ->
    poll_env w (mkSched s (sw_log w ++ l) net brokers cancel resolve (sw_tried w) (sw_kept w)).

(** A poller of the daemon drains what is due. *)
Definition poller_starts (q : prog (pop St) unit) : Prop :=
  ∃ p nows, P_Router p = router ∧ P_DeadLetterTopic p = dlt ∧ P_ScheduledTopic p = topic ∧
            q = (_ ← drainDue p nows false; mret tt).

Definition poll_start (w : pworld) : Prop :=
  sound (sw_store w) ∧ held (sw_store w) ⊆ sw_tried w ∧ sw_kept w = ∅ ∧
  Forall (honest topic payload expired) (sw_brokers w) ∧ (∀ f b, f ∈ sw_cancel w → f b = (true, None) → cancelled b).

Lemma poll_start_inv w : poll_start w → poll_inv w.
Proof. intros (H1 & H2 & H3 & H4 & H5). split; [done | done | set_solver | done | done |]. intros _ m. rewrite H3. set_solver. Qed.

Lemma poll_env_inv w w' : poll_env w w' → poll_inv w → poll_inv w' ∧ grows w w'.
Proof.
  intros [es w0 s e E|w0 s l net brokers cancel resolve Hs Hh Hb Hc] [I1 I2 I3 I4 I5 I6].
  - destruct (schedule_law es _ _ _ I1 E) as (Hs & Hh & Hlost & Hnew). set (M := list_to_set (entry_member <$> es) : gset string) in *.
    assert (∀ a, a ∈ entry_member <$> es → a ∈ M) as HM by (intros a Ha; by apply elem_of_list_to_set).
    split; [| by split; cbn; [| set_solver]]. split; cbn; [done | set_solver | destruct e; set_solver | done | done |].
    intros Ha. assert (apart (sw_tried w0)) as Ha0 by (intros a m H1 H2; apply Ha; set_solver).
    assert (∀ m, m ∈ sw_kept w0 → m ∈ held s ∨ settled (sw_log w0) m) as Hold.
    { intros m Hm. destruct (I6 Ha0 m Hm) as [Hin|]; [| by right]. destruct (decide (m ∈ held s)) as [|Hn]; [by left |].
      destruct (Hlost m Hin Hn) as (a & Hin' & Hne & Hcov). destruct Hne. apply Ha; [set_solver | set_solver | done]. }
    destruct e as [e|]; [done |]. intros m [Hm|Hm]%elem_of_union; [by apply Hold |]. left.
    apply elem_of_list_to_set in Hm. destruct (Hnew eq_refl m Hm) as [|(a & Hin & Hne & Hcov)]; [done |].
    destruct Hne. apply Ha; [set_solver | set_solver | done].
  - split; [split; cbn; rewrite ?Hh; auto | split; cbn; set_solver].
    intros Ha m Hm. destruct (I6 Ha m Hm); [by left | right]. eapply settled_log_mono; [| done]. set_solver.
Qed.

(** C27: any number of pollers drain the index, interleaved at every round trip
    and stopped at any of them, while clients schedule jobs and every answer of
    Redis or MySQL, of the brokers and of the caches may be an error or be lost.
    A member a client was told is scheduled is in the index, or it is settled: its
    payload was produced to where it routes, a letter about it is on the dead-letter topic, its
    batch is cancelled, or its record is gone or unreadable.  The members that
    clients schedule must not stand in each other's way, which holds of the
    Redis index always and of the MySQL index when no two have the same job id. *)
Theorem scheduled_jobs_kept w w' pool :
  poll_start w → rtc (pool_step (exec_pop topic) poll_env poller_starts) (w, []) (w', pool) →
  apart (sw_tried w') → ∀ m, m ∈ sw_kept w' → m ∈ held (sw_store w') ∨ settled (sw_log w') m.
Proof.
  intros Hs Hr Ha. assert (pool_ok (exec_pop topic) poll_inv grows (w', pool)) as [Hi _]; [| by apply (pi_jobs _ Hi)].
  eapply (pool_ok_steps (exec_pop topic) poll_env poller_starts poll_inv grows); [| | exact Hr |].
  - intros w1 w2. apply poll_env_inv.
  - intros q (p & nows & H1 & H2 & H3 & ->) w1 _. eapply wpp_then; [by apply wp_drainDue | done].
  - split; [by apply poll_start_inv |]. intros q Hq. by apply elem_of_nil in Hq.
Qed.
End polling.

(** ** A tick dispatches what it claimed *)

Section dispatch.
Context {St : Type} {IS : IndexStore St} `{J : Json} (topic : string) (p : Poller).

Notation runs := (run_prog (exec_pop topic)).

(** The message a claimed member becomes. *)
Definition dispatch (read : ReadResult) (m : string) : option pmessage :=
  pm ← ParseMember m;
  raw ← Found read !! BuildKey (Partition pm) (Offset pm);
  if decide (BuildKey (Partition pm) (Offset pm) ∈ Lost_ read) then None
  else match unmarshal raw with
       | Ok d => match route (P_Router p) (fields d) with
                 | Routed rt => Some (mkPMsg (Rt_Topic rt) (route_key rt (fields d))
                                        (if P_Partitioned p then Rt_Partition rt else None) raw)
                 | _ => None
                 end
       | Bad _ => None
       end.

Definition clear_misses (ms : list string) (s : St) : St := foldl (λ s m, (ClearReadMiss (P_Proc p) m s).1) s ms.

Fixpoint ack_all (stmts : list (St -> St * error)) (s : St) : St :=
  match stmts with
  | [] => s
  | f :: stmts => match f s with (s, None) => ack_all stmts s | (s, Some _) => s end
  end.

Lemma run_ack_store stmts : ∀ w, ∃ e, runs (run_ack stmts) w = Some (with_store (ack_all stmts (sw_store w)) w, e).
Proof.
  induction stmts as [|f stmts IH]; intros w; cbn; [exists None; by destruct w |].
  destruct (f (sw_store w)) as [s [e|]] eqn:E; cbn; [eauto |]. destruct (IH (with_store s w)) as [e He]. eauto.
Qed.

Context (Hc : P_SkipCancelled p = false).

Lemma produceDue_dispatches raw jobID d rt (w : sched_world St) :
  unmarshal raw = Ok d → route (P_Router p) (fields d) = Routed rt → Forall (λ x, x = Acked) (sw_net w) →
  runs (produceDue p raw jobID) w =
  Some ((produce_to (mkPMsg (Rt_Topic rt) (route_key rt (fields d)) (if P_Partitioned p then Rt_Partition rt else None) raw) w).1, true).
Proof.
  intros Hu Hr Hn. unfold produceDue. rewrite Hu. rewrite run_prog_bind. unfold batch_cancelled. rewrite Hc. cbn [andb run_prog mret prog_ret].
  rewrite run_prog_bind. unfold Route. rewrite Hr. cbn [run_prog mret prog_ret]. rewrite run_prog_bind, run_prog_perform. cbn [exec_pop].
  unfold produce_to. destruct (sw_net w) as [|x net]; [done |]. inversion Hn; subst. done.
Qed.

(** The world after members were dispatched. *)
Definition dispatched (ms : list string) (msgs : list pmessage) (w : sched_world St) : sched_world St :=
  mkSched (clear_misses ms (sw_store w)) (sw_log w ++ msgs) (drop (length ms) (sw_net w)) (sw_brokers w) (sw_cancel w)
    (sw_resolve w) (sw_tried w) (sw_kept w).

Lemma settle_one_dispatches read m pm x w :
  ParseMember m = Some pm → dispatch read m = Some x → Forall (λ x, x = Acked) (sw_net w) →
  runs (settle_one p read (m, pm)) w = Some (dispatched [m] [x] w, (true, true)).
Proof.
  intros Hp Hd Hn. unfold dispatch in Hd. rewrite Hp in Hd. cbn in Hd.
  destruct (Found read !! _) as [raw|] eqn:Hf; cbn in Hd; [| done]. unfold settle_one.
  case_decide; [done |]. rewrite Hf. destruct (unmarshal raw) as [d|] eqn:Hu; [| done].
  destruct (route (P_Router p) (fields d)) as [rt| |] eqn:Hr; [| done | done]. injection Hd as <-.
  rewrite run_prog_bind, run_prog_perform. cbn [exec_pop].
  destruct (ClearReadMiss (P_Proc p) m (sw_store w)) as [s e] eqn:Ec.
  rewrite run_prog_bind, (produceDue_dispatches raw _ d rt) by done. cbn.
  unfold dispatched, produce_to, clear_misses. cbn. rewrite Ec. cbn.
  destruct (sw_net w) as [|y net]; [done |]. inversion Hn; subst. done.
Qed.

Lemma settle_dispatches read : ∀ items msgs acked done_ w,
  (∀ m pm, (m, pm) ∈ items → ParseMember m = Some pm) → Forall2 (λ it x, dispatch read it.1 = Some x) items msgs →
  Forall (λ x, x = Acked) (sw_net w) →
  runs (settle p read items acked done_) w =
  Some (dispatched items.*1 msgs w, (acked + Z.of_nat (length items), done_ ++ items.*1)).
Proof.
  induction items as [|[m pm] items IH]; intros msgs acked done_ w Hp H2 Hn; inversion H2 as [|? x ? msgs' Hx H2']; subst; cbn [settle].
  { cbn. unfold dispatched. cbn. rewrite !app_nil_r, Z.add_0_r, drop_0. by destruct w. }
  rewrite run_prog_bind, (settle_one_dispatches read m pm x) by (done || apply Hp; by left).
  rewrite (IH msgs'); [| intros; apply Hp; by right | done | by apply Forall_drop]. f_equal. f_equal.
  - unfold dispatched, clear_misses. cbn. f_equal; [by rewrite <- app_assoc | by rewrite drop_drop].
  - cbn. f_equal; [lia | by rewrite <- app_assoc].
Qed.

Lemma parse_all_length read ms msgs :
  Forall2 (λ m x, dispatch read m = Some x) ms msgs →
  (parse_all ms).*1 = ms ∧ Forall2 (λ it x, dispatch read it.1 = Some x) (parse_all ms) msgs.
Proof.
  induction 1 as [|m x ms msgs Hx H2 [IH1 IH2]]; [done |]. cbn. unfold dispatch in Hx.
  destruct (ParseMember m) as [pm|] eqn:Hp; cbn in *; [| done]. split; [by f_equal |]. constructor; [| done].
  unfold dispatch. cbn. by rewrite Hp.
Qed.

(** A tick whose claim and read succeed and whose claimed members all route
    hands each of them to its topic once, in the order they were claimed,
    acknowledges exactly the claimed members and reports how many they were, when the produces are
    acknowledged. *)
Theorem Tick_dispatches_claimed now w s ms msgs b rest read :
  reclaim_due p now = false → ClaimDue now (P_LeaseSeconds p) (P_BatchSize p) (sw_store w) = (s, (ms, None)) → ms ≠ [] →
  sw_brokers w = b :: rest → Read topic b (merge_sort Z.le <$> by_partition (parse_all ms)) = Some (read, None) →
  Forall2 (λ m x, dispatch read m = Some x) ms msgs → Forall (λ x, x = Acked) (sw_net w) →
  ∃ w', runs (Tick p now) w = Some (w', (P_lastReclaim p, (Z.of_nat (length ms), None))) ∧
    sw_log w' = sw_log w ++ msgs ∧ sw_store w' = ack_all (Ack ms) (clear_misses ms s).
Proof.
  intros Hre Hcl Hms Hb Hrd H2 Hn. unfold Tick. rewrite Hre. rewrite run_prog_bind. cbn [run_prog mret prog_ret].
  rewrite run_prog_bind, run_prog_perform. cbn [exec_pop]. rewrite Hcl. destruct ms as [|m0 ms']; [done |]. set (ms := m0 :: ms') in *.
  rewrite run_prog_bind, run_prog_perform. cbn [exec_pop with_store sw_brokers]. rewrite Hb, Hrd.
  destruct (parse_all_length read ms msgs H2) as [Hp1 Hp2].
  rewrite run_prog_bind, (settle_dispatches read (parse_all ms) msgs) by (done || by intros m pm [_ ?]%parse_all_sound).
  rewrite Hp1. cbn [fst snd app]. rewrite run_prog_bind. rewrite decide_False by done. rewrite run_prog_bind.
  match goal with |- context [run_prog _ (run_ack (Ack ms)) ?w1] => destruct (run_ack_store (Ack ms) w1) as [e ->] end.
  cbn [run_prog mret prog_ret]. assert (length (parse_all ms) = length ms) as -> by (by rewrite <- Hp1 at 2; rewrite length_fmap).
  eexists. split; [reflexivity |]. by split.
Qed.
End dispatch.

(** ** The reader's deadline *)

(** The reader's comment says that its deadline caps the time of a scan; it is
    checked between polls only, and a poll waits for records: a wanted offset at the
    end of a partition that no poll delivers blocks the read. *)
Lemma read_blocks :
  Read "scheduled" (mkBroker (Ok {[0 := 5]}) (Ok {[0 := 8]}) None [PollRecords [mkRec "scheduled" 0 6 "null"] false])
    {[0 := [7]]} = None.
Proof. vm_compute. reflexivity. Qed.

(** ** The waits of the loop *)

(** The wait stays between the interval and its cap. *)
Lemma next_wait_bounds interval cap wait drained e :
  let '(i, c) := poll_bounds interval cap in
  i <= wait <= c → let '(slept, next) := next_wait i c wait drained e in i <= slept <= c ∧ i <= next <= c ∧ 0 < slept.
Proof.
  unfold poll_bounds, next_wait. repeat case_match; simplify_eq; repeat case_match; lia.
Qed.

(** ** Concrete runs *)

From S2P Require Import Concrete.

Definition demo_router : DaemonRouter := mkRouter ∅ "time" "throughput" ∅ "jobs" false.
Definition demo_poller : Poller := mkPoller 0 0 60 10 "scheduled" false "dead" demo_router true None.
Definition demo_job : string := object_text {["job_id"%string := JStr "a"]}.
Definition demo_payload (p o : Z) : option string :=
  if p =? 0 then if o =? 5 then Some "null"%string else if o =? 9 then Some demo_job else None else None.
Definition demo_expired (p o : Z) : Prop := o < 5.

Definition demo_broker : broker :=
  mkBroker (Ok {[0 := 5]}) (Ok {[0 := 10]}) None [PollRecords [mkRec "scheduled" 0 5 "null"] false].

Lemma demo_honest : honest "scheduled" demo_payload demo_expired demo_broker.
Proof.
  split.
  - intros low p o [= <-]. unfold demo_expired. destruct (decide (p = 0)) as [->|Hp]; [by rewrite lookup_singleton_eq; cbn |].
    rewrite lookup_singleton_ne by done. cbn. lia.
  - intros l late r Hl Hr _. apply list_elem_of_singleton in Hl. injection Hl as -> ->.
    by apply list_elem_of_singleton in Hr as ->.
Qed.

Definition first_entry : ScheduleEntry := mkEntry "a" 1000000000 0 5 "".
Definition second_entry : ScheduleEntry := mkEntry "a" 90000000000 0 9 "".

Section runs.
Context {St : Type} {IS : IndexStore St} {IL : IndexLaws St}.

Notation step := (pool_step (exec_pop "scheduled") (poll_env "scheduled" demo_payload demo_expired (λ _, False))
                    (poller_starts "scheduled" "dead" demo_router)).

Definition demo_world (s : St) (brokers : list broker) (tried kept : gset string) : sched_world St :=
  mkSched s [] [] brokers [] [] tried kept.

Definition demo_scheduled (s : St) : sched_world St :=
  demo_world (ScheduleMany [first_entry] s).1 [demo_broker] {["a:0:5"]} {["a:0:5"]}.

Lemma demo_schedule s (e : ScheduleEntry) log net br c r T K :
  (ScheduleMany [e] s).2 = None → ∀ l,
  rtc step (mkSched s log net br c r T K, l)
    (mkSched (ScheduleMany [e] s).1 log net br c r (T ∪ {[entry_member e]}) (K ∪ {[entry_member e]}), l).
Proof.
  intros He l. apply rtc_once, step_env. destruct (ScheduleMany [e] s) as [s' r'] eqn:E. cbn in He. subst r'. cbn.
  pose proof (env_schedule "scheduled" demo_payload demo_expired (λ _, False) [e] (mkSched s log net br c r T K) s' None E) as H.
  cbn in H. by rewrite union_empty_r_L in H.
Qed.

Lemma demo_start w l now :
  rtc step (w, l) (w, (_ ← drainDue demo_poller [(false, now); (true, now)] false; mret tt) :: l).
Proof. apply rtc_once, step_start. eexists _, _. by repeat split. Qed.
End runs.

Definition at_two : Z := 2000000000.

Definition demo_end {St} {IS : IndexStore St} (w : sched_world St) (q : prog (pop St) unit) : sched_world St :=
  match run_prog (exec_pop "scheduled") q w with Some (w, _) => w | None => w end.

Definition drain {St} {IS : IndexStore St} : prog (pop St) unit :=
  _ ← drainDue demo_poller [(false, at_two); (true, at_two)] false; mret tt.

(** A job is scheduled in Redis and dispatched. *)
Section redis_run.
#[local] Instance ten : IndexStore world := redis_index 10.

Definition redis_demo : sched_world world := demo_world (World empty_redis []) [demo_broker] ∅ ∅.
Definition redis_ready : sched_world world :=
  demo_world (ScheduleMany [first_entry] (World empty_redis [])).1 [demo_broker] {["a:0:5"%string]} {["a:0:5"%string]}.

Lemma redis_demo_reach :
  rtc (pool_step (exec_pop "scheduled") (poll_env (IL := redis_laws 10) "scheduled" demo_payload demo_expired (λ _, False))
         (poller_starts "scheduled" "dead" demo_router))
    (redis_demo, []) (demo_end redis_ready drain, [Ret tt]).
Proof.
  etrans; [exact (demo_schedule (IL := redis_laws 10) (World empty_redis []) first_entry [] [] [demo_broker] [] [] ∅ ∅ eq_refl []) |].
  rewrite !(left_id_L ∅ (∪)). etrans; [apply (demo_start (IL := redis_laws 10) _ _ at_two) |].
  apply (run_prog_steps (exec_pop "scheduled") _ _ _ _ _ [] []). vm_compute. reflexivity.
Qed.

Lemma redis_demo_start : poll_start (IL := redis_laws 10) "scheduled" demo_payload demo_expired (λ _, False) redis_demo.
Proof.
  unfold poll_start. change (sound (sw_store redis_demo)) with (redis_sound (World empty_redis [])).
  change (held (sw_store redis_demo)) with (members_of empty_redis). repeat split.
  - exists ∅, ∅. split; reflexivity.
  - assert (members_of empty_redis = ∅) as -> by (vm_compute; reflexivity). set_solver.
  - apply Forall_singleton, demo_honest.
  - intros f b Hf. by apply elem_of_nil in Hf.
Qed.

Lemma scheduled_jobs_kept_witness :
  "a:0:5"%string ∈ sw_kept (demo_end redis_ready drain) ∧
  (("a:0:5"%string ∈ members_of (w_db (sw_store (demo_end redis_ready drain)))) ∨
   settled "scheduled" "dead" demo_router demo_payload demo_expired (λ _, False)
     (sw_log (demo_end redis_ready drain)) "a:0:5").
Proof.
  assert ("a:0:5"%string ∈ sw_kept (demo_end redis_ready drain)) as Hk by (vm_compute; reflexivity || set_solver).
  split; [exact Hk |].
  refine (scheduled_jobs_kept (IL := redis_laws 10) "scheduled" "dead" demo_router demo_payload demo_expired (λ _, False)
            redis_demo (demo_end redis_ready drain) [Ret tt] _ redis_demo_reach _ "a:0:5" Hk).
  - exact redis_demo_start.
  - intros a m _ _ E. exact E.
Defined.

Lemma Tick_dispatches_claimed_witness :
  ∃ w', run_prog (exec_pop "scheduled") (Tick demo_poller at_two) redis_ready = Some (w', (None, (1, None))) ∧
    sw_log w' = [] ++ [mkPMsg "jobs" "" None "null"] ∧
    sw_store w' = ack_all (Ack ["a:0:5"%string])
                    (clear_misses demo_poller ["a:0:5"%string] (ClaimDue at_two 60 10 (sw_store redis_ready)).1).
Proof.
  refine (Tick_dispatches_claimed "scheduled" demo_poller eq_refl at_two redis_ready
            (ClaimDue at_two 60 10 (sw_store redis_ready)).1 ["a:0:5"%string] [mkPMsg "jobs" "" None "null"] demo_broker []
            (mkRead {["0:5"%string := "null"%string]} []) eq_refl _ _ eq_refl _ _ _).
  - vm_compute. reflexivity.
  - discriminate.
  - vm_compute. reflexivity.
  - constructor; [vm_compute; reflexivity | constructor].
  - constructor.
Defined.
End redis_run.

(** ** A rescheduled job in MySQL *)

Section mysql_run.
#[local] Existing Instance mysql_index.

Notation mysql_step :=
  (pool_step (exec_pop "scheduled") (poll_env (IL := mysql_laws) "scheduled" demo_payload demo_expired (λ _, False))
     (poller_starts "scheduled" "dead" demo_router)).

Definition mysql_demo : sched_world mysql_index_db := demo_world (mkIndexDB ∅ [] [] ∅) [demo_broker] ∅ ∅.

Definition scheduled_once : sched_world mysql_index_db :=
  demo_world (ScheduleMany [first_entry] (mkIndexDB ∅ [] [] ∅)).1 [demo_broker] {["a:0:5"%string]} {["a:0:5"%string]}.

(** The poller after its claim. *)
Definition claiming : mysql_index_db * (list string * error) := ClaimDue at_two 60 10 (sw_store scheduled_once).

Definition after_claim : prog (pop mysql_index_db) unit :=
  match drain with @Call _ _ X o k => match o in pop _ X return (X -> prog (pop mysql_index_db) unit) -> prog (pop mysql_index_db) unit with
    | @OStore _ Y f => λ k, k (f (sw_store scheduled_once)).2
    | _ => λ _, mret tt
    end k
  | q => q
  end.

Definition scheduled_twice : sched_world mysql_index_db :=
  mkSched (ScheduleMany [second_entry] claiming.1).1 [] [] [demo_broker] [] []
    {["a:0:5"%string; "a:0:9"%string]} {["a:0:5"%string; "a:0:9"%string]}.

Lemma mysql_demo_reach : rtc mysql_step (mysql_demo, []) (demo_end scheduled_twice after_claim, [Ret tt]).
Proof.
  etrans; [exact (demo_schedule (IL := mysql_laws) (mkIndexDB ∅ [] [] ∅) first_entry [] [] [demo_broker] [] [] ∅ ∅ eq_refl []) |].
  rewrite !(left_id_L ∅ (∪)). etrans; [apply (demo_start (IL := mysql_laws) _ _ at_two) |].
  etrans; [apply rtc_once; eapply (step_call _ _ _ _ _ _ [] []); reflexivity |].
  etrans; [exact (demo_schedule (IL := mysql_laws) claiming.1 second_entry [] [] [demo_broker] [] [] {["a:0:5"%string]}
                    {["a:0:5"%string]} eq_refl _) |].
  apply (run_prog_steps (exec_pop "scheduled") _ _ _ _ _ [] []). vm_compute. reflexivity.
Qed.

(** Nothing of the second schedule is on any topic. *)
Lemma second_not_settled :
  ¬ settled "scheduled" "dead" demo_router demo_payload demo_expired (λ _, False) [mkPMsg "jobs" "" None "null"] "a:0:9".
Proof.
  assert (ParseMember "a:0:9" = Some (mkMember "a" 0 9)) as Hm by (vm_compute; reflexivity).
  assert (∃ d, unmarshal demo_job = Ok d ∧ ∃ rt, route demo_router (fields d) = Routed rt) as (d & Hu & rt & Hr).
  { eexists. split; [vm_compute; reflexivity |]. eexists. vm_compute. reflexivity. }
  assert (demo_job ≠ "null"%string) as Hj by (vm_compute; discriminate).
  assert (∀ raw, demo_payload 0 9 = Some raw → raw = demo_job) as Hp.
  { change (demo_payload 0 9) with (Some demo_job). generalize demo_job. by intros j raw [= ->]. }
  revert Hu Hp Hj. generalize demo_job as job. intros job Hu Hp Hj.
  intros [pm Hpm He|pm raw e Hpm Hraw Hb|pm raw d' Hpm Hraw Hu' []|pm raw d' rt' key part Hpm Hraw Hu' Hr' Hk Hin
         |pm raw d' e letter Hpm Hraw Hu' Hr' Hl Hin|pm misses letter Hpm Hn Hl Hin];
    rewrite Hm in Hpm; injection Hpm as <-; cbn [Partition Offset] in *.
  - unfold demo_expired in He. lia.
  - apply Hp in Hraw as ->. by rewrite Hu in Hb.
  - apply Hp in Hraw as ->. apply list_elem_of_singleton in Hin. apply (f_equal pm_payload) in Hin. exact (Hj Hin).
  - apply Hp in Hraw as ->. rewrite Hu in Hu'. injection Hu' as <-. pose proof (eq_trans (eq_sym Hr) Hr') as E. discriminate E.
  - apply list_elem_of_singleton in Hin. apply (f_equal pm_topic) in Hin. discriminate Hin.
Qed.

(** In MySQL a job that is scheduled again while a poller works on its first
    schedule is lost: the poller's acknowledgement deletes the row by job id, the
    client was told that the second schedule is in place, and neither the index
    nor any topic has it. *)
Theorem mysql_reschedule_lost :
  ∃ w pool, rtc mysql_step (mysql_demo, []) (w, pool) ∧
    "a:0:9"%string ∈ sw_kept w ∧ ix_rows (sw_store w) = ∅ ∧
    ¬ settled "scheduled" "dead" demo_router demo_payload demo_expired (λ _, False) (sw_log w) "a:0:9".
Proof.
  exists (demo_end scheduled_twice after_claim), [Ret tt]. split; [exact mysql_demo_reach |].
  split; [vm_compute; reflexivity || set_solver |]. split; [vm_compute; reflexivity |].
  assert (sw_log (demo_end scheduled_twice after_claim) = [mkPMsg "jobs" "" None "null"]) as -> by (vm_compute; reflexivity).
  apply second_not_settled.
Qed.
End mysql_run.
