(* ===== verification/Tenants.v ===== *)
(** Which ingest partition a tenant's jobs go to: pkg/fairness/tenant_partitions.go.

    Each lane has a hash from tenants to partitions, a set of free partitions and
    the partition count they were made for.  Two scripts keep them: one reconciles
    the free set with the hash, one checks a partition out for a tenant. *)
From S2P Require Import Prelude Redis Client Protocol Fairness ScheduleIndex.

Definition mapKey (lane : Lane) : string := ("kafka_batch:tenant_partitions:" +:+ lane)%string.
Definition freeKey (lane : Lane) : string := (mapKey lane +:+ ":free")%string.
Definition metaKey (lane : Lane) : string := (mapKey lane +:+ ":partition_count")%string.

(** Commands of these scripts only. *)
Section commands.
Context {R : Type}.

Definition SET k v : script R unit := modify (fun s => put k (RString v) (del_key k s)).

Definition SMEMBERS k : script R (list string) := lift (fun s => get_set s k) (fun x => mret (elements x)).

Definition SCARD k : script R Z := lift (fun s => get_set s k) (fun x => mret (Z.of_nat (size x))).

(** SPOP takes a member at random; [choice] says which. *)
Definition SPOP (choice : nat) k : script R (option string) :=
  lift (fun s => get_set s k) (fun x =>
    match elements x !! (choice mod size x)%nat with
    | None => mret None
    | Some m => fun s => (put_set k (x ∖ {[m]}) s, Redis.Next (Some m))
    end).
End commands.

Section tenants.
Context `{NumText}.

Definition number (z : Z) : string := number_text (inject_Z z).

(** [p and p >= 0 and p < count]. *)
Definition in_range (count : Z) (o : option Q) : option Q :=
  match o with
  | Some p => if Qle_bool 0 p && negb (Qle_bool (inject_Z count) p) then Some p else None
  | None => None
  end.

(** A Lua table with numbers as keys. *)
Definition has_number (l : list Q) (p : Z) : bool := existsb (Qeq_bool (inject_Z p)) l.

Section scripts.
Context (lane : Lane).

(** The partitions in use; tenants with a partition that is out of range go. *)
Fixpoint scan_taken (count : Z) (l : list (string * string)) (taken : list Q) : script Z (list Q) :=
  match l with
  | [] => mret taken
  | (tenant, v) :: l =>
      match in_range count (tonumber v) with
      | Some p => scan_taken count l (p :: taken)
      | None => HDEL (mapKey lane) tenant;; scan_taken count l taken
      end
  end.

(** Adds the partitions that are in neither list to the free set. *)
Fixpoint add_free (taken cur : list Q) (ps : list Z) : script Z unit :=
  match ps with
  | [] => mret tt
  | p :: ps =>
      when (negb (has_number taken p) && negb (has_number cur p)) (SADD (freeKey lane) (number p));;
      add_free taken cur ps
  end.

(** The free partitions that are in range; the other members go. *)
Fixpoint scan_free (count : Z) (l : list string) (cur : list Q) : script Z (list Q) :=
  match l with
  | [] => mret cur
  | m :: l =>
      match in_range count (tonumber m) with
      | Some p => scan_free count l (p :: cur)
      | None => SREM (freeKey lane) m;; scan_free count l cur
      end
  end.

Definition stored_count (o : option string) : option Q :=
  match o with None => Some (-1 # 1)%Q | Some v => tonumber v end.

Definition warmLua (count : Z) : script Z unit :=
  when (count <? 1) (lua_return (-1));;
  raw ← HGETALL (mapKey lane);
  taken ← scan_taken count (map_to_list raw) [];
  stored ← GET (metaKey lane);
  let rebuild := negb match stored_count stored with Some q => Qeq_bool q (inject_Z count) | None => false end in
  if rebuild then
    DEL (freeKey lane);;
    add_free taken [] (seqZ 0 count);;
    SET (metaKey lane) (number count);;
    n ← SCARD (freeKey lane); lua_return n
  else
    members ← SMEMBERS (freeKey lane);
    cur ← scan_free count members [];
    add_free taken cur (seqZ 0 count);;
    n ← SCARD (freeKey lane); lua_return n.

(** A free partition goes to the tenant. *)
Definition take_free (tenant : string) (count : Z) (choice : nat) : script Z unit :=
  popped ← SPOP choice (freeKey lane);
  match popped with
  | None => lua_return (-1)
  | Some v =>
      match tonumber v with
      | None => lua_error "Lua redis lib command arguments must be strings or integers"
      | Some q =>
          match in_range count (Some q) with
          | None => SADD (freeKey lane) (number_text q);; lua_return (-2)
          | Some q => HSET (mapKey lane) tenant (number_text q);; lua_return (truncate q)
          end
      end
  end.

Definition checkoutLua (tenant : string) (count : Z) (choice : nat) : script Z unit :=
  when (count <? 1) (lua_return (-2));;
  existing ← HGET (mapKey lane) tenant;
  (match existing with
   | None => mret tt
   | Some v =>
       match in_range count (tonumber v) with
       | Some p => lua_return (truncate p)
       | None => HDEL (mapKey lane) tenant
       end
   end);;
  take_free tenant count choice.
End scripts.

(** ** The resolver *)

Record TenantPartitions := mkTenants {
  tp_static : gmap string Z; tp_dynamic : bool; tp_cacheTTL : Z;
  tp_cache : gmap (string * string) (Z * Z);      (* lane, tenant: partition, at *)
  tp_lastWarm : gmap string Z
}.

Definition NewTenantPartitions (static : gmap string Z) (dynamic : bool) (ttl : Z) : TenantPartitions :=
  mkTenants static dynamic (if ttl <=? 0 then 30000000000 else ttl) ∅ ∅.

Definition set_cache (c : gmap (string * string) (Z * Z)) (tp : TenantPartitions) : TenantPartitions :=
  mkTenants (tp_static tp) (tp_dynamic tp) (tp_cacheTTL tp) c (tp_lastWarm tp).

Definition readCache (now : Z) (lane tenantID : string) (tp : TenantPartitions) : TenantPartitions * option Z :=
  if tp_cacheTTL tp <=? 0 then (tp, None)
  else match tp_cache tp !! (lane, tenantID) with
       | Some (p, at_) => if tp_cacheTTL tp <=? now - at_ then (set_cache (delete (lane, tenantID) (tp_cache tp)) tp, None)
                          else (tp, Some p)
       | None => (set_cache (delete (lane, tenantID) (tp_cache tp)) tp, None)
       end.

Definition writeCache (now : Z) (lane tenantID : string) (p : Z) (tp : TenantPartitions) : TenantPartitions :=
  if tp_cacheTTL tp <=? 0 then tp else set_cache (<[(lane, tenantID) := (p, now)]> (tp_cache tp)) tp.

(** [count]: what asking Kafka for the topic's partitions gave. *)
Definition Warm (tp : TenantPartitions) (lane : string) (count : result Z) : io error :=
  if negb (tp_dynamic tp) then mret None
  else match count with
       | Bad e => mret (Some e)
       | Ok n => if n <? 1 then mret None
                 else r ← do (call (warmLua lane n)); mret (match r with Ok _ => None | Bad e => Some e end)
       end.

Definition warmThrottled (now : Z) (lane : string) (count : result Z) (tp : TenantPartitions) : io TenantPartitions :=
  let recent := match tp_lastWarm tp !! lane with Some t => now - t <? tp_cacheTTL tp | None => false end in
  if (recent : bool) then mret tp
  else
    let tp := mkTenants (tp_static tp) (tp_dynamic tp) (tp_cacheTTL tp) (tp_cache tp) (<[lane := now]> (tp_lastWarm tp)) in
    _ ← Warm tp lane count; mret tp.

Definition tenant_checkout (lane tenantID : string) (count : result Z) (choice : nat) : io (option Z * error) :=
  match count with
  | Bad e => mret (None, Some e)
  | Ok n =>
      if n <? 1 then mret (None, None)
      else
        r ← do (call (checkoutLua lane tenantID n choice));
        mret (match r with
              | Bad e => (None, Some e)
              | Ok p => if (p =? -1) || (p =? -2) then (None, None) else (Some (int32 p), None)
              end)
  end.

(** [count1] and [count2] answer the two questions for the partition count;
    [now] is the time of the call. *)
Definition Resolve (now : Z) (tenantID lane : string) (count1 count2 : result Z) (choice : nat) (tp : TenantPartitions)
    : io (TenantPartitions * option Z) :=
  if String.eqb tenantID "" then mret (tp, None)
  else
    let '(tp, hit) := readCache now lane tenantID tp in
    match hit with
    | Some p => mret (tp, Some p)
    | None =>
        match tp_static tp !! tenantID with
        | Some p => mret (writeCache now lane tenantID p tp, Some p)
        | None =>
            if negb (tp_dynamic tp) then mret (tp, None)
            else
              tp ← warmThrottled now lane count1 tp;
              r ← tenant_checkout lane tenantID count2 choice;
              mret (match r with
                    | (Some p, None) => (writeCache now lane tenantID p tp, Some p)
                    | _ => (tp, None)
                    end)
        end
    end.
End tenants.
