(* ===== verification/TenantsProps.v ===== *)
(** No two tenants of a lane share a partition of the table. *)
From S2P Require Import Prelude Redis Client Protocol Fairness FairnessSpec ScheduleIndex Tenants.

Section tenants.
Context `{NumLaws}.

#[local] Instance number_inj : Inj (=) (=) number.
Proof.
  intros a b E. pose proof (tonumber_text (inject_Z a)) as Ha. unfold number in E. rewrite E, tonumber_text in Ha.
  by injection Ha.
Qed.

Lemma in_range_spec count p :
  in_range count (tonumber (number p)) = if bool_decide (0 <= p < count) then Some (inject_Z p) else None.
Proof.
  unfold number. rewrite tonumber_text. cbn. unfold Qle_bool. cbn. rewrite !Z.mul_1_r.
  destruct (Z.leb_spec 0 p), (Z.leb_spec count p); case_bool_decide; try lia; done.
Qed.

Lemma has_number_spec l p : has_number (inject_Z <$> l) p = bool_decide (p ∈ l).
Proof.
  unfold has_number. induction l as [|x l IH]; cbn; [done |]. rewrite IH.
  assert (Qeq_bool (inject_Z p) (inject_Z x) = bool_decide (p = x)) as ->.
  { apply eq_true_iff_eq. rewrite bool_decide_eq_true. rewrite Qeq_bool_iff, inject_Z_injective. done. }
  repeat case_bool_decide; set_solver.
Qed.

(** ** The table of a lane *)

Section lane.
Context (lane : Lane).

Lemma append_longer (s : string) c t : s ≠ (s +:+ String c t)%string.
Proof. induction s as [|x s IH]; [done |]. cbn. intros [= E]. by apply IH. Qed.

Lemma map_free : mapKey lane ≠ freeKey lane.
Proof. apply append_longer. Qed.
Lemma map_meta : mapKey lane ≠ metaKey lane.
Proof. apply append_longer. Qed.
Lemma free_meta : freeKey lane ≠ metaKey lane.
Proof. intros E. by apply append_inj in E. Qed.

(** The hash holds [a], the free set [f]. *)
Definition table (s : redis) (a : gmap string Z) (f : gset Z) : Prop :=
  get_hash s (mapKey lane) = Some (number <$> a) ∧ get_set s (freeKey lane) = Some (set_map number f) ∧
  is_Some (get_string s (metaKey lane)).

(** No partition is given out twice, or given out and free. *)
Definition isolated (a : gmap string Z) (f : gset Z) : Prop :=
  (∀ t t' p, a !! t = Some p → a !! t' = Some p → t = t') ∧ (∀ t p, a !! t = Some p → p ∉ f).

(** The three keys, read after a write to one of them. *)
Lemma table_map s a f h :
  table s a f → table (put_hash (mapKey lane) (number <$> h) s) h f.
Proof.
  intros (H1 & H2 & H3). split; [apply get_hash_put_hash |]. split.
  - rewrite (same_get_set _ _ s); [done |]. apply kdb_put_hash_ne, map_free.
  - rewrite (same_get_string _ _ s); [done |]. apply kdb_put_hash_ne, map_meta.
Qed.

Lemma table_free s a f f' :
  table s a f → table (put_set (freeKey lane) (set_map number f') s) a f'.
Proof.
  intros (H1 & H2 & H3). split; [| split; [apply get_set_put_set |]].
  - rewrite (same_get_hash _ _ s); [done |]. apply kdb_put_set_ne, not_eq_sym, map_free.
  - rewrite (same_get_string _ _ s); [done |]. apply kdb_put_set_ne, free_meta.
Qed.

(** ** Commands on the table *)

Lemma HDEL_table {R} t s a f : table s a f → ∃ s', HDEL (R := R) (mapKey lane) t s = (s', Redis.Next tt) ∧ table s' (delete t a) f.
Proof.
  intros Ht. pose proof Ht as (H1 & _). unfold HDEL, lift, modify. rewrite H1. eexists. split; [done |].
  rewrite <- fmap_delete. by eapply table_map.
Qed.

Lemma SADD_table {R} p s a f : table s a f → ∃ s', SADD (R := R) (freeKey lane) (number p) s = (s', Redis.Next tt) ∧ table s' a ({[p]} ∪ f).
Proof.
  intros Ht. pose proof Ht as (_ & H2 & _). unfold SADD, lift, modify. rewrite H2. eexists. split; [done |].
  replace ({[number p]} ∪ set_map number f) with (set_map number ({[p]} ∪ f) : gset string) by set_solver. by eapply table_free.
Qed.

Lemma set_map_remove (f : gset Z) p : set_map number f ∖ {[number p]} =@{gset string} set_map number (f ∖ {[p]}).
Proof.
  apply set_eq. intros x. rewrite elem_of_difference, elem_of_singleton, !elem_of_map. split.
  - intros [(q & -> & Hq) Hn]. exists q. split; [done |]. apply elem_of_difference. split; [done |].
    rewrite elem_of_singleton. by intros ->.
  - intros (q & -> & [Hq Hn]%elem_of_difference). split; [eauto |]. intros E. apply (inj number) in E. set_solver.
Qed.

Lemma SREM_table {R} p s a f : table s a f → ∃ s', SREM (R := R) (freeKey lane) (number p) s = (s', Redis.Next tt) ∧ table s' a (f ∖ {[p]}).
Proof.
  intros Ht. pose proof Ht as (_ & H2 & _). unfold SREM, lift, modify. rewrite H2. eexists. split; [done |].
  rewrite set_map_remove. by eapply table_free.
Qed.

(** ** The loops *)

(** Tenants whose partition is in range, of a list of them. *)
Definition drop_out (count : Z) (a : gmap string Z) (l : list (string * Z)) : gmap string Z :=
  foldl (λ a x, if bool_decide (0 <= x.2 < count) then a else delete x.1 a) a l.

Lemma scan_taken_table count l : ∀ s a f taken, table s a f →
  ∃ s', scan_taken lane count (prod_map id number <$> l) (inject_Z <$> taken) s =
        (s', Redis.Next (inject_Z <$> (reverse (filter (λ p, 0 <= p < count) l.*2) ++ taken))) ∧
        table s' (drop_out count a l) f.
Proof.
  induction l as [|[t p] l IH]; intros s a f taken Ht; [by exists s |].
  cbn [fmap list_fmap prod_map scan_taken fst snd id]. rewrite in_range_spec. case_bool_decide as Hp.
  - destruct (IH s a f (p :: taken) Ht) as (s' & E & Ht'). exists s'. split; [| cbn; by rewrite bool_decide_eq_true_2].
    rewrite filter_cons_True by done. rewrite reverse_cons, <- app_assoc. exact E.
  - destruct (HDEL_table (R := Z) t s a f Ht) as (s1 & E1 & Ht1). unfold mbind, script_bind. rewrite E1.
    destruct (IH s1 (delete t a) f taken Ht1) as (s' & E & Ht'). exists s'. rewrite filter_cons_False by done.
    split; [exact E |]. cbn. by rewrite bool_decide_eq_false_2.
Qed.

Lemma add_free_table taken cur ps : ∀ s a f, table s a f →
  ∃ s', add_free lane (inject_Z <$> taken) (inject_Z <$> cur) ps s = (s', Redis.Next tt) ∧
        table s' a (f ∪ list_to_set (filter (λ p, p ∉ taken ∧ p ∉ cur) ps)).
Proof.
  induction ps as [|p ps IH]; intros s a f Ht; cbn [add_free].
  { exists s. split; [done |]. by rewrite filter_nil, list_to_set_nil, union_empty_r_L. }
  rewrite !has_number_spec. destruct (decide (p ∉ taken ∧ p ∉ cur)) as [[H1 H2]|Hn].
  - rewrite !bool_decide_eq_false_2 by done. cbn [negb andb when].
    destruct (SADD_table (R := Z) p s a f Ht) as (s1 & E1 & Ht1). unfold mbind, script_bind. rewrite E1.
    destruct (IH s1 a _ Ht1) as (s' & E & Ht'). exists s'. split; [exact E |].
    rewrite filter_cons_True by done. replace (f ∪ _) with ({[p]} ∪ f ∪ list_to_set (filter (λ p, p ∉ taken ∧ p ∉ cur) ps) : gset Z) by set_solver.
    done.
  - assert (negb (bool_decide (p ∈ taken)) && negb (bool_decide (p ∈ cur)) = false) as ->
      by (repeat case_bool_decide; cbn; tauto). cbn [when].
    rewrite filter_cons_False by done. apply IH. done.
Qed.

Lemma scan_free_table count l : ∀ s a f cur, table s a f →
  ∃ s', scan_free lane count (number <$> l) (inject_Z <$> cur) s =
        (s', Redis.Next (inject_Z <$> (reverse (filter (λ p, 0 <= p < count) l) ++ cur))) ∧
        table s' a (f ∖ list_to_set (filter (λ p, ¬ (0 <= p < count)) l)).
Proof.
  induction l as [|p l IH]; intros s a f cur Ht.
  { exists s. split; [done |]. by rewrite filter_nil, list_to_set_nil, difference_empty_L. }
  cbn [fmap list_fmap scan_free]. rewrite in_range_spec. case_bool_decide as Hp.
  - destruct (IH s a f (p :: cur) Ht) as (s' & E & Ht'). exists s'.
    rewrite filter_cons_True, filter_cons_False by tauto. rewrite reverse_cons, <- app_assoc. by split.
  - destruct (SREM_table (R := Z) p s a f Ht) as (s1 & E1 & Ht1). unfold mbind, script_bind. rewrite E1.
    destruct (IH s1 a _ cur Ht1) as (s' & E & Ht'). exists s'.
    rewrite filter_cons_False, filter_cons_True by tauto. split; [exact E |]. cbn.
    replace (f ∖ _) with (f ∖ {[p]} ∖ list_to_set (filter (λ p, ¬ 0 <= p < count) l)) by set_solver. done.
Qed.

Lemma DEL_table {R} s a f : table s a f → ∃ s', DEL (R := R) (freeKey lane) s = (s', Redis.Next tt) ∧ table s' a ∅.
Proof.
  intros (H1 & H2 & H3). eexists. split; [done |]. split; [| split].
  - rewrite (same_get_hash _ _ s); [done |]. apply kdb_del_ne, not_eq_sym, map_free.
  - unfold get_set. cbn. by rewrite lookup_delete_eq, set_map_empty.
  - rewrite (same_get_string _ _ s); [done |]. apply kdb_del_ne, free_meta.
Qed.

Lemma SET_table {R} v s a f : table s a f → ∃ s', SET (R := R) (metaKey lane) v s = (s', Redis.Next tt) ∧ table s' a f.
Proof.
  intros (H1 & H2 & H3). eexists. split; [done |]. split; [| split].
  - rewrite (same_get_hash _ _ s); [done |]. unfold same_at. rewrite kdb_put_ne, kdb_del_ne; [done | apply not_eq_sym, map_meta ..].
  - rewrite (same_get_set _ _ s); [done |]. unfold same_at. rewrite kdb_put_ne, kdb_del_ne; [done | apply not_eq_sym, free_meta ..].
  - unfold get_string. cbn. rewrite lookup_insert_eq. by eexists.
Qed.

Lemma SCARD_table {R} s a f : table s a f → ∃ n, SCARD (R := R) (freeKey lane) s = (s, Redis.Next n).
Proof. intros (_ & H2 & _). unfold SCARD, lift. rewrite H2. by eexists. Qed.

(** ** Reconciling *)

Lemma drop_out_lookup count l : ∀ a t p,
  drop_out count a l !! t = Some p → a !! t = Some p ∧ (∀ q, (t, q) ∈ l → 0 <= q < count).
Proof.
  induction l as [|[u q] l IH]; intros a t p Hl; cbn in Hl; [split; [done |]; intros q Hq; by apply elem_of_nil in Hq |].
  case_bool_decide as Hq; apply IH in Hl as [Ha Hr].
  - split; [done |]. intros q' [[= -> ->]|]%elem_of_cons; auto.
  - apply lookup_delete_Some in Ha as [Hn Ha]. split; [done |]. intros q' [[= -> ->]|]%elem_of_cons; [done | auto].
Qed.

(** What is left of the tenants, and the partitions they have. *)
Lemma drop_out_taken count a t p :
  drop_out count a (map_to_list a) !! t = Some p → a !! t = Some p ∧ p ∈ reverse (filter (λ p, 0 <= p < count) (map_to_list a).*2) ++ [].
Proof.
  intros [Ha Hr]%drop_out_lookup. split; [done |]. rewrite app_nil_r, elem_of_reverse, list_elem_of_filter.
  assert ((t, p) ∈ map_to_list a) as Hin by by apply elem_of_map_to_list. split; [by apply Hr |].
  apply list_elem_of_fmap. by exists (t, p).
Qed.

Lemma bind_next {R A B} (m : script R A) (k : A → script R B) s s' a :
  m s = (s', Redis.Next a) → (m ≫= k) s = k a s'.
Proof. intros E. unfold mbind, script_bind. by rewrite E. Qed.

Lemma elements_numbers (l : list string) (f : gset Z) :
  (∀ m, m ∈ l → m ∈ (set_map number f : gset string)) → ∃ ps, l = number <$> ps ∧ ∀ p, p ∈ ps → p ∈ f.
Proof.
  induction l as [|m l IH]; intros Hl; [exists []; split; [done |]; intros p Hp; by apply elem_of_nil in Hp |].
  destruct IH as (ps & -> & Hps); [intros; apply Hl; by right |].
  specialize (Hl m ltac:(by left)). apply elem_of_map in Hl as (p & -> & Hp). exists (p :: ps). split; [done |].
  intros q [->|Hq]%elem_of_cons; auto.
Qed.

(** The two ways the free set is made. *)
Lemma rebuild_table count T s a f : table s a f →
  ∃ s' n f', run (DEL (freeKey lane);; add_free lane (inject_Z <$> T) [] (seqZ 0 count);;
                  SET (metaKey lane) (number count);; n ← SCARD (freeKey lane); @lua_return Z unit n) s = (s', Some n) ∧
             table s' a f' ∧ ∀ p, p ∈ f' → p ∉ T.
Proof.
  intros Ht. unfold run. destruct (DEL_table (R := Z) s a f Ht) as (s1 & E1 & Ht1). rewrite (bind_next _ _ _ _ _ E1).
  destruct (add_free_table T [] (seqZ 0 count) s1 a ∅ Ht1) as (s2 & E2 & Ht2). rewrite (bind_next _ _ _ _ _ E2).
  destruct (SET_table (R := Z) (number count) s2 a _ Ht2) as (s3 & E3 & Ht3). rewrite (bind_next _ _ _ _ _ E3).
  destruct (SCARD_table (R := Z) s3 a _ Ht3) as (n & E4). rewrite (bind_next _ _ _ _ _ E4).
  eexists s3, n, _. split; [done |]. split; [exact Ht3 |]. intros p. rewrite elem_of_union, elem_of_list_to_set, list_elem_of_filter. set_solver.
Qed.

Lemma steady_table count T s a f : table s a f →
  ∃ s' n f', run (members ← SMEMBERS (freeKey lane); cur ← scan_free lane count members [];
                  add_free lane (inject_Z <$> T) cur (seqZ 0 count);; n ← SCARD (freeKey lane); @lua_return Z unit n) s = (s', Some n) ∧
             table s' a f' ∧ ∀ p, p ∈ f' → p ∈ f ∨ p ∉ T.
Proof.
  intros Ht. unfold run. pose proof Ht as (_ & Hfree & _).
  assert (SMEMBERS (R := Z) (freeKey lane) s = (s, Redis.Next (elements (set_map number f : gset string)))) as E0
    by (unfold SMEMBERS, lift; by rewrite Hfree).
  rewrite (bind_next _ _ _ _ _ E0).
  destruct (elements_numbers (elements (set_map number f : gset string)) f) as (ps & Eps & Hps); [intros m; apply elem_of_elements |].
  rewrite Eps. destruct (scan_free_table count ps s a f [] Ht) as (s1 & E1 & Ht1). rewrite (bind_next _ _ _ _ _ E1).
  destruct (add_free_table T (reverse (filter (λ p, 0 <= p < count) ps) ++ []) (seqZ 0 count) s1 a _ Ht1) as (s2 & E2 & Ht2). rewrite (bind_next _ _ _ _ _ E2).
  destruct (SCARD_table (R := Z) s2 a _ Ht2) as (n & E3). rewrite (bind_next _ _ _ _ _ E3).
  eexists s2, n, _. split; [done |]. split; [exact Ht2 |]. 
  intros p [[Hp _]%elem_of_difference|[[Hn _] _]%elem_of_list_to_set%list_elem_of_filter]%elem_of_union; auto.
Qed.

Lemma warm_table count s a f :
  1 <= count → table s a f → isolated a f →
  ∃ s' n a' f', run (warmLua lane count) s = (s', Some n) ∧ table s' a' f' ∧ isolated a' f'.
Proof.
  intros Hc Ht [Hi Hf]. set (a' := drop_out count a (map_to_list a)).
  set (T := reverse (filter (λ p, 0 <= p < count) (map_to_list a).*2) ++ []).
  assert (∀ f', (∀ p, p ∈ f' → p ∈ f ∨ p ∉ T) → isolated a' f') as Hiso.
  { intros f' Hf'. split; [intros t t' p [Ht0 _]%drop_out_taken [Ht0' _]%drop_out_taken; eauto |].
    intros t p [Hat Hpt]%drop_out_taken Hp. destruct (Hf' p Hp) as [Hpf|Hpn]; [by eapply Hf | done]. }
  unfold warmLua. destruct (Z.ltb_spec count 1); [lia |].
  assert (HGETALL (R := Z) (mapKey lane) s = (s, Redis.Next (number <$> a))) as E0
    by (unfold HGETALL, lift; by rewrite (proj1 Ht)).
  destruct (scan_taken_table count (map_to_list a) s a f [] Ht) as (s1 & E1 & Ht1).
  pose proof Ht1 as (_ & _ & [o Ho]).
  assert (GET (R := Z) (metaKey lane) s1 = (s1, Redis.Next o)) as E2 by (unfold GET, lift; by rewrite Ho).
  rewrite <- map_to_list_fmap in E1.
  destruct (rebuild_table count T s1 a' f Ht1) as (s2 & n2 & f2 & R2 & Ht2 & Hf2).
  destruct (steady_table count T s1 a' f Ht1) as (s3 & n3 & f3 & R3 & Ht3 & Hf3).
  unfold run in R2, R3 |- *. cbn [when]. rewrite (bind_next _ _ s s tt eq_refl).
  rewrite (bind_next _ _ _ _ _ E0), (bind_next _ _ _ _ _ E1), (bind_next _ _ _ _ _ E2). destruct (negb _).
  - exists s2, n2, a', f2. split; [exact R2 |]. split; [done |]. apply Hiso. auto.
  - exists s3, n3, a', f3. split; [exact R3 |]. split; [done |]. by apply Hiso.
Qed.

(** ** Checking out *)

Lemma truncate_inject z : truncate (inject_Z z) = z.
Proof. unfold truncate. cbn. apply Z.quot_1_r. Qed.

Lemma HSET_table {R} t p s a f : table s a f →
  ∃ s', HSET (R := R) (mapKey lane) t (number p) s = (s', Redis.Next tt) ∧ table s' (<[t := p]> a) f.
Proof.
  intros Ht. pose proof Ht as (H1 & _). unfold HSET, lift, modify. rewrite H1. eexists. split; [done |].
  rewrite <- fmap_insert. by eapply table_map.
Qed.

(** SPOP gives nothing, or a partition that is then no longer free. *)
Lemma SPOP_table {R} choice s a f : table s a f →
  SPOP (R := R) choice (freeKey lane) s = (s, Redis.Next None) ∨
  ∃ s' p, SPOP (R := R) choice (freeKey lane) s = (s', Redis.Next (Some (number p))) ∧ p ∈ f ∧ table s' a (f ∖ {[p]}).
Proof.
  intros Ht. pose proof Ht as (_ & H2 & _). unfold SPOP, lift. rewrite H2.
  destruct (elements _ !! _) as [m|] eqn:Em; [right | by left].
  apply list_elem_of_lookup_2, elem_of_elements, elem_of_map in Em as (p & -> & Hp).
  eexists _, p. split; [done |]. split; [done |]. rewrite set_map_remove. by eapply table_free.
Qed.

Lemma isolated_delete t a f : isolated a f → isolated (delete t a) f.
Proof. intros [Hi Hf]. split; [intros u v p [_ Hu]%lookup_delete_Some [_ Hv]%lookup_delete_Some | intros u p [_ Hu]%lookup_delete_Some]; eauto. Qed.

Lemma isolated_insert t p a f : isolated a f → p ∈ f → isolated (<[t := p]> a) (f ∖ {[p]}).
Proof.
  intros [Hi Hf] Hp. split.
  - intros u v q. rewrite !lookup_insert_Some. intros [[<- <-]|[Hu1 Hu]] [[<- Hv]|[Hv1 Hv]]; subst; try done; [| | eauto].
    + destruct (Hf v p Hv Hp).
    + destruct (Hf u q Hu Hp).
  - intros u q. rewrite lookup_insert_Some. intros [[<- <-]|[_ Hu]]; [set_solver |]. specialize (Hf u q Hu). set_solver.
Qed.

Lemma take_free_table t count choice s a f :
  table s a f → isolated a f →
  ∃ s' r a' f', run (take_free lane t count choice) s = (s', Some r) ∧ table s' a' f' ∧ isolated a' f' ∧
    (r = -1 ∨ r = -2 ∨ a' !! t = Some r ∧ 0 <= r < count).
Proof.
  intros Ht Hi. unfold run, take_free.
  destruct (SPOP_table (R := Z) choice s a f Ht) as [E|(s2 & p & E & Hp & Ht2)]; rewrite (bind_next _ _ _ _ _ E).
  { exists s, (-1), a, f. auto. }
  pose proof (in_range_spec count p) as Hr. unfold number in Hr |- *. rewrite tonumber_text in Hr |- *. rewrite Hr.
  case_bool_decide as Hin.
  - destruct (HSET_table (R := Z) t p s2 a _ Ht2) as (s3 & E3 & Ht3). unfold number in E3. rewrite (bind_next _ _ _ _ _ E3).
    exists s3, p, (<[t := p]> a), (f ∖ {[p]}). rewrite truncate_inject. split; [done |]. split; [done |].
    split; [by apply isolated_insert |]. right. right. by rewrite lookup_insert_eq.
  - destruct (SADD_table (R := Z) p s2 a _ Ht2) as (s3 & E3 & Ht3). unfold number in E3. rewrite (bind_next _ _ _ _ _ E3).
    assert ({[p]} ∪ f ∖ {[p]} = f) as Ef by (apply set_eq; intros x; destruct (decide (x = p)); set_solver).
    rewrite Ef in Ht3. exists s3, (-2), a, f. split; [done |]. split; [done |]. split; [done |]. auto.
Qed.

Lemma checkout_table t count choice s a f :
  1 <= count → table s a f → isolated a f →
  ∃ s' r a' f', run (checkoutLua lane t count choice) s = (s', Some r) ∧ table s' a' f' ∧ isolated a' f' ∧
    (r = -1 ∨ r = -2 ∨ a' !! t = Some r ∧ 0 <= r < count).
Proof.
  intros Hc Ht Hi. unfold run, checkoutLua. destruct (Z.ltb_spec count 1); [lia |]. cbn [when].
  rewrite (bind_next _ _ s s tt eq_refl).
  assert (HGET (R := Z) (mapKey lane) t s = (s, Redis.Next (number <$> a !! t))) as E0
    by (unfold HGET, lift; rewrite (proj1 Ht); rewrite <- lookup_fmap; done).
  rewrite (bind_next _ _ _ _ _ E0). destruct (a !! t) as [p|] eqn:Ea; cbn [fmap option_fmap option_map].
  - rewrite in_range_spec. case_bool_decide as Hp.
    + unfold mbind at 1, script_bind at 1. cbn. exists s, p, a, f. rewrite truncate_inject. split; [done |]. split; [done |]. split; [done |]. auto.
    + destruct (HDEL_table (R := Z) t s a f Ht) as (s1 & E1 & Ht1). rewrite (bind_next _ _ _ _ _ E1).
      apply (take_free_table t count choice s1 _ f Ht1). by apply isolated_delete.
  - rewrite (bind_next _ _ s s tt eq_refl). by apply (take_free_table t count choice s a f).
Qed.

(** ** Processes on one table *)

(** The lane's table, in some state that is isolated. *)
Definition lane_ok (s : redis) : Prop := ∃ a f, table s a f ∧ isolated a f.

Lemma do_lane {A} (c : cmd A) w w' r :
  lane_ok (w_db w) → lane_ok (c (w_db w)).1 → do c w = (w', r) → lane_ok (w_db w').
Proof. intros H1 H2 E. pose proof (do_cases c w) as Hd. rewrite E in Hd. destruct Hd as [[-> _]|[-> _]]; done. Qed.

Lemma Warm_ok tp count w w' e : lane_ok (w_db w) → Warm tp lane count w = (w', e) → lane_ok (w_db w').
Proof.
  intros Hl. unfold Warm. destruct (tp_dynamic tp); cbn [negb]; [| by intros [= <- _]].
  destruct count as [n|]; [| by intros [= <- _]]. destruct (Z.ltb_spec n 1); [by intros [= <- _] |].
  unfold mbind, io_bind. destruct (do _ w) as [w1 r] eqn:E. intros [= <- _].
  eapply do_lane; [done | | exact E]. destruct Hl as (a & f & Ht & Hi).
  destruct (warm_table n _ a f ltac:(lia) Ht Hi) as (s' & m & a' & f' & Er & Ht' & Hi'). unfold call. rewrite Er. by exists a', f'.
Qed.

Lemma warmThrottled_ok now count tp w w' tp' :
  lane_ok (w_db w) → warmThrottled now lane count tp w = (w', tp') → lane_ok (w_db w').
Proof.
  intros Hl. unfold warmThrottled. destruct (match _ !! _ with Some _ => _ | None => _ end); [by intros [= <- _] |].
  unfold mbind, io_bind. destruct (Warm _ lane count w) as [w1 e] eqn:E. intros [= <- _]. by eapply Warm_ok.
Qed.

Lemma tenant_checkout_ok t count choice w w' p e :
  lane_ok (w_db w) → tenant_checkout lane t count choice w = (w', (p, e)) →
  lane_ok (w_db w') ∧ (∀ x, p = Some x → ∃ a f r, table (w_db w') a f ∧ isolated a f ∧ a !! t = Some r ∧ x = int32 r).
Proof.
  intros Hl. unfold tenant_checkout. destruct count as [n|]; [| intros [= <- <- <-]; by split].
  destruct (Z.ltb_spec n 1); [intros [= <- <- <-]; by split |].
  unfold mbind, io_bind. destruct (do _ w) as [w1 r] eqn:E. intros [= <- Er]. destruct Hl as (a & f & Ht & Hi).
  destruct (checkout_table t n choice _ a f ltac:(lia) Ht Hi) as (s' & m & a' & f' & Erun & Ht' & Hi' & Hm).
  split.
  { refine (do_lane _ w w1 r _ _ E); [by exists a, f |]. unfold call. rewrite Erun. by exists a', f'. }
  intros x ->. destruct r as [q|]; [| done]. apply do_ok in E as [Ew Eq]. unfold call in Ew, Eq. rewrite Erun in Ew, Eq.
  injection Eq as ->. destruct ((q =? -1) || (q =? -2)) eqn:Eb; [done |]. injection Er as <- _. apply orb_false_iff in Eb as [E1 E2].
  apply Z.eqb_neq in E1, E2. destruct Hm as [|[|[Hm _]]]; [done | done |].
  exists a', f', q. rewrite Ew. done.
Qed.

(** Any processes resolve tenants and reconcile the lane, with whatever the
    networks answer; the rest of Redis may change. *)
Inductive tenants_step : world -> world -> Prop :=
| ts_warm tp count w w' e : Warm tp lane count w = (w', e) -> tenants_step w w'
| ts_resolve now t c1 c2 choice tp w w' r : Resolve now t lane c1 c2 choice tp w = (w', r) -> tenants_step w w'
| ts_other w w' :
    same_at (mapKey lane) (w_db w) (w_db w') -> same_at (freeKey lane) (w_db w) (w_db w') ->
    same_at (metaKey lane) (w_db w) (w_db w') -> tenants_step w w'.

Lemma Resolve_ok now t c1 c2 choice tp w w' tp' p :
  lane_ok (w_db w) → Resolve now t lane c1 c2 choice tp w = (w', (tp', p)) →
  lane_ok (w_db w') ∧
  ((readCache now lane t tp).2 = None → tp_static tp !! t = None → ∀ x, p = Some x →
     ∃ a f r, table (w_db w') a f ∧ isolated a f ∧ a !! t = Some r ∧ x = int32 r).
Proof.
  intros Hl. unfold Resolve. destruct (String.eqb t ""); [intros [= <- _ <-]; by split |].
  assert (tp_static (readCache now lane t tp).1 = tp_static tp) as Hst
    by (unfold readCache; repeat case_match; done).
  destruct (readCache now lane t tp) as [tp1 [q|]]; cbn in Hst; [intros [= <- _ <-]; by split |]. rewrite Hst.
  destruct (tp_static tp !! t) as [q|]; [intros [= <- _ <-]; by split |].
  destruct (tp_dynamic tp1); cbn [negb]; [| intros [= <- _ <-]; by split].
  unfold mbind, io_bind. destruct (warmThrottled now lane c1 tp1 w) as [w1 tp2] eqn:E1.
  pose proof (warmThrottled_ok _ _ _ _ _ _ Hl E1) as Hl1.
  destruct (tenant_checkout lane t c2 choice w1) as [w2 [q e]] eqn:E2.
  destruct (tenant_checkout_ok _ _ _ _ _ _ _ Hl1 E2) as [Hl2 Hq].
  destruct q as [q|], e as [e|]; intros [= <- _ <-]; by split.
Qed.

Lemma tenants_step_ok w w' : tenants_step w w' → lane_ok (w_db w) → lane_ok (w_db w').
Proof.
  intros [tp count w1 w2 e E|now t c1 c2 choice tp w1 w2 [tp' p] E|w1 w2 S1 S2 S3] Hl.
  - by eapply Warm_ok.
  - by eapply Resolve_ok in E as [? _].
  - destruct Hl as (a & f & (H1 & H2 & H3) & Hi). exists a, f. split; [| done].
    split; [by rewrite <- (same_get_hash _ _ _ S1) |]. split; [by rewrite <- (same_get_set _ _ _ S2) |].
    by rewrite <- (same_get_string _ _ _ S3).
Qed.

(** C28: from an empty table, however many processes resolve tenants and
    reconcile the free partitions, whatever counts Kafka tells each of them and
    wherever answers are lost: a tenant that is resolved from the table has a partition that no other
    tenant of the lane has and that is not free. *)
Theorem tenants_isolated w0 w now t c1 c2 choice tp w' tp' x :
  kdb (w_db w0) !! mapKey lane = None → kdb (w_db w0) !! freeKey lane = None → kdb (w_db w0) !! metaKey lane = None →
  rtc tenants_step w0 w → (readCache now lane t tp).2 = None → tp_static tp !! t = None →
  Resolve now t lane c1 c2 choice tp w = (w', (tp', Some x)) →
  ∃ (a : gmap string Z) (f : gset Z) (r : Z), get_hash (w_db w') (mapKey lane) = Some (number <$> a) ∧ get_set (w_db w') (freeKey lane) = Some (set_map number f) ∧
    a !! t = Some r ∧ x = int32 r ∧ r ∉ f ∧ ∀ u, a !! u = Some r → u = t.
Proof.
  intros H1 H2 H3 Hr Hc Hs E. assert (lane_ok (w_db w)) as Hl.
  { assert (lane_ok (w_db w0)) as H0'.
    { exists ∅, ∅. unfold table, get_hash, get_set, get_string. rewrite H1, H2, H3, fmap_empty, set_map_empty.
      split; [repeat split; by eexists |]. split; [intros ? ? ? Hx | intros ? ? Hx]; by rewrite lookup_empty in Hx. }
    clear H1 H2 H3 E. induction Hr; eauto using tenants_step_ok. }
  destruct (Resolve_ok _ _ _ _ _ _ _ _ _ _ Hl E) as [_ Hx].
  destruct (Hx Hc Hs x eq_refl) as (a & f & r & (T1 & T2 & _) & [Hi Hf] & Ha & ->).
  exists a, f, r. repeat split; eauto.
Qed.
End lane.
End tenants.

(** ** Concrete runs *)

From S2P Require Import Concrete.

(** A resolver that gives its whale a partition of its own. *)
Definition with_whale : TenantPartitions := NewTenantPartitions {["whale"%string := 0]} true 0.

Definition resolved (t : string) (w : world) (choice : nat) : world * option Z :=
  let '(w, (_, p)) := Resolve 0 t LaneTime (Ok 2) (Ok 2) choice with_whale w in (w, p).

(** The README says that every tenant gets a partition of its own and that large
    ones can be placed by hand; the partition a tenant was placed on is still given to another. *)
Lemma whale_is_not_alone :
  (resolved "whale" (World empty_redis []) 0).2 = Some 0 ∧
  ∃ choice, (resolved "minnow" (World empty_redis []) choice).2 = Some 0.
Proof. split; [vm_compute; reflexivity |]. by (exists 0%nat; vm_compute; reflexivity) || (exists 1%nat; vm_compute; reflexivity). Qed.

Definition minnow_world : world := (resolved "minnow" (World empty_redis []) 0).1.

Lemma tenants_isolated_witness :
  (resolved "shrimp" minnow_world 0).2 ≠ None ∧
  ∀ x, (resolved "shrimp" minnow_world 0).2 = Some x →
  ∃ (a : gmap string Z) (f : gset Z) (r : Z),
    get_hash (w_db (resolved "shrimp" minnow_world 0).1) (mapKey LaneTime) = Some (number <$> a) ∧
    get_set (w_db (resolved "shrimp" minnow_world 0).1) (freeKey LaneTime) = Some (set_map number f) ∧
    a !! "shrimp"%string = Some r ∧ x = int32 r ∧ r ∉ f ∧ ∀ u, a !! u = Some r → u = "shrimp"%string.
Proof.
  split; [vm_compute; discriminate |]. intros x Hx.
  destruct (Resolve 0 "shrimp" LaneTime (Ok 2) (Ok 2) 0 with_whale minnow_world) as [w' [tp' p]] eqn:E.
  assert (resolved "shrimp" minnow_world 0 = (w', p)) as Er by (unfold resolved; rewrite E; reflexivity).
  rewrite Er in Hx |- *. cbn [fst snd] in *. subst p.
  refine (tenants_isolated LaneTime (World empty_redis []) minnow_world 0 "shrimp" (Ok 2) (Ok 2) 0 with_whale w' tp' x
            eq_refl eq_refl eq_refl _ eq_refl eq_refl E).
  apply rtc_once. unfold minnow_world, resolved.
  destruct (Resolve 0 "minnow" LaneTime (Ok 2) (Ok 2) 0 with_whale (World empty_redis [])) as [w1 [tp1 q]] eqn:E1. cbn.
  by eapply ts_resolve.
Defined.
