(* ===== verification/Reconciler.v ===== *)
(** The reconciler: pkg/reconciler (reconciler.go, collector.go, run_summary.go,
    scheduler.go).

    A sweep lists the batches that have been running for long and the finished
    ones whose callback nobody claimed, and gives each a second look.  It is a
    program of [Interleave] whose calls are the round trips of a sweep, with the
    listings as one call each, so that other processes may act between any two.
    A sweep reads the clock once, as [now]. *)
From S2P Require Import Prelude Redis Client Kafka Protocol Ledger Store Fairness Control Job Produce Events Interleave.

(** A call is one step on Redis and Kafka. *)
Inductive act : Type -> Type :=
| Act {A : Type} (f : kio A) : act A.

Definition exec_act X (a : act X) (s : system) : option (system * X) := match a with Act f => Some (f s) end.

Definition store_call {A} (m : io A) : prog act A := perform (Act (redis_io m)).

Inductive Result := ResultCompleted | ResultLockSkipped | ResultFailed.

Inductive staleOutcome :=
| RecoveredRunning | RecoveredEmpty | SkippedGone | SkippedNotRunning | SkippedOpen | SkippedInProgress | StaleProduceFailed.

Inductive lostOutcome := RefiredLost | SkippedNotDone | SkippedRecentRefire | LostProduceFailed.

Definition stale_text (o : staleOutcome) : string :=
  match o with
  | RecoveredRunning => "recovered_running" | RecoveredEmpty => "recovered_empty" | SkippedGone => "skipped_gone"
  | SkippedNotRunning => "skipped_not_running" | SkippedOpen => "skipped_open"
  | SkippedInProgress => "skipped_in_progress" | StaleProduceFailed => "produce_failed"
  end.

Definition lost_text (o : lostOutcome) : string :=
  match o with
  | RefiredLost => "refired_lost" | SkippedNotDone => "skipped_not_done"
  | SkippedRecentRefire => "skipped_recent_refire" | LostProduceFailed => "produce_failed"
  end.

(** ** What a sweep did *)

Record Detail := mkDetail {
  dt_BatchID : string; dt_Action : string; dt_Outcome : string; dt_TotalJobs : Z; dt_FailedCount : Z
}.

Record Collector := mkCollector {
  co_triggeredBy : string; co_foundStale : Z; co_foundLost : Z; co_stale : list Batch; co_lost : list Batch;
  co_details : list Detail; co_recovered : Z; co_refired : Z; co_skippedStale : Z; co_skippedRecent : Z;
  co_produceFail : Z; co_cappedStale : bool; co_cappedLost : bool
}.

Definition maxDetails : nat := 25.

Definition NewCollector (triggeredBy : string) : Collector :=
  mkCollector triggeredBy 0 0 [] [] [] 0 0 0 0 0 false false.

Definition Identify (staleAll : Z) (stale : list Batch) (lostAll : Z) (lost : list Batch) (c : Collector) : Collector :=
  mkCollector (co_triggeredBy c) staleAll lostAll stale lost (co_details c) (co_recovered c) (co_refired c)
    (co_skippedStale c) (co_skippedRecent c) (co_produceFail c)
    (Z.of_nat (length stale) <? staleAll) (Z.of_nat (length lost) <? lostAll).

Definition addDetail (action : string) (b : Batch) (c : Collector) : Collector :=
  if decide (maxDetails <= length (co_details c))%nat then c
  else mkCollector (co_triggeredBy c) (co_foundStale c) (co_foundLost c) (co_stale c) (co_lost c)
         (co_details c ++ [mkDetail (ID b) action (Status b) (TotalJobs b) (FailedCount b)])
         (co_recovered c) (co_refired c) (co_skippedStale c) (co_skippedRecent c) (co_produceFail c)
         (co_cappedStale c) (co_cappedLost c).

(** Adds to the five counters. *)
Definition bump (recovered refired skipped recent failed : Z) (c : Collector) : Collector :=
  mkCollector (co_triggeredBy c) (co_foundStale c) (co_foundLost c) (co_stale c) (co_lost c) (co_details c)
    (co_recovered c + recovered) (co_refired c + refired) (co_skippedStale c + skipped) (co_skippedRecent c + recent)
    (co_produceFail c + failed) (co_cappedStale c) (co_cappedLost c).

Definition RecordStale (o : staleOutcome) (b : Batch) (c : Collector) : Collector :=
  addDetail (stale_text o) b
    match o with
    | RecoveredRunning | RecoveredEmpty => bump 1 0 0 0 0 c
    | SkippedOpen | SkippedInProgress => bump 0 0 1 0 0 c
    | StaleProduceFailed => bump 0 0 0 0 1 c
    | SkippedGone | SkippedNotRunning => c
    end.

Definition RecordLostSkippedRecently (b : Batch) (c : Collector) : Collector :=
  addDetail "skipped_recent_refire" b (bump 0 0 0 1 0 c).

Definition RecordLost (o : lostOutcome) (b : Batch) (c : Collector) : Collector :=
  addDetail (lost_text o) b
    match o with
    | RefiredLost => bump 0 1 0 0 0 c
    | LostProduceFailed => bump 0 0 0 0 1 c
    | _ => c
    end.

Definition keyLast : string := "kafka_batch:reconciler:last".
Definition keySkip : string := "kafka_batch:reconciler:last_skip".

Definition boolStr (v : bool) : string := if v then "1" else "0".

(** The configuration a sweep uses, durations in nanoseconds. *)
Record SweepConfig := mkSweep {
  sw_Interval : Z; sw_LockTTL : Z; sw_Max : Z; sw_CallbacksTopic : string
}.

Definition capSlice {A} (l : list A) (max : Z) : list A :=
  if Z.of_nat (length l) <=? max then l else take (Z.to_nat max) l.

Section sweep.
Context `{Json} `{TimeText}.
(** The JSON of the details and the text of a duration. *)
Context (details_json : list Detail -> string) (duration : string).

Definition summary_fields (now : Z) (c : Collector) : list (string * string) :=
  [("ran_at", rfc3339_format now); ("triggered_by", co_triggeredBy c); ("duration", duration);
   ("found_stale", itoa (co_foundStale c)); ("processed_stale", itoa (Z.of_nat (length (co_stale c))));
   ("found_lost", itoa (co_foundLost c)); ("processed_lost", itoa (Z.of_nat (length (co_lost c))));
   ("capped_stale", boolStr (co_cappedStale c)); ("capped_lost", boolStr (co_cappedLost c));
   ("recovered_stale", itoa (co_recovered c)); ("refired_lost", itoa (co_refired c));
   ("skipped_stale", itoa (co_skippedStale c)); ("produce_failed", itoa (co_produceFail c));
   ("details", details_json (co_details c))]%string.

Definition SaveLast (now : Z) (c : Collector) : prog act unit :=
  _ ← store_call (do (command (HMSET keyLast (summary_fields now c)))); mret tt.

Definition SaveSkip (now : Z) : prog act unit :=
  _ ← store_call (do (command (HMSET keySkip [("at", rfc3339_format now); ("reason", "lock_held")]%string))); mret tt.

(** ** One batch *)

Context (st : RedisStore) (cfg : SweepConfig).

Definition callback_for (now : Z) (b : Batch) (outcome : string) (reconciled : bool) : CallbackMessage :=
  mkCallback (ID b) outcome (TotalJobs b) (CompletedCount b) (FailedCount b) 0 (OnSuccess b) (OnComplete b) None
    (DecodeJSONMap (CallbackArgs b)) (if String.eqb (FinishedAt b) "" then rfc3339_format now else FinishedAt b)
    reconciled false.

Definition produceCallback (now : Z) (b : Batch) (outcome : string) (reconciled : bool) : prog act bool :=
  match callback_json (callback_for now b outcome reconciled) with
  | Bad _ => mret false
  | Ok raw =>
      e ← perform (Act (Kafka.Produce (sw_CallbacksTopic cfg) (ID b) raw));
      mret (match e with None => true | Some _ => false end)
  end.

(** Marks the batch finished, if it is still running, and produces its callback. *)
Definition finish_stuck (now : Z) (b : Batch) (outcome : string) (recovered : staleOutcome) : prog act staleOutcome :=
  ok ← store_call (MarkFinishedIfRunning (Some st) (clock_at now) (ID b) outcome);
  if negb (fst ok) then mret SkippedNotRunning
  else
    sent ← produceCallback now b outcome false;
    mret (if (sent : bool) then recovered else StaleProduceFailed).

Definition reconcileRunning (now : Z) (listed : Batch) : prog act staleOutcome :=
  r ← store_call (FindBatch (ID listed));
  match r with
  | (Some b, None) =>
      if negb (String.eqb (Status b) "running") then mret SkippedNotRunning
      else if String.eqb (LockedAt b) "" then mret SkippedOpen
      else if TotalJobs b =? 0 then finish_stuck now b "success" RecoveredEmpty
      else if CompletedCount b + FailedCount b <? TotalJobs b then mret SkippedInProgress
      else finish_stuck now b (if 0 <? FailedCount b then "complete"%string else "success"%string) RecoveredRunning
  | _ => mret SkippedGone
  end.

Definition recentlyReconcilerRefired (now : Z) (at_ : string) (interval : Z) : bool :=
  if String.eqb at_ "" || (interval <=? 0) then false
  else match rfc3339_parse at_ with Some t => now - t <? interval | None => false end.

Definition refireCallback (now interval : Z) (listed : Batch) : prog act lostOutcome :=
  r ← store_call (FindBatch (ID listed));
  match r with
  | (Some b, None) =>
      if negb (String.eqb (Status b) "success") && negb (String.eqb (Status b) "complete") then mret SkippedNotDone
      else if recentlyReconcilerRefired now (ReconcilerRefiredAt b) interval then mret SkippedRecentRefire
      else
        sent ← produceCallback now b (Status b) true;
        if (sent : bool) then
          _ ← store_call (MarkReconcilerRefired (Some st) (clock_at now) (ID b)); mret RefiredLost
        else mret LostProduceFailed
  | _ => mret SkippedNotDone
  end.

(** ** A sweep *)

Fixpoint sweep_stale (now : Z) (l : list Batch) (c : Collector) : prog act Collector :=
  match l with
  | [] => mret c
  | b :: l => o ← reconcileRunning now b; sweep_stale now l (RecordStale o b c)
  end.

Fixpoint sweep_lost (now interval : Z) (l : list Batch) (c : Collector) : prog act Collector :=
  match l with
  | [] => mret c
  | b :: l =>
      o ← refireCallback now interval b;
      sweep_lost now interval l
        (match o with SkippedRecentRefire => RecordLostSkippedRecently b c | _ => RecordLost o b c end)
  end.

Definition sweep_interval : Z := if sw_Interval cfg <=? 0 then 300000000000 else sw_Interval cfg.
Definition sweep_max : Z := if sw_Max cfg <? 1 then 100 else sw_Max cfg.

(** What runs under the lock: the collector, or the error of a listing. *)
Definition sweep_body (now : Z) (c : Collector) : prog act (Collector * error) :=
  let threshold := (inject_Z (now - sweep_interval) / inject_Z 1000000000)%Q in
  r ← store_call (StaleBatches (Some st) threshold);
  match r with
  | (_, Some e) => mret (c, Some e)
  | (staleAll, None) =>
      let stale := capSlice staleAll sweep_max in
      r ← store_call (DoneBatchesWithoutCallback (Some st) threshold);
      match r with
      | (_, Some e) => mret (c, Some e)
      | (lostAll, None) =>
          let lost := capSlice lostAll sweep_max in
          c ← sweep_stale now stale (Identify (Z.of_nat (length staleAll)) stale (Z.of_nat (length lostAll)) lost c);
          c ← sweep_lost now sweep_interval lost c;
          _ ← store_call (ReconcileBatchCounts (Some st));
          mret (c, None)
      end
  end.

(** [token]: what the random source gave for the lock. *)
Definition Run (now : Z) (token : result string) (triggeredBy : string) : prog act Result :=
  let lockTTL := if sw_LockTTL cfg <=? 0 then 600000000000 else sw_LockTTL cfg in
  let ttlSec := if seconds lockTTL <? 1 then 1 else seconds lockTTL in
  let skip : prog act Result := SaveSkip now;; mret ResultLockSkipped in
  match token with
  | Bad _ => skip
  | Ok token =>
      r ← store_call (do (call (acquireLock reconcilerLockKey token ttlSec)));
      match r with
      | Bad _ | Ok false => skip
      | Ok true =>
          x ← sweep_body now (NewCollector triggeredBy);
          _ ← store_call (do (call (releaseLock reconcilerLockKey token)));
          match x with
          | (_, Some _) => mret ResultFailed
          | (c, None) => SaveLast now c;; mret ResultCompleted
          end
      end
  end.
End sweep.

(** ** When a sweep starts *)

(** The package's variables: the last start (None: the zero time), and whether a
    sweep runs. *)
Record sched_state := mkSchedState { lastReconcileAt : option Z; running : bool }.

(** Whether MaybeRun starts a sweep, and the variables then. *)
Definition MaybeRun (interval now : Z) (s : sched_state) : bool * sched_state :=
  let interval := if interval <=? 0 then 300000000000 else interval in
  if running s then (false, s)
  else match lastReconcileAt s with
       | Some t => if now - t <? interval then (false, s) else (true, mkSchedState (Some now) true)
       | None => (true, mkSchedState (Some now) true)
       end.

(** The end of a sweep; [None]: it panicked. *)
Definition sweep_ended (r : option Result) (s : sched_state) : sched_state :=
  match r with
  | None | Some ResultFailed => mkSchedState None false
  | Some _ => mkSchedState (lastReconcileAt s) false
  end.

(** The period of the scheduler's ticker. *)
Definition tick_period (interval : Z) : Z :=
  let interval := if interval <=? 0 then 300000000000 else interval in
  let tick := Z.quot interval 10 in
  if tick <? 50000000 then 50000000 else if 60000000000 <? tick then 60000000000 else tick.
