(* ===== verification/ReconcilerProps.v ===== *)
(** What a sweep of the reconciler does to a batch. *)
From S2P Require Import Prelude Redis Client Kafka Protocol Ledger LedgerSpec LedgerRefine Store Fairness Control Job Produce Events EventsProps Interleave Reconciler.

(** ** Finishing a batch *)

Lemma mark_finished_running s id h outcome now score :
  shared_ok s → get_hash s (batchKey id) = Some h → h !! "status" = Some "running" →
  ∃ s', run (markFinishedIfRunning (batchKey id) countsKey runningIndex doneIndex outcome now score id) s = (s', Some 1) ∧
    get_hash s' (batchKey id) = Some (<["finished_at" := now]> (<["status" := outcome]> h)) ∧
    (∃ z, get_zset s' doneIndex = Some z ∧ z !! id = Some score).
Proof.
  intros [[c [Ec Hc]] [zr Er] [zd Ed] _] Eh Hst.
  assert (has_key s (batchKey id) = true) as Hk.
  { eapply get_hash_has_key; [exact Eh |]. intros ->. by rewrite lookup_empty in Hst. }
  destruct (wp_run (markFinishedIfRunning (batchKey id) countsKey runningIndex doneIndex outcome now score id) s
    (λ s' r, r = 1 ∧ get_hash s' (batchKey id) = Some (<["finished_at" := now]> (<["status" := outcome]> h)) ∧
             ∃ z, get_zset s' doneIndex = Some z ∧ z !! id = Some score)) as (s' & r & E & -> & H1 & H2); [| eauto].
  unfold markFinishedIfRunning. steps. rewrite Hk. apply wp_when; [discriminate |]. intros _. steps.
  rewrite Hst. cbn [holds]. apply wp_when; [discriminate |]. intros _. steps.
  destruct (ints_lookup c "running" Hc) as [n Hn]. eapply wp_HINCRBY; [known | exact Hn |]. steps.
  destruct (ints_lookup (<["running" := itoa (n + -1)]> c) outcome) as [n' Hn']; [by apply ints_insert |].
  eapply wp_HINCRBY; [known | exact Hn' |]. steps. split; [done |]. split; [reads; done |].
  eexists. split; [reads; done |]. apply lookup_insert_eq.
Qed.

(** ** Calls in a calm system *)

Section calm.
Context `{J : Json} {JL : JsonLaws} `{T : TimeText}.
Context (st : RedisStore) (cfg : SweepConfig).

Notation runs := (run_prog exec_act).

(** A round trip in a calm system: its command ran, and the system stays calm. *)
Lemma store_do_calm {A B} (c : cmd A) (k : result A → io B) (S : system) :
  calm S → ∃ net, quiet (World (c (w_db (sys S))).1 net) ∧
    runs (store_call (r ← do c; k r)) S =
    Some (let '(w, b) := k (c (w_db (sys S))).2 (World (c (w_db (sys S))).1 net) in (System w (k_log S) (k_net S), b)).
Proof.
  intros [Hq Ha]. destruct (do_quiet c (sys S) Hq) as (net & E & Hn). exists net. split; [done |].
  unfold store_call. rewrite run_prog_perform. cbn [exec_act]. unfold redis_io, mbind, io_bind. rewrite E.
  by destruct (k _ _) as [w b].
Qed.

Lemma find_calm id h (S : system) :
  calm S → get_hash (w_db (sys S)) (batchKey id) = Some h →
  ∃ net, quiet (World (w_db (sys S)) net) ∧
    runs (store_call (FindBatch id)) S = Some (System (World (w_db (sys S)) net) (k_log S) (k_net S), (hashToBatch h, None)).
Proof.
  intros Hc Hh. unfold FindBatch.
  destruct (store_do_calm (command (HGETALL (batchKey id)))
    (λ r, match r with Bad e => mret (None, Some e) | Ok h => if decide (h = ∅) then mret (None, None) else mret (hashToBatch h, None) end)
    S Hc) as (net & Hq & E).
  assert (command (HGETALL (batchKey id)) (w_db (sys S)) = (w_db (sys S), Ok h)) as Ec
    by (unfold command, HGETALL, lift; by rewrite Hh).
  rewrite Ec in Hq, E. cbn [fst snd] in *. exists net. split; [done |]. etrans; [exact E |].
  unfold hashToBatch. by case_decide.
Qed.

Lemma produce_calm now b outcome reconciled (S : system) :
  calm S → ∃ net, Forall (λ d, d = Acked) net ∧
    runs (produceCallback cfg now b outcome reconciled) S =
    Some (System (sys S) (k_log S ++ [Msg (sw_CallbacksTopic cfg) (ID b) (encoded (callback_for now b outcome reconciled))]) net, true).
Proof.
  intros Hc. unfold produceCallback. rewrite json_encoded. rewrite run_prog_bind, run_prog_perform. cbn [exec_act].
  destruct (Produce_calm (sw_CallbacksTopic cfg) (ID b) (encoded (callback_for now b outcome reconciled)) S Hc) as (net & -> & Hn).
  exists net. by split.
Qed.

(** What the code decides about a batch it re-read: the outcome, and the status
    a recovered batch gets. *)
Definition verdict (found : option Batch) : staleOutcome * option (Batch * string) :=
  match found with
  | None => (SkippedGone, None)
  | Some b =>
      if negb (String.eqb (Status b) "running") then (SkippedNotRunning, None)
      else if String.eqb (LockedAt b) "" then (SkippedOpen, None)
      else if TotalJobs b =? 0 then (RecoveredEmpty, Some (b, "success"%string))
      else if CompletedCount b + FailedCount b <? TotalJobs b then (SkippedInProgress, None)
      else (RecoveredRunning, Some (b, if 0 <? FailedCount b then "complete"%string else "success"%string))
  end.

Lemma mark_calm now id h outcome (S : system) :
  calm S → shared_ok (w_db (sys S)) → get_hash (w_db (sys S)) (batchKey id) = Some h → h !! "status" = Some "running" →
  ∃ s' net, quiet (World s' net) ∧
    get_hash s' (batchKey id) = Some (<["finished_at" := rfc3339_format now]> (<["status" := outcome]> h)) ∧
    runs (store_call (MarkFinishedIfRunning (Some st) (clock_at now) id outcome)) S =
    Some (System (World s' net) (k_log S) (k_net S), (true, None)).
Proof.
  intros Hc Hs Hh Hst.
  destruct (mark_finished_running (w_db (sys S)) id h outcome (c_rfc3339 (clock_at now)) (c_score (clock_at now)) Hs Hh Hst)
    as (s' & Er & Hh' & _).
  destruct (store_do_calm (call (markFinishedIfRunning (batchKey id) countsKey runningIndex doneIndex outcome
      (c_rfc3339 (clock_at now)) (c_score (clock_at now)) id))
    (λ r, match r with Bad e => mret (false, Some e) | Ok res => mret (res =? 1, None) end) S Hc) as (net & Hq & E).
  unfold call in Hq, E. rewrite Er in Hq, E. exists s', net. split; [exact Hq |]. split; [exact Hh' | exact E].
Qed.

Lemma finish_calm now b id h outcome recovered (S : system) :
  calm S → shared_ok (w_db (sys S)) → get_hash (w_db (sys S)) (batchKey id) = Some h → h !! "status" = Some "running" → ID b = id →
  ∃ S', runs (finish_stuck st cfg now b outcome recovered) S = Some (S', recovered) ∧
    get_hash (w_db (sys S')) (batchKey id) = Some (<["finished_at" := rfc3339_format now]> (<["status" := outcome]> h)) ∧
    k_log S' = k_log S ++ [Msg (sw_CallbacksTopic cfg) id (encoded (callback_for now b outcome false))].
Proof.
  intros Hc Hs Hh Hst Hid. unfold finish_stuck. rewrite Hid.
  destruct (mark_calm now id h outcome S Hc Hs Hh Hst) as (s' & net & Hq & Hh' & E). rewrite run_prog_bind, E. cbn [fst negb].
  destruct (produce_calm now b outcome false (System (World s' net) (k_log S) (k_net S))) as (net' & Hn & E').
  { split; [done | apply Hc]. }
  rewrite run_prog_bind, E'. cbn. eexists. split; [reflexivity |]. cbn. by rewrite Hid.
Qed.

Lemma do_lost {A} (c : cmd A) w ran net :
  w_net w = Lost ran 0 :: net → ∃ db, do c w = (World db net, Bad networkError).
Proof. intros Hn. unfold do, pipeline. rewrite Hn. destruct (run_cmds _ _) as [db rs]. rewrite take_0. by exists db. Qed.

(** A sweep that cannot reach Redis to take the lock counts as one that found it
    held: the scheduler keeps its start, so no sweep starts before the interval has passed,
    while a sweep that fails later is retried at the next tick. *)
Lemma unreachable_lock_waits details duration now token by_ (S : system) ran net :
  w_net (sys S) = Lost ran 0 :: net →
  (∃ S', runs (Run details duration st cfg now (Ok token) by_) S = Some (S', ResultLockSkipped)) ∧
  ∀ interval t, 0 < interval → t < now + interval →
    MaybeRun interval t (sweep_ended (Some ResultLockSkipped) (mkSchedState (Some now) true)) = (false, mkSchedState (Some now) false) ∧
    MaybeRun interval t (sweep_ended (Some ResultFailed) (mkSchedState (Some now) true)) = (true, mkSchedState (Some t) true).
Proof.
  intros Hn. split.
  - unfold Run, store_call. rewrite run_prog_bind, run_prog_perform. cbn [exec_act]. unfold redis_io at 1.
    destruct (do_lost (call (acquireLock reconcilerLockKey token
      (if seconds (if sw_LockTTL cfg <=? 0 then 600000000000 else sw_LockTTL cfg) <? 1 then 1
       else seconds (if sw_LockTTL cfg <=? 0 then 600000000000 else sw_LockTTL cfg)))) (sys S) ran net Hn) as [db ->].
    unfold SaveSkip, store_call. rewrite !run_prog_bind, run_prog_perform. cbn [exec_act].
    destruct (redis_io _ _) as [S2 r2]. cbn. by exists S2.
  - intros interval t Hi Ht. unfold MaybeRun. cbn [sweep_ended running lastReconcileAt].
    rewrite (proj2 (Z.leb_gt interval 0)) by lia. rewrite (proj2 (Z.ltb_lt (t - now) interval)) by lia. by split.
Qed.

(** C29: when every round trip succeeds, the reconciler re-reads a listed batch
    and does what its state calls for, on every branch: a batch that is gone or
    no longer running, still open, or in progress is left as it is and nothing is
    produced; an empty sealed batch, or one whose jobs are all done, gets the status its
    counts give it and exactly one callback is produced for it. *)
Theorem reconcileRunning_decides now listed id h (S : system) :
  calm S → shared_ok (w_db (sys S)) → ID listed = id → get_hash (w_db (sys S)) (batchKey id) = Some h →
  (∀ b, hashToBatch h = Some b → ID b = id) →
  ∃ S', runs (reconcileRunning st cfg now listed) S = Some (S', (verdict (hashToBatch h)).1) ∧
    match (verdict (hashToBatch h)).2 with
    | None => w_db (sys S') = w_db (sys S) ∧ k_log S' = k_log S
    | Some (b, outcome) =>
        get_hash (w_db (sys S')) (batchKey id) = Some (<["finished_at" := rfc3339_format now]> (<["status" := outcome]> h)) ∧
        k_log S' = k_log S ++ [Msg (sw_CallbacksTopic cfg) id (encoded (callback_for now b outcome false))]
    end.
Proof.
  intros Hc Hs Hl Hh Hid. unfold reconcileRunning. rewrite Hl.
  destruct (find_calm id h S Hc Hh) as (net & Hq & E). rewrite run_prog_bind. unfold error in *. rewrite E.
  set (S1 := System (World (w_db (sys S)) net) (k_log S) (k_net S)).
  assert (calm S1) as Hc1 by (split; [done | apply Hc]).
  destruct (hashToBatch h) as [b|] eqn:Hb; [| by exists S1]. specialize (Hid b eq_refl). unfold verdict.
  assert (Status b = at_key h "status") as Hst by (unfold hashToBatch in Hb; case_decide; [done |]; by injection Hb as <-).
  destruct (String.eqb_spec (Status b) "running") as [Hrun|]; cbn [negb]; [| by exists S1].
  assert (h !! "status" = Some "running") as Hr.
  { rewrite Hrun in Hst. unfold at_key in Hst. destruct (h !! "status") as [v|]; [cbn in Hst; by subst | discriminate Hst]. }
  destruct (String.eqb (LockedAt b) ""); [by exists S1 |].
  destruct (TotalJobs b =? 0); [by apply (finish_calm now b id h "success" RecoveredEmpty S1) |].
  destruct (_ <? _); [by exists S1 |]. by apply (finish_calm now b id h _ RecoveredRunning S1).
Qed.
End calm.

(** ** Concrete runs *)

From S2P Require Import Concrete.

Definition sweeper : RedisStore := mkStore 604800000000000 0.
Definition sweep_cfg : SweepConfig := mkSweep 0 0 0 "callbacks".

(** An empty batch, created already sealed, as a client that gives no populate
    function creates it. *)
Definition sealed_empty : system :=
  System (CreateBatch (λ j : string, inl j) (Some sweeper) (clock_at 1000000000)
    (mkCreate "b1" 0 "" "Done" None None "" "" true) (World empty_redis [])).1 [] [].

Definition listed_empty : Batch := default (mkBatch "b1" 0 0 0 0 "" "" "" "" "" "" "" "" "" "" false)
  (FindBatch "b1" (sys sealed_empty)).2.1.

(** A client adds jobs to a batch. *)
Definition jobs_added (S S' : system) : Prop :=
  ∃ id n, S' = (redis_io (AddJobs (Some sweeper) id n) S).1 ∧ (redis_io (AddJobs (Some sweeper) id n) S).2.2 = None.

Definition one_sweep : prog act unit := _ ← reconcileRunning sweeper sweep_cfg 1000000000000 listed_empty; mret tt.

(** The reconciler after it has re-read the batch. *)
Definition after_read : prog act unit :=
  match one_sweep with
  | @Call _ _ X o k => match o in act X return (X -> prog act unit) -> prog act unit with Act f => λ k, k (f sealed_empty).2 end k
  | q => q
  end.

Definition job_added : system := (redis_io (AddJobs (Some sweeper) "b1" 1) sealed_empty).1.

Definition raced : system := match run_prog exec_act after_read job_added with Some (s, _) => s | None => job_added end.

(** The comment on the re-read says that counts of the listing could finish a
    batch with jobs still in flight; the window is narrower but still there.  An
    empty sealed batch is re-read as empty, a client adds a job to it, and the
    reconciler then marks it finished: the batch succeeds and its callback is produced although it
    has a job that has not run. *)
Theorem reconciler_finishes_batch_with_jobs :
  rtc (pool_step exec_act jobs_added (λ q, q = one_sweep)) (sealed_empty, []) (raced, [Ret tt]) ∧
  (∃ h, get_hash (w_db (sys raced)) (batchKey "b1") = Some h ∧ h !! "status" = Some "success" ∧
        h !! "total_jobs" = Some "1" ∧ h !! "completed_count" = Some "0") ∧
  length (k_log raced) = 1%nat.
Proof.
  split; [| split; [eexists; split_and!; [vm_compute; reflexivity ..] | vm_compute; reflexivity]].
  etrans; [apply rtc_once, step_start; reflexivity |].
  etrans; [apply rtc_once; eapply (step_call _ _ _ _ _ _ [] []); reflexivity |].
  etrans; [apply rtc_once, (step_env _ _ _ _ job_added); by exists "b1"%string, 1 |].
  apply (run_prog_steps exec_act _ _ _ _ _ [] []). vm_compute. reflexivity.
Qed.

Lemma reconcileRunning_decides_witness :
  (verdict (Some listed_empty)).1 = RecoveredEmpty ∧
  ∃ S' h, run_prog exec_act (reconcileRunning sweeper sweep_cfg 1000000000000 listed_empty) sealed_empty = Some (S', RecoveredEmpty) ∧
    get_hash (w_db (sys S')) (batchKey "b1") =
      Some (<["finished_at" := rfc3339_format 1000000000000]> (<["status" := "success"%string]> h)).
Proof.
  split; [vm_compute; reflexivity |].
  set (h := default ∅ (get_hash (w_db (sys sealed_empty)) (batchKey "b1"))).
  assert (get_hash (w_db (sys sealed_empty)) (batchKey "b1") = Some h) as Hh by (vm_compute; reflexivity).
  assert (hashToBatch h = Some listed_empty) as Hb by (vm_compute; reflexivity). clearbody h.
  destruct (reconcileRunning_decides sweeper sweep_cfg 1000000000000 listed_empty "b1" h sealed_empty) as (S' & E & Hs).
  - split; [constructor | constructor].
  - split; [exists (<["running" := itoa 1]> ∅); split; [vm_compute; reflexivity |] | eexists; vm_compute; reflexivity ..].
    apply ints_insert. intros f v Hf. by rewrite lookup_empty in Hf.
  - vm_compute. reflexivity.
  - exact Hh.
  - intros b. rewrite Hb. intros [= <-]. vm_compute. reflexivity.
  - rewrite Hb in E, Hs. exists S', h. split; [exact E | exact (proj1 Hs)].
Defined.
