(* ===== verification/Frame.v ===== *)
(** Which keys a script, a command or a round trip may change.

    [frames K m]: the script [m] changes no key outside [K].  [tame K m]: run
    from a quiet world, the operation [m] leaves a quiet world and changes no
    key outside [K]. *)
From S2P Require Import Prelude Redis Client.

Section scripts.
Context (K : string -> Prop) {R : Type}.

Definition frames {A} (m : script R A) : Prop := ∀ s k, ¬ K k → kdb (m s).1 !! k = kdb s !! k.

Lemma frames_ret {A} (a : A) : frames (mret a).
Proof. done. Qed.

Lemma frames_return {A} (r : R) : frames (lua_return (A := A) r).
Proof. done. Qed.

Lemma frames_bind {A B} (m : script R A) (f : A → script R B) :
  frames m → (∀ a, frames (f a)) → frames (m ≫= f).
Proof.
  intros Hm Hf s k Hk. unfold mbind, script_bind. specialize (Hm s k Hk). destruct (m s) as [s' [a|r|e]]; cbn in *; [| done | done].
  rewrite <- Hm. by apply Hf.
Qed.

Lemma frames_when (b : bool) (m : script R unit) : frames m → frames (when b m).
Proof. by destruct b. Qed.

Lemma frames_lift {A B} (get : redis → option A) (f : A → script R B) : (∀ a, frames (f a)) → frames (lift get f).
Proof. intros Hf s k Hk. unfold lift. destruct (get s); [by apply Hf | done]. Qed.

Lemma frames_modify (f : redis → redis) : (∀ s k, ¬ K k → kdb (f s) !! k = kdb s !! k) → frames (modify f).
Proof. intros H s k Hk. by apply H. Qed.

Lemma kdb_put_other k k' v s : K k → ¬ K k' → kdb (put k v s) !! k' = kdb s !! k'.
Proof. intros Hk Hk'. apply lookup_insert_ne. by intros ->. Qed.

Lemma kdb_del_other k k' s : K k → ¬ K k' → kdb (del_key k s) !! k' = kdb s !! k'.
Proof. intros Hk Hk'. apply lookup_delete_ne. by intros ->. Qed.

Lemma frames_read {A B} (get : redis → option A) (f : A → B) : frames (lift get (λ a, mret (f a))).
Proof. by apply frames_lift. Qed.

Lemma frames_HDEL k f : K k → frames (HDEL k f).
Proof. intros Hk. apply frames_lift. intros h. apply frames_modify. intros s k' Hk'. unfold put_hash. case_decide; [by apply kdb_del_other | by apply kdb_put_other]. Qed.

Lemma frames_HSET k f v : K k → frames (HSET k f v).
Proof. intros Hk. apply frames_lift. intros h. apply frames_modify. intros s k' Hk'. unfold put_hash. case_decide; [by apply kdb_del_other | by apply kdb_put_other]. Qed.

Lemma frames_put_set k (f : gset string → gset string) : K k →
  frames (lift (λ s, get_set s k) (λ x, modify (put_set k (f x)))).
Proof. intros Hk. apply frames_lift. intros h. apply frames_modify. intros s k' Hk'. unfold put_set. case_decide; [by apply kdb_del_other | by apply kdb_put_other]. Qed.

Lemma frames_SADD k m : K k → frames (SADD k m).
Proof. intros Hk. by apply (frames_put_set k (λ x, {[m]} ∪ x)). Qed.

Lemma frames_SREM k m : K k → frames (SREM k m).
Proof. intros Hk. by apply (frames_put_set k (λ x, x ∖ {[m]})). Qed.

Lemma frames_DEL k : K k → frames (DEL k).
Proof. intros Hk. apply frames_modify. intros s k' Hk'. by apply kdb_del_other. Qed.

Lemma frames_EXPIRE k t : frames (EXPIRE k t).
Proof. apply frames_modify. intros s k' _. by rewrite kdb_expire. Qed.

Lemma frames_INCRBY k d : K k → frames (INCRBY k d).
Proof. intros Hk. apply frames_lift. intros z s k' Hk'. by apply kdb_put_other. Qed.

Lemma frames_HINCRBY k f d : K k → frames (HINCRBY k f d).
Proof.
  intros Hk. apply frames_lift. intros h s k' Hk'. unfold put_hash.
  destruct (h !! f) as [v|]; [destruct (atoi v) |]; cbn; try case_decide; try done; first [by apply kdb_del_other | by apply kdb_put_other].
Qed.

Lemma frames_EXISTS k : frames (EXISTS k).
Proof. done. Qed.

Lemma frames_SCAN p : frames (SCAN p).
Proof. done. Qed.

Lemma frames_ZREMRANGEBYSCORE k r : K k → frames (ZREMRANGEBYSCORE k r).
Proof. intros Hk. apply frames_lift. intros z. apply frames_modify. intros s k' Hk'. unfold put_zset. case_decide; [by apply kdb_del_other | by apply kdb_put_other]. Qed.

Lemma frames_SET_EX k v t : K k → frames (SET_EX k v t).
Proof. intros Hk. apply frames_modify. intros s k' Hk'. cbn. rewrite lookup_insert_ne by (by intros ->). by apply kdb_del_other. Qed.

Lemma frames_SET_NX_EX k v t : K k → frames (SET_NX_EX k v t).
Proof. intros Hk s k' Hk'. unfold SET_NX_EX. destruct (has_key s k); [done |]. by apply kdb_put_other. Qed.
End scripts.

Section trips.
Context (K : string -> Prop).

Definition tame {A} (m : io A) : Prop :=
  ∀ w, quiet w → quiet (m w).1 ∧ ∀ k, ¬ K k → kdb (w_db (m w).1) !! k = kdb (w_db w) !! k.

Lemma tame_ret {A} (a : A) : tame (mret a).
Proof. done. Qed.

Lemma tame_bind {A B} (m : io A) (f : A → io B) : tame m → (∀ a, tame (f a)) → tame (m ≫= f).
Proof.
  intros Hm Hf w Hq. unfold mbind, io_bind. destruct (Hm w Hq) as [Hq1 H1]. destruct (m w) as [w1 a]. cbn in *.
  destruct (Hf a w1 Hq1) as [Hq2 H2]. split; [done |]. intros k Hk. by rewrite H2, H1.
Qed.

Lemma tame_do {A} (c : cmd A) : (∀ s k, ¬ K k → kdb (c s).1 !! k = kdb s !! k) → tame (do c).
Proof. intros Hc w Hq. destruct (do_quiet c w Hq) as (net & -> & Hn). split; [exact Hn |]. intros k Hk. by apply Hc. Qed.

Lemma command_frames {A} (m : script A A) s k : frames K m → ¬ K k → kdb (command m s).1 !! k = kdb s !! k.
Proof. intros Hm Hk. unfold command. specialize (Hm s k Hk). by destruct (m s) as [s' [a|r|e]]. Qed.

Lemma tame_command {A} (m : script A A) : frames K m → tame (do (command m)).
Proof. intros Hm. apply tame_do. intros s k. by apply command_frames. Qed.

Lemma tame_pipeline {A B} (m : B → script A A) (l : list B) :
  (∀ b, frames K (m b)) → tame (pipeline ((λ b, command (m b)) <$> l)).
Proof.
  intros Hm w Hq. destruct (pipeline_quiet ((λ b, command (m b)) <$> l) w Hq) as (net & -> & Hn). split; [exact Hn |]. cbn [fst w_db].
  intros k Hk. generalize (w_db w). induction l as [|b l IH]; intros s; [done |]. rewrite fmap_cons. cbn [run_cmds].
  pose proof (command_frames (m b) s k (Hm b) Hk) as H1. destruct (command (m b) s) as [s1 r]. cbn in H1.
  specialize (IH s1). rewrite <- H1, <- IH. by destruct (run_cmds ((λ b, command (m b)) <$> l) s1).
Qed.

Lemma call_frames {R A} (m : script R A) s k : frames K m → ¬ K k → kdb (call m s).1 !! k = kdb s !! k.
Proof. intros Hm Hk. unfold call, run. specialize (Hm s k Hk). by destruct (m s) as [s' [a|r|e]]. Qed.

Lemma tame_call {R A} (m : script R A) : frames K m → tame (do (call m)).
Proof. intros Hm. apply tame_do. intros s k. by apply call_frames. Qed.
End trips.
