(* ===== verification/Enqueue.v ===== *)
(** The client's API: pkg/client (client.go, batch.go, bulk.go, bulk_uniq.go,
    message.go, produce.go, route.go, standalone_bulk.go, worker_class.go,
    worker_class_bulk.go, schedule_index.go, cancel.go, time.go, config.go).

    A job is given a uniqueness lock, a slot of its batch, a message and a place
    to go, in this order; when a later step fails, the earlier ones are taken back.
    The operations on manifest jobs and those on worker classes differ in how the handler is
    found and in the name the lock is taken for, so each pair shares one definition.  One reading
    of the clock, [now], serves a call. *)
From S2P Require Import Prelude Redis Client Kafka Protocol Fairness Ledger Store Control Job Produce Events ScheduleIndex Tenants.

(** ** Errors *)

Inductive cerror :=
| BatchClosedError (id reason : string)
| BatchNotFoundError (id : string)
| BatchExistsError (id : string)
| UnknownWorkerClassError (name : string)
| ErrJobSkipped
| DuplicateJobError (name : string)
| UnknownHandlerError (jobType : string)
| PartialProduceError (message : string) (count : Z) (produced : list bool)
| OtherError (e : string).

Definition Error (e : cerror) : string :=
  match e with
  | BatchClosedError id reason => "batch " +:+ id +:+ " is " +:+ reason
  | BatchNotFoundError id => "batch " +:+ id +:+ " not found"
  | BatchExistsError id => "batch " +:+ id +:+ " already exists"
  | UnknownWorkerClassError n => "unknown worker class " +:+ quoted n
  | ErrJobSkipped => "job skipped (uniq duplicate)"
  | DuplicateJobError n => "duplicate uniq job for " +:+ n
  | UnknownHandlerError t => "unknown job_type " +:+ quoted t
  | PartialProduceError m _ _ => m
  | OtherError e => e
  end%string.

(** ** The surroundings of a client *)

(** A record in Kafka: what was sent and the partition and offset it got. *)
Record placed := mkPlaced {
  pl_topic : string; pl_key : string; pl_payload : string; pl_asked : option Z; pl_partition : Z; pl_offset : Z
}.

(** [cw_answers]: what the next questions about a tenant's partition meet, the two partition counts and
    the choice among free partitions.  [cw_cancelled]: the process's cache of cancelled batches. *)
Record cworld := mkCWorld {
  cw_redis : world; cw_log : list placed; cw_net : list delivery; cw_mysql : mysql_index_db;
  cw_tenants : option TenantPartitions; cw_answers : list (result Z * result Z * nat);
  cw_cancelled : option Cancellation.Cache; cw_ids : nat
}.

Definition cio (A : Type) : Type := cworld -> cworld * A.

#[export] Instance cio_ret : MRet cio := fun A a w => (w, a).
#[export] Instance cio_bind : MBind cio := fun A B k m w => let '(w', a) := m w in k a w'.

Definition on_redis {A} (m : io A) : cio A := fun w =>
  let '(r, a) := m (cw_redis w) in
  (mkCWorld r (cw_log w) (cw_net w) (cw_mysql w) (cw_tenants w) (cw_answers w) (cw_cancelled w) (cw_ids w), a).

Definition on_mysql {A} (m : mysql_index_db -> mysql_index_db * A) : cio A := fun w =>
  let '(d, a) := m (cw_mysql w) in
  (mkCWorld (cw_redis w) (cw_log w) (cw_net w) d (cw_tenants w) (cw_answers w) (cw_cancelled w) (cw_ids w), a).

Definition set_tenants (t : option TenantPartitions) (w : cworld) : cworld :=
  mkCWorld (cw_redis w) (cw_log w) (cw_net w) (cw_mysql w) t (tail (cw_answers w)) (cw_cancelled w) (cw_ids w).

(** ** Configuration *)

Record HandlerEntry := mkHandlerEntry {
  HE_Runtime : string; HE_WorkerClass : string; HE_Topic : string; HE_ApplyTopicPrefix : bool;
  HE_MaxRetries : Z; HE_RetryTier : string; HE_FairnessType : string; HE_Uniq : bool
}.

Record WorkerClassConfig := mkWorkerClass {
  WC_JobType : string; WC_Topic : string; WC_ApplyTopicPrefix : bool; WC_MaxRetries : Z;
  WC_RetryTier : string; WC_FairnessType : string; WC_Uniq : bool
}.

Record Config := mkConfig {
  TopicPrefix : string; JobsTopic : string; ScheduledTopic : string; cf_CallbacksTopic : string;
  cf_MaxRetries : Z; UniqEnabled : bool; UniqOnDuplicate : string; ScheduleIndexWriteRetries : Z;
  MaxScheduleHorizon : Z; ProduceChunkSize : Z; FairnessTimeIngest : string; FairnessThroughputIngest : string;
  FairnessTenantPartitions : gmap string Z; Workers : gmap string WorkerClassConfig; AllowUnknownWorkerClasses : bool
}.

Definition resolveTopic (c : Config) (base : string) : string :=
  if String.eqb (TopicPrefix c) "" || String.eqb base "" then base
  else if String.prefix (TopicPrefix c +:+ ".") base then base
  else (TopicPrefix c +:+ "." +:+ base)%string.

Definition defaultJobsTopic (c : Config) : string := resolveTopic c (JobsTopic c).

Record workerBinding := mkBinding { wb_jobType : string; wb_entry : HandlerEntry }.

(** The interface the client writes delayed jobs through. *)
Record scheduleIndex := mkIndex {
  scheduleOne : ScheduleEntry -> cio error; scheduleMany : list ScheduleEntry -> cio error
}.

Definition redisScheduleIndex : scheduleIndex :=
  mkIndex (fun e => on_redis (redis_Schedule (E_JobID e) (E_RunAt e) (E_Partition e) (E_Offset e)))
          (fun es => on_redis (redis_ScheduleMany es)).

Definition mysqlScheduleIndex : scheduleIndex :=
  mkIndex (fun e => on_mysql (mysql_Schedule e)) (fun es => on_mysql (mysql_ScheduleMany es)).

Record Client := mkClient {
  cl_cfg : Config; cl_manifest : gmap string HandlerEntry; cl_store : option RedisStore;
  cl_sched : scheduleIndex; cl_uniq : option Z; cl_workerByClass : gmap string workerBinding
}.

(** ** Handlers *)

Definition lookupHandler (c : Client) (jobType : string) : HandlerEntry + cerror :=
  match cl_manifest c !! jobType with
  | Some e => inl e
  | None => inr (UnknownHandlerError jobType)
  end.

Definition HandlerUniq (c : Client) (jobType : string) : bool * bool :=
  match lookupHandler c jobType with
  | inr _ => (false, false)
  | inl e => (HE_Uniq e && UniqEnabled (cl_cfg c), true)
  end.

Definition workerClassName (e : HandlerEntry) (jobType : string) : string :=
  if String.eqb (HE_WorkerClass e) "" then ("go:" +:+ jobType)%string else HE_WorkerClass e.

Definition jobTypeFor (wc : WorkerClassConfig) (className : string) : string :=
  if String.eqb (WC_JobType wc) "" then className else WC_JobType wc.

Definition toEntry (wc : WorkerClassConfig) (className : string) (cfg : Config) : HandlerEntry :=
  let '(topic, apply) := if String.eqb (WC_Topic wc) "" then (JobsTopic cfg, true)
                         else (WC_Topic wc, WC_ApplyTopicPrefix wc) in
  let '(topic, apply) := if negb (String.eqb topic "") && apply then (resolveTopic cfg topic, false)
                         else (topic, apply) in
  mkHandlerEntry "ruby" className topic apply (WC_MaxRetries wc) (WC_RetryTier wc) (WC_FairnessType wc) (WC_Uniq wc).

(** [order] is the manifest's entries as the range statement meets them. *)
Definition buildWorkerIndex (cfg : Config) (order : list (string * HandlerEntry)) : gmap string workerBinding :=
  let classes := foldl (λ m x, if String.eqb (HE_WorkerClass x.2) "" then m
                               else <[HE_WorkerClass x.2 := mkBinding x.1 x.2]> m) ∅ order in
  map_fold (λ name wc m, match m !! name with
                         | Some _ => m
                         | None => <[name := mkBinding (jobTypeFor wc name) (toEntry wc name cfg)]> m
                         end) classes (Workers cfg).

Definition resolveWorkerEntry (cfg : Config) (e : HandlerEntry) : HandlerEntry :=
  if negb (String.eqb (HE_Topic e) "") && HE_ApplyTopicPrefix e && negb (String.eqb (TopicPrefix cfg) "") then
    if negb (String.prefix (TopicPrefix cfg +:+ ".") (HE_Topic e)) then
      mkHandlerEntry (HE_Runtime e) (HE_WorkerClass e) (resolveTopic cfg (HE_Topic e)) false (HE_MaxRetries e)
        (HE_RetryTier e) (HE_FairnessType e) (HE_Uniq e)
    else e
  else e.

Definition no_entry : HandlerEntry := mkHandlerEntry "" "" "" false 0 "" "" false.
Definition no_worker : WorkerClassConfig := mkWorkerClass "" "" false 0 "" "" false.

Definition lookupWorkerClass (c : Client) (workerClass : string) : (string * HandlerEntry) + cerror :=
  let cfg := cl_cfg c in
  let found :=
    match cl_workerByClass c !! workerClass with
    | Some b => inl b
    | None =>
        let b := match Workers cfg !! workerClass with
                 | Some wc => mkBinding (jobTypeFor wc workerClass) (toEntry wc workerClass cfg)
                 | None => if AllowUnknownWorkerClasses cfg
                           then mkBinding workerClass (toEntry no_worker workerClass cfg)
                           else mkBinding "" no_entry
                 end in
        if String.eqb (wb_jobType b) "" && String.eqb (HE_WorkerClass (wb_entry b)) ""
        then inr (UnknownWorkerClassError workerClass) else inl b
    end in
  match found with
  | inr e => inr e
  | inl b =>
      let e := wb_entry b in
      let runtime := if String.eqb (HE_Runtime e) "" then "ruby"%string else HE_Runtime e in
      inl (wb_jobType b,
           resolveWorkerEntry cfg
             (mkHandlerEntry runtime workerClass (HE_Topic e) (HE_ApplyTopicPrefix e) (HE_MaxRetries e)
                (HE_RetryTier e) (HE_FairnessType e) (HE_Uniq e)))
  end.

(** ** Options of a call *)

Record PushOptions := mkPush { PO_JobID : string; PO_TenantID : string; PO_ValidTill : string }.

Definition tenantID (o : PushOptions) (batchDefault : string) : string :=
  if String.eqb (PO_TenantID o) "" then batchDefault else PO_TenantID o.

Record BatchOptions := mkBatchOptions {
  BO_ID : string; BO_OnSuccess : string; BO_OnComplete : string; BO_Meta : option object;
  BO_CallbackArgs : option object; BO_Description : string; BO_TenantID : string
}.

(** A handle on a batch. *)
Record BatchHandle := mkHandle {
  bh_id : string; bh_onSuccess : string; bh_onComplete : string; bh_meta : option object;
  bh_description : string; bh_tenantID : string
}.

(** When a job is to run: the values the interface argument may hold. *)
Inductive run_at :=
| AtTime (t : Z) | AtTimePtr (t : option Z) | AtDuration (d : Z) | AtFloat (q : Q) | AtInt (z : Z)
| AtString (s : string) | AtOther.

Definition unix (s : Z) : Z := s * 1000000000.

Definition clampRunAt `{TimeText} (now : Z) (v : run_at) (horizon : Z) : Z :=
  let max := now + horizon in
  let t :=
    match v with
    | AtTime t | AtTimePtr (Some t) => t
    | AtTimePtr None | AtOther => now
    | AtDuration d => now + d
    | AtFloat q => unix (truncate q)
    | AtInt z => unix z
    | AtString s =>
        match rfc3339_parse s with
        | Some t => t
        | None => let '(n, ok) := parseInt s in if (ok : bool) then unix n else now
        end
    end in
  if max <? t then max else if t <? now then now else t.

(** ** A range of batch_seq *)

Record seqWindow := mkWindow { sw_next : Z; sw_end : Z }.

Definition take_seq (w : seqWindow) : (Z * seqWindow) + cerror :=
  if (sw_next w =? 0) || (sw_end w =? 0) then inr (OtherError "no reserved batch_seq slots")
  else if sw_end w <? sw_next w then inr (OtherError "reserved too few batch_seq slots")
  else inl (sw_next w, mkWindow (sw_next w + 1) (sw_end w)).

Record pushPlan := mkPlan { pp_jobID : string; pp_payload : json; pp_fp : string }.

Record Route := mkClientRoute { cr_Topic : string; cr_Key : string; cr_Partition : option Z }.

Record ProduceRecord := mkRecord { pr_Topic : string; pr_Key : string; pr_Payload : string; pr_Partition : option Z }.

(** A message in JSON, as encoding/json writes the struct. *)
Definition omit_opt {A} (k : string) (f : A -> json) (v : option A) (m : object) : object :=
  match v with None => m | Some x => <[k := f x]> m end.

Definition job_object (j : JobMessage) : object :=
  let m : object :=
    <["job_id" := JStr (J_JobID j)]> (<["job_type" := JStr (J_JobType j)]>
    (<["worker_class" := JStr (J_WorkerClass j)]>
    (<["payload" := default (JOther "null") (J_Payload j)]>
    (<["attempt" := JNum (inject_Z (J_Attempt j))]> ∅)))) in
  let m := omit_opt "batch_id" JStr (J_BatchID j) m in
  let m := omit_opt "max_retries" (λ n, JNum (inject_Z n)) (J_MaxRetries j) m in
  let m := omit_str "enqueued_at" (J_EnqueuedAt j) m in
  let m := omit_opt "tenant_id" JStr (J_TenantID j) m in
  let m := omit_opt "batch_seq" (λ n, JNum (inject_Z n)) (J_BatchSeq j) m in
  let m := omit_str "retry_tier" (J_RetryTier j) m in
  let m := omit_str "valid_till" (J_ValidTill j) m in
  let m := omit_bool "batch_counted" (J_BatchCounted j) m in
  let m := omit_str "retry_after" (J_RetryAfter j) m in
  let m := omit_str "retry_to" (J_RetryTo j) m in
  let m := omit_str "_uniq_fp" (J_UniqFP j) m in
  omit_bool "_reclaim" (J_Reclaim j) m.

(** Consecutive pieces of at most [n]; [fuel] is at least the length. *)
Fixpoint chunks {A} (n fuel : nat) (l : list A) : list (list A) :=
  match fuel, l with
  | S fuel, _ :: _ => firstn n l :: chunks n fuel (skipn n l)
  | _, _ => []
  end.

Definition pieces {A} (n : nat) (l : list A) : list (list A) := chunks n (length l) l.

(** hex.EncodeToString *)
Definition hex_char (n : N) : Ascii.ascii := Ascii.ascii_of_N (if (n <? 10)%N then 48 + n else 87 + n)%N.

Fixpoint hex_encode (s : string) : string :=
  match s with
  | EmptyString => EmptyString
  | String c r => let n := Ascii.N_of_ascii c in
                  String (hex_char (n / 16)) (String (hex_char (n mod 16)) (hex_encode r))
  end.

Section client.
Context `{Json} `{TimeText} `{Completion} `{NumText}.
(** The 16-byte fingerprint of a worker name and a payload, the ids uuid.NewString gives, the coordinates
    the brokers give a record, and time.Parse with nanoseconds. *)
Context (fingerprint : string -> json -> string) (uuid : nat -> string)
  (place : list placed -> ProduceRecord -> Z * Z) (nano_parse : string -> option Z).

Definition newID : cio string := fun w =>
  (mkCWorld (cw_redis w) (cw_log w) (cw_net w) (cw_mysql w) (cw_tenants w) (cw_answers w) (cw_cancelled w) (S (cw_ids w)),
   uuid (cw_ids w)).

Definition jobID (o : PushOptions) : cio string :=
  if String.eqb (PO_JobID o) "" then newID else mret (PO_JobID o).

Fixpoint newIDs {A} (l : list A) : cio (list string) :=
  match l with
  | [] => mret []
  | _ :: l => id ← newID; ids ← newIDs l; mret (id :: ids)
  end.

(** ** Kafka *)

Definition ProduceOutcome : Type := result (Z * Z).

(** A record with a negative partition is routed by its key. *)
Definition asked (p : option Z) : option Z := match p with Some n => if n <? 0 then None else Some n | None => None end.

Definition send (r : ProduceRecord) : cio ProduceOutcome := fun w =>
  let at_ := place (cw_log w) r in
  let set log net := mkCWorld (cw_redis w) log net (cw_mysql w) (cw_tenants w) (cw_answers w) (cw_cancelled w) (cw_ids w) in
  let log := cw_log w ++ [mkPlaced (pr_Topic r) (pr_Key r) (pr_Payload r) (asked (pr_Partition r)) at_.1 at_.2] in
  match cw_net w with
  | Refused :: net => (set (cw_log w) net, Bad produceError)
  | Unknown :: net => (set log net, Bad produceError)
  | net => (set log (tail net), Ok at_)
  end.

Fixpoint send_each (rs : list ProduceRecord) : cio (list ProduceOutcome) :=
  match rs with
  | [] => mret []
  | r :: rs => o ← send r; os ← send_each rs; mret (o :: os)
  end.

Definition outcome_error (o : ProduceOutcome) : error := match o with Ok _ => None | Bad e => Some e end.

(** The deliveries are matched to the records by correlateOutcomes. *)
Definition ProduceManySync (rs : list ProduceRecord) : cio (list ProduceOutcome * error) :=
  match rs with
  | [] => mret ([], None)
  | _ =>
      os ← send_each rs;
      let '(errs, first) :=
        correlateOutcomes (length rs) (completion (imap (λ i o, (Some i, outcome_error o)) os)) in
      mret (zip_with (λ (e : error) (o : ProduceOutcome), match e with Some e => Bad e | None => o end) errs os, first)
  end.

(** ** Uniqueness locks *)

Definition DigestHex (worker : string) (p : json) : string := hex_encode (fingerprint worker p).

Definition empty_payload : json := JOther "{}".

Definition is_uniq (c : Client) (e : HandlerEntry) : bool := HE_Uniq e && UniqEnabled (cl_cfg c).

(** Whether the job is skipped. *)
Definition claimUniqWorker (c : Client) (e : HandlerEntry) (worker : string) (payload : option json) (job : string)
    : cio (bool * option cerror) :=
  if negb (is_uniq c e) then mret (false, None)
  else
    r ← on_redis (Uniq.Claim fingerprint (cl_uniq c) worker (default empty_payload payload) job);
    mret (match r with
          | (_, Some err) => (false, Some (OtherError err))
          | (true, None) => (false, None)
          | (false, None) => if String.eqb (UniqOnDuplicate (cl_cfg c)) "raise"
                             then (false, Some (DuplicateJobError worker)) else (true, None)
          end).

Definition claimUniq (c : Client) (e : HandlerEntry) (jobType : string) (payload : option json) (job : string)
    : cio (bool * option cerror) := claimUniqWorker c e (workerClassName e jobType) payload job.

Definition releaseUniqWorker (c : Client) (e : HandlerEntry) (worker : string) (payload : option json) (job fp : string)
    : cio unit :=
  if negb (is_uniq c e) then mret tt
  else
    let fp := if String.eqb fp "" then DigestHex worker (default empty_payload payload) else fp in
    _ ← on_redis (Uniq.Release (cl_uniq c) fp job); mret tt.

Definition releaseUniq (c : Client) (e : HandlerEntry) (jobType : string) (payload : option json) (job fp : string)
    : cio unit := releaseUniqWorker c e (workerClassName e jobType) payload job fp.

(** A duplicate is skipped, or the call fails with the claims made. *)
Definition bulkUniqClaims (c : Client) (e : HandlerEntry) (worker : string) (payloads : list (option json))
    (ids : list string) : cio (list bool * option cerror) :=
  match payloads with
  | [] => mret ([], None)
  | _ =>
      if negb (is_uniq c e) then mret ((λ _, true) <$> payloads, None)
      else
        claimed ← on_redis (Uniq.ClaimMany fingerprint (cl_uniq c)
                    (zip_with (λ p i, (worker, default empty_payload p, i)) payloads ids));
        mret (claimed, if existsb negb claimed && String.eqb (UniqOnDuplicate (cl_cfg c)) "raise"
                       then Some (DuplicateJobError worker) else None)
  end.

(** ** Messages *)

Definition maxRetries (c : Client) (e : HandlerEntry) : Z :=
  if 0 <? HE_MaxRetries e then HE_MaxRetries e
  else if 0 <? cf_MaxRetries (cl_cfg c) then cf_MaxRetries (cl_cfg c) else 7.

Definition nonempty (s : string) : option string := if String.eqb s "" then None else Some s.

Definition buildWorkerMessage (c : Client) (now : Z) (e : HandlerEntry) (jobType worker : string) (payload : option json)
    (job : string) (batch : option string) (o : PushOptions) (seq : option Z) : JobMessage :=
  let payload := default empty_payload payload in
  mkJob job batch jobType worker (Some payload) 0 (Some (maxRetries c e)) (rfc3339_format now)
    (nonempty (tenantID o "")) (match batch with Some _ => seq | None => None end) (HE_RetryTier e)
    (if String.eqb (PO_ValidTill o) "" then ""%string else NormalizeValidTill nano_parse (PO_ValidTill o))
    false "" "" (if is_uniq c e then DigestHex worker payload else ""%string) false.

Definition buildMessage (c : Client) (now : Z) (e : HandlerEntry) (jobType : string) (payload : option json)
    (job : string) (batch : option string) (o : PushOptions) (seq : option Z) : JobMessage :=
  buildWorkerMessage c now e jobType (workerClassName e jobType) payload job batch o seq.

(** The tenant of a bulk call. *)
Definition with_tenant (tid : string) (j : JobMessage) : JobMessage :=
  match J_TenantID j, nonempty tid with
  | None, Some t =>
      mkJob (J_JobID j) (J_BatchID j) (J_JobType j) (J_WorkerClass j) (J_Payload j) (J_Attempt j) (J_MaxRetries j)
        (J_EnqueuedAt j) (Some t) (J_BatchSeq j) (J_RetryTier j) (J_ValidTill j) (J_BatchCounted j) (J_RetryAfter j)
        (J_RetryTo j) (J_UniqFP j) (J_Reclaim j)
  | _, _ => j
  end.

(** ** Routes *)

Definition resolve_tenant (now : Z) (tenant lane : string) : cio (option Z) := fun w =>
  match cw_tenants w with
  | None => (w, None)
  | Some tp =>
      let '(c1, c2, choice) := default (Bad networkError, Bad networkError, O) (head (cw_answers w)) in
      let '(w, (tp, p)) := on_redis (Resolve now tenant lane c1 c2 choice tp) w in
      (set_tenants (Some tp) w, p)
  end.

Definition routeFor (c : Client) (now : Z) (e : HandlerEntry) (job tenant : string) (batch : option string) : cio Route :=
  let cfg := cl_cfg c in
  let lane := HE_FairnessType e in
  if String.eqb lane "" then
    mret (mkClientRoute (if String.eqb (HE_Topic e) "" then defaultJobsTopic cfg else HE_Topic e) job None)
  else
    let key := if String.eqb tenant "" then default ""%string batch else tenant in
    let key := if String.eqb key "" then job else key in
    let topic := if String.eqb lane "time" then resolveTopic cfg (FairnessTimeIngest cfg)
                 else if String.eqb lane "throughput" then resolveTopic cfg (FairnessThroughputIngest cfg)
                 else defaultJobsTopic cfg in
    if String.eqb tenant "" then mret (mkClientRoute topic key None)
    else match FairnessTenantPartitions cfg !! tenant with
         | Some p => mret (mkClientRoute topic "" (Some p))
         | None =>
             p ← resolve_tenant now tenant lane;
             mret (match p with
                   | Some p => mkClientRoute topic "" (Some p)
                   | None => mkClientRoute topic key None
                   end)
         end.

Definition ResolveRoute (c : Client) (now : Z) (jobType job tenant : string) (batch : option string)
    : cio (Route + cerror) :=
  match lookupHandler c jobType with
  | inr e => mret (inr e)
  | inl e => r ← routeFor c now e job tenant batch; mret (inl r)
  end.

(** ** Producing *)

Definition job_json (j : JobMessage) : result string := marshal (job_object j).

Definition produceJob (r : Route) (j : JobMessage) : cio (option cerror) :=
  match job_json j with
  | Bad e => mret (Some (OtherError e))
  | Ok raw =>
      o ← send (mkRecord (cr_Topic r) (cr_Key r) raw (cr_Partition r));
      mret (OtherError <$> outcome_error o)
  end.

Definition chunkSize (c : Client) : nat :=
  let n := ProduceChunkSize (cl_cfg c) in if n <? 1 then 500%nat else Z.to_nat n.

Definition is_ok (o : ProduceOutcome) : bool := match o with Ok _ => true | Bad _ => false end.

Definition count_true (l : list bool) : Z := Z.of_nat (length (filter Is_true l)).

(** The flags of the records, [false] for those that were not reached. *)
Definition pad (n : nat) (flags : list bool) : list bool := flags ++ replicate (n - length flags) false.

Fixpoint produce_chunks (n : nat) (cs : list (list ProduceRecord)) (flags : list bool)
    : cio (list bool * option cerror) :=
  match cs with
  | [] => mret (pad n flags, None)
  | chunk :: cs =>
      r ← ProduceManySync chunk;
      let flags := flags ++ (is_ok <$> r.1) in
      match r.2 with
      | Some e => mret (pad n flags, Some (PartialProduceError e (count_true flags) (pad n flags)))
      | None => produce_chunks n cs flags
      end
  end.

Definition produceInChunks (c : Client) (records : list ProduceRecord) : cio (list bool * option cerror) :=
  produce_chunks (length records) (pieces (chunkSize c) records) [].

(** [n] more attempts after the first. *)
Fixpoint write_loop (ix : scheduleIndex) (entries : list ScheduleEntry) (n : nat) : cio error :=
  e ← match entries with [x] => scheduleOne ix x | _ => scheduleMany ix entries end;
  match e, n with
  | None, _ => mret None
  | Some _, S n => write_loop ix entries n
  | Some e, O => mret (Some e)
  end.

Definition writeScheduleIndex (c : Client) (entries : list ScheduleEntry) : cio (option cerror) :=
  let retries := ScheduleIndexWriteRetries (cl_cfg c) in
  let retries := if retries <? 1 then 3 else retries in
  e ← write_loop (cl_sched c) entries (Z.to_nat retries - 1);
  mret ((λ e, PartialProduceError ("schedule index write failed: " +:+ e) 0 []) <$> e).

Fixpoint marshal_all (js : list JobMessage) : result (list string) :=
  match js with
  | [] => Ok []
  | j :: js => raw ← job_json j; raws ← marshal_all js; mret (raw :: raws)
  end.

(** The index rows of the records that are in Kafka. *)
Definition index_rows (js : list JobMessage) (outs : list ProduceOutcome) (at_ : Z) (batchID : string) : list ScheduleEntry :=
  omap id (zip_with (λ j (o : ProduceOutcome), match o with
                          | Ok d => Some (mkEntry (J_JobID j) at_ d.1 d.2 batchID)
                          | Bad _ => None
                          end) js outs).

Fixpoint schedule_chunks (c : Client) (n : nat) (cs : list (list JobMessage)) (at_ : Z) (batchID : string)
    (flags : list bool) : cio (option cerror) :=
  let fail (m : string) (flags : list bool) : cio (option cerror) :=
    mret (Some (PartialProduceError m (count_true flags) (pad n flags))) in
  match cs with
  | [] => mret None
  | chunk :: cs =>
      match marshal_all chunk with
      | Bad e => fail ("marshal scheduled job: " +:+ e)%string flags
      | Ok raws =>
          r ← ProduceManySync (zip_with (λ j raw,
                mkRecord (resolveTopic (cl_cfg c) (ScheduledTopic (cl_cfg c))) (J_JobID j) raw None) chunk raws);
          let rows := index_rows chunk r.1 at_ batchID in
          werr ← match rows with [] => mret None | _ => writeScheduleIndex c rows end;
          match werr with
          | Some e => fail (Error e) flags
          | None =>
              let flags := flags ++ (is_ok <$> r.1) in
              match r.2 with
              | Some e => fail e flags
              | None => schedule_chunks c n cs at_ batchID flags
              end
          end
      end
  end.

Definition scheduleMessages (c : Client) (js : list JobMessage) (at_ : Z) (batchID : string) : cio (option cerror) :=
  schedule_chunks c (length js) (pieces (chunkSize c) js) at_ batchID [].

Definition scheduleMessage (c : Client) (j : JobMessage) (at_ : Z) (batchID : string) : cio (option cerror) :=
  scheduleMessages c [j] at_ batchID.

Definition producedFlags (e : cerror) : list bool :=
  match e with PartialProduceError _ _ flags => flags | _ => [] end.

(** ** One job *)

(** Now, or at a time. *)
Definition deliver (c : Client) (now : Z) (e : HandlerEntry) (at_ : option run_at) (tenant : string)
    (batch : option string) (j : JobMessage) : cio (option cerror) :=
  match at_ with
  | None => r ← routeFor c now e (J_JobID j) tenant batch; produceJob r j
  | Some v => scheduleMessage c j (clampRunAt now v (MaxScheduleHorizon (cl_cfg c))) (default ""%string batch)
  end.

Definition enqueue_one (c : Client) (now : Z) (e : HandlerEntry) (jobType worker : string) (at_ : option run_at)
    (payload : option json) (o : PushOptions) : cio (string + cerror) :=
  job ← jobID o;
  s ← claimUniqWorker c e worker payload job;
  match s with
  | (true, _) => mret (inr ErrJobSkipped)
  | (false, Some err) => mret (inr err)
  | (false, None) =>
      let msg := buildWorkerMessage c now e jobType worker payload job None o None in
      x ← deliver c now e at_ (tenantID o "") None msg;
      match x with
      | Some err => releaseUniqWorker c e worker payload job (J_UniqFP msg);; mret (inr err)
      | None => mret (inl job)
      end
  end.

Definition reserve (c : Client) (b : BatchHandle) (count : Z) : cio (seqWindow + cerror) :=
  r ← on_redis (AddJobs (cl_store c) (bh_id b) count);
  mret (match r with
        | (_, Some e) => inr (OtherError e)
        | (res, None) =>
            if String.eqb (aj_Status res) "closed" then inr (BatchClosedError (bh_id b) "closed")
            else if String.eqb (aj_Status res) "cancelled" then inr (BatchClosedError (bh_id b) "cancelled")
            else if String.eqb (aj_Status res) "not_found" then inr (BatchNotFoundError (bh_id b))
            else inl (mkWindow (SeqStart res) (SeqEnd res))
        end).

(** Gives [n] slots of the total back. *)
Definition give_back (c : Client) (b : BatchHandle) (n : Z) : cio unit :=
  _ ← on_redis (AddJobs (cl_store c) (bh_id b) (- n)); mret tt.

Definition push_one (c : Client) (now : Z) (b : BatchHandle) (e : HandlerEntry) (jobType worker : string)
    (at_ : option run_at) (payload : option json) (o : PushOptions) : cio (string + cerror) :=
  job ← jobID o;
  s ← claimUniqWorker c e worker payload job;
  match s with
  | (true, _) => mret (inr ErrJobSkipped)
  | (false, Some err) => mret (inr err)
  | (false, None) =>
      r ← reserve c b 1;
      match r with
      | inr err => releaseUniqWorker c e worker payload job "";; mret (inr err)
      | inl win =>
          match take_seq win with
          | inr err => releaseUniqWorker c e worker payload job "";; mret (inr err)
          | inl (seq, _) =>
              let msg := buildWorkerMessage c now e jobType worker payload job (Some (bh_id b)) o (Some seq) in
              x ← deliver c now e at_ (tenantID o (bh_tenantID b)) (Some (bh_id b)) msg;
              match x with
              | Some err =>
                  releaseUniqWorker c e worker payload job (J_UniqFP msg);; give_back c b 1;; mret (inr err)
              | None => mret (inl job)
              end
          end
      end
  end.

(** The operations on manifest jobs. *)
Definition with_handler {A} (c : Client) (jobType : string) (k : HandlerEntry -> string -> cio (A + cerror)) : cio (A + cerror) :=
  match lookupHandler c jobType with inr e => mret (inr e) | inl e => k e (workerClassName e jobType) end.

Definition EnqueueJob c now jobType payload o := with_handler c jobType (λ e w, enqueue_one c now e jobType w None payload o).
Definition EnqueueJobAt c now at_ jobType payload o := with_handler c jobType (λ e w, enqueue_one c now e jobType w (Some at_) payload o).
Definition EnqueueJobIn c now d jobType payload o := EnqueueJobAt c now (AtTime (now + d)) jobType payload o.
Definition PushJob c now b jobType payload o := with_handler c jobType (λ e w, push_one c now b e jobType w None payload o).
Definition PushJobAt c now b at_ jobType payload o := with_handler c jobType (λ e w, push_one c now b e jobType w (Some at_) payload o).
Definition PushJobIn c now b d jobType payload o := PushJobAt c now b (AtTime (now + d)) jobType payload o.

(** The operations on worker classes. *)
Definition with_worker {A} (c : Client) (worker : string) (k : string -> HandlerEntry -> cio (A + cerror)) : cio (A + cerror) :=
  match lookupWorkerClass c worker with inr e => mret (inr e) | inl (t, e) => k t e end.

Definition Enqueue c now worker payload o := with_worker c worker (λ t e, enqueue_one c now e t worker None payload o).
Definition EnqueueAt c now at_ worker payload o := with_worker c worker (λ t e, enqueue_one c now e t worker (Some at_) payload o).
Definition EnqueueIn c now d worker payload o := EnqueueAt c now (AtTime (now + d)) worker payload o.
Definition Push c now b worker payload o := with_worker c worker (λ t e, push_one c now b e t worker None payload o).
Definition PushAt c now b at_ worker payload o := with_worker c worker (λ t e, push_one c now b e t worker (Some at_) payload o).
Definition PushIn c now b d worker payload o := PushAt c now b (AtTime (now + d)) worker payload o.

(** ** Many jobs *)

(** The jobs to push, and the ids in the order of the payloads, with the empty id for a skipped one. *)
Definition plan_pushes (c : Client) (e : HandlerEntry) (worker : string) (payloads : list (option json))
    : cio ((list pushPlan * list string) + cerror) :=
  ids ← newIDs payloads;
  r ← bulkUniqClaims c e worker payloads ids;
  match r with
  | (_, Some err) => mret (inr err)
  | (claimed, None) =>
      let plan p i (ok : bool) :=
        if ok then Some (mkPlan i (default empty_payload p) (if is_uniq c e then DigestHex worker (default empty_payload p) else ""%string))
        else None in
      mret (inl (omap id (zip_with (λ x (ok : bool), plan x.1 x.2 ok) (zip payloads ids) claimed),
                 zip_with (λ i (ok : bool), if ok then i else ""%string) ids claimed))
  end.

Definition unproduced {A} (plans : list A) (produced : list bool) : list A :=
  omap (λ x : A * option bool, match x.2 with Some true => None | _ => Some x.1 end)
    (imap (λ i p, (p, produced !! i)) plans).

Fixpoint release_all (c : Client) (e : HandlerEntry) (worker : string) (plans : list pushPlan) : cio unit :=
  match plans with
  | [] => mret tt
  | p :: plans => releaseUniqWorker c e worker (Some (pp_payload p)) (pp_jobID p) (pp_fp p);; release_all c e worker plans
  end.

(** The roll-back of a standalone call, and that of a push. *)
Definition rollback_standalone (c : Client) (e : HandlerEntry) (worker : string) (plans : list pushPlan) (produced : list bool)
    : cio unit := release_all c e worker (unproduced plans produced).

Definition rollbackPlans (c : Client) (b : BatchHandle) (e : HandlerEntry) (worker : string) (plans : list pushPlan)
    (produced : list bool) : cio unit :=
  let left := unproduced plans produced in
  release_all c e worker left;;
  match left with [] => mret tt | _ => give_back c b (Z.of_nat (length left)) end.

(** The next slot of the window of a push; a standalone call has none. *)
Definition next_seq (win : option seqWindow) : (option Z * option seqWindow) + cerror :=
  match win with
  | None => inl (None, None)
  | Some w => match take_seq w with inl (s, w) => inl (Some s, Some w) | inr e => inr e end
  end.

(** What the loops over the plans share: the call, its tenant and its batch. *)
Record bulk := mkBulk {
  bk_now : Z; bk_entry : HandlerEntry; bk_jobType : string; bk_worker : string; bk_tenant : string;
  bk_batch : option string; bk_opts : PushOptions
}.

Definition plan_message (c : Client) (k : bulk) (p : pushPlan) (seq : option Z) : JobMessage :=
  with_tenant (bk_tenant k)
    (buildWorkerMessage c (bk_now k) (bk_entry k) (bk_jobType k) (bk_worker k) (Some (pp_payload p)) (pp_jobID p) (bk_batch k)
       (bk_opts k) seq).

(** The messages of a scheduled call. *)
Fixpoint build_all (c : Client) (k : bulk) (plans : list pushPlan) (win : option seqWindow) : list JobMessage + cerror :=
  match plans with
  | [] => inl []
  | p :: plans =>
      match next_seq win with
      | inr err => inr err
      | inl (seq, win) =>
          match build_all c k plans win with
          | inl ms => inl (plan_message c k p seq :: ms)
          | inr err => inr err
          end
      end
  end.

(** The records of an immediate call: each message is built, encoded and routed. *)
Fixpoint record_all (c : Client) (k : bulk) (plans : list pushPlan) (win : option seqWindow)
    : cio (list ProduceRecord + cerror) :=
  match plans with
  | [] => mret (inl [])
  | p :: plans =>
      match next_seq win with
      | inr err => mret (inr err)
      | inl (seq, win) =>
          match job_json (plan_message c k p seq) with
          | Bad err => mret (inr (OtherError err))
          | Ok raw =>
              r ← routeFor c (bk_now k) (bk_entry k) (pp_jobID p) (bk_tenant k) (bk_batch k);
              rest ← record_all c k plans win;
              mret (match rest with
                    | inl rs => inl (mkRecord (cr_Topic r) (cr_Key r) raw (cr_Partition r) :: rs)
                    | inr err => inr err
                    end)
          end
      end
  end.

(** Sends the jobs, now or at a time: which of them are produced, and the error. *)
Definition deliver_all (c : Client) (k : bulk) (at_ : option run_at) (plans : list pushPlan) (win : option seqWindow)
    : cio (list bool * option cerror) :=
  match at_ with
  | None =>
      rs ← record_all c k plans win;
      match rs with
      | inr err => mret ([], Some err)
      | inl rs => produceInChunks c rs
      end
  | Some v =>
      match build_all c k plans win with
      | inr err => mret ([], Some err)
      | inl js =>
          x ← scheduleMessages c js (clampRunAt (bk_now k) v (MaxScheduleHorizon (cl_cfg c))) (default ""%string (bk_batch k));
          mret (match x with None => ([], None) | Some err => (producedFlags err, Some err) end)
      end
  end.

Definition enqueue_many (c : Client) (now : Z) (e : HandlerEntry) (jobType worker : string) (at_ : option run_at)
    (payloads : list (option json)) (o : PushOptions) : cio (list string + cerror) :=
  r ← plan_pushes c e worker payloads;
  match r with
  | inr err => mret (inr err)
  | inl ([], ids) => mret (inl ids)
  | inl (plans, ids) =>
      x ← deliver_all c (mkBulk now e jobType worker (tenantID o "") None o) at_ plans None;
      match x with
      | (flags, Some err) => rollback_standalone c e worker plans flags;; mret (inr err)
      | (_, None) => mret (inl ids)
      end
  end.

Definition push_many (c : Client) (now : Z) (b : BatchHandle) (e : HandlerEntry) (jobType worker : string)
    (at_ : option run_at) (payloads : list (option json)) (o : PushOptions) : cio (list string + cerror) :=
  r ← plan_pushes c e worker payloads;
  match r with
  | inr err => mret (inr err)
  | inl ([], ids) => mret (inl ids)
  | inl (plans, ids) =>
      w ← reserve c b (Z.of_nat (length plans));
      match w with
      | inr err => release_all c e worker plans;; mret (inr err)
      | inl win =>
          x ← deliver_all c (mkBulk now e jobType worker (tenantID o (bh_tenantID b)) (Some (bh_id b)) o) at_ plans (Some win);
          match x with
          | (flags, Some err) => rollbackPlans c b e worker plans flags;; mret (inr err)
          | (_, None) => mret (inl ids)
          end
      end
  end.

(** The handler is looked up before anything else, but not for no payload. *)
Definition many {A} (payloads : list A) (m : cio (list string + cerror)) : cio (list string + cerror) :=
  match payloads with [] => mret (inl []) | _ => m end.

Definition EnqueueManyJobs c now jobType ps o := many ps (with_handler c jobType (λ e w, enqueue_many c now e jobType w None ps o)).
Definition EnqueueManyJobsAt c now at_ jobType ps o := many ps (with_handler c jobType (λ e w, enqueue_many c now e jobType w (Some at_) ps o)).
Definition EnqueueManyJobsIn c now d jobType ps o := EnqueueManyJobsAt c now (AtTime (now + d)) jobType ps o.
Definition PushManyJobs c now b jobType ps o := many ps (with_handler c jobType (λ e w, push_many c now b e jobType w None ps o)).
Definition PushManyJobsAt c now b at_ jobType ps o := many ps (with_handler c jobType (λ e w, push_many c now b e jobType w (Some at_) ps o)).
Definition EnqueueMany c now worker ps o := many ps (with_worker c worker (λ t e, enqueue_many c now e t worker None ps o)).
Definition EnqueueManyAt c now at_ worker ps o := many ps (with_worker c worker (λ t e, enqueue_many c now e t worker (Some at_) ps o)).
Definition EnqueueManyIn c now d worker ps o := EnqueueManyAt c now (AtTime (now + d)) worker ps o.
Definition PushMany c now b worker ps o := many ps (with_worker c worker (λ t e, push_many c now b e t worker None ps o)).
Definition PushManyAt c now b at_ worker ps o := many ps (with_worker c worker (λ t e, push_many c now b e t worker (Some at_) ps o)).
Definition PushManyIn c now b d worker ps o := PushManyAt c now b (AtTime (now + d)) worker ps o.

(** ** Batches *)

Definition produceCallback (c : Client) (now : Z) (b : Batch) (outcome : string) : cio (option cerror) :=
  let raw := match callback_json (mkCallback (ID b) outcome (TotalJobs b) (CompletedCount b) (FailedCount b) 0
                 (OnSuccess b) (OnComplete b) None (DecodeJSONMap (CallbackArgs b))
                 (if String.eqb (FinishedAt b) "" then rfc3339_format now else FinishedAt b) false false) with
             | Ok raw => raw | Bad _ => ""%string end in
  o ← send (mkRecord (resolveTopic (cl_cfg c) (cf_CallbacksTopic (cl_cfg c))) (ID b) raw None);
  mret (OtherError <$> outcome_error o).

Record SealResult := mkSealResult { sr_Status : string; sr_Outcome : string }.

Definition Seal (c : Client) (now : Z) (b : BatchHandle) : cio (option SealResult * option cerror) :=
  r ← on_redis (SealBatch (cl_store c) (clock_at now) (bh_id b));
  match r with
  | (_, Some e) => mret (None, Some (OtherError e))
  | (res, None) =>
      let out := mkSealResult (sb_Status res) (sb_Outcome res) in
      if String.eqb (sb_Status res) "not_found" then mret (None, Some (BatchNotFoundError (bh_id b)))
      else
        e ← match (if String.eqb (sb_Status res) "done" then sb_Batch res else None) with
            | Some row => produceCallback c now row (sb_Outcome res)
            | None => mret None
            end;
        match e with
        | Some e => mret (Some out, Some (OtherError ("callback produce: " +:+ Error e)))
        | None => _ ← on_redis (FindBatch (bh_id b)); mret (Some out, None)
        end
  end.

(** json.Marshal of the maps of a new batch. *)
Definition marshal_map (m : object) : string + string := match marshal m with Ok s => inl s | Bad e => inr e end.

Definition CreateBatch (c : Client) (now : Z) (o : BatchOptions) (populate : option (BatchHandle -> cio (option cerror)))
    : cio (option BatchHandle * option cerror) :=
  id ← (if String.eqb (BO_ID o) "" then newID else mret (BO_ID o));
  r ← on_redis (Store.CreateBatch marshal_map (cl_store c) (clock_at now)
        (mkCreate id 0 (BO_OnSuccess o) (BO_OnComplete o) (BO_Meta o) (BO_CallbackArgs o) (BO_Description o) (BO_TenantID o)
           (match populate with None => true | Some _ => false end)));
  match r with
  | (_, Some e) => mret (None, Some (OtherError e))
  | (false, None) => mret (None, Some (BatchExistsError id))
  | (true, None) =>
      let b := mkHandle id (BO_OnSuccess o) (BO_OnComplete o) (BO_Meta o) (BO_Description o) (BO_TenantID o) in
      match populate with
      | None => mret (Some b, None)
      | Some f =>
          e ← f b;
          match e with
          | Some err => _ ← on_redis (Store.CancelBatch (cl_store c) (clock_at now) id); mret (Some b, Some err)
          | None => s ← Seal c now b; mret (Some b, s.2)
          end
      end
  end.

Definition OpenBatch (id : string) : cio (BatchHandle + cerror) :=
  r ← on_redis (FindBatch id);
  mret (match r with
        | (_, Some e) => inr (OtherError e)
        | (None, None) => inr (BatchNotFoundError id)
        | (Some row, None) =>
            let meta := if String.eqb (Meta row) "" then Some ∅
                        else match unmarshal (Meta row) with Ok m => m | Bad _ => Some ∅ end in
            inl (mkHandle id (OnSuccess row) (OnComplete row) meta (Description row) (TenantID row))
        end).

(** The batch is put into the process's cache of cancelled batches too. *)
Definition AddToProcess (id : string) : cio unit := fun w =>
  (mkCWorld (cw_redis w) (cw_log w) (cw_net w) (cw_mysql w) (cw_tenants w) (cw_answers w)
     (Cancellation.Add (cw_cancelled w) id) (cw_ids w), tt).

Definition CancelBatch (c : Client) (now : Z) (id : string) : cio (option cerror) :=
  r ← on_redis (FindBatch id);
  match r with
  | (_, Some e) => mret (Some (OtherError e))
  | (None, None) => mret (Some (BatchNotFoundError id))
  | (Some _, None) =>
      e ← on_redis (Store.CancelBatch (cl_store c) (clock_at now) id);
      match e with
      | Some e => mret (Some (OtherError e))
      | None => AddToProcess id;; mret None
      end
  end.

Definition Cancel (c : Client) (now : Z) (b : BatchHandle) : cio (option cerror) := CancelBatch c now (bh_id b).
End client.
