(* ===== verification/EnqueueWire.v ===== *)
(** What the client writes is what the worker reads: the wire format of jobs. *)
From S2P Require Import Prelude Redis Client Protocol Fairness Store Control Job Events ScheduleIndex Tenants Enqueue.

(** ** Optional fields *)

Definition seen_str (v : string) : option json := if String.eqb v "" then None else Some (JStr v).
Definition seen_bool (v : bool) : option json := if v then Some (JBool true) else None.

Section omit.
Context (k : string) (m : object).

Lemma omit_str_ne k' v : k ≠ k' → omit_str k v m !! k' = m !! k'.
Proof. intros H. unfold omit_str. destruct (String.eqb v ""); [done | by apply lookup_insert_ne]. Qed.
Lemma omit_bool_ne k' v : k ≠ k' → omit_bool k v m !! k' = m !! k'.
Proof. intros H. unfold omit_bool. destruct v; [by apply lookup_insert_ne | done]. Qed.
Lemma omit_opt_ne {A} k' (f : A → json) v : k ≠ k' → omit_opt k f v m !! k' = m !! k'.
Proof. intros H. unfold omit_opt. destruct v; [by apply lookup_insert_ne | done]. Qed.

Lemma omit_str_eq v : m !! k = None → omit_str k v m !! k = seen_str v.
Proof. intros H. unfold omit_str, seen_str. destruct (String.eqb v ""); [done | by apply lookup_insert_eq]. Qed.
Lemma omit_bool_eq v : m !! k = None → omit_bool k v m !! k = seen_bool v.
Proof. intros H. unfold omit_bool. destruct v; [by apply lookup_insert_eq | done]. Qed.
Lemma omit_opt_eq {A} (f : A → json) v : m !! k = None → omit_opt k f v m !! k = f <$> v.
Proof. intros H. unfold omit_opt. destruct v; [by apply lookup_insert_eq | done]. Qed.
End omit.

(** Finds a field of an object built by these. *)
Ltac find_field :=
  unfold job_object;
  repeat first [ rewrite omit_str_ne by discriminate | rewrite omit_bool_ne by discriminate | rewrite omit_opt_ne by discriminate
               | rewrite lookup_insert_ne by discriminate ];
  first [ apply lookup_insert_eq | apply lookup_empty
        | apply omit_str_eq; find_field | apply omit_bool_eq; find_field | apply omit_opt_eq; find_field ].

(** Reading them back. *)
Section read.
Context (m : object) (k : string).

Lemma read_str v : m !! k = Some (JStr v) → opt_str m k = Ok (Some v).
Proof. unfold opt_str. by intros ->. Qed.
Lemma read_opt_str v : m !! k = JStr <$> v → opt_str m k = Ok v.
Proof. unfold opt_str. intros ->. by destruct v. Qed.
Lemma read_seen_str v : m !! k = seen_str v → opt_str m k = Ok (if String.eqb v "" then None else Some v).
Proof. unfold opt_str. intros ->. unfold seen_str. by destruct (String.eqb v ""). Qed.
Lemma read_seen_bool v : m !! k = seen_bool v → opt_bool m k = Ok (if v then Some true else None).
Proof. unfold opt_bool. intros ->. by destruct v. Qed.
Lemma read_opt_int v : (∀ z, v = Some z → minInt64 <= z <= maxInt64) → m !! k = (λ n, JNum (inject_Z n)) <$> v → opt_int m k = Ok v.
Proof.
  unfold opt_int, opt_num. intros Hr ->. destruct v as [z|]; [| done]. specialize (Hr z eq_refl). cbn.
  unfold truncate. cbn. rewrite Z.mod_1_r, Z.quot_1_r. cbn. rewrite (proj2 (Z.leb_le _ _)) by lia. by rewrite (proj2 (Z.leb_le _ _)) by lia.
Qed.
Lemma read_map t : t ≠ "null"%string → m !! k = Some (JOther t) → opt_map m k = Ok (Some (JOther t)).
Proof. unfold opt_map. intros Ht ->. by rewrite (proj2 (String.eqb_neq _ _) Ht). Qed.
End read.

(** ** The job message *)

(** The integers fit Go's, and the payload is an object. *)
Record job_wf (j : JobMessage) : Prop := {
  jw_attempt : minInt64 <= J_Attempt j <= maxInt64;
  jw_retries : ∀ z, J_MaxRetries j = Some z → minInt64 <= z <= maxInt64;
  jw_seq : ∀ z, J_BatchSeq j = Some z → minInt64 <= z <= maxInt64;
  jw_payload : ∃ t, J_Payload j = Some (JOther t) ∧ t ≠ "null"%string
}.

Lemma default_seen v : default ""%string (if String.eqb v "" then None else Some v) = v.
Proof. by destruct (String.eqb_spec v "") as [->|]. Qed.

Lemma default_true (v : bool) : default false (if v then Some true else None) = v.
Proof. by destruct v. Qed.

(** The message as it is decoded: the numbers of its payload are float64. *)
Definition decoded `{Json} (j : JobMessage) : JobMessage :=
  mkJob (J_JobID j) (J_BatchID j) (J_JobType j) (J_WorkerClass j) (as_floats <$> J_Payload j) (J_Attempt j) (J_MaxRetries j)
    (J_EnqueuedAt j) (J_TenantID j) (J_BatchSeq j) (J_RetryTier j) (J_ValidTill j) (J_BatchCounted j) (J_RetryAfter j)
    (J_RetryTo j) (J_UniqFP j) (J_Reclaim j).

Lemma job_fields `{Json} j : job_wf j → job_of_object (job_object j) = Ok (decoded j).
Proof.
  intros [Ha Hr Hs (t & Hp & Ht)]. unfold job_of_object, mbind, result_bind, mret, result_ret.
  rewrite (read_str _ "job_id" (J_JobID j)) by find_field. rewrite (read_opt_str _ "batch_id" (J_BatchID j)) by find_field.
  rewrite (read_str _ "job_type" (J_JobType j)) by find_field. rewrite (read_str _ "worker_class" (J_WorkerClass j)) by find_field.
  rewrite (read_map _ "payload" t Ht) by (unfold job_object; rewrite Hp; find_field).
  rewrite (read_opt_int _ "attempt" (Some (J_Attempt j))) by (by intros z [= <-] || find_field).
  rewrite (read_opt_int _ "max_retries" (J_MaxRetries j) Hr) by find_field. rewrite (read_seen_str _ "enqueued_at" (J_EnqueuedAt j)) by find_field.
  rewrite (read_opt_str _ "tenant_id" (J_TenantID j)) by find_field. rewrite (read_opt_int _ "batch_seq" (J_BatchSeq j) Hs) by find_field.
  rewrite (read_seen_str _ "retry_tier" (J_RetryTier j)) by find_field. rewrite (read_seen_str _ "valid_till" (J_ValidTill j)) by find_field.
  rewrite (read_seen_bool _ "batch_counted" (J_BatchCounted j)) by find_field. rewrite (read_seen_str _ "retry_after" (J_RetryAfter j)) by find_field.
  rewrite (read_seen_str _ "retry_to" (J_RetryTo j)) by find_field. rewrite (read_seen_str _ "_uniq_fp" (J_UniqFP j)) by find_field.
  rewrite (read_seen_bool _ "_reclaim" (J_Reclaim j)) by find_field. rewrite !default_seen, !default_true. cbn. unfold decoded. by rewrite Hp.
Qed.

(** A job message that was encoded for Kafka is decoded by the worker to the message it was, field by field, with
    omitted fields read as their zero values and the numbers of the payload as float64. *)
Theorem job_message_round_trip `{JsonLaws} j raw : job_wf j → job_json j = Ok raw → unmarshal_job raw = Ok (decoded j).
Proof.
  intros Hj E. unfold unmarshal_job. rewrite (unmarshal_of_marshal _ _ E). by apply job_fields.
Qed.

(** ** The tenant the fair scheduler sees *)

Lemma job_tenant j : TenantFromMessage (job_object j) =
  (let t := default ""%string (J_TenantID j) in
   if negb (String.eqb t "") then t
   else let b := default ""%string (J_BatchID j) in
        if negb (String.eqb b "") then b
        else if negb (String.eqb (J_JobID j) "") then J_JobID j else "default"%string).
Proof.
  unfold TenantFromMessage, tenant_of, str_field.
  assert (job_object j !! "tenant_id"%string = JStr <$> J_TenantID j) as -> by find_field.
  assert (job_object j !! "batch_id"%string = JStr <$> J_BatchID j) as -> by find_field.
  assert (job_object j !! "job_id"%string = Some (JStr (J_JobID j))) as -> by find_field.
  by destruct (J_TenantID j), (J_BatchID j).
Qed.

Section tenants.
Context `{Json} `{TimeText} (fingerprint : string -> json -> string) (nano_parse : string -> option Z).

(** Pushed into a batch that has a tenant, with no tenant of its own: a job of a bulk push belongs to the batch's tenant, a job
    pushed alone to a tenant named like the batch, although it is routed to the partition of the batch's tenant
    ([push_one] routes by [tenantID o (bh_tenantID b)]). *)
Lemma push_alone_changes_tenant c now b e jobType worker payload p job o seq :
  PO_TenantID o = ""%string → bh_tenantID b ≠ ""%string → bh_id b ≠ ""%string →
  tenantID o (bh_tenantID b) = bh_tenantID b ∧
  TenantFromMessage (job_object (buildWorkerMessage fingerprint nano_parse c now e jobType worker payload job (Some (bh_id b)) o (Some seq))) = bh_id b ∧
  TenantFromMessage (job_object (plan_message fingerprint nano_parse c
    (mkBulk now e jobType worker (tenantID o (bh_tenantID b)) (Some (bh_id b)) o) p (Some seq))) = bh_tenantID b.
Proof.
  intros Ho Ht Hb. unfold tenantID. rewrite Ho. split; [done |]. rewrite !job_tenant.
  unfold plan_message, with_tenant, buildWorkerMessage, nonempty, tenantID. cbn. rewrite Ho. cbn.
  rewrite (proj2 (String.eqb_neq _ _) Ht), (proj2 (String.eqb_neq _ _) Hb). cbn.
  by rewrite (proj2 (String.eqb_neq _ _) Ht).
Qed.
End tenants.

(** ** A concrete message *)

From S2P Require Import Concrete.

Definition small_job : JobMessage :=
  mkJob "j1" (Some "b1"%string) "t" "go:t" (Some (JOther "{}")) 0 (Some 7) "" None (Some 2) "" "" false "" "" "" false.

Lemma small_job_wf : job_wf small_job.
Proof.
  split; [by vm_compute; split | | | by exists "{}"%string]; (intros z Hz; cbn in Hz; injection Hz as <-; by vm_compute; split).
Qed.

Lemma job_message_round_trip_witness : ∃ raw, job_json small_job = Ok raw ∧ unmarshal_job raw = Ok small_job.
Proof.
  destruct (marshal_ok (job_object small_job)) as [raw E]. exists raw. split; [exact E |].
  exact (job_message_round_trip small_job raw small_job_wf E).
Defined.
