(* ===== verification/EnqueueProps.v ===== *)
(** What the client's calls promise. *)
From S2P Require Import Prelude Redis Client Kafka Protocol Ledger LedgerSpec LedgerRefine LedgerTrace Fairness Store Control Job Produce ProduceProps Events ScheduleIndex Tenants Frame Enqueue.

(** ** Selections *)

(** The elements whose flag is set. *)
Definition sel {A} (flags : list bool) (l : list A) : list A :=
  omap (λ x : bool * A, if x.1 then Some x.2 else None) (zip flags l).

Lemma sel_nil {A} flags : sel flags ([] : list A) = [].
Proof. unfold sel. by destruct flags. Qed.

Lemma sel_app {A} f1 f2 (l1 l2 : list A) : length f1 = length l1 → sel (f1 ++ f2) (l1 ++ l2) = sel f1 l1 ++ sel f2 l2.
Proof. intros Hl. unfold sel. by rewrite zip_with_app, omap_app by done. Qed.

Lemma sel_false {A} n (l : list A) : sel (replicate n false) l = [].
Proof. unfold sel. revert l. induction n as [|n IH]; intros [|x l]; [done .. |]. cbn. apply IH. Qed.

Lemma sel_true {A} flags (l : list A) : Forall (λ b, b = true) flags → length flags = length l → sel flags l = l.
Proof.
  intros Hf. unfold sel. revert l. induction Hf as [|b flags -> _ IH]; intros [|x l] Hl; [done .. |].
  cbn. f_equal. apply IH. by injection Hl.
Qed.

Lemma sel_fmap {A B} (f : A → B) flags l : sel flags (f <$> l) = f <$> sel flags l.
Proof.
  unfold sel. revert l. induction flags as [|b flags IH]; intros [|x l]; [done .. |].
  cbn. destruct b; cbn; by rewrite <- IH.
Qed.

Lemma sel_sublist {A} flags (l : list A) : sel flags l `sublist_of` l.
Proof.
  unfold sel. revert l. induction flags as [|b flags IH]; intros [|x l]; [apply sublist_nil_l .. |].
  cbn. destruct b; cbn; [by apply sublist_skip | by apply sublist_cons].
Qed.

(** ** Producing *)

(** No acknowledgement is lost: a record that is not acknowledged was not written. *)
Definition certain (net : list delivery) : Prop := Forall (λ d, d ≠ Unknown) net.

(** A record as it was sent, at the coordinates reported. *)
Definition is_placed (r : ProduceRecord) (p : placed) : Prop :=
  pl_topic p = pr_Topic r ∧ pl_key p = pr_Key r ∧ pl_payload p = pr_Payload r ∧ pl_asked p = asked (pr_Partition r).

Definition set_kafka (log : list placed) (net : list delivery) (w : cworld) : cworld :=
  mkCWorld (cw_redis w) log net (cw_mysql w) (cw_tenants w) (cw_answers w) (cw_cancelled w) (cw_ids w).

Lemma foldl_keep_first es first : foldl keep_first first es = None ↔ first = None ∧ Forall (λ e, e = None) es.
Proof.
  revert first. induction es as [|e es IH]; intros first; cbn.
  - split; [by intros -> | by intros [-> _]].
  - rewrite IH, Forall_cons. unfold keep_first. destruct first; naive_solver.
Qed.

Lemma correlate_first n rs out first :
  Forall (λ r : kresult, ∃ j, r.1 = Some j ∧ (j < n)%nat) rs → (correlate n rs out first).2 = foldl keep_first first rs.*2.
Proof.
  intros H. revert out first. induction H as [|[i e] rs (j & Hi & Hj) _ IH]; intros out first; [done |].
  cbn in Hi. subst i. cbn. rewrite decide_True by done. apply IH.
Qed.

(** The first error is nil exactly when every record has none. *)
Lemma correlateOutcomes_error es rs :
  rs ≡ₚ numbered es → (correlateOutcomes (length es) rs).2 = None ↔ Forall (λ e, e = None) es.
Proof.
  intros Hp. pose proof (correlateOutcomes_exact es rs Hp) as He. unfold correlateOutcomes in He |- *.
  assert (Forall (λ r : kresult, ∃ j, r.1 = Some j ∧ (j < length es)%nat) rs) as Hr.
  { rewrite Hp. unfold numbered. apply Forall_lookup. intros i r Hi. rewrite list_lookup_imap in Hi.
    destruct (es !! i) eqn:E; [| done]. injection Hi as <-. exists i. split; [done | by eapply lookup_lt_Some]. }
  pose proof (correlate_first _ _ (replicate (length es) (false, None)) None Hr) as Hf.
  assert (Forall (λ e, e = None) rs.*2 ↔ Forall (λ e, e = None) es) as Hes.
  { rewrite Hp. unfold numbered. rewrite Forall_fmap. rewrite !Forall_lookup.
    split; intros H i x Hi.
    - apply (H i (Some i, x)). rewrite list_lookup_imap. unfold error in *. by rewrite Hi.
    - rewrite list_lookup_imap in Hi. destruct (es !! i) eqn:E; [| done]. injection Hi as <-. by eapply H. }
  destruct (correlate _ _ _ _) as [out first]. cbn in *. subst first.
  rewrite <- Hes. set (missing := imap missing_result out) in *.
  split.
  - intros H. apply (foldl_keep_first rs.*2 None). by destruct (foldl keep_first None rs.*2).
  - intros H. rewrite (proj2 (foldl_keep_first rs.*2 None)) by done. cbn.
    assert (omap id missing = []) as ->; [| done].
    assert (Forall (λ e, e = None) missing) as Hm; [| clear -Hm; induction Hm as [|x l -> _ IH]; [done | exact IH]].
    rewrite Forall_lookup. intros i x Hi. destruct x as [x|]; [exfalso | done].
    apply Hes in H. assert (i < length es)%nat as Hlt.
    { pose proof (f_equal length He) as Hl. rewrite length_zip_with, length_fmap in Hl. unfold missing in Hl, Hi. rewrite length_imap in Hl. apply lookup_lt_Some in Hi. rewrite length_imap in Hi. lia. }
    destruct (lookup_lt_is_Some_2 es i Hlt) as [e Ee]. rewrite Forall_lookup in H. specialize (H i e Ee) as ->.
    rewrite <- He, lookup_zip_with in Ee. unfold error in *. rewrite Hi in Ee. destruct (out.*2 !! i) as [[y|]|]; done.
Qed.

Section client.
Context `{J : Json} {JL : JsonLaws} `{T : TimeText} `{C : Completion} {CL : CompletionLaws} `{N : NumText}.
Context (fingerprint : string -> json -> string) (uuid : nat -> string)
  (place : list placed -> ProduceRecord -> Z * Z) (nano_parse : string -> option Z).

Definition oks (os : list ProduceOutcome) : list (Z * Z) :=
  omap (λ o : ProduceOutcome, match o with Ok d => Some d | Bad _ => None end) os.

Definition coords (p : placed) : Z * Z := (pl_partition p, pl_offset p).

(** Records [rs] were sent with the outcomes [os], which added [new] to the log. *)
Record delivered (rs : list ProduceRecord) (os : list ProduceOutcome) (new : list placed) : Prop := {
  dv_length : length os = length rs;
  dv_placed : Forall2 is_placed (sel (is_ok <$> os) rs) new;
  dv_coords : oks os = coords <$> new
}.

Lemma send_spec r w :
  certain (cw_net w) → ∃ o new net, send place r w = (set_kafka (cw_log w ++ new) net w, o) ∧ certain net ∧ delivered [r] [o] new.
Proof.
  intros Hn. unfold send.
  assert (∀ p, p = mkPlaced (pr_Topic r) (pr_Key r) (pr_Payload r) (asked (pr_Partition r)) (place (cw_log w) r).1 (place (cw_log w) r).2 →
    delivered [r] [Ok (place (cw_log w) r)] [p]) as Hd.
  { intros p ->. split; [done | repeat constructor | cbn; f_equal; apply surjective_pairing]. }
  destruct (cw_net w) as [|d net]; [| inversion Hn as [|? ? Hu Hn']; subst; destruct d].
  - do 3 eexists. split; [reflexivity |]. split; [constructor | by apply Hd].
  - do 3 eexists. split; [reflexivity |]. split; [done | by apply Hd].
  - exists (Bad produceError), [], net. split; [by rewrite app_nil_r |]. split; [done |]. split; [done | constructor | done].
  - by destruct Hu.
Qed.

Lemma delivered_app rs1 os1 new1 rs2 os2 new2 :
  delivered rs1 os1 new1 → delivered rs2 os2 new2 → delivered (rs1 ++ rs2) (os1 ++ os2) (new1 ++ new2).
Proof.
  intros [L1 P1 C1] [L2 P2 C2]. split.
  - rewrite !length_app. lia.
  - rewrite fmap_app, sel_app by (rewrite length_fmap; exact L1). by apply Forall2_app.
  - unfold oks in *. by rewrite omap_app, fmap_app, C1, C2.
Qed.

Lemma send_each_spec rs : ∀ w, certain (cw_net w) →
  ∃ os new net, send_each place rs w = (set_kafka (cw_log w ++ new) net w, os) ∧ certain net ∧ delivered rs os new.
Proof.
  induction rs as [|r rs IH]; intros w Hn.
  - exists [], [], (cw_net w). rewrite app_nil_r. split; [by destruct w |]. split; [done |]. split; [done | constructor | done].
  - cbn. unfold mbind, cio_bind. destruct (send_spec r w Hn) as (o & n1 & net1 & -> & Hn1 & D1).
    destruct (IH (set_kafka (cw_log w ++ n1) net1 w) Hn1) as (os & n2 & net2 & -> & Hn2 & D2).
    exists (o :: os), (n1 ++ n2), net2. split; [by cbn; rewrite app_assoc |]. split; [done |].
    apply (delivered_app [r] [o] n1); done.
Qed.

Lemma is_ok_error (os : list ProduceOutcome) :
  Forall (λ e, e = None) (outcome_error <$> os) ↔ Forall (λ b, b = true) (is_ok <$> os).
Proof. rewrite !Forall_fmap. split; intros H; (eapply Forall_impl; [exact H |]); by intros []. Qed.

Lemma ProduceManySync_spec rs w :
  certain (cw_net w) → ∃ os err new net,
    Enqueue.ProduceManySync place rs w = (set_kafka (cw_log w ++ new) net w, (os, err)) ∧ certain net ∧
    delivered rs os new ∧ (err = None ↔ Forall (λ b, b = true) (is_ok <$> os)).
Proof.
  intros Hn. destruct (send_each_spec rs w Hn) as (os & new & net & E & Hn' & D).
  unfold Enqueue.ProduceManySync. destruct rs as [|r rs].
  { cbn in E. injection E as E1 <-. exists [], None, [], (cw_net w). rewrite app_nil_r. split; [by destruct w |]. split; [done |].
    split; [by split | by split]. }
  unfold mbind, cio_bind. rewrite E. set (es := outcome_error <$> os).
  assert (imap (λ i o, (Some i, outcome_error o)) os = numbered es) as ->.
  { unfold numbered, es. apply list_eq. intros i. by rewrite !list_lookup_imap, list_lookup_fmap, <- option_fmap_compose. }
  assert (length (r :: rs) = length es) as -> by (unfold es; rewrite length_fmap; symmetry; apply D).
  pose proof (correlateOutcomes_exact es (completion (numbered es)) (completion_perm _)) as He.
  pose proof (correlateOutcomes_error es (completion (numbered es)) (completion_perm _)) as Hf.
  destruct (correlateOutcomes _ _) as [errs first]. cbn in He, Hf. subst errs.
  exists os, first, new, net. split; [| split; [done |]; split; [done |]; etrans; [exact Hf | apply is_ok_error]].
  unfold mret, cio_ret. do 2 f_equal. unfold es. clear. induction os as [|[d|e] os IH]; cbn; [done | by rewrite IH ..].
Qed.

(** ** Chunks *)

Lemma chunks_join {A} n fuel : ∀ l : list A, (0 < n)%nat → (length l <= fuel)%nat → mjoin (chunks n fuel l) = l.
Proof.
  induction fuel as [|fuel IH]; intros [|x l] Hn Hl; cbn in Hl; [done | lia | done |].
  cbn [chunks mjoin]. destruct n as [|n]; [lia |]. cbn. f_equal.
  rewrite IH; [apply firstn_skipn | lia |]. rewrite length_skipn. lia.
Qed.

Lemma pieces_join {A} c (l : list A) : mjoin (pieces (chunkSize c) l) = l.
Proof. apply chunks_join; [| done]. unfold chunkSize. case_match eqn:E; lia. Qed.

Lemma pad_exact n (flags : list bool) : length flags = n → pad n flags = flags.
Proof. intros <-. unfold pad. by rewrite Nat.sub_diag, app_nil_r. Qed.

Lemma mjoin_cons {A} (x : list A) l : mjoin (x :: l) = x ++ mjoin l.
Proof. done. Qed.

(** A prefix of the records was sent, then the call stopped. *)
Lemma sel_stopped {A} (f : list bool) (l l' : list A) :
  length f = length l → sel (f ++ replicate (length l') false) (l ++ l') = sel f l.
Proof. intros Hf. by rewrite sel_app, sel_false, app_nil_r. Qed.

Lemma produce_chunks_spec n cs : ∀ flags w, certain (cw_net w) → (length flags + length (mjoin cs))%nat = n →
  ∃ g err new net, produce_chunks place n cs flags w = (set_kafka (cw_log w ++ new) net w, (flags ++ g, err)) ∧ certain net ∧
    length g = length (mjoin cs) ∧ Forall2 is_placed (sel g (mjoin cs)) new ∧ (err = None → Forall (λ b, b = true) g).
Proof.
  induction cs as [|chunk cs IH]; intros flags w Hn Hl.
  { exists [], None, [], (cw_net w). cbn in *. rewrite pad_exact, !app_nil_r by lia. split; [by destruct w |]. repeat split; done || constructor. }
  rewrite mjoin_cons, length_app in Hl. cbn. unfold mbind, cio_bind.
  destruct (ProduceManySync_spec chunk w Hn) as (os & err & new & net & -> & Hn' & [Dl Dp _] & He). cbn [fst snd].
  destruct err as [e|].
  - exists ((is_ok <$> os) ++ replicate (length (mjoin cs)) false). do 3 eexists. unfold mret, cio_ret. split.
    { unfold pad. rewrite length_app, length_fmap, Dl, <- app_assoc. replace (n - _)%nat with (length (mjoin cs)) by lia. reflexivity. }
    split; [done |]. rewrite !length_app, length_replicate, length_fmap, Dl. split; [done |].
    split; [| done]. by rewrite sel_stopped by (by rewrite length_fmap).
  - destruct (IH (flags ++ (is_ok <$> os)) (set_kafka (cw_log w ++ new) net w) Hn') as (g & err & new2 & net2 & -> & Hn2 & Lg & Pg & Hg).
    { rewrite length_app, length_fmap, Dl. lia. }
    exists ((is_ok <$> os) ++ g), err, (new ++ new2), net2. split; [by cbn; rewrite !app_assoc |].
    split; [done |]. rewrite !length_app, length_fmap, Dl, Lg. split; [done |].
    rewrite sel_app by (by rewrite length_fmap). split; [by apply Forall2_app |].
    intros H. apply Forall_app. split; [by apply He | by apply Hg].
Qed.

Lemma produceInChunks_spec c rs w : certain (cw_net w) →
  ∃ g err new net, produceInChunks place c rs w = (set_kafka (cw_log w ++ new) net w, (g, err)) ∧ certain net ∧
    length g = length rs ∧ Forall2 is_placed (sel g rs) new ∧ (err = None → Forall (λ b, b = true) g).
Proof.
  intros Hn. unfold produceInChunks.
  destruct (produce_chunks_spec (length rs) (pieces (chunkSize c) rs) [] w Hn) as (g & err & new & net & -> & H);
    rewrite pieces_join in *; [done |]. by exists g, err, new, net.
Qed.

(** ** Routing *)

Definition tenant_key (k : string) : Prop := ∃ t, k = ("kafka_batch:tenant_partitions:" +:+ t)%string.

(** Only the tables of the tenants may change. *)
Record routed (w w' : cworld) : Prop := {
  rt_quiet : quiet (cw_redis w');
  rt_frame : ∀ k, ¬ tenant_key k → kdb (w_db (cw_redis w')) !! k = kdb (w_db (cw_redis w)) !! k;
  rt_log : cw_log w' = cw_log w; rt_net : cw_net w' = cw_net w
}.

Lemma routed_refl w : quiet (cw_redis w) → routed w w.
Proof. by split. Qed.

Lemma routed_trans w1 w2 w3 : routed w1 w2 → routed w2 w3 → routed w1 w3.
Proof. intros [Q1 F1 L1 N1] [Q2 F2 L2 N2]. split; [done | | congruence | congruence]. intros k Hk. by rewrite F2, F1. Qed.

Lemma map_tenant lane : tenant_key (mapKey lane).
Proof. by exists lane. Qed.
Lemma free_tenant lane : tenant_key (freeKey lane).
Proof. by exists (lane +:+ ":free")%string. Qed.
Lemma meta_tenant lane : tenant_key (metaKey lane).
Proof. by exists (lane +:+ ":partition_count")%string. Qed.

#[local] Hint Resolve frames_ret frames_return frames_read frames_HDEL frames_HSET frames_SADD frames_SREM frames_DEL
  map_tenant free_tenant meta_tenant : frames.

Ltac framed :=
  repeat first
    [ apply frames_bind; [| intros ?]
    | apply frames_when
    | solve [auto with frames]
    | case_match ].

Lemma frames_scan_taken lane count l : ∀ taken, frames tenant_key (scan_taken lane count l taken).
Proof. induction l as [|[t v] l IH]; intros taken; cbn; [auto with frames |]. framed; auto. Qed.

Lemma frames_add_free lane taken cur ps : frames tenant_key (add_free lane taken cur ps).
Proof. induction ps as [|p ps IH]; cbn; [auto with frames |]. framed; auto. Qed.

Lemma frames_scan_free lane count l : ∀ cur, frames tenant_key (scan_free lane count l cur).
Proof. induction l as [|m l IH]; intros cur; cbn; [auto with frames |]. framed; auto. Qed.

Lemma frames_SET {R} k v : tenant_key k → frames tenant_key (SET (R := R) k v).
Proof.
  intros Hk. apply frames_modify. intros s k' Hk'. rewrite (kdb_put_other tenant_key) by done.
  by rewrite (kdb_del_other tenant_key) by done.
Qed.

Lemma frames_SPOP {R} n k : tenant_key k → frames tenant_key (SPOP (R := R) n k).
Proof.
  intros Hk. apply frames_lift. intros x. case_match; [| apply frames_ret]. intros s0 k' Hk'. cbn.
  unfold put_set. case_decide; [by apply (kdb_del_other tenant_key) | by apply (kdb_put_other tenant_key)].
Qed.

#[local] Hint Resolve frames_scan_taken frames_add_free frames_scan_free frames_SET frames_SPOP : frames.
#[local] Hint Extern 2 (frames _ _) => apply frames_read : frames.

Lemma frames_warm lane count : frames tenant_key (warmLua lane count).
Proof. unfold warmLua. framed. Qed.

Lemma frames_checkout lane t count choice : frames tenant_key (checkoutLua lane t count choice).
Proof. unfold checkoutLua, take_free. framed; done. Qed.

Lemma tame_Warm tp lane count : tame tenant_key (Warm tp lane count).
Proof.
  unfold Warm. destruct (negb _); [apply tame_ret |]. destruct count as [n|e]; [| apply tame_ret].
  destruct (n <? 1); [apply tame_ret |]. apply tame_bind; [apply tame_call, frames_warm | intros ?; apply tame_ret].
Qed.

Lemma tame_Resolve now t lane c1 c2 choice tp : tame tenant_key (Resolve now t lane c1 c2 choice tp).
Proof.
  unfold Resolve. destruct (String.eqb t ""); [apply tame_ret |]. destruct (readCache now lane t tp) as [tp1 [p|]]; [apply tame_ret |].
  destruct (tp_static tp1 !! t); [apply tame_ret |]. destruct (negb _); [apply tame_ret |].
  apply tame_bind; [| intros tp2; apply tame_bind; [| intros ?; apply tame_ret]].
  - unfold warmThrottled. set (recent := match tp_lastWarm tp1 !! lane with Some _ => _ | None => _ end).
    destruct recent; [apply tame_ret |]. apply tame_bind; [apply tame_Warm | intros ?; apply tame_ret].
  - unfold tenant_checkout. destruct c2 as [n|e]; [| apply tame_ret]. destruct (n <? 1); [apply tame_ret |].
    apply tame_bind; [apply tame_call, frames_checkout | intros ?; apply tame_ret].
Qed.

Lemma routeFor_spec c now e job tenant batch w :
  quiet (cw_redis w) → ∃ r w', routeFor c now e job tenant batch w = (w', r) ∧ routed w w'.
Proof.
  intros Hq. assert (∀ r, ∃ r' w', (w, r : Route) = (w', r') ∧ routed w w') as Hnow by (intros r; exists r, w; by split; [| apply routed_refl]).
  unfold routeFor. case_match; [apply Hnow |]. case_match; [apply Hnow |]. case_match; [apply Hnow |].
  unfold mbind, cio_bind, resolve_tenant. destruct (cw_tenants w) as [tp|]; [| apply Hnow].
  destruct (default _ (head (cw_answers w))) as [[c1 c2] choice].
  pose proof (tame_Resolve now tenant (HE_FairnessType e) c1 c2 choice tp (cw_redis w) Hq) as [Hq' Hf].
  unfold on_redis. destruct (Resolve _ _ _ _ _ _ _ _) as [r [tp' p]]. cbn in *. do 2 eexists. split; [reflexivity |]. by split.
Qed.

(** ** Messages and their slots *)

Lemma job_json_ok j : ∃ raw, job_json j = Ok raw.
Proof. apply marshal_ok. Qed.

(** The slots a window grants, one after the other. *)
Fixpoint grants (win : option seqWindow) (seqs : list (option Z)) : Prop :=
  match seqs with
  | [] => True
  | s :: seqs => ∃ win', next_seq win = inl (s, win') ∧ grants win' seqs
  end.

Lemma grants_window a n : ∀ b, 1 <= a → a + Z.of_nat n - 1 <= b → grants (Some (mkWindow a b)) (Some <$> seqZ a (Z.of_nat n)).
Proof.
  revert a. induction n as [|n IH]; intros a b Ha Hb; [by rewrite seqZ_nil by lia |].
  rewrite seqZ_cons by lia. cbn. exists (Some (mkWindow (a + 1) b)). split.
  - unfold next_seq, take_seq. cbn. rewrite (proj2 (Z.eqb_neq a 0)), (proj2 (Z.eqb_neq b 0)), (proj2 (Z.ltb_ge b a)) by lia. done.
  - replace (Z.pred (Z.of_nat (S n))) with (Z.of_nat n) by lia. change (Z.succ a) with (Z.succ a). rewrite Z.add_1_r. apply IH; lia.
Qed.

Lemma grants_none n : grants None (replicate n None).
Proof. induction n as [|n IH]; cbn; eauto. Qed.

Notation message_of := (plan_message fingerprint nano_parse).

Definition carries (j : JobMessage) (raw : string) : Prop := job_json j = Ok raw.

Lemma record_all_spec c k plans : ∀ win seqs w, grants win seqs → length seqs = length plans → quiet (cw_redis w) →
  ∃ rs w', record_all fingerprint nano_parse c k plans win w = (w', inl rs) ∧ routed w w' ∧
    Forall2 (λ j r, carries j (pr_Payload r)) (zip_with (message_of c k) plans seqs) rs.
Proof.
  induction plans as [|p plans IH]; intros win [|s seqs] w Hg Hl Hq; try done.
  { exists [], w. split; [done |]. split; [by apply routed_refl | constructor]. }
  destruct Hg as (win' & Hs & Hg). cbn. rewrite Hs. destruct (job_json_ok (message_of c k p s)) as [raw Hr].
  rewrite Hr. unfold mbind, cio_bind.
  destruct (routeFor_spec c (bk_now k) (bk_entry k) (pp_jobID p) (bk_tenant k) (bk_batch k) w Hq) as (r & w1 & -> & R1).
  destruct (IH win' seqs w1 Hg ltac:(by injection Hl) (rt_quiet _ _ R1)) as (rs & w2 & -> & R2 & F).
  do 2 eexists. split; [reflexivity |]. split; [by eapply routed_trans |]. by constructor.
Qed.

Lemma build_all_spec c k plans : ∀ win seqs, grants win seqs → length seqs = length plans →
  build_all fingerprint nano_parse c k plans win = inl (zip_with (message_of c k) plans seqs).
Proof.
  induction plans as [|p plans IH]; intros win [|s seqs] Hg Hl; try done.
  destruct Hg as (win' & Hs & Hg). cbn. rewrite Hs, (IH win' seqs); [done | done | by injection Hl].
Qed.

(** ** The schedule index *)

Definition db (w : cworld) : redis := w_db (cw_redis w).
Definition pending (w : cworld) : option (gmap string Q) := get_zset (db w) pendingKey.

Definition member_of (j : JobMessage) (p : placed) : string := BuildMember (J_JobID j) (pl_partition p) (pl_offset p).

(** What sending may do to the world: the log grows, and only the tenants' tables and the index of delayed jobs change. *)
Record sends (w w' : cworld) (new : list placed) : Prop := {
  sd_quiet : quiet (cw_redis w'); sd_net : certain (cw_net w'); sd_log : cw_log w' = cw_log w ++ new;
  sd_frame : ∀ k, ¬ tenant_key k → k ≠ pendingKey → kdb (db w') !! k = kdb (db w) !! k
}.

Lemma sends_trans w1 w2 w3 n1 n2 : sends w1 w2 n1 → sends w2 w3 n2 → sends w1 w3 (n1 ++ n2).
Proof.
  intros [Q1 N1 L1 F1] [Q2 N2 L2 F2]. split; [done | done | by rewrite L2, L1, app_assoc |]. intros k Hk Hp. by rewrite F2, F1.
Qed.

Lemma sends_kafka w new net : quiet (cw_redis w) → certain net → sends w (set_kafka (cw_log w ++ new) net w) new.
Proof. by split. Qed.

Lemma routed_sends w w' : certain (cw_net w) → routed w w' → sends w w' [].
Proof. intros Hn [Q F L Nt]. split; [done | by rewrite Nt | by rewrite L, app_nil_r |]. intros k Hk _. by apply F. Qed.

Lemma zadd_all_spec l s z : get_zset s pendingKey = Some z → l ≠ [] →
  ∃ s' z', zadd_all pendingKey l s = (s', Ok tt) ∧ get_zset s' pendingKey = Some z' ∧ dom z' = dom z ∪ list_to_set l.*2 ∧
    ∀ k, k ≠ pendingKey → kdb s' !! k = kdb s !! k.
Proof.
  intros Hz Hl. unfold zadd_all, command, lift, modify. rewrite Hz.
  set (z' := foldl _ z l).
  assert (dom z' = dom z ∪ list_to_set l.*2) as Hd.
  { unfold z'. clear. revert z. induction l as [|[q m] l IH]; intros z; cbn; [set_solver |]. rewrite IH, dom_insert_L. set_solver. }
  exists (put_zset pendingKey z' s), z'. split; [done |]. unfold put_zset. case_decide as E.
  { destruct l as [|x l]; [done |]. rewrite Hd in E. set_solver. }
  split; [unfold get_zset; cbn; by rewrite lookup_insert_eq |]. split; [done |]. intros k Hk. by apply lookup_insert_ne.
Qed.

Lemma write_spec c rows w z :
  cl_sched c = redisScheduleIndex → quiet (cw_redis w) → certain (cw_net w) → pending w = Some z → rows ≠ [] →
  ∃ w' z', writeScheduleIndex c rows w = (w', None) ∧ sends w w' [] ∧ pending w' = Some z' ∧
    dom z' = dom z ∪ list_to_set (entry_member <$> rows).
Proof.
  intros Hc Hq Hn Hz Hr. set (l := (λ e, (epoch (E_RunAt e), entry_member e)) <$> rows).
  assert (l ≠ []) as Hl by (unfold l; by destruct rows).
  destruct (zadd_all_spec l (db w) z Hz Hl) as (s' & z' & Es & Hz' & Hd & Hf).
  destruct (do_quiet (zadd_all pendingKey l) (cw_redis w) Hq) as (net & Ed & Hn').
  change (w_db (cw_redis w)) with (db w) in Ed. rewrite Es in Ed. cbn in Ed.
  assert ((match rows with [x] => scheduleOne (cl_sched c) x | _ => scheduleMany (cl_sched c) rows end) w =
    (mkCWorld (World s' net) (cw_log w) (cw_net w) (cw_mysql w) (cw_tenants w) (cw_answers w) (cw_cancelled w) (cw_ids w), None)) as Ew.
  { rewrite Hc. unfold l in Ed. destruct rows as [|x [|y rows]]; [done | |].
    - cbn [redisScheduleIndex scheduleOne].
      unfold on_redis, redis_Schedule, mbind, io_bind. change (BuildMember _ _ _) with (entry_member x).
      cbn [fmap list_fmap] in Ed. by rewrite Ed.
    - cbn [redisScheduleIndex scheduleMany].
      unfold on_redis, redis_ScheduleMany, mbind, io_bind. by rewrite Ed. }
  exists (mkCWorld (World s' net) (cw_log w) (cw_net w) (cw_mysql w) (cw_tenants w) (cw_answers w) (cw_cancelled w) (cw_ids w)), z'.
  split; [| split; [split; [done | done | by rewrite app_nil_r | intros k _ Hk; by apply Hf] |]; split; [exact Hz' |];
            rewrite Hd; unfold l; by rewrite <- list_fmap_compose].
  unfold writeScheduleIndex, mbind, cio_bind. destruct (Z.to_nat _ - 1)%nat; cbn [write_loop]; unfold mbind, cio_bind, error in *; by rewrite Ew.
Qed.

Lemma index_rows_members chunk os at_ batchID : ∀ new,
  length os = length chunk → oks os = coords <$> new →
  entry_member <$> index_rows chunk os at_ batchID = zip_with member_of (sel (is_ok <$> os) chunk) new.
Proof.
  revert os. induction chunk as [|j chunk IH]; intros [|[d|e] os] new Hl Hc; try done.
  - destruct new as [|p new]; [done |]. injection Hc as Hd Hc. injection Hl as Hl. cbn. f_equal; [| by apply IH].
    by rewrite Hd.
  - cbn. injection Hl as Hl. by apply IH.
Qed.

Lemma marshal_all_ok js : ∃ raws, marshal_all js = Ok raws ∧ Forall2 carries js raws.
Proof.
  induction js as [|j js (raws & E & F)]; [by exists []; split; [| constructor] |]. destruct (job_json_ok j) as [raw Hr].
  exists (raw :: raws). cbn. unfold mbind, result_bind, mret, result_ret. rewrite Hr, E. split; [done | by constructor].
Qed.

(** A job that is in Kafka and, for a delayed one, in the index. *)
Definition kept (delayed : bool) (w : cworld) (j : JobMessage) (p : placed) : Prop :=
  carries j (pl_payload p) ∧ (delayed = true → ∃ z, pending w = Some z ∧ member_of j p ∈ dom z).

Definition grows (w w' : cworld) : Prop := ∀ z, pending w = Some z → ∃ z', pending w' = Some z' ∧ dom z ⊆ dom z'.

Lemma kept_grows d w w' j p : grows w w' → kept d w j p → kept d w' j p.
Proof. intros Hg [Hc Hk]. split; [done |]. intros Hd. destruct (Hk Hd) as (z & Hz & Hm). destruct (Hg z Hz) as (z' & Hz' & Hs). exists z'. auto. Qed.

Lemma records_placed js rs : Forall2 (λ j r, carries j (pr_Payload r)) js rs → ∀ flags new,
  Forall2 is_placed (sel flags rs) new → Forall2 (λ j p, carries j (pl_payload p)) (sel flags js) new.
Proof.
  induction 1 as [|j r js rs Hj F IH]; intros flags new; [rewrite !sel_nil; inversion 1; constructor |].
  destruct flags as [|[] flags]; cbn; [inversion 1; constructor | | by apply IH].
  inversion 1 as [|? p ? new' (_ & _ & Hp & _) Hn]; subst. constructor; [unfold carries; by rewrite Hp | by apply IH].
Qed.

Lemma schedule_chunks_spec c n cs at_ batchID : cl_sched c = redisScheduleIndex → ∀ flags w,
  quiet (cw_redis w) → certain (cw_net w) → is_Some (pending w) → (length flags + length (mjoin cs))%nat = n →
  ∃ g err new w', schedule_chunks place c n cs at_ batchID flags w = (w', err) ∧ sends w w' new ∧ grows w w' ∧
    length g = length (mjoin cs) ∧ Forall2 (kept true w') (sel g (mjoin cs)) new ∧
    (err = None → Forall (λ b, b = true) g) ∧ (∀ e, err = Some e → producedFlags e = flags ++ g).
Proof.
  intros Hc. induction cs as [|chunk cs IH]; intros flags w Hq Hn [z Hz] Hl.
  { exists [], None, [], w. split; [done |]. split; [split; [done | done | by rewrite app_nil_r | done] |].
    split; [intros y Hy; by exists y |]. repeat split; done || constructor. }
  rewrite mjoin_cons in Hl |- *. rewrite length_app in Hl. cbn [schedule_chunks].
  destruct (marshal_all_ok chunk) as (raws & -> & Fr). unfold mbind, cio_bind.
  set (rs := zip_with _ chunk raws). assert (length rs = length chunk) as Lr.
  { unfold rs. rewrite length_zip_with. apply Forall2_length in Fr. lia. }
  destruct (ProduceManySync_spec rs w Hn) as (os & err & new & net & -> & Hn' & [Dl Dp Dc] & He). cbn [fst snd].
  set (w1 := set_kafka (cw_log w ++ new) net w). rewrite Lr in Dl.
  pose proof (index_rows_members chunk os at_ batchID new Dl Dc) as Hrows.
  assert (Forall2 (λ j r, carries j (pr_Payload r)) chunk rs) as Frs by (unfold rs; clear -Fr; by induction Fr; constructor).
  pose proof (records_placed chunk rs Frs _ new Dp) as Hpay.
  assert (∃ w2 z2, (match index_rows chunk os at_ batchID with [] => mret None | _ => writeScheduleIndex c (index_rows chunk os at_ batchID) end) w1
            = (w2, None) ∧ sends w1 w2 [] ∧ pending w2 = Some z2 ∧
            dom z2 = dom z ∪ list_to_set (zip_with member_of (sel (is_ok <$> os) chunk) new)) as (w2 & z2 & E2 & S2 & Hz2 & Hd2).
  { rewrite <- Hrows. destruct (index_rows chunk os at_ batchID) as [|row rows] eqn:Er.
    - exists w1, z. split; [done |]. split; [split; [done | done | by rewrite app_nil_r | done] |]. split; [exact Hz | set_solver].
    - by apply (write_spec c (row :: rows) w1 z). }
  unfold mbind, cio_bind in *. rewrite E2.
  assert (sends w w2 new) as S12 by (rewrite <- (app_nil_r new); eapply sends_trans; [by apply sends_kafka | exact S2]).
  assert (grows w w2) as G12 by (intros y Hy; rewrite Hz in Hy; injection Hy as <-; exists z2; split; [done | set_solver]).
  assert (Forall2 (kept true w2) (sel (is_ok <$> os) chunk) new) as K12.
  { apply Forall2_same_length_lookup in Hpay as [Hlen Hpay]. apply Forall2_same_length_lookup. split; [done |]. intros i j p Hj Hp.
    split; [by eapply Hpay |]. intros _. exists z2. split; [done |]. rewrite Hd2. apply elem_of_union_r, elem_of_list_to_set, list_elem_of_lookup.
    exists i. by rewrite lookup_zip_with, Hj, Hp. }
  destruct err as [e|].
  - exists ((is_ok <$> os) ++ replicate (length (mjoin cs)) false). do 3 eexists. split; [reflexivity |]. split; [exact S12 |]. split; [exact G12 |].
    rewrite !length_app, length_replicate, length_fmap, Dl. split; [done |].
    rewrite sel_stopped by (by rewrite length_fmap). split; [done |]. split; [done |]. intros e' [= <-]. cbn. unfold pad.
    rewrite length_app, length_fmap, Dl, <- app_assoc. by replace (n - _)%nat with (length (mjoin cs)) by lia.
  - destruct (IH (flags ++ (is_ok <$> os)) w2) as (g & err & new2 & w3 & -> & S3 & G3 & Lg & Kg & Hg & Hf).
    { apply S2. } { apply S2. } { by exists z2. } { rewrite length_app, length_fmap, Dl. lia. }
    exists ((is_ok <$> os) ++ g), err, (new ++ new2), w3. split; [done |]. split; [by eapply sends_trans |].
    split; [intros y Hy; destruct (G12 y Hy) as (y' & Hy' & ?); destruct (G3 y' Hy') as (y2 & ? & ?); exists y2; split; [done | set_solver] |].
    rewrite !length_app, length_fmap, Dl, Lg. split; [done |]. rewrite sel_app by (by rewrite length_fmap).
    split; [apply Forall2_app; [| done]; eapply Forall2_impl; [exact K12 |]; intros j p; by apply kept_grows |].
    split; [intros H; apply Forall_app; split; [by apply He | by apply Hg] |]. intros e Ee. by rewrite (Hf e Ee), app_assoc.
Qed.

(** ** Delivering the plans of a call *)

Definition is_delayed (at_ : option run_at) : bool := if at_ then true else false.

(** A delayed job needs the index of delayed jobs in Redis to be there. *)
Definition index_ready (c : Client) (at_ : option run_at) (w : cworld) : Prop :=
  is_delayed at_ = true → cl_sched c = redisScheduleIndex ∧ is_Some (pending w).

Lemma unproduced_sel {A} flags : ∀ (l : list A), length flags = length l → unproduced l flags = sel (negb <$> flags) l.
Proof.
  unfold unproduced, sel. induction flags as [|b flags IH]; intros [|x l] Hl; try done. injection Hl as Hl. specialize (IH l Hl).
  rewrite imap_cons. cbn [omap list_omap]. destruct b; cbn; [exact IH | f_equal; exact IH].
Qed.

Lemma deliver_all_spec c k at_ plans win seqs w :
  quiet (cw_redis w) → certain (cw_net w) → index_ready c at_ w → grants win seqs → length seqs = length plans →
  ∃ g flags err new w', deliver_all fingerprint place nano_parse c k at_ plans win w = (w', (flags, err)) ∧ sends w w' new ∧
    length g = length plans ∧ Forall2 (kept (is_delayed at_) w') (sel g (zip_with (message_of c k) plans seqs)) new ∧
    (err = None → Forall (λ b, b = true) g) ∧ (is_Some err → flags = g).
Proof.
  intros Hq Hn Hi Hg Hl. unfold deliver_all. destruct at_ as [v|].
  - destruct (Hi eq_refl) as [Hc Hp]. rewrite (build_all_spec c k plans win seqs Hg Hl).
    set (js := zip_with (message_of c k) plans seqs). unfold scheduleMessages, mbind, cio_bind.
    assert (length js = length plans) as Lj by (unfold js; rewrite length_zip_with; lia).
    destruct (schedule_chunks_spec c (length js) (pieces (chunkSize c) js) (clampRunAt (bk_now k) v (MaxScheduleHorizon (cl_cfg c)))
      (default ""%string (bk_batch k)) Hc [] w Hq Hn Hp) as (g & err & new & w' & -> & S & _ & Lg & K & He & Hf); rewrite pieces_join in *; [done |].
    exists g, (match err with Some e => producedFlags e | None => [] end), err, new, w'. split; [by destruct err |]. split; [exact S |].
    rewrite <- Lj. split; [exact Lg |]. split; [exact K |]. split; [exact He |]. intros [e ->]. by apply Hf.
  - unfold mbind, cio_bind. destruct (record_all_spec c k plans win seqs w Hg Hl Hq) as (rs & w1 & -> & R & F).
    assert (length rs = length plans) as Lr by (apply Forall2_length in F; rewrite length_zip_with in F; lia).
    destruct (produceInChunks_spec c rs w1) as (g & err & new & net & -> & Hn' & Lg & P & He); [by rewrite (rt_net _ _ R) |].
    exists g, g, err, new. eexists. split; [reflexivity |]. split.
    { apply (sends_trans w w1 _ [] new); [by apply routed_sends | apply sends_kafka; [apply R | done]]. }
    split; [by rewrite Lg, Lr |]. split; [| by split]. eapply Forall2_impl; [exact (records_placed _ rs F g new P) | by split].
Qed.

(** ** Slots of a batch *)

Definition ledger_key (k : string) : Prop := (∃ t, k = ("kafka_batch:b" +:+ t)%string) ∨ k = countsKey ∨ k = runningIndex ∨ k = doneIndex ∨ k = cancelledIndex.

Lemma abs_same s s' id b : (∀ k, ledger_key k → kdb s' !! k = kdb s !! k) → abs s id b → abs s' id b.
Proof.
  intros E [Hh Ht Ho Hf Hs Hq].
  assert (∀ p, same_at (keyPrefix +:+ p)%string s' s) as Eb by (intros p; apply E; left; by exists p).
  split.
  - by rewrite (same_get_hash (batchKey id) s' s (Eb (":" +:+ id)%string)).
  - by rewrite (same_get_bits (bitmapKey id) s' s (Eb (":bitmap:" +:+ id)%string)).
  - by rewrite (same_get_bits (okBitmapKey id) s' s (Eb (":okbit:" +:+ id)%string)).
  - by rewrite (same_get_bits (failBitmapKey id) s' s (Eb (":failbit:" +:+ id)%string)).
  - eapply shared_same; [.. | exact Hs]; apply E; unfold ledger_key; auto.
  - by rewrite (same_get_int (seqKey id) s' s (Eb (":seq:" +:+ id)%string)).
Qed.

Lemma frames_addJobs id n t : frames ledger_key (addJobs (batchKey id) (seqKey id) n t).
Proof.
  assert (ledger_key (batchKey id)) as Hb by (left; by exists (":" +:+ id)%string).
  assert (ledger_key (seqKey id)) as Hq by (left; by exists (":seq:" +:+ id)%string).
  unfold addJobs.
  repeat first [ apply frames_bind; [| intros ?] | apply frames_when | apply frames_return | apply frames_ret | apply frames_EXPIRE
               | apply frames_EXISTS | by apply frames_INCRBY | by apply frames_HINCRBY | apply frames_read ].
Qed.

(** The batch of a call as the ledger shows it: its state and its last slot. *)
Record at_batch (id : string) (b : batch) (q : Z) (s : redis) : Prop := {
  ab_abs : abs s id b; ab_seq : get_int s (seqKey id) = Some q
}.

Lemma at_batch_same id b q s s' : (∀ k, ledger_key k → kdb s' !! k = kdb s !! k) → at_batch id b q s → at_batch id b q s'.
Proof.
  intros E [Ha Hq]. split; [by eapply abs_same |]. rewrite <- Hq. apply same_get_int. apply E. left. by exists (":seq:" +:+ id)%string.
Qed.

(** What a Redis operation of the client leaves alone. *)
Record quietly (K : string -> Prop) (w w' : cworld) : Prop := {
  qt_quiet : quiet (cw_redis w'); qt_log : cw_log w' = cw_log w; qt_net : cw_net w' = cw_net w;
  qt_frame : ∀ k, ¬ K k → kdb (db w') !! k = kdb (db w) !! k
}.

Lemma on_redis_quietly {A} K (m : io A) w : tame K m → quiet (cw_redis w) → quietly K w (on_redis m w).1 ∧ (on_redis m w).2 = (m (cw_redis w)).2
  ∧ db (on_redis m w).1 = w_db (m (cw_redis w)).1.
Proof. intros Ht Hq. destruct (Ht _ Hq) as [Hq' Hf]. unfold on_redis. destruct (m (cw_redis w)) as [r a]. by repeat split. Qed.

Lemma AddJobs_spec st id n b q w : quiet (cw_redis w) → at_batch id b q (db w) →
  ∃ w' res, on_redis (AddJobs (Some st) id n) w = (w', (res, None)) ∧ quietly ledger_key w w' ∧
    at_batch id (add_jobs n b).2 (if (add_jobs n b).1 && (0 <? n) then q + n else q) (db w') ∧
    (if (add_jobs n b).1 then aj_Status res = "ok"%string ∧ (0 < n → SeqStart res = q + 1 ∧ SeqEnd res = q + n)
     else aj_Status res = "cancelled"%string ∨ aj_Status res = "closed"%string).
Proof.
  intros Hq [Ha Hs]. destruct (run_of _ _ _ (add_refines id (db w) b n (seconds (ttl st)) q Ha Hs)) as (r & Er & Ha' & Hr).
  destruct (do_quiet (Client.call (addJobs (batchKey id) (seqKey id) n (seconds (ttl st)))) (cw_redis w) Hq) as (net & Ed & Hn).
  assert (Client.call (addJobs (batchKey id) (seqKey id) n (seconds (ttl st))) (db w) = ((run (addJobs (batchKey id) (seqKey id) n (seconds (ttl st))) (db w)).1, Ok r)) as Ec.
  { unfold Client.call. destruct (run _ _) as [s' o]. cbn in *. by subst o. }
  assert (∀ k, ¬ ledger_key k → kdb (run (addJobs (batchKey id) (seqKey id) n (seconds (ttl st))) (db w)).1 !! k = kdb (db w) !! k) as Hf.
  { intros k Hk. pose proof (call_frames ledger_key _ (db w) k (frames_addJobs id n (seconds (ttl st))) Hk) as H. by rewrite Ec in H. }
  change (w_db (cw_redis w)) with (db w) in Ed. rewrite Ec in Ed. cbn [fst snd] in Ed.
  set (s' := (run _ _).1) in *. unfold on_redis, AddJobs, mbind, io_bind. rewrite Ed.
  set (w' := mkCWorld (World s' net) (cw_log w) (cw_net w) (cw_mysql w) (cw_tenants w) (cw_answers w) (cw_cancelled w) (cw_ids w)).
  assert (quietly ledger_key w w') as Hw by by split.
  destruct (add_jobs n b) as [ok b'] eqn:Eab. cbn [fst snd] in *. destruct ok.
  - destruct Hr as [-> Hs']. destruct (0 <? n) eqn:En; cbn [andb].
    + exists w', (mkAddJobs "ok" (q + 1) (q + n)). split; [done |]. split; [done |]. split; [by split |]. split; [done |]. by split.
    + exists w', (mkAddJobs "ok" 0 0). split; [done |]. split; [done |]. split; [by split |]. split; [done |]. lia.
  - destruct Hr as [-> Hs']. cbn [andb]. exists w', (mkAddJobs (addJobsStatus (add_code b)) 0 0).
    split; [done |]. split; [done |]. split; [by split |]. cbn. unfold add_code. destruct (String.eqb _ _); auto.
Qed.

(** ** Locks *)

Definition locks (l : list (string * string)) : gmap string rval := list_to_map ((λ x, (x.1, RString x.2)) <$> l).

Lemma locks_keys l : ((λ x : string * string, (x.1, RString x.2)) <$> l).*1 = l.*1.
Proof. by rewrite <- list_fmap_compose. Qed.

Lemma locks_lookup l k j : NoDup l.*1 → (k, j) ∈ l → locks l !! k = Some (RString j).
Proof.
  intros Hn Hl. apply elem_of_list_to_map_1; [by rewrite locks_keys |]. apply list_elem_of_fmap. by exists (k, j).
Qed.

Lemma locks_none l k : k ∉ l.*1 → locks l !! k = None.
Proof. intros Hk. apply not_elem_of_list_to_map_1. by rewrite locks_keys. Qed.

(** The claims of a pipeline: the keys that were free and come first are taken. *)
Lemma claims_spec t (l : list (string * string)) : ∀ s, ∃ s' bs,
  run_cmds ((λ x, command (SET_NX_EX x.1 x.2 t)) <$> l) s = (s', Ok <$> bs) ∧ length bs = length l ∧
  kdb s' = locks (sel bs l) ∪ kdb s ∧ NoDup (sel bs l).*1 ∧ Forall (λ k, kdb s !! k = None) (sel bs l).*1.
Proof.
  induction l as [|[k j] l IH]; intros s.
  { exists s, []. repeat split; [| constructor | constructor]. cbn. by rewrite (left_id_L ∅ (∪)). }
  cbn. unfold command at 1, SET_NX_EX at 1. cbn. destruct (has_key s k) eqn:Hk.
  - destruct (IH s) as (s' & bs & -> & Hl & H). exists s', (false :: bs). cbn. by rewrite Hl.
  - set (s1 := set_ttl k t (put k (RString j) s)). destruct (IH s1) as (s' & bs & -> & Hl & Hd & Hn & Hf).
    assert (kdb s !! k = None) as Hk0 by (unfold has_key in Hk; apply bool_decide_eq_false in Hk; by apply eq_None_not_Some).
    rewrite Forall_forall in Hf.
    assert (k ∉ (sel bs l).*1) as Hkn by (intros Hin; specialize (Hf k Hin); cbn in Hf; by rewrite lookup_insert_eq in Hf).
    exists s', (true :: bs). split; [done |]. split; [cbn; by rewrite Hl |]. cbn.
    change (omap _ (zip bs l)) with (sel bs l). split; [| split].
    + rewrite Hd. unfold locks. cbn. change (list_to_map ((λ x, (x.1, RString x.2)) <$> sel bs l)) with (locks (sel bs l)).
      rewrite <- insert_union_l. by rewrite insert_union_r by (by apply locks_none).
    + by constructor.
    + constructor; [done |]. apply Forall_forall. intros k' Hk'. specialize (Hf k' Hk'). cbn in Hf.
      rewrite lookup_insert_ne in Hf; [done |]. by intros ->.
Qed.

Notation uniq_key := (Uniq.redisKey fingerprint).

Definition plan_lock (worker : string) (p : pushPlan) : string * string := (uniq_key worker (pp_payload p), pp_jobID p).

(** The locks the plans of a call hold. *)
Definition held (c : Client) (e : HandlerEntry) (worker : string) (plans : list pushPlan) : list (string * string) :=
  if is_uniq c e then plan_lock worker <$> plans else [].

Hypothesis fingerprint_16 : ∀ w p, String.length (fingerprint w p) = 16%nat.
Hypothesis uuid_nonempty : ∀ n, uuid n ≠ ""%string.

Lemma hex_digit_char n : (n < 16)%N → Uniq.hex_digit (hex_char n) = Some n.
Proof.
  intros Hn. assert (Forall (λ n, Uniq.hex_digit (hex_char n) = Some n) (N.of_nat <$> seq 0 16)) as F by (vm_compute; repeat constructor).
  rewrite Forall_forall in F. apply F, list_elem_of_fmap. exists (N.to_nat n). split; [lia |]. apply elem_of_seq. lia.
Qed.

Lemma hex_round_trip s : Uniq.hex_decode (hex_encode s) = Some s.
Proof.
  induction s as [|ch s IH]; [done |]. cbn [hex_encode Uniq.hex_decode].
  pose proof (Ascii.N_ascii_bounded ch) as Hb.
  rewrite (hex_digit_char (Ascii.N_of_ascii ch / 16)) by (apply N.Div0.div_lt_upper_bound; lia).
  rewrite (hex_digit_char (Ascii.N_of_ascii ch mod 16)) by (by apply N.mod_lt). rewrite IH.
  rewrite <- N.div_mod by done. by rewrite Ascii.ascii_N_embedding.
Qed.

Lemma digest_lock worker p : Uniq.lock_key (DigestHex fingerprint worker p) = Some (uniq_key worker p).
Proof. unfold Uniq.lock_key, DigestHex. rewrite hex_round_trip. by rewrite decide_True by apply fingerprint_16. Qed.

Lemma digest_nonempty worker p : String.eqb (DigestHex fingerprint worker p) "" = false.
Proof.
  unfold DigestHex. pose proof (fingerprint_16 worker p) as H. by destruct (fingerprint worker p).
Qed.

Section locked.
Context (c : Client) (e : HandlerEntry) (worker : string) (t : Z).
Hypothesis locker : cl_uniq c = Some t.

Notation holds_locks := (held c e worker).

(** A plan as the planner makes it. *)
Definition plan_ok (p : pushPlan) : Prop :=
  pp_jobID p ≠ ""%string ∧ (is_uniq c e = true → pp_fp p = DigestHex fingerprint worker (pp_payload p)).

Lemma newIDs_spec {A} (l : list A) : ∀ w, ∃ n ids,
  newIDs uuid l w = (mkCWorld (cw_redis w) (cw_log w) (cw_net w) (cw_mysql w) (cw_tenants w) (cw_answers w) (cw_cancelled w) n, ids) ∧
  length ids = length l ∧ Forall (λ i, i ≠ ""%string) ids.
Proof.
  induction l as [|x l IH]; intros w; [exists (cw_ids w), []; split; [by destruct w |]; by split; [| constructor] |].
  cbn. unfold mbind, cio_bind, newID. set (w1 := mkCWorld _ _ _ _ _ _ _ (S (cw_ids w))).
  destruct (IH w1) as (n & ids & -> & Hl & Hf). exists n, (uuid (cw_ids w) :: ids). split; [done |]. split; [by cbn; rewrite Hl |]. by constructor.
Qed.

Definition plan_for (p : option json) (i : string) : pushPlan :=
  mkPlan i (default empty_payload p) (if is_uniq c e then DigestHex fingerprint worker (default empty_payload p) else ""%string).

Lemma plans_sel payloads : ∀ ids claimed, 
  omap id (zip_with (λ x (ok : bool), if ok then Some (plan_for x.1 x.2) else None) (zip payloads ids) claimed)
  = sel claimed (zip_with plan_for payloads ids).
Proof.
  induction payloads as [|p payloads IH]; intros [|i ids] [|[] claimed]; try done; cbn; first [apply IH | f_equal; apply IH].
Qed.

Lemma ids_sel payloads : ∀ ids (claimed : list bool), length ids = length payloads → length claimed = length payloads →
  Forall (λ i, i ≠ ""%string) ids →
  filter (λ i, i ≠ ""%string) (zip_with (λ i (ok : bool), if ok then i else ""%string) ids claimed)
  = pp_jobID <$> sel claimed (zip_with plan_for payloads ids).
Proof.
  induction payloads as [|p payloads IH]; intros [|i ids] [|b claimed] H1 H2 Hf; try done. inversion Hf as [|? ? Hi Hf']; subst.
  injection H1 as H1. injection H2 as H2. cbn [zip_with]. specialize (IH ids claimed H1 H2 Hf'). destruct b.
  - rewrite filter_cons_True by done. rewrite IH. done.
  - rewrite filter_cons_False by (intros Hn; by apply Hn). exact IH.
Qed.

Lemma claim_commands payloads : ∀ ids,
  (λ '(w, p, j), command (SET_NX_EX (R := bool) (uniq_key w p) j t)) <$> zip_with (λ p i, (worker, default empty_payload p, i)) payloads ids
  = (λ x, command (SET_NX_EX x.1 x.2 t)) <$> (plan_lock worker <$> zip_with plan_for payloads ids).
Proof. induction payloads as [|p payloads IH]; intros [|i ids]; cbn; [done .. |]. by rewrite IH. Qed.

Lemma oks_no_error {A} (bs : list A) : first_error (Ok <$> bs) = None.
Proof. by induction bs. Qed.

Lemma oks_bools (bs : list bool) : (λ r : result bool, match r with Ok ok => ok | Bad _ => true end) <$> (Ok <$> bs) = bs.
Proof. induction bs as [|b bs IH]; [done |]. cbn. by rewrite IH. Qed.

Lemma sel_Forall {A} (P : A → Prop) flags l : Forall P l → Forall P (sel flags l).
Proof. intros H. rewrite Forall_forall in H |- *. intros x Hx. apply H. eapply elem_of_sublist; [exact Hx | apply sel_sublist]. Qed.

Lemma plans_ok payloads : ∀ ids, Forall (λ i, i ≠ ""%string) ids → Forall plan_ok (zip_with plan_for payloads ids).
Proof.
  induction payloads as [|p payloads IH]; intros [|i ids] Hf; try constructor; inversion Hf; subst; [| by apply IH].
  split; [done |]. intros Hu. cbn. by rewrite Hu.
Qed.

(** The locks of the claimed plans were free, and no other lock is touched. *)
Lemma bulk_claims_spec payloads ids w :
  quiet (cw_redis w) → UniqOnDuplicate (cl_cfg c) ≠ "raise"%string → length ids = length payloads →
  ∃ bs w', bulkUniqClaims fingerprint c e worker payloads ids w = (w', (bs, None)) ∧ length bs = length payloads ∧
    quiet (cw_redis w') ∧ cw_log w' = cw_log w ∧ cw_net w' = cw_net w ∧
    let plans := sel bs (zip_with plan_for payloads ids) in
    kdb (db w') = locks (holds_locks plans) ∪ kdb (db w) ∧ NoDup (holds_locks plans).*1 ∧
    Forall (λ k, kdb (db w) !! k = None) (holds_locks plans).*1.
Proof.
  intros Hq Hd Hl. unfold bulkUniqClaims. rewrite (proj2 (String.eqb_neq _ _) Hd).
  assert (∀ bs, is_uniq c e = false ∨ bs = [] → quiet (cw_redis w) ∧ cw_log w = cw_log w ∧ cw_net w = cw_net w ∧
    let plans := sel bs (zip_with plan_for payloads ids) in
    kdb (db w) = locks (holds_locks plans) ∪ kdb (db w) ∧ NoDup (holds_locks plans).*1 ∧
    Forall (λ k, kdb (db w) !! k = None) (holds_locks plans).*1) as Hno.
  { intros bs Hc. do 3 (split; [done |]). intros plans. assert (holds_locks plans = []) as ->.
    { unfold plans, held. destruct Hc as [-> | ->]; [done |]. by destruct (is_uniq c e). }
    change (locks []) with (∅ : gmap string rval). split; [by rewrite (left_id_L ∅ (∪)) | split; constructor]. }
  destruct payloads as [|p0 payloads]; [exists [], w; split; [done |]; split; [done |]; apply Hno; by right |].
  destruct (is_uniq c e) eqn:Hu; cbn [negb].
  2: { exists ((λ _, true) <$> (p0 :: payloads)), w. split; [done |]. split; [apply length_fmap |]. apply Hno. by left. }
  clear Hno. set (ps := p0 :: payloads) in *. unfold Uniq.ClaimMany. rewrite locker.
  pose proof (claim_commands ps ids) as Hcmd. unfold ps in *. destruct ids as [|i0 ids]; [done |].
  cbn [zip_with]. cbn [zip_with] in Hcmd. unfold mbind, cio_bind, on_redis, io_bind.
  set (l := plan_lock worker <$> _) in Hcmd.
  destruct (pipeline_quiet ((λ x, command (SET_NX_EX x.1 x.2 t)) <$> l) (cw_redis w) Hq) as (net & Ep & Hn).
  rewrite <- Hcmd in Ep. rewrite Ep.
  destruct (claims_spec t l (w_db (cw_redis w))) as (s' & bs & Er & Lb & Hk & Hnd & Hf). rewrite Hcmd, Er.
  cbn [fst snd]. rewrite oks_no_error, oks_bools. unfold mret, cio_ret, io_ret. rewrite andb_false_r.
  assert (length l = S (length payloads)) as Ll by (unfold l; cbn; rewrite length_fmap, length_zip_with; cbn in Hl; lia).
  exists bs. eexists. split; [reflexivity |]. split; [by rewrite Lb, Ll |]. do 3 (split; [done |]).
  unfold held. rewrite Hu, <- sel_fmap. by repeat split.
Qed.

(** The plans of a call hold their locks, which were free, and nothing else has changed. *)
Record claimed (plans : list pushPlan) (w w' : cworld) : Prop := {
  cm_quiet : quiet (cw_redis w'); cm_log : cw_log w' = cw_log w; cm_net : cw_net w' = cw_net w;
  cm_db : kdb (db w') = locks (holds_locks plans) ∪ kdb (db w);
  cm_nodup : NoDup (holds_locks plans).*1;
  cm_free : Forall (λ k, kdb (db w) !! k = None) (holds_locks plans).*1;
  cm_ok : Forall plan_ok plans
}.

Lemma claimed_frame plans w w' k : claimed plans w w' → k ∉ (holds_locks plans).*1 → kdb (db w') !! k = kdb (db w) !! k.
Proof. intros H Hk. rewrite (cm_db _ _ _ H), lookup_union, locks_none by done. by rewrite (left_id_L None (∪)). Qed.

Lemma claimed_held plans w w' : claimed plans w w' → Forall (λ x, kdb (db w') !! x.1 = Some (RString x.2)) (holds_locks plans).
Proof.
  intros H. rewrite Forall_forall. intros [k j] Hx. cbn [fst snd].
  rewrite (cm_db _ _ _ H), lookup_union, (locks_lookup _ k j (cm_nodup _ _ _ H) Hx). by destruct (kdb (db w) !! k).
Qed.

Lemma plan_pushes_spec payloads w :
  quiet (cw_redis w) → UniqOnDuplicate (cl_cfg c) ≠ "raise"%string →
  ∃ plans ids w', plan_pushes fingerprint uuid c e worker payloads w = (w', inl (plans, ids)) ∧ claimed plans w w' ∧
    length ids = length payloads ∧ filter (λ i, i ≠ ""%string) ids = pp_jobID <$> plans.
Proof.
  intros Hq Hd. unfold plan_pushes, mbind, cio_bind. destruct (newIDs_spec payloads w) as (n & ids & -> & Hl & Hne).
  set (w1 := mkCWorld _ _ _ _ _ _ _ n).
  destruct (bulk_claims_spec payloads ids w1 Hq Hd Hl) as (bs & w2 & -> & Lb & Hq2 & L2 & N2 & Hk & Hnd & Hf).
  exists (sel bs (zip_with plan_for payloads ids)), (zip_with (λ i (ok : bool), if ok then i else ""%string) ids bs), w2.
  split; [by rewrite <- plans_sel |]. split; [split; try done; by apply sel_Forall, plans_ok |].
  split; [rewrite length_zip_with; lia |]. by apply ids_sel.
Qed.

(** The locks of the plans are given back. *)
Lemma release_all_spec plans : ∀ w, quiet (cw_redis w) → Forall plan_ok plans → NoDup (holds_locks plans).*1 →
  Forall (λ x, kdb (db w) !! x.1 = Some (RString x.2)) (holds_locks plans) →
  ∃ w', release_all fingerprint c e worker plans w = (w', tt) ∧ quietly (λ k, k ∈ (holds_locks plans).*1) w w' ∧
    Forall (λ k, kdb (db w') !! k = None) (holds_locks plans).*1.
Proof.
  unfold held, releaseUniqWorker. destruct (is_uniq c e) eqn:Hu.
  2: { induction plans as [|p plans IH]; intros w Hq Hp _ _; [by exists w |]. cbn. unfold releaseUniqWorker. rewrite Hu. cbn.
       inversion Hp; subst. destruct (IH w Hq) as (w' & E & H'); [done | constructor | constructor |]. exists w'. split; [exact E | exact H']. }
  induction plans as [|p plans IH]; intros w Hq Hp Hnd Hf; [exists w; split; [done |]; split; [by split | constructor] |].
  inversion Hp as [|? ? [Hj Hfp] Hp']; subst. specialize (Hfp Hu). cbn in Hnd, Hf. inversion Hnd as [|? ? Hk0 Hnd']; subst. inversion Hf as [|? ? Hk Hf']; subst.
  cbn [fst snd plan_lock] in Hk.
  set (k0 := uniq_key worker (pp_payload p)) in *. cbn [release_all]. unfold releaseUniqWorker, mbind, cio_bind. rewrite Hu. cbn [negb].
  rewrite Hfp, digest_nonempty, locker. unfold Uniq.Release, Uniq.ReleaseLock. rewrite digest_nonempty, (proj2 (String.eqb_neq _ _) Hj), digest_lock. cbn [orb].
  destruct (do_quiet (Client.call (Uniq.releaseLua k0 (pp_jobID p))) (cw_redis w) Hq) as (net & Ed & Hn).
  assert (Client.call (Uniq.releaseLua k0 (pp_jobID p)) (db w) = (del_key k0 (db w), Ok 1)) as Ec.
  { unfold Client.call, Uniq.releaseLua, run, mbind, script_bind, GET, lift, get_string. rewrite Hk. cbn. by rewrite decide_True. }
  change (w_db (cw_redis w)) with (db w) in Ed. rewrite Ec in Ed. unfold on_redis, mbind, io_bind. fold k0. rewrite Ed. cbn [fst snd].
  set (w1 := mkCWorld (World (del_key k0 (db w)) net) (cw_log w) (cw_net w) (cw_mysql w) (cw_tenants w) (cw_answers w) (cw_cancelled w) (cw_ids w)).
  destruct (IH w1) as (w' & E' & [Q' L' N' F'] & Hd'); [done | done | done | |].
  { rewrite Forall_forall in Hf' |- *. intros x Hx. rewrite <- (Hf' x Hx). apply lookup_delete_ne.
    intros E. apply Hk0. rewrite E. apply list_elem_of_fmap. by exists x. }
  exists w'. split; [exact E' |]. split.
  - split; [done | done | done |]. intros k Hk'. cbn in Hk'. rewrite F' by set_solver. apply lookup_delete_ne. set_solver.
  - cbn. constructor; [| done]. rewrite F' by done. apply lookup_delete_eq.
Qed.
End locked.

(** ** Pushing *)

Lemma add_jobs_zero b : (add_jobs 0 b).2 = b.
Proof. unfold add_jobs. destruct (_ || _); [done |]. rewrite Z.add_0_r. by destruct b. Qed.

Lemma add_jobs_add n m b : (add_jobs m (add_jobs n b).2).2 = (add_jobs (n + m) b).2.
Proof.
  unfold add_jobs. destruct (_ || _ || b_any b) eqn:E; cbn [snd]; [by rewrite E |].
  unfold b_finished in *. cbn [b_status b_any]. rewrite E. cbn. by rewrite Z.add_assoc.
Qed.

Lemma add_jobs_open n m b : (add_jobs m (add_jobs n b).2).1 = (add_jobs n b).1.
Proof.
  unfold add_jobs. destruct (_ || _ || b_any b) eqn:E; cbn [fst snd]; [by rewrite E |].
  unfold b_finished in *. cbn [b_status b_any]. by rewrite E.
Qed.

Definition is_lock (k : string) : Prop := ∃ t, k = (Uniq.KeyPrefix +:+ t)%string.

Lemma lock_not_ledger k : is_lock k → ¬ ledger_key k.
Proof. intros [t ->] [[u E] | [E | [E | [E | E]]]]; discriminate E. Qed.
Lemma lock_not_tenant k : is_lock k → ¬ tenant_key k.
Proof. intros [t ->] [u E]; discriminate E. Qed.
Lemma lock_not_pending k : is_lock k → k ≠ pendingKey.
Proof. intros [t ->] E; discriminate E. Qed.
Lemma ledger_not_tenant k : ledger_key k → ¬ tenant_key k.
Proof. intros [[u ->] | [-> | [-> | [-> | ->]]]] [t E]; try discriminate E. Qed.
Lemma ledger_not_pending k : ledger_key k → k ≠ pendingKey.
Proof. intros [[u ->] | [-> | [-> | [-> | ->]]]] E; try discriminate E. Qed.

Lemma held_locks c e worker plans : Forall is_lock (held c e worker plans).*1.
Proof.
  unfold held. destruct (is_uniq c e); [| constructor]. rewrite Forall_forall. intros k. rewrite list_elem_of_fmap.
  intros ([k' j] & -> & (p & [= -> ->] & _)%list_elem_of_fmap). by eexists.
Qed.

Lemma sel_split_keys {A} (f : A → string) g : ∀ l x y, NoDup (f <$> l) → x ∈ sel g l → y ∈ sel (negb <$> g) l → f x ≠ f y.
Proof.
  induction g as [|b g IH]; intros [|z l] x y Hn Hx Hy E; [by apply not_elem_of_nil in Hx .. |].
  inversion Hn as [|? ? Hz Hn']; subst. 
  assert (∀ h v, v ∈ sel h l → f v ∈ (f <$> l)) as Hin.
  { intros h v Hv. apply list_elem_of_fmap. exists v. split; [done |]. eapply elem_of_sublist; [exact Hv | apply sel_sublist]. }
  destruct b; cbn in Hx, Hy.
  - apply elem_of_cons in Hx as [-> | Hx]; [apply Hz; rewrite E; by apply (Hin (negb <$> g)) | by apply (IH l x y)].
  - apply elem_of_cons in Hy as [-> | Hy]; [apply Hz; rewrite <- E; by apply (Hin g) | by apply (IH l x y)].
Qed.

Lemma held_sel c e worker g plans : held c e worker (sel g plans) = sel g (held c e worker plans).
Proof. unfold held. destruct (is_uniq c e); [by rewrite sel_fmap | by rewrite sel_nil]. Qed.

Lemma sel_or {A} g : ∀ (l : list A) x, length g = length l → x ∈ l → x ∈ sel g l ∨ x ∈ sel (negb <$> g) l.
Proof.
  induction g as [|b g IH]; intros [|y l] x Hl Hx; try done; [by apply not_elem_of_nil in Hx |]. injection Hl as Hl.
  apply elem_of_cons in Hx as [-> | Hx]; [destruct b; cbn; [left | right]; by apply elem_of_cons; left |].
  destruct (IH l x Hl Hx); [left | right]; destruct b; cbn; by try (apply elem_of_cons; right).
Qed.

(** After the locks of the plans that were not produced are given back, those of the others remain. *)
Lemma locks_left c e worker plans g (s1 s2 s : gmap string rval) k :
  length g = length plans → NoDup (held c e worker plans).*1 → Forall (λ k, s !! k = None) (held c e worker plans).*1 →
  s1 !! k = (locks (held c e worker plans) ∪ s) !! k →
  (k ∉ (held c e worker (sel (negb <$> g) plans)).*1 → s2 !! k = s1 !! k) →
  (k ∈ (held c e worker (sel (negb <$> g) plans)).*1 → s2 !! k = None) →
  s2 !! k = (locks (held c e worker (sel g plans)) ∪ s) !! k.
Proof.
  intros Hg Hn Hfr H1 H2 H3. rewrite !held_sel in *. set (L := held c e worker plans) in *.
  rewrite Forall_forall in Hfr. assert (NoDup (sel g L).*1) as Hng.
  { rewrite <- sel_fmap. eapply sublist_NoDup; [done | apply sel_sublist]. }
  destruct (decide (k ∈ (sel (negb <$> g) L).*1)) as [Hk|Hk].
  - rewrite (H3 Hk). apply list_elem_of_fmap in Hk as ([k' j] & -> & Hk). cbn [fst].
    rewrite lookup_union_None_2; [done | |].
    + apply locks_none. intros ([k2 j2] & E & Hk2)%list_elem_of_fmap. by eapply (sel_split_keys fst g L).
    + apply Hfr, list_elem_of_fmap. exists (k', j). split; [done |]. eapply elem_of_sublist; [exact Hk | apply sel_sublist].
  - rewrite (H2 Hk), H1. rewrite !lookup_union.
    destruct (decide (k ∈ (sel g L).*1)) as [Hs|Hs].
    + apply list_elem_of_fmap in Hs as ([k' j] & -> & Hs). cbn [fst]. rewrite (locks_lookup (sel g L) k' j), (locks_lookup L k' j); [done | done | | done | done].
      eapply elem_of_sublist; [exact Hs | apply sel_sublist].
    + rewrite !locks_none; [done | done |]. intros ([k' j] & -> & Hl)%list_elem_of_fmap.
      assert (L = [] ∨ length g = length L) as [El | El] by (unfold L, held; destruct (is_uniq c e); [right; by rewrite length_fmap | by left]).
      { rewrite El in Hl. by apply not_elem_of_nil in Hl. }
      destruct (sel_or g L (k', j) El Hl) as [H|H]; [apply Hs | apply Hk]; apply list_elem_of_fmap; by exists (k', j).
Qed.

Section push.
Context (c : Client) (st : RedisStore) (t : Z) (hb : BatchHandle) (e : HandlerEntry) (worker : string).
Hypothesis store : cl_store c = Some st.
Hypothesis locker : cl_uniq c = Some t.

Notation lock_in plans := (λ k, k ∈ (held c e worker plans).*1).

Lemma lock_in_not_ledger plans k : lock_in plans k → ¬ ledger_key k.
Proof. intros Hk. apply lock_not_ledger. pose proof (held_locks c e worker plans) as H. rewrite Forall_forall in H. by apply H. Qed.

(** Rolling back gives the locks of the plans that were not produced and their slots back. *)
Lemma rollback_spec plans g b q w :
  quiet (cw_redis w) → at_batch (bh_id hb) b q (db w) → length g = length plans → Forall (plan_ok c e worker) plans →
  NoDup (held c e worker plans).*1 → Forall (λ x, kdb (db w) !! x.1 = Some (RString x.2)) (held c e worker plans) →
  ∃ w', rollbackPlans fingerprint c hb e worker plans g w = (w', tt) ∧
    at_batch (bh_id hb) (add_jobs (- Z.of_nat (length (sel (negb <$> g) plans))) b).2 q (db w') ∧
    quietly (λ k, ledger_key k ∨ lock_in (sel (negb <$> g) plans) k) w w' ∧
    Forall (λ k, kdb (db w') !! k = None) (held c e worker (sel (negb <$> g) plans)).*1.
Proof.
  intros Hq Hb Hg Hp Hn Hh. unfold rollbackPlans. rewrite (unproduced_sel g plans Hg). set (left := sel (negb <$> g) plans).
  destruct (release_all_spec c e worker t locker left w) as (w1 & E1 & [Q1 L1 N1 F1] & H1); [done | by apply sel_Forall | | |].
  { unfold left. rewrite held_sel, <- sel_fmap. eapply sublist_NoDup; [exact Hn | apply sel_sublist]. }
  { unfold left. rewrite held_sel. by apply sel_Forall. }
  assert (at_batch (bh_id hb) b q (db w1)) as Hb1.
  { eapply at_batch_same; [| exact Hb]. intros k Hk. apply F1. intros Hl. by eapply lock_in_not_ledger. }
  unfold mbind, cio_bind. rewrite E1. destruct left as [|p left0] eqn:El; rewrite <- El in *.
  - exists w1. rewrite El. cbn. rewrite add_jobs_zero. split; [done |]. split; [done |]. rewrite <- El. split; [| done]. split; [done .. |].
    intros k Hk. apply F1. tauto.
  - destruct (AddJobs_spec st (bh_id hb) (- Z.of_nat (length left)) b q w1 Q1 Hb1) as (w2 & res & E2 & [Q2 L2 N2 F2] & Hb2 & _).
    unfold give_back, mbind, cio_bind. rewrite store, E2. exists w2. split; [done |]. split.
    + assert ((0 <? - Z.of_nat (length left)) = false) as Hz by (apply Z.ltb_ge; lia). by rewrite Hz, andb_false_r in Hb2.
    + split; [split; [done | by rewrite L2 | by rewrite N2 | intros k Hk; rewrite F2, F1 by tauto; done] |].
      rewrite Forall_forall in H1 |- *. intros k Hk. rewrite F2 by (by eapply lock_in_not_ledger). by apply H1.
Qed.

(** The lock of a job. *)
Definition job_lock (j : JobMessage) : string * string := (uniq_key (J_WorkerClass j) (default empty_payload (J_Payload j)), J_JobID j).

Definition job_locks (js : list JobMessage) : list (string * string) := if is_uniq c e then job_lock <$> js else [].

(** What a push did: the jobs [js] are in Kafka as [new] (and in the index, if they are delayed), the batch counts exactly
    these, each has a slot of its own, and of the uniqueness locks just those of these jobs were taken, all of them free. *)
Record pushed (delayed : bool) (b : batch) (q : Z) (w w' : cworld) (js : list JobMessage) (new : list placed) : Prop := {
  pu_log : cw_log w' = cw_log w ++ new;
  pu_kept : Forall2 (kept delayed w') js new;
  pu_batch : ∃ q' seqs, at_batch (bh_id hb) (add_jobs (Z.of_nat (length new)) b).2 q' (db w') ∧
    Forall2 (λ j s, J_BatchID j = Some (bh_id hb) ∧ J_BatchSeq j = Some s) js seqs ∧
    StronglySorted Z.lt seqs ∧ Forall (λ s, q < s <= q') seqs;
  pu_locks : ∀ k, is_lock k → kdb (db w') !! k = (locks (job_locks js) ∪ kdb (db w)) !! k;
  pu_free : Forall (λ k, kdb (db w) !! k = None) (job_locks js).*1
}.

Lemma message_fields k p s :
  J_BatchID (message_of c k p s) = bk_batch k ∧ J_BatchSeq (message_of c k p s) = match bk_batch k with Some _ => s | None => None end ∧
  (bk_worker k = worker → job_lock (message_of c k p s) = plan_lock worker p).
Proof.
  unfold plan_message, with_tenant. set (j := buildWorkerMessage _ _ _ _ _ _ _ _ _ _ _ _).
  destruct (J_TenantID j), (nonempty (bk_tenant k)); (split; [done |]; split; [done |]; by intros <-).
Qed.

Lemma messages_locks k plans : ∀ seqs, bk_worker k = worker → length seqs = length plans →
  job_locks (zip_with (message_of c k) plans seqs) = held c e worker plans.
Proof.
  intros seqs Hk. unfold job_locks, held. destruct (is_uniq c e); [| done]. revert seqs.
  induction plans as [|p plans IH]; intros [|s seqs] Hl; try done. cbn. f_equal; [by apply message_fields |]. apply IH. by injection Hl.
Qed.

Lemma job_locks_sel g js : job_locks (sel g js) = sel g (job_locks js).
Proof. unfold job_locks. destruct (is_uniq c e); [by rewrite sel_fmap | by rewrite sel_nil]. Qed.

Lemma sel_length {A} g : ∀ l : list A, length g = length l → (length (sel g l) + length (sel (negb <$> g) l))%nat = length l.
Proof. induction g as [|[] g IH]; intros [|x l] Hl; try done; injection Hl as Hl; specialize (IH l Hl); cbn; unfold sel in IH; lia. Qed.

Lemma seqZ_sorted a n : StronglySorted Z.lt (seqZ a (Z.of_nat n)).
Proof.
  revert a. induction n as [|n IH]; intros a; [rewrite seqZ_nil by lia; constructor |]. rewrite seqZ_cons by lia. constructor.
  - replace (Z.pred (Z.of_nat (S n))) with (Z.of_nat n) by lia. apply IH.
  - apply Forall_forall. intros x Hx%elem_of_seqZ. lia.
Qed.

Lemma sorted_sublist (l l' : list Z) : l `sublist_of` l' → StronglySorted Z.lt l' → StronglySorted Z.lt l.
Proof.
  induction 1 as [|x l l' Hl IH|x l l' Hl IH]; intros H; [done | | apply IH; by inversion H].
  inversion H as [|? ? Hs Hf]; subst. constructor; [by apply IH |]. rewrite Forall_forall in Hf |- *. intros y Hy. apply Hf. by eapply elem_of_sublist.
Qed.

(** The messages of a push carry the batch and the slots. *)
Lemma messages_slots k plans : ∀ a, bk_batch k = Some (bh_id hb) →
  Forall2 (λ j s, J_BatchID j = Some (bh_id hb) ∧ J_BatchSeq j = Some s)
    (zip_with (message_of c k) plans (Some <$> seqZ a (Z.of_nat (length plans)))) (seqZ a (Z.of_nat (length plans))).
Proof.
  intros a Hk. revert a. induction plans as [|p plans IH]; intros a; [by rewrite seqZ_nil by (cbn; lia); constructor |].
  rewrite seqZ_cons by (cbn; lia). replace (Z.pred (Z.of_nat (length (p :: plans)))) with (Z.of_nat (length plans)) by (cbn; lia).
  cbn. constructor; [| apply IH]. destruct (message_fields k p (Some a)) as (-> & -> & _). by rewrite Hk.
Qed.

Lemma Forall2_sel {A B} (R : A → B → Prop) g l l' : Forall2 R l l' → Forall2 R (sel g l) (sel g l').
Proof. intros H. revert g. induction H; intros [|[] g]; cbn; try constructor; auto; apply IHForall2. Qed.

Lemma message_ids k plans : ∀ seqs, length seqs = length plans → J_JobID <$> zip_with (message_of c k) plans seqs = pp_jobID <$> plans.
Proof.
  induction plans as [|p plans IH]; intros [|s seqs] Hl; try done. cbn. f_equal; [| apply IH; by injection Hl].
  unfold plan_message, with_tenant. set (j := buildWorkerMessage _ _ _ _ _ _ _ _ _ _ _ _). by destruct (J_TenantID j), (nonempty (bk_tenant k)).
Qed.

Lemma sel_same_length {A B} g : ∀ (l : list A) (l' : list B), length l = length l' → length (sel g l) = length (sel g l').
Proof. induction g as [|[] g IH]; intros [|x l] [|y l'] Hl; try done; injection Hl as Hl; cbn; [f_equal |]; by apply IH. Qed.

(** The end of a push: what was delivered, and what was given back. *)
Lemma settle_pushed k plans g w w1 w4 b q new at_ :
  bk_worker k = worker → bk_batch k = Some (bh_id hb) → length g = length plans → 0 <= q →
  claimed c e worker plans w w1 → cw_log w4 = cw_log w ++ new →
  Forall2 (kept (is_delayed at_) w4) (sel g (zip_with (message_of c k) plans (Some <$> seqZ (q + 1) (Z.of_nat (length plans))))) new →
  at_batch (bh_id hb) (add_jobs (Z.of_nat (length (sel g plans))) b).2 (q + Z.of_nat (length plans)) (db w4) →
  (∀ k, is_lock k → k ∉ (held c e worker (sel (negb <$> g) plans)).*1 → kdb (db w4) !! k = kdb (db w1) !! k) →
  Forall (λ k, kdb (db w4) !! k = None) (held c e worker (sel (negb <$> g) plans)).*1 →
  pushed (is_delayed at_) b q w w4 (sel g (zip_with (message_of c k) plans (Some <$> seqZ (q + 1) (Z.of_nat (length plans))))) new.
Proof.
  intros Hw Hb Hg Hq [_ _ _ Hk Hn Hf _] Hl Hkept Hat Hsame Hgone.
  set (seqs := Some <$> seqZ (q + 1) (Z.of_nat (length plans))) in *. set (js := zip_with (message_of c k) plans seqs) in *.
  assert (length seqs = length plans) as Ls by (unfold seqs; rewrite length_fmap, length_seqZ; lia).
  assert (job_locks (sel g js) = held c e worker (sel g plans)) as El.
  { rewrite job_locks_sel. unfold js. by rewrite messages_locks, held_sel. }
  assert (length new = length (sel g plans)) as Ln.
  { apply Forall2_length in Hkept. rewrite <- Hkept. apply sel_same_length. unfold js. rewrite length_zip_with. lia. }
  rewrite Forall_forall in Hgone. split.
  - done.
  - done.
  - exists (q + Z.of_nat (length plans)), (sel g (seqZ (q + 1) (Z.of_nat (length plans)))). rewrite Ln. split; [done |].
    split; [by apply Forall2_sel, messages_slots |]. split; [eapply sorted_sublist; [apply sel_sublist | apply seqZ_sorted] |].
    apply sel_Forall, Forall_forall. intros x Hx%elem_of_seqZ. lia.
  - intros k' Hk'. rewrite El. eapply (locks_left c e worker plans g (kdb (db w1))); [done | done | done | by rewrite Hk | by apply Hsame | by apply Hgone].
  - rewrite El. rewrite held_sel, <- sel_fmap. by apply sel_Forall.
Qed.

Lemma pushed_nothing d b q w w' :
  at_batch (bh_id hb) b q (db w') → cw_log w' = cw_log w → (∀ k, is_lock k → kdb (db w') !! k = kdb (db w) !! k) →
  pushed d b q w w' [] [].
Proof.
  intros Hb Hl Hk. assert (job_locks [] = []) as E by (unfold job_locks; by destruct (is_uniq c e)). split.
  - by rewrite app_nil_r.
  - constructor.
  - exists q, []. cbn. rewrite add_jobs_zero. split; [done |]. repeat constructor.
  - intros k Hk'. rewrite E. change (locks []) with (∅ : gmap string rval). rewrite (left_id_L ∅ (∪)). auto.
  - rewrite E. constructor.
Qed.

Lemma lock_in_lock plans k : lock_in plans k → is_lock k.
Proof. pose proof (held_locks c e worker plans) as H. rewrite Forall_forall in H. apply H. Qed.

Lemma lock_in_sel g plans k : lock_in (sel g plans) k → lock_in plans k.
Proof. cbn. rewrite held_sel, <- sel_fmap. intros H. eapply elem_of_sublist; [exact H | apply sel_sublist]. Qed.

Lemma still_held plans w w1 w' : claimed c e worker plans w w1 → (∀ k, is_lock k → kdb (db w') !! k = kdb (db w1) !! k) →
  Forall (λ x, kdb (db w') !! x.1 = Some (RString x.2)) (held c e worker plans).
Proof.
  intros Hc Hs. pose proof (claimed_held _ _ _ _ _ _ Hc) as H. rewrite Forall_forall in H |- *. intros x Hx.
  rewrite Hs; [by apply H |]. apply (lock_in_lock plans), list_elem_of_fmap. by exists x.
Qed.

Lemma kept_same d w w' j p : kdb (db w') !! pendingKey = kdb (db w) !! pendingKey → kept d w j p → kept d w' j p.
Proof.
  intros E [Hc Hp]. split; [done |]. intros Hd. destruct (Hp Hd) as (z & Hz & Hm). exists z. split; [| done].
  rewrite <- Hz. apply same_get_zset. exact E.
Qed.

(** The batch was closed: every lock is given back. *)
Lemma closed_settles d plans b q w w1 w2 :
  claimed c e worker plans w w1 → quietly ledger_key w1 w2 → at_batch (bh_id hb) b q (db w2) →
  ∃ w', release_all fingerprint c e worker plans w2 = (w', tt) ∧ pushed d b q w w' [] [].
Proof.
  intros Hc [Q2 L2 _ F2] Hb. assert (∀ k, is_lock k → kdb (db w2) !! k = kdb (db w1) !! k) as S2 by (intros k Hk; apply F2; by apply lock_not_ledger).
  destruct (release_all_spec c e worker t locker plans w2 Q2 (cm_ok _ _ _ _ _ _ Hc) (cm_nodup _ _ _ _ _ _ Hc) (still_held plans w w1 w2 Hc S2))
    as (w3 & E & [Q3 L3 N3 F3] & G3).
  exists w3. split; [done |]. apply pushed_nothing; [| rewrite L3, L2; apply Hc |].
  - eapply at_batch_same; [| exact Hb]. intros k Hk. apply F3. intros Hl. by eapply lock_in_not_ledger.
  - intros k Hk. destruct (decide (lock_in plans k)) as [Hin|Hin]; [| rewrite F3, S2 by done; by eapply claimed_frame].
    pose proof (cm_free _ _ _ _ _ _ Hc) as Fr. rewrite Forall_forall in G3, Fr. by rewrite G3, Fr.
Qed.

(** The slots were reserved: the jobs are sent, and what was not is given back. *)
Lemma open_settles k plans (ids : list string) at_ b q w w1 w2 :
  bk_worker k = worker → bk_batch k = Some (bh_id hb) → 0 <= q → certain (cw_net w) → index_ready c at_ w →
  claimed c e worker plans w w1 → quietly ledger_key w1 w2 →
  at_batch (bh_id hb) (add_jobs (Z.of_nat (length plans)) b).2 (q + Z.of_nat (length plans)) (db w2) →
  let '(w', r) := (x ← deliver_all fingerprint place nano_parse c k at_ plans (Some (mkWindow (q + 1) (q + Z.of_nat (length plans))));
    match x with
    | (flags, Some err) => rollbackPlans fingerprint c hb e worker plans flags;; mret (inr err)
    | (_, None) => mret (inl ids)
    end : cio (list string + cerror)) w2 in
  ∃ js new, pushed (is_delayed at_) b q w w' js new ∧ match r with inl l => l = ids ∧ J_JobID <$> js = pp_jobID <$> plans | inr _ => True end.
Proof.
  intros Hw Hk Hq Hn Hi Hc [Q2 L2 N2 F2] Hb2. assert (∀ k, is_lock k → kdb (db w2) !! k = kdb (db w1) !! k) as S2 by (intros k' Hk'; apply F2; by apply lock_not_ledger).
  unfold mbind, cio_bind.
  destruct (deliver_all_spec c k at_ plans (Some (mkWindow (q + 1) (q + Z.of_nat (length plans)))) (Some <$> seqZ (q + 1) (Z.of_nat (length plans))) w2)
    as (g & flags & err & new & w3 & -> & [Q3 N3 L3 F3] & Lg & Kg & Hnone & Hsome).
  { done. } { by rewrite N2, (cm_net _ _ _ _ _ _ Hc). }
  { intros Hdel. destruct (Hi Hdel) as [Hs [z Hz]]. split; [done |]. exists z. rewrite <- Hz. apply same_get_zset. unfold same_at.
    rewrite F2 by (intros Hl; by apply ledger_not_pending in Hl). eapply claimed_frame; [exact Hc |]. intros Hl%lock_in_lock. by apply lock_not_pending in Hl. }
  { apply grants_window; lia. } { rewrite length_fmap, length_seqZ. lia. }
  set (js := zip_with (message_of c k) plans (Some <$> seqZ (q + 1) (Z.of_nat (length plans)))) in *.
  assert (∀ k, is_lock k → kdb (db w3) !! k = kdb (db w1) !! k) as S3.
  { intros k' Hk'. rewrite F3 by (by apply lock_not_tenant || apply lock_not_pending). by apply S2. }
  assert (cw_log w3 = cw_log w ++ new) as L13 by (by rewrite L3, L2, (cm_log _ _ _ _ _ _ Hc)).
  assert (at_batch (bh_id hb) (add_jobs (Z.of_nat (length plans)) b).2 (q + Z.of_nat (length plans)) (db w3)) as Hb3.
  { eapply at_batch_same; [| exact Hb2]. intros k' Hk'. apply F3; [by apply ledger_not_tenant | by apply ledger_not_pending]. }
  pose proof (sel_length g plans Lg) as Hsl. destruct err as [err|].
  - rewrite (Hsome ltac:(by eexists)).
    destruct (rollback_spec plans g _ _ w3 Q3 Hb3 Lg (cm_ok _ _ _ _ _ _ Hc) (cm_nodup _ _ _ _ _ _ Hc) (still_held _ _ _ _ Hc S3))
      as (w4 & -> & Hb4 & [Q4 L4 N4 F4] & G4).
    exists (sel g js), new. split; [| done]. rewrite add_jobs_add in Hb4.
    replace (Z.of_nat (length plans) + - _) with (Z.of_nat (length (sel g plans))) in Hb4 by lia.
    eapply (settle_pushed k plans g w w1 w4); try done; [by rewrite L4 | |].
    + eapply Forall2_impl; [exact Kg |]. intros j p. apply kept_same, F4.
      intros [Hl | Hl%lock_in_sel%lock_in_lock]; [by apply ledger_not_pending in Hl | by apply lock_not_pending in Hl].
    + intros k' Hk' Hl. rewrite F4; [by apply S3 |]. intros [H'|H']; [by apply (lock_not_ledger k') | done].
  - exists (sel g js), new. assert (∀ A (l : list A), length l = length plans → sel g l = l) as Hall
      by (intros A l Hll; apply sel_true; [by apply Hnone | by rewrite Lg]).
    assert (sel (negb <$> g) plans = []) as Hnil by (rewrite Hall in Hsl by done; destruct (sel (negb <$> g) plans); [done | cbn in Hsl; lia]).
    split; [| split; [done |]; rewrite Hall by (unfold js; rewrite length_zip_with, length_fmap, length_seqZ; lia); unfold js;
              by rewrite message_ids by (rewrite length_fmap, length_seqZ; lia)].
    eapply (settle_pushed k plans g w w1 w3); try done; [by rewrite Hall | by intros; apply S3 |].
    rewrite Hnil. unfold held. destruct (is_uniq c e); constructor.
Qed.

(** C30: pushing jobs into a batch keeps its books, whatever records the brokers refuse.  While Redis answers, every record is
    acknowledged or refused (none is left uncertain), duplicates are not raised as errors (uniq_on_duplicate other than "raise")
    and delayed jobs go to the schedule index in Redis: afterwards the batch counts exactly the jobs that are in Kafka
    (and in the index of delayed jobs), each with a slot of its own that no earlier job had, and the uniqueness locks taken are
    those of these jobs.  A call that succeeds has pushed every job it returns an id for. *)
Theorem push_many_accounts now jobType at_ payloads o b q w :
  quiet (cw_redis w) → certain (cw_net w) → index_ready c at_ w → UniqOnDuplicate (cl_cfg c) ≠ "raise"%string →
  at_batch (bh_id hb) b q (db w) → 0 <= q →
  let '(w', r) := push_many fingerprint uuid place nano_parse c now hb e jobType worker at_ payloads o w in
  ∃ js new, pushed (is_delayed at_) b q w w' js new ∧
    match r with
    | inl ids => length ids = length payloads ∧ J_JobID <$> js = filter (λ i, i ≠ ""%string) ids
    | inr _ => True
    end.
Proof.
  intros Hq Hn Hi Hd Hb Hq0. unfold push_many, mbind, cio_bind.
  destruct (plan_pushes_spec c e worker t locker payloads w Hq Hd) as (plans & ids & w1 & -> & Hc & Lid & Ids).
  assert (at_batch (bh_id hb) b q (db w1)) as Hb1.
  { eapply at_batch_same; [| exact Hb]. intros k Hk. eapply claimed_frame; [exact Hc |]. intros Hl. by eapply lock_in_not_ledger. }
  destruct (decide (plans = [])) as [->|Hne].
  { exists [], []. split; [| by rewrite Ids]. apply pushed_nothing; [done | apply Hc |]. intros k _. eapply claimed_frame; [exact Hc |].
    unfold held. by destruct (is_uniq c e); intros ?%not_elem_of_nil. }
  assert (0 < Z.of_nat (length plans)) as Hpos by (destruct plans; [done | cbn; lia]).
  set (k := mkBulk now e jobType worker (tenantID o (bh_tenantID hb)) (Some (bh_id hb)) o).
  pose proof (open_settles k plans ids at_ b q w w1) as Hopen. pose proof (closed_settles (is_delayed at_) plans b q w w1) as Hclosed.
  destruct (AddJobs_spec st (bh_id hb) (Z.of_nat (length plans)) b q w1 (cm_quiet _ _ _ _ _ _ Hc) Hb1) as (w2 & res & E2 & Q2 & Hb2 & Hres).
  specialize (Hopen w2 eq_refl eq_refl Hq0 Hn Hi Hc Q2). specialize (Hclosed w2 Hc Q2).
  destruct plans as [|p0 plans0]; [done |]. set (plans := p0 :: plans0) in *.
  unfold reserve, mbind, cio_bind, mret, cio_ret in *. rewrite store, E2.
  destruct (add_jobs (Z.of_nat (length plans)) b).1 eqn:Eopen.
  - destruct Hres as [-> Hwin]. destruct (Hwin Hpos) as [-> ->]. cbn [String.eqb Ascii.eqb Bool.eqb].
    rewrite (proj2 (Z.ltb_lt _ _) Hpos) in Hb2. cbn [andb] in Hb2. specialize (Hopen Hb2).
    destruct (deliver_all _ _ _ _ _ _ _ _ _) as [w3 [flags [err|]]].
    + destruct (rollbackPlans _ _ _ _ _ _ _ _) as [w4 []]. exact Hopen.
    + destruct Hopen as (js & new & Hp & _ & Hj). exists js, new. split; [done |]. by rewrite Ids.
  - destruct Hclosed as (w3 & E3 & Hp).
    { unfold add_jobs in Hb2, Eopen. destruct (_ || _ || b_any b); [exact Hb2 | done]. }
    destruct Hres as [-> | ->]; cbn [String.eqb Ascii.eqb Bool.eqb]; rewrite E3; by exists [], [].
Qed.
End push.
End client.

(** ** Concrete runs *)

From S2P Require Import Concrete EventsProps.

(** A fingerprint of sixteen bytes, ids, and records placed one after the other in one partition. *)
Fixpoint cut (n : nat) (s : string) : string :=
  match n, s with
  | O, _ => EmptyString
  | S n, EmptyString => String Ascii.Space (cut n EmptyString)
  | S n, String c r => String c (cut n r)
  end.

Lemma cut_length n : ∀ s, String.length (cut n s) = n.
Proof. induction n as [|n IH]; intros [|c s]; cbn; by rewrite ?IH. Qed.

Definition demo_print (worker : string) (p : json) : string := cut 16 match p with JOther t => t | _ => ""%string end.
Definition demo_ids (n : nat) : string := ("u" +:+ itoa (Z.of_nat n))%string.
Definition demo_place (log : list placed) (_ : ProduceRecord) : Z * Z := (0, Z.of_nat (length log)).

Definition demo_config (onDuplicate : string) : Config :=
  mkConfig "" "jobs" "scheduled" "callbacks" 7 true onDuplicate 3 (30 * 24 * 3600 * 1000000000) 500 "fair_time" "fair_throughput" ∅ ∅ false.

Definition demo_handler : HandlerEntry := mkHandlerEntry "go" "" "" false 0 "" "" true.
Definition demo_store : RedisStore := mkStore (7 * 24 * 3600 * 1000000000) 0.

Definition demo_client (onDuplicate : string) : Client :=
  Enqueue.mkClient (demo_config onDuplicate) {["t"%string := demo_handler]} (Some demo_store) redisScheduleIndex (Some 604800) ∅.

Definition open_b1 : redis :=
  (run (createBatch (batchKey "b1") "b1" (itoa 0) "" "" "" "2024-01-01T00:00:00Z" 604800 "" "" "" "") empty_redis).1.

Lemma open_b1_at : at_batch "b1" (fresh_batch 0 false) 0 open_b1.
Proof.
  split; [| vm_compute; reflexivity]. unfold open_b1.
  destruct (run_of _ _ _ (create_refines "b1" empty_redis 0 "" "" "" "2024-01-01T00:00:00Z"
    604800 "" "" "" "" eq_refl eq_refl eq_refl eq_refl
    ltac:(split; [exists ∅; by split | eexists; reflexivity ..])
    ltac:(eexists; reflexivity))) as (r & _ & _ & H). exact H.
Qed.

Definition world_with (db : redis) (net : list delivery) : cworld :=
  mkCWorld (World db []) [] net (mkIndexDB ∅ [] [] ∅) None [] None 0.

Definition b1 : BatchHandle := mkHandle "b1" "" "" None "" "".
Definition no_options : PushOptions := mkPush "" "" "".
Definition three_payloads : list (option json) := [Some (JOther "1"); Some (JOther "2"); Some (JOther "3")].

(** Three jobs are pushed and the second record is refused. *)
Definition pushed_three : cworld * (list string + cerror) :=
  push_many demo_print demo_ids demo_place (λ _, None) (demo_client "skip") 0 b1 demo_handler "t" "go:t" None three_payloads no_options
    (world_with open_b1 [Acked; Refused; Acked]).

Lemma push_many_accounts_witness :
  (∃ js new, pushed demo_print (demo_client "skip") b1 demo_handler false (fresh_batch 0 false) 0
     (world_with open_b1 [Acked; Refused; Acked]) pushed_three.1 js new) ∧
  length (cw_log pushed_three.1) = 2%nat ∧ (∃ e, pushed_three.2 = inr e).
Proof.
  split; [| split; [vm_compute; reflexivity | eexists; vm_compute; reflexivity]].
  assert (∀ w p, String.length (demo_print w p) = 16%nat) as H16 by (intros w p; apply cut_length).
  assert (∀ n, demo_ids n ≠ ""%string) as Hid by done.
  pose proof (push_many_accounts demo_print demo_ids demo_place (λ _, None) H16 Hid (demo_client "skip") demo_store 604800 b1 demo_handler "go:t"
    eq_refl eq_refl 0 "t" None three_payloads no_options (fresh_batch 0 false) 0 (world_with open_b1 [Acked; Refused; Acked])
    ltac:(constructor) ltac:(repeat constructor; discriminate) ltac:(discriminate) ltac:(discriminate) open_b1_at ltac:(lia)) as H.
  unfold pushed_three. destruct (push_many _ _ _ _ _ _ _ _ _ _ _ _ _ _) as [w' r]. destruct H as (js & new & H & _). by exists js, new.
Defined.

Definition total_of (w : cworld) : option string := match get_hash (db w) (batchKey "b1") with Some h => h !! "total_jobs"%string | None => None end.

Notation push_to_b1 dup at_ ps w := (push_many demo_print demo_ids demo_place (λ _, None) (demo_client dup) 0 b1 demo_handler "t" "go:t" at_ ps no_options w).

(** With uniq_on_duplicate "raise", a bulk push that meets a duplicate pushes nothing and keeps the locks it took: a payload that
    was never enqueued is refused as a duplicate afterwards. *)
Definition refused_push : cworld * (list string + cerror) :=
  push_to_b1 "raise" None [Some (JOther "1"); Some (JOther "2"); Some (JOther "1")] (world_with open_b1 []).

Lemma duplicate_leaves_locks :
  refused_push.2 = inr (DuplicateJobError "go:t") ∧ cw_log refused_push.1 = [] ∧
  (push_to_b1 "raise" None [Some (JOther "2")] refused_push.1).2 = inr (DuplicateJobError "go:t").
Proof. split_and!; vm_compute; reflexivity. Qed.

(** A record whose acknowledgement is lost is rolled back although it is in Kafka: the batch counts one job of two. *)
Definition unsure_push : cworld * (list string + cerror) :=
  push_to_b1 "skip" None [Some (JOther "1"); Some (JOther "2")] (world_with open_b1 [Acked; Unknown]).

Lemma unsure_push_is_uncounted : length (cw_log unsure_push.1) = 2%nat ∧ total_of unsure_push.1 = Some "1"%string ∧ ∃ e, unsure_push.2 = inr e.
Proof. split_and!; [vm_compute; reflexivity .. | eexists; vm_compute; reflexivity]. Qed.

(** The index write that ran but was not answered, three times: the delayed job is in the index and will run, and the batch
    does not count it. *)
Definition unsure_index : cworld * (list string + cerror) :=
  push_to_b1 "skip" (Some (AtDuration 1000000000)) [Some (JOther "1")]
    (mkCWorld (World open_b1 [Fine; Fine; Lost 1 0; Lost 1 0; Lost 1 0]) [] [] (mkIndexDB ∅ [] [] ∅) None [] None 0).

Lemma unsure_index_is_uncounted :
  (∃ e, unsure_index.2 = inr e) ∧ (∃ z, pending unsure_index.1 = Some z ∧ is_Some (z !! BuildMember "u0" 0 0)) ∧ total_of unsure_index.1 = Some "0"%string.
Proof. split_and!; [eexists; vm_compute; reflexivity | | vm_compute; reflexivity]. eexists. split; [vm_compute; reflexivity | eexists; vm_compute; reflexivity]. Qed.
