(* ===== verification/Gates.v ===== *)
(** The gates of consumption: the pause switch of an operator, pkg/consumption
    (control.go, hybrid.go, mysql.go), and priorities between topics,
    pkg/priority (config.go, registry.go, gate.go, ingest_lag.go) with the hook
    of pkg/daemon/consumers.go that applies them before a poll.

    The pause switch is kept in Redis, with MySQL as a fallback; [backends] is
    both.  The interface pauseChecker of wiring.go is the class [PauseControl].
    A call reads the clock once, its argument [now]; the zero time of a cache
    that was never filled is [None]. *)
From S2P Require Import Prelude Cron Redis Client Kafka Protocol Fairness Sql Tenants Consumers.

(** ** Where pauses are kept *)

Record backends := Backends {
  b_redis : world;
  b_rows : list (string * string * Z);      (* consumer_group, topic_name, partition_id *)
  b_sql : list sql_fault
}.

Definition pio (A : Type) : Type := backends -> backends * A.

#[export] Instance pio_ret : MRet pio := fun A a b => (b, a).
#[export] Instance pio_bind : MBind pio := fun A B k m b => let '(b', a) := m b in k a b'.

Definition on_redis {A} (m : io A) : pio A := fun b =>
  let '(w, a) := m (b_redis b) in (Backends w (b_rows b) (b_sql b), a).

(** The SELECT of the pause table. *)
Definition query_rows : pio (result (list (string * string * Z))) := fun b =>
  let '(_, r) := sql_answer (default SqlFine (head (b_sql b))) (fun d => (d, d)) (b_rows b) in
  (Backends (b_redis b) (b_rows b) (tail (b_sql b)), r).

Definition topicsKey : string := "kafka_batch:consumption:topics".
Definition partitionsKey : string := "kafka_batch:consumption:partitions".
Definition sep : string := String (Ascii.ascii_of_nat 31) EmptyString.

Record Snapshot := Snap { Topics : gset string; Partitions : gset string }.
Definition no_pauses : Snapshot := Snap ∅ ∅.

Definition TopicKey (group topic : string) : string := group +:+ sep +:+ topic.
Definition PartitionKey (group topic : string) (partition : Z) : string :=
  group +:+ sep +:+ topic +:+ sep +:+ itoa partition.

(** Blank members are left out. *)
Definition toSet (items : list string) : gset string :=
  foldl (fun out item => let item := TrimSpace item in
                         if String.eqb item "" then out else {[item]} ∪ out) ∅ items.

Definition topic_paused (s : Snapshot) (group topic : string) : bool :=
  bool_decide (TopicKey group topic ∈ Topics s).
Definition partition_paused (s : Snapshot) (group topic : string) (partition : Z) : bool :=
  topic_paused s group topic || bool_decide (PartitionKey group topic partition ∈ Partitions s).

(** ** MySQLPauseStore *)

Definition topicPausePartition : Z := -1.
Definition int32 (z : Z) : Z := (z + 2 ^ 31) mod 2 ^ 32 - 2 ^ 31.

Definition add_row (snap : Snapshot) (row : string * string * Z) : Snapshot :=
  let '(group, topic, partition) := row in
  if partition =? topicPausePartition
  then Snap ({[TopicKey group topic]} ∪ Topics snap) (Partitions snap)
  else Snap (Topics snap) ({[PartitionKey group topic (int32 partition)]} ∪ Partitions snap).

(** [db] says whether the store has a connection. *)
Definition MySQL_Snapshot (db : bool) : pio (result Snapshot) :=
  if negb db then mret (Ok no_pauses)
  else
    rows ← query_rows;
    mret (match rows with
          | Bad e => Bad e
          | Ok rows => Ok (foldl add_row no_pauses rows)
          end).

(** ** The cached snapshot *)

Definition defaultInterval : Z := sec 30.

(** A control that was loaded at [last] keeps its snapshot for [interval]. *)
Definition cache_fresh (interval : Z) (last : option Z) (now : Z) : bool :=
  match last with Some t => now - t <? interval | None => false end.

(** Control: pauses in Redis.  A nil control and one without a client pause nothing. *)
Record Control := mkControl {
  ct_Client : bool; ct_Interval : Z;
  ct_lastLoad : option Z; ct_snap : Snapshot
}.

Definition NewControl (client : bool) (interval : Z) : Control :=
  mkControl client (if interval <=? 0 then defaultInterval else interval) None no_pauses.

(** Both sets, in two round trips. *)
Definition read_redis : pio (option Snapshot) :=
  topics ← on_redis (do (command (SMEMBERS topicsKey)));
  parts ← on_redis (do (command (SMEMBERS partitionsKey)));
  mret (match topics, parts with
        | Ok t, Ok p => Some (Snap (toSet t) (toSet p))
        | _, _ => None
        end).

Definition Control_snapshot (c : option Control) (now : Z) : pio (option Control * Snapshot) :=
  match c with
  | None => mret (None, no_pauses)
  | Some ct =>
      if negb (ct_Client ct) then mret (c, no_pauses)
      else if cache_fresh (ct_Interval ct) (ct_lastLoad ct) now then mret (c, ct_snap ct)
      else
        r ← read_redis;
        mret (match r with
              | None => (c, match ct_lastLoad ct with Some _ => ct_snap ct | None => no_pauses end)
              | Some snap => (Some (mkControl (ct_Client ct) (ct_Interval ct) (Some now) snap), snap)
              end)
  end.

(** HybridControl: Redis, or MySQL when Redis does not answer. *)
Record HybridControl := mkHybrid {
  hy_Redis : bool; hy_MySQL : option bool;   (* nil, or a store with or without a connection *)
  hy_Interval : Z;
  hy_lastLoad : option Z; hy_snap : Snapshot
}.

Definition NewHybridControl (rdb : bool) (mysql : option bool) (interval : Z) : HybridControl :=
  mkHybrid rdb mysql (if interval <=? 0 then defaultInterval else interval) None no_pauses.

Definition PING : cmd unit := fun s => (s, Ok tt).

Definition load_mysql (c : HybridControl) : pio (option Snapshot) :=
  match hy_MySQL c with
  | None => mret None
  | Some db => r ← MySQL_Snapshot db; mret (match r with Ok snap => Some snap | Bad _ => None end)
  end.

Definition loadSnapshot (c : HybridControl) : pio (option Snapshot) :=
  if hy_Redis c then
    ping ← on_redis (do PING);
    match ping with
    | Ok _ =>
        r ← read_redis;
        match r with
        | Some snap => mret (Some snap)
        | None => load_mysql c
        end
    | Bad _ => load_mysql c
    end
  else load_mysql c.

Definition HybridControl_snapshot (c : option HybridControl) (now : Z)
    : pio (option HybridControl * Snapshot) :=
  match c with
  | None => mret (None, no_pauses)
  | Some hy =>
      if cache_fresh (hy_Interval hy) (hy_lastLoad hy) now then mret (c, hy_snap hy)
      else
        r ← loadSnapshot hy;
        mret (match r with
              | None => (c, match hy_lastLoad hy with Some _ => hy_snap hy | None => no_pauses end)
              | Some snap =>
                  (Some (mkHybrid (hy_Redis hy) (hy_MySQL hy) (hy_Interval hy) (Some now) snap), snap)
              end)
  end.

(** ** The interface of a pause control *)

(** [pc_name topic] is the name the control looks a higher topic up by, or
    [None] when it passes it over; a nil Control passes every topic on. *)
Class PauseControl (C : Type) := {
  pc_snapshot : C -> Z -> pio (C * Snapshot);
  pc_name : string -> option string;
  pc_nil : C -> bool
}.

#[export] Instance Control_pauses : PauseControl (option Control) := {
  pc_snapshot := Control_snapshot;
  pc_name topic := let topic := TrimSpace topic in if String.eqb topic "" then None else Some topic;
  pc_nil c := match c with None => true | Some _ => false end
}.

#[export] Instance HybridControl_pauses : PauseControl (option HybridControl) := {
  pc_snapshot := HybridControl_snapshot;
  pc_name topic := if String.eqb topic "" then None else Some topic;
  pc_nil c := false
}.

Section pause_control.
Context {C : Type} `{PauseControl C}.

Definition TopicLevelPaused (c : C) (now : Z) (group topic : string) : pio (C * bool) :=
  '(c, snap) ← pc_snapshot c now;
  mret (c, topic_paused snap group topic).

Definition IsPaused (c : C) (now : Z) (group topic : string) (partition : Z) : pio (C * bool) :=
  '(c, snap) ← pc_snapshot c now;
  mret (c, partition_paused snap group topic partition).

Fixpoint active_topics (c : C) (now : Z) (group : string) (higher : list string) : pio (C * list string) :=
  match higher with
  | [] => mret (c, [])
  | topic :: higher =>
      match pc_name topic with
      | None => active_topics c now group higher
      | Some topic =>
          '(c, paused) ← TopicLevelPaused c now group topic;
          '(c, out) ← active_topics c now group higher;
          mret (c, if paused : bool then out else topic :: out)
      end
  end.

Definition ActiveHigherTopics (c : C) (now : Z) (group : string) (higher : list string)
    : pio (C * list string) :=
  if pc_nil c then mret (c, higher) else active_topics c now group higher.

End pause_control.

Definition Control_PauseTopic (group topic : string) : pio (result unit) :=
  on_redis (do (command (SADD topicsKey (TopicKey group topic)))).
Definition Control_ResumeTopic (group topic : string) : pio (result unit) :=
  on_redis (do (command (SREM topicsKey (TopicKey group topic)))).

(** ** Priority groups *)

(** What priorities use of the daemon's configuration. *)
Record DaemonCfg := mkDaemonCfg {
  dc_TopicPrefix : string; dc_ConsumerGroup : string; dc_PriorityWeightedInterleave : Z
}.

Definition ModeStrict : string := "strict".
Definition ModeWeighted : string := "weighted".

Record Config := mkConfig {
  pr_Path : string; pr_ConsumerGroupSuffix : string; pr_ConsumerGroup : string;
  pr_Mode : string; pr_Topics : list string; pr_WeightedInterleave : Z
}.

Record TopicSpec := mkSpec {
  ts_Topic : string; ts_Rank : Z; ts_Mode : string; ts_HigherTopics : list string;
  ts_ConsumerGroup : string; ts_WeightedInterleave : Z
}.

(** The document of a priority file, as yaml.Unmarshal gives it. *)
Record PriorityDoc := mkDoc {
  y_ConsumerGroupSuffix : string; y_Mode : string; y_Topics : list string; y_WeightedInterleave : Z
}.

(** Reading the file: os.ReadFile and yaml.Unmarshal. *)
Inductive file_read := FileMissing | FileMalformed | FileDoc (d : PriorityDoc).

Inductive priorityError :=
| PathEmpty | NotFound (path : string) | BadYAML (path : string)
| NoSuffix (path : string) | BadMode (path mode : string)
| DuplicateTopic (path topic : string) | NoTopics (path : string)
| DefaultJobsTopic (path topic : string)
| AlsoFlat (topic : string) | InManyFiles (topic : string).

Definition resolveTopic (cfg : DaemonCfg) (base : string) : string :=
  if String.eqb (dc_TopicPrefix cfg) "" then base
  else
    let prefix := dc_TopicPrefix cfg +:+ "." in
    if String.prefix prefix base then base else prefix +:+ base.

(** The loop over the topics of a document: blanks are passed over, names
    resolved, and a name seen before is an error. *)
Fixpoint load_topics (cfg : DaemonCfg) (path : string) (seen : gset string) (topics : list string)
    : priorityError + list string :=
  match topics with
  | [] => inr []
  | t :: topics =>
      let t := TrimSpace t in
      if String.eqb t "" then load_topics cfg path seen topics
      else
        let t := resolveTopic cfg t in
        if bool_decide (t ∈ seen) then inl (DuplicateTopic path t)
        else match load_topics cfg path ({[t]} ∪ seen) topics with
             | inl e => inl e
             | inr ts => inr (t :: ts)
             end
  end.

Definition Load (read : string -> file_read) (path : string) (cfg : DaemonCfg) (defaultJobsTopic : string)
    : priorityError + Config :=
  let path := TrimSpace path in
  if String.eqb path "" then inl PathEmpty
  else match read path with
  | FileMissing => inl (NotFound path)
  | FileMalformed => inl (BadYAML path)
  | FileDoc doc =>
      let suffix := TrimSpace (y_ConsumerGroupSuffix doc) in
      if String.eqb suffix "" then inl (NoSuffix path)
      else
        let mode := ToLower (TrimSpace (y_Mode doc)) in
        let mode := if String.eqb mode "" then ModeWeighted else mode in
        if negb (String.eqb mode ModeStrict) && negb (String.eqb mode ModeWeighted)
        then inl (BadMode path (y_Mode doc))
        else match load_topics cfg path ∅ (y_Topics doc) with
        | inl e => inl e
        | inr topics =>
            if bool_decide (topics = []) then inl (NoTopics path)
            else
              let jobsTopic := if String.eqb defaultJobsTopic "" then resolveTopic cfg "kafka_batch.jobs"
                               else defaultJobsTopic in
              if bool_decide (jobsTopic ∈ topics) then inl (DefaultJobsTopic path jobsTopic)
              else
                let interleave := if y_WeightedInterleave doc <? 1 then dc_PriorityWeightedInterleave cfg
                                  else y_WeightedInterleave doc in
                let interleave := if interleave <? 1 then 4 else interleave in
                inr (mkConfig path suffix (dc_ConsumerGroup cfg +:+ "-" +:+ suffix) mode topics interleave)
        end
  end.

Definition WithTopics (c : Config) (topics : list string) : Config :=
  mkConfig (pr_Path c) (pr_ConsumerGroupSuffix c) (pr_ConsumerGroup c) (pr_Mode c) topics
    (pr_WeightedInterleave c).
Definition WithConsumerGroup (c : Config) (group : string) : Config :=
  mkConfig (pr_Path c) (pr_ConsumerGroupSuffix c) group (pr_Mode c) (pr_Topics c)
    (pr_WeightedInterleave c).

Definition TopicSpecs (c : Config) : list TopicSpec :=
  imap (fun i topic =>
          mkSpec topic (Z.of_nat i) (pr_Mode c) (take i (pr_Topics c)) (pr_ConsumerGroup c)
            (pr_WeightedInterleave c)) (pr_Topics c).

(** ** The registry of priority groups *)

(** The topics of one file against the flat topics and those of earlier files. *)
Fixpoint reserve (flat reserved : gset string) (topics : list string) : priorityError + gset string :=
  match topics with
  | [] => inr reserved
  | t :: topics =>
      if bool_decide (t ∈ flat) then inl (AlsoFlat t)
      else if bool_decide (t ∈ reserved) then inl (InManyFiles t)
      else reserve flat ({[t]} ∪ reserved) topics
  end.

Fixpoint load_all (read : string -> file_read) (cfg : DaemonCfg) (defaultJobs : string)
    (flat reserved : gset string) (paths : list string) : priorityError + list Config :=
  match paths with
  | [] => inr []
  | path :: paths =>
      let path := TrimSpace path in
      if String.eqb path "" then load_all read cfg defaultJobs flat reserved paths
      else match Load read path cfg defaultJobs with
      | inl e => inl e
      | inr pc =>
          match reserve flat reserved (pr_Topics pc) with
          | inl e => inl e
          | inr reserved =>
              match load_all read cfg defaultJobs flat reserved paths with
              | inl e => inl e
              | inr cs => inr (pc :: cs)
              end
          end
      end
  end.

Definition LoadRegistry (read : string -> file_read) (paths : list string) (cfg : DaemonCfg)
    (explicitFlatTopics : list string) : priorityError + list Config :=
  let defaultJobs := resolveTopic cfg "kafka_batch.jobs" in
  load_all read cfg defaultJobs ({[defaultJobs]} ∪ list_to_set explicitFlatTopics) ∅ paths.

Fixpoint dedup (seen : gset string) (topics : list string) : list string :=
  match topics with
  | [] => []
  | t :: topics => if bool_decide (t ∈ seen) then dedup seen topics else t :: dedup ({[t]} ∪ seen) topics
  end.

Definition AllTopics (r : list Config) : list string := dedup ∅ (mjoin (pr_Topics <$> r)).

(** ** Lag *)

(** kadm.Lag's answer for a group: an error, no such group, or the lag of the
    partitions of each topic (which may come with an error of its own). *)
Inductive lag_answer :=
| LagFails (e : string) | LagNoGroup | LagGroup (err : error) (lag : gmap string (list Z)).

Definition GroupHasLag (answer : lag_answer) (topics : list string) : result bool :=
  if bool_decide (topics = []) then Ok false
  else match answer with
  | LagFails e => Bad e
  | LagNoGroup => Ok false
  | LagGroup (Some e) _ => Bad e
  | LagGroup None lag =>
      Ok (existsb (fun t => existsb (fun l => 0 <? l) (default [] (lag !! t))) topics)
  end.

(** The partitions of the ingest topic with lag, which the forwarder paces by. *)
Definition IngestActiveCount (answer : lag_answer) (group topic : string) : result Z :=
  if String.eqb group "" || String.eqb topic "" then Ok 0
  else match answer with
  | LagFails e => Bad e
  | LagNoGroup => Ok 0
  | LagGroup (Some e) _ => Bad e
  | LagGroup None lag => Ok (Z.of_nat (length (filter (fun l => 0 < l) (default [] (lag !! topic)))))
  end.

(** ** The gate *)

Record Gate := mkGate { g_Interval : Z; g_lastCheck : option Z; g_lastResult : bool }.

Definition NewGate (interval : Z) : Gate := mkGate (if interval <=? 0 then sec 2 else interval) None false.

Section gate.
Context {C : Type} `{PauseControl C}.

(** The pause control of a gate is shared with the consumer's loop; [None] is
    a gate without one. *)
Definition filterHigher (ctl : option C) (now : Z) (group : string) (topics : list string)
    : pio (option C * list string) :=
  match ctl with
  | None => mret (None, topics)
  | Some c => '(c, topics) ← ActiveHigherTopics c now group topics; mret (Some c, topics)
  end.

(** [answer] is what the brokers would say now. *)
Definition check_lag (g : Gate) (now : Z) (answer : lag_answer) (topics : list string) (force : bool)
    : Gate * bool :=
  if bool_decide (topics = []) then (g, false)
  else if negb force && cache_fresh (g_Interval g) (g_lastCheck g) now then (g, g_lastResult g)
  else match GroupHasLag answer topics with
  | Bad _ => (g, match g_lastCheck g with None => false | Some _ => g_lastResult g end)
  | Ok hasLag => (mkGate (g_Interval g) (Some now) hasLag, hasLag)
  end.

Definition HigherTopicsHaveLag (g : Gate) (ctl : option C) (now : Z) (answer : lag_answer)
    (group : string) (topics : list string) (force : bool) : pio (Gate * option C * bool) :=
  '(ctl, topics) ← filterHigher ctl now group topics;
  let '(g, b) := check_lag g now answer topics force in
  mret (g, ctl, b).

(** The interleave of a weighted topic: a tick, and whether it is a turn to run. *)
Definition weighted_turn (every tick : Z) : Z * bool :=
  let every := if every <? 1 then 4 else every in
  (tick + 1, Z.rem (tick + 1) every =? 0).

Definition ShouldYield (spec : TopicSpec) (g : Gate) (ctl : option C) (tick now : Z) (answer : lag_answer)
    : pio (Gate * option C * Z * bool) :=
  if (ts_Rank spec =? 0) || bool_decide (ts_HigherTopics spec = []) then mret (g, ctl, tick, false)
  else
    '(g, ctl, lag) ← HigherTopicsHaveLag g ctl now answer (ts_ConsumerGroup spec) (ts_HigherTopics spec) false;
    mret (if negb lag then (g, ctl, tick, false)
          else if String.eqb (ts_Mode spec) ModeStrict then (g, ctl, tick, true)
          else if String.eqb (ts_Mode spec) ModeWeighted then
            let '(tick, turn) := weighted_turn (ts_WeightedInterleave spec) tick in
            (g, ctl, tick, negb turn)
          else (g, ctl, tick, true)).

(** ** The hook before a poll *)

Record hook_state := mkHook {
  h_gate : Gate; h_ctl : option C; h_ticks : gmap string Z; h_client : consumerClient
}.

(** One topic of the hook's loop. *)
Definition hook_topic (h : hook_state) (spec : TopicSpec) (now : Z) (answer : lag_answer) : pio hook_state :=
  if (ts_Rank spec =? 0) || bool_decide (ts_HigherTopics spec = []) then mret h
  else
    '(g, ctl, want) ← HigherTopicsHaveLag (h_gate h) (h_ctl h) now answer (ts_ConsumerGroup spec)
                        (ts_HigherTopics spec) false;
    let '(ticks, want) :=
      if want && String.eqb (ts_Mode spec) ModeWeighted then
        let '(tick, turn) := weighted_turn (ts_WeightedInterleave spec)
                               (default 0 (h_ticks h !! ts_Topic spec)) in
        (<[ts_Topic spec := tick]> (h_ticks h), negb turn)
      else (h_ticks h, want) in
    mret (mkHook g ctl ticks (setPriorityTopicPause (h_client h) (ts_Topic spec) want).1).

(** The hook goes through the topics in the order of a Go map; each visit comes
    with the clock and what the brokers would answer then. *)
Fixpoint priorityPrePollHook (h : hook_state) (visits : list (TopicSpec * Z * lag_answer)) : pio hook_state :=
  match visits with
  | [] => mret h
  | (spec, now, answer) :: visits => h ← hook_topic h spec now answer; priorityPrePollHook h visits
  end.

End gate.
Arguments hook_state : clear implicits.
