(* ===== verification/GatesProps.v ===== *)
(** The properties of the gates of consumption: a pause outlasts the failures
    of its store, priority groups do not overlap, and a weighted topic gets its
    turns. *)
From S2P Require Import Prelude Cron Redis Client Kafka Protocol Fairness Sql Tenants Consumers Gates.

(** ** Snapshots *)

Lemma toSet_acc (l : list string) (acc : gset string) (k : string) :
  k ∈ foldl (fun out item => let item := TrimSpace item in
               if String.eqb item "" then out else {[item]} ∪ out) acc l
  <-> k ∈ acc \/ k <> "" /\ exists x, x ∈ l /\ TrimSpace x = k.
Proof.
  induction l as [|x l IH] in acc |- *; cbn.
  { split; [by left|]. by intros [?|(_ & x & Hx & _)]; [|apply elem_of_nil in Hx]. }
  rewrite IH. destruct (String.eqb_spec (TrimSpace x) "") as [E|E]; set_unfold; naive_solver.
Qed.

Lemma elem_of_toSet (l : list string) (k : string) :
  k ∈ toSet l <-> k <> "" /\ exists x, x ∈ l /\ TrimSpace x = k.
Proof. unfold toSet. rewrite toSet_acc. set_solver. Qed.

(** What the two sets in Redis say. *)
Definition stored_snapshot (s : redis) : option Snapshot :=
  T ← get_set s topicsKey; P ← get_set s partitionsKey; Some (Snap (toSet (elements T)) (toSet (elements P))).

Lemma do_smembers (k : string) (w : world) :
  exists net r, do (command (SMEMBERS (R := list string) k)) w = (World (w_db w) net, r)
    /\ (forall l, r = Ok l -> exists x, get_set (w_db w) k = Some x /\ l = elements x)
    /\ (w_net w = [] -> net = [] /\ forall x, get_set (w_db w) k = Some x -> r = Ok (elements x)).
Proof.
  destruct w as [s net]. unfold do, pipeline; cbn.
  assert (forall b, SMEMBERS (R := list string) k s = b ->
    exists r, command (SMEMBERS (R := list string) k) s = (s, r)
    /\ (forall l, r = Ok l -> exists x, get_set s k = Some x /\ l = elements x)
    /\ forall x, get_set s k = Some x -> r = Ok (elements x)) as Hc.
  { intros b Eb. unfold command, SMEMBERS, lift in *. destruct (get_set s k) as [x|].
    - exists (Ok (elements x)). split_and!; [done| |]; naive_solver.
    - unfold wrongtype. eexists. split_and!; [done| |]; naive_solver. }
  destruct (Hc _ eq_refl) as (r & E & H1 & H2).
  destruct net as [|[|[|ran] [|got]] net]; cbn; rewrite ?E; cbn; rewrite ?firstn_nil;
    (do 2 eexists; split; [reflexivity|]; split; [|intros En; try discriminate En; try by split]);
    first [exact H1 | intros l Hl; first [discriminate Hl | by apply H1] | idtac].
Qed.

Lemma read_redis_spec (b : backends) :
  exists net r, read_redis b = (Backends (World (w_db (b_redis b)) net) (b_rows b) (b_sql b), r)
    /\ (forall snap, r = Some snap -> stored_snapshot (w_db (b_redis b)) = Some snap)
    /\ (w_net (b_redis b) = [] -> r = stored_snapshot (w_db (b_redis b)) \/ r = None /\ stored_snapshot (w_db (b_redis b)) = None).
Proof.
  unfold read_redis, mbind, pio_bind, mret, pio_ret, on_redis.
  destruct (do_smembers topicsKey (b_redis b)) as (net1 & r1 & E1 & A1 & B1). rewrite E1; cbn.
  destruct (do_smembers partitionsKey (World (w_db (b_redis b)) net1)) as (net2 & r2 & E2 & A2 & B2).
  rewrite E2; cbn in *. do 2 eexists. split; [reflexivity|]. split.
  - intros snap Hs. destruct r1 as [t|]; [|done]. destruct r2 as [p|]; [|done]. injection Hs as <-.
    destruct (A1 t eq_refl) as (T & HT & ->), (A2 p eq_refl) as (P & HP & ->).
    unfold stored_snapshot. by rewrite HT; cbn; rewrite HP.
  - intros Hn. destruct (B1 Hn) as [-> B1']. destruct (B2 eq_refl) as [_ B2'].
    unfold stored_snapshot. destruct (get_set _ topicsKey) as [T|] eqn:HT; cbn.
    + rewrite (B1' T eq_refl). destruct (get_set _ partitionsKey) as [P|] eqn:HP; cbn.
      * rewrite (B2' P eq_refl). by left.
      * destruct r2 as [p|]; [|by right]. destruct (A2 p eq_refl) as (? & [=] & _).
    + destruct r1 as [t|]; [|by right]. destruct (A1 t eq_refl) as (? & [=] & _).
Qed.

(** ** The pause switch *)

Lemma Control_snapshot_spec (ct : Control) (now : Z) (b : backends) :
  ct_Client ct = true ->
  exists b' ct' s, Control_snapshot (Some ct) now b = (b', (Some ct', s)) /\ ct_Client ct' = true
    /\ (ct' = ct /\ s = (match ct_lastLoad ct with Some _ => ct_snap ct | None => no_pauses end)
        \/ stored_snapshot (w_db (b_redis b)) = Some s /\ ct_lastLoad ct' = Some now /\ ct_snap ct' = s)
    /\ (cache_fresh (ct_Interval ct) (ct_lastLoad ct) now = false -> w_net (b_redis b) = [] ->
        forall s0, stored_snapshot (w_db (b_redis b)) = Some s0 ->
        s = s0 /\ ct_lastLoad ct' = Some now /\ ct_snap ct' = s0).
Proof.
  intros Hc. unfold Control_snapshot. rewrite Hc; cbn.
  destruct (cache_fresh _ _ now) eqn:F; cbn.
  { exists b, ct, (ct_snap ct). split_and!; [done..| |done]. left. split; [done|].
    by destruct (ct_lastLoad ct). }
  unfold mbind, pio_bind. destruct (read_redis_spec b) as (net & r & -> & A & B).
  destruct r as [s|]; do 3 eexists; (split; [reflexivity|]); split_and!; try done.
  - right. by split; [apply A|].
  - intros _ Hn s0 H0. destruct (B Hn) as [E|[[=] _]]. rewrite H0 in E. by injection E as ->.
  - by left.
  - intros _ Hn s0 H0. destruct (B Hn) as [E|[_ E]]; rewrite H0 in E; discriminate E.
Qed.

(** The answers to a series of questions about a partition of the topic; each
    comes with its instant and with the stores as they are then. *)
Fixpoint answers (c : option Control) (group topic : string) (qs : list (Z * backends * Z)) : list bool :=
  match qs with
  | [] => []
  | (now, b, partition) :: qs =>
      let '(_, (c, paused)) := IsPaused c now group topic partition b in paused :: answers c group topic qs
  end.

Lemma answers_cons (c : option Control) (group topic : string) (now : Z) (b : backends) (p : Z) qs b' c' s :
  Control_snapshot c now b = (b', (c', s)) ->
  answers c group topic ((now, b, p) :: qs) = partition_paused s group topic p :: answers c' group topic qs.
Proof.
  intros E. simpl answers. unfold IsPaused, mbind, pio_bind.
  change (pc_snapshot c now b) with (Control_snapshot c now b). by rewrite E.
Qed.

(** The topic is among the paused ones in Redis. *)
Definition pause_set (group topic : string) (b : backends) : Prop :=
  exists T, get_set (w_db (b_redis b)) topicsKey = Some T /\ TopicKey group topic ∈ T.

Lemma TopicKey_nonempty (group topic : string) : TopicKey group topic <> "".
Proof. unfold TopicKey, sep. by destruct group. Qed.

Lemma pause_set_stored (group topic : string) (b : backends) (s : Snapshot) :
  TrimSpace (TopicKey group topic) = TopicKey group topic ->
  pause_set group topic b -> stored_snapshot (w_db (b_redis b)) = Some s ->
  TopicKey group topic ∈ Topics s.
Proof.
  intros Ht (T & HT & Hin) Hs. unfold stored_snapshot in Hs. rewrite HT in Hs; cbn in Hs.
  destruct (get_set _ partitionsKey) as [P|]; [|discriminate Hs]. injection Hs as <-; cbn.
  apply elem_of_toSet. split; [apply TopicKey_nonempty|]. exists (TopicKey group topic).
  by rewrite elem_of_elements.
Qed.

Lemma answers_held (group topic : string) (qs : list (Z * backends * Z)) (ct : Control) (t0 : Z) :
  TrimSpace (TopicKey group topic) = TopicKey group topic ->
  ct_Client ct = true -> ct_lastLoad ct = Some t0 -> TopicKey group topic ∈ Topics (ct_snap ct) ->
  Forall (fun q => pause_set group topic q.1.2) qs ->
  answers (Some ct) group topic qs = replicate (length qs) true.
Proof.
  intros Ht. induction qs as [|[[now b] p] qs IH] in ct, t0 |- *; intros Hc Hl Hk Hqs; [done|].
  apply Forall_cons in Hqs as [Hq Hqs]; cbn in Hq.
  destruct (Control_snapshot_spec ct now b Hc) as (b' & ct' & s & E & Hc' & Hs & _).
  assert (TopicKey group topic ∈ Topics s /\ exists t, ct_lastLoad ct' = Some t /\ ct_snap ct' = s) as [Hk' (t & Hl' & Hs')].
  { destruct Hs as [[-> ->]|(Hst & Hl' & Hs')].
    - rewrite Hl. eauto.
    - split; [by eapply pause_set_stored|eauto]. }
  rewrite (answers_cons _ _ _ _ _ _ _ _ _ _ E); cbn. f_equal.
  - unfold partition_paused, topic_paused. by rewrite bool_decide_eq_true_2.
  - apply (IH _ t); [done..|by rewrite Hs'|done].
Qed.

(** C32: A paused topic stays paused.  From a question that reaches Redis while
    the topic is among the paused ones (its cache too old or never filled, both
    reads answered), as long as the pause is not lifted in Redis, every answer
    about every partition of the topic is that it is paused, whenever the
    questions are asked and whichever of their round trips fail. *)
Theorem killswitch_survives_outages (ct : Control) (group topic : string) (now p : Z) (b : backends)
    (qs : list (Z * backends * Z)) :
  ct_Client ct = true -> TrimSpace (TopicKey group topic) = TopicKey group topic ->
  cache_fresh (ct_Interval ct) (ct_lastLoad ct) now = false ->
  w_net (b_redis b) = [] -> is_Some (get_set (w_db (b_redis b)) partitionsKey) ->
  Forall (fun q => pause_set group topic q.1.2) ((now, b, p) :: qs) ->
  answers (Some ct) group topic ((now, b, p) :: qs) = replicate (S (length qs)) true.
Proof.
  intros Hc Ht Hf Hn [P HP] Hqs. apply Forall_cons in Hqs as [Hq Hqs]; cbn in Hq.
  destruct (Control_snapshot_spec ct now b Hc) as (b' & ct' & s & E & Hc' & _ & Hs).
  destruct (stored_snapshot (w_db (b_redis b))) as [s0|] eqn:E0.
  2:{ destruct Hq as (T & HT & _). unfold stored_snapshot in E0. rewrite HT in E0; cbn in E0.
      rewrite HP in E0. discriminate E0. }
  destruct (Hs Hf Hn s0 eq_refl) as (-> & Hl' & Hs'). pose proof (pause_set_stored _ _ _ _ Ht Hq E0) as Hk.
  rewrite (answers_cons _ _ _ _ _ _ _ _ _ _ E); cbn. f_equal.
  - unfold partition_paused, topic_paused. by rewrite bool_decide_eq_true_2.
  - by apply (answers_held _ _ _ _ now); [..|rewrite Hs'|].
Qed.

(** A keyspace in which one topic is paused. *)
Definition paused_keyspace : redis := put_set topicsKey {[TopicKey "workers" "mail"]} empty_redis.

Definition outage_questions : list (Z * backends * Z) :=
  [(sec 10, Backends (World paused_keyspace []) [] [], 1);
   (sec 100, Backends (World paused_keyspace [Lost 0 0; Lost 1 0]) [] [], 2);
   (sec 101, Backends (World paused_keyspace [Fine; Lost 0 0]) [] [], 0)].

Lemma killswitch_survives_outages_witness :
  answers (Some (NewControl true 0)) "workers" "mail"
    ((0, Backends (World paused_keyspace []) [] [], 3) :: outage_questions) = [true; true; true; true].
Proof.
  apply (killswitch_survives_outages (NewControl true 0) "workers" "mail" 0 3
           (Backends (World paused_keyspace []) [] []) outage_questions).
  - reflexivity.
  - vm_compute. reflexivity.
  - reflexivity.
  - reflexivity.
  - vm_compute. eauto.
  - repeat (apply Forall_cons; split); [| | | |apply Forall_nil; exact I];
      (exists {[TopicKey "workers" "mail"]}; split; [vm_compute; reflexivity|set_solver]).
Defined.

(** The control with a MySQL fallback does forget: when Redis, where the pause
    was set, does not answer, the table of MySQL, where it was not, replaces the
    snapshot, and for [Interval] the topic runs although Redis is back. *)
Lemma hybrid_forgets_pause :
  let fine := Backends (World paused_keyspace []) [] [] in
  let down := Backends (World paused_keyspace [Lost 0 0]) [] [] in
  let c0 := Some (NewHybridControl true (Some true) 0) in
  let '(_, (c1, a1)) := IsPaused c0 0 "workers" "mail" 0 fine in
  let '(_, (c2, a2)) := IsPaused c1 (sec 31) "workers" "mail" 0 down in
  let '(_, (c3, a3)) := IsPaused c2 (sec 60) "workers" "mail" 0 fine in
  (a1, a2, a3) = (true, false, false).
Proof. vm_compute. reflexivity. Qed.

(** ** Priority groups *)

Lemma load_topics_sound (cfg : DaemonCfg) (path : string) (l : list string) (seen : gset string) ts :
  load_topics cfg path seen l = inr ts -> NoDup ts /\ forall t, t ∈ ts -> t ∉ seen.
Proof.
  induction l as [|x l IH] in seen, ts |- *; cbn.
  { intros [= <-]. split; [constructor|]. by intros t Ht%elem_of_nil. }
  destruct (String.eqb _ "") eqn:E; [apply IH|].
  case_bool_decide as Hin; [done|].
  destruct (load_topics cfg path _ l) as [e|ts'] eqn:El; [done|]. intros [= <-].
  destruct (IH _ _ El) as [Hnd Hns]. split.
  - constructor; [|done]. intros Ht. apply (Hns _ Ht). set_solver.
  - intros t [->|Ht]%elem_of_cons; [done|]. specialize (Hns _ Ht). set_solver.
Qed.

(** What an accepted file looks like. *)
Record config_ok (default : string) (c : Config) : Prop := {
  co_topics : pr_Topics c <> [] /\ NoDup (pr_Topics c) /\ default ∉ pr_Topics c;
  co_mode : pr_Mode c = ModeStrict \/ pr_Mode c = ModeWeighted;
  co_interleave : 1 <= pr_WeightedInterleave c
}.

Lemma Load_ok (read : string -> file_read) (path : string) (cfg : DaemonCfg) (d : string) (c : Config) :
  d <> "" -> Load read path cfg d = inr c -> config_ok d c.
Proof.
  intros Hd. unfold Load. destruct (String.eqb (TrimSpace path) ""); [done|].
  destruct (read _) as [| |doc]; [done..|]. destruct (String.eqb (TrimSpace _) ""); [done|].
  set (mode := if String.eqb (ToLower _) "" then ModeWeighted else _).
  destruct (negb (String.eqb mode ModeStrict) && _) eqn:Em; [done|].
  destruct (load_topics _ _ _ _) as [e|ts] eqn:El; [done|].
  case_bool_decide as Hne; [done|].
  destruct (String.eqb_spec d "") as [|_]; [done|].
  case_bool_decide as Hin; [done|]. intros [= <-]. constructor; cbn.
  - split_and!; [done|by apply (load_topics_sound _ _ _ _ _ El)|done].
  - apply andb_false_iff in Em as [Em|Em]; apply negb_false_iff, String.eqb_eq in Em; auto.
  - destruct (Z.ltb_spec (if y_WeightedInterleave doc <? 1 then dc_PriorityWeightedInterleave cfg
                         else y_WeightedInterleave doc) 1); lia.
Qed.

Lemma reserve_spec (flat : gset string) (ts : list string) (reserved out : gset string) :
  reserve flat reserved ts = inr out <->
  NoDup ts /\ (forall t, t ∈ ts -> t ∉ flat /\ t ∉ reserved) /\ out = list_to_set ts ∪ reserved.
Proof.
  induction ts as [|t ts IH] in reserved |- *; cbn.
  { split.
    - intros [= <-]. split_and!; [constructor|by intros t Ht%elem_of_nil|set_solver].
    - intros (_ & _ & ->). f_equal. set_solver. }
  rewrite NoDup_cons. setoid_rewrite elem_of_cons.
  case_bool_decide as Hf; [split; [done|]; intros (_ & H & _); by destruct (H t (or_introl eq_refl))|].
  case_bool_decide as Hr; [split; [done|]; intros (_ & H & _); by destruct (H t (or_introl eq_refl))|].
  rewrite IH. split.
  - intros (Hnd & H & ->). split_and!.
    + intros Ht. destruct (H _ Ht) as [_ Hx]. set_solver.
    + done.
    + intros t' [->|Ht']; [done|]. destruct (H _ Ht') as [? Hx]. set_solver.
    + set_solver.
  - intros ([Hn Hnd] & H & ->). split_and!; [done| |set_solver].
    intros t' Ht'. destruct (H t' (or_intror Ht')) as [? ?]. split; [done|]. set_solver.
Qed.

(** The paths that are not blank. *)
Definition given_paths (paths : list string) : list string :=
  filter (fun p => p <> "") (TrimSpace <$> paths).

Lemma Forall2_functional {A B E} (f : A -> E + B) (l : list A) (k k' : list B) :
  Forall2 (fun a b => f a = inr b) l k -> Forall2 (fun a b => f a = inr b) l k' -> k = k'.
Proof.
  intros HF. revert k'. induction HF as [|a b l k Hab HF IH]; intros k' HF';
    inversion HF' as [|? b' ? k2 Hb' HF2]; subst; [done|]. f_equal; [congruence|by apply IH].
Qed.

Lemma load_all_spec (read : string -> file_read) (cfg : DaemonCfg) (d : string) (flat : gset string)
    (paths : list string) (reserved : gset string) (cs : list Config) :
  load_all read cfg d flat reserved paths = inr cs <->
  Forall2 (fun p c => Load read p cfg d = inr c) (given_paths paths) cs
  /\ NoDup (mjoin (pr_Topics <$> cs))
  /\ (forall t, t ∈ mjoin (pr_Topics <$> cs) -> t ∉ flat /\ t ∉ reserved).
Proof.
  unfold given_paths. induction paths as [|p paths IH] in reserved, cs |- *; cbn.
  { split.
    - intros [= <-]. split_and!; [constructor|constructor|by intros t Ht%elem_of_nil].
    - intros (H & _). by inversion H. }
  destruct (String.eqb_spec (TrimSpace p) "") as [E|E].
  { rewrite decide_False by (by intros []). apply IH. }
  rewrite decide_True by done. destruct (Load read _ cfg d) as [e|c] eqn:El.
  { split; [done|]. intros (H & _). inversion H; simplify_eq. congruence. }
  destruct (reserve flat reserved (pr_Topics c)) as [e|out] eqn:Er.
  { split; [done|]. intros (HF & Hnd & H).
    inversion HF as [|? c' ? cs' Hc' HF']; subst; cbn in *. rewrite El in Hc'. injection Hc' as <-.
    assert (reserve flat reserved (pr_Topics c) = inr (list_to_set (pr_Topics c) ∪ reserved)) as Ex.
    { apply reserve_spec. apply NoDup_app in Hnd as (Hnd & _). split_and!; [done| |done].
      intros t Ht. apply H. apply elem_of_app. by left. }
    rewrite Er in Ex. discriminate Ex. }
  apply reserve_spec in Er as (Hnd & Hfr & ->).
  specialize (IH (list_to_set (pr_Topics c) ∪ reserved)).
  destruct (load_all _ _ _ _ _ paths) as [e|cs'].
  - split; [done|]. intros (HF & HN & H).
    inversion HF as [|? c' ? cs' Hc' HF']; subst; cbn in *. rewrite El in Hc'. injection Hc' as <-.
    apply NoDup_app in HN as (_ & Hx & HN). exfalso. enough (inl e = inr cs') by done.
    apply IH. split_and!; [done..|]. intros t Ht. destruct (H t) as [? ?]; [apply elem_of_app; by right|]. split; [done|].
    specialize (Hx t). set_solver.
  - destruct (IH cs') as [IH1 IH2]. destruct (IH1 eq_refl) as (HF & HN & H). split.
    + intros [= <-]; cbn. split_and!.
      * by constructor.
      * apply NoDup_app. split_and!; [done| |done]. intros t Ht Ht'. destruct (H t Ht'). set_solver.
      * intros t [Ht|Ht]%elem_of_app; [by apply Hfr|]. destruct (H t Ht). set_solver.
    + intros (HF2 & _ & _). inversion HF2 as [|? c' ? cs2 Hc' HF']; subst. rewrite El in Hc'.
      injection Hc' as <-. do 2 f_equal.
      exact (Forall2_functional (fun p => Load read p cfg d) _ _ _ HF HF').
Qed.

Lemma dedup_id (seen : gset string) (l : list string) :
  NoDup l -> (forall t, t ∈ l -> t ∉ seen) -> dedup seen l = l.
Proof.
  induction l as [|t l IH] in seen |- *; intros Hnd Hs; [done|]; cbn.
  apply NoDup_cons in Hnd as [Hn Hnd]. rewrite bool_decide_eq_false_2 by (apply Hs; left).
  f_equal. apply IH; [done|]. intros t' Ht'. specialize (Hs t' (list_elem_of_further _ _ _ Ht')). set_solver.
Qed.

(** Priority files are accepted exactly when no topic would be consumed
    twice: every file that is given loads, no topic is in two of them or twice in
    one, and none is the default jobs topic or a flat jobs topic.  An accepted
    group has a topic, a known mode and an interleave of at least one, and
    AllTopics lists the topics of the files in order. *)
Theorem LoadRegistry_accepts (read : string -> file_read) (paths : list string) (cfg : DaemonCfg)
    (flat : list string) (cs : list Config) :
  let default := resolveTopic cfg "kafka_batch.jobs" in
  let topics := mjoin (pr_Topics <$> cs) in
  (LoadRegistry read paths cfg flat = inr cs <->
   Forall2 (fun p c => Load read p cfg default = inr c) (given_paths paths) cs
   /\ NoDup topics /\ forall t, t ∈ topics -> t <> default /\ t ∉ flat)
  /\ (LoadRegistry read paths cfg flat = inr cs -> Forall (config_ok default) cs /\ AllTopics cs = topics).
Proof.
  intros default topics.
  assert (default <> "") as Hd.
  { unfold default, resolveTopic. destruct (String.eqb _ ""); [done|]. case_match; [done|].
    by destruct (dc_TopicPrefix cfg). }
  assert (LoadRegistry read paths cfg flat = inr cs <->
   Forall2 (fun p c => Load read p cfg default = inr c) (given_paths paths) cs
   /\ NoDup topics /\ forall t, t ∈ topics -> t <> default /\ t ∉ flat) as Hiff.
  { unfold LoadRegistry. fold default. rewrite load_all_spec. fold topics.
    split; intros (? & ? & H); split_and!; try done; intros t Ht; specialize (H t Ht); set_solver. }
  split; [exact Hiff|]. rewrite Hiff. intros (HF & Hnd & H). split.
  - clear -HF Hd. induction HF as [|p c ps cs Hpc HF IH]; constructor; [by eapply Load_ok|done].
  - apply dedup_id; [done|set_solver].
Qed.

(** Two groups, with the prefix added to their topics. *)
Definition two_files (path : string) : file_read :=
  if String.eqb path "a.yml" then FileDoc (mkDoc "fast" "Strict" ["p0"; " p1 "; ""] 0)
  else FileDoc (mkDoc "slow" "" ["acme.q0"; "q1"] 3).

Definition acme : DaemonCfg := mkDaemonCfg "acme" "kb" 0.

Definition two_groups : list Config :=
  [mkConfig "a.yml" "fast" "kb-fast" "strict" ["acme.p0"; "acme.p1"] 4;
   mkConfig "b.yml" "slow" "kb-slow" "weighted" ["acme.q0"; "acme.q1"] 3].

Lemma LoadRegistry_accepts_witness :
  Forall (config_ok "acme.kafka_batch.jobs") two_groups
  /\ AllTopics two_groups = ["acme.p0"; "acme.p1"; "acme.q0"; "acme.q1"].
Proof.
  apply (LoadRegistry_accepts two_files ["a.yml"; " "; "b.yml"] acme ["acme.r"] two_groups).
  vm_compute. reflexivity.
Defined.

(** ** Turns of lower-ranked topics *)

Lemma applyTopicPause_flags (c : consumerClient) (t : string) :
  let c' := applyTopicPauseLocked c t in
  flag (cc_topicPaused c') t = flag (cc_killswitchWant c') t || flag (cc_priorityWant c') t
  /\ cc_killswitchWant c' = cc_killswitchWant c /\ cc_priorityWant c' = cc_priorityWant c.
Proof.
  unfold applyTopicPauseLocked; cbn. destruct (Bool.eqb _ _) eqn:E; cbn.
  - apply Bool.eqb_prop in E. by rewrite E.
  - split_and!; [|done..]. unfold flag at 1. by rewrite lookup_insert_eq.
Qed.

Lemma setPriority_flags (c : consumerClient) (t : string) (want : bool) :
  let c' := (setPriorityTopicPause c t want).1 in
  flag (cc_priorityWant c') t = want
  /\ flag (cc_topicPaused c') t = flag (cc_killswitchWant c') t || want.
Proof.
  unfold setPriorityTopicPause; cbn.
  set (c1 := set_wants _ _ _ _). destruct (applyTopicPause_flags c1 t) as (E & Ek & Ep).
  assert (flag (cc_priorityWant (applyTopicPauseLocked c1 t)) t = want) as Hw.
  { rewrite Ep. cbn. unfold flag. by rewrite lookup_insert_eq. }
  split; [done|]. by rewrite E, Hw.
Qed.

Lemma applyTopicPause_other (c : consumerClient) (t t' : string) :
  t' <> t -> let c' := applyTopicPauseLocked c t in
  flag (cc_topicPaused c') t' = flag (cc_topicPaused c) t'
  /\ cc_killswitchWant c' = cc_killswitchWant c /\ cc_priorityWant c' = cc_priorityWant c.
Proof.
  intros Hne. unfold applyTopicPauseLocked; cbn. destruct (Bool.eqb _ _); cbn; [done|].
  split_and!; [|done..]. unfold flag. by rewrite lookup_insert_ne by congruence.
Qed.

Lemma setPriority_other (c : consumerClient) (t t' : string) (want : bool) :
  t' <> t -> let c' := (setPriorityTopicPause c t want).1 in
  flag (cc_priorityWant c') t' = flag (cc_priorityWant c) t'
  /\ flag (cc_topicPaused c') t' = flag (cc_topicPaused c) t'
  /\ flag (cc_killswitchWant c') t' = flag (cc_killswitchWant c) t'.
Proof.
  intros Hne. unfold setPriorityTopicPause; cbn.
  set (c1 := set_wants _ _ _ _). destruct (applyTopicPause_other c1 t t' Hne) as (E & Ek & Ep).
  rewrite E, Ek, Ep. cbn. split_and!; [|done..]. unfold flag. by rewrite lookup_insert_ne by congruence.
Qed.

#[local] Arguments setPriorityTopicPause : simpl never.
#[local] Arguments HigherTopicsHaveLag : simpl never.

Section turns.
Context {C : Type} `{PauseControl C}.
Implicit Types (h : hook_state C) (visits : list (TopicSpec * Z * lag_answer)).

Definition tick_of h (t : string) : Z := default 0 (h_ticks h !! t).

(** What of a hook's state concerns a topic. *)
Definition topic_view h (t : string) : Z * bool * bool * bool :=
  (tick_of h t, flag (cc_priorityWant (h_client h)) t, flag (cc_topicPaused (h_client h)) t,
   flag (cc_killswitchWant (h_client h)) t).

Lemma hook_topic_other h (spec : TopicSpec) (now : Z) (a : lag_answer) (t : string) (b : backends) :
  t <> ts_Topic spec -> topic_view (hook_topic h spec now a b).2 t = topic_view h t.
Proof.
  intros Hne. unfold hook_topic. case_match; [done|]. unfold mbind, pio_bind.
  destruct (HigherTopicsHaveLag _ _ _ _ _ _ _ b) as [b' [[g ctl] want]].
  set (pr := if want && _ then _ else _). destruct pr as [ticks w] eqn:E; cbn. unfold topic_view, tick_of; cbn.
  destruct (setPriority_other (h_client h) (ts_Topic spec) t w Hne) as (-> & -> & ->). do 3 f_equal.
  subst pr. destruct (want && _); injection E as <- _; [|done]. by rewrite lookup_insert_ne.
Qed.

(** The every-th lag of a weighted topic is a turn to run. *)
Definition every_of (spec : TopicSpec) : Z := if ts_WeightedInterleave spec <? 1 then 4 else ts_WeightedInterleave spec.

(** After its visit a weighted topic has had a tick that is no turn and is held
    back, or is let through. *)
Lemma hook_topic_self h (spec : TopicSpec) (now : Z) (a : lag_answer) (b : backends) :
  ts_Mode spec = ModeWeighted -> ts_Rank spec <> 0 -> ts_HigherTopics spec <> [] ->
  exists k held kill, topic_view (hook_topic h spec now a b).2 (ts_Topic spec) = (k, held, kill || held, kill)
    /\ (k = tick_of h (ts_Topic spec) \/ k = tick_of h (ts_Topic spec) + 1)
    /\ (held = true -> k = tick_of h (ts_Topic spec) + 1 /\ Z.rem k (every_of spec) <> 0).
Proof.
  intros Hm Hr Hh. unfold hook_topic. rewrite (proj2 (Z.eqb_neq _ _) Hr), (bool_decide_eq_false_2 _ Hh); cbn.
  unfold mbind, pio_bind. destruct (HigherTopicsHaveLag _ _ _ _ _ _ _ b) as [b' [[g ctl] want]].
  rewrite Hm, String.eqb_refl, andb_true_r. unfold weighted_turn. fold (every_of spec) (tick_of h (ts_Topic spec)).
  destruct want; cbn; unfold topic_view, tick_of at 1; cbn; rewrite ?lookup_insert_eq;
    edestruct setPriority_flags as [E1 E2]; rewrite E1, E2; do 3 eexists; (split; [reflexivity|]).
  - split; [by right|]. intros Ht. split; [done|]. apply negb_true_iff, Z.eqb_neq in Ht. exact Ht.
  - split; [by left|done].
Qed.

(** A hook that visits the topic once. *)
Definition visits_once (spec : TopicSpec) visits : Prop :=
  exists pre v post, visits = pre ++ (spec, v.1, v.2) :: post
    /\ Forall (fun v => ts_Topic v.1.1 <> ts_Topic spec) (pre ++ post).

Lemma hook_others h visits (t : string) (b : backends) :
  Forall (fun v => ts_Topic v.1.1 <> t) visits ->
  topic_view (priorityPrePollHook h visits b).2 t = topic_view h t.
Proof.
  induction visits as [|[[spec now] a] visits IH] in h, b |- *; intros Hf; [done|].
  apply Forall_cons in Hf as [Hne Hf]; cbn in Hne. cbn. unfold mbind, pio_bind.
  pose proof (hook_topic_other h spec now a t b (not_eq_sym Hne)) as E.
  destruct (hook_topic h spec now a b) as [b' h']. rewrite IH by done. exact E.
Qed.

Lemma hook_app h visits visits' (b : backends) :
  priorityPrePollHook h (visits ++ visits') b
  = let '(b', h') := priorityPrePollHook h visits b in priorityPrePollHook h' visits' b'.
Proof.
  induction visits as [|[[spec now] a] visits IH] in h, b |- *; [done|]. cbn. unfold mbind, pio_bind.
  destruct (hook_topic h spec now a b) as [b' h']. apply IH.
Qed.

Lemma hook_once h visits (spec : TopicSpec) (b : backends) :
  ts_Mode spec = ModeWeighted -> ts_Rank spec <> 0 -> ts_HigherTopics spec <> [] ->
  visits_once spec visits ->
  exists k held kill, topic_view (priorityPrePollHook h visits b).2 (ts_Topic spec) = (k, held, kill || held, kill)
    /\ (k = tick_of h (ts_Topic spec) \/ k = tick_of h (ts_Topic spec) + 1)
    /\ (held = true -> k = tick_of h (ts_Topic spec) + 1 /\ Z.rem k (every_of spec) <> 0).
Proof.
  intros Hm Hr Hh (pre & v & post & -> & [Hpre Hpost]%Forall_app). rewrite hook_app.
  pose proof (hook_others h pre _ b Hpre) as E1. destruct (priorityPrePollHook h pre b) as [b1 h1]; cbn in E1.
  cbn. unfold mbind, pio_bind.
  pose proof (hook_topic_self h1 spec v.1 v.2 b1 Hm Hr Hh) as Hs.
  destruct (hook_topic h1 spec v.1 v.2 b1) as [b2 h2]; cbn in Hs. rewrite hook_others by done.
  unfold topic_view in E1. injection E1 as E1 _ _ _. rewrite E1 in Hs. exact Hs.
Qed.

(** The clients after each of a series of polls.  The gate, the pause control,
    the stores and the client may be changed by others before each; the ticks
    are the consumer's own. *)
Record poll := mkPoll {
  po_gate : Gate; po_ctl : option C; po_client : consumerClient; po_stores : backends;
  po_visits : list (TopicSpec * Z * lag_answer)
}.

Fixpoint hook_runs (ticks : gmap string Z) (polls : list poll) : list consumerClient :=
  match polls with
  | [] => []
  | p :: polls =>
      let h := (priorityPrePollHook (mkHook (po_gate p) (po_ctl p) ticks (po_client p)) (po_visits p) (po_stores p)).2 in
      h_client h :: hook_runs (h_ticks h) polls
  end.

Lemma held_back_ticks (spec : TopicSpec) (polls : list poll) (ticks : gmap string Z) :
  ts_Mode spec = ModeWeighted -> ts_Rank spec <> 0 -> ts_HigherTopics spec <> [] ->
  Forall (fun p => visits_once spec (po_visits p)) polls ->
  Forall (fun c => flag (cc_topicPaused c) (ts_Topic spec)
                   && negb (flag (cc_killswitchWant c) (ts_Topic spec)) = true) (hook_runs ticks polls) ->
  forall i, 1 <= i <= Z.of_nat (length polls) ->
  Z.rem (default 0 (ticks !! ts_Topic spec) + i) (every_of spec) <> 0.
Proof.
  intros Hm Hr Hh. induction polls as [|p polls IH] in ticks |- *; intros Hv Hp i Hi; [cbn in Hi; lia|].
  apply Forall_cons in Hv as [Hv1 Hv]. cbn in Hp. apply Forall_cons in Hp as [Hp1 Hp].
  set (h0 := mkHook _ _ _ _) in *.
  destruct (hook_once h0 (po_visits p) spec (po_stores p) Hm Hr Hh Hv1) as (k & held & kill & E & _ & Hk).
  unfold topic_view in E. injection E as Et Ep Ea Ek. unfold h0 in *.
  rewrite Ea, Ek in Hp1. destruct held; [|by destruct kill].
  destruct (Hk eq_refl) as [Hk1 Hk2]. unfold tick_of in Hk1; cbn in Hk1.
  destruct (decide (i = 1)) as [->|Hne]; [by rewrite <-Hk1|].
  replace (default 0 (ticks !! ts_Topic spec) + i) with (k + (i - 1)) by lia.
  unfold tick_of in Et. rewrite <-Et. apply IH; [done..|]. cbn [length] in Hi. lia.
Qed.

End turns.
Arguments poll : clear implicits.

(** A topic of a weighted group is never starved.  Among as many polls in a
    row as its interleave, whatever the lag of higher topics, the failures of
    brokers and stores and the order in which topics are visited, before at least
    one the topic is not paused for priority: it is fetched, unless an operator
    paused it. *)
Theorem weighted_topic_gets_turns {C} `{PauseControl C} (spec : TopicSpec) (ticks : gmap string Z)
    (polls : list (poll C)) :
  ts_Mode spec = ModeWeighted -> ts_Rank spec <> 0 -> ts_HigherTopics spec <> [] ->
  0 <= default 0 (ticks !! ts_Topic spec) ->
  Z.of_nat (length polls) = every_of spec ->
  Forall (fun p => visits_once spec (po_visits p)) polls ->
  exists c, c ∈ hook_runs ticks polls
    /\ (flag (cc_killswitchWant c) (ts_Topic spec) = false -> flag (cc_topicPaused c) (ts_Topic spec) = false).
Proof.
  intros Hm Hr Hh Hk Hn Hv. set (t := ts_Topic spec) in *. set (k := default 0 (ticks !! t)) in *.
  destruct (decide (Exists (fun c => flag (cc_topicPaused c) t && negb (flag (cc_killswitchWant c) t) = false)
                      (hook_runs ticks polls))) as [Hex|Hno].
  - apply Exists_exists in Hex as (c & Hc & E). exists c. split; [done|]. intros Ekill. rewrite Ekill in E.
    by rewrite andb_true_r in E.
  - exfalso. apply not_Exists_Forall in Hno; [|intros c; apply _].
    assert (1 <= every_of spec) as He by (unfold every_of; destruct (Z.ltb_spec (ts_WeightedInterleave spec) 1); lia).
    set (i := every_of spec - k mod every_of spec).
    pose proof (Z.mod_pos_bound k (every_of spec) ltac:(lia)) as Hb.
    refine (held_back_ticks spec polls ticks Hm Hr Hh Hv _ i _ _); [| |].
    + eapply Forall_impl; [exact Hno|]. intros c Hc. by apply not_false_is_true.
    + subst i. lia.
    + fold t k. apply Z.rem_divide; [lia|]. exists (k / every_of spec + 1). subst i.
      pose proof (Z.div_mod k (every_of spec) ltac:(lia)). lia.
Qed.

Definition low_topic : TopicSpec := mkSpec "low" 1 "weighted" ["high"] "kb-fast" 3.

Definition busy_poll : poll (option Control) :=
  mkPoll (mkGate (sec 2) (Some 0) true) (Some (Some (NewControl false 0)))
    (newGroupConsumerClient ["high"; "low"]) (Backends (World empty_redis []) [] [])
    [(mkSpec "high" 0 "weighted" [] "kb-fast" 3, sec 1, LagFails "down"); (low_topic, sec 1, LagFails "down")].

Lemma weighted_topic_gets_turns_witness :
  (fun c => flag (cc_topicPaused c) "low") <$> hook_runs ∅ [busy_poll; busy_poll; busy_poll] = [true; true; false]
  /\ exists c, c ∈ hook_runs ∅ [busy_poll; busy_poll; busy_poll]
    /\ (flag (cc_killswitchWant c) "low" = false -> flag (cc_topicPaused c) "low" = false).
Proof.
  split; [vm_compute; reflexivity|].
  apply (weighted_topic_gets_turns low_topic ∅ [busy_poll; busy_poll; busy_poll]).
  - reflexivity.
  - discriminate.
  - discriminate.
  - vm_compute. discriminate.
  - reflexivity.
  - repeat (apply Forall_cons; split); [| | |apply Forall_nil; exact I];
      (exists [(mkSpec "high" 0 "weighted" [] "kb-fast" 3, sec 1, LagFails "down")], (sec 1, LagFails "down"), [];
       split; [reflexivity|]; repeat constructor; discriminate).
Defined.

(** The gate of a group keeps one answer whatever topics it was asked about.
    Here the middle topic of a strict group of three has a backlog and the
    highest has none: asked first about the middle topic, the gate lets the
    lowest topic run; asked first about the lowest, it pauses the middle one. *)
Lemma gate_answers_for_other_topics :
  let group := TopicSpecs (mkConfig "a.yml" "fast" "kb-fast" "strict" ["p0"; "p1"; "p2"] 4) in
  let lag := LagGroup None {[ "p1" := [5] ]} in
  let hook order := (priorityPrePollHook (C := option Control)
      (mkHook (NewGate 0) None ∅ (newGroupConsumerClient ["p0"; "p1"; "p2"]))
      ((fun s => (s, 0, lag)) <$> order) (Backends (World empty_redis []) [] [])).2 in
  let paused order := (fun t => flag (cc_topicPaused (h_client (hook order))) t) <$> ["p0"; "p1"; "p2"] in
  paused group = [false; false; false] /\ paused (reverse group) = [false; true; true].
Proof. vm_compute. split; reflexivity. Qed.
