(* ===== verification/Engine.v ===== *)
(** The consumer with one goroutine per partition: pkg/daemon/partition_engine.go.

    The poll loop routes the batches of a poll to the workers of their
    partitions; a worker whose channel is full has its partition paused, and a
    goroutine waits to hand the batch over and then resumes the partition.
    Workers come and go with the group's assignments.  [step] is one action of
    one of these goroutines: a critical section of the engine's mutex, a channel
    operation, or the work between two of them.  Each worker also carries the
    history of what was routed to it and of what it handled. *)
From S2P Require Import Prelude Redis Client Kafka Protocol Fairness Store Control Job Produce Consumers.

Definition defaultPartitionPollRecords : Z := 500.
Definition defaultPartitionChanBuffer : Z := 2.

Definition effectivePartitionPoll (n : Z) : Z := if 0 <? n then n else defaultPartitionPollRecords.
Definition effectiveChanBuffer (n : Z) : Z := if n <? 1 then defaultPartitionChanBuffer else n.

(** The partitions the franz-go client does not fetch.  A pause lasts until the
    partition is resumed, whatever the group's assignments do. *)
Definition after_pause (p : tp) (paused : bool) (c : kcall) : bool :=
  match c with
  | PausePartition q => if decide (q = p) then true else paused
  | ResumePartition q => if decide (q = p) then false else paused
  | _ => paused
  end.
Definition fetch_paused (calls : list kcall) (p : tp) : bool := foldl (after_pause p) false calls.

Definition batch : Type := list krecord.

(** A worker and the goroutines that wait to hand it a batch. *)
Record partitionWorker := mkWorker {
  wk_key : tp;
  wk_recs : list batch;            (* the channel, oldest first *)
  wk_quit : bool;                  (* quit is closed *)
  wk_done : bool;                  (* done is closed *)
  wk_current : option batch;       (* the batch the worker handles *)
  wk_waiting : list batch;         (* goroutines that wait to send *)
  wk_resuming : nat;               (* goroutines that have sent and not yet resumed the partition *)
  wk_routed : list batch;          (* history *)
  wk_handled : list (batch * bool)
}.

Record engine := mkEngine {
  en_workers : gmap tp nat;              (* the workers map *)
  en_pool : gmap nat partitionWorker;    (* every worker ever started *)
  en_client : consumerClient
}.

Section engine.
Context (chanBuffer : Z).

Definition new_worker (p : tp) : partitionWorker := mkWorker p [] false false None [] 0 [] [].

Definition with_recs (w : partitionWorker) (recs : list batch) (routed : list batch) : partitionWorker :=
  mkWorker (wk_key w) recs (wk_quit w) (wk_done w) (wk_current w) (wk_waiting w) (wk_resuming w)
    routed (wk_handled w).
Definition with_current (w : partitionWorker) (recs : list batch) (cur : option batch)
    (handled : list (batch * bool)) : partitionWorker :=
  mkWorker (wk_key w) recs (wk_quit w) (wk_done w) cur (wk_waiting w) (wk_resuming w) (wk_routed w) handled.
Definition with_waiting (w : partitionWorker) (recs waiting : list batch) (resuming : nat) (routed : list batch)
    : partitionWorker :=
  mkWorker (wk_key w) recs (wk_quit w) (wk_done w) (wk_current w) waiting resuming routed (wk_handled w).
Definition with_stop (w : partitionWorker) (quit done : bool) : partitionWorker :=
  mkWorker (wk_key w) (wk_recs w) quit done (wk_current w) (wk_waiting w) (wk_resuming w) (wk_routed w)
    (wk_handled w).

Definition set_worker (e : engine) (id : nat) (w : partitionWorker) : engine :=
  mkEngine (en_workers e) (<[id := w]> (en_pool e)) (en_client e).
Definition set_client (e : engine) (c : consumerClient) : engine := mkEngine (en_workers e) (en_pool e) c.

(** assigned, for one partition; [id] is the new worker's. *)
Definition assigned (e : engine) (id : nat) (p : tp) : engine :=
  match en_workers e !! p with
  | Some _ => e
  | None => mkEngine (<[p := id]> (en_workers e)) (<[id := new_worker p]> (en_pool e)) (en_client e)
  end.

Definition room (w : partitionWorker) : bool := Z.of_nat (length (wk_recs w)) <? effectiveChanBuffer chanBuffer.

(** deliver: into the channel, or through a goroutine with the partition paused. *)
Definition deliver (e : engine) (id : nat) (w : partitionWorker) (b : batch) : engine :=
  if room w then set_worker e id (with_recs w (wk_recs w ++ [b]) (wk_routed w ++ [b]))
  else set_client
         (set_worker e id (with_waiting w (wk_recs w) (wk_waiting w ++ [b]) (wk_resuming w) (wk_routed w ++ [b])))
         (pauseEnginePartition (en_client e) (wk_key w)).

Definition workerFor (e : engine) (p : tp) : option (nat * partitionWorker) :=
  id ← en_workers e !! p; w ← en_pool e !! id; Some (id, w).

(** route, for one partition of a poll. *)
Definition route (e : engine) (p : tp) (b : batch) : engine :=
  match b with
  | [] => e
  | _ => match workerFor e p with
         | None => e
         | Some (id, w) => deliver e id w b
         end
  end.

Definition clearDeliverPauseTracking (c : consumerClient) (p : tp) : consumerClient :=
  set_engine c (cc_enginePaused c ∖ {[p]}).

(** stopPartitions, for one partition, up to the wait for the worker. *)
Definition stopPartition (e : engine) (p : tp) : engine :=
  match workerFor e p with
  | None => e
  | Some (id, w) =>
      mkEngine (delete p (en_workers e)) (<[id := with_stop w true (wk_done w)]> (en_pool e)) (en_client e)
  end.

(** What a worker does with the batch it has: mark it, or not when the handler
    returned an error. *)
Definition worker_marks (b : batch) (ok : bool) (c : consumerClient) : consumerClient :=
  if ok then send c (MarkCommit <$> b) else c.

(** No goroutine of an earlier worker of the partition is left. *)
Definition quiet_key (e : engine) (p : tp) : Prop :=
  forall id w, en_pool e !! id = Some w -> wk_key w = p -> wk_waiting w = [] /\ wk_resuming w = 0%nat.

(** One action.  A partition is assigned to the member once the goroutines of
    its earlier assignment have ended, and the client gives no records of a
    partition it does not fetch. *)
Inductive step : engine -> engine -> Prop :=
| step_assigned e id p :
    en_pool e !! id = None -> quiet_key e p -> step e (assigned e id p)
| step_route e p b :
    fetch_paused (cc_calls (en_client e)) p = false -> step e (route e p b)
| step_stop e p : step e (stopPartition e p)
| step_take e id w b recs :
    en_pool e !! id = Some w -> wk_done w = false -> wk_current w = None -> wk_recs w = b :: recs ->
    step e (set_worker e id (with_current w recs (Some b) (wk_handled w)))
| step_handled e id w b (ok : bool) :
    en_pool e !! id = Some w -> wk_current w = Some b ->
    step e (set_client (set_worker e id (with_current w (wk_recs w) None (wk_handled w ++ [(b, ok)])))
              (worker_marks b ok (en_client e)))
| step_exit e id w :
    en_pool e !! id = Some w -> wk_quit w = true -> wk_current w = None ->
    step e (set_worker e id (with_stop w true true))
| step_hand_over e id w pre b post :
    en_pool e !! id = Some w -> wk_waiting w = pre ++ b :: post -> room w = true ->
    step e (set_worker e id (with_waiting w (wk_recs w ++ [b]) (pre ++ post) (S (wk_resuming w)) (wk_routed w)))
| step_resume e id w n :
    en_pool e !! id = Some w -> wk_resuming w = S n ->
    step e (set_client (set_worker e id (with_waiting w (wk_recs w) (wk_waiting w) n (wk_routed w)))
              (resumeEnginePartition (en_client e) (wk_key w)))
| step_give_up e id w pre b post (stopped : bool) :
    (* quit closed, or the loop's context done *)
    en_pool e !! id = Some w -> wk_waiting w = pre ++ b :: post -> stopped || wk_quit w = true ->
    step e (set_client (set_worker e id (with_waiting w (wk_recs w) (pre ++ post) (wk_resuming w) (wk_routed w)))
              (clearDeliverPauseTracking (en_client e) (wk_key w)))
| step_other e calls :
    (* the rest of the loop, which pauses and resumes topics only *)
    Forall (fun k => match k with PauseTopic _ | ResumeTopic _ => True | _ => False end) calls ->
    step e (set_client e (send (en_client e) calls)).

Definition start (topics : list string) : engine := mkEngine ∅ ∅ (newGroupConsumerClient topics).

Definition reachable (topics : list string) (e : engine) : Prop := rtc step (start topics) e.

End engine.
