(* ===== verification/EngineProps.v ===== *)
(** The properties of the consumer with one goroutine per partition: batches of
    a partition are handled in the order they were fetched, whatever the
    goroutines of the engine do. *)
From S2P Require Import Prelude Redis Client Kafka Protocol Fairness Store Control Job Produce Consumers Engine.

#[local] Arguments fetch_paused : simpl never.
#[local] Arguments pauseEnginePartition : simpl never.

(** ** Pauses of partitions *)

Lemma fetch_paused_app (l k : list kcall) (p : tp) :
  fetch_paused (l ++ k) p = foldl (after_pause p) (fetch_paused l p) k.
Proof. apply foldl_app. Qed.

Lemma fetch_paused_other (l k : list kcall) (p : tp) :
  Forall (fun c => c <> PausePartition p /\ c <> ResumePartition p) k ->
  fetch_paused (l ++ k) p = fetch_paused l p.
Proof.
  intros Hk. rewrite fetch_paused_app. generalize (fetch_paused l p) as b.
  induction Hk as [|c k [H1 H2] Hk IH]; intros b; [done|]. simpl foldl. rewrite IH.
  destruct c; cbn; try done; by rewrite decide_False by congruence.
Qed.

Lemma pauseEngine_spec (c : consumerClient) (p q : tp) :
  let c' := pauseEnginePartition c p in
  (fetch_paused (cc_calls c) p = true \/ p ∉ cc_enginePaused c -> fetch_paused (cc_calls c') p = true)
  /\ (fetch_paused (cc_calls c) q = true -> fetch_paused (cc_calls c') q = true)
  /\ (forall r, MarkCommit r ∈ cc_calls c' <-> MarkCommit r ∈ cc_calls c)
  /\ cc_enginePaused c' = {[p]} ∪ cc_enginePaused c.
Proof.
  unfold pauseEnginePartition; cbn. case_bool_decide as Hp; cbn.
  - split_and!; [naive_solver|done|done|set_solver].
  - rewrite !fetch_paused_app; cbn. rewrite decide_True by done.
    split_and!; [done|case_decide; naive_solver| |done].
    intros r. rewrite elem_of_app, list_elem_of_singleton. naive_solver.
Qed.

(** ** The invariant *)

Section inv.
Context (chanBuffer : Z).
Implicit Types (e : engine) (w : partitionWorker) (p : tp).

Definition paused_in e p : Prop := fetch_paused (cc_calls (en_client e)) p = true.

(** The batches a worker has not been given: those that wait and those dropped
    when the goroutine that held them gave up. *)
Definition queue_of w (lost : list batch) : list batch :=
  (wk_handled w).*1 ++ option_list (wk_current w) ++ wk_recs w ++ wk_waiting w ++ lost.

Definition outstanding w (lost : list batch) : nat := (length (wk_waiting w ++ lost) + wk_resuming w)%nat.

Record worker_inv e (id : nat) w : Prop := {
  wi_order : exists lost, wk_routed w = queue_of w lost /\ (outstanding w lost <= 1)%nat
    /\ (en_workers e !! wk_key w = Some id -> outstanding w lost = 1%nat -> paused_in e (wk_key w));
  wi_room : Z.of_nat (length (wk_recs w)) <= effectiveChanBuffer chanBuffer;
  wi_alone : wk_waiting w <> [] \/ wk_resuming w <> 0%nat ->
    en_workers e !! wk_key w = Some id \/ en_workers e !! wk_key w = None
}.

Record engine_inv e : Prop := {
  ei_map p id : en_workers e !! p = Some id -> exists w, en_pool e !! id = Some w /\ wk_key w = p;
  ei_workers id w : en_pool e !! id = Some w -> worker_inv e id w;
  ei_tracking p : p ∈ cc_enginePaused (en_client e) -> paused_in e p;
  ei_marks r : MarkCommit r ∈ cc_calls (en_client e) ->
    exists id w b, en_pool e !! id = Some w /\ (b, true) ∈ wk_handled w /\ r ∈ b
}.

(** A worker keeps its invariant when the map of workers keeps what it says of
    its key and no pause of its key is undone. *)
Lemma worker_inv_mono e e' (id : nat) w :
  en_workers e' !! wk_key w = en_workers e !! wk_key w ->
  (en_workers e !! wk_key w = Some id -> paused_in e (wk_key w) -> paused_in e' (wk_key w)) ->
  worker_inv e id w -> worker_inv e' id w.
Proof.
  intros Ew Hp [(lost & Hr & Ho & Hl) Hroom Hal]. constructor.
  - exists lost. rewrite Ew. eauto.
  - done.
  - by rewrite Ew.
Qed.

(** One worker changes, in place. *)
Lemma engine_inv_set e (id : nat) w w' (c : consumerClient) :
  engine_inv e -> en_pool e !! id = Some w -> wk_key w' = wk_key w ->
  worker_inv (set_client (set_worker e id w') c) id w' ->
  (forall id' w', id' <> id -> en_pool e !! id' = Some w' -> en_workers e !! wk_key w' = Some id' ->
     paused_in e (wk_key w') -> fetch_paused (cc_calls c) (wk_key w') = true) ->
  (forall p, p ∈ cc_enginePaused c -> fetch_paused (cc_calls c) p = true) ->
  (forall r, MarkCommit r ∈ cc_calls c -> MarkCommit r ∈ cc_calls (en_client e)
     \/ exists b, (b, true) ∈ wk_handled w' /\ r ∈ b) ->
  (wk_handled w ⊆ wk_handled w') ->
  engine_inv (set_client (set_worker e id w') c).
Proof.
  intros [Hm Hw Ht Hk] Hid Hkey Hw' Hother Htr Hmarks Hsub. constructor; cbn.
  - intros p id' Hp. destruct (Hm p id' Hp) as (w0 & H0 & <-). destruct (decide (id' = id)) as [->|Hne].
    + exists w'. rewrite lookup_insert_eq. simplify_eq. done.
    + exists w0. by rewrite lookup_insert_ne.
  - intros id' w0 H0. destruct (decide (id' = id)) as [->|Hne].
    + rewrite lookup_insert_eq in H0. by simplify_eq.
    + rewrite lookup_insert_ne in H0 by done.
      apply (worker_inv_mono e); [reflexivity| |by apply Hw]. intros Hl Hp. by eapply Hother.
  - exact Htr.
  - intros r Hr. destruct (Hmarks r Hr) as [Hr'|(b & Hb & Hrb)].
    + destruct (Hk r Hr') as (id' & w0 & b & H0 & Hb & Hrb). destruct (decide (id' = id)) as [->|Hne].
      * exists id, w', b. rewrite lookup_insert_eq. simplify_eq. set_solver.
      * exists id', w0, b. by rewrite lookup_insert_ne.
    + exists id, w', b. by rewrite lookup_insert_eq.
Qed.

(** One worker changes, and the client does not. *)
Lemma engine_inv_worker e (id : nat) w w' :
  engine_inv e -> en_pool e !! id = Some w -> wk_key w' = wk_key w -> wk_handled w' = wk_handled w ->
  worker_inv e id w' -> engine_inv (set_worker e id w').
Proof.
  intros He Hid Hkey Hh Hw'. change (set_worker e id w') with (set_client (set_worker e id w') (en_client e)).
  eapply engine_inv_set; [exact He|exact Hid|exact Hkey| | | | |by rewrite Hh].
  - by apply (worker_inv_mono e).
  - by intros.
  - apply (ei_tracking e He).
  - by left.
Qed.

(** ** The steps keep it *)

Lemma inv_assigned e (id : nat) p :
  en_pool e !! id = None -> quiet_key e p -> engine_inv e -> engine_inv (assigned e id p).
Proof.
  intros Hid Hq He. unfold assigned. destruct (en_workers e !! p) as [i|] eqn:Hp; [done|].
  destruct He as [Hm Hw Ht Hk]. constructor; cbn.
  - intros q i. destruct (decide (q = p)) as [->|Hne].
    + rewrite lookup_insert_eq. intros [= <-]. eexists. by rewrite lookup_insert_eq.
    + rewrite lookup_insert_ne by done. intros Hq'. destruct (Hm q i Hq') as (w & Hw' & <-).
      exists w. by rewrite lookup_insert_ne by congruence.
  - intros i w. destruct (decide (i = id)) as [->|Hne].
    + rewrite lookup_insert_eq. intros [= <-]. constructor; cbn.
      * exists []. split_and!; [done|cbn; lia|]. intros _ [=].
      * unfold effectiveChanBuffer, defaultPartitionChanBuffer. destruct (Z.ltb_spec chanBuffer 1); lia.
      * by intros [[]|[]].
    + rewrite lookup_insert_ne by done. intros Hi. destruct (decide (wk_key w = p)) as [Ek|Hne'].
      * destruct (Hq i w Hi Ek) as [E1 E2]. destruct (Hw i w Hi) as [(lost & Hr & Ho & _) Hroom _].
        constructor; cbn; [|done|rewrite E1, E2; by intros [[]|[]]].
        exists lost. split_and!; [done..|]. rewrite Ek, lookup_insert_eq. intros [= ->]. done.
      * apply (worker_inv_mono e); [cbn; by rewrite lookup_insert_ne by congruence|done|by apply Hw].
  - exact Ht.
  - intros r Hr. destruct (Hk r Hr) as (i & w & b & Hi & Hb). exists i, w, b.
    by rewrite lookup_insert_ne by congruence.
Qed.

Lemma workerFor_spec e p (id : nat) w :
  engine_inv e -> workerFor e p = Some (id, w) ->
  en_workers e !! p = Some id /\ en_pool e !! id = Some w /\ wk_key w = p.
Proof.
  intros He. unfold workerFor. intros (i & Hi & Hx)%bind_Some. apply bind_Some in Hx as (w' & Hw & [= -> ->]).
  destruct (ei_map e He p id Hi) as (w0 & H0 & Hk). simplify_eq. done.
Qed.

Lemma inv_route e p (b : batch) :
  fetch_paused (cc_calls (en_client e)) p = false -> engine_inv e -> engine_inv (route chanBuffer e p b).
Proof.
  intros Hp He. unfold route. destruct b as [|r b]; [done|].
  destruct (workerFor e p) as [[id w]|] eqn:Hwf; [|done].
  destruct (workerFor_spec e p id w He Hwf) as (Hi & Hid & Hk). set (bb := r :: b).
  destruct (ei_workers e He id w Hid) as [(lost & Hr & Ho & Hl) Hroom Hal].
  assert (outstanding w lost = 0%nat) as H0.
  { rewrite Hk in Hl. destruct (decide (outstanding w lost = 1%nat)) as [E|]; [|lia].
    specialize (Hl Hi E). unfold paused_in in Hl. congruence. }
  unfold outstanding in H0. assert (wk_waiting w = [] /\ lost = [] /\ wk_resuming w = 0%nat) as (E1 & -> & E2).
  { destruct (wk_waiting w), lost; cbn in H0; (done || lia). }
  unfold queue_of in Hr. rewrite E1, !app_nil_r in Hr. unfold deliver. destruct (room chanBuffer w) eqn:Hm.
  - eapply engine_inv_worker; [done|exact Hid|done|done|]. constructor; cbn.
    + exists []. unfold queue_of, outstanding; cbn. rewrite E1, E2, Hr, !app_nil_r, <-!app_assoc.
      split_and!; [done|cbn; lia|]. intros _ [=].
    + rewrite length_app; cbn. apply Z.ltb_lt in Hm. lia.
    + done.
  - destruct (pauseEngine_spec (en_client e) p p) as (Ha & _ & Hmk & Het).
    assert (forall q, paused_in e q -> fetch_paused (cc_calls (pauseEnginePartition (en_client e) p)) q = true) as Hq
      by (intros q; apply pauseEngine_spec).
    assert (fetch_paused (cc_calls (pauseEnginePartition (en_client e) p)) p = true) as Hpp.
    { apply Ha. right. intros Hin. apply (ei_tracking e He) in Hin. unfold paused_in in Hin. congruence. }
    rewrite Hk. eapply engine_inv_set; [done|exact Hid|done| | | | |done].
    + constructor; cbn.
      * exists []. unfold queue_of, outstanding; cbn. rewrite E1, E2, Hr, !app_nil_r, <-!app_assoc.
        split_and!; [done|cbn; lia|]. intros _ _. unfold paused_in; cbn. by rewrite Hk.
      * done.
      * intros _. left. by rewrite Hk.
    + intros id' w' _ _ _. apply Hq.
    + intros q. rewrite Het. intros [->%elem_of_singleton|Hq']%elem_of_union; [done|].
      apply Hq, (ei_tracking e He), Hq'.
    + intros r'. rewrite Hmk. by left.
Qed.

Lemma inv_stop e p : engine_inv e -> engine_inv (stopPartition e p).
Proof.
  intros He. unfold stopPartition. destruct (workerFor e p) as [[id w]|] eqn:Hwf; [|done].
  destruct (workerFor_spec e p id w He Hwf) as (Hi & Hid & Hk). destruct He as [Hm Hw Ht Hk']. constructor; cbn.
  - intros q i. rewrite lookup_delete_Some. intros [Hne Hq]. destruct (Hm q i Hq) as (w' & Hw' & <-).
    exists w'. rewrite lookup_insert_ne; [done|]. intros ->. simplify_eq.
  - intros i w' Hi'. destruct (decide (i = id)) as [->|Hne].
    + rewrite lookup_insert_eq in Hi'. simplify_eq. destruct (Hw id w Hid) as [(lost & Hr & Ho & _) Hroom _].
      constructor; cbn; [|done|by right; rewrite lookup_delete_eq].
      exists lost. split_and!; [done..|]. by rewrite lookup_delete_eq.
    + rewrite lookup_insert_ne in Hi' by done. destruct (decide (wk_key w' = p)) as [Ek|Hnk].
      * destruct (Hw i w' Hi') as [(lost & Hr & Ho & _) Hroom _].
        constructor; cbn; [|done|by right; rewrite Ek, lookup_delete_eq].
        exists lost. split_and!; [done..|]. by rewrite Ek, lookup_delete_eq.
      * apply (worker_inv_mono e); [cbn; by rewrite lookup_delete_ne by congruence|done|by apply Hw].
  - exact Ht.
  - intros r Hr. destruct (Hk' r Hr) as (i & w' & b & Hi' & Hb). destruct (decide (i = id)) as [->|Hne].
    + exists id. eexists. exists b. rewrite lookup_insert_eq. split; [done|]. simplify_eq. exact Hb.
    + exists i, w', b. by rewrite lookup_insert_ne.
Qed.

Lemma inv_take e (id : nat) w (b : batch) (recs : list batch) :
  en_pool e !! id = Some w -> wk_current w = None -> wk_recs w = b :: recs -> engine_inv e ->
  engine_inv (set_worker e id (with_current w recs (Some b) (wk_handled w))).
Proof.
  intros Hid Hc Hr He. eapply engine_inv_worker; [done|exact Hid|done|done|].
  destruct (ei_workers e He id w Hid) as [(lost & Hq & Ho & Hl) Hroom Hal]. constructor; cbn.
  - exists lost. split_and!; [|done..]. rewrite Hq. unfold queue_of; cbn. by rewrite Hc, Hr.
  - rewrite Hr in Hroom. cbn [length] in Hroom. lia.
  - done.
Qed.

Lemma inv_handled e (id : nat) w (b : batch) (ok : bool) :
  en_pool e !! id = Some w -> wk_current w = Some b -> engine_inv e ->
  engine_inv (set_client (set_worker e id (with_current w (wk_recs w) None (wk_handled w ++ [(b, ok)])))
                (worker_marks b ok (en_client e))).
Proof.
  intros Hid Hc He. set (c := worker_marks b ok (en_client e)).
  assert (forall q, fetch_paused (cc_calls c) q = fetch_paused (cc_calls (en_client e)) q) as Hsame.
  { intros q. unfold c, worker_marks. destruct ok; [|done]. apply fetch_paused_other.
    apply Forall_fmap, Forall_true. intros r; cbn. split; discriminate. }
  eapply engine_inv_set; [done|exact Hid|done| | | | |].
  - destruct (ei_workers e He id w Hid) as [(lost & Hq & Ho & Hl) Hroom Hal].
    constructor; [|exact Hroom|exact Hal]. exists lost. split_and!; [|exact Ho|].
    + cbn. rewrite Hq. unfold queue_of; cbn. rewrite Hc, fmap_app, <-app_assoc. done.
    + cbn. intros H1 H2. unfold paused_in; cbn. rewrite Hsame. by apply Hl.
  - intros id' w' _ _ _. by rewrite Hsame.
  - intros q. rewrite Hsame. unfold c, worker_marks. destruct ok; apply (ei_tracking e He).
  - intros r. unfold c, worker_marks. destruct ok; [|by left]. cbn.
    intros [Hr|(r' & [= ->] & Hr')%list_elem_of_fmap]%elem_of_app; [by left|]. right. exists b. set_solver.
  - set_solver.
Qed.

Lemma inv_exit e (id : nat) w :
  en_pool e !! id = Some w -> engine_inv e -> engine_inv (set_worker e id (with_stop w true true)).
Proof.
  intros Hid He. eapply engine_inv_worker; [done|exact Hid|done|done|].
  by destruct (ei_workers e He id w Hid); constructor.
Qed.

Lemma alone_in_queue (pre post lost : list batch) (b : batch) (n : nat) :
  (length ((pre ++ b :: post) ++ lost) + n <= 1)%nat -> pre = [] /\ post = [] /\ lost = [] /\ n = 0%nat.
Proof.
  rewrite !length_app; cbn. destruct pre; [|cbn; lia]. destruct post; [|cbn; lia].
  destruct lost; [|cbn; lia]. cbn. intros. split_and!; (done || lia).
Qed.

Lemma inv_hand_over e (id : nat) w (pre post : list batch) (b : batch) :
  en_pool e !! id = Some w -> wk_waiting w = pre ++ b :: post -> room chanBuffer w = true -> engine_inv e ->
  engine_inv (set_worker e id (with_waiting w (wk_recs w ++ [b]) (pre ++ post) (S (wk_resuming w)) (wk_routed w))).
Proof.
  intros Hid Hwt Hm He. eapply engine_inv_worker; [done|exact Hid|done|done|].
  destruct (ei_workers e He id w Hid) as [(lost & Hq & Ho & Hl) Hroom Hal].
  unfold outstanding, queue_of in *. rewrite Hwt in *.
  destruct (alone_in_queue _ _ _ _ _ Ho) as (-> & -> & -> & E). rewrite E in *. cbn in Hl. constructor; cbn.
  - exists []. unfold queue_of, outstanding; cbn. rewrite Hq, ?E, !app_nil_r. split_and!; [done|lia|].
    intros H1 _. by apply Hl.
  - rewrite length_app; cbn. apply Z.ltb_lt in Hm. lia.
  - intros _. apply Hal. by left.
Qed.

Lemma inv_resume e (id : nat) w (n : nat) :
  en_pool e !! id = Some w -> wk_resuming w = S n -> engine_inv e ->
  engine_inv (set_client (set_worker e id (with_waiting w (wk_recs w) (wk_waiting w) n (wk_routed w)))
                (resumeEnginePartition (en_client e) (wk_key w))).
Proof.
  intros Hid Hn He. destruct (ei_workers e He id w Hid) as [(lost & Hq & Ho & Hl) Hroom Hal].
  assert (wk_waiting w = [] /\ lost = [] /\ n = 0%nat) as (E1 & -> & ->).
  { unfold outstanding in Ho. rewrite Hn, length_app in Ho. destruct (wk_waiting w), lost; cbn in Ho; try lia. split_and!; (done || lia). }
  assert (forall q, q <> wk_key w -> fetch_paused (cc_calls (resumeEnginePartition (en_client e) (wk_key w))) q
    = fetch_paused (cc_calls (en_client e)) q) as Hsame.
  { intros q Hne. apply fetch_paused_other. apply Forall_singleton. split; congruence. }
  eapply engine_inv_set; [done|exact Hid|done| | | | |done].
  - constructor; [|exact Hroom|].
    + exists []. unfold queue_of, outstanding in *; cbn in *. rewrite E1 in *. split_and!; [done|cbn; lia|]. intros _ [=].
    + cbn. rewrite E1. by intros [[]|[]].
  - intros id' w' Hne Hid' Hlive Hp. rewrite Hsame; [done|]. intros Ek.
    destruct Hal as [Ha|Ha]; [right; by rewrite Hn| |]; rewrite <-Ek in Ha; rewrite Ha in Hlive; congruence.
  - intros q. cbn. intros Hq'. apply elem_of_difference in Hq' as [Hq1 Hq2].
    assert (q <> wk_key w) as Hne by set_solver.
    transitivity (fetch_paused (cc_calls (en_client e)) q); [by apply Hsame|by apply (ei_tracking e He)].
  - intros r. cbn. intros [Hr|Hr%list_elem_of_singleton]%elem_of_app; [by left|done].
Qed.

Lemma inv_give_up e (id : nat) w (pre post : list batch) (b : batch) :
  en_pool e !! id = Some w -> wk_waiting w = pre ++ b :: post -> engine_inv e ->
  engine_inv (set_client (set_worker e id (with_waiting w (wk_recs w) (pre ++ post) (wk_resuming w) (wk_routed w)))
                (clearDeliverPauseTracking (en_client e) (wk_key w))).
Proof.
  intros Hid Hwt He. destruct (ei_workers e He id w Hid) as [(lost & Hq & Ho & Hl) Hroom Hal].
  unfold outstanding, queue_of in *. rewrite Hwt in *.
  destruct (alone_in_queue _ _ _ _ _ Ho) as (-> & -> & -> & E). rewrite E in *.
  eapply engine_inv_set; [done|exact Hid|done| | | | |done].
  - constructor; [|exact Hroom|cbn; rewrite ?E; by intros [[]|[]]].
    exists [b]. unfold queue_of, outstanding; cbn. rewrite ?E. split_and!; [exact Hq|lia|].
    intros H1 _. by apply Hl.
  - by intros.
  - intros q. cbn. intros Hq'. apply elem_of_difference in Hq' as [Hq1 _]. by apply (ei_tracking e He).
  - by left.
Qed.

Lemma inv_other e (calls : list kcall) :
  Forall (fun k => match k with PauseTopic _ | ResumeTopic _ => True | _ => False end) calls ->
  engine_inv e -> engine_inv (set_client e (send (en_client e) calls)).
Proof.
  intros Hc [Hm Hw Ht Hk].
  assert (forall q, fetch_paused (cc_calls (en_client e) ++ calls) q = fetch_paused (cc_calls (en_client e)) q) as Hsame.
  { intros q. apply fetch_paused_other. eapply Forall_impl; [exact Hc|]. intros k Hk'. by destruct k. }
  constructor; cbn.
  - exact Hm.
  - intros id w Hid. apply (worker_inv_mono e); [done| |by apply Hw]. intros _. unfold paused_in; cbn. by rewrite Hsame.
  - intros p Hp. unfold paused_in; cbn. rewrite Hsame. by apply Ht.
  - intros r [Hr|Hr]%elem_of_app; [by apply Hk|]. rewrite Forall_forall in Hc. by apply Hc in Hr.
Qed.

Lemma step_inv e e' : step chanBuffer e e' -> engine_inv e -> engine_inv e'.
Proof.
  intros Hs He. destruct Hs;
    eauto using inv_assigned, inv_route, inv_stop, inv_take, inv_handled, inv_exit, inv_hand_over, inv_resume,
      inv_give_up, inv_other.
Qed.

Lemma reachable_inv (topics : list string) e : reachable chanBuffer topics e -> engine_inv e.
Proof.
  intros Hr. refine (rtc_ind_r (fun e => engine_inv e) (start topics) _ _ e Hr).
  - constructor; cbn; [done|done|set_solver|]. intros r Hr'. by apply elem_of_nil in Hr'.
  - intros y z _ Hs. by apply step_inv.
Qed.

(** ** A partition nobody resumes *)

Lemma quiet_set e (id : nat) w w' p (c : consumerClient) :
  en_pool e !! id = Some w -> wk_key w' = wk_key w -> quiet_key e p ->
  (wk_key w = p -> wk_waiting w' = [] /\ wk_resuming w' = 0%nat) ->
  quiet_key (set_client (set_worker e id w') c) p.
Proof.
  intros Hid Hk Hq Hw' i w0 Hi Hk0. cbn in Hi. destruct (decide (i = id)) as [->|Hne].
  - rewrite lookup_insert_eq in Hi. simplify_eq. apply Hw'. congruence.
  - rewrite lookup_insert_ne in Hi by done. eauto.
Qed.

Lemma quiet_waiting e (id : nat) w p (pre post : list batch) (b : batch) :
  quiet_key e p -> en_pool e !! id = Some w -> wk_waiting w = pre ++ b :: post -> wk_key w <> p.
Proof. intros Hq Hid Hw Hk. destruct (Hq id w Hid Hk) as [E _]. rewrite E in Hw. by destruct pre. Qed.

Lemma step_stays_paused e e' p :
  step chanBuffer e e' -> engine_inv e -> quiet_key e p -> paused_in e p -> quiet_key e' p /\ paused_in e' p.
Proof.
  intros Hs He Hq Hp. destruct Hs as [e id q Hid Hq'|e q b Hf|e q|e id w b recs Hid|e id w b ok Hid Hc|e id w Hid|
    e id w pre b post Hid Hw Hm|e id w n Hid Hn|e id w pre b post st Hid Hw _|e calls Hc].
  - unfold assigned. destruct (en_workers e !! q); [done|]. split; [|exact Hp]. intros i w Hi Hk. cbn in Hi.
    destruct (decide (i = id)) as [->|Hne]; [rewrite lookup_insert_eq in Hi; by simplify_eq|].
    rewrite lookup_insert_ne in Hi by done. eauto.
  - unfold route. destruct b as [|r b]; [done|]. destruct (workerFor e q) as [[id w]|] eqn:Hwf; [|done].
    destruct (workerFor_spec e q id w He Hwf) as (Hi & Hid & Hk).
    assert (q <> p) as Hne by (intros ->; unfold paused_in in Hp; congruence).
    unfold deliver. destruct (room chanBuffer w).
    + split; [|exact Hp]. eapply (quiet_set e id w _ p (en_client e)); [done..|]. congruence.
    + split; [eapply quiet_set; [done..|congruence]|]. unfold paused_in; cbn. by apply pauseEngine_spec.
  - unfold stopPartition. destruct (workerFor e q) as [[id w]|] eqn:Hwf; [|done].
    destruct (workerFor_spec e q id w He Hwf) as (Hi & Hid & Hk). split; [|exact Hp].
    intros i w0 Hi0 Hk0. cbn in Hi0. destruct (decide (i = id)) as [->|Hne].
    + rewrite lookup_insert_eq in Hi0. simplify_eq. by apply (Hq id w).
    + rewrite lookup_insert_ne in Hi0 by done. eauto.
  - split; [|exact Hp]. eapply (quiet_set e id w _ p (en_client e)); [done..|]. intros Hk. by apply (Hq id w).
  - split; [eapply quiet_set; [done..|]; intros Hk; by apply (Hq id w)|]. unfold paused_in; cbn.
    unfold worker_marks. destruct ok; [|exact Hp]. cbn. rewrite fetch_paused_other; [exact Hp|].
    apply Forall_fmap, Forall_true. intros r; cbn. split; discriminate.
  - split; [|exact Hp]. eapply (quiet_set e id w _ p (en_client e)); [done..|]. intros Hk. by apply (Hq id w).
  - pose proof (quiet_waiting _ _ _ _ _ _ _ Hq Hid Hw). split; [|exact Hp].
    by eapply (quiet_set e id w _ p (en_client e)).
  - assert (wk_key w <> p) as Hne. { intros Hk. destruct (Hq id w Hid Hk) as [_ E]. congruence. }
    split; [by eapply quiet_set|]. unfold paused_in; cbn. rewrite fetch_paused_other; [exact Hp|].
    apply Forall_singleton. split; congruence.
  - pose proof (quiet_waiting _ _ _ _ _ _ _ Hq Hid Hw). by split; [eapply quiet_set|].
  - split; [exact Hq|]. unfold paused_in; cbn. rewrite fetch_paused_other; [exact Hp|].
    eapply Forall_impl; [exact Hc|]. intros k Hk'. by destruct k.
Qed.

(** A partition that is paused when no goroutine of the engine is left to resume
    it is never fetched again, whatever the engine does. *)
Lemma abandoned_pause_lasts (topics : list string) e e' p :
  reachable chanBuffer topics e -> quiet_key e p -> paused_in e p ->
  rtc (step chanBuffer) e e' -> paused_in e' p.
Proof.
  intros Hr%reachable_inv Hq Hp Hs. enough (engine_inv e' /\ quiet_key e' p /\ paused_in e' p) by naive_solver.
  revert Hr Hq Hp. induction Hs as [e|e e1 e' Hs _ IH]; intros; [done|].
  destruct (step_stays_paused _ _ _ Hs Hr Hq Hp). apply IH; [by eapply step_inv|done..].
Qed.

End inv.

(** C34: The batches of a partition are handled in the order they were fetched.
    In every interleaving of the poll loop, the workers, the goroutines that wait
    to hand a batch over and the changes of assignment: what was routed to a
    worker is what it has handled, then the batch it is handling, then its
    channel, then at most one more batch, during which the partition is not
    fetched; the channel stays within its capacity; and only records of batches
    whose handler succeeded are marked. *)
Theorem engine_handles_in_order (chanBuffer : Z) (topics : list string) (e : engine) (id : nat)
    (w : partitionWorker) :
  reachable chanBuffer topics e -> en_pool e !! id = Some w ->
  (exists rest, wk_routed w = (wk_handled w).*1 ++ option_list (wk_current w) ++ wk_recs w ++ rest
     /\ wk_waiting w `prefix_of` rest /\ (length rest <= 1)%nat
     /\ (en_workers e !! wk_key w = Some id -> rest <> [] ->
         fetch_paused (cc_calls (en_client e)) (wk_key w) = true))
  /\ Z.of_nat (length (wk_recs w)) <= effectiveChanBuffer chanBuffer
  /\ (forall r, MarkCommit r ∈ cc_calls (en_client e) ->
      exists id w b, en_pool e !! id = Some w /\ (b, true) ∈ wk_handled w /\ r ∈ b).
Proof.
  intros Hr%reachable_inv Hid. destruct (ei_workers _ _ Hr id w Hid) as [(lost & Hq & Ho & Hl) Hroom _].
  split_and!; [|done|apply (ei_marks _ _ Hr)]. exists (wk_waiting w ++ lost). unfold outstanding in *.
  split_and!; [exact Hq|by apply prefix_app_r|lia|]. intros Hlive Hne. apply Hl; [done|].
  destruct (wk_waiting w ++ lost); [done|]. cbn [length] in *. lia.
Qed.

Definition rec_at (o : Z) : krecord := mkK "t" 0 o "v".
Definition key0 : tp := ("t", 0).

(** A worker with a channel of one: the first batch handled, the second in its
    hands, the third in the channel, the fourth waiting with the partition paused. *)
Definition busy_worker : partitionWorker :=
  mkWorker key0 [[rec_at 3]] false false (Some [rec_at 2]) [[rec_at 4]] 0
    [[rec_at 1]; [rec_at 2]; [rec_at 3]; [rec_at 4]] [([rec_at 1], true)].

Definition busy_client (engine_paused : gset tp) (calls : list kcall) : consumerClient :=
  mkClient ["t"] ∅ ∅ ∅ ∅ ∅ engine_paused calls.

Definition busy_engine : engine :=
  mkEngine {[key0 := 0%nat]} {[0%nat := busy_worker]}
    (busy_client {[key0]} [MarkCommit (rec_at 1); PausePartition key0]).

Lemma busy_reachable : reachable 1 ["t"] busy_engine.
Proof.
  eapply rtc_l; [apply (step_assigned _ _ 0%nat key0); [reflexivity|intros ? ? [=]]|].
  eapply rtc_l; [by eapply (step_route _ _ key0 [rec_at 1])|].
  eapply rtc_l; [by eapply (step_take _ _ 0%nat)|].
  eapply rtc_l; [by eapply (step_handled _ _ 0%nat _ _ true)|].
  eapply rtc_l; [by eapply (step_route _ _ key0 [rec_at 2])|].
  eapply rtc_l; [by eapply (step_take _ _ 0%nat)|].
  eapply rtc_l; [by eapply (step_route _ _ key0 [rec_at 3])|].
  eapply rtc_l; [by eapply (step_route _ _ key0 [rec_at 4])|].
  match goal with |- rtc _ ?e _ => replace e with busy_engine by (vm_compute; reflexivity) end.
  apply rtc_refl.
Qed.

Lemma engine_handles_in_order_witness :
  (exists rest, [[rec_at 1]; [rec_at 2]; [rec_at 3]; [rec_at 4]] = [[rec_at 1]; [rec_at 2]; [rec_at 3]] ++ rest
     /\ wk_waiting busy_worker `prefix_of` rest /\ (length rest <= 1)%nat
     /\ (en_workers busy_engine !! key0 = Some 0%nat -> rest <> [] ->
         fetch_paused (cc_calls (en_client busy_engine)) key0 = true))
  /\ 1 <= effectiveChanBuffer 1
  /\ (forall r, MarkCommit r ∈ cc_calls (en_client busy_engine) ->
      exists id w b, en_pool busy_engine !! id = Some w /\ (b, true) ∈ wk_handled w /\ r ∈ b).
Proof.
  exact (engine_handles_in_order 1 ["t"] busy_engine 0%nat busy_worker busy_reachable eq_refl).
Defined.

(** The fourth batch's goroutine gives up when the partition is revoked and
    leaves the partition paused; the partition comes back to this member. *)
Definition abandoned_engine : engine :=
  mkEngine {[key0 := 1%nat]}
    {[0%nat := mkWorker key0 [[rec_at 3]] true false (Some [rec_at 2]) [] 0
         [[rec_at 1]; [rec_at 2]; [rec_at 3]; [rec_at 4]] [([rec_at 1], true)];
      1%nat := new_worker key0]}
    (busy_client ∅ [MarkCommit (rec_at 1); PausePartition key0]).

Lemma abandoned_reachable : reachable 1 ["t"] abandoned_engine.
Proof.
  unfold reachable. etransitivity; [exact busy_reachable|].
  eapply rtc_l; [apply (step_stop _ _ key0)|].
  eapply rtc_l; [by eapply (step_give_up _ _ 0%nat _ [] _ [] false)|].
  eapply rtc_l; [apply (step_assigned _ _ 1%nat key0); [reflexivity|]|].
  { intros id w Hid _. apply elem_of_map_to_list in Hid. vm_compute in Hid.
    apply list_elem_of_singleton in Hid. injection Hid as -> ->. done. }
  match goal with |- rtc _ ?e _ => replace e with abandoned_engine by (vm_compute; reflexivity) end.
  apply rtc_refl.
Qed.

(** A partition that is revoked while a batch waits for its worker and later
    assigned to the same member again has a worker and is never fetched. *)
Lemma reassigned_partition_never_fetched :
  reachable 1 ["t"] abandoned_engine /\ en_workers abandoned_engine !! key0 = Some 1%nat
  /\ forall e', rtc (step 1) abandoned_engine e' -> fetch_paused (cc_calls (en_client e')) key0 = true.
Proof.
  split_and!; [exact abandoned_reachable|reflexivity|]. intros e'.
  apply (abandoned_pause_lasts 1 ["t"]); [exact abandoned_reachable| |reflexivity].
  intros id w Hid _. apply elem_of_map_to_list in Hid. vm_compute in Hid.
  apply elem_of_cons in Hid as [Hid|Hid%list_elem_of_singleton]; injection Hid as -> ->; done.
Qed.

(** The same holds of a deferred pause: revoking the partition drops the record
    of the pause, so that its timer does not resume the partition. *)
Lemma deferred_pause_outlives_revoke (c : consumerClient) (p : tp) (offset : Z) :
  let c1 := pauseDeferredPartition c p offset in
  let c2 := dropDeferredForRevoked c1 [p] in
  let c3 := clearDeferredPartitionPause c2 p in
  c3 = c2 /\ fetch_paused (cc_calls c3) p = true /\ cc_deferredPaused c3 !! p = None.
Proof.
  cbn. set (c1 := pauseDeferredPartition c p offset).
  assert (fetch_paused (cc_calls c1) p = true) as Hp.
  { unfold c1, pauseDeferredPartition. destruct (match _ with Some _ => _ | None => _ end); cbn;
      rewrite !fetch_paused_app; cbn; by rewrite decide_True. }
  unfold clearDeferredPartitionPause. cbn. rewrite lookup_delete_eq. split_and!; [done|exact Hp|apply lookup_delete_eq].
Qed.
