(* ===== verification/Loops.v ===== *)
(** The loops around the consumers of pkg/daemon: the poll loop of a group
    (group_consumer.go), its stall watchdog (consumer_stall.go), the restarts of
    a loop that failed (consumers.go, watermark_consumers.go, partition_engine.go,
    retry_consumer.go, supervised.go) and the health of loops and consumers
    (loop_health.go, consumer_health.go).

    A loop is driven by its surroundings: each [round] says what the context, the
    broker and the pause switch do during one pass, so that a loop over a list of
    rounds has returned or is still running. *)
From S2P Require Import Prelude Redis Client Kafka Protocol Fairness Store Control Job Produce Consumers.

(** ** Contexts and errors *)

(** A context: live, or done with its cause. *)
Inductive cause := ContextEnded | ConsumerStalled.
Definition ctx : Type := option cause.

Inductive loopError :=
| ErrStalled                                   (* errConsumerStalled *)
| StalledRestart (group : string)              (* stalledRestartErr *)
| PollFailed (group topic : string) (e : string)
| ProcessFailed (e : string)
| ClientFailed (group : string) (e : string)
| LoopPanic.

(** What a fetch or a handler reports; [CtxErr] is what isContextErr recognises. *)
Inductive fetchError := CtxErr | OtherErr (e : string).

Definition consumerLoopDoneErr (c : ctx) : option loopError :=
  match c with
  | None => None
  | Some ConsumerStalled => Some ErrStalled
  | Some ContextEnded => None
  end.

(** The first error of a poll decides; a context error lets a rebalance through
    and is no error unless the watchdog caused it. *)
Fixpoint checkFetchErrs (c : ctx) (group : string) (errs : list (string * option fetchError))
    : bool * option loopError :=
  match errs with
  | [] => (false, None)
  | (_, None) :: errs => checkFetchErrs c group errs
  | (_, Some CtxErr) :: _ =>
      (true, match c with Some ConsumerStalled => Some (StalledRestart group) | _ => None end)
  | (topic, Some (OtherErr e)) :: _ => (false, Some (PollFailed group topic e))
  end.

(** ** The poll loop of a group *)

(** What the loop does to the group's client; [Allow] is AllowRebalance, which
    the client needs between two polls. *)
Inductive loopEvent := Allow | Poll (wait : Z) | Process (recs : list krecord).

Record round := mkRound {
  rd_ctx : ctx;                                        (* at the top of the loop *)
  rd_paused : option (tp -> bool);                     (* the pause switch *)
  rd_prePoll : consumerClient -> consumerClient;       (* onPrePoll *)
  rd_errs : list (string * option fetchError);         (* what the poll gave *)
  rd_recs : list krecord;
  rd_pollCtx : ctx;                                    (* after the poll *)
  rd_onPoll : consumerClient -> consumerClient
}.

Inductive loop_end := Running | Returned (e : loopError).

Section poll_loop.
Context (group : string).
Context (process : list krecord -> consumerClient -> kio (consumerClient * option fetchError)).

(** One pass: the client, the events and how the pass ends. *)
Definition poll_round (r : round) (c : consumerClient) : kio (consumerClient * list loopEvent * loop_end) :=
  match consumerLoopDoneErr (rd_ctx r) with
  | Some ErrStalled => mret (c, [], Returned (StalledRestart group))
  | Some e => mret (c, [], Returned e)
  | None =>
      let c := syncConsumptionFetchPause (rd_paused r) c in
      let c := rd_prePoll r c in
      let wait := pollWait c in
      let '(released, err) := checkFetchErrs (rd_pollCtx r) group (rd_errs r) in
      let polled := [Allow; Poll wait] ++ (if released then [Allow] else []) in
      match err with
      | Some e => mret (c, polled, Returned e)
      | None =>
          let c := rd_onPoll r c in
          let '(c, recs) := collectPollRecords (rd_paused r) c (rd_recs r) in
          '(c, evs, procErr) ←
            (if bool_decide (recs = []) then mret (c, [], None)
             else '(c, e) ← process recs c; mret (c, [Process recs], e));
          match procErr with
          | Some (OtherErr e) => mret (c, polled ++ evs, Returned (ProcessFailed e))
          | _ => mret (c, polled ++ evs ++ [Allow], Running)
          end
      end
  end.

Fixpoint runGroupPollLoop (rounds : list round) (c : consumerClient)
    : kio (consumerClient * list loopEvent * loop_end) :=
  match rounds with
  | [] => mret (c, [], Running)
  | r :: rounds =>
      '(c, evs, e) ← poll_round r c;
      match e with
      | Returned err => mret (c, evs, Returned err)
      | Running =>
          '(c, evs', e) ← runGroupPollLoop rounds c;
          mret (c, evs ++ evs', e)
      end
  end.

End poll_loop.

(** ** The bodies the loop runs *)

(** runConsumerLoop and the retry consumer: record by record, never an error. *)
Definition consumer_process (retry : bool) (handle : krecord -> kio handled) (recs : list krecord)
    (c : consumerClient) : kio (consumerClient * option fetchError) :=
  c ← process_records retry handle ∅ recs c; mret (c, None).

(** The executors take the whole batch. *)
Definition dispatch_process (dispatch : list krecord -> consumerClient -> kio consumerClient)
    (recs : list krecord) (c : consumerClient) : kio (consumerClient * option fetchError) :=
  c ← dispatch recs c; mret (c, None).

(** The priority consumers: records of unknown topics are dropped, the switch is
    asked again, and the rest is dispatched. *)
Definition priority_process (known : string -> bool) (paused : option (tp -> bool))
    (dispatch : list krecord -> consumerClient -> kio consumerClient) (recs : list krecord)
    (c : consumerClient) : kio (consumerClient * option fetchError) :=
  let '(c, ready) := filterPriorityRecords known paused c recs in
  if bool_decide (ready = []) then mret (c, None)
  else c ← dispatch ready c; mret (c, None).

Definition runConsumerLoop (group : string) (handle : krecord -> kio handled) :=
  runGroupPollLoop group (consumer_process false handle).
Definition runRetryConsumerLoop (group : string) (handle : krecord -> kio handled) :=
  runGroupPollLoop group (consumer_process true handle).
Definition runConcurrentConsumerLoop (group : string) dispatch := runGroupPollLoop group (dispatch_process dispatch).
Definition runWatermarkConsumerLoop (group : string) dispatch := runGroupPollLoop group (dispatch_process dispatch).
Definition runPriorityOnce (group : string) known paused dispatch :=
  runGroupPollLoop group (priority_process known paused dispatch).
Definition runWatermarkPriorityOnce (group : string) known paused dispatch :=
  runGroupPollLoop group (priority_process known paused dispatch).

(** ** The stall watchdog *)

Definition defaultConsumerStallTimeout : Z := sec 90.

Definition SetConsumerStallTimeout (setting d : Z) : Z := if 0 <? d then d else setting.
Definition effectiveStallTimeout (setting override : Z) : Z := if 0 <? override then override else setting.

Definition stallHeartbeatInterval (stall : Z) : Z :=
  let tick := Z.quot stall 6 in if tick <? 100000000 then 100000000 else tick.

(** The watchdog sees touches of the loop and its own ticks, in order of time. *)
Inductive guard_event := Touched (t : Z) | Ticked (t : Z).

(** The tick at which the watchdog closes the client, if it does. *)
Fixpoint stall_guard (stall last : Z) (evs : list guard_event) : option Z :=
  match evs with
  | [] => None
  | Touched t :: evs => stall_guard stall t evs
  | Ticked t :: evs => if t - last <=? stall then stall_guard stall last evs else Some t
  end.

(** ** Restarts *)

Definition consumerRestartInitial : Z := sec 1.
Definition consumerRestartMax : Z := sec 30.

Definition next_backoff (backoff : Z) : Z :=
  if backoff <? consumerRestartMax then Z.min (backoff * 2) consumerRestartMax else backoff.

(** One start of a loop: whether the context was done before and after it, how
    long it ran, what it returned (a recovered panic is an error), and whether
    the context ended during the wait. *)
Record attempt := mkAttempt {
  at_done : bool; at_ran : Z; at_err : option loopError; at_doneAfter : bool; at_doneWaiting : bool
}.

Inductive supervised := Restarting | Ended.

(** The waits of the supervisor.  [resets] is runLoopSupervised, which forgets
    the failures of a loop that ran for thirty seconds, wait included. *)
Fixpoint supervise (resets : bool) (backoff : Z) (l : list attempt) : list Z * supervised :=
  match l with
  | [] => ([], Restarting)
  | a :: l =>
      if at_done a then ([], Ended)
      else match at_err a with
      | None => ([], Ended)
      | Some _ =>
          if at_doneAfter a then ([], Ended)
          else if at_doneWaiting a then ([backoff], Ended)
          else
            let next := if resets && (sec 30 <=? at_ran a + backoff) then consumerRestartInitial
                        else next_backoff backoff in
            let '(waits, e) := supervise resets next l in (backoff :: waits, e)
      end
  end.

(** The consumers are restarted by the same loop, written out for each. *)
Definition runConsumerSupervised : list attempt -> list Z * supervised := supervise false consumerRestartInitial.
Definition runConcurrentConsumerSupervised := runConsumerSupervised.
Definition runPrioritySupervised := runConsumerSupervised.
Definition runWatermarkConsumerSupervised := runConsumerSupervised.
Definition runWatermarkPrioritySupervised := runConsumerSupervised.
Definition RunPartitionConsumer := runConsumerSupervised.
Definition runLoopSupervised : list attempt -> list Z * supervised := supervise true consumerRestartInitial.

(** ** Health *)

(** LoopHealth and ConsumerHealth: when each name was registered and last active. *)
Record Health := mkHealth {
  he_registered : gmap string Z; he_last : gmap string Z; he_maxStale : Z; he_bootGrace : Z
}.

Definition NewLoopHealth (heartbeat : Z) : Health :=
  mkHealth ∅ ∅ (if heartbeat * 3 <? sec 60 then sec 60 else heartbeat * 3) (sec 45).
Definition NewConsumerHealthTracker (maxStale bootGrace : Z) : Health :=
  mkHealth ∅ ∅ (if maxStale <=? 0 then sec 90 else maxStale) (if bootGrace <=? 0 then sec 45 else bootGrace).

Definition Register (h : Health) (name : string) (now : Z) : Health :=
  if String.eqb name "" then h
  else match he_registered h !! name with
  | Some _ => h
  | None => mkHealth (<[name := now]> (he_registered h)) (he_last h) (he_maxStale h) (he_bootGrace h)
  end.

(** RecordTick and RecordPoll. *)
Definition RecordTick (h : Health) (name : string) (now : Z) : Health :=
  if String.eqb name "" then h
  else
    mkHealth (match he_registered h !! name with
              | Some _ => he_registered h
              | None => <[name := now]> (he_registered h)
              end)
      (<[name := now]> (he_last h)) (he_maxStale h) (he_bootGrace h).

Definition stale_entry (h : Health) (now : Z) (e : string * Z) : bool :=
  match he_last h !! e.1 with
  | None => he_bootGrace h <? now - e.2
  | Some last => he_maxStale h <? now - last
  end.

(** The names that are stale; the probe fails when there is one. *)
Definition stale_names (h : Health) (now : Z) : list string :=
  (filter (fun e => stale_entry h now e = true) (map_to_list (he_registered h))).*1.
Definition Healthy (h : Health) (now : Z) : bool := bool_decide (stale_names h now = []).

Definition compositeHealthy (checks : list bool) : bool := forallb (fun b => b) checks.

(** ** Names of group members *)

Definition memberLabel (member members : Z) : string :=
  itoa (if member <? 1 then 1 else member) +:+ "/" +:+ itoa (if members <? 1 then 1 else members).

Definition healthMemberKey (group : string) (member members : Z) : string :=
  if String.eqb group "" then "" else if members <? 2 then group else group +:+ "#m" +:+ itoa member.

(** The consumer id and health key of each member of a group; [live] is the
    reporter's id, empty when there is none. *)
Definition member_ids (group live : string) (members : Z) : list (string * string) :=
  let members := if members <? 1 then 1 else members in
  (fun i => let member := Z.of_nat i in
            let label := memberLabel member members in
            ((if String.eqb live "" then group else live) +:+ ":" +:+ label, healthMemberKey group member members))
    <$> seq 1 (Z.to_nat members).
