(* ===== verification/LoopsProps.v ===== *)
(** The properties of the loops around the consumers: an offset is committed
    only when every record below it was handled, over whole runs of a consumer
    with restarts; the rebalance gate; restarts, the watchdog and health. *)
From S2P Require Import Prelude Redis Client Kafka Protocol Fairness Store Control Job Produce Consumers ConsumersProps Engine EngineProps Loops.

#[local] Arguments fetch_paused : simpl never.
#[local] Arguments position : simpl never.

(** ** A consumer over its whole life *)

(** Where the client fetches a partition next: SetOffsets moves it. *)
Definition after_seek (p : tp) (cur : Z) (c : kcall) : Z :=
  match c with SetOffsets m => default cur (m !! p) | _ => cur end.
Definition seek (p : tp) (cur : Z) (calls : list kcall) : Z := foldl (after_seek p) cur calls.

Definition of_part (p : tp) (recs : list krecord) : list krecord := filter (fun r => part_of r = p) recs.

(** The offset after the records of a partition that a poll returned. *)
Definition end_of (recs : list krecord) (p : tp) (cur : Z) : Z :=
  match last (of_part p recs) with Some r => kr_offset r + 1 | None => cur end.

(** A consumer: its client, where it fetches each partition next, what the
    broker has committed, and, as history, the records whose handler answered
    without an error. *)
Record consumer := mkConsumer {
  co_client : consumerClient; co_cursor : tp -> Z; co_committed : tp -> Z;
  co_fine : list krecord; co_sys : system
}.

Inductive turn :=
| PollTurn (r : round)        (* one pass of the loop *)
| TimerTurn (p : tp)          (* the timer of a deferred pause *)
| CommitTurn                  (* the client commits what is marked *)
| RestartTurn.                (* a new client takes over *)

Section life.
Context (topics : list string) (group : string) (retry : bool) (handle : krecord -> kio handled).

(** A new client fetches from what is committed. *)
Definition restart (st : consumer) (sy : system) : consumer :=
  mkConsumer (newGroupConsumerClient topics) (co_committed st) (co_committed st) (co_fine st) sy.

(** The records of a pass that are not held back by the pause switch. *)
Definition kept (r : round) (c : consumerClient) : list krecord :=
  (collectPollRecords (rd_paused r) (syncConsumptionFetchPause (rd_paused r) c) (rd_recs r)).2.

Definition take_turn (st : consumer) (t : turn) : consumer :=
  match t with
  | PollTurn r =>
      let '(sy, (c, _, e)) := poll_round group (consumer_process retry handle) r (co_client st) (co_sys st) in
      match e with
      | Returned _ => restart st sy
      | Running =>
          let sent := drop (length (cc_calls (co_client st))) (cc_calls c) in
          mkConsumer c (fun p => seek p (end_of (rd_recs r) p (co_cursor st p)) sent) (co_committed st)
            (co_fine st ++ fine_records handle ∅ (kept r (co_client st)) (co_sys st)) sy
      end
  | TimerTurn p => mkConsumer (clearDeferredPartitionPause (co_client st) p) (co_cursor st) (co_committed st)
                     (co_fine st) (co_sys st)
  | CommitTurn =>
      mkConsumer (co_client st) (co_cursor st)
        (fun p => default (co_committed st p) (position (cc_calls (co_client st)) p)) (co_fine st) (co_sys st)
  | RestartTurn => restart st (co_sys st)
  end.

Definition take_turns (st : consumer) (ts : list turn) : consumer := foldl take_turn st ts.

Context (log : tp -> list krecord).

(** What the broker gives: of a partition that is fetched, the records of its log
    from the cursor on, without a gap. *)
Definition polled (st : consumer) (r : round) : Prop :=
  ascending (rd_recs r)
  /\ forall p, of_part p (rd_recs r) <> [] ->
       fetch_paused (cc_calls (syncConsumptionFetchPause (rd_paused r) (co_client st))) p = false
       /\ Forall (fun x => x ∈ log p /\ co_cursor st p <= kr_offset x) (of_part p (rd_recs r))
       /\ forall x, x ∈ log p -> co_cursor st p <= kr_offset x < end_of (rd_recs r) p (co_cursor st p) ->
          x ∈ rd_recs r.

(** The hooks of this loop do nothing. *)
Definition valid_turn (st : consumer) (t : turn) : Prop :=
  match t with
  | PollTurn r => rd_prePoll r = id /\ rd_onPoll r = id /\ polled st r
  | _ => True
  end.

Fixpoint valid_turns (st : consumer) (ts : list turn) : Prop :=
  match ts with
  | [] => True
  | t :: ts => valid_turn st t /\ valid_turns (take_turn st t) ts
  end.

(** ** One batch *)

Hypothesis log_parts : forall p x, x ∈ log p -> part_of x = p.
Hypothesis pauses_positive : forall r sy, (handle r sy).2 <> Fine_ -> 0 < backoff_of retry (handle r sy).2.

(** Everything of the partition below [n] was handled and nothing from [n] on is
    marked. *)
Definition good (fine : list krecord) (calls : list kcall) (p : tp) (n : Z) : Prop :=
  (forall x, x ∈ log p -> kr_offset x < n -> x ∈ fine)
  /\ (forall y, position calls p = Some y -> y <= n).

(** The offset of the first record of the partition, or [d]. *)
Definition next_off (p : tp) (recs : list krecord) (d : Z) : Z :=
  match of_part p recs with r :: _ => kr_offset r | [] => d end.

Lemma of_part_cons (p : tp) (r : krecord) (recs : list krecord) :
  of_part p (r :: recs) = if decide (part_of r = p) then r :: of_part p recs else of_part p recs.
Proof. unfold of_part. rewrite filter_cons. by case_decide. Qed.

Lemma next_off_self (r : krecord) (recs : list krecord) (d : Z) : next_off (part_of r) (r :: recs) d = kr_offset r.
Proof. unfold next_off. by rewrite of_part_cons, decide_True. Qed.

Lemma next_off_other (p : tp) (r : krecord) (recs : list krecord) (d : Z) :
  part_of r <> p -> next_off p (r :: recs) d = next_off p recs d.
Proof. intros Hne. unfold next_off. by rewrite of_part_cons, decide_False. Qed.

(** Later records of a partition have larger offsets. *)
Lemma next_off_gt (r : krecord) (recs : list krecord) (d : Z) :
  ascending (r :: recs) -> kr_offset r < d -> kr_offset r < next_off (part_of r) recs d.
Proof.
  intros [_ Hlt]%StronglySorted_inv Hd. rewrite Forall_forall in Hlt. unfold next_off.
  destruct (of_part (part_of r) recs) as [|r' l] eqn:E; [done|].
  assert (r' ∈ of_part (part_of r) recs) as Hr' by (rewrite E; left).
  unfold of_part in Hr'. apply list_elem_of_filter in Hr' as [Hp Hr']. by apply Hlt.
Qed.

Lemma next_off_le (r : krecord) (recs : list krecord) (d : Z) :
  ascending recs -> r ∈ recs -> next_off (part_of r) recs d <= kr_offset r.
Proof.
  induction recs as [|r' recs IH]; intros Ha Hr; [by apply elem_of_nil in Hr|].
  destruct (decide (part_of r' = part_of r)) as [E|Hne].
  - rewrite <-E, next_off_self. apply elem_of_cons in Hr as [->|Hr]; [lia|].
    apply StronglySorted_inv in Ha as [_ Hlt]. rewrite Forall_forall in Hlt. specialize (Hlt r Hr E). lia.
  - rewrite next_off_other by done. apply StronglySorted_inv in Ha as [Ha _].
    apply elem_of_cons in Hr as [->|Hr]; [done|]. by apply IH.
Qed.

Lemma defer_rewinds (c : consumerClient) (r : krecord) (w : Z) :
  0 < w -> cc_deferredPaused c !! part_of r = None ->
  let c' := deferClientPartitionPause c r w in
  cc_calls c' = cc_calls c ++ [PausePartition (part_of r); SetOffsets {[part_of r := kr_offset r]}]
  /\ cc_deferredPaused c' = <[part_of r := kr_offset r]> (cc_deferredPaused c)
  /\ cc_partPaused c' = cc_partPaused c.
Proof.
  intros Hw Hd. unfold deferClientPartitionPause, pauseDeferredPartition.
  rewrite (proj2 (Z.leb_gt _ _)) by lia. rewrite Hd; cbn. by rewrite <-app_assoc.
Qed.

(** What a pass leaves of each partition: of one that was stopped, the offset it
    was rewound to; of another, the next record to come. *)
Definition covered (E : tp -> Z) (stopped : gset tp) (recs fine : list krecord) (calls : list kcall)
    (cur : tp -> Z) (p : tp) : Prop :=
  if decide (p ∈ stopped) then good fine calls p (cur p)
  else cur p = E p /\ good fine calls p (next_off p recs (E p))
       /\ (forall x, x ∈ log p -> next_off p recs (E p) <= kr_offset x < E p -> x ∈ recs).

Definition within (E : tp -> Z) (recs : list krecord) : Prop := Forall (fun r => kr_offset r < E (part_of r)) recs.

Lemma next_off_bound (E : tp -> Z) (recs : list krecord) (p : tp) : within E recs -> next_off p recs (E p) <= E p.
Proof.
  intros HE. unfold next_off. destruct (of_part p recs) as [|r l] eqn:Eo; [lia|].
  assert (r ∈ of_part p recs) as Hr by (rewrite Eo; left). apply list_elem_of_filter in Hr as [<- Hr].
  unfold within in HE. rewrite Forall_forall in HE. specialize (HE r Hr). lia.
Qed.

Lemma good_mono (fine fine' : list krecord) (calls : list kcall) (p : tp) (n : Z) :
  fine ⊆ fine' -> good fine calls p n -> good fine' calls p n.
Proof. intros Hs [H1 H2]. split; [|done]. intros x Hx Hn. apply Hs. by apply H1. Qed.

(** The head of the batch is handled. *)
Lemma covered_fine (E : tp -> Z) (stopped : gset tp) (r : krecord) (recs fine : list krecord)
    (calls : list kcall) (cur : tp -> Z) (p : tp) :
  ascending (r :: recs) -> within E (r :: recs) -> part_of r ∉ stopped ->
  covered E stopped (r :: recs) fine calls cur p ->
  covered E stopped recs (fine ++ [r]) (calls ++ [MarkCommit r]) cur p.
Proof.
  intros Ha [HE HEs]%Forall_cons Hs. pose proof (next_off_bound E recs (part_of r) HEs) as Hb.
  unfold covered. destruct (decide (p ∈ stopped)) as [Hp|Hp].
  { intros [H1 H2]. split; [set_solver|]. intros y. rewrite position_mark, decide_False by congruence. apply H2. }
  intros (Hc & [H1 H2] & H3). destruct (decide (part_of r = p)) as [<-|Hne].
  - rewrite next_off_self in *. pose proof (next_off_gt r recs _ Ha HE) as Hgt.
    assert (forall x, x ∈ log (part_of r) -> kr_offset r < kr_offset x < E (part_of r) -> x ∈ recs) as Hin.
    { intros x Hx Ho. destruct (proj1 (elem_of_cons _ _ _) (H3 x Hx ltac:(lia))) as [->|?]; [lia|done]. }
    split; [done|]. split; [split|].
    + intros x Hx Ho. destruct (decide (kr_offset x < kr_offset r)) as [Hlt|Hge]; [apply elem_of_app; left; by apply H1|].
      destruct (proj1 (elem_of_cons _ _ _) (H3 x Hx ltac:(lia))) as [->|Hxr]; [set_solver|].
      exfalso. pose proof (next_off_le x recs (E (part_of r)) (proj1 (StronglySorted_inv Ha)) Hxr) as Hle'.
      rewrite (log_parts _ _ Hx) in Hle'. lia.
    + intros y. rewrite position_mark, decide_True by done. intros [= <-].
      destruct (position calls (part_of r)) as [o|] eqn:Eo; [specialize (H2 o eq_refl)|]; lia.
    + intros x Hx Ho. apply Hin; [done|lia].
  - rewrite next_off_other in * by done. split; [done|]. split; [split|].
    + intros x Hx Ho. apply elem_of_app. left. by apply H1.
    + intros y. rewrite position_mark, decide_False by congruence. apply H2.
    + intros x Hx Ho. destruct (proj1 (elem_of_cons _ _ _) (H3 x Hx Ho)) as [->|?]; [|done].
      by rewrite (log_parts _ _ Hx) in Hne.
Qed.

Lemma position_pause (calls : list kcall) (p q : tp) : position (calls ++ [PausePartition q]) p = position calls p.
Proof. by rewrite position_app. Qed.

Lemma position_set (calls : list kcall) (p : tp) (m : gmap tp Z) :
  position (calls ++ [SetOffsets m]) p = match m !! p with Some o => Some o | None => position calls p end.
Proof. by rewrite position_app. Qed.

Lemma seek_rewind (p q : tp) (o cur : Z) :
  seek q cur [PausePartition p; SetOffsets {[p := o]}] = if decide (p = q) then o else cur.
Proof.
  unfold seek, foldl, after_seek. destruct (decide (p = q)) as [->|Hne];
    [by rewrite lookup_singleton_eq|by rewrite lookup_singleton_ne].
Qed.

Lemma position_rewind (calls : list kcall) (p q : tp) (o : Z) :
  position (calls ++ [PausePartition p; SetOffsets {[p := o]}]) q
  = if decide (p = q) then Some o else position calls q.
Proof.
  rewrite cons_middle, app_assoc, position_set, position_pause.
  destruct (decide (p = q)) as [->|Hne]; [by rewrite lookup_singleton_eq|by rewrite lookup_singleton_ne].
Qed.

(** The head of the batch is not handled: its partition is rewound to it. *)
Lemma covered_stop (E : tp -> Z) (stopped : gset tp) (r : krecord) (recs fine : list krecord)
    (calls : list kcall) (cur : tp -> Z) (p : tp) :
  part_of r ∉ stopped -> covered E stopped (r :: recs) fine calls cur p ->
  let sent := [PausePartition (part_of r); SetOffsets {[part_of r := kr_offset r]}] in
  covered E ({[part_of r]} ∪ stopped) recs fine (calls ++ sent) (fun q => seek q (cur q) sent) p.
Proof.
  intros Hs Hc sent. unfold covered in *. pose proof (seek_rewind (part_of r) p (kr_offset r) (cur p)) as Es. fold sent in Es. rewrite Es. clear Es. destruct (decide (part_of r = p)) as [<-|Hne].
  - rewrite decide_False in Hc by done. rewrite decide_True by set_solver.
    destruct Hc as (_ & [H1 H2] & _). rewrite next_off_self in *. split; [done|].
    intros y. unfold sent. rewrite position_rewind, decide_True by done. intros [= <-]. done.
  - assert (position (calls ++ sent) p = position calls p) as Hpos
      by (unfold sent; by rewrite position_rewind, decide_False).
    unfold good in *. rewrite Hpos. destruct (decide (p ∈ stopped)) as [Hp|Hp].
    + by rewrite decide_True by set_solver.
    + rewrite decide_False by set_solver. destruct Hc as (Hc & Hg & H3). rewrite next_off_other in * by done.
      destruct Hg as [H1 H2]. split_and!; [done..|].
      intros x Hx Ho. destruct (proj1 (elem_of_cons _ _ _) (H3 x Hx Ho)) as [->|?]; [|done].
      by rewrite (log_parts _ _ Hx) in Hne.
Qed.

(** The head of the batch is passed over: its partition was stopped before. *)
Lemma covered_skip (E : tp -> Z) (stopped : gset tp) (r : krecord) (recs fine : list krecord)
    (calls : list kcall) (cur : tp -> Z) (p : tp) :
  part_of r ∈ stopped -> covered E stopped (r :: recs) fine calls cur p ->
  covered E stopped recs fine calls cur p.
Proof.
  intros Hs. unfold covered. destruct (decide (p ∈ stopped)) as [|Hp]; [done|].
  assert (part_of r <> p) as Hne by congruence. rewrite next_off_other by done. intros (Hc & Hg & H3).
  split_and!; [done..|]. intros x Hx Ho. destruct (proj1 (elem_of_cons _ _ _) (H3 x Hx Ho)) as [->|?]; [|done].
  by rewrite (log_parts _ _ Hx) in Hne.
Qed.

Definition in_parts (c : consumerClient) (p : tp) : Prop := p.2 ∈ default [] (cc_partPaused c !! p.1).

(** A partition with a deferred pause or a pause of the switch is not fetched,
    and none has both. *)
Definition pauses_ok (c : consumerClient) : Prop :=
  (forall p, is_Some (cc_deferredPaused c !! p) -> fetch_paused (cc_calls c) p = true)
  /\ (forall p, in_parts c p -> fetch_paused (cc_calls c) p = true /\ cc_deferredPaused c !! p = None).

Lemma pauses_ok_send (c : consumerClient) (k : list kcall) :
  Forall (fun x => match x with PausePartition _ | ResumePartition _ => False | _ => True end) k ->
  pauses_ok c -> pauses_ok (send c k).
Proof.
  intros Hk. assert (forall p, fetch_paused (cc_calls c ++ k) p = fetch_paused (cc_calls c) p) as E.
  { intros p. apply fetch_paused_other. eapply Forall_impl; [exact Hk|]. intros x Hx. by destruct x. }
  intros [H1 H2]. split; intros p Hp; cbn in *; rewrite E; auto.
Qed.

Lemma pauses_ok_defer (c : consumerClient) (r : krecord) (w : Z) :
  0 < w -> cc_deferredPaused c !! part_of r = None -> ~ in_parts c (part_of r) -> pauses_ok c ->
  pauses_ok (deferClientPartitionPause c r w).
Proof.
  intros Hw Hd Hn [H1 H2]. destruct (defer_rewinds c r w Hw Hd) as (Ec & Ed & Ep).
  assert (forall q, fetch_paused (cc_calls (deferClientPartitionPause c r w)) q
            = if decide (part_of r = q) then true else fetch_paused (cc_calls c) q) as E.
  { intros q. by rewrite Ec, fetch_paused_app; cbn. }
  unfold pauses_ok, in_parts. rewrite Ed, Ep. split; intros q Hq; rewrite E.
  - destruct (decide (part_of r = q)) as [|Hne]; [done|]. rewrite lookup_insert_ne in Hq by done. by apply H1.
  - destruct (decide (part_of r = q)) as [<-|Hne]; [done|]. rewrite lookup_insert_ne by done. by apply H2.
Qed.

Lemma process_covered (E : tp -> Z) (recs : list krecord) (stopped : gset tp) (c : consumerClient) (sy : system)
    (fine : list krecord) (cur : tp -> Z) :
  ascending recs -> within E recs -> pauses_ok c ->
  (forall r, r ∈ recs -> ~ in_parts c (part_of r) /\ (part_of r ∉ stopped -> cc_deferredPaused c !! part_of r = None)) ->
  (forall p, covered E stopped recs fine (cc_calls c) cur p) ->
  let c' := (process_records retry handle stopped recs c sy).2 in
  exists sent, cc_calls c' = cc_calls c ++ sent /\ pauses_ok c'
    /\ (forall p, good (fine ++ fine_records handle stopped recs sy) (cc_calls c') p (seek p (cur p) sent))
    /\ (forall p n, n <= cur p -> (forall r, r ∈ recs -> part_of r = p -> n <= kr_offset r) ->
        n <= seek p (cur p) sent).
Proof.
  induction recs as [|r recs IH] in stopped, c, sy, fine, cur |- *; intros Ha HE Hok Hr Hc; cbn.
  { exists []. rewrite !app_nil_r. split_and!; [done..| |done]. intros p. specialize (Hc p). unfold covered in Hc.
    destruct (decide (p ∈ stopped)); [done|]. by destruct Hc as (-> & Hg & _). }
  pose proof (StronglySorted_inv Ha) as [Ha' _]. pose proof (proj2 (proj1 (Forall_cons _ _ _) HE)) as HE'.
  assert (forall x, x ∈ recs -> x ∈ r :: recs) as Hsub by (intros; by right).
  destruct (decide (part_of r ∈ stopped)) as [Hin|Hout].
  { destruct (IH stopped c sy fine cur) as (sent & E1 & E2 & E3 & E4); [done..|auto|intros p; by eapply covered_skip|].
    exists sent. split_and!; auto. }
  destruct (Hr r ltac:(left)) as [Hnp Hnd]. specialize (Hnd Hout).
  unfold mbind, kio_bind. pose proof (pauses_positive r sy) as Hpos. destruct (handle r sy) as [sy1 h]; cbn in Hpos.
  assert (h = Fine_ \/ h <> Fine_ /\ 0 < backoff_of retry h) as [->|[Hnf Hw]] by (destruct h; auto).
  - destruct (IH stopped (send c [MarkCommit r]) sy1 (fine ++ [r]) cur) as (sent & E1 & E2 & E3 & E4);
      [done|done|by apply pauses_ok_send; [repeat constructor|]|intros x Hx; exact (Hr x (Hsub x Hx))|intros p; by apply covered_fine|].
    exists (MarkCommit r :: sent). split_and!; [by rewrite E1; cbn; rewrite <-app_assoc|done| |].
    + intros p. specialize (E3 p). by rewrite <-app_assoc in E3.
    + intros p n Hn Hrs. apply (E4 p n); auto.
  - set (w := backoff_of retry h) in *. set (c1 := deferClientPartitionPause c r w).
    destruct (defer_rewinds c r w Hw Hnd) as (Ec & Ed & Ep). fold c1 in Ec, Ed, Ep.
    destruct (IH ({[part_of r]} ∪ stopped) c1 sy1 fine
      (fun q => seek q (cur q) [PausePartition (part_of r); SetOffsets {[part_of r := kr_offset r]}]))
      as (sent & E1 & E2 & E3 & E4).
    + done.
    + done.
    + by apply pauses_ok_defer.
    + intros x Hx. destruct (Hr x (Hsub x Hx)) as [? Hd]. unfold in_parts. rewrite Ep, Ed. split; [done|].
      intros [Hne%not_elem_of_singleton Hns]%not_elem_of_union. rewrite lookup_insert_ne by done. by apply Hd.
    + intros p. rewrite Ec. by apply covered_stop.
    + assert (match h with Fine_ => process_records retry handle stopped recs (send c [MarkCommit r])
              | _ => process_records retry handle ({[part_of r]} ∪ stopped) recs c1 end
              = process_records retry handle ({[part_of r]} ∪ stopped) recs c1) as -> by by destruct h.
      assert (match h with Fine_ => r :: fine_records handle stopped recs sy1
              | _ => fine_records handle ({[part_of r]} ∪ stopped) recs sy1 end
              = fine_records handle ({[part_of r]} ∪ stopped) recs sy1) as -> by by destruct h.
      eexists. rewrite E1, Ec, <-app_assoc. split_and!; [reflexivity|done| |].
      * intros p. specialize (E3 p). by rewrite E1, Ec, <-app_assoc in E3.
      * intros p n Hn Hrs. unfold seek at 1. rewrite foldl_app. apply (E4 p n); [|auto].
        rewrite seek_rewind. destruct (decide (part_of r = p)) as [Hp|Hne]; [apply Hrs; [left|done]|done].
Qed.

End life.

(** ** The pause switch *)

(** Calls that neither mark nor move an offset. *)
Definition pause_call (k : kcall) : Prop := match k with MarkCommit _ | SetOffsets _ => False | _ => True end.

Lemma pause_calls_neutral (calls k : list kcall) (p : tp) (cur : Z) :
  Forall pause_call k -> position (calls ++ k) p = position calls p /\ seek p cur k = cur.
Proof.
  intros Hk. rewrite position_app. generalize (position calls p) as o.
  induction Hk as [|x k Hx Hk IH]; intros o; [done|]. unfold seek in *. simpl foldl. destruct x; try done; apply IH.
Qed.

Lemma applyTopic_ok (c : consumerClient) (t : string) :
  let c' := applyTopicPauseLocked c t in
  exists sent, cc_calls c' = cc_calls c ++ sent
    /\ Forall (fun k => match k with PauseTopic _ | ResumeTopic _ => True | _ => False end) sent
    /\ cc_deferredPaused c' = cc_deferredPaused c /\ cc_partPaused c' = cc_partPaused c.
Proof.
  unfold applyTopicPauseLocked; cbn. destruct (Bool.eqb _ _); [exists []; by rewrite app_nil_r|].
  eexists. cbn. split_and!; [reflexivity| |done..]. repeat constructor. by destruct (_ || _).
Qed.

(** What the switch may do between two states of a client. *)
Definition switched (c c' : consumerClient) : Prop :=
  cc_deferredPaused c' = cc_deferredPaused c
  /\ (exists sent, cc_calls c' = cc_calls c ++ sent /\ Forall pause_call sent)
  /\ (pauses_ok c -> pauses_ok c').

Lemma switched_refl (c : consumerClient) : switched c c.
Proof. split_and!; [done| |done]. exists []. by rewrite app_nil_r. Qed.

Lemma switched_trans (c c' c'' : consumerClient) : switched c c' -> switched c' c'' -> switched c c''.
Proof.
  intros (E1 & (k1 & K1 & F1) & O1) (E2 & (k2 & K2 & F2) & O2). split_and!; [congruence| |auto].
  exists (k1 ++ k2). rewrite K2, K1, app_assoc. split; [done|]. by apply Forall_app.
Qed.

Lemma switched_topic (paused : tp -> bool) (c : consumerClient) (t : string) : switched c (sync_topic paused c t)
  /\ cc_partPaused (sync_topic paused c t) = cc_partPaused c.
Proof.
  unfold sync_topic. set (c0 := set_wants _ _ _ _). destruct (applyTopic_ok c0 t) as (sent & Ec & Hk & Ed & Ep).
  split; [|by rewrite Ep]. split_and!.
  - by rewrite Ed.
  - exists sent. split; [by rewrite Ec|]. eapply Forall_impl; [exact Hk|]. intros k ?. by destruct k.
  - intros Hok. destruct (pauses_ok_send c sent) as [H1 H2]; [|done|].
    + eapply Forall_impl; [exact Hk|]. intros k ?. by destruct k.
    + split; intros p; unfold in_parts; rewrite ?Ed, ?Ep, Ec; [apply H1|apply H2].
Qed.

Lemma fetch_paused_resume (l : list kcall) (t : string) (gone : list Z) (p : tp) :
  (p.1 = t -> p.2 ∉ gone) -> fetch_paused (l ++ ((fun x => ResumePartition (t, x)) <$> gone)) p = fetch_paused l p.
Proof.
  intros Hn. apply fetch_paused_other, Forall_forall. intros k (x & -> & Hx)%list_elem_of_fmap.
  split; [done|]. intros [= <-]. by apply Hn.
Qed.

Lemma switched_parts (paused : tp -> bool) (c : consumerClient) (t : string) (ps : list Z) :
  cc_partPaused c !! t = Some ps ->
  switched c (sync_parts paused c (t, ps))
  /\ forall t', t' <> t -> cc_partPaused (sync_parts paused c (t, ps)) !! t' = cc_partPaused c !! t'.
Proof.
  intros Hps. set (still := filter (fun p => paused (t, p) = true) ps).
  set (gone := filter (fun p => paused (t, p) = false) ps).
  assert (forall q, in_parts (sync_parts paused c (t, ps)) q -> in_parts c q /\ (q.1 = t -> q.2 ∉ gone)) as Hin.
  { intros [t' x]. unfold in_parts, sync_parts; cbn. fold still gone. destruct (decide (t' = t)) as [->|Hne].
    - rewrite Hps; cbn. intros Hx.
      assert (x ∈ still) as Hs.
      { destruct still as [|y l]; [rewrite lookup_delete_eq in Hx; by apply elem_of_nil in Hx|].
        by rewrite lookup_insert_eq in Hx. }
      unfold still in Hs. apply list_elem_of_filter in Hs as [Hp Hs]. split; [done|]. intros _ Hg.
      unfold gone in Hg. apply list_elem_of_filter in Hg as [Hg _]. congruence.
    - intros Hx. split; [|done]. destruct still; [by rewrite lookup_delete_ne in Hx|by rewrite lookup_insert_ne in Hx]. }
  split; [split_and!|].
  - done.
  - eexists. split; [reflexivity|]. apply Forall_fmap, Forall_true. by intros x.
  - intros [H1 H2].
    assert (forall q : tp, is_Some (cc_deferredPaused c !! q) -> q.1 = t -> q.2 ∉ gone) as Hd.
    { intros q [o Ho] Eq Hg. unfold gone in Hg. apply list_elem_of_filter in Hg as [_ Hg].
      destruct (H2 q) as [_ En]; [unfold in_parts; by rewrite Eq, Hps|]. congruence. }
    split; intros q Hq.
    + transitivity (fetch_paused (cc_calls c) q); [apply fetch_paused_resume; by apply Hd|by apply H1].
    + destruct (Hin q Hq) as [Hq1 Hq2]. destruct (H2 q Hq1) as [Hf Hn]. split; [|done].
      transitivity (fetch_paused (cc_calls c) q); [by apply fetch_paused_resume|done].
  - intros t' Hne. unfold sync_parts; cbn. destruct (filter _ ps); [by rewrite lookup_delete_ne|by rewrite lookup_insert_ne].
Qed.

Lemma switched_sync (pauseCtl : option (tp -> bool)) (c : consumerClient) :
  switched c (syncConsumptionFetchPause pauseCtl c).
Proof.
  destruct pauseCtl as [paused|]; [|apply switched_refl]. cbn.
  assert (forall l c, switched c (foldl (sync_topic paused) c l)) as Ht.
  { clear. induction l as [|t l IH]; intros c; [apply switched_refl|]. cbn.
    eapply switched_trans; [apply switched_topic|apply IH]. }
  eapply switched_trans; [apply Ht|]. set (c1 := foldl (sync_topic paused) c (cc_topics c)).
  assert (forall l c, NoDup l.*1 -> (forall e, e ∈ l -> cc_partPaused c !! e.1 = Some e.2) ->
    switched c (foldl (sync_parts paused) c l)) as Hp.
  { clear. induction l as [|[t ps] l IH]; intros c Hnd Hl; [apply switched_refl|]. cbn in *.
    apply NoDup_cons in Hnd as [Hn Hnd].
    destruct (switched_parts paused c t ps) as [H1 H2]; [apply (Hl (t, ps)); by left|].
    eapply switched_trans; [exact H1|]. apply IH; [done|]. intros e He. rewrite H2; [apply Hl; by right|].
    intros E. apply Hn. rewrite <-E. apply list_elem_of_fmap. eauto. }
  apply Hp; [apply NoDup_fst_map_to_list|]. intros [t ps] He. by apply elem_of_map_to_list in He.
Qed.

(** ** The records the switch holds back *)

Lemma pauseConsumption_ok (c : consumerClient) (p : tp) :
  cc_deferredPaused c !! p = None ->
  switched c (pauseConsumptionPartition c p)
  /\ forall q, in_parts (pauseConsumptionPartition c p) q -> in_parts c q \/ q = p.
Proof.
  intros Hd. unfold pauseConsumptionPartition. case_bool_decide as Hp; [split; [apply switched_refl|by left]|].
  assert (forall q, in_parts (send (set_parts c (<[p.1:=default [] (cc_partPaused c !! p.1) ++ [p.2]]> (cc_partPaused c)))
            [PausePartition p]) q -> in_parts c q \/ q = p) as Hin.
  { intros q. unfold in_parts; cbn. destruct (decide (p.1 = q.1)) as [E|Hne].
    - rewrite <-E, lookup_insert_eq; cbn. intros [Hq|Hq%list_elem_of_singleton]%elem_of_app; [by left|].
      right. destruct p, q; cbn in *; by subst.
    - rewrite lookup_insert_ne by done. by left. }
  split; [split_and!|exact Hin].
  - done.
  - exists [PausePartition p]. split; [done|]. by repeat constructor.
  - intros [H1 H2].
    assert (forall q, fetch_paused (cc_calls c ++ [PausePartition p]) q
              = if decide (p = q) then true else fetch_paused (cc_calls c) q) as E
      by (intros q; by rewrite fetch_paused_app).
    split; intros q Hq; cbn [cc_calls send set_calls set_parts] in *; rewrite E; destruct (decide (p = q)) as [<-|Hne]; try done.
    + by apply H1.
    + destruct (Hin q Hq) as [Hq'| ->]; [by apply H2|done].
Qed.

Lemma split_ok (paused : tp -> bool) (recs : list krecord) (c : consumerClient) :
  (forall r, r ∈ recs -> cc_deferredPaused c !! part_of r = None) ->
  exists c', split_paused paused c recs
    = (c', filter (fun r => paused (part_of r) = false) recs, filter (fun r => paused (part_of r) = true) recs)
  /\ switched c c' /\ (forall q, in_parts c' q -> in_parts c q \/ paused q = true).
Proof.
  induction recs as [|r recs IH] in c |- *; intros Hd; simpl split_paused.
  { exists c. split_and!; [done|apply switched_refl|by left]. }
  assert (forall c', switched c c' -> forall x, x ∈ recs -> cc_deferredPaused c' !! part_of x = None) as Hd'.
  { intros c' (E & _) x Hx. rewrite E. apply Hd. by right. }
  rewrite !filter_cons. destruct (paused (part_of r)) eqn:Hp.
  - set (c1 := if paused (kr_topic r, 0) then c else pauseConsumptionPartition c (part_of r)).
    assert (switched c c1 /\ forall q, in_parts c1 q -> in_parts c q \/ paused q = true) as [Hs Hi].
    { unfold c1. destruct (paused (kr_topic r, 0)); [split; [apply switched_refl|by left]|].
      destruct (pauseConsumption_ok c (part_of r)) as [Hs Hi]; [apply Hd; left|].
      split; [done|]. intros q Hq. destruct (Hi q Hq) as [?| ->]; auto. }
    destruct (IH c1 (Hd' c1 Hs)) as (c' & -> & Hs' & Hi'). exists c'. rewrite decide_False, decide_True by done.
    split_and!; [done|by eapply switched_trans|]. intros q Hq. destruct (Hi' q Hq) as [Hq'|?]; auto.
  - destruct (IH c (Hd' c (switched_refl c))) as (c' & -> & Hs' & Hi'). exists c'.
    by rewrite decide_True, decide_False by done.
Qed.

Lemma rewind_acc (p : tp) (l : list krecord) (m : gmap tp Z) :
  ascending l -> (forall o, m !! p = Some o -> Forall (fun r => o < kr_offset r) (of_part p l)) ->
  foldl (λ m r, match m !! part_of r with
                | Some o => if kr_offset r <? o then <[part_of r := kr_offset r]> m else m
                | None => <[part_of r := kr_offset r]> m
                end) m l !! p
  = match m !! p with Some o => Some o | None => kr_offset <$> head (of_part p l) end.
Proof.
  induction l as [|r l IH] in m |- *; intros Ha Hm; [by cbn; destruct (m !! p)|].
  apply StronglySorted_inv in Ha as [Ha Hlt]. simpl foldl.
  set (m' := match m !! part_of r with Some _ => _ | None => _ end).
  assert (m' !! p = match m !! p with Some o => Some o
                    | None => if decide (part_of r = p) then Some (kr_offset r) else None end) as Em.
  { unfold m'. destruct (decide (part_of r = p)) as [Ep|Hne].
    - rewrite Ep. destruct (m !! p) as [o|] eqn:Eo; [|by rewrite lookup_insert_eq].
      specialize (Hm o eq_refl). rewrite of_part_cons, decide_True in Hm by done.
      apply Forall_cons in Hm as [Hm _]. by rewrite (proj2 (Z.ltb_ge _ _)) by lia.
    - destruct (m !! part_of r); [case_match|]; rewrite ?lookup_insert_ne by done; by destruct (m !! p). }
  rewrite of_part_cons in *. rewrite IH; [|done|].
  - rewrite Em. destruct (m !! p); [done|]. by destruct (decide (part_of r = p)).
  - rewrite Em. intros o. destruct (m !! p) as [o'|] eqn:Eo.
    + intros [= <-]. specialize (Hm o' eq_refl). case_decide; [by apply Forall_cons in Hm as [_ ?]|done].
    + case_decide as Hp; [|done]. intros [= <-]. apply Forall_forall. intros x [Hx1 Hx2]%list_elem_of_filter.
      rewrite Forall_forall in Hlt. apply Hlt; [done|congruence].
Qed.

Lemma rewind_lookup (p : tp) (l : list krecord) :
  ascending l -> undispatchedRewindOffsets l !! p = kr_offset <$> head (of_part p l).
Proof. intros Ha. unfold undispatchedRewindOffsets. by rewrite rewind_acc. Qed.

(** ** Filters *)

Lemma filter_everything {A} (P : A -> Prop) `{forall x, Decision (P x)} (l : list A) :
  Forall P l -> filter P l = l.
Proof. induction 1 as [|x l Hx Hl IH]; [done|]. rewrite filter_cons, decide_True by done. by rewrite IH. Qed.

Lemma ascending_filter (P : krecord -> Prop) `{forall x, Decision (P x)} (l : list krecord) :
  ascending l -> ascending (filter P l).
Proof.
  induction 1 as [|x l Hl IH Hx]; [constructor|]. rewrite filter_cons. case_decide; [|done].
  constructor; [done|]. apply Forall_forall. intros y [_ Hy]%list_elem_of_filter. rewrite Forall_forall in Hx. by apply Hx.
Qed.

(** ** Turns keep what was promised *)

Section turns.
Context (topics : list string) (group : string) (retry : bool) (handle : krecord -> kio handled).
Context (log : tp -> list krecord).
Hypothesis log_parts : forall p x, x ∈ log p -> part_of x = p.
Hypothesis pauses_positive : forall r sy, (handle r sy).2 <> Fine_ -> 0 < backoff_of retry (handle r sy).2.

Record life_inv (st : consumer) : Prop := {
  li_pauses : pauses_ok (co_client st);
  li_good p : good log (co_fine st) (cc_calls (co_client st)) p (co_cursor st p);
  li_committed p : co_committed st p <= co_cursor st p
}.

Definition poll_end (st : consumer) (r : round) (p : tp) : Z := end_of (rd_recs r) p (co_cursor st p).

Lemma end_of_gt (recs : list krecord) (x : krecord) (d : Z) :
  ascending recs -> x ∈ recs -> kr_offset x < end_of recs (part_of x) d.
Proof.
  intros Ha Hx. unfold end_of. assert (x ∈ of_part (part_of x) recs) as Hx' by (by apply list_elem_of_filter).
  assert (StronglySorted (fun r r' => kr_offset r < kr_offset r') (of_part (part_of x) recs)) as Hs.
  { clear Hx Hx'. unfold of_part. induction recs as [|r l IH]; [constructor|].
    apply StronglySorted_inv in Ha as [Ha Hf]. rewrite filter_cons. case_decide as Hd; [|by apply IH].
    constructor; [by apply IH|]. apply Forall_forall. intros y [Hy1 Hy2]%list_elem_of_filter.
    rewrite Forall_forall in Hf. apply Hf; [done|congruence]. }
  generalize dependent (of_part (part_of x) recs). intros l Hx' Hs.
  destruct (last l) as [z|] eqn:El; [|apply last_None in El; subst; by apply elem_of_nil in Hx'].
  apply last_Some in El as [l' ->]. apply elem_of_app in Hx' as [Hx'| ->%list_elem_of_singleton]; [|lia].
  apply StronglySorted_app in Hs as (Hs & _). specialize (Hs x z Hx' ltac:(left)). lia.
Qed.

Definition synced (st : consumer) (r : round) : consumerClient :=
  syncConsumptionFetchPause (rd_paused r) (co_client st).

Section pass.
Context (st : consumer) (r : round).
Hypothesis inv : life_inv st.
Hypothesis Hpolled : polled log st r.

(** A polled partition has no pause of either kind. *)
Lemma polled_free (x : krecord) :
  x ∈ rd_recs r -> ~ in_parts (synced st r) (part_of x) /\ cc_deferredPaused (synced st r) !! part_of x = None
    /\ x ∈ log (part_of x) /\ co_cursor st (part_of x) <= kr_offset x.
Proof.
  intros Hx. destruct Hpolled as [Ha Hp]. destruct (switched_sync (rd_paused r) (co_client st)) as (_ & _ & Hok).
  destruct (Hok (li_pauses st inv)) as [H1 H2].
  assert (x ∈ of_part (part_of x) (rd_recs r)) as Hx' by (by apply list_elem_of_filter).
  destruct (Hp (part_of x)) as (Hf & Hl & _); [intros E; rewrite E in Hx'; by apply elem_of_nil in Hx'|].
  rewrite Forall_forall in Hl. destruct (Hl x Hx') as [? ?]. split_and!; [| |done..].
  - intros Hin. destruct (H2 _ Hin) as [E _]. congruence.
  - apply eq_None_not_Some. intros Hs. specialize (H1 _ Hs). congruence.
Qed.

(** Before the first record of a partition everything was handled. *)
Lemma polled_good (p : tp) :
  good log (co_fine st) (cc_calls (co_client st)) p (next_off p (rd_recs r) (poll_end st r p)).
Proof.
  destruct (li_good st inv p) as [H1 H2]. unfold next_off, poll_end, end_of. destruct Hpolled as [Ha Hp].
  destruct (of_part p (rd_recs r)) as [|x l] eqn:E; [done|].
  assert (x ∈ of_part p (rd_recs r)) as Hx by (rewrite E; left).
  apply list_elem_of_filter in Hx as [Ex Hx]. destruct (polled_free x Hx) as (_ & _ & _ & Hle). rewrite Ex in Hle.
  split; [|intros y Hy; specialize (H2 y Hy); lia].
  intros y Hy Ho. destruct (decide (kr_offset y < co_cursor st p)) as [Hlt|Hge]; [by apply H1|].
  exfalso. destruct (Hp p) as (_ & _ & Hgap); [by rewrite E|].
  pose proof (end_of_gt (rd_recs r) x (co_cursor st p) Ha Hx) as Hend. rewrite Ex in Hend.
  assert (y ∈ rd_recs r) as Hyr by (apply Hgap; [done|lia]).
  pose proof (next_off_le y (rd_recs r) 0 Ha Hyr) as Hn. rewrite (log_parts _ _ Hy) in Hn.
  unfold next_off in Hn. rewrite E in Hn. lia.
Qed.

Lemma of_part_held (held : tp -> bool) (b : bool) (p : tp) (recs : list krecord) :
  of_part p (filter (fun x => held (part_of x) = b) recs) = if Bool.eqb (held p) b then of_part p recs else [].
Proof.
  unfold of_part. induction recs as [|x l IH]; [by destruct (Bool.eqb _ _)|]. rewrite !filter_cons.
  destruct (Bool.eqb_spec (held p) b) as [E|E].
  - destruct (decide (held (part_of x) = b)) as [Hx|Hx]; rewrite ?filter_cons.
    + destruct (decide (part_of x = p)); by rewrite IH.
    + destruct (decide (part_of x = p)) as [Ep|]; [by rewrite Ep in Hx|by rewrite IH].
  - destruct (decide (held (part_of x) = b)) as [Hx|Hx]; [|exact IH]. rewrite filter_cons.
    destruct (decide (part_of x = p)) as [Ep|]; [by rewrite Ep in Hx|exact IH].
Qed.

(** What the switch leaves of a pass: the partitions it holds back are rewound to
    their first record. *)
Lemma collect_spec :
  exists c2 sent held, collectPollRecords (rd_paused r) (synced st r) (rd_recs r)
    = (c2, filter (fun x => held (part_of x) = false) (rd_recs r))
  /\ cc_calls c2 = cc_calls (co_client st) ++ sent /\ pauses_ok c2
  /\ (forall x, x ∈ rd_recs r -> held (part_of x) = false ->
       ~ in_parts c2 (part_of x) /\ cc_deferredPaused c2 !! part_of x = None)
  /\ (forall p d, seek p d sent = (if held p then next_off p (rd_recs r) d else d)
       /\ position (cc_calls c2) p = (if held p && negb (bool_decide (of_part p (rd_recs r) = []))
                                      then Some (next_off p (rd_recs r) d)
                                      else position (cc_calls (co_client st)) p)).
Proof.
  destruct (switched_sync (rd_paused r) (co_client st)) as (_ & (k & Ek & Hk) & Hok). fold (synced st r) in Ek, Hok.
  pose proof (Hok (li_pauses st inv)) as Hok1. destruct (rd_paused r) as [paused|] eqn:Er.
  2:{ exists (synced st r), k, (fun _ => false). split_and!; [|done..| |].
      - cbn. rewrite filter_everything; [done|]. by apply Forall_true.
      - intros x Hx _. destruct (polled_free x Hx) as (? & ? & _). done.
      - intros p d. rewrite Ek. destruct (pause_calls_neutral (cc_calls (co_client st)) k p d Hk) as [-> ->]. done. }
  destruct (split_ok paused (rd_recs r) (synced st r)) as (c' & Es & (Ed & (k' & Ek' & Hk') & Hok') & Hin).
  { intros x Hx. destruct (polled_free x Hx) as (_ & ? & _). done. }
  set (skipped := filter (fun x => paused (part_of x) = true) (rd_recs r)) in *.
  assert (ascending skipped) as Hsk by (apply ascending_filter, Hpolled).
  exists (send c' (rewindUndispatched skipped)), (k ++ k' ++ rewindUndispatched skipped), paused.
  assert (Forall pause_call (k ++ k')) as Hkk by (by apply Forall_app).
  split_and!.
  - cbn. by rewrite Es.
  - cbn. by rewrite Ek', Ek, <-!app_assoc.
  - apply pauses_ok_send; [|by apply Hok']. unfold rewindUndispatched. case_decide; repeat constructor.
  - intros x Hx Hh. destruct (polled_free x Hx) as (Hn & Hd & _). split; [|cbn; rewrite Ed; done].
    intros Hi. destruct (Hin _ Hi) as [Hi'|Hi']; [|congruence]. apply Hn. done.
  - intros p d. rewrite (app_assoc k k'). unfold seek. rewrite foldl_app. fold (seek p d (k ++ k')).
    assert (cc_calls (send c' (rewindUndispatched skipped)) = (cc_calls (co_client st) ++ (k ++ k')) ++ rewindUndispatched skipped) as Ec
      by (cbn; by rewrite Ek', Ek, <-!app_assoc).
    rewrite Ec. destruct (pause_calls_neutral (cc_calls (co_client st)) (k ++ k') p d Hkk) as [Ep ->].
    pose proof (rewind_lookup p skipped Hsk) as El. unfold skipped in El. rewrite of_part_held in El. fold skipped in El.
    unfold next_off. unfold rewindUndispatched. case_decide as Hempty.
    + rewrite app_nil_r, Ep. cbn [foldl]. rewrite Hempty in El. destruct (paused p); cbn in El |- *; [|done].
      destruct (of_part p (rd_recs r)); [done|]. by rewrite lookup_empty in El.
    + rewrite position_set, Ep. cbn [foldl after_seek]. rewrite El. destruct (paused p); cbn; [|done].
      by destruct (of_part p (rd_recs r)).
Qed.

Lemma next_off_ge (p : tp) : co_cursor st p <= next_off p (rd_recs r) (poll_end st r p) <= poll_end st r p.
Proof.
  unfold next_off, poll_end, end_of. destruct Hpolled as [Ha _].
  destruct (of_part p (rd_recs r)) as [|x l] eqn:E; [cbn; lia|].
  assert (x ∈ of_part p (rd_recs r)) as Hx by (rewrite E; left). apply list_elem_of_filter in Hx as [Ex Hx].
  destruct (polled_free x Hx) as (_ & _ & _ & Hle). rewrite Ex in Hle. split; [done|].
  pose proof (end_of_gt (rd_recs r) x (co_cursor st p) Ha Hx) as Hend. rewrite Ex in Hend.
  unfold end_of in Hend. rewrite E in Hend. lia.
Qed.

Lemma collect_covered (c2 : consumerClient) (sent : list kcall) (held : tp -> bool) :
  (forall p d, seek p d sent = (if held p then next_off p (rd_recs r) d else d)
       /\ position (cc_calls c2) p = (if held p && negb (bool_decide (of_part p (rd_recs r) = []))
                                      then Some (next_off p (rd_recs r) d)
                                      else position (cc_calls (co_client st)) p)) ->
  let cur := fun p => seek p (poll_end st r p) sent in
  forall p, covered log cur ∅ (filter (fun x => held (part_of x) = false) (rd_recs r)) (co_fine st) (cc_calls c2) cur p.
Proof.
  intros Hs cur p. unfold covered. rewrite decide_False by set_solver. split; [done|].
  destruct (Hs p (poll_end st r p)) as [Es Ep]. destruct (polled_good p) as [H1 H2].
  destruct (next_off_ge p) as [Hge _]. unfold good. fold (cur p) in Es.
  assert (next_off p (filter (fun x => held (part_of x) = false) (rd_recs r)) (cur p)
          = next_off p (rd_recs r) (poll_end st r p)) as En.
  { rewrite Es. unfold next_off. rewrite of_part_held. by destruct (held p). }
  rewrite En. split; [split; [done|]|].
  - intros y. rewrite Ep. destruct (held p && _) eqn:Eh; [intros [= <-]; lia|]. apply H2.
  - intros x Hx. rewrite Es. destruct (held p) eqn:Eh; [lia|]. intros Ho.
    destruct Hpolled as [Ha Hgap]. apply list_elem_of_filter. rewrite (log_parts _ _ Hx). split; [done|].
    destruct (decide (of_part p (rd_recs r) = [])) as [E0|E0].
    { exfalso. unfold next_off, poll_end, end_of in Ho. rewrite E0 in Ho; cbn in Ho. lia. }
    destruct (Hgap p E0) as (_ & _ & Hg). apply Hg; [done|]. unfold poll_end in *. lia.
Qed.

(** A pass of the loop that goes on. *)
Lemma pass_running (sy : system) (c : consumerClient) (evs : list loopEvent) :
  rd_prePoll r = id -> rd_onPoll r = id ->
  poll_round group (consumer_process retry handle) r (co_client st) (co_sys st) = (sy, (c, evs, Running)) ->
  let '(c2, ok) := collectPollRecords (rd_paused r) (synced st r) (rd_recs r) in
  c = (process_records retry handle ∅ ok c2 (co_sys st)).2.
Proof.
  intros Epre Eon. unfold poll_round. destruct (consumerLoopDoneErr (rd_ctx r)) as [[]|]; [by intros [=]..|].
  rewrite Epre, Eon. fold (synced st r). unfold id.
  destruct (checkFetchErrs _ _ _) as [rel [e|]]; [by intros [=]|].
  destruct (collectPollRecords _ _ _) as [c2 ok]. unfold mbind, kio_bind, mret, kio_ret.
  case_bool_decide as Eok; [subst ok; by intros [= _ <- _]|].
  unfold consumer_process, mbind, kio_bind, mret, kio_ret.
  destruct (process_records retry handle ∅ ok c2 (co_sys st)) as [sy1 c3]. by intros [= _ <- _].
Qed.

Lemma pass_inv (sy : system) (c : consumerClient) (evs : list loopEvent) :
  rd_prePoll r = id -> rd_onPoll r = id ->
  poll_round group (consumer_process retry handle) r (co_client st) (co_sys st) = (sy, (c, evs, Running)) ->
  life_inv (take_turn topics group retry handle st (PollTurn r)).
Proof.
  intros Epre Eon Ep. cbn [take_turn]. rewrite Ep. pose proof (pass_running _ _ _ Epre Eon Ep) as Hc.
  unfold kept. fold (synced st r).
  destruct collect_spec as (c2 & sent & held & Ec & Ecalls & Hok & Hfree & Hseek). rewrite Ec in *. cbn [snd].
  set (ok := filter (fun x => held (part_of x) = false) (rd_recs r)) in *.
  set (cur := fun p => seek p (poll_end st r p) sent).
  assert (forall x, x ∈ ok -> x ∈ rd_recs r /\ held (part_of x) = false) as Hsub
    by (intros x [? ?]%list_elem_of_filter; done).
  assert (forall p, co_cursor st p <= cur p) as Hcur.
  { intros p. unfold cur. destruct (Hseek p (poll_end st r p)) as [-> _]. destruct (next_off_ge p).
    destruct (held p); lia. }
  destruct (process_covered retry handle log log_parts pauses_positive cur ok ∅ c2 (co_sys st) (co_fine st) cur)
    as (sent2 & E1 & E2 & E3 & E4).
  - apply ascending_filter, Hpolled.
  - apply Forall_forall. intros x Hx. destruct (Hsub x Hx) as [Hx' Hh]. unfold cur.
    destruct (Hseek (part_of x) (poll_end st r (part_of x))) as [-> _]. rewrite Hh.
    apply end_of_gt; [apply Hpolled|done].
  - done.
  - intros x Hx. destruct (Hsub x Hx) as [Hx' Hh]. destruct (Hfree x Hx' Hh). done.
  - by apply collect_covered.
  - rewrite <-Hc in *.
    assert (forall p, seek p (end_of (rd_recs r) p (co_cursor st p)) (drop (length (cc_calls (co_client st))) (cc_calls c))
              = seek p (cur p) sent2) as Eseek.
    { intros p. rewrite E1, Ecalls, <-app_assoc, drop_app_length. unfold seek at 1. by rewrite foldl_app. }
    constructor; cbn.
    + done.
    + intros p. rewrite Eseek. apply E3.
    + intros p. rewrite Eseek. pose proof (li_committed st inv p). specialize (Hcur p). apply E4; [lia|].
      intros x Hx <-. destruct (Hsub x Hx) as [Hx' _]. destruct (polled_free x Hx') as (_ & _ & _ & ?). lia.
Qed.

End pass.
Lemma restart_inv (st : consumer) (sy : system) : life_inv st -> life_inv (restart topics st sy).
Proof.
  intros [Hp Hg Hc]. constructor; cbn.
  - split; intros p; [by intros [? [=]]|]. unfold in_parts; cbn. by intros ?%elem_of_nil.
  - intros p. destruct (Hg p) as [H1 _]. split; [|done]. intros x Hx Ho. apply H1; [done|]. specialize (Hc p). lia.
  - done.
Qed.

Lemma timer_inv (st : consumer) (p : tp) :
  life_inv st -> life_inv (take_turn topics group retry handle st (TimerTurn p)).
Proof.
  intros [Hp Hg Hc]. constructor; cbn; [| |done].
  - unfold clearDeferredPartitionPause. destruct (cc_deferredPaused (co_client st) !! p) as [o|] eqn:Ed; [|done].
    destruct Hp as [H1 H2].
    assert (forall q, q <> p -> fetch_paused (cc_calls (co_client st) ++ [ResumePartition p]) q
              = fetch_paused (cc_calls (co_client st)) q) as E.
    { intros q Hne. apply fetch_paused_other, Forall_singleton. split; congruence. }
    split; intros q Hq; cbn [cc_calls cc_deferredPaused send set_calls set_deferred] in *.
    + destruct (decide (q = p)) as [->|Hne]; [rewrite lookup_delete_eq in Hq; by destruct Hq|].
      rewrite lookup_delete_ne in Hq by done. rewrite E by done. by apply H1.
    + destruct (H2 q Hq) as [Hf Hn]. destruct (decide (q = p)) as [->|Hne]; [congruence|].
      rewrite E by done. by rewrite lookup_delete_ne by done.
  - intros q. destruct (Hg q) as [H1 H2]. split; [done|]. unfold clearDeferredPartitionPause.
    destruct (cc_deferredPaused (co_client st) !! p); [|done]. intros y. cbn.
    destruct (pause_calls_neutral (cc_calls (co_client st)) [ResumePartition p] q 0) as [-> _]; [by repeat constructor|].
    apply H2.
Qed.

Lemma turn_inv (st : consumer) (t : turn) :
  life_inv st -> valid_turn log st t -> life_inv (take_turn topics group retry handle st t).
Proof.
  intros Hi Hv. destruct t as [r|p| |].
  - destruct Hv as (Epre & Eon & Hp).
    destruct (poll_round group (consumer_process retry handle) r (co_client st) (co_sys st)) as [sy [[c evs] e]] eqn:E.
    destruct e as [|err]; [by eapply pass_inv|]. cbn [take_turn]. rewrite E. by apply restart_inv.
  - by apply timer_inv.
  - destruct Hi as [Hp Hg Hc]. constructor; cbn; [done..|]. intros p. destruct (Hg p) as [_ H2].
    destruct (position (cc_calls (co_client st)) p) as [y|] eqn:Ey; cbn; [by apply H2|done].
  - by apply restart_inv.
Qed.

Lemma turns_inv (ts : list turn) (st : consumer) :
  life_inv st -> valid_turns topics group retry handle log st ts -> life_inv (take_turns topics group retry handle st ts).
Proof.
  induction ts as [|t ts IH] in st |- *; intros Hi Hv; [done|]. destruct Hv as [Hv Hvs]. cbn.
  apply IH; [by apply turn_inv|done].
Qed.

End turns.

(** A consumer that has just joined its group and fetches each partition from
    its start. *)
Definition fresh_consumer (topics : list string) (start_at : tp -> Z) (sy : system) : consumer :=
  mkConsumer (newGroupConsumerClient topics) start_at start_at [] sy.

(** C33: A consumer that works record by record never loses one.  Over any number
    of polls, with handlers that fail or ask for a pause, partitions an operator
    pauses and resumes, timers that end pauses, commits at any time, poll errors
    and restarts of the client: an offset is committed only when the handler of
    every record of the partition below it has answered without an error. *)
Theorem committed_was_handled (topics : list string) (group : string) (retry : bool)
    (handle : krecord -> kio handled) (log : tp -> list krecord) (start_at : tp -> Z) (sy : system) (ts : list turn) :
  (forall p x, x ∈ log p -> part_of x = p /\ start_at p <= kr_offset x) ->
  (forall r sy, (handle r sy).2 <> Fine_ -> 0 < backoff_of retry (handle r sy).2) ->
  valid_turns topics group retry handle log (fresh_consumer topics start_at sy) ts ->
  let st := take_turns topics group retry handle (fresh_consumer topics start_at sy) ts in
  forall p x, x ∈ log p -> kr_offset x < co_committed st p -> x ∈ co_fine st.
Proof.
  intros Hlog Hpos Hv st p x Hx Ho.
  assert (life_inv log st) as [_ Hg Hc].
  { apply turns_inv; [by intros; apply Hlog|done| |done]. constructor; cbn.
    - split; intros q; [by intros [? [=]]|]. unfold in_parts; cbn. by intros ?%elem_of_nil.
    - intros q. split; [|done]. intros y Hy Hlt. destruct (Hlog q y Hy). lia.
    - done. }
  destruct (Hg p) as [H1 _]. apply H1; [done|]. specialize (Hc p). lia.
Qed.

Definition demo_key : tp := ("events", 0).
Definition demo_log (p : tp) : list krecord := if decide (p = demo_key) then demo_rec <$> [5; 6; 7; 8] else [].
Definition demo_round : round :=
  mkRound None None id [] (demo_rec <$> [5; 6; 7; 8]) None id.
Definition demo_system : system := System (World empty_redis []) [] [].
Definition demo_start : consumer := fresh_consumer ["events"] (fun _ => 0) demo_system.
Definition demo_turns : list turn := [PollTurn demo_round; CommitTurn; TimerTurn demo_key; RestartTurn].

Lemma demo_polled : polled demo_log demo_start demo_round.
Proof.
  split; [exact demo_ascending|]. intros p Hp. destruct (decide (p = demo_key)) as [->|Hne].
  - unfold demo_log. rewrite decide_True by done. split_and!; [done| |].
    + repeat (apply Forall_cons; split); [| | | |constructor]; (split; [|vm_compute; discriminate]);
        apply list_elem_of_fmap; eexists; (split; [reflexivity|]); set_solver.
    + intros x Hx _. exact Hx.
  - exfalso. apply Hp. unfold of_part, demo_round, rd_recs.
    cbn [fmap list_fmap]. rewrite !filter_cons, !decide_False by (intros E; by apply Hne). done.
Qed.

Lemma committed_was_handled_witness :
  let st := take_turns ["events"] "g" false demo_handle demo_start demo_turns in
  co_committed st demo_key = 7 /\ co_fine st = [demo_rec 5; demo_rec 6]
  /\ forall x, x ∈ demo_log demo_key -> kr_offset x < 7 -> x ∈ co_fine st.
Proof.
  split_and!; [vm_compute; reflexivity..|].
  apply (committed_was_handled ["events"] "g" false demo_handle demo_log (fun _ => 0) demo_system demo_turns).
  - intros p x. unfold demo_log. case_decide as Hp; [|by intros ?%elem_of_nil]. subst p.
    intros (o & -> & Ho)%list_elem_of_fmap. split; [reflexivity|]. cbn. set_unfold in Ho. lia.
  - intros r sy. unfold demo_handle. cbn. destruct (kr_offset r =? 7); [|done]. intros _. vm_compute. reflexivity.
  - cbn [valid_turns demo_turns valid_turn]. split; [split_and!; [done..|exact demo_polled]|]. by split_and!.
Defined.

(** ** The rebalance gate *)

(** No poll while the gate of the last one is held; [held] after the events. *)
Fixpoint gate_after (held : bool) (evs : list loopEvent) : option bool :=
  match evs with
  | [] => Some held
  | Allow :: evs => gate_after false evs
  | Poll _ :: evs => if held then None else gate_after true evs
  | Process _ :: evs => gate_after held evs
  end.

Lemma gate_after_app (held : bool) (l k : list loopEvent) :
  gate_after held (l ++ k) = match gate_after held l with Some h => gate_after h k | None => None end.
Proof. induction l as [|[|w|recs] l IH] in held |- *; cbn; [done|apply IH| |apply IH]. destruct held; [done|apply IH]. Qed.

Lemma poll_round_gate (group : string) process (r : round) (c : consumerClient) (sy : system) (held : bool) :
  let '(_, (_, evs, e)) := poll_round group process r c sy in
  match e with Running => gate_after held evs = Some false | Returned _ => is_Some (gate_after held evs) end.
Proof.
  unfold poll_round. destruct (consumerLoopDoneErr (rd_ctx r)) as [[]|]; try (cbn; by eexists).
  destruct (checkFetchErrs _ _ _) as [rel [e|]].
  { unfold mret, kio_ret. rewrite gate_after_app. cbn. by destruct rel; eexists. }
  destruct (collectPollRecords _ _ _) as [c2 ok]. unfold mbind, kio_bind, mret, kio_ret.
  case_bool_decide.
  - rewrite gate_after_app. cbn. by destruct rel.
  - destruct (process ok _ sy) as [sy1 [c3 [[|e]|]]]; destruct rel; cbn; first [done|by eexists].
Qed.

(** The loop keeps the contract of a client that blocks rebalances while a poll
    is out: it never polls again before it has let a rebalance through, and a
    pass that goes on has let it through. *)
Lemma poll_loop_contract (group : string) process (rounds : list round) (c : consumerClient) (sy : system) :
  is_Some (gate_after false (runGroupPollLoop group process rounds c sy).2.1.2).
Proof.
  induction rounds as [|r rounds IH] in c, sy |- *; [by eexists|].
  cbn [runGroupPollLoop]. unfold mbind, kio_bind, mret, kio_ret.
  pose proof (poll_round_gate group process r c sy false) as Hg.
  destruct (poll_round group process r c sy) as [sy1 [[c1 evs] [|e]]]; [|exact Hg]. specialize (IH c1 sy1).
  destruct (runGroupPollLoop group process rounds c1 sy1) as [sy2 [[c2 evs2] e2]]; cbn in *.
  by rewrite gate_after_app, Hg.
Qed.

(** ** Shutdown *)

(** A pass of a consumer whose context has ended: the client answers a poll at
    once with the context's error and no records. *)
Definition cancelled_round (r : round) : Prop :=
  rd_ctx r = Some ContextEnded /\ rd_pollCtx r = Some ContextEnded
  /\ (exists t, rd_errs r = [(t, Some CtxErr)]) /\ rd_recs r = [].

(** A consumer whose context has ended does not return: it polls for ever. *)
Lemma cancelled_loop_keeps_polling (group : string) process (rounds : list round) (c : consumerClient) (sy : system) :
  Forall cancelled_round rounds -> (runGroupPollLoop group process rounds c sy).2.2 = Running.
Proof.
  intros Hr. revert c sy. induction Hr as [|r rounds (E1 & E2 & (t & E3) & E4) _ IH]; intros c sy; [done|].
  cbn [runGroupPollLoop]. unfold mbind, kio_bind, poll_round. rewrite E1, E2, E3, E4. cbn.
  set (cc := collectPollRecords _ _ []). assert (cc.2 = []) as Ecc.
  { unfold cc, collectPollRecords. by destruct (rd_paused r). }
  destruct cc as [c2 ok]; cbn in Ecc; subst ok. unfold mbind, kio_bind, mret, kio_ret; cbn.
  specialize (IH c2 sy). destruct (runGroupPollLoop group process rounds c2 sy) as [sy2 [[c3 evs2] e2]]. exact IH.
Qed.

(** ** Restarts *)

(** The wait before the restart after [n] failures, in seconds. *)
Definition nth_wait (n : nat) : Z := Z.min (2 ^ Z.of_nat n) 30.

Lemma next_backoff_nth (n : nat) : next_backoff (sec (nth_wait n)) = sec (nth_wait (S n)).
Proof.
  unfold next_backoff, nth_wait, consumerRestartMax, sec. rewrite Nat2Z.inj_succ, Z.pow_succ_r by lia.
  assert (0 < 2 ^ Z.of_nat n) by (apply Z.pow_pos_nonneg; lia).
  destruct (Z.ltb_spec (Z.min (2 ^ Z.of_nat n) 30 * 1000000000) (30 * 1000000000)); lia.
Qed.

Definition failing (a : attempt) : Prop :=
  at_done a = false /\ at_doneAfter a = false /\ at_doneWaiting a = false /\ is_Some (at_err a).

(** A loop that keeps failing is restarted every time, after waits that double
    from one second up to thirty. *)
Lemma restarts_back_off (l : list attempt) (n : nat) :
  Forall failing l ->
  supervise false (sec (nth_wait n)) l = ((fun i => sec (nth_wait i)) <$> seq n (length l), Restarting).
Proof.
  intros Hl. revert n. induction Hl as [|a l (E1 & E2 & E3 & [e E4]) _ IH]; intros n; [done|].
  simpl supervise. rewrite E1, E2, E3, E4, next_backoff_nth, IH. done.
Qed.

(** No wait is longer than thirty seconds, with or without resets. *)
Lemma restarts_bounded (resets : bool) (b : Z) (l : list attempt) :
  0 < b <= consumerRestartMax -> Forall (fun w => 0 < w <= consumerRestartMax) (supervise resets b l).1.
Proof.
  induction l as [|a l IH] in b |- *; intros Hb; cbn; [constructor|].
  destruct (at_done a); [constructor|]. destruct (at_err a); [|constructor]. destruct (at_doneAfter a); [constructor|].
  destruct (at_doneWaiting a); [by repeat constructor; lia|].
  set (next := if resets && _ then _ else _).
  assert (0 < next <= consumerRestartMax) as Hn.
  { unfold next, next_backoff, consumerRestartInitial, consumerRestartMax, sec in *.
    destruct (resets && _); [lia|]. destruct (Z.ltb_spec b (30 * 1000000000)); lia. }
  specialize (IH next Hn). destruct (supervise resets next l) as [ws e]; cbn in *. by constructor.
Qed.

(** ** The watchdog *)

(** The last touch before an event. *)
Definition last_touch (last : Z) (evs : list guard_event) : Z :=
  foldl (fun l e => match e with Touched t => t | Ticked _ => l end) last evs.

(** The watchdog closes the client exactly when at one of its ticks the last
    touch is older than the limit, at the first such tick. *)
Lemma stall_guard_exact (stall last t : Z) (evs : list guard_event) :
  stall_guard stall last evs = Some t <->
  exists pre post, evs = pre ++ Ticked t :: post /\ stall < t - last_touch last pre
    /\ forall pre1 t1 post1, pre = pre1 ++ Ticked t1 :: post1 -> t1 - last_touch last pre1 <= stall.
Proof.
  induction evs as [|[t0|t0] evs IH] in last |- *; simpl stall_guard.
  { split; [done|]. by intros ([|] & post & [=] & _). }
  - rewrite IH. split; intros (pre & post & E & H1 & H2).
    + exists (Touched t0 :: pre), post. cbn. rewrite E. split_and!; [done..|].
      intros [|e pre1] t1 post1 E1; [done|]. injection E1 as <- E1. cbn. by eapply H2.
    + destruct pre as [|e pre]; [done|]. injection E as <- E. exists pre, post. cbn in H1. split_and!; [done..|].
      intros pre1 t1 post1 ->. by apply (H2 (Touched t0 :: pre1) t1 post1).
  - destruct (Z.leb_spec (t0 - last) stall) as [Hle|Hgt].
    + rewrite IH. split; intros (pre & post & E & H1 & H2).
      * exists (Ticked t0 :: pre), post. cbn. rewrite E. split_and!; [done..|].
        intros [|e pre1] t1 post1 E1; [by injection E1 as <- _|]. injection E1 as <- E1. cbn. by eapply H2.
      * destruct pre as [|e pre]; [injection E as -> _; cbn in H1; lia|]. injection E as <- E. exists pre, post.
        cbn in H1. split_and!; [done..|]. intros pre1 t1 post1 ->. by apply (H2 (Ticked t0 :: pre1) t1 post1).
    + split.
      * intros [= <-]. exists [], evs. split_and!; [done|cbn; lia|]. intros [|] ? ? [=].
      * intros (pre & post & E & H1 & H2). destruct pre as [|e pre]; [by injection E as ->|].
        injection E as <- E. specialize (H2 [] t0 pre eq_refl). cbn in H2. lia.
Qed.

(** With a limit of four seconds the watchdog closes the client of an idle
    consumer, whose poll lasts five: the limit has no lower bound. *)
Lemma idle_poll_stalls :
  let tick := stallHeartbeatInterval (sec 4) in
  let ticks := (fun i => Ticked (tick * Z.of_nat i)) <$> seq 1 7 in
  is_Some (stall_guard (effectiveStallTimeout (SetConsumerStallTimeout defaultConsumerStallTimeout (sec 4)) 0) 0
             (ticks ++ [Touched idlePollWait])).
Proof. vm_compute. by eexists. Qed.

(** ** Health *)

(** The probe is green exactly when every registered name was active within the
    limit, or is still within its grace. *)
Lemma Healthy_spec (h : Health) (now : Z) :
  Healthy h now = true <->
  forall name reg, he_registered h !! name = Some reg ->
    match he_last h !! name with
    | Some last => now - last <= he_maxStale h
    | None => now - reg <= he_bootGrace h
    end.
Proof.
  unfold Healthy, stale_names. rewrite bool_decide_eq_true. split.
  - intros E name reg Hn. apply elem_of_map_to_list in Hn.
    destruct (stale_entry h now (name, reg)) eqn:Es.
    + exfalso. assert (name ∈ ([] : list string)) as Hx; [|by apply elem_of_nil in Hx].
      rewrite <-E. apply list_elem_of_fmap. exists (name, reg). split; [done|]. by apply list_elem_of_filter.
    + unfold stale_entry in Es; cbn in Es. destruct (he_last h !! name); by apply Z.ltb_ge in Es.
  - intros H. destruct ((filter _ (map_to_list (he_registered h))).*1) as [|name l] eqn:E; [done|]. exfalso.
    assert (name ∈ name :: l) as Hx by left. rewrite <-E in Hx.
    apply list_elem_of_fmap in Hx as ([n reg] & -> & [Es Hn]%list_elem_of_filter).
    apply elem_of_map_to_list, H in Hn. unfold stale_entry in Es; cbn in *.
    destruct (he_last h !! n); apply Z.ltb_lt in Es; lia.
Qed.
