(* ===== verification/Alerts.v ===== *)
(** Health alerts: pkg/alerts (settings.go, sampler.go, rules.go, state.go,
    evaluator.go, notify.go, scheduler.go, hooks.go, payload.go).

    A tick of the evaluator takes a lock, samples Redis and the brokers' lag,
    runs the rules, and moves incidents between open and resolved: a breach must
    be seen for a number of ticks to open one, and be absent for a number of
    ticks to resolve it.  Go maps are gone through in the order of their keys
    here; what the brokers answer, the decrypted secrets and the delivery to
    Slack, webhooks and mail are arguments or outputs. *)
From S2P Require Import Prelude Cron Redis Client Protocol Fairness Control Tenants.

(** ** Numbers in text *)

(** The nearest integer, ties to even, as fmt rounds a decimal. *)
Definition round_even (q : Q) : Z :=
  let d := Z.pos (Qden q) in
  let f := Qnum q / d in
  let r := 2 * (Qnum q - f * d) in
  if r <? d then f else if d <? r then f + 1 else if Z.even f then f else f + 1.

(** %.0f and %.1f *)
Definition minus (q : Q) : string := if Qnum q <? 0 then "-" else "".
Definition fixed0 (q : Q) : string := minus q +:+ itoa (Z.abs (round_even q)).
Definition fixed1 (q : Q) : string :=
  let n := Z.abs (round_even (q * 10)) in minus q +:+ itoa (n / 10) +:+ "." +:+ itoa (n mod 10).

Definition Qltb (a b : Q) : bool := negb (Qle_bool b a).

(** Objects of objects, which the settings and the baseline are stored as. *)
Class JsonNested := {
  unmarshal_nested : string -> result (gmap string object);
  marshal_nested : gmap string object -> result string
}.

(** ** Settings *)

Record RuleConf := mkRuleConf { rc_Enabled : bool; rc_Severity : string }.

Record AlertConfig := mkAlertConfig {
  a_Enabled : bool; a_Interval : Z; a_ForTicks : Z; a_ResolveTicks : Z; a_CooldownSeconds : Z;
  a_LagThreshold : Z; a_LagGrowthMin : Z; a_RTTAvgMs : Q; a_RTTMaxMs : Q; a_RTTErrorRate : Q;
  a_ReconcilerMaxAge : Z; a_SchedulePendingMax : Z; a_DLTPerMinute : Z;
  a_FairnessIngestLag : Z; a_FairnessReadyMaxWhenStuck : Z;
  a_TenantGuardEnabled : bool; a_TenantGuardWindowSeconds : Z; a_TenantGuardMinSamples : Z;
  a_TenantGuardErrorRatePct : Q; a_TenantGuardIncludeRetries : bool;
  a_ChannelSlack : bool; a_ChannelWebhook : bool; a_ChannelEmail : bool; a_ChannelMetrics : bool;
  a_SlackWebhookURL : string; a_WebhookURLs : list string; a_EmailTo : string; a_EmailFrom : string;
  a_EmailSMTPAddress : string; a_EmailSMTPPort : Z; a_EmailSMTPUser : string; a_EmailSMTPPassword : string;
  a_Rules : gmap string RuleConf; a_Version : string; a_EncryptionSalt : string;
  a_MetricsEnabled : bool; a_PerformanceMetricsEnabled : bool; a_LivenessEnabled : bool;
  a_RecurringEnabled : bool; a_ConsumerGroup : string; a_Brokers : list string;
  a_FairnessTimeIngest : string; a_FairnessThroughputIngest : string;
  a_FairnessTimeReady : list string; a_FairnessThroughputReady : list string
}.

Definition truthy_text (s : string) : bool :=
  let s := ToLower (TrimSpace s) in
  String.eqb s "1" || String.eqb s "true" || String.eqb s "yes" || String.eqb s "on".

Definition truthy (v : json) : bool :=
  match v with
  | JBool b => b
  | JStr s => truthy_text s
  | JNum q => negb (Qeq_bool q 0)
  | JOther _ => false
  end.

Definition raw_field (raw : gmap string string) (key : string) : string := default "" (raw !! key).

Definition boolField (raw : gmap string string) (key : string) (def : bool) : bool :=
  let v := raw_field raw key in if String.eqb v "" then def else truthy_text v.
Definition intField (raw : gmap string string) (key : string) (def : Z) : Z :=
  let v := raw_field raw key in if String.eqb v "" then def else default def (Atoi v).
Definition positiveOr (v def : Z) : Z := if 0 <? v then v else def.
Definition positiveOrF (v def : Q) : Q := if Qltb 0 v then v else def.

Definition floatField `{NumText} (raw : gmap string string) (key : string) (def : Q) : Q :=
  let v := raw_field raw key in
  if String.eqb v "" then def else match parse_float v with Ok q => q | Bad _ => def end.

(** strings.FieldsFunc around commas and line ends, then trimmed. *)
Definition splitURLs (s : string) : list string :=
  filter (fun p => p <> "") (TrimSpace <$> split_on (fun c => is_char 44 c || is_char 10 c || is_char 13 c) s).

Definition ruleIDs : list string :=
  ["lag_stuck_growing"; "redis_rtt_high"; "no_live_consumers"; "reconciler_stale";
   "fairness_ingest_backed_up"; "dlt_rate_high"; "schedule_depth_high"; "cron_stale";
   "tenant_error_rate_high"].

Definition defaultRules : gmap string RuleConf :=
  list_to_map ((fun id => (id, mkRuleConf true
    (if String.eqb id "lag_stuck_growing" || String.eqb id "no_live_consumers" then "critical" else "warning")))
    <$> ruleIDs).

Definition parse_rule (defaults : gmap string RuleConf) (e : string * object) : gmap string RuleConf :=
  let '(id, conf) := e in
  let rc := default (mkRuleConf false "") (defaults !! id) in
  let enabled := match conf !! "enabled" with Some v => truthy v | None => rc_Enabled rc end in
  let sev := str_field conf "severity" in
  <[id := mkRuleConf enabled (if String.eqb sev "" then rc_Severity rc else sev)]> defaults.

Definition parseRules `{JsonNested} (jsonStr : string) : gmap string RuleConf :=
  if String.eqb jsonStr "" then defaultRules
  else match unmarshal_nested jsonStr with
  | Bad _ => defaultRules
  | Ok raw => foldl parse_rule defaultRules (map_to_list raw)
  end.

(** What the settings use of the daemon's configuration; [decrypt] is Decrypt
    with the daemon's salt. *)
Record AlertDaemon := mkAlertDaemon {
  ad_AlertsEnabled : bool; ad_IntervalSec : Z; ad_ForTicks : Z; ad_ResolveTicks : Z; ad_CooldownSeconds : Z;
  ad_LagThreshold : Z; ad_LagGrowthMin : Z; ad_RTTAvgMs : Q; ad_RTTMaxMs : Q; ad_RTTErrorRate : Q;
  ad_ReconcilerMaxAge : Z; ad_SchedulePendingMax : Z; ad_DLTPerMinute : Z; ad_FairnessIngestLag : Z;
  ad_FairnessReadyMaxWhenStuck : Z; ad_TenantGuardEnabled : bool; ad_TenantGuardWindowSeconds : Z;
  ad_TenantGuardMinSamples : Z; ad_TenantGuardErrorRatePct : Q; ad_TenantGuardIncludeRetries : bool;
  ad_EncryptionSalt : string; ad_MetricsEnabled : bool; ad_PerformanceMetricsEnabled : bool;
  ad_LivenessEnabled : bool; ad_RecurringEnabled : bool; ad_ConsumerGroup : string; ad_Brokers : list string;
  ad_TimeIngest : string; ad_ThroughputIngest : string;
  ad_TimeReady : list string; ad_ThroughputReady : list string
}.

Definition settingsKey : string := "kafka_batch:alerts:settings".
Definition versionKey : string := "kafka_batch:alerts:settings:version".

(** The settings in Redis win over the daemon's; one that does not parse does not count. *)
Definition effective `{NumText} `{JsonNested} (cfg : AlertDaemon) (decrypt : string -> result string)
    (raw : gmap string string) (ver : string) : AlertConfig :=
  let secret key := match decrypt (raw_field raw key) with Ok s => s | Bad _ => "" end in
  let salted := negb (String.eqb (ad_EncryptionSalt cfg) "") in
  mkAlertConfig
    (boolField raw "enabled" (ad_AlertsEnabled cfg))
    (intField raw "interval" (positiveOr (ad_IntervalSec cfg) 60))
    (intField raw "for_ticks" (positiveOr (ad_ForTicks cfg) 3))
    (intField raw "resolve_ticks" (positiveOr (ad_ResolveTicks cfg) 2))
    (intField raw "cooldown_seconds" (positiveOr (ad_CooldownSeconds cfg) 900))
    (intField raw "lag_threshold" (positiveOr (ad_LagThreshold cfg) 1000))
    (intField raw "lag_growth_min" (positiveOr (ad_LagGrowthMin cfg) 100))
    (floatField raw "rtt_avg_ms" (positiveOrF (ad_RTTAvgMs cfg) 50))
    (floatField raw "rtt_max_ms" (positiveOrF (ad_RTTMaxMs cfg) 200))
    (floatField raw "rtt_error_rate" (positiveOrF (ad_RTTErrorRate cfg) (1 # 4)))
    (intField raw "reconciler_max_age" (positiveOr (ad_ReconcilerMaxAge cfg) 900))
    (intField raw "schedule_pending_max" (positiveOr (ad_SchedulePendingMax cfg) 10000))
    (intField raw "dlt_per_minute" (positiveOr (ad_DLTPerMinute cfg) 50))
    (intField raw "fairness_ingest_lag" (positiveOr (ad_FairnessIngestLag cfg) 5000))
    (intField raw "fairness_ready_max_when_stuck" (positiveOr (ad_FairnessReadyMaxWhenStuck cfg) 10))
    (ad_TenantGuardEnabled cfg) (positiveOr (ad_TenantGuardWindowSeconds cfg) 300)
    (positiveOr (ad_TenantGuardMinSamples cfg) 50) (positiveOrF (ad_TenantGuardErrorRatePct cfg) 25)
    (ad_TenantGuardIncludeRetries cfg)
    (boolField raw "channel_slack" false) (boolField raw "channel_webhook" false)
    (boolField raw "channel_email" false) (boolField raw "channel_metrics" true)
    (if salted then secret "slack_webhook_url_ciphertext" else "")
    (if salted then splitURLs (secret "webhook_urls_ciphertext") else [])
    (raw_field raw "email_to") (raw_field raw "email_from") (raw_field raw "email_smtp_address")
    (intField raw "email_smtp_port" 587) (raw_field raw "email_smtp_user")
    (if salted then secret "email_smtp_password_ciphertext" else "")
    (parseRules (raw_field raw "rules_json")) ver (ad_EncryptionSalt cfg)
    (ad_MetricsEnabled cfg) (ad_PerformanceMetricsEnabled cfg) (ad_LivenessEnabled cfg)
    (ad_RecurringEnabled cfg) (ad_ConsumerGroup cfg) (ad_Brokers cfg) (ad_TimeIngest cfg) (ad_ThroughputIngest cfg)
    (ad_TimeReady cfg) (ad_ThroughputReady cfg).

(** A read that fails gives nothing. *)
Definition hash_or_empty (r : result (gmap string string)) : gmap string string :=
  match r with Ok h => h | Bad _ => ∅ end.
Definition string_or_empty (r : result (option string)) : string :=
  match r with Ok (Some s) => s | _ => "" end.

Definition loadEffective `{NumText} `{JsonNested} (cfg : AlertDaemon) (decrypt : string -> result string)
    : io AlertConfig :=
  raw ← do (command (HGETALL settingsKey));
  ver ← do (command (GET versionKey));
  mret (effective cfg decrypt (hash_or_empty raw) (string_or_empty ver)).

(** ** The sample *)

Record LagRow := mkLagRow {
  lr_Group : string; lr_Topic : string; lr_Lag : Z; lr_CommittedSum : option Z; lr_EndSum : option Z
}.
Record FairLane := mkFairLane { fl_Lane : string; fl_IngestLag : Z; fl_ReadyLag : Z }.
Record TenantErrorRow := mkTenantRow {
  te_TenantID : string; te_Rate : Q; te_Samples : Z; te_OK : Z; te_Fail : Z; te_Retry : Z
}.
Record RTTSummary := mkRTT { rt_avg : Q; rt_max : Q; rt_errors : Z; rt_probes : Z }.

Record Sample := mkSample {
  s_LagTopics : list LagRow; s_LagBaseline : gmap string object; s_PausedKeys : list string;
  s_PendingTotal : Z; s_LiveConsumers : Z; s_RTT : option RTTSummary; s_Reconciler : gmap string string;
  s_Fairness : list FairLane; s_SchedulePending : Z; s_ScheduleInflight : Z; s_DLTPerMinute : Z;
  s_CronStale : list object; s_TenantErrorRates : list TenantErrorRow
}.

(** What kadm.Lag says of a partition: its lag, and unless it has an error its
    committed offset and, if that is known, its end. *)
Record part_lag := mkPartLag { pl_Lag : Z; pl_At : option (Z * option Z) }.

(** The answer for a group; [None] when it failed or has no such group. *)
Definition group_lag : Type := option (gmap string (list part_lag)).

Definition lag_row (group topic : string) (parts : list part_lag) : option LagRow :=
  let lag := foldl (fun n p => if 0 <? pl_Lag p then n + pl_Lag p else n) 0 parts in
  let sums := foldl (fun (a : Z * bool * Z * bool) p =>
    let '(c, hasC, e, hasE) := a in
    match pl_At p with
    | None => a
    | Some (at_, end_) =>
        match end_ with
        | Some o => if 0 <=? o then (c + at_, true, e + o, true) else (c + at_, true, e, hasE)
        | None => (c + at_, true, e, hasE)
        end
    end) (0, false, 0, false) parts in
  let '(committed, hasC, end_, hasE) := sums in
  if (lag <=? 0) && negb hasC then None
  else Some (mkLagRow group topic lag (if hasC then Some committed else None) (if hasE then Some end_ else None)).

Definition sampled_groups (group : string) : list string :=
  (fun suffix => group +:+ suffix) <$>
  ["-control"; "-jobs"; "-dispatch-time"; "-dispatch-throughput"; "-jobs-fair-time"; "-jobs-fair-throughput";
   "-go-worker-jobs"].

(** [lags] is the brokers' answer for a group. *)
Definition collectLag (cfg : AlertConfig) (lags : string -> group_lag) : list LagRow * Z :=
  if bool_decide (a_Brokers cfg = []) then ([], 0) else
  let rows := mjoin ((fun g => match lags g with
                               | None => []
                               | Some topics => omap (fun e => lag_row g e.1 e.2) (map_to_list topics)
                               end) <$> sampled_groups (a_ConsumerGroup cfg)) in
  (rows, foldl (fun n r => n + lr_Lag r) 0 rows).

Definition sumLag (rows : list LagRow) (topic : string) : Z :=
  foldl (fun n r => if String.eqb (lr_Topic r) topic then n + lr_Lag r else n) 0 rows.
Definition readySum (rows : list LagRow) (topics : list string) : Z :=
  foldl (fun n t => n + sumLag rows t) 0 topics.

Definition fairnessLanes (cfg : AlertConfig) (rows : list LagRow) : list FairLane :=
  [mkFairLane "time" (sumLag rows (a_FairnessTimeIngest cfg)) (readySum rows (a_FairnessTimeReady cfg));
   mkFairLane "throughput" (sumLag rows (a_FairnessThroughputIngest cfg))
     (readySum rows (a_FairnessThroughputReady cfg))].

(** The characters of a text, one replaced by another. *)
Fixpoint replace_char (c by_ : Ascii.ascii) (s : string) : string :=
  match s with
  | EmptyString => EmptyString
  | String x s => String (if Ascii.eqb x c then by_ else x) (replace_char c by_ s)
  end.

Definition unit_sep : Ascii.ascii := Ascii.ascii_of_nat 31.
Definition bar : Ascii.ascii := Ascii.ascii_of_nat 124.

Definition pausedSet (keys : list string) : gset string :=
  list_to_set keys ∪ list_to_set (replace_char unit_sep bar <$> keys).

Section sampler.
Context `{NumText} `{TimeText} `{Json} `{JsonNested}.

Definition float_or_zero (h : gmap string string) (k : string) : Q :=
  match parse_float (raw_field h k) with Ok q => q | Bad _ => 0 end.

Definition rttKey (bucket : Z) : string := "kafka_batch:perf:min:" +:+ itoa bucket +:+ ":rtt".

Definition rtt_of (h : gmap string string) : RTTSummary :=
  let count := float_or_zero h "count" in
  let avg := if Qltb 0 count then (float_or_zero h "sum_us" / count / 1000)%Q else 0%Q in
  mkRTT avg (float_or_zero h "max_us" / 1000)%Q (truncate (float_or_zero h "errors")) (truncate count).

(** The current minute's bucket, or the one before. *)
Definition rttSummary (now : Z) : io (option RTTSummary) :=
  let bucket := TenantGuard.bucketEpoch (TenantGuard.unix now) in
  h ← do (command (HGETALL (rttKey bucket)));
  if bool_decide (hash_or_empty h = ∅) then
    h ← do (command (HGETALL (rttKey (bucket - 60))));
    mret (if bool_decide (hash_or_empty h = ∅) then None else Some (rtt_of (hash_or_empty h)))
  else mret (Some (rtt_of (hash_or_empty h))).

Definition zcard (key : string) : io Z :=
  r ← do (command (ZCARD key)); mret (match r with Ok n => n | Bad _ => 0 end).

Definition baselineKey : string := "kafka_batch:alerts:baseline".
Definition lastKey : string := "kafka_batch:alerts:last".
Definition dltCounterPrefix : string := "kafka_batch:alerts:dlt:min:".
Definition cronStaleKey : string := "kafka_batch:alerts:cron_stale".

Definition LoadBaseline : io (gmap string object) :=
  r ← do (command (GET baselineKey));
  let raw := string_or_empty r in
  mret (if String.eqb raw "" then ∅
        else match unmarshal_nested raw with Ok m => m | Bad _ => ∅ end).

Definition SaveBaseline (baseline : gmap string object) : io unit :=
  let b := match marshal_nested baseline with Ok s => s | Bad _ => "" end in
  _ ← do (command (SET_EX baselineKey b 86400)); mret tt.

Definition dltKey (now : Z) : string :=
  dltCounterPrefix +:+ itoa (TenantGuard.bucketEpoch (TenantGuard.unix now)).

Definition IncrDLT (now : Z) : io unit :=
  _ ← pipeline [command (_ ← INCRBY (dltKey now) 1; mret tt); command (EXPIRE (dltKey now) 3600)]; mret tt.

Definition int_or_zero (r : result (option string)) : Z := default 0 (Atoi (string_or_empty r)).

Definition DLTCountLastMinute (now : Z) : io Z :=
  r ← do (command (GET (dltKey now))); mret (int_or_zero r).

Definition MarkCronStale (schedule jobType : string) (staleSeconds now : Z) : io unit :=
  let entry := {[ "schedule" := JStr schedule; "job_type" := JStr jobType;
                  "stale_seconds" := JNum (inject_Z staleSeconds); "at" := JStr (rfc3339_format now) ]} in
  let b := match marshal entry with Ok s => s | Bad _ => "" end in
  _ ← pipeline [command (HSET cronStaleKey schedule b); command (EXPIRE cronStaleKey 3600)]; mret tt.

(** The values of a hash that decode. *)
Definition decoded (r : result (gmap string string)) : list object :=
  omap (fun e => match unmarshal e.2 with Ok m => Some (fields m) | Bad _ => None end)
    (map_to_list (hash_or_empty r)).

Definition CronStaleEntries : io (list object) :=
  r ← do (command (HGETALL cronStaleKey)); mret (decoded r).

Definition pausedKeys : io (list string) :=
  r ← do (command (SMEMBERS "kafka_batch:consumption:topics"));
  mret (match r with Ok l => l | Bad _ => [] end).

Definition liveConsumerCount : io Z :=
  r ← do (command (SCAN "kafka_batch:live:consumer:"));
  mret (match r with Ok l => Z.of_nat (length l) | Bad _ => 0 end).

Fixpoint tenant_rows (cfg : AlertConfig) (now : Z) (tenants : list string) : io (list TenantErrorRow) :=
  match tenants with
  | [] => mret []
  | tid :: tenants =>
      '(rate, samples, ok) ← TenantGuard.ErrorRate tid (a_TenantGuardWindowSeconds cfg)
                               (a_TenantGuardMinSamples cfg) (a_TenantGuardIncludeRetries cfg) now;
      if ok : bool then
        c ← TenantGuard.WindowCounts tid (a_TenantGuardWindowSeconds cfg) now;
        rows ← tenant_rows cfg now tenants;
        mret (mkTenantRow tid rate samples (TenantGuard.c_OK c) (TenantGuard.c_Fail c) (TenantGuard.c_Retry c) :: rows)
      else tenant_rows cfg now tenants
  end.

Definition tenantErrorRates (cfg : AlertConfig) (now : Z) : io (list TenantErrorRow) :=
  if negb (a_TenantGuardEnabled cfg) then mret []
  else
    tenants ← TenantGuard.ActiveTenants (a_TenantGuardWindowSeconds cfg) now;
    tenant_rows cfg now tenants.

Definition collectSample (cfg : AlertConfig) (lags : string -> group_lag) (now : Z) : io Sample :=
  base ← LoadBaseline;
  paused ← pausedKeys;
  rtt ← rttSummary now;
  rec ← do (command (HGETALL "kafka_batch:reconciler:last"));
  pending ← zcard "kafka_batch:sched:pending";
  inflight ← zcard "kafka_batch:sched:inflight";
  dlt ← DLTCountLastMinute now;
  cron ← CronStaleEntries;
  live ← liveConsumerCount;
  let '(rows, total) := collectLag cfg lags in
  tenants ← tenantErrorRates cfg now;
  mret (mkSample rows base paused total live rtt (hash_or_empty rec) (fairnessLanes cfg rows) pending inflight
          dlt cron tenants).

Definition baseline_entry (row : LagRow) : object :=
  let m : object := {[ "lag" := JNum (inject_Z (lr_Lag row)) ]} in
  let m := match lr_CommittedSum row with Some c => <["committed" := JNum (inject_Z c)]> m | None => m end in
  match lr_EndSum row with Some e => <["end_sum" := JNum (inject_Z e)]> m | None => m end.

Definition lag_key (row : LagRow) : string := lr_Group row +:+ "|" +:+ lr_Topic row.

Definition persistBaseline (sample : Sample) : io unit :=
  SaveBaseline (foldl (fun m row => <[lag_key row := baseline_entry row]> m) ∅ (s_LagTopics sample)).

End sampler.

(** ** The rules *)

Record Finding := mkFinding {
  fi_RuleID : string; fi_Fingerprint : string; fi_Title : string; fi_Summary : string;
  fi_Severity : string; fi_Link : string; fi_Sample : object
}.

Definition ruleEnabled (cfg : AlertConfig) (id : string) : bool :=
  match a_Rules cfg !! id with None => true | Some rc => rc_Enabled rc end.

Definition ruleSeverity (cfg : AlertConfig) (id def : string) : string :=
  match a_Rules cfg !! id with
  | Some rc => if String.eqb (rc_Severity rc) "" then def else rc_Severity rc
  | None => def
  end.

(** asInt64 of a decoded value. *)
Definition asInt64 (v : option json) : option Z :=
  match v with
  | Some (JNum q) => Some (truncate q)
  | Some (JStr s) => Atoi s
  | _ => None
  end.

Definition lag_stuck (cfg : AlertConfig) (paused : gset string) (baseline : gmap string object) (row : LagRow) : bool :=
  (a_LagThreshold cfg <=? lr_Lag row)
  && negb (bool_decide (lr_Group row +:+ String unit_sep EmptyString +:+ lr_Topic row ∈ paused)
           || bool_decide (lag_key row ∈ paused))
  && match baseline !! lag_key row with
     | None => false
     | Some prev =>
         match asInt64 (prev !! "committed"), lr_CommittedSum row with
         | Some prevCommitted, Some committed =>
             let prevLag := default 0 (asInt64 (prev !! "lag")) in
             (prevCommitted =? committed)
             && ((a_LagGrowthMin cfg <=? lr_Lag row - prevLag)
                 || match asInt64 (prev !! "end_sum"), lr_EndSum row with
                    | Some prevEnd, Some end_ => prevEnd <? end_
                    | _, _ => false
                    end)
         | _, _ => false
         end
     end.

Definition ruleLagStuck (cfg : AlertConfig) (sample : Sample) : list Finding :=
  let id := "lag_stuck_growing" in
  if negb (ruleEnabled cfg id) then []
  else
    (fun row => mkFinding id (id +:+ ":" +:+ lr_Group row +:+ ":" +:+ lr_Topic row)
       "Lag growing without consumption"
       (lr_Topic row +:+ " (" +:+ lr_Group row +:+ ") lag=" +:+ itoa (lr_Lag row)
        +:+ " committed stuck; backlog still growing.") (ruleSeverity cfg id "critical") "/lag" ∅)
    <$> filter (fun row => lag_stuck cfg (pausedSet (s_PausedKeys sample)) (s_LagBaseline sample) row = true)
          (s_LagTopics sample).

Definition ruleRedisRTT (cfg : AlertConfig) (sample : Sample) : list Finding :=
  let id := "redis_rtt_high" in
  if negb (ruleEnabled cfg id) || negb (a_PerformanceMetricsEnabled cfg) then []
  else match s_RTT sample with
  | None => []
  | Some r =>
      let errRate := if 0 <? rt_probes r then (inject_Z (rt_errors r) / inject_Z (rt_probes r))%Q else 0%Q in
      if Qltb (rt_avg r) (a_RTTAvgMs cfg) && Qltb (rt_max r) (a_RTTMaxMs cfg) && Qltb errRate (a_RTTErrorRate cfg)
      then []
      else [mkFinding id id "Redis RTT elevated"
              ("Redis RTT avg=" +:+ fixed1 (rt_avg r) +:+ "ms max=" +:+ fixed1 (rt_max r) +:+ "ms errors="
               +:+ itoa (rt_errors r) +:+ "/" +:+ itoa (rt_probes r))
              (ruleSeverity cfg id "warning") "/performance" ∅]
  end.

Definition ruleNoLive (cfg : AlertConfig) (sample : Sample) : list Finding :=
  let id := "no_live_consumers" in
  if negb (ruleEnabled cfg id) || negb (a_LivenessEnabled cfg) then []
  else if (s_PendingTotal sample <=? 0) || (0 <? s_LiveConsumers sample) then []
  else [mkFinding id id "No live consumers with lag"
          ("topic_pending=" +:+ itoa (s_PendingTotal sample) +:+ " but live consumers=0")
          (ruleSeverity cfg id "critical") "/live" ∅].

Definition ruleFairness (cfg : AlertConfig) (sample : Sample) : list Finding :=
  let id := "fairness_ingest_backed_up" in
  if negb (ruleEnabled cfg id) then []
  else
    (fun l => mkFinding id (id +:+ ":" +:+ fl_Lane l) "Fairness ingest backed up"
       ("Fair " +:+ fl_Lane l +:+ " ingest_lag=" +:+ itoa (fl_IngestLag l) +:+ " ready_lag=" +:+ itoa (fl_ReadyLag l)
        +:+ " (forwarder may be stuck).") (ruleSeverity cfg id "warning") ("/fairness/" +:+ fl_Lane l) ∅)
    <$> filter (fun l => (a_FairnessIngestLag cfg <=? fl_IngestLag l)
                         && (fl_ReadyLag l <=? a_FairnessReadyMaxWhenStuck cfg) = true) (s_Fairness sample).

Definition ruleDLT (cfg : AlertConfig) (sample : Sample) : list Finding :=
  let id := "dlt_rate_high" in
  if negb (ruleEnabled cfg id) || (s_DLTPerMinute sample <? a_DLTPerMinute cfg) then []
  else [mkFinding id id "Dead-letter rate high"
          ("DLT publishes last minute=" +:+ itoa (s_DLTPerMinute sample) +:+ " (threshold "
           +:+ itoa (a_DLTPerMinute cfg) +:+ ").") (ruleSeverity cfg id "warning") "/dead_letter" ∅].

Definition ruleSchedule (cfg : AlertConfig) (sample : Sample) : list Finding :=
  let id := "schedule_depth_high" in
  if negb (ruleEnabled cfg id) || (s_SchedulePending sample <? a_SchedulePendingMax cfg) then []
  else [mkFinding id id "Delayed-job schedule depth high"
          ("sched:pending=" +:+ itoa (s_SchedulePending sample) +:+ " (threshold "
           +:+ itoa (a_SchedulePendingMax cfg) +:+ "), inflight=" +:+ itoa (s_ScheduleInflight sample) +:+ ".")
          (ruleSeverity cfg id "warning") "/scheduled" ∅].

Definition ruleCron (cfg : AlertConfig) (sample : Sample) : list Finding :=
  let id := "cron_stale" in
  if negb (ruleEnabled cfg id) || negb (a_RecurringEnabled cfg) then []
  else
    (fun e => let sched := str_field e "schedule" in
       mkFinding id (id +:+ ":" +:+ sched) "Recurring schedule stale"
         ("Recurring schedule " +:+ sched +:+ " stale for " +:+ itoa (default 0 (asInt64 (e !! "stale_seconds")))
          +:+ "s (job_type=" +:+ str_field e "job_type" +:+ ").") (ruleSeverity cfg id "warning") "/recurring" ∅)
    <$> s_CronStale sample.

Definition ruleTenantErrorRate (cfg : AlertConfig) (sample : Sample) : list Finding :=
  let id := "tenant_error_rate_high" in
  let threshold := a_TenantGuardErrorRatePct cfg in
  if negb (ruleEnabled cfg id) then []
  else
    (fun row => mkFinding id ("tenant_error_rate:" +:+ te_TenantID row) "Tenant error rate high"
       ("tenant=" +:+ te_TenantID row +:+ " error rate " +:+ fixed1 (te_Rate row) +:+ "% over "
        +:+ itoa (te_Samples row) +:+ " samples (threshold " +:+ fixed1 threshold +:+ "%).")
       (ruleSeverity cfg id "warning") "/tenant_guard"
       {[ "tenant_id" := JStr (te_TenantID row); "rate" := JNum (te_Rate row);
          "samples" := JNum (inject_Z (te_Samples row)); "ok" := JNum (inject_Z (te_OK row));
          "fail" := JNum (inject_Z (te_Fail row)); "retry" := JNum (inject_Z (te_Retry row));
          "threshold" := JNum threshold ]})
    <$> filter (fun row => negb (String.eqb (te_TenantID row) "") && negb (Qltb (te_Rate row) threshold) = true)
          (s_TenantErrorRates sample).

Section evaluator.
Context `{NumText} `{TimeText} `{Json} `{JsonNested}.

Definition ruleReconciler (cfg : AlertConfig) (now : Z) (sample : Sample) : list Finding :=
  let id := "reconciler_stale" in
  let find suffix summary :=
    mkFinding id (id +:+ suffix) "Reconciler stale or failing" summary (ruleSeverity cfg id "warning") "/reconciler" ∅ in
  if negb (ruleEnabled cfg id) then []
  else if bool_decide (s_Reconciler sample = ∅) then
    [find ":missing" "No reconciler run summary in Redis (never ran or Redis unavailable)."]
  else
    let last := s_Reconciler sample in
    let ranAt := raw_field last "ran_at" in
    let stale :=
      match (if String.eqb ranAt "" then None else rfc3339_parse ranAt) with
      | None => []
      | Some t =>
          let age := Z.quot (now - t) 1000000000 in
          if a_ReconcilerMaxAge cfg <? age then
            [find ":age" ("Last reconciler run " +:+ itoa age +:+ "s ago (max " +:+ itoa (a_ReconcilerMaxAge cfg) +:+ "s).")]
          else []
      end in
    let pf := default 0 (Atoi (raw_field last "produce_failed")) in
    let fs := default 0 (Atoi (raw_field last "found_stale")) in
    stale ++ (if (0 <? pf) || (10 <=? fs)
              then [find ":failures" ("Reconciler produce_failed=" +:+ itoa pf +:+ " found_stale=" +:+ itoa fs +:+ ".")]
              else []).

Definition runRules (cfg : AlertConfig) (now : Z) (sample : Sample) : list Finding :=
  ruleLagStuck cfg sample ++ ruleRedisRTT cfg sample ++ ruleNoLive cfg sample ++ ruleReconciler cfg now sample
  ++ ruleFairness cfg sample ++ ruleDLT cfg sample ++ ruleSchedule cfg sample ++ ruleCron cfg sample
  ++ ruleTenantErrorRate cfg sample.

(** ** The state of incidents *)

Definition lockKey : string := "kafka_batch:alerts:lock".
Definition openKey : string := "kafka_batch:alerts:open".
Definition breachKey : string := "kafka_batch:alerts:breach".
Definition healthyKey : string := "kafka_batch:alerts:healthy".
Definition notifyDedupePrefix : string := "kafka_batch:alerts:notify_dedupe:".

Definition yes (r : result bool) : bool := match r with Ok b => b | Bad _ => false end.

Definition TryLock (ttlSec : Z) : io bool :=
  r ← do (command (SET_NX_EX lockKey "1" (if ttlSec <? 2 then 2 else ttlSec))); mret (yes r).

Definition OpenAlerts : io (list object) :=
  r ← do (command (HGETALL openKey)); mret (decoded r).

Definition GetOpen (fp : string) : io (option object) :=
  r ← do (command (HGET openKey fp));
  let raw := string_or_empty r in
  mret (if String.eqb raw "" then None else match unmarshal raw with Ok m => m | Bad _ => None end).

Definition text_of (incident : object) : string := match marshal incident with Ok s => s | Bad _ => "" end.

Definition SetOpen (fp : string) (incident : object) : io unit :=
  _ ← do (command (HSET openKey fp (text_of incident))); mret tt.

Definition ClaimOpen (fp : string) (incident : object) : io bool :=
  r ← do (command (HSETNX openKey fp (text_of incident))); mret (yes r).

Definition TouchOpen (fp summary : string) : io unit :=
  open ← GetOpen fp;
  match open with
  | None => mret tt
  | Some m => SetOpen fp (<["summary" := JStr summary]> m)
  end.

(** HDEL, with the number of fields it removed. *)
Definition HDEL_removed {R} (k f : string) : script R bool :=
  b ← HEXISTS k f; _ ← HDEL k f; mret b.

Definition ClearOpen (fp : string) : io bool :=
  r ← do (command (HDEL_removed openKey fp)); mret (yes r).

Definition ClaimNotify (fingerprint event : string) (ttlSec : Z) : io bool :=
  r ← do (command (SET_NX_EX (notifyDedupePrefix +:+ event +:+ ":" +:+ fingerprint) "1"
                     (if ttlSec <? 60 then 60 else ttlSec)));
  mret (yes r).

Definition BreachCount (fp : string) : io Z := r ← do (command (HGET breachKey fp)); mret (int_or_zero r).
Definition HealthyCount (fp : string) : io Z := r ← do (command (HGET healthyKey fp)); mret (int_or_zero r).
Definition IncrBreach (fp : string) : io unit :=
  _ ← pipeline [command (HINCRBY breachKey fp 1); command (HSET healthyKey fp "0")]; mret tt.
Definition IncrHealthy (fp : string) : io unit :=
  _ ← pipeline [command (HINCRBY healthyKey fp 1); command (HSET breachKey fp "0")]; mret tt.
Definition ResetBreach (fp : string) : io unit := _ ← do (command (HSET breachKey fp "0")); mret tt.
Definition ResetHealthy (fp : string) : io unit := _ ← do (command (HSET healthyKey fp "0")); mret tt.

(** ** One tick *)

Record transition := mkTransition { tr_event : string; tr_finding : Finding; tr_firedAt : string }.

Definition incident_of (f : Finding) (now : Z) : object :=
  {[ "fingerprint" := JStr (fi_Fingerprint f); "rule_id" := JStr (fi_RuleID f); "title" := JStr (fi_Title f);
     "summary" := JStr (fi_Summary f); "severity" := JStr (fi_Severity f); "link" := JStr (fi_Link f);
     "fired_at" := JStr (rfc3339_format now); "last_notify_at" := JStr (rfc3339_format now);
     "runtime" := JStr "go" ]}.

Definition at_least_one (n : Z) : Z := if n <? 1 then 1 else n.

(** A fingerprint with a finding. *)
Definition breach_tick (cfg : AlertConfig) (now : Z) (fp : string) (f : Finding) : io (list transition) :=
  _ ← IncrBreach fp;
  _ ← ResetHealthy fp;
  count ← BreachCount fp;
  open ← GetOpen fp;
  match open with
  | Some _ => _ ← TouchOpen fp (fi_Summary f); mret []
  | None =>
      if count <? at_least_one (a_ForTicks cfg) then mret []
      else
        claimed ← ClaimOpen fp (incident_of f now);
        mret (if claimed : bool then [mkTransition "fired" f (rfc3339_format now)] else [])
  end.

(** An open incident whose fingerprint has no finding. *)
Definition healthy_tick (cfg : AlertConfig) (incident : object) : io (list transition) :=
  let fp := str_field incident "fingerprint" in
  _ ← IncrHealthy fp;
  _ ← ResetBreach fp;
  count ← HealthyCount fp;
  if count <? at_least_one (a_ResolveTicks cfg) then mret []
  else
    cleared ← ClearOpen fp;
    if negb cleared then mret []
    else
      _ ← ResetHealthy fp;
      mret [mkTransition "resolved"
              (mkFinding (str_field incident "rule_id") fp (str_field incident "title")
                 (str_field incident "summary") (str_field incident "severity") (str_field incident "link") ∅)
              (str_field incident "fired_at")].

Fixpoint breach_ticks (cfg : AlertConfig) (now : Z) (active : list (string * Finding)) : io (list transition) :=
  match active with
  | [] => mret []
  | (fp, f) :: active => t ← breach_tick cfg now fp f; ts ← breach_ticks cfg now active; mret (t ++ ts)
  end.

Fixpoint healthy_ticks (cfg : AlertConfig) (active : gmap string Finding) (open : list object) : io (list transition) :=
  match open with
  | [] => mret []
  | incident :: open =>
      if bool_decide (is_Some (active !! str_field incident "fingerprint")) then healthy_ticks cfg active open
      else t ← healthy_tick cfg incident; ts ← healthy_ticks cfg active open; mret (t ++ ts)
  end.

(** The last finding of a fingerprint counts. *)
Definition active_of (findings : list Finding) : gmap string Finding :=
  foldl (fun m f => <[fi_Fingerprint f := f]> m) ∅ findings.

Definition applyHysteresis (cfg : AlertConfig) (now : Z) (findings : list Finding) : io (list transition) :=
  let active := active_of findings in
  ts ← breach_ticks cfg now (map_to_list active);
  open ← OpenAlerts;
  ts' ← healthy_ticks cfg active open;
  mret (ts ++ ts').

(** ** Notifications *)

Record Payload := mkPayload {
  p_Event : string; p_RuleID : string; p_Title : string; p_Summary : string; p_Severity : string;
  p_Fingerprint : string; p_Link : string; p_Sample : object; p_FiredAt : string; p_ResolvedAt : string;
  p_Source : string
}.

Definition withDefaults (p : Payload) : Payload :=
  mkPayload (p_Event p) (p_RuleID p) (p_Title p) (p_Summary p)
    (if String.eqb (p_Severity p) "" then "warning" else p_Severity p) (p_Fingerprint p) (p_Link p) (p_Sample p)
    (p_FiredAt p) (p_ResolvedAt p) (if String.eqb (p_Source p) "" then "kafka-batch" else p_Source p).

(** What is sent, and where to. *)
Record SlackMessage := mkSlack {
  sl_text : string; sl_header : string; sl_section : string; sl_context : string; sl_button : option string
}.
Inductive channel :=
  | Slack (url : string) (m : SlackMessage)
  | Webhook (url : string) (p : Payload)
  | Email (addr from to_ msg : string) (auth : option (string * string))
  | Metrics (event : string) (tags : list (string * string)).

(** strings.ToUpper in ASCII. *)
Definition upper_char (c : Ascii.ascii) : Ascii.ascii :=
  let n := Ascii.nat_of_ascii c in
  if (97 <=? n)%nat && (n <=? 122)%nat then Ascii.ascii_of_nat (n - 32) else c.
Fixpoint ToUpper (s : string) : string :=
  match s with EmptyString => EmptyString | String c s => String (upper_char c) (ToUpper s) end.

(** The first [n] bytes. *)
Definition truncated (s : string) (n : nat) : string := if (String.length s <=? n)%nat then s else String.substring 0 n s.

Definition crlf : string := String (Ascii.ascii_of_nat 13) (String (Ascii.ascii_of_nat 10) EmptyString).
Definition backquote : string := String (Ascii.ascii_of_nat 96) EmptyString.

Definition deliverSlack (cfg : AlertConfig) (p : Payload) : channel :=
  Slack (a_SlackWebhookURL cfg) (mkSlack
    ("[" +:+ p_Severity p +:+ "] " +:+ p_Title p)
    (ToUpper (truncated (p_Event p +:+ ": " +:+ p_Title p) 150))
    (truncated (p_Summary p) 2900)
    ("rule=" +:+ backquote +:+ p_RuleID p +:+ backquote +:+ " · " +:+ backquote +:+ p_Fingerprint p +:+ backquote
     +:+ " · source=go")
    (if String.eqb (p_Link p) "" then None else Some (p_Link p))).

Definition deliverWebhooks (cfg : AlertConfig) (p : Payload) : list channel := (fun u => Webhook u p) <$> a_WebhookURLs cfg.

Definition deliverEmail (cfg : AlertConfig) (p : Payload) : channel :=
  let from := if String.eqb (a_EmailFrom cfg) "" then "kafka-batch-alerts@localhost" else a_EmailFrom cfg in
  let subject := "[" +:+ p_Severity p +:+ "] " +:+ p_Event p +:+ ": " +:+ p_Title p in
  Email (a_EmailSMTPAddress cfg +:+ ":" +:+ itoa (a_EmailSMTPPort cfg)) from (a_EmailTo cfg)
    ("To: " +:+ a_EmailTo cfg +:+ crlf +:+ "From: " +:+ from +:+ crlf +:+ "Subject: " +:+ subject +:+ crlf
     +:+ "MIME-Version: 1.0" +:+ crlf +:+ "Content-Type: text/plain; charset=UTF-8" +:+ crlf +:+ crlf
     +:+ p_Summary p +:+ crlf +:+ crlf +:+ "rule=" +:+ p_RuleID p +:+ " fingerprint=" +:+ p_Fingerprint p +:+ crlf)
    (if String.eqb (a_EmailSMTPUser cfg) "" then None else Some (a_EmailSMTPUser cfg, a_EmailSMTPPassword cfg)).

Definition deliverMetrics (p : Payload) : channel :=
  Metrics (if String.eqb (p_Event p) "resolved" then "alert.resolved" else "alert.fired")
    [("rule_id", p_RuleID p); ("severity", p_Severity p); ("fingerprint", p_Fingerprint p); ("event", p_Event p);
     ("title", p_Title p)].

Definition Deliver (cfg : AlertConfig) (p : Payload) : list channel :=
  let p := withDefaults p in
  let salted := negb (String.eqb (a_EncryptionSalt cfg) "") in
  (if a_ChannelSlack cfg && negb (String.eqb (a_SlackWebhookURL cfg) "") && salted then [deliverSlack cfg p] else [])
  ++ (if a_ChannelWebhook cfg && salted then deliverWebhooks cfg p else [])
  ++ (if a_ChannelEmail cfg && negb (String.eqb (a_EmailTo cfg) "") && negb (String.eqb (a_EmailSMTPAddress cfg) "")
      then [deliverEmail cfg p] else [])
  ++ (if a_ChannelMetrics cfg && a_MetricsEnabled cfg then [deliverMetrics p] else []).

Definition dedupeTTL (interval : Z) : Z := Z.min 3600 (Z.max 120 (interval * 3)).

Definition payload_of (t : transition) (now : Z) : Payload :=
  let f := tr_finding t in
  let fired := String.eqb (tr_event t) "fired" in
  mkPayload (tr_event t) (fi_RuleID f) (fi_Title f) (fi_Summary f) (fi_Severity f) (fi_Fingerprint f) (fi_Link f)
    (fi_Sample f)
    (if fired && String.eqb (tr_firedAt t) "" then rfc3339_format now else tr_firedAt t)
    (if fired then "" else rfc3339_format now) "kafka-batch-go".

Fixpoint notifyTransitions (cfg : AlertConfig) (now : Z) (ts : list transition) : io (list channel) :=
  match ts with
  | [] => mret []
  | t :: ts =>
      let event := if String.eqb (tr_firedAt t) "" then tr_event t else tr_event t +:+ ":" +:+ tr_firedAt t in
      ok ← ClaimNotify (fi_Fingerprint (tr_finding t)) event (dedupeTTL (a_Interval cfg));
      rest ← notifyTransitions cfg now ts;
      mret ((if ok : bool then Deliver cfg (payload_of t now) else []) ++ rest)
  end.

Definition countEvent (ts : list transition) (event : string) : Z :=
  Z.of_nat (length (filter (fun t => tr_event t = event) ts)).

Definition summary_of (cfg : AlertConfig) (now : Z) (findings : list Finding) (open : list object)
    (ts : list transition) : object :=
  {[ "ran_at" := JStr (rfc3339_format now); "findings" := JNum (inject_Z (Z.of_nat (length findings)));
     "open" := JNum (inject_Z (Z.of_nat (length open)));
     "fired" := JNum (inject_Z (countEvent ts "fired")); "resolved" := JNum (inject_Z (countEvent ts "resolved"));
     "settings_version" := JStr (a_Version cfg); "runtime" := JStr "go" ]}.

Definition SET {R} (k v : string) : script R unit := modify (fun s => put k (RString v) (del_key k s)).

Definition SaveLast (summary : object) : io unit :=
  _ ← do (command (SET lastKey (text_of summary))); mret tt.

(** Why a tick did nothing, or what it did. *)
Inductive tick_result := Skipped (reason : string) | Evaluated (ts : list transition) (sent : list channel).

Definition EvaluateOnce (cfg : AlertConfig) (lags : string -> group_lag) (now : Z) : io tick_result :=
  if negb (a_Enabled cfg) then mret (Skipped "disabled")
  else
    locked ← TryLock (if a_Interval cfg <? 30 then 30 else a_Interval cfg);
    if negb locked then mret (Skipped "lock")
    else
      sample ← collectSample cfg lags now;
      let findings := runRules cfg now sample in
      ts ← applyHysteresis cfg now findings;
      sent ← notifyTransitions cfg now ts;
      _ ← persistBaseline sample;
      open ← OpenAlerts;
      _ ← SaveLast (summary_of cfg now findings open ts);
      mret (Evaluated ts sent).

(** A tick of the scheduler: the interval it goes on with, and what it did. *)
Definition scheduler_tick (cfg : AlertDaemon) (decrypt : string -> result string) (lags : string -> group_lag)
    (interval now : Z) : io (Z * tick_result) :=
  eff ← loadEffective cfg decrypt;
  r ← EvaluateOnce eff lags now;
  mret (if 0 <? a_Interval eff then sec (a_Interval eff) else interval, r).

(** ** What the instrumentation reports *)

(** intFrom of hooks.go: text is read as a number. *)
Definition hook_int (v : option json) : Z := match v with Some (JStr s) => (parseInt s).1 | v => intFrom v end.

Definition instrument_hook (event : string) (payload : object) (now : Z) : io unit :=
  if String.eqb event "dlt.published" then IncrDLT now
  else if String.eqb event "cron.stale" then
    let schedule := str_field payload "schedule" in
    if String.eqb schedule "" then mret tt
    else MarkCronStale schedule (str_field payload "job_type") (hook_int (payload !! "stale_seconds")) now
  else mret tt.

End evaluator.
