(* ===== verification/AlertsProps.v ===== *)
(** The properties of the alerts: a tick moves the incident of every fingerprint
    as a small machine prescribes, and over a run of ticks an incident is
    reported open and resolved in turns. *)
From stdpp Require Import functions.
From S2P Require Import Prelude Cron Redis Client Protocol Fairness Concrete Control Tenants Frame Alerts.

(** ** Round trips that complete *)

(** On a network without faults [m] gives a store and a value in [P]. *)
Definition yields {A} (m : io A) (s : redis) (P : redis -> A -> Prop) : Prop :=
  forall w, quiet w -> w_db w = s -> quiet (m w).1 /\ P (w_db (m w).1) (m w).2.

Section yields.
Context {A : Type}.

Lemma yields_ret (a : A) (s : redis) (P : redis -> A -> Prop) : P s a -> yields (mret a) s P.
Proof. by intros HP w Hq <-. Qed.

Lemma yields_bind {B} (m : io B) (k : B -> io A) (s : redis) (P : redis -> A -> Prop) :
  yields m s (fun s' b => yields (k b) s' P) -> yields (m ≫= k) s P.
Proof.
  intros Hm w Hq Es. unfold mbind, io_bind. destruct (Hm w Hq Es) as [Hq1 H1].
  destruct (m w) as [w1 b]. by apply H1.
Qed.

Lemma yields_mono (m : io A) (s : redis) (P P' : redis -> A -> Prop) :
  yields m s P -> (forall s' a, P s' a -> P' s' a) -> yields m s P'.
Proof. intros Hm HP w Hq Es. destruct (Hm w Hq Es). auto. Qed.

(** The outcome of a command as the client reports it. *)
Definition reported (P : redis -> result A -> Prop) (s : redis) (f : flow A A) : Prop :=
  match f with Next a => P s (Ok a) | Return r => P s (Ok r) | Redis.Fail e => P s (Bad e) end.

Lemma command_wp (m : script A A) (s : redis) (P : redis -> result A -> Prop) :
  wp m s (reported P) -> P (command m s).1 (command m s).2.
Proof. unfold wp, command. destruct (m s) as [s' [a|r|e]]; done. Qed.

Lemma yields_do (m : script A A) (s : redis) (P : redis -> result A -> Prop) :
  wp m s (reported P) -> yields (do (command m)) s P.
Proof.
  intros Hm w Hq <-. destruct (do_quiet (command m) w Hq) as (net & -> & Hn).
  split; [exact Hn|]. by apply command_wp.
Qed.

Lemma yields_pipeline2 (m1 m2 : script A A) (s : redis) (P : redis -> list (result A) -> Prop) :
  wp m1 s (reported (fun s1 r1 => wp m2 s1 (reported (fun s2 r2 => P s2 [r1; r2])))) ->
  yields (pipeline [command m1; command m2]) s P.
Proof.
  intros Hm w Hq <-. destruct (pipeline_quiet [command m1; command m2] w Hq) as (net & -> & Hn).
  split; [exact Hn|]. cbn.
  pose proof (command_wp m1 (w_db w) _ Hm) as H1. destruct (command m1 (w_db w)) as [s1 r1]. cbn in H1.
  pose proof (command_wp m2 s1 _ H1) as H2. by destruct (command m2 s1) as [s2 r2].
Qed.
End yields.

(** One round trip, symbolically. *)
Ltac trip :=
  lazymatch goal with
  | |- yields (mbind _ _) _ _ => apply yields_bind
  | |- yields (mret _) _ _ => apply yields_ret
  | |- yields (do (command _)) _ _ => apply yields_do
  | |- yields (pipeline [command _; command _]) _ _ => apply yields_pipeline2
  | |- reported _ _ _ => unfold reported
  | |- _ => step
  end; cbv beta iota.

(** ** The machine of a fingerprint *)

(** What is known of a fingerprint: its counters and its incident. *)
Record watch := mkWatch { breaches : Z; healthies : Z; incident : option object }.

(** What notifications say. *)
Definition fired (f : Finding) (firedAt : string) : transition := mkTransition "fired" f firedAt.
Definition resolved (i : object) : transition :=
  mkTransition "resolved"
    (mkFinding (str_field i "rule_id") (str_field i "fingerprint") (str_field i "title")
       (str_field i "summary") (str_field i "severity") (str_field i "link") ∅)
    (str_field i "fired_at").

(** The texts JSON and times are written as are not empty. *)
Class TextLaws `{Json} := { marshal_not_empty : forall m s, marshal m = Ok s -> s <> "" }.

Section machine.
Context `{NumText} `{JsonLaws} `{TimeText} `{JsonNested} `{!TextLaws} (cfg : AlertConfig).

(** A tick, with the finding of the fingerprint if there is one. *)
Definition watch_step (now : Z) (f : option Finding) (x : watch) : watch * list transition :=
  match f, incident x with
  | Some f, Some i => (mkWatch (breaches x + 1) 0 (Some (<["summary" := JStr (fi_Summary f)]> i)), [])
  | Some f, None =>
      if breaches x + 1 <? at_least_one (a_ForTicks cfg) then (mkWatch (breaches x + 1) 0 None, [])
      else (mkWatch (breaches x + 1) 0 (Some (incident_of f now)), [fired f (rfc3339_format now)])
  | None, Some i =>
      if healthies x + 1 <? at_least_one (a_ResolveTicks cfg) then (mkWatch 0 (healthies x + 1) (Some i), [])
      else (mkWatch 0 0 None, [resolved i])
  | None, None => (x, [])
  end.

(** ** The store *)

Definition counter (h : gmap string string) (fp : string) (z : Z) : Prop :=
  h !! fp = Some (itoa z) \/ h !! fp = None /\ z = 0.

(** The three hashes of the alerts, against what is known of every fingerprint. *)
Record tracks (s : redis) (σ : string -> watch) : Prop := {
  tk_breach : exists h, get_hash s breachKey = Some h /\ forall fp, counter h fp (breaches (σ fp));
  tk_healthy : exists h, get_hash s healthyKey = Some h /\ forall fp, counter h fp (healthies (σ fp));
  tk_open : exists h, get_hash s openKey = Some h /\ forall fp, h !! fp = text_of <$> incident (σ fp);
  tk_print : forall fp i, incident (σ fp) = Some i -> str_field i "fingerprint" = fp
}.

Definition in_range (x : watch) : Prop := 0 <= breaches x < maxInt64 /\ 0 <= healthies x < maxInt64.

Lemma marshal_text (i : object) : marshal i = Ok (text_of i).
Proof. unfold text_of. by destruct (marshal_ok i) as [t ->]. Qed.

Lemma counter_insert (h : gmap string string) (fp q : string) (z : Z) (σ : string -> watch) (g : watch -> Z) (x : watch) :
  g x = z -> (forall p, counter h p (g (σ p))) -> counter (<[fp := itoa z]> h) q (g ((<[fp := x]> σ) q)).
Proof.
  intros <- Hh. destruct (decide (q = fp)) as [->|Hne].
  - left. by rewrite lookup_insert_eq, fn_lookup_insert.
  - unfold counter. rewrite lookup_insert_ne, fn_lookup_insert_ne by done. apply Hh.
Qed.


Lemma Atoi_itoa (z : Z) : 0 <= z <= maxInt64 -> Atoi (itoa z) = Some z.
Proof. intros Hz. unfold Atoi. rewrite parseInt_itoa by (unfold maxInt64 in *; lia). done. Qed.

Definition set_breaches (z : Z) (x : watch) : watch := mkWatch z (healthies x) (incident x).
Definition set_healthies (z : Z) (x : watch) : watch := mkWatch (breaches x) z (incident x).
Definition set_incident (i : option object) (x : watch) : watch := mkWatch (breaches x) (healthies x) i.

Lemma counter_other (h : gmap string string) (fp q : string) (σ : string -> watch) (g : watch -> Z) (x : watch) :
  g x = g (σ fp) -> (forall p, counter h p (g (σ p))) -> counter h q (g ((<[fp := x]> σ) q)).
Proof.
  intros E Hh. destruct (decide (q = fp)) as [->|Hne].
  - rewrite fn_lookup_insert, E. apply Hh.
  - rewrite fn_lookup_insert_ne by done. apply Hh.
Qed.

Lemma print_other (fp q : string) (σ : string -> watch) (x : watch) (i : object) :
  (forall i, incident x = Some i -> str_field i "fingerprint" = fp) ->
  (forall fp i, incident (σ fp) = Some i -> str_field i "fingerprint" = fp) ->
  incident ((<[fp := x]> σ) q) = Some i -> str_field i "fingerprint" = q.
Proof.
  intros Hx Hσ. destruct (decide (q = fp)) as [->|Hne].
  - rewrite fn_lookup_insert. apply Hx.
  - rewrite fn_lookup_insert_ne by done. apply Hσ.
Qed.

Lemma open_other (h : gmap string string) (fp q : string) (σ : string -> watch) (x : watch) :
  incident x = incident (σ fp) -> (forall p, h !! p = text_of <$> incident (σ p)) ->
  h !! q = text_of <$> incident ((<[fp := x]> σ) q).
Proof.
  intros E Hh. destruct (decide (q = fp)) as [->|Hne].
  - rewrite fn_lookup_insert, E. apply Hh.
  - rewrite fn_lookup_insert_ne by done. apply Hh.
Qed.

Lemma tracks_breach (s : redis) (σ : string -> watch) (fp : string) (z : Z) (h : gmap string string) :
  tracks s σ -> get_hash s breachKey = Some h ->
  tracks (put_hash breachKey (<[fp := itoa z]> h) s) (<[fp := set_breaches z (σ fp)]> σ).
Proof.
  intros [(hb & Eb & Hb) (hh & Eh & Hh) (ho & Eo & Ho) Hp] E. rewrite E in Eb. injection Eb as <-.
  split; reads.
  - eexists; split; [done|]. intros q. by apply counter_insert.
  - exists hh; split; [done|]. intros q. by apply counter_other.
  - exists ho; split; [done|]. intros q. by apply open_other.
  - intros q i. apply print_other; [apply Hp|done].
Qed.

Lemma tracks_healthy (s : redis) (σ : string -> watch) (fp : string) (z : Z) (h : gmap string string) :
  tracks s σ -> get_hash s healthyKey = Some h ->
  tracks (put_hash healthyKey (<[fp := itoa z]> h) s) (<[fp := set_healthies z (σ fp)]> σ).
Proof.
  intros [(hb & Eb & Hb) (hh & Eh & Hh) (ho & Eo & Ho) Hp] E. rewrite E in Eh. injection Eh as <-.
  split; reads.
  - exists hb; split; [done|]. intros q. by apply counter_other.
  - eexists; split; [done|]. intros q. by apply counter_insert.
  - exists ho; split; [done|]. intros q. by apply open_other.
  - intros q i. apply print_other; [apply Hp|done].
Qed.

Lemma tracks_open (s : redis) (σ : string -> watch) (fp : string) (o : option object) (h : gmap string string) :
  tracks s σ -> get_hash s openKey = Some h -> (forall i, o = Some i -> str_field i "fingerprint" = fp) ->
  tracks (put_hash openKey (partial_alter (fun _ => text_of <$> o) fp h) s) (<[fp := set_incident o (σ fp)]> σ).
Proof.
  intros [(hb & Eb & Hb) (hh & Eh & Hh) (ho & Eo & Ho) Hp] E Hi. rewrite E in Eo. injection Eo as <-.
  split; reads.
  - exists hb; split; [done|]. intros q. by apply counter_other.
  - exists hh; split; [done|]. intros q. by apply counter_other.
  - eexists; split; [done|]. intros q. destruct (decide (q = fp)) as [->|Hne].
    + by rewrite lookup_partial_alter_eq, fn_lookup_insert.
    + by rewrite lookup_partial_alter_ne, fn_lookup_insert_ne.
  - intros q i. apply print_other; [apply Hi|done].
Qed.

(** ** The operations of the state *)

(** Stores are compared with what is known of the fingerprints, one by one. *)
#[local] Instance tracks_proper : Proper ((=) ==> pointwise_relation string (=) ==> iff) tracks.
Proof.
  intros s ? <-. cut (forall σ σ', pointwise_relation string (=) σ σ' -> tracks s σ -> tracks s σ').
  { intros Hc σ σ' E. split; apply Hc; [done|]. intros p. by rewrite (E p). }
  intros σ σ' E [(hb & Eb & Hb) (hh & Eh & Hh) (ho & Eo & Ho) Hp]. split.
  - exists hb. split; [done|]. intros p. rewrite <- (E p). apply Hb.
  - exists hh. split; [done|]. intros p. rewrite <- (E p). apply Hh.
  - exists ho. split; [done|]. intros p. rewrite <- (E p). apply Ho.
  - intros p i. rewrite <- (E p). apply Hp.
Qed.

Lemma insert_twice (σ : string -> watch) (fp : string) (x y : watch) :
  pointwise_relation string (=) (<[fp := y]> (<[fp := x]> σ)) (<[fp := y]> σ).
Proof.
  intros p. destruct (decide (p = fp)) as [->|]; [by rewrite !fn_lookup_insert|by rewrite !fn_lookup_insert_ne].
Qed.

(** The store agrees with [σ] but for [fp], which is [x]. *)
Definition moved (σ : string -> watch) (fp : string) (x : watch) (s : redis) : Prop := tracks s (<[fp := x]> σ).

Lemma moved_start (σ : string -> watch) (fp : string) (s : redis) : tracks s σ -> moved σ fp (σ fp) s.
Proof.
  intros Ht. unfold moved. assert (pointwise_relation string (=) (<[fp := σ fp]> σ) σ) as ->; [|done].
  intros p. destruct (decide (p = fp)) as [->|]; [by rewrite fn_lookup_insert|by rewrite fn_lookup_insert_ne].
Qed.

Section one.
Context (σ : string -> watch) (fp : string).

Lemma moved_breach (x : watch) (s : redis) (z : Z) (h : gmap string string) :
  moved σ fp x s -> get_hash s breachKey = Some h ->
  moved σ fp (set_breaches z x) (put_hash breachKey (<[fp := itoa z]> h) s).
Proof.
  intros Ht E. pose proof (tracks_breach _ _ fp z h Ht E) as H'.
  by rewrite fn_lookup_insert, insert_twice in H'.
Qed.

Lemma moved_healthy (x : watch) (s : redis) (z : Z) (h : gmap string string) :
  moved σ fp x s -> get_hash s healthyKey = Some h ->
  moved σ fp (set_healthies z x) (put_hash healthyKey (<[fp := itoa z]> h) s).
Proof.
  intros Ht E. pose proof (tracks_healthy _ _ fp z h Ht E) as H'.
  by rewrite fn_lookup_insert, insert_twice in H'.
Qed.

Lemma moved_open (x : watch) (s : redis) (o : option object) (h : gmap string string) :
  moved σ fp x s -> get_hash s openKey = Some h -> (forall i, o = Some i -> str_field i "fingerprint" = fp) ->
  moved σ fp (set_incident o x) (put_hash openKey (partial_alter (fun _ => text_of <$> o) fp h) s).
Proof.
  intros Ht E Hi. pose proof (tracks_open _ _ fp o h Ht E Hi) as H'.
  by rewrite fn_lookup_insert, insert_twice in H'.
Qed.

(** What a store says of the fingerprint. *)
Lemma moved_reads (x : watch) (s : redis) :
  moved σ fp x s ->
  (exists h, get_hash s breachKey = Some h /\ counter h fp (breaches x))
  /\ (exists h, get_hash s healthyKey = Some h /\ counter h fp (healthies x))
  /\ (exists h, get_hash s openKey = Some h /\ h !! fp = text_of <$> incident x).
Proof.
  intros [(hb & Eb & Hb) (hh & Eh & Hh) (ho & Eo & Ho) _].
  specialize (Hb fp). specialize (Hh fp). specialize (Ho fp). rewrite fn_lookup_insert in *.
  split_and!; eauto.
Qed.

Lemma IncrBreach_yields (x : watch) (s : redis) : moved σ fp x s ->
  yields (IncrBreach fp) s (fun s' _ => moved σ fp (mkWatch (breaches x + 1) 0 (incident x)) s').
Proof.
  intros Hm. destruct (moved_reads x s Hm) as ((hb & Eb & Hb) & (hh & Eh & Hh) & _).
  unfold IncrBreach. do 2 trip. eapply wp_HINCRBY; [exact Eb|exact Hb|]. trip. trip. trip.
  apply (moved_healthy (set_breaches (breaches x + 1) x) _ 0); [|by reads]. by apply moved_breach.
Qed.

Lemma IncrHealthy_yields (x : watch) (s : redis) : moved σ fp x s ->
  yields (IncrHealthy fp) s (fun s' _ => moved σ fp (mkWatch 0 (healthies x + 1) (incident x)) s').
Proof.
  intros Hm. destruct (moved_reads x s Hm) as ((hb & Eb & Hb) & (hh & Eh & Hh) & _).
  unfold IncrHealthy. do 2 trip. eapply wp_HINCRBY; [exact Eh|exact Hh|]. trip. trip. trip.
  apply (moved_breach (set_healthies (healthies x + 1) x) _ 0); [|by reads]. by apply moved_healthy.
Qed.

Lemma ResetBreach_yields (x : watch) (s : redis) : moved σ fp x s ->
  yields (ResetBreach fp) s (fun s' _ => moved σ fp (set_breaches 0 x) s').
Proof.
  intros Hm. destruct (moved_reads x s Hm) as ((hb & Eb & Hb) & _).
  unfold ResetBreach. repeat trip. by apply (moved_breach x s 0).
Qed.

Lemma ResetHealthy_yields (x : watch) (s : redis) : moved σ fp x s ->
  yields (ResetHealthy fp) s (fun s' _ => moved σ fp (set_healthies 0 x) s').
Proof.
  intros Hm. destruct (moved_reads x s Hm) as (_ & (hh & Eh & Hh) & _).
  unfold ResetHealthy. repeat trip. by apply (moved_healthy x s 0).
Qed.

Lemma counted (h : gmap string string) (z : Z) : counter h fp z -> 0 <= z <= maxInt64 ->
  int_or_zero (Ok (h !! fp)) = z.
Proof.
  intros [->|[-> ->]] Hz; unfold int_or_zero; cbn; [|done]. by rewrite Atoi_itoa.
Qed.

Lemma BreachCount_yields (x : watch) (s : redis) : moved σ fp x s -> 0 <= breaches x <= maxInt64 ->
  yields (BreachCount fp) s (fun s' n => s' = s /\ n = breaches x).
Proof.
  intros Hm Hz. destruct (moved_reads x s Hm) as ((hb & Eb & Hb) & _).
  unfold BreachCount. repeat trip. split; [done|]. by apply counted.
Qed.

Lemma HealthyCount_yields (x : watch) (s : redis) : moved σ fp x s -> 0 <= healthies x <= maxInt64 ->
  yields (HealthyCount fp) s (fun s' n => s' = s /\ n = healthies x).
Proof.
  intros Hm Hz. destruct (moved_reads x s Hm) as (_ & (hh & Eh & Hh) & _).
  unfold HealthyCount. repeat trip. split; [done|]. by apply counted.
Qed.

Lemma GetOpen_yields (x : watch) (s : redis) : moved σ fp x s ->
  yields (GetOpen fp) s (fun s' o => s' = s /\ o = incident x).
Proof.
  intros Hm. destruct (moved_reads x s Hm) as (_ & _ & ho & Eo & Ho).
  unfold GetOpen. repeat trip. split; [done|]. rewrite Ho. destruct (incident x) as [i|]; [|done]. cbn.
  pose proof (marshal_text i) as Ei. rewrite (proj2 (String.eqb_neq _ _) (marshal_not_empty _ _ Ei)).
  by rewrite (unmarshal_of_marshal i (text_of i) Ei).
Qed.

Lemma TouchOpen_yields (x : watch) (s : redis) (i : object) (summary : string) :
  moved σ fp x s -> incident x = Some i -> str_field i "fingerprint" = fp ->
  yields (TouchOpen fp summary) s (fun s' _ => moved σ fp (set_incident (Some (<["summary" := JStr summary]> i)) x) s').
Proof.
  intros Hm Ei Hi. destruct (moved_reads x s Hm) as (_ & _ & ho & Eo & Ho).
  unfold TouchOpen. trip. eapply yields_mono; [by apply GetOpen_yields|]. cbv beta. intros s' o [-> ->].
  rewrite Ei. unfold SetOpen. repeat trip. apply (moved_open x s (Some _)); [done..|].
  intros j [= <-]. unfold str_field. by rewrite lookup_insert_ne.
Qed.

Lemma ClaimOpen_yields (x : watch) (s : redis) (i : object) :
  moved σ fp x s -> incident x = None -> str_field i "fingerprint" = fp ->
  yields (ClaimOpen fp i) s (fun s' b => b = true /\ moved σ fp (set_incident (Some i) x) s').
Proof.
  intros Hm Ex Hi. destruct (moved_reads x s Hm) as (_ & _ & ho & Eo & Ho). rewrite Ex in Ho.
  unfold ClaimOpen. do 2 trip. eapply wp_HSETNX; [exact Eo|by rewrite Ho|]. intros _. repeat trip.
  split; [done|]. apply (moved_open x s (Some i)); [done..|]. by intros j [= <-].
Qed.

Lemma ClearOpen_yields (x : watch) (s : redis) (i : object) :
  moved σ fp x s -> incident x = Some i ->
  yields (ClearOpen fp) s (fun s' b => b = true /\ moved σ fp (set_incident None x) s').
Proof.
  intros Hm Ex. destruct (moved_reads x s Hm) as (_ & _ & ho & Eo & Ho). rewrite Ex in Ho.
  unfold ClearOpen, HDEL_removed. repeat trip. rewrite Ho. split; [done|].
  by apply (moved_open x s None).
Qed.
End one.

(** ** A tick *)

(** [yields] for an operation that is known, then what follows. *)
Tactic Notation "op" uconstr(H) := trip; eapply yields_mono; [eapply H|cbv beta].

Lemma breach_tick_yields (σ : string -> watch) (now : Z) (f : Finding) (s : redis) :
  let fp := fi_Fingerprint f in
  tracks s σ -> in_range (σ fp) ->
  yields (breach_tick cfg now fp f) s (fun s' ts =>
    ts = (watch_step now (Some f) (σ fp)).2 /\ tracks s' (<[fp := (watch_step now (Some f) (σ fp)).1]> σ)).
Proof.
  intros fp Ht [Hb Hh]. pose proof (tk_print _ _ Ht fp) as Hi.
  pose proof (moved_start σ fp s Ht) as Hm. destruct (σ fp) as [b h o]; cbn in *.
  unfold breach_tick. op IncrBreach_yields; [done|]. intros s1 _ K1; cbn in K1.
  op ResetHealthy_yields; [done|]. intros s2 _ K2. cbn in K2.
  op BreachCount_yields; [done|cbn; lia|]. intros ? ? [-> ->].
  op GetOpen_yields; [done|]. intros ? ? [-> ->]. cbn.
  destruct o as [i|].
  - op TouchOpen_yields; [done..|by apply Hi|]. intros s3 _ K3. by trip.
  - destruct (_ <? _); [by trip|].
    op ClaimOpen_yields; [done|done|by unfold str_field; simplify_map_eq|]. intros s3 _ [-> K3]. by trip.
Qed.

Lemma healthy_tick_yields (σ : string -> watch) (now : Z) (i : object) (s : redis) :
  let fp := str_field i "fingerprint" in
  tracks s σ -> in_range (σ fp) -> incident (σ fp) = Some i ->
  yields (healthy_tick cfg i) s (fun s' ts =>
    ts = (watch_step now None (σ fp)).2 /\ tracks s' (<[fp := (watch_step now None (σ fp)).1]> σ)).
Proof.
  intros fp Ht [Hb Hh] Ei. pose proof (moved_start σ fp s Ht) as Hm. destruct (σ fp) as [b h o]; cbn in *. subst o.
  unfold healthy_tick; fold fp. op IncrHealthy_yields; [done|]. intros s1 _ K1; cbn in K1.
  op ResetBreach_yields; [done|]. intros s2 _ K2. cbn in K2.
  op HealthyCount_yields; [done|cbn; lia|]. intros ? ? [-> ->]. cbn.
  destruct (_ <? _); [by trip|].
  op ClearOpen_yields; [done..|]. intros s3 _ [-> K3]. cbn.
  op ResetHealthy_yields; [done|]. intros s4 _ K4. by trip.
Qed.

(** The transitions of some visits. *)
Definition steps_of (now : Z) (σ : string -> watch) (l : list (string * option Finding)) : list transition :=
  mjoin ((fun e => (watch_step now e.2 (σ e.1)).2) <$> l).

(** What a pass over some fingerprints does: those in [l] move, the others stay,
    and the transitions are theirs. *)
Definition passed (now : Z) (l : list (string * option Finding)) (σ σ' : string -> watch) (ts : list transition) : Prop :=
  (forall fp f, (fp, f) ∈ l -> σ' fp = (watch_step now f (σ fp)).1)
  /\ (forall fp, fp ∉ l.*1 -> σ' fp = σ fp)
  /\ ts = steps_of now σ l.

Lemma passed_cons (now : Z) (fp : string) (f : option Finding) (l : list (string * option Finding))
    (σ σ' : string -> watch) (ts : list transition) :
  fp ∉ l.*1 -> passed now l (<[fp := (watch_step now f (σ fp)).1]> σ) σ' ts ->
  passed now ((fp, f) :: l) σ σ' ((watch_step now f (σ fp)).2 ++ ts).
Proof.
  intros Hfp (K1 & K2 & ->). split_and!.
  - intros q g [[= -> ->]|Hin]%elem_of_cons.
    + rewrite K2 by done. by rewrite fn_lookup_insert.
    + rewrite (K1 q g Hin), fn_lookup_insert_ne; [done|]. intros <-. apply Hfp. by apply (list_elem_of_fmap_2 fst) in Hin.
  - intros q Hq. cbn in Hq. apply not_elem_of_cons in Hq as [Hne Hq]. by rewrite K2, fn_lookup_insert_ne.
  - unfold steps_of. cbn. f_equal. f_equal. apply list_fmap_ext. intros n [q g] Hn. cbn. rewrite fn_lookup_insert_ne; [done|].
    intros <-. apply Hfp. apply list_elem_of_lookup_2 in Hn. by apply (list_elem_of_fmap_2 fst) in Hn.
Qed.

(** The fingerprints of a list of visits are visited once, within range. *)
Definition visitable (l : list string) (σ : string -> watch) : Prop :=
  NoDup l /\ forall fp, fp ∈ l -> in_range (σ fp).

Lemma visitable_cons (fp : string) (l : list string) (σ : string -> watch) (x : watch) :
  visitable (fp :: l) σ -> fp ∉ l /\ in_range (σ fp) /\ visitable l (<[fp := x]> σ).
Proof.
  intros [[Hnin Hnd]%NoDup_cons Hr]. split_and!; [done|apply Hr; left|]. split; [done|].
  intros q Hq. rewrite fn_lookup_insert_ne by (by intros ->). apply Hr. by right.
Qed.

Lemma passed_nil (now : Z) (σ : string -> watch) : passed now [] σ σ [].
Proof. split_and!; [by intros ?? ?%elem_of_nil|done|done]. Qed.

Lemma fst_some (l : list (string * Finding)) : (prod_map id Some <$> l).*1 = l.*1.
Proof. rewrite <- list_fmap_compose. by apply list_fmap_ext. Qed.

Lemma breach_ticks_yields (now : Z) (l : list (string * Finding)) : forall (σ : string -> watch) (s : redis),
  visitable l.*1 σ -> (forall fp f, (fp, f) ∈ l -> fi_Fingerprint f = fp) -> tracks s σ ->
  yields (breach_ticks cfg now l) s (fun s' ts =>
    exists σ', tracks s' σ' /\ passed now (prod_map id Some <$> l) σ σ' ts).
Proof.
  induction l as [|[fp f] l IH]; intros σ s Hv Hf Ht; cbn [breach_ticks].
  { trip. exists σ. split; [done|apply passed_nil]. }
  pose proof (Hf fp f ltac:(left)) as <-. cbn in Hv.
  apply (visitable_cons _ _ _ (watch_step now (Some f) (σ (fi_Fingerprint f))).1) in Hv as (Hnin & Hr & Hv).
  op breach_tick_yields; [done..|]. intros s1 t [-> Ht1].
  op IH; [done| |done|]. { intros q g Hq. apply Hf. by right. }
  intros s2 ts (σ' & Ht2 & Hp). trip. exists σ'. split; [done|]. apply passed_cons; [|done].
  change (fi_Fingerprint f ∉ (prod_map id Some <$> l).*1). by rewrite fst_some.
Qed.

(** The open incidents that are not among the findings. *)
Definition quiet_incidents (active : gmap string Finding) (l : list object) : list (string * option Finding) :=
  (fun i => (str_field i "fingerprint", None)) <$> filter (fun i => active !! str_field i "fingerprint" = None) l.

Lemma healthy_ticks_yields (now : Z) (active : gmap string Finding) (l : list object) : forall (σ : string -> watch) (s : redis),
  visitable (quiet_incidents active l).*1 σ -> NoDup ((fun i => str_field i "fingerprint") <$> l) ->
  (forall i, i ∈ l -> incident (σ (str_field i "fingerprint")) = Some i) -> tracks s σ ->
  yields (healthy_ticks cfg active l) s (fun s' ts =>
    exists σ', tracks s' σ' /\ passed now (quiet_incidents active l) σ σ' ts).
Proof.
  induction l as [|i l IH]; intros σ s Hv Hd Hi Ht; cbn [healthy_ticks].
  { trip. exists σ. split; [done|apply passed_nil]. }
  cbn in Hd. apply NoDup_cons in Hd as [Hnin Hd].
  destruct (active !! str_field i "fingerprint") as [g|] eqn:Ea.
  - rewrite bool_decide_eq_true_2 by eauto. unfold quiet_incidents in *. rewrite filter_cons_False in * by (by rewrite Ea).
    apply IH; [done..| |done]. intros j Hj. apply Hi. by right.
  - rewrite bool_decide_eq_false_2 by (by intros []). unfold quiet_incidents in *. rewrite filter_cons_True in * by done.
    cbn in Hv. apply (visitable_cons _ _ _ (watch_step now None (σ (str_field i "fingerprint"))).1) in Hv as (Hn & Hr & Hv).
    op (healthy_tick_yields σ now); [done..|apply Hi; left|]. intros s1 t [-> Ht1].
    op IH; [done|done| |done|].
    { intros j Hj. rewrite fn_lookup_insert_ne; [apply Hi; by right|]. intros E. apply Hnin. rewrite E.
      by apply (list_elem_of_fmap_2 (fun i => str_field i "fingerprint")). }
    intros s2 ts (σ' & Ht2 & Hp). trip. exists σ'. split; [done|]. by apply passed_cons.
Qed.

Lemma decoded_prints (l : list (string * string)) :
  (forall p t, (p, t) ∈ l -> exists i, t = text_of i /\ str_field i "fingerprint" = p) ->
  let objs := omap (fun e => match unmarshal e.2 with Ok m => Some (fields m) | Bad _ => None end) l in
  (fun i => str_field i "fingerprint") <$> objs = l.*1
  /\ forall i, i ∈ objs <-> (str_field i "fingerprint", text_of i) ∈ l.
Proof.
  induction l as [|[p t] l IH]; intros Hl objs.
  { split; [done|]. intros i. split; by intros ?%elem_of_nil. }
  destruct (Hl p t ltac:(left)) as (i & -> & <-). destruct IH as [IH1 IH2]; [intros; apply Hl; by right|].
  subst objs. cbn. rewrite (unmarshal_of_marshal i _ (marshal_text i)). cbn. split; [by rewrite <- IH1|].
  intros j. rewrite !elem_of_cons, IH2. split; [intros [->|?]; auto|]. intros [[= Ej Et]|?]; [left|auto].
  pose proof (unmarshal_of_marshal j _ (marshal_text j)) as Uj. rewrite Et in Uj.
  rewrite (unmarshal_of_marshal i _ (marshal_text i)) in Uj. by injection Uj.
Qed.

Lemma OpenAlerts_yields (σ : string -> watch) (s : redis) : tracks s σ ->
  yields OpenAlerts s (fun s' l => s' = s /\ NoDup ((fun i => str_field i "fingerprint") <$> l)
    /\ forall i, i ∈ l <-> incident (σ (str_field i "fingerprint")) = Some i).
Proof.
  intros Ht. destruct (tk_open _ _ Ht) as (ho & Eo & Ho). unfold OpenAlerts, HGETALL. do 2 trip.
  eapply wp_lift; [exact Eo|]. repeat trip. split; [done|]. unfold decoded. cbn.
  destruct (decoded_prints (map_to_list ho)) as [D1 D2].
  { intros p t Hpt%elem_of_map_to_list. rewrite Ho in Hpt. destruct (incident (σ p)) as [i|] eqn:Ei; [|done].
    injection Hpt as <-. exists i. split; [done|by apply (tk_print _ _ Ht)]. }
  split; [rewrite D1; apply NoDup_fst_map_to_list|]. intros i. rewrite D2, elem_of_map_to_list, Ho.
  destruct (incident (σ (str_field i "fingerprint"))) as [j|] eqn:Ej; cbn; [|done]. split; [|by intros [= ->]].
  intros [= Et]. f_equal. pose proof (unmarshal_of_marshal j _ (marshal_text j)) as Uj. rewrite Et in Uj.
  rewrite (unmarshal_of_marshal i _ (marshal_text i)) in Uj. by injection Uj.
Qed.

(** The transitions of a fingerprint. *)
Definition of_print (fp : string) (ts : list transition) : list transition :=
  filter (fun t => fi_Fingerprint (tr_finding t) = fp) ts.

Lemma of_print_app (fp : string) (ts ts' : list transition) : of_print fp (ts ++ ts') = of_print fp ts ++ of_print fp ts'.
Proof. apply filter_app. Qed.

(** The findings and the incident of a fingerprint carry it. *)
Definition carries (fp : string) (f : option Finding) (x : watch) : Prop :=
  (forall g, f = Some g -> fi_Fingerprint g = fp) /\ (forall i, incident x = Some i -> str_field i "fingerprint" = fp).

Lemma step_prints (now : Z) (fp : string) (f : option Finding) (x : watch) :
  carries fp f x -> Forall (fun t => fi_Fingerprint (tr_finding t) = fp) (watch_step now f x).2.
Proof.
  intros [Hf Hi]. unfold watch_step. destruct f as [g|], (incident x) as [i|]; try done;
    destruct (_ <? _); try done; apply Forall_singleton; cbn; auto.
Qed.

Lemma of_print_steps (now : Z) (σ : string -> watch) (fp : string) (l : list (string * option Finding)) :
  NoDup l.*1 -> (forall p f, (p, f) ∈ l -> carries p f (σ p)) ->
  (forall f, (fp, f) ∈ l -> of_print fp (steps_of now σ l) = (watch_step now f (σ fp)).2)
  /\ (fp ∉ l.*1 -> of_print fp (steps_of now σ l) = []).
Proof.
  induction l as [|[p g] l IH]; intros Hnd Hc.
  { split; [by intros ? ?%elem_of_nil|done]. }
  cbn in Hnd. apply NoDup_cons in Hnd as [Hnin Hnd]. destruct IH as [IH1 IH2]; [done|intros; apply Hc; by right|].
  pose proof (step_prints now p g (σ p) (Hc p g ltac:(left))) as Hs.
  change (steps_of now σ ((p, g) :: l)) with ((watch_step now g (σ p)).2 ++ steps_of now σ l). rewrite !of_print_app.
  assert (p <> fp -> of_print fp (watch_step now g (σ p)).2 = []) as Hno.
  { intros Hne. clear - Hs Hne. induction Hs as [|t ts Ht _ IH]; [done|]. unfold of_print.
    by rewrite filter_cons_False by (by rewrite Ht). }
  split.
  - intros f [[= -> ->]|Hin]%elem_of_cons.
    + rewrite IH2, app_nil_r by done. clear - Hs. induction Hs as [|t ts Ht _ IH']; [done|]. unfold of_print.
      rewrite filter_cons_True by done. by f_equal.
    + rewrite Hno; [by apply IH1|]. intros ->. apply Hnin. by apply (list_elem_of_fmap_2 fst) in Hin.
  - intros [Hne Hn]%not_elem_of_cons. rewrite Hno, IH2; done.
Qed.

Lemma active_of_prints (findings : list Finding) (fp : string) (f : Finding) :
  active_of findings !! fp = Some f -> fi_Fingerprint f = fp.
Proof.
  unfold active_of. assert (forall m : gmap string Finding, (forall p g, m !! p = Some g -> fi_Fingerprint g = p) ->
    forall p g, foldl (fun m f => <[fi_Fingerprint f := f]> m) m findings !! p = Some g -> fi_Fingerprint g = p) as Hm.
  { induction findings as [|f' l IH]; intros m Hm p g; cbn; [apply Hm|]. apply IH. intros q h.
    rewrite lookup_insert_Some. intros [[<- <-]|[_ ?]]; [done|by apply Hm]. }
  apply Hm. intros p g. by rewrite lookup_empty.
Qed.

(** Every fingerprint made its step, and the transitions are theirs. *)
Definition ticked (now : Z) (active : gmap string Finding) (σ σ' : string -> watch) (ts : list transition) : Prop :=
  forall fp, σ' fp = (watch_step now (active !! fp) (σ fp)).1 /\ of_print fp ts = (watch_step now (active !! fp) (σ fp)).2.

Lemma step_idle (now : Z) (x : watch) : incident x = None -> watch_step now None x = (x, []).
Proof. intros E. unfold watch_step. by rewrite E. Qed.

Lemma elem_of_quiet (active : gmap string Finding) (l : list object) (fp : string) (f : option Finding) :
  (fp, f) ∈ quiet_incidents active l <->
  f = None /\ active !! fp = None /\ exists i, i ∈ l /\ str_field i "fingerprint" = fp.
Proof.
  unfold quiet_incidents. rewrite list_elem_of_fmap. split.
  - intros (i & [= -> ->] & [Ha Hi]%list_elem_of_filter). eauto.
  - intros (-> & Ha & i & Hi & <-). exists i. split; [done|]. by apply list_elem_of_filter.
Qed.

Lemma passes_ticked (now : Z) (active : gmap string Finding) (l : list object) (σ σ1 σ2 : string -> watch)
    (ts1 ts2 : list transition) :
  (forall fp f, active !! fp = Some f -> fi_Fingerprint f = fp) ->
  (forall fp i, incident (σ fp) = Some i -> str_field i "fingerprint" = fp) ->
  (forall fp i, incident (σ1 fp) = Some i -> str_field i "fingerprint" = fp) ->
  NoDup ((fun i => str_field i "fingerprint") <$> l) ->
  (forall i, i ∈ l <-> incident (σ1 (str_field i "fingerprint")) = Some i) ->
  passed now (prod_map id Some <$> map_to_list active) σ σ1 ts1 ->
  passed now (quiet_incidents active l) σ1 σ2 ts2 ->
  ticked now active σ σ2 (ts1 ++ ts2).
Proof.
  intros Ha Hp Hp1 Hnd Hl (A1 & A2 & ->) (B1 & B2 & ->) fp. rewrite of_print_app.
  set (l1 := prod_map id Some <$> map_to_list active) in *.
  assert (forall p f, (p, f) ∈ l1 <-> exists g, f = Some g /\ active !! p = Some g) as Hin1.
  { intros p f. unfold l1. rewrite list_elem_of_fmap. split.
    - intros ([q g] & [= -> ->] & Hq%elem_of_map_to_list). eauto.
    - intros (g & -> & Hg%elem_of_map_to_list). by exists (p, g). }
  assert (NoDup l1.*1) as Hd1 by (unfold l1; rewrite fst_some; apply NoDup_fst_map_to_list).
  assert (NoDup (quiet_incidents active l).*1) as Hd2.
  { unfold quiet_incidents. rewrite <- list_fmap_compose. eapply sublist_NoDup; [exact Hnd|].
    apply fmap_sublist, sublist_filter. }
  destruct (of_print_steps now σ fp l1 Hd1) as [P1 P2].
  { intros p f (g & -> & Hg)%Hin1. split; [intros ? [= <-]; by apply Ha|apply Hp]. }
  destruct (of_print_steps now σ1 fp (quiet_incidents active l) Hd2) as [Q1 Q2].
  { intros p f (-> & _)%elem_of_quiet. split; [done|apply Hp1]. }
  assert (forall L : list (string * option Finding), (forall f, (fp, f) ∉ L) -> fp ∉ L.*1) as Hno.
  { intros L HL [[q f] [-> Hq]]%list_elem_of_fmap. by apply (HL f). }
  destruct (active !! fp) as [f|] eqn:Ef.
  - assert ((fp, Some f) ∈ l1) as Hin by (apply Hin1; eauto).
    assert (fp ∉ (quiet_incidents active l).*1) as Hn.
    { apply Hno. intros g (_ & Hg & _)%elem_of_quiet. by rewrite Ef in Hg. }
    by rewrite B2, Q2, (A1 _ _ Hin), (P1 _ Hin), app_nil_r.
  - assert (fp ∉ l1.*1) as Hn by (apply Hno; intros g (h & _ & Hh)%Hin1; by rewrite Ef in Hh).
    rewrite P2, <- (A2 fp) by done. destruct (incident (σ1 fp)) as [i|] eqn:Ei.
    + assert ((fp, None) ∈ quiet_incidents active l) as Hin.
      { apply elem_of_quiet. split_and!; [done..|]. exists i. rewrite Hl, (Hp1 _ _ Ei). done. }
      by rewrite (B1 _ _ Hin), (Q1 _ Hin).
    + rewrite step_idle by done. assert (fp ∉ (quiet_incidents active l).*1) as Hn2.
      { apply Hno. intros g (_ & _ & j & Hj & <-)%elem_of_quiet. apply Hl in Hj. by rewrite Ei in Hj. }
      by rewrite B2, Q2.
Qed.

Lemma applyHysteresis_yields (σ : string -> watch) (s : redis) (now : Z) (findings : list Finding) :
  tracks s σ -> (forall fp, in_range (σ fp)) ->
  yields (applyHysteresis cfg now findings) s (fun s' ts =>
    exists σ', tracks s' σ' /\ ticked now (active_of findings) σ σ' ts).
Proof.
  intros Ht Hr. pose proof (active_of_prints findings) as Ha. unfold applyHysteresis.
  set (active := active_of findings) in *.
  op breach_ticks_yields; [split; [apply NoDup_fst_map_to_list|auto]| |done|].
  { intros fp f Hf%elem_of_map_to_list. by apply Ha. }
  intros s1 ts1 (σ1 & Ht1 & Hp1). op OpenAlerts_yields; [done|]. intros ? l (-> & Hnd & Hl).
  op (healthy_ticks_yields now); [|done|by intros i ?%Hl|done|].
  { split.
    - unfold quiet_incidents. rewrite <- list_fmap_compose. eapply sublist_NoDup; [exact Hnd|].
      apply fmap_sublist, sublist_filter.
    - intros fp ([q f] & -> & Hq)%list_elem_of_fmap. apply elem_of_quiet in Hq as (_ & Hf & _).
      destruct Hp1 as (_ & Hs & _). rewrite Hs; [done|]. rewrite fst_some. intros ([p g] & Ep & Hg%elem_of_map_to_list)%list_elem_of_fmap.
      cbn in Ep. subst q. by rewrite Hg in Hf. }
  intros s2 ts2 (σ2 & Ht2 & Hp2). trip. exists σ2. split; [done|].
  eapply passes_ticked; [exact Ha|exact (tk_print _ _ Ht)|exact (tk_print _ _ Ht1)|exact Hnd|exact Hl|done|done].
Qed.

(** ** The rest of a tick leaves the incidents alone *)

Definition outside (k : string) : Prop := k <> breachKey /\ k <> healthyKey /\ k <> openKey.

Lemma tracks_same (s s' : redis) (σ : string -> watch) :
  (forall k, ~ outside k -> kdb s' !! k = kdb s !! k) -> tracks s σ -> tracks s' σ.
Proof.
  intros E [Hb Hh Ho Hp].
  assert (forall k, k = breachKey \/ k = healthyKey \/ k = openKey -> get_hash s' k = get_hash s k) as Eh.
  { intros k Hk. apply same_get_hash, E. unfold outside. naive_solver. }
  split; rewrite ?Eh; auto.
Qed.

Ltac tame_step :=
  lazymatch goal with
  | |- tame _ (mbind _ _) => apply tame_bind; [|intros ?]
  | |- tame _ (mret _) => apply tame_ret
  | |- tame _ (do (command _)) => apply tame_command
  | |- tame _ (if ?b then _ else _) => destruct b
  | |- tame _ (let '(_, _) := ?x in _) => destruct x
  | |- frames _ (SET_NX_EX _ _ _) => apply frames_SET_NX_EX
  | |- frames _ (SET_EX _ _ _) => apply frames_SET_EX
  | |- frames _ (SCAN _) => apply frames_SCAN
  | |- frames _ (ZREMRANGEBYSCORE _ _) => apply frames_ZREMRANGEBYSCORE
  | |- frames _ _ => apply frames_read
  | |- outside _ => split_and!; discriminate
  end.
Ltac tames := repeat tame_step.

Lemma TryLock_tame (ttl : Z) : tame outside (TryLock ttl).
Proof. unfold TryLock. tames. Qed.

Lemma WindowCounts_tame (tenant : string) (window at_ : Z) : tame outside (TenantGuard.WindowCounts tenant window at_).
Proof.
  unfold TenantGuard.WindowCounts. tames.
  apply tame_pipeline. intros b. apply frames_read.
Qed.

Lemma tenant_rows_tame (now : Z) (l : list string) : tame outside (tenant_rows cfg now l).
Proof.
  induction l as [|t l IH]; cbn [tenant_rows]; [tames|]. unfold TenantGuard.ErrorRate.
  tames; try apply WindowCounts_tame; done.
Qed.

Lemma collectSample_tame (lags : string -> group_lag) (now : Z) : tame outside (collectSample cfg lags now).
Proof.
  unfold collectSample, LoadBaseline, pausedKeys, rttSummary, zcard, DLTCountLastMinute, CronStaleEntries,
    liveConsumerCount, tenantErrorRates, TenantGuard.ActiveTenants.
  tames; apply tenant_rows_tame.
Qed.

Lemma notifyTransitions_tame (now : Z) (ts : list transition) : tame outside (notifyTransitions cfg now ts).
Proof. induction ts as [|t ts IH]; cbn [notifyTransitions]; unfold ClaimNotify; tames; done. Qed.

Lemma persistBaseline_tame (sample : Sample) : tame outside (persistBaseline sample).
Proof. unfold persistBaseline, SaveBaseline. tames. Qed.

Lemma OpenAlerts_tame : tame outside OpenAlerts.
Proof. unfold OpenAlerts. tames. Qed.

Lemma SaveLast_tame (o : object) : tame outside (SaveLast o).
Proof.
  unfold SaveLast. tames. unfold SET. apply frames_modify. intros s k Hk. cbn. rewrite lookup_insert_ne.
  { by apply lookup_delete_ne; intros <-; apply Hk; tame_step. }
  intros <-. apply Hk. tame_step.
Qed.

(** An operation that leaves the incidents alone, then what follows. *)
Lemma tame_yields {A} (m : io A) (s : redis) (σ : string -> watch) :
  tame outside m -> tracks s σ -> yields m s (fun s' _ => tracks s' σ).
Proof.
  intros Hm Ht w Hq <-. destruct (Hm w Hq) as [Hq' Hk]. split; [done|]. by eapply tracks_same.
Qed.

(** What the rules find in the sample of a tick. *)
Definition found (lags : string -> group_lag) (now : Z) (w : world) : list Finding :=
  let w1 := (TryLock (if a_Interval cfg <? 30 then 30 else a_Interval cfg) w).1 in
  runRules cfg now (collectSample cfg lags now w1).2.

Lemma EvaluateOnce_ticks (lags : string -> group_lag) (now : Z) (σ : string -> watch) (w w' : world)
    (ts : list transition) (sent : list channel) :
  tracks (w_db w) σ -> (forall fp, in_range (σ fp)) -> quiet w ->
  EvaluateOnce cfg lags now w = (w', Evaluated ts sent) ->
  quiet w' /\ exists σ', tracks (w_db w') σ' /\ ticked now (active_of (found lags now w)) σ σ' ts.
Proof.
  intros Ht Hr Hq E. unfold EvaluateOnce in E. destruct (a_Enabled cfg); [|discriminate E]. cbn [negb] in E.
  unfold found. set (ttl := if _ <? _ then _ else _) in *. unfold mbind in E at 1; unfold io_bind in E at 1.
  destruct (tame_yields _ _ σ (TryLock_tame ttl) Ht w Hq eq_refl) as [Hq1 Ht1]. destruct (TryLock ttl w) as [w1 [|]]; [|discriminate E].
  cbn in Ht1, Hq1 |- *. cbn [negb] in E. unfold mbind in E at 1; unfold io_bind in E at 1.
  destruct (tame_yields _ _ σ (collectSample_tame lags now) Ht1 w1 Hq1 eq_refl) as [Hq2 Ht2].
  destruct (collectSample cfg lags now w1) as [w2 sample]. cbn in Hq2, Ht2 |- *.
  revert E. set (m := mbind _ _). intros E.
  assert (yields m (w_db w2) (fun s' r => exists ts' sent' σ', r = Evaluated ts' sent' /\ tracks s' σ'
     /\ ticked now (active_of (runRules cfg now sample)) σ σ' ts')) as Hy.
  { subst m. op applyHysteresis_yields; [done..|]. intros s3 ts3 (σ' & Ht3 & Hk).
    op tame_yields; [apply notifyTransitions_tame|done|]. intros s4 sent4 Ht4.
    op tame_yields; [apply persistBaseline_tame|done|]. intros s5 _ Ht5.
    op tame_yields; [apply OpenAlerts_tame|done|]. intros s6 o Ht6.
    op tame_yields; [apply SaveLast_tame|done|]. intros s7 _ Ht7. trip. eauto 10. }
  destruct (Hy w2 Hq2 eq_refl) as (Hq3 & ts' & sent' & σ' & E' & Ht3 & Hk). rewrite E in *. cbn in *.
  injection E' as <- <-. eauto.
Qed.
End machine.

(** ** Runs of ticks *)

Section runs.
Context `{NumText} `{JsonLaws} `{TimeText} `{JsonNested} `{!TextLaws}.

(** A fingerprint through a number of ticks, each with its settings, its
    instant and its finding if there is one. *)
Fixpoint watch_run (l : list (AlertConfig * Z * option Finding)) (x : watch) : watch * list transition :=
  match l with
  | [] => (x, [])
  | (cfg, now, f) :: l =>
      let '(x1, t) := watch_step cfg now f x in
      let '(x2, ts) := watch_run l x1 in (x2, t ++ ts)
  end.

(** What a tick that was evaluated had found. *)
Record tick := mkTick { tk_cfg : AlertConfig; tk_now : Z; tk_active : gmap string Finding }.

(** Evaluations one after another, by any of the processes.  Between them the
    store may change but for the state of the incidents. *)
Inductive alert_run : redis -> list tick -> list transition -> redis -> Prop :=
  | run_none s : alert_run s [] [] s
  | run_tick s cfg lags now w w' l ts ts' sent s' :
      quiet w -> (forall k, ~ outside k -> kdb (w_db w) !! k = kdb s !! k) ->
      EvaluateOnce cfg lags now w = (w', Evaluated ts sent) ->
      alert_run (w_db w') l ts' s' ->
      alert_run s (mkTick cfg now (active_of (found cfg lags now w)) :: l) (ts ++ ts') s'.

(** The ticks of a fingerprint. *)
Definition ticks_at (fp : string) (l : list tick) : list (AlertConfig * Z * option Finding) :=
  (fun t => (tk_cfg t, tk_now t, tk_active t !! fp)) <$> l.

(** The counters stay below a number of ticks. *)
Definition counts_below (n : Z) (σ : string -> watch) : Prop :=
  forall fp, 0 <= breaches (σ fp) <= n /\ 0 <= healthies (σ fp) <= n.

Lemma watch_step_counts (cfg : AlertConfig) (now n : Z) (f : option Finding) (x : watch) :
  0 <= breaches x <= n /\ 0 <= healthies x <= n ->
  0 <= breaches (watch_step cfg now f x).1 <= n + 1 /\ 0 <= healthies (watch_step cfg now f x).1 <= n + 1.
Proof.
  intros ?. unfold watch_step. destruct f, (incident x); cbn; repeat case_match; cbn; lia.
Qed.

Lemma alert_run_tracked (s s' : redis) (l : list tick) (ts : list transition) (σ : string -> watch) (n : Z) :
  tracks s σ -> counts_below n σ -> n + Z.of_nat (length l) <= maxInt64 ->
  alert_run s l ts s' ->
  exists σ', tracks s' σ' /\ forall fp, watch_run (ticks_at fp l) (σ fp) = (σ' fp, of_print fp ts).
Proof.
  intros Ht Hc Hn Hrun. induction Hrun as [s|s cfg lags now w w' l ts ts' sent s' Hq Hk E Hrun IH] in σ, n, Ht, Hc, Hn |- *.
  { by exists σ. }
  cbn [length] in Hn. destruct (EvaluateOnce_ticks cfg lags now σ w w' ts sent) as (_ & σ1 & Ht1 & Hs); [|..|done|done|].
  { by eapply tracks_same. }
  { intros fp. destruct (Hc fp). split; lia. }
  destruct (IH σ1 (n + 1)) as (σ' & Ht' & Hr); [done| |lia|].
  { intros fp. rewrite (proj1 (Hs fp)). by apply watch_step_counts. }
  exists σ'. split; [done|]. intros fp. cbn. destruct (Hs fp) as [Hs1 Hs2]. specialize (Hr fp).
  rewrite of_print_app, Hs2. destruct (watch_step cfg now _ (σ fp)) as [x1 t]. cbn in Hs1. subst x1.
  unfold ticks_at in Hr. by rewrite Hr.
Qed.

(** C35: Over any number of evaluated ticks the store moves the incident of every
    fingerprint exactly as the small machine [watch_run] does, with the findings
    of those ticks: it opens at the breach that makes the count, is only touched
    while it stays, resolves at the healthy tick that makes the other count, and
    the reported transitions of the fingerprint are the machine's, in order. *)
Theorem alert_run_refines (s s' : redis) (l : list tick) (ts : list transition) (σ : string -> watch) (n : Z) :
  tracks s σ -> counts_below n σ -> n + Z.of_nat (length l) <= maxInt64 ->
  alert_run s l ts s' ->
  exists σ', tracks s' σ' /\ forall fp, watch_run (ticks_at fp l) (σ fp) = (σ' fp, of_print fp ts).
Proof. exact (alert_run_tracked s s' l ts σ n). Qed.

(** ** Notifications in turns *)

(** Whether an incident is open after the transitions; [None] when one comes out of turn. *)
Fixpoint after_turns (open : bool) (ts : list transition) : option bool :=
  match ts with
  | [] => Some open
  | t :: ts => if String.eqb (tr_event t) (if open then "resolved" else "fired") then after_turns (negb open) ts else None
  end.

Lemma after_turns_app (open : bool) (ts ts' : list transition) :
  after_turns open (ts ++ ts') = o ← after_turns open ts; after_turns o ts'.
Proof. induction ts as [|t ts IH] in open |- *; [done|]. cbn. destruct (String.eqb _ _); [apply IH|done]. Qed.

Definition is_open (x : watch) : bool := bool_decide (is_Some (incident x)).

Lemma watch_step_turns (cfg : AlertConfig) (now : Z) (f : option Finding) (x : watch) :
  after_turns (is_open x) (watch_step cfg now f x).2 = Some (is_open (watch_step cfg now f x).1).
Proof.
  unfold watch_step, is_open. destruct f, (incident x) eqn:E; cbn; repeat case_match; cbn; rewrite ?E; done.
Qed.

Lemma watch_run_turns (l : list (AlertConfig * Z * option Finding)) (x : watch) :
  after_turns (is_open x) (watch_run l x).2 = Some (is_open (watch_run l x).1).
Proof.
  induction l as [|[[cfg now] f] l IH] in x |- *; [done|]. cbn.
  pose proof (watch_step_turns cfg now f x) as Hs. destruct (watch_step cfg now f x) as [x1 t].
  specialize (IH x1). destruct (watch_run l x1) as [x2 ts]. cbn in *. by rewrite after_turns_app, Hs.
Qed.

(** The open incidents of a store. *)
Definition opened (s : redis) (fp : string) : bool :=
  match get_hash s openKey with Some h => bool_decide (is_Some (h !! fp)) | None => false end.

Lemma tracks_opened (s : redis) (σ : string -> watch) (fp : string) : tracks s σ -> opened s fp = is_open (σ fp).
Proof.
  intros Ht. destruct (tk_open _ _ Ht) as (h & E & Hh). unfold opened, is_open. rewrite E, Hh.
  apply bool_decide_ext. by rewrite fmap_is_Some.
Qed.

(** Over any number of evaluated ticks a fingerprint is reported in turns: a
    fired and a resolved notification alternate, starting with fired if no
    incident was open in the store, and the last of them agrees with whether the
    store has an open incident: no reminder while it is open, no second
    resolution. *)
Theorem incidents_alternate (s s' : redis) (l : list tick) (ts : list transition) (σ : string -> watch) (n : Z) (fp : string) :
  tracks s σ -> counts_below n σ -> n + Z.of_nat (length l) <= maxInt64 ->
  alert_run s l ts s' ->
  after_turns (opened s fp) (of_print fp ts) = Some (opened s' fp).
Proof.
  intros Ht Hc Hn Hrun. destruct (alert_run_tracked _ _ _ _ _ _ Ht Hc Hn Hrun) as (σ' & Ht' & Hr).
  rewrite (tracks_opened s σ), (tracks_opened s' σ') by done.
  pose proof (watch_run_turns (ticks_at fp l) (σ fp)) as Hw. by rewrite (Hr fp) in Hw.
Qed.

(** ** Counting breaches *)

(** A breach that stays is reported, once. *)
Lemma persistent_breach_fires (cfg : AlertConfig) (l : list (Z * Finding)) (x : watch) :
  incident x = None -> l <> [] -> at_least_one (a_ForTicks cfg) <= breaches x + Z.of_nat (length l) ->
  exists now f, (now, f) ∈ l /\ (watch_run ((fun e => (cfg, e.1, Some e.2)) <$> l) x).2 = [fired f (rfc3339_format now)].
Proof.
  assert (forall l x, is_Some (incident x) -> (watch_run ((fun e => (cfg, e.1, Some e.2)) <$> l) x).2 = []) as Hopen.
  { clear. induction l as [|[now f] l IH]; intros x [i Ei]; [done|]. cbn. unfold watch_step. rewrite Ei.
    pose proof (IH (mkWatch (breaches x + 1) 0 (Some (<["summary" := JStr (fi_Summary f)]> i))) ltac:(eauto)) as IH'.
    unfold fmap in IH'. by destruct (watch_run _ _). }
  induction l as [|[now f] l IH] in x |- *; intros Ex Hl Hc; [done|]. cbn. unfold watch_step. rewrite Ex.
  destruct (Z.ltb_spec (breaches x + 1) (at_least_one (a_ForTicks cfg))) as [Hlt|Hge].
  - cbn [length] in Hc. destruct (IH (mkWatch (breaches x + 1) 0 None)) as (now' & f' & Hin & E); [done| |cbn; lia|].
    { intros ->. cbn in Hc. lia. }
    exists now', f'. split; [by right|]. unfold fmap in E. by destruct (watch_run _ _).
  - exists now, f. split; [left|].
    pose proof (Hopen l (mkWatch (breaches x + 1) 0 (Some (incident_of f now))) ltac:(eauto)) as E.
    unfold fmap in E. destruct (watch_run _ _). cbn in *. by rewrite E.
Qed.

(** A health that stays is reported, once. *)
Lemma persistent_health_resolves (cfg : AlertConfig) (l : list Z) (x : watch) (i : object) :
  incident x = Some i -> l <> [] -> at_least_one (a_ResolveTicks cfg) <= healthies x + Z.of_nat (length l) ->
  (watch_run ((fun now => (cfg, now, None)) <$> l) x).2 = [resolved i].
Proof.
  assert (forall l x, incident x = None -> (watch_run ((fun now => (cfg, now, None)) <$> l) x).2 = []) as Hclosed.
  { clear. induction l as [|now l IH]; intros x Ex; [done|]. cbn. unfold watch_step. rewrite Ex.
    pose proof (IH x Ex) as IH'. unfold fmap in IH'. by destruct (watch_run _ _). }
  induction l as [|now l IH] in x |- *; intros Ex Hl Hc; [done|]. cbn. unfold watch_step. rewrite Ex.
  destruct (Z.ltb_spec (healthies x + 1) (at_least_one (a_ResolveTicks cfg))) as [Hlt|Hge].
  - cbn [length] in Hc. pose proof (IH (mkWatch 0 (healthies x + 1) (Some i)) eq_refl) as E.
    unfold fmap in E. destruct (watch_run _ _). cbn in *. apply E; [|lia]. intros ->. cbn in Hc. lia.
  - pose proof (Hclosed l (mkWatch 0 0 None) eq_refl) as E. unfold fmap in E. destruct (watch_run _ _). cbn in *. by rewrite E.
Qed.
End runs.

(** ** One delivery per transition *)

(** Whatever the network does, a claim of a notification that succeeds found its
    key free and took it; with the key there, no claim succeeds. *)
Lemma ClaimNotify_once (fp event : string) (ttl : Z) (w : world) :
  let key := notifyDedupePrefix +:+ event +:+ ":" +:+ fp in
  let '(w', ok) := ClaimNotify fp event ttl w in
  (ok = true -> has_key (w_db w) key = false /\ has_key (w_db w') key = true)
  /\ (has_key (w_db w) key = true -> ok = false /\ has_key (w_db w') key = true).
Proof.
  intros key. unfold ClaimNotify, mbind, io_bind. fold key. set (t := if _ <? _ then _ else _).
  pose proof (do_cases (command (SET_NX_EX key "1" t)) w) as Hd.
  destruct (do _ w) as [w' r]. cbn. revert Hd. unfold command, SET_NX_EX.
  destruct (has_key (w_db w) key) eqn:E; cbn; intros [[-> [e ->]]|[-> [->|[e ->]]]]; cbn; rewrite ?E; split; try done.
  intros _. split; [done|]. unfold has_key. cbn. by rewrite lookup_insert_eq, bool_decide_eq_true_2 by eauto.
Qed.

(** ** Concrete ticks *)

(** JSON written as binary numbers, which are short to compute with. *)
Definition zero_char : Ascii.ascii := Ascii.ascii_of_nat 48.
Definition one_char : Ascii.ascii := Ascii.ascii_of_nat 49.
Definition bits_char : Ascii.ascii := Ascii.ascii_of_nat 98.
Fixpoint bits_text (p : positive) : string :=
  match p with xH => "" | xO p => String zero_char (bits_text p) | xI p => String one_char (bits_text p) end.
Fixpoint text_bits (s : string) : positive :=
  match s with
  | EmptyString => xH
  | String c s => if Ascii.eqb c zero_char then xO (text_bits s) else xI (text_bits s)
  end.

Lemma text_bits_text (p : positive) : text_bits (bits_text p) = p.
Proof. by induction p as [p IH|p IH|]; cbn; rewrite ?IH. Qed.

Definition bits_decode {A} `{Countable A} (s : string) : result A :=
  match s with
  | String c s => match decode (text_bits s) with Some a => Ok a | None => Bad "syntax" end
  | EmptyString => Bad "syntax"
  end.

#[local] Instance bits_json : Json := {|
  unmarshal s := if String.eqb s "null" then Ok None
                 else match bits_decode s with Ok m => Ok (Some m) | Bad e => Bad e end;
  marshal m := Ok (String bits_char (bits_text (encode m)));
  float_numbers t := t
|}.

#[local] Instance bits_json_laws : JsonLaws.
Proof.
  split; [by eexists|]. intros m s [= <-]. unfold unmarshal, bits_json, bits_decode. cbn.
  by rewrite text_bits_text, decode_encode.
Qed.

#[local] Instance bits_text_laws : TextLaws.
Proof. split. by intros m s [= <-]. Qed.

#[local] Instance bits_nested : JsonNested := {|
  unmarshal_nested := bits_decode;
  marshal_nested m := Ok (String bits_char (bits_text (encode m)))
|}.

Definition demo_daemon : AlertDaemon :=
  mkAlertDaemon true 60 1 1 0 0 0 0 0 0 0 0 0 0 0 false 0 0 0 false "" false false false false "g" [] "in" "in2" [] [].
Definition demo_cfg : AlertConfig := effective demo_daemon (fun _ => Bad "salt") ∅ "1".

(** The missing summary of the reconciler fires at once, and resolves at the tick
    after the reconciler ran. *)
Definition demo_first : world * tick_result := EvaluateOnce demo_cfg (fun _ => None) 0 (World empty_redis []).
Definition demo_ran (s : redis) : redis := del_key lockKey (put_hash "kafka_batch:reconciler:last" {[ "produce_failed" := "0" ]} s).
Definition demo_second : world * tick_result :=
  EvaluateOnce demo_cfg (fun _ => None) (sec 60) (World (demo_ran (w_db demo_first.1)) []).

Definition events (r : tick_result) : list (string * string) :=
  match r with Evaluated ts _ => (fun t => (tr_event t, fi_Fingerprint (tr_finding t))) <$> ts | Skipped _ => [] end.

Lemma demo_events :
  events demo_first.2 = [("fired", "reconciler_stale:missing")]
  /\ events demo_second.2 = [("resolved", "reconciler_stale:missing")].
Proof. vm_compute. done. Qed.

Definition transitions (r : tick_result) : list transition := match r with Evaluated ts _ => ts | Skipped _ => [] end.
Definition deliveries (r : tick_result) : list channel := match r with Evaluated _ d => d | Skipped _ => [] end.

Lemma evaluated_shape (x : world * tick_result) : events x.2 <> [] -> x = (x.1, Evaluated (transitions x.2) (deliveries x.2)).
Proof. by destruct x as [w [reason|ts sent]]. Qed.

Definition demo_ticks : list tick :=
  [mkTick demo_cfg 0 (active_of (found demo_cfg (fun _ => None) 0 (World empty_redis [])));
   mkTick demo_cfg (sec 60) (active_of (found demo_cfg (fun _ => None) (sec 60) (World (demo_ran (w_db demo_first.1)) [])))].
Definition demo_transitions : list transition := transitions demo_first.2 ++ transitions demo_second.2 ++ [].

Lemma demo_ran_outside (s : redis) (k : string) : ~ outside k -> kdb (demo_ran s) !! k = kdb s !! k.
Proof.
  intros Hk. unfold demo_ran. rewrite kdb_del_ne, kdb_put_hash_ne; [done|..]; intros <-; apply Hk; split_and!; discriminate.
Qed.

Lemma demo_run : alert_run empty_redis demo_ticks demo_transitions (w_db demo_second.1).
Proof.
  destruct demo_events as [E1 E2].
  eapply (run_tick _ demo_cfg (fun _ => None) 0 (World empty_redis []) demo_first.1); [constructor|done| |].
  { apply evaluated_shape. fold demo_first. by rewrite E1. }
  eapply (run_tick _ demo_cfg (fun _ => None) (sec 60) (World (demo_ran (w_db demo_first.1)) []) demo_second.1);
    [constructor|intros k Hk; by apply demo_ran_outside| |apply run_none].
  apply evaluated_shape. fold demo_second. by rewrite E2.
Qed.

Lemma demo_tracks : tracks empty_redis (fun _ => mkWatch 0 0 None).
Proof. split; [exists ∅; split; [done|]; intros fp; by right..| |done]. exists ∅. by split. Qed.

Lemma alert_run_refines_witness :
  exists σ', tracks (w_db demo_second.1) σ'
    /\ forall fp, watch_run (ticks_at fp demo_ticks) (mkWatch 0 0 None) = (σ' fp, of_print fp demo_transitions).
Proof.
  apply (alert_run_refines empty_redis (w_db demo_second.1) demo_ticks demo_transitions (fun _ => mkWatch 0 0 None) 0).
  - exact demo_tracks.
  - intros fp. cbn. lia.
  - vm_compute. discriminate.
  - exact demo_run.
Defined.

Lemma incidents_alternate_witness :
  after_turns (opened empty_redis "reconciler_stale:missing") (of_print "reconciler_stale:missing" demo_transitions)
    = Some (opened (w_db demo_second.1) "reconciler_stale:missing")
  /\ length (of_print "reconciler_stale:missing" demo_transitions) = 2%nat.
Proof.
  split; [|vm_compute; reflexivity].
  apply (incidents_alternate empty_redis _ demo_ticks demo_transitions (fun _ => mkWatch 0 0 None) 0).
  - exact demo_tracks.
  - intros fp. cbn. lia.
  - vm_compute. discriminate.
  - exact demo_run.
Defined.

(** ** What the ticks do not see *)

(** Breaches are counted over all ticks, not in a row: a finding that comes and
    goes opens an incident after for_ticks appearances, whatever lies between. *)
Theorem flapping_breach_fires (cfg : AlertConfig) (f : Finding) (t1 t2 t3 t4 t5 : Z) :
  a_ForTicks cfg = 3 ->
  (watch_run [(cfg, t1, Some f); (cfg, t2, None); (cfg, t3, Some f); (cfg, t4, None); (cfg, t5, Some f)]
     (mkWatch 0 0 None)).2 = [fired f (rfc3339_format t5)].
Proof. intros E. unfold watch_run, watch_step, at_least_one. cbn. by rewrite E. Qed.

(** The dead letters of the minute that just ended are not counted: fifty of them
    a tenth of a second before the tick give zero. *)
Definition letters (n : nat) (now : Z) : io unit := Nat.iter n (fun m => m ≫= fun _ => IncrDLT now) (mret tt).

Theorem dead_letters_of_last_minute_unseen :
  (DLTCountLastMinute (sec 60 - 100000000) (letters 50 (sec 60 - 100000000) (World empty_redis [])).1).2 = 50
  /\ (DLTCountLastMinute (sec 60) (letters 50 (sec 60 - 100000000) (World empty_redis [])).1).2 = 0.
Proof. vm_compute. done. Qed.

(** A mark of one stale schedule renews the life of all marks, so the mark of a
    schedule that recovered stays while any other is stale. *)
Lemma MarkCronStale_yields (a job : string) (n t : Z) (s : redis) (h : gmap string string) :
  get_hash s cronStaleKey = Some h ->
  yields (MarkCronStale a job n t) s (fun s' _ =>
    (exists v, get_hash s' cronStaleKey = Some (<[a := v]> h)) /\ kttl s' !! cronStaleKey = Some 3600).
Proof.
  intros E. unfold MarkCronStale. repeat trip.
  split; [eexists; by reads|].
  unfold expire. rewrite has_key_put_hash by apply insert_non_empty. cbn. by rewrite lookup_insert_eq.
Qed.

Theorem stale_marks_live_together (a b job : string) (n t t' : Z) (s : redis) (h : gmap string string) :
  get_hash s cronStaleKey = Some h ->
  yields (_ ← MarkCronStale a job n t; MarkCronStale b job n t') s (fun s' _ =>
    (exists v v', get_hash s' cronStaleKey = Some (<[b := v']> (<[a := v]> h))) /\ kttl s' !! cronStaleKey = Some 3600).
Proof.
  intros E. trip. eapply yields_mono; [by apply MarkCronStale_yields|]. cbv beta. intros s1 _ [[v E1] _].
  eapply yields_mono; [by apply MarkCronStale_yields|]. cbv beta. intros s2 _ [[v' E2] Ht]. eauto.
Qed.
