(* ===== verification/DaemonConfig.v ===== *)
(** The configuration of the daemon and the workers: pkg/config.

    The file's text is expanded with the environment, read as YAML, laid over
    the defaults, overridden by the environment, and the topics get their prefix.
    The environment, the host's name and the YAML reader are arguments: a reader
    gives the document with Go's zero values where the file says nothing.
    Durations are nanoseconds; floats are rationals.  A manifest is the list of
    its handlers in the order Go's map iteration visits them. *)
From S2P Require Import Prelude Cron Redis Client Protocol Fairness Enqueue Job.

(** ** Records with updates *)

(** [c <| f := v |>] is [c] with the field [f] set to [v]. *)
Class Setter {R T} (proj : R -> T) := set_field : T -> R -> R.
Arguments set_field {R T} proj {_} v c.
Declare Scope update_scope.
Delimit Scope update_scope with update.
Notation "c <| f := v |>" := (set_field f v c) (at level 12, left associativity) : update_scope.
Open Scope update_scope.

(** ** Data *)

Definition ExecutionModeSuperFetch : string := "superfetch".
Definition ExecutionModeWatermark : string := "watermark".
Definition DefaultConsumerFetchMaxBytes : Z := 1048576.
Definition DefaultConsumerFetchMaxPartitionBytes : Z := 131072.
Definition DefaultConsumerFetchMaxWait : Z := 200 * 1000000.

Record Daemon := mkDaemon {
  D_Brokers : list string; D_TopicPrefix : string; D_ConsumerGroup : string; D_JobsTopics : list string;
  D_EventsTopic : string; D_CallbacksTopic : string; D_DeadLetterTopic : string; D_RetryTopicBase : string;
  D_RetryTiers : gmap string Z; D_RetryProgression : list string; D_RetryJitter : Q; D_RetryMaxPause : Z;
  D_MaxRetries : Z; D_EventEmitRetries : Z; D_EventEmitBackoff : Z; D_RedisURL : string; D_BatchTTL : Z;
  D_HandlerManifest : string; D_SkipCancelledJobs : bool; D_CancellationCacheTTL : Z; D_NodeID : string;
  D_ProducerRequiredAcks : string; D_JobsConsumerConcurrency : Z; D_FairReadyConsumerConcurrency : Z;
  D_PriorityConsumerConcurrency : Z; D_SuperFetchConcurrency : Z; D_SuperFetchClaimWindow : Z;
  D_SuperFetchLeaseTTL : Z; D_SuperFetchReclaimEvery : Z; D_SuperFetchReclaimLimit : Z;
  D_SuperFetchOrphanGrace : Z; D_SuperFetchDrainTimeout : Z; D_ExecutionMode : string;
  D_ConsumerFetchMaxBytes : Z; D_ConsumerFetchMaxPartitionBytes : Z; D_ConsumerFetchMaxWait : Z;
  D_ConsumerStallTimeout : Z; D_SchedulePollerEnabled : bool; D_ScheduledTopic : string;
  D_SchedulePollInterval : Z; D_ScheduleLeaseSeconds : Z; D_ScheduleBatchSize : Z; D_ScheduleReclaimEvery : Z;
  D_SchedulePollMaxInterval : Z; D_SchedulePollJitter : Q; D_ScheduleStore : string;
  D_ScheduleMySQLDSN : string; D_PriorityConfigPaths : list string; D_PriorityLagCheckInterval : Z;
  D_PriorityWeightedInterleave : Z; D_ConsumptionControlRefreshInterval : Z; D_FairnessEnabled : bool;
  D_FairnessTimeIngest : string; D_FairnessTimeReadyGo : string; D_FairnessTimeReadyRuby : string;
  D_FairnessThroughputIngest : string; D_FairnessThroughputReadyGo : string;
  D_FairnessThroughputReadyRuby : string; D_FairnessReadyWindow : Z; D_FairnessGlobalConcurrency : Z;
  D_FairnessMaxInflightPerTenant : Z; D_FairnessLeaseTTL : Q; D_FairnessDefaultWeight : Q;
  D_FairnessWeightedConcurrency : bool; D_FairnessActiveCountTTL : Z; D_FairnessActiveCountSource : string;
  D_FairnessTenantPartitions : gmap string Z; D_FairnessDynamicTenantPartitions : bool;
  D_FairnessTenantPartitionCacheTTL : Z; D_FairnessResetVtimeWhenIdle : bool;
  D_FairnessVtimeIdleResetDebounce : Z; D_Store : string; D_StoreMySQLDSN : string; D_LivenessEnabled : bool;
  D_LivenessTTL : Z; D_LivenessHeartbeatInterval : Z; D_LivenessHTTPAddr : string; D_TrackRunningJobs : bool;
  D_MetricsEnabled : bool; D_MetricsPrefix : string; D_MetricsStatsDAddr : string;
  D_PerformanceMetricsEnabled : bool; D_PerformanceMetricsRetention : Z; D_PerformanceMetricsMaxJobTypes : Z;
  D_PerformanceMetricsBucketSeconds : Z; D_PerformanceMetricsSampleRate : Q; D_RedisRTTProbeInterval : Z;
  D_RedisRTTProbeTimeout : Z; D_ReconciliationInterval : Z; D_ReconcilerLockTTL : Z; D_MaxReconcilePerRun : Z;
  D_AlertsEnabled : bool; D_AIEncryptionSalt : string; D_AlertsIntervalSec : Z; D_AlertsForTicks : Z;
  D_AlertsResolveTicks : Z; D_AlertsCooldownSeconds : Z; D_AlertsLagThreshold : Z; D_AlertsLagGrowthMin : Z;
  D_AlertsRTTAvgMs : Q; D_AlertsRTTMaxMs : Q; D_AlertsRTTErrorRate : Q; D_AlertsReconcilerMaxAge : Z;
  D_AlertsSchedulePendingMax : Z; D_AlertsDLTPerMinute : Z; D_AlertsFairnessIngestLag : Z;
  D_AlertsFairnessReadyMaxWhenStuck : Z; D_TenantGuardEnabled : bool; D_TenantGuardWindowSeconds : Z;
  D_TenantGuardMinSamples : Z; D_TenantGuardErrorRatePct : Q; D_TenantGuardIncludeRetries : bool;
  D_TenantGuardMitigation : string; D_TenantGuardThrottleWeight : Q; D_TenantGuardAutoReleaseSeconds : Z;
  D_TenantGuardGraceTicks : Z; D_TenantGuardReconcileInterval : Z; D_RecurringSchedulerEnabled : bool;
  D_RecurringWindow : Z; D_RecurringLockTTL : Z; D_RecurringBatchSize : Z; D_RecurringMisfireGrace : Z;
  D_RecurringMaxBackfill : Z; D_RecurringRecoverEvery : Z; D_RecurringRecoverGrace : Z;
  D_RecurringPruneEvery : Z; D_RecurringPruneRetention : Z; D_RecurringMySQLDSN : string;
  D_RecurringHeartbeatEvery : Z; D_RecurringStaleFactor : Q
}.

(** The same record, field by field. *)
Definition eta_Daemon (c : Daemon) : Daemon :=
  mkDaemon
    (D_Brokers c) (D_TopicPrefix c) (D_ConsumerGroup c) (D_JobsTopics c) (D_EventsTopic c) (D_CallbacksTopic c)
    (D_DeadLetterTopic c) (D_RetryTopicBase c) (D_RetryTiers c) (D_RetryProgression c) (D_RetryJitter c)
    (D_RetryMaxPause c) (D_MaxRetries c) (D_EventEmitRetries c) (D_EventEmitBackoff c) (D_RedisURL c)
    (D_BatchTTL c) (D_HandlerManifest c) (D_SkipCancelledJobs c) (D_CancellationCacheTTL c) (D_NodeID c)
    (D_ProducerRequiredAcks c) (D_JobsConsumerConcurrency c) (D_FairReadyConsumerConcurrency c)
    (D_PriorityConsumerConcurrency c) (D_SuperFetchConcurrency c) (D_SuperFetchClaimWindow c)
    (D_SuperFetchLeaseTTL c) (D_SuperFetchReclaimEvery c) (D_SuperFetchReclaimLimit c)
    (D_SuperFetchOrphanGrace c) (D_SuperFetchDrainTimeout c) (D_ExecutionMode c) (D_ConsumerFetchMaxBytes c)
    (D_ConsumerFetchMaxPartitionBytes c) (D_ConsumerFetchMaxWait c) (D_ConsumerStallTimeout c)
    (D_SchedulePollerEnabled c) (D_ScheduledTopic c) (D_SchedulePollInterval c) (D_ScheduleLeaseSeconds c)
    (D_ScheduleBatchSize c) (D_ScheduleReclaimEvery c) (D_SchedulePollMaxInterval c) (D_SchedulePollJitter c)
    (D_ScheduleStore c) (D_ScheduleMySQLDSN c) (D_PriorityConfigPaths c) (D_PriorityLagCheckInterval c)
    (D_PriorityWeightedInterleave c) (D_ConsumptionControlRefreshInterval c) (D_FairnessEnabled c)
    (D_FairnessTimeIngest c) (D_FairnessTimeReadyGo c) (D_FairnessTimeReadyRuby c)
    (D_FairnessThroughputIngest c) (D_FairnessThroughputReadyGo c) (D_FairnessThroughputReadyRuby c)
    (D_FairnessReadyWindow c) (D_FairnessGlobalConcurrency c) (D_FairnessMaxInflightPerTenant c)
    (D_FairnessLeaseTTL c) (D_FairnessDefaultWeight c) (D_FairnessWeightedConcurrency c)
    (D_FairnessActiveCountTTL c) (D_FairnessActiveCountSource c) (D_FairnessTenantPartitions c)
    (D_FairnessDynamicTenantPartitions c) (D_FairnessTenantPartitionCacheTTL c)
    (D_FairnessResetVtimeWhenIdle c) (D_FairnessVtimeIdleResetDebounce c) (D_Store c) (D_StoreMySQLDSN c)
    (D_LivenessEnabled c) (D_LivenessTTL c) (D_LivenessHeartbeatInterval c) (D_LivenessHTTPAddr c)
    (D_TrackRunningJobs c) (D_MetricsEnabled c) (D_MetricsPrefix c) (D_MetricsStatsDAddr c)
    (D_PerformanceMetricsEnabled c) (D_PerformanceMetricsRetention c) (D_PerformanceMetricsMaxJobTypes c)
    (D_PerformanceMetricsBucketSeconds c) (D_PerformanceMetricsSampleRate c) (D_RedisRTTProbeInterval c)
    (D_RedisRTTProbeTimeout c) (D_ReconciliationInterval c) (D_ReconcilerLockTTL c) (D_MaxReconcilePerRun c)
    (D_AlertsEnabled c) (D_AIEncryptionSalt c) (D_AlertsIntervalSec c) (D_AlertsForTicks c)
    (D_AlertsResolveTicks c) (D_AlertsCooldownSeconds c) (D_AlertsLagThreshold c) (D_AlertsLagGrowthMin c)
    (D_AlertsRTTAvgMs c) (D_AlertsRTTMaxMs c) (D_AlertsRTTErrorRate c) (D_AlertsReconcilerMaxAge c)
    (D_AlertsSchedulePendingMax c) (D_AlertsDLTPerMinute c) (D_AlertsFairnessIngestLag c)
    (D_AlertsFairnessReadyMaxWhenStuck c) (D_TenantGuardEnabled c) (D_TenantGuardWindowSeconds c)
    (D_TenantGuardMinSamples c) (D_TenantGuardErrorRatePct c) (D_TenantGuardIncludeRetries c)
    (D_TenantGuardMitigation c) (D_TenantGuardThrottleWeight c) (D_TenantGuardAutoReleaseSeconds c)
    (D_TenantGuardGraceTicks c) (D_TenantGuardReconcileInterval c) (D_RecurringSchedulerEnabled c)
    (D_RecurringWindow c) (D_RecurringLockTTL c) (D_RecurringBatchSize c) (D_RecurringMisfireGrace c)
    (D_RecurringMaxBackfill c) (D_RecurringRecoverEvery c) (D_RecurringRecoverGrace c)
    (D_RecurringPruneEvery c) (D_RecurringPruneRetention c) (D_RecurringMySQLDSN c)
    (D_RecurringHeartbeatEvery c) (D_RecurringStaleFactor c).

#[export] Hint Extern 1 (@Setter Daemon _ ?proj) =>
  (let e := eval unfold eta_Daemon in eta_Daemon in
   let f := eval pattern proj in e in
   lazymatch f with
   | ?g proj => let s := eval cbv beta in (fun v c => g (fun _ => v) c) in exact s
   end) : typeclass_instances.

Definition DefaultDaemon (hostname : string) : Daemon := {|
  D_Brokers := ["localhost:9092"]; D_TopicPrefix := ""; D_ConsumerGroup := "kafka-batch"; D_JobsTopics := [];
  D_EventsTopic := "kafka_batch.events"; D_CallbacksTopic := "kafka_batch.callbacks";
  D_DeadLetterTopic := "kafka_batch.dead_letter"; D_RetryTopicBase := "kafka_batch.jobs.retry";
  D_RetryTiers := list_to_map [("short", 30); ("medium", 420); ("large", 1200)];
  D_RetryProgression := ["short"; "medium"; "large"]; D_RetryJitter := (1 # 10)%Q; D_RetryMaxPause := sec 30;
  D_MaxRetries := 7; D_EventEmitRetries := 3; D_EventEmitBackoff := sec 1;
  D_RedisURL := "redis://localhost:6379/0"; D_BatchTTL := sec 604800; D_HandlerManifest := "";
  D_SkipCancelledJobs := true; D_CancellationCacheTTL := sec 120; D_NodeID := hostname;
  D_ProducerRequiredAcks := "all_isr"; D_JobsConsumerConcurrency := 8; D_FairReadyConsumerConcurrency := 8;
  D_PriorityConsumerConcurrency := 4; D_SuperFetchConcurrency := 10; D_SuperFetchClaimWindow := 0;
  D_SuperFetchLeaseTTL := sec 120; D_SuperFetchReclaimEvery := sec 30; D_SuperFetchReclaimLimit := 100;
  D_SuperFetchOrphanGrace := sec 40; D_SuperFetchDrainTimeout := sec 30;
  D_ExecutionMode := ExecutionModeSuperFetch; D_ConsumerFetchMaxBytes := DefaultConsumerFetchMaxBytes;
  D_ConsumerFetchMaxPartitionBytes := DefaultConsumerFetchMaxPartitionBytes;
  D_ConsumerFetchMaxWait := DefaultConsumerFetchMaxWait; D_ConsumerStallTimeout := sec 90;
  D_SchedulePollerEnabled := false; D_ScheduledTopic := "kafka_batch.scheduled";
  D_SchedulePollInterval := sec 5; D_ScheduleLeaseSeconds := 60; D_ScheduleBatchSize := 100;
  D_ScheduleReclaimEvery := sec 30; D_SchedulePollMaxInterval := sec 60; D_SchedulePollJitter := 0;
  D_ScheduleStore := ""; D_ScheduleMySQLDSN := ""; D_PriorityConfigPaths := [];
  D_PriorityLagCheckInterval := sec 2; D_PriorityWeightedInterleave := 4;
  D_ConsumptionControlRefreshInterval := sec 30; D_FairnessEnabled := false;
  D_FairnessTimeIngest := "kafka_batch.fair_time_ingest";
  D_FairnessTimeReadyGo := "kafka_batch.fair_time_ready.go";
  D_FairnessTimeReadyRuby := "kafka_batch.fair_time_ready.ruby";
  D_FairnessThroughputIngest := "kafka_batch.fair_throughput_ingest";
  D_FairnessThroughputReadyGo := "kafka_batch.fair_throughput_ready.go";
  D_FairnessThroughputReadyRuby := "kafka_batch.fair_throughput_ready.ruby"; D_FairnessReadyWindow := 100;
  D_FairnessGlobalConcurrency := 50; D_FairnessMaxInflightPerTenant := 0; D_FairnessLeaseTTL := 1800;
  D_FairnessDefaultWeight := 1; D_FairnessWeightedConcurrency := true; D_FairnessActiveCountTTL := sec 5;
  D_FairnessActiveCountSource := "inflight_plus_ready"; D_FairnessTenantPartitions := ∅;
  D_FairnessDynamicTenantPartitions := true; D_FairnessTenantPartitionCacheTTL := sec 30;
  D_FairnessResetVtimeWhenIdle := true; D_FairnessVtimeIdleResetDebounce := sec 15; D_Store := "";
  D_StoreMySQLDSN := ""; D_LivenessEnabled := false; D_LivenessTTL := sec 180;
  D_LivenessHeartbeatInterval := sec 20; D_LivenessHTTPAddr := ":8080"; D_TrackRunningJobs := true;
  D_MetricsEnabled := false; D_MetricsPrefix := "kafka_batch"; D_MetricsStatsDAddr := "";
  D_PerformanceMetricsEnabled := false; D_PerformanceMetricsRetention := sec 86400;
  D_PerformanceMetricsMaxJobTypes := 50; D_PerformanceMetricsBucketSeconds := sec 60;
  D_PerformanceMetricsSampleRate := 1; D_RedisRTTProbeInterval := sec 15;
  D_RedisRTTProbeTimeout := 200 * 1000000; D_ReconciliationInterval := sec 300; D_ReconcilerLockTTL := sec 600;
  D_MaxReconcilePerRun := 100; D_AlertsEnabled := false; D_AIEncryptionSalt := ""; D_AlertsIntervalSec := 60;
  D_AlertsForTicks := 3; D_AlertsResolveTicks := 2; D_AlertsCooldownSeconds := 900;
  D_AlertsLagThreshold := 1000; D_AlertsLagGrowthMin := 100; D_AlertsRTTAvgMs := 50; D_AlertsRTTMaxMs := 200;
  D_AlertsRTTErrorRate := (1 # 4)%Q; D_AlertsReconcilerMaxAge := 900; D_AlertsSchedulePendingMax := 10000;
  D_AlertsDLTPerMinute := 50; D_AlertsFairnessIngestLag := 5000; D_AlertsFairnessReadyMaxWhenStuck := 10;
  D_TenantGuardEnabled := false; D_TenantGuardWindowSeconds := 300; D_TenantGuardMinSamples := 50;
  D_TenantGuardErrorRatePct := 25; D_TenantGuardIncludeRetries := false; D_TenantGuardMitigation := "throttle";
  D_TenantGuardThrottleWeight := (1 # 10)%Q; D_TenantGuardAutoReleaseSeconds := 900;
  D_TenantGuardGraceTicks := 0; D_TenantGuardReconcileInterval := 15; D_RecurringSchedulerEnabled := false;
  D_RecurringWindow := sec 30; D_RecurringLockTTL := sec 60; D_RecurringBatchSize := 100;
  D_RecurringMisfireGrace := sec 60; D_RecurringMaxBackfill := 1000; D_RecurringRecoverEvery := sec 300;
  D_RecurringRecoverGrace := sec 120; D_RecurringPruneEvery := sec 3600;
  D_RecurringPruneRetention := sec 604800; D_RecurringMySQLDSN := ""; D_RecurringHeartbeatEvery := sec 60;
  D_RecurringStaleFactor := 2
|}.

(** What the YAML file says. *)
Record DaemonDoc := mkDoc {
  Y_Brokers : list string; Y_TopicPrefix : string; Y_ConsumerGroup : string; Y_JobsTopics : list string;
  Y_EventsTopic : string; Y_CallbacksTopic : string; Y_DeadLetterTopic : string; Y_RetryTopic : string;
  Y_RetryTiers : option (gmap string Z); Y_RedisURL : string; Y_HandlerManifest : string;
  Y_SkipCancelledJobs : option bool; Y_CancellationCacheTTLSec : Q; Y_MaxRetries : Z; Y_RetryMaxPauseSec : Q;
  Y_ProducerRequiredAcks : string; Y_JobsConsumerConcurrency : Z; Y_FairReadyConsumerConcurrency : Z;
  Y_PriorityConsumerConcurrency : Z; Y_SuperFetchConcurrency : Z; Y_SuperFetchClaimWindow : Z;
  Y_SuperFetchLeaseTTLSec : Q; Y_SuperFetchReclaimIntervalSec : Q; Y_SuperFetchReclaimLimit : Z;
  Y_SuperFetchOrphanGraceSec : Q; Y_SuperFetchDrainTimeoutSec : Q; Y_ExecutionMode : string;
  Y_ConsumerFetchMaxBytes : Z; Y_ConsumerFetchMaxPartitionBytes : Z; Y_ConsumerFetchMaxWaitMs : Q;
  Y_ConsumerStallTimeoutSec : Q; Y_SchedulePollerEnabled : bool; Y_ScheduledTopic : string;
  Y_ScheduleLeaseSeconds : Z; Y_ScheduleBatchSize : Z; Y_SchedulePollIntervalSec : Q;
  Y_ScheduleReclaimIntervalSec : Q; Y_SchedulePollMaxIntervalSec : Q; Y_SchedulePollJitter : Q;
  Y_ScheduleStore : string; Y_ScheduleMySQLDSN : string; Y_PriorityConfigPaths : list string;
  Y_PriorityLagCheckIntervalSec : Q; Y_PriorityWeightedInterleave : Z;
  Y_ConsumptionControlRefreshIntervalSec : Q; Y_FairnessEnabled : bool; Y_FairnessTimeIngest : string;
  Y_FairnessTimeReadyGo : string; Y_FairnessTimeReadyRuby : string; Y_FairnessThroughputIngest : string;
  Y_FairnessThroughputReadyGo : string; Y_FairnessThroughputReadyRuby : string; Y_FairnessReadyWindow : Z;
  Y_FairnessGlobalConcurrency : Z; Y_FairnessMaxInflightPerTenant : Z; Y_FairnessLeaseTTL : Q;
  Y_FairnessDefaultWeight : Q; Y_FairnessWeightedConcurrency : bool; Y_FairnessActiveCountTTLSec : Q;
  Y_FairnessActiveCountSource : string; Y_FairnessTenantPartitions : gmap string Z;
  Y_FairnessDynamicTenantPartitions : option bool; Y_FairnessTenantPartitionCacheTTLSec : Q;
  Y_FairnessResetVtimeWhenIdle : option bool; Y_FairnessVtimeIdleResetDebounceSec : Q; Y_Store : string;
  Y_StoreMySQLDSN : string; Y_LivenessEnabled : bool; Y_LivenessTTLSec : Q; Y_LivenessHeartbeatIntervalSec : Q;
  Y_LivenessHTTPAddr : string; Y_TrackRunningJobs : option bool; Y_MetricsEnabled : bool;
  Y_MetricsPrefix : string; Y_MetricsStatsDAddr : string; Y_PerformanceMetricsEnabled : bool;
  Y_PerformanceMetricsRetentionSec : Q; Y_PerformanceMetricsMaxJobTypes : Z;
  Y_PerformanceMetricsBucketSecondsSec : Q; Y_PerformanceMetricsSampleRate : Q; Y_RedisRTTProbeIntervalSec : Q;
  Y_RedisRTTProbeTimeoutSec : Q; Y_ReconciliationIntervalSec : Q; Y_ReconcilerLockTTLSec : Q;
  Y_MaxReconcilePerRun : Z; Y_AlertsEnabled : bool; Y_AIEncryptionSalt : string; Y_AlertsIntervalSec : Z;
  Y_AlertsForTicks : Z; Y_AlertsResolveTicks : Z; Y_AlertsCooldownSeconds : Z; Y_AlertsLagThreshold : Z;
  Y_AlertsLagGrowthMin : Z; Y_AlertsRTTAvgMs : Q; Y_AlertsRTTMaxMs : Q; Y_AlertsRTTErrorRate : Q;
  Y_AlertsReconcilerMaxAge : Z; Y_AlertsSchedulePendingMax : Z; Y_AlertsDLTPerMinute : Z;
  Y_AlertsFairnessIngestLag : Z; Y_AlertsFairnessReadyMaxWhenStuck : Z; Y_TenantGuardEnabled : bool;
  Y_TenantGuardWindowSeconds : Z; Y_TenantGuardMinSamples : Z; Y_TenantGuardErrorRatePct : Q;
  Y_TenantGuardIncludeRetries : bool; Y_TenantGuardMitigation : string; Y_TenantGuardThrottleWeight : Q;
  Y_TenantGuardAutoReleaseSeconds : Z; Y_TenantGuardGraceTicks : Z; Y_TenantGuardReconcileInterval : Z;
  Y_RecurringSchedulerEnabled : bool; Y_RecurringWindowSec : Q; Y_RecurringLockTTLSec : Q;
  Y_RecurringBatchSize : Z; Y_RecurringMisfireGraceSec : Q; Y_RecurringMaxBackfill : Z;
  Y_RecurringRecoverEverySec : Q; Y_RecurringRecoverGraceSec : Q; Y_RecurringPruneEverySec : Q;
  Y_RecurringPruneRetentionSec : Q; Y_RecurringMySQLDSN : string; Y_RecurringHeartbeatEverySec : Q;
  Y_RecurringStaleFactor : Q
}.

(** The zero value of the document. *)
Definition empty_doc : DaemonDoc := {|
  Y_Brokers := []; Y_TopicPrefix := ""; Y_ConsumerGroup := ""; Y_JobsTopics := []; Y_EventsTopic := "";
  Y_CallbacksTopic := ""; Y_DeadLetterTopic := ""; Y_RetryTopic := ""; Y_RetryTiers := None; Y_RedisURL := "";
  Y_HandlerManifest := ""; Y_SkipCancelledJobs := None; Y_CancellationCacheTTLSec := 0; Y_MaxRetries := 0;
  Y_RetryMaxPauseSec := 0; Y_ProducerRequiredAcks := ""; Y_JobsConsumerConcurrency := 0;
  Y_FairReadyConsumerConcurrency := 0; Y_PriorityConsumerConcurrency := 0; Y_SuperFetchConcurrency := 0;
  Y_SuperFetchClaimWindow := 0; Y_SuperFetchLeaseTTLSec := 0; Y_SuperFetchReclaimIntervalSec := 0;
  Y_SuperFetchReclaimLimit := 0; Y_SuperFetchOrphanGraceSec := 0; Y_SuperFetchDrainTimeoutSec := 0;
  Y_ExecutionMode := ""; Y_ConsumerFetchMaxBytes := 0; Y_ConsumerFetchMaxPartitionBytes := 0;
  Y_ConsumerFetchMaxWaitMs := 0; Y_ConsumerStallTimeoutSec := 0; Y_SchedulePollerEnabled := false;
  Y_ScheduledTopic := ""; Y_ScheduleLeaseSeconds := 0; Y_ScheduleBatchSize := 0;
  Y_SchedulePollIntervalSec := 0; Y_ScheduleReclaimIntervalSec := 0; Y_SchedulePollMaxIntervalSec := 0;
  Y_SchedulePollJitter := 0; Y_ScheduleStore := ""; Y_ScheduleMySQLDSN := ""; Y_PriorityConfigPaths := [];
  Y_PriorityLagCheckIntervalSec := 0; Y_PriorityWeightedInterleave := 0;
  Y_ConsumptionControlRefreshIntervalSec := 0; Y_FairnessEnabled := false; Y_FairnessTimeIngest := "";
  Y_FairnessTimeReadyGo := ""; Y_FairnessTimeReadyRuby := ""; Y_FairnessThroughputIngest := "";
  Y_FairnessThroughputReadyGo := ""; Y_FairnessThroughputReadyRuby := ""; Y_FairnessReadyWindow := 0;
  Y_FairnessGlobalConcurrency := 0; Y_FairnessMaxInflightPerTenant := 0; Y_FairnessLeaseTTL := 0;
  Y_FairnessDefaultWeight := 0; Y_FairnessWeightedConcurrency := false; Y_FairnessActiveCountTTLSec := 0;
  Y_FairnessActiveCountSource := ""; Y_FairnessTenantPartitions := ∅;
  Y_FairnessDynamicTenantPartitions := None; Y_FairnessTenantPartitionCacheTTLSec := 0;
  Y_FairnessResetVtimeWhenIdle := None; Y_FairnessVtimeIdleResetDebounceSec := 0; Y_Store := "";
  Y_StoreMySQLDSN := ""; Y_LivenessEnabled := false; Y_LivenessTTLSec := 0;
  Y_LivenessHeartbeatIntervalSec := 0; Y_LivenessHTTPAddr := ""; Y_TrackRunningJobs := None;
  Y_MetricsEnabled := false; Y_MetricsPrefix := ""; Y_MetricsStatsDAddr := "";
  Y_PerformanceMetricsEnabled := false; Y_PerformanceMetricsRetentionSec := 0;
  Y_PerformanceMetricsMaxJobTypes := 0; Y_PerformanceMetricsBucketSecondsSec := 0;
  Y_PerformanceMetricsSampleRate := 0; Y_RedisRTTProbeIntervalSec := 0; Y_RedisRTTProbeTimeoutSec := 0;
  Y_ReconciliationIntervalSec := 0; Y_ReconcilerLockTTLSec := 0; Y_MaxReconcilePerRun := 0;
  Y_AlertsEnabled := false; Y_AIEncryptionSalt := ""; Y_AlertsIntervalSec := 0; Y_AlertsForTicks := 0;
  Y_AlertsResolveTicks := 0; Y_AlertsCooldownSeconds := 0; Y_AlertsLagThreshold := 0;
  Y_AlertsLagGrowthMin := 0; Y_AlertsRTTAvgMs := 0; Y_AlertsRTTMaxMs := 0; Y_AlertsRTTErrorRate := 0;
  Y_AlertsReconcilerMaxAge := 0; Y_AlertsSchedulePendingMax := 0; Y_AlertsDLTPerMinute := 0;
  Y_AlertsFairnessIngestLag := 0; Y_AlertsFairnessReadyMaxWhenStuck := 0; Y_TenantGuardEnabled := false;
  Y_TenantGuardWindowSeconds := 0; Y_TenantGuardMinSamples := 0; Y_TenantGuardErrorRatePct := 0;
  Y_TenantGuardIncludeRetries := false; Y_TenantGuardMitigation := ""; Y_TenantGuardThrottleWeight := 0;
  Y_TenantGuardAutoReleaseSeconds := 0; Y_TenantGuardGraceTicks := 0; Y_TenantGuardReconcileInterval := 0;
  Y_RecurringSchedulerEnabled := false; Y_RecurringWindowSec := 0; Y_RecurringLockTTLSec := 0;
  Y_RecurringBatchSize := 0; Y_RecurringMisfireGraceSec := 0; Y_RecurringMaxBackfill := 0;
  Y_RecurringRecoverEverySec := 0; Y_RecurringRecoverGraceSec := 0; Y_RecurringPruneEverySec := 0;
  Y_RecurringPruneRetentionSec := 0; Y_RecurringMySQLDSN := ""; Y_RecurringHeartbeatEverySec := 0;
  Y_RecurringStaleFactor := 0
|}.

(** ** The file over the defaults *)

Definition or_text (v old : string) : string := if String.eqb v "" then old else v.
Definition or_list (v old : list string) : list string := match v with [] => old | _ => v end.
Definition or_map (v old : gmap string Z) : gmap string Z := if bool_decide (v = ∅) then old else v.
Definition or_pos (v old : Z) : Z := if 0 <? v then v else old.
Definition positive_q (v : Q) : bool := negb (Qle_bool v 0).
Definition or_posQ (v old : Q) : Q := if positive_q v then v else old.

(** time.Duration(v * float64(time.Second)), and with milliseconds. *)
Definition seconds (v : Q) : Z := truncate (v * 1000000000).
Definition or_seconds (v : Q) (old : Z) : Z := if positive_q v then seconds v else old.
Definition or_millis (v : Q) (old : Z) : Z := if positive_q v then truncate (v * 1000000) else old.

Definition doc_general (doc : DaemonDoc) (cfg : Daemon) : Daemon :=
  cfg
  <| D_Brokers := or_list (Y_Brokers doc) (D_Brokers cfg) |>
  <| D_TopicPrefix := or_text (Y_TopicPrefix doc) (D_TopicPrefix cfg) |>
  <| D_ConsumerGroup := or_text (Y_ConsumerGroup doc) (D_ConsumerGroup cfg) |>
  <| D_JobsTopics := or_list (Y_JobsTopics doc) (D_JobsTopics cfg) |>
  <| D_EventsTopic := or_text (Y_EventsTopic doc) (D_EventsTopic cfg) |>
  <| D_CallbacksTopic := or_text (Y_CallbacksTopic doc) (D_CallbacksTopic cfg) |>
  <| D_DeadLetterTopic := or_text (Y_DeadLetterTopic doc) (D_DeadLetterTopic cfg) |>
  <| D_RetryTopicBase := or_text (Y_RetryTopic doc) (D_RetryTopicBase cfg) |>
  <| D_RetryTiers := default (D_RetryTiers cfg) (Y_RetryTiers doc) |>
  <| D_RedisURL := or_text (Y_RedisURL doc) (D_RedisURL cfg) |>
  <| D_HandlerManifest := or_text (Y_HandlerManifest doc) (D_HandlerManifest cfg) |>
  <| D_MaxRetries := or_pos (Y_MaxRetries doc) (D_MaxRetries cfg) |>
  <| D_RetryMaxPause := or_seconds (Y_RetryMaxPauseSec doc) (D_RetryMaxPause cfg) |>
  <| D_ProducerRequiredAcks := or_text (Y_ProducerRequiredAcks doc) (D_ProducerRequiredAcks cfg) |>
  <| D_JobsConsumerConcurrency := or_pos (Y_JobsConsumerConcurrency doc) (D_JobsConsumerConcurrency cfg) |>
  <| D_FairReadyConsumerConcurrency := or_pos (Y_FairReadyConsumerConcurrency doc) (D_FairReadyConsumerConcurrency cfg) |>
  <| D_PriorityConsumerConcurrency := or_pos (Y_PriorityConsumerConcurrency doc) (D_PriorityConsumerConcurrency cfg) |>
  <| D_SkipCancelledJobs := default (D_SkipCancelledJobs cfg) (Y_SkipCancelledJobs doc) |>
  <| D_CancellationCacheTTL := or_seconds (Y_CancellationCacheTTLSec doc) (D_CancellationCacheTTL cfg) |>
  <| D_SuperFetchConcurrency := or_pos (Y_SuperFetchConcurrency doc) (D_SuperFetchConcurrency cfg) |>
  <| D_SuperFetchClaimWindow := or_pos (Y_SuperFetchClaimWindow doc) (D_SuperFetchClaimWindow cfg) |>
  <| D_SuperFetchLeaseTTL := or_seconds (Y_SuperFetchLeaseTTLSec doc) (D_SuperFetchLeaseTTL cfg) |>
  <| D_SuperFetchReclaimEvery := or_seconds (Y_SuperFetchReclaimIntervalSec doc) (D_SuperFetchReclaimEvery cfg) |>
  <| D_SuperFetchReclaimLimit := or_pos (Y_SuperFetchReclaimLimit doc) (D_SuperFetchReclaimLimit cfg) |>
  <| D_SuperFetchOrphanGrace := or_seconds (Y_SuperFetchOrphanGraceSec doc) (D_SuperFetchOrphanGrace cfg) |>
  <| D_SuperFetchDrainTimeout := or_seconds (Y_SuperFetchDrainTimeoutSec doc) (D_SuperFetchDrainTimeout cfg) |>
  <| D_ExecutionMode := or_text (Y_ExecutionMode doc) (D_ExecutionMode cfg) |>
  <| D_ConsumerFetchMaxBytes := or_pos (Y_ConsumerFetchMaxBytes doc) (D_ConsumerFetchMaxBytes cfg) |>
  <| D_ConsumerFetchMaxPartitionBytes := or_pos (Y_ConsumerFetchMaxPartitionBytes doc) (D_ConsumerFetchMaxPartitionBytes cfg) |>
  <| D_ConsumerFetchMaxWait := or_millis (Y_ConsumerFetchMaxWaitMs doc) (D_ConsumerFetchMaxWait cfg) |>
  <| D_ConsumerStallTimeout := or_seconds (Y_ConsumerStallTimeoutSec doc) (D_ConsumerStallTimeout cfg) |>.

Definition doc_schedule (doc : DaemonDoc) (cfg : Daemon) : Daemon :=
  cfg
  <| D_SchedulePollerEnabled := Y_SchedulePollerEnabled doc || D_SchedulePollerEnabled cfg |>
  <| D_ScheduledTopic := or_text (Y_ScheduledTopic doc) (D_ScheduledTopic cfg) |>
  <| D_ScheduleLeaseSeconds := or_pos (Y_ScheduleLeaseSeconds doc) (D_ScheduleLeaseSeconds cfg) |>
  <| D_ScheduleBatchSize := or_pos (Y_ScheduleBatchSize doc) (D_ScheduleBatchSize cfg) |>
  <| D_SchedulePollInterval := or_seconds (Y_SchedulePollIntervalSec doc) (D_SchedulePollInterval cfg) |>
  <| D_ScheduleReclaimEvery := or_seconds (Y_ScheduleReclaimIntervalSec doc) (D_ScheduleReclaimEvery cfg) |>
  <| D_SchedulePollMaxInterval := or_seconds (Y_SchedulePollMaxIntervalSec doc) (D_SchedulePollMaxInterval cfg) |>
  <| D_SchedulePollJitter := or_posQ (Y_SchedulePollJitter doc) (D_SchedulePollJitter cfg) |>
  <| D_ScheduleStore := or_text (Y_ScheduleStore doc) (D_ScheduleStore cfg) |>
  <| D_ScheduleMySQLDSN := or_text (Y_ScheduleMySQLDSN doc) (D_ScheduleMySQLDSN cfg) |>
  <| D_PriorityConfigPaths := or_list (Y_PriorityConfigPaths doc) (D_PriorityConfigPaths cfg) |>
  <| D_PriorityLagCheckInterval := or_seconds (Y_PriorityLagCheckIntervalSec doc) (D_PriorityLagCheckInterval cfg) |>
  <| D_PriorityWeightedInterleave := or_pos (Y_PriorityWeightedInterleave doc) (D_PriorityWeightedInterleave cfg) |>
  <| D_ConsumptionControlRefreshInterval := or_seconds (Y_ConsumptionControlRefreshIntervalSec doc) (D_ConsumptionControlRefreshInterval cfg) |>.

Definition doc_fairness (doc : DaemonDoc) (cfg : Daemon) : Daemon :=
  cfg
  <| D_FairnessEnabled := Y_FairnessEnabled doc || D_FairnessEnabled cfg |>
  <| D_FairnessTimeIngest := or_text (Y_FairnessTimeIngest doc) (D_FairnessTimeIngest cfg) |>
  <| D_FairnessTimeReadyGo := or_text (Y_FairnessTimeReadyGo doc) (D_FairnessTimeReadyGo cfg) |>
  <| D_FairnessTimeReadyRuby := or_text (Y_FairnessTimeReadyRuby doc) (D_FairnessTimeReadyRuby cfg) |>
  <| D_FairnessThroughputIngest := or_text (Y_FairnessThroughputIngest doc) (D_FairnessThroughputIngest cfg) |>
  <| D_FairnessThroughputReadyGo := or_text (Y_FairnessThroughputReadyGo doc) (D_FairnessThroughputReadyGo cfg) |>
  <| D_FairnessThroughputReadyRuby := or_text (Y_FairnessThroughputReadyRuby doc) (D_FairnessThroughputReadyRuby cfg) |>
  <| D_FairnessReadyWindow := or_pos (Y_FairnessReadyWindow doc) (D_FairnessReadyWindow cfg) |>
  <| D_FairnessGlobalConcurrency := or_pos (Y_FairnessGlobalConcurrency doc) (D_FairnessGlobalConcurrency cfg) |>
  <| D_FairnessMaxInflightPerTenant := or_pos (Y_FairnessMaxInflightPerTenant doc) (D_FairnessMaxInflightPerTenant cfg) |>
  <| D_FairnessLeaseTTL := or_posQ (Y_FairnessLeaseTTL doc) (D_FairnessLeaseTTL cfg) |>
  <| D_FairnessDefaultWeight := or_posQ (Y_FairnessDefaultWeight doc) (D_FairnessDefaultWeight cfg) |>
  <| D_FairnessWeightedConcurrency := Y_FairnessWeightedConcurrency doc || D_FairnessWeightedConcurrency cfg |>
  <| D_FairnessActiveCountTTL := or_seconds (Y_FairnessActiveCountTTLSec doc) (D_FairnessActiveCountTTL cfg) |>
  <| D_FairnessActiveCountSource := or_text (Y_FairnessActiveCountSource doc) (D_FairnessActiveCountSource cfg) |>
  <| D_FairnessTenantPartitions := or_map (Y_FairnessTenantPartitions doc) (D_FairnessTenantPartitions cfg) |>
  <| D_FairnessDynamicTenantPartitions := default (D_FairnessDynamicTenantPartitions cfg) (Y_FairnessDynamicTenantPartitions doc) |>
  <| D_FairnessTenantPartitionCacheTTL := or_seconds (Y_FairnessTenantPartitionCacheTTLSec doc) (D_FairnessTenantPartitionCacheTTL cfg) |>
  <| D_FairnessResetVtimeWhenIdle := default (D_FairnessResetVtimeWhenIdle cfg) (Y_FairnessResetVtimeWhenIdle doc) |>
  <| D_FairnessVtimeIdleResetDebounce := or_seconds (Y_FairnessVtimeIdleResetDebounceSec doc) (D_FairnessVtimeIdleResetDebounce cfg) |>.

Definition doc_process (doc : DaemonDoc) (cfg : Daemon) : Daemon :=
  cfg
  <| D_Store := or_text (Y_Store doc) (D_Store cfg) |>
  <| D_StoreMySQLDSN := or_text (Y_StoreMySQLDSN doc) (D_StoreMySQLDSN cfg) |>
  <| D_LivenessEnabled := Y_LivenessEnabled doc || D_LivenessEnabled cfg |>
  <| D_LivenessTTL := or_seconds (Y_LivenessTTLSec doc) (D_LivenessTTL cfg) |>
  <| D_LivenessHeartbeatInterval := or_seconds (Y_LivenessHeartbeatIntervalSec doc) (D_LivenessHeartbeatInterval cfg) |>
  <| D_LivenessHTTPAddr := or_text (Y_LivenessHTTPAddr doc) (D_LivenessHTTPAddr cfg) |>
  <| D_TrackRunningJobs := default (D_TrackRunningJobs cfg) (Y_TrackRunningJobs doc) |>
  <| D_MetricsEnabled := Y_MetricsEnabled doc || D_MetricsEnabled cfg |>
  <| D_MetricsPrefix := or_text (Y_MetricsPrefix doc) (D_MetricsPrefix cfg) |>
  <| D_MetricsStatsDAddr := or_text (Y_MetricsStatsDAddr doc) (D_MetricsStatsDAddr cfg) |>
  <| D_PerformanceMetricsEnabled := Y_PerformanceMetricsEnabled doc || D_PerformanceMetricsEnabled cfg |>
  <| D_PerformanceMetricsRetention := or_seconds (Y_PerformanceMetricsRetentionSec doc) (D_PerformanceMetricsRetention cfg) |>
  <| D_PerformanceMetricsMaxJobTypes := or_pos (Y_PerformanceMetricsMaxJobTypes doc) (D_PerformanceMetricsMaxJobTypes cfg) |>
  <| D_PerformanceMetricsBucketSeconds := or_seconds (Y_PerformanceMetricsBucketSecondsSec doc) (D_PerformanceMetricsBucketSeconds cfg) |>
  <| D_PerformanceMetricsSampleRate := or_posQ (Y_PerformanceMetricsSampleRate doc) (D_PerformanceMetricsSampleRate cfg) |>
  <| D_RedisRTTProbeInterval := or_seconds (Y_RedisRTTProbeIntervalSec doc) (D_RedisRTTProbeInterval cfg) |>
  <| D_RedisRTTProbeTimeout := or_seconds (Y_RedisRTTProbeTimeoutSec doc) (D_RedisRTTProbeTimeout cfg) |>
  <| D_ReconciliationInterval := or_seconds (Y_ReconciliationIntervalSec doc) (D_ReconciliationInterval cfg) |>
  <| D_ReconcilerLockTTL := or_seconds (Y_ReconcilerLockTTLSec doc) (D_ReconcilerLockTTL cfg) |>
  <| D_MaxReconcilePerRun := or_pos (Y_MaxReconcilePerRun doc) (D_MaxReconcilePerRun cfg) |>.

Definition doc_alerts (doc : DaemonDoc) (cfg : Daemon) : Daemon :=
  cfg
  <| D_AlertsEnabled := Y_AlertsEnabled doc || D_AlertsEnabled cfg |>
  <| D_AIEncryptionSalt := or_text (Y_AIEncryptionSalt doc) (D_AIEncryptionSalt cfg) |>
  <| D_AlertsIntervalSec := or_pos (Y_AlertsIntervalSec doc) (D_AlertsIntervalSec cfg) |>
  <| D_AlertsForTicks := or_pos (Y_AlertsForTicks doc) (D_AlertsForTicks cfg) |>
  <| D_AlertsResolveTicks := or_pos (Y_AlertsResolveTicks doc) (D_AlertsResolveTicks cfg) |>
  <| D_AlertsCooldownSeconds := or_pos (Y_AlertsCooldownSeconds doc) (D_AlertsCooldownSeconds cfg) |>
  <| D_AlertsLagThreshold := or_pos (Y_AlertsLagThreshold doc) (D_AlertsLagThreshold cfg) |>
  <| D_AlertsLagGrowthMin := or_pos (Y_AlertsLagGrowthMin doc) (D_AlertsLagGrowthMin cfg) |>
  <| D_AlertsRTTAvgMs := or_posQ (Y_AlertsRTTAvgMs doc) (D_AlertsRTTAvgMs cfg) |>
  <| D_AlertsRTTMaxMs := or_posQ (Y_AlertsRTTMaxMs doc) (D_AlertsRTTMaxMs cfg) |>
  <| D_AlertsRTTErrorRate := or_posQ (Y_AlertsRTTErrorRate doc) (D_AlertsRTTErrorRate cfg) |>
  <| D_AlertsReconcilerMaxAge := or_pos (Y_AlertsReconcilerMaxAge doc) (D_AlertsReconcilerMaxAge cfg) |>
  <| D_AlertsSchedulePendingMax := or_pos (Y_AlertsSchedulePendingMax doc) (D_AlertsSchedulePendingMax cfg) |>
  <| D_AlertsDLTPerMinute := or_pos (Y_AlertsDLTPerMinute doc) (D_AlertsDLTPerMinute cfg) |>
  <| D_AlertsFairnessIngestLag := or_pos (Y_AlertsFairnessIngestLag doc) (D_AlertsFairnessIngestLag cfg) |>
  <| D_AlertsFairnessReadyMaxWhenStuck := or_pos (Y_AlertsFairnessReadyMaxWhenStuck doc) (D_AlertsFairnessReadyMaxWhenStuck cfg) |>.

Definition doc_guard (doc : DaemonDoc) (cfg : Daemon) : Daemon :=
  cfg
  <| D_TenantGuardEnabled := Y_TenantGuardEnabled doc || D_TenantGuardEnabled cfg |>
  <| D_TenantGuardWindowSeconds := or_pos (Y_TenantGuardWindowSeconds doc) (D_TenantGuardWindowSeconds cfg) |>
  <| D_TenantGuardMinSamples := or_pos (Y_TenantGuardMinSamples doc) (D_TenantGuardMinSamples cfg) |>
  <| D_TenantGuardErrorRatePct := or_posQ (Y_TenantGuardErrorRatePct doc) (D_TenantGuardErrorRatePct cfg) |>
  <| D_TenantGuardIncludeRetries := Y_TenantGuardIncludeRetries doc || D_TenantGuardIncludeRetries cfg |>
  <| D_TenantGuardMitigation := or_text (Y_TenantGuardMitigation doc) (D_TenantGuardMitigation cfg) |>
  <| D_TenantGuardThrottleWeight := or_posQ (Y_TenantGuardThrottleWeight doc) (D_TenantGuardThrottleWeight cfg) |>
  <| D_TenantGuardAutoReleaseSeconds := or_pos (Y_TenantGuardAutoReleaseSeconds doc) (D_TenantGuardAutoReleaseSeconds cfg) |>
  <| D_TenantGuardGraceTicks := or_pos (Y_TenantGuardGraceTicks doc) (D_TenantGuardGraceTicks cfg) |>
  <| D_TenantGuardReconcileInterval := or_pos (Y_TenantGuardReconcileInterval doc) (D_TenantGuardReconcileInterval cfg) |>.

Definition doc_recurring (doc : DaemonDoc) (cfg : Daemon) : Daemon :=
  cfg
  <| D_RecurringSchedulerEnabled := Y_RecurringSchedulerEnabled doc || D_RecurringSchedulerEnabled cfg |>
  <| D_RecurringWindow := or_seconds (Y_RecurringWindowSec doc) (D_RecurringWindow cfg) |>
  <| D_RecurringLockTTL := or_seconds (Y_RecurringLockTTLSec doc) (D_RecurringLockTTL cfg) |>
  <| D_RecurringBatchSize := or_pos (Y_RecurringBatchSize doc) (D_RecurringBatchSize cfg) |>
  <| D_RecurringMisfireGrace := or_seconds (Y_RecurringMisfireGraceSec doc) (D_RecurringMisfireGrace cfg) |>
  <| D_RecurringMaxBackfill := or_pos (Y_RecurringMaxBackfill doc) (D_RecurringMaxBackfill cfg) |>
  <| D_RecurringRecoverEvery := or_seconds (Y_RecurringRecoverEverySec doc) (D_RecurringRecoverEvery cfg) |>
  <| D_RecurringRecoverGrace := or_seconds (Y_RecurringRecoverGraceSec doc) (D_RecurringRecoverGrace cfg) |>
  <| D_RecurringPruneEvery := or_seconds (Y_RecurringPruneEverySec doc) (D_RecurringPruneEvery cfg) |>
  <| D_RecurringPruneRetention := or_seconds (Y_RecurringPruneRetentionSec doc) (D_RecurringPruneRetention cfg) |>
  <| D_RecurringMySQLDSN := or_text (Y_RecurringMySQLDSN doc) (D_RecurringMySQLDSN cfg) |>
  <| D_RecurringHeartbeatEvery := or_seconds (Y_RecurringHeartbeatEverySec doc) (D_RecurringHeartbeatEvery cfg) |>
  <| D_RecurringStaleFactor := or_posQ (Y_RecurringStaleFactor doc) (D_RecurringStaleFactor cfg) |>.

Definition apply_doc (doc : DaemonDoc) (cfg : Daemon) : Daemon :=
  doc_recurring doc (doc_guard doc (doc_alerts doc (doc_process doc (doc_fairness doc (doc_schedule doc
    (doc_general doc cfg)))))).

(** ** The environment over both *)

Section environment.
Context `{NumText}.

Definition EqualFold (a b : string) : bool := String.eqb (ToLower a) (ToLower b).
Definition is_true (v : string) : bool := String.eqb v "1" || EqualFold v "true".

(** The digits a text starts with, and their value. *)
Fixpoint leading_digits (s : string) : string :=
  match s with
  | String c s => if (48 <=? Ascii.nat_of_ascii c)%nat && (Ascii.nat_of_ascii c <=? 57)%nat
                  then String c (leading_digits s) else EmptyString
  | EmptyString => EmptyString
  end.

(** fmt.Sscanf with %d: an optional sign and the digits after it; what follows
    them is not looked at. *)
Definition scan_int (s : string) : option Z :=
  match s with
  | String c r =>
      let digits := if is_char 43 c || is_char 45 c then leading_digits r else leading_digits s in
      if String.eqb digits "" then None
      else Atoi (if is_char 45 c then String c digits else digits)
  | EmptyString => None
  end.

Definition parsePositiveInt (s : string) : option Z :=
  match scan_int (TrimSpace s) with
  | Some n => if n <? 1 then None else Some n
  | None => None
  end.

(** A text without a number scans as zero, which is not positive either. *)
Definition parsePositiveFloat (s : string) : option Q :=
  let n := scan_float (TrimSpace s) in if positive_q n then Some n else None.

Definition int32 (z : Z) : Z := (z + 2147483648) mod 4294967296 - 2147483648.

Definition env_trim (v old : string) : string := if String.eqb v "" then old else TrimSpace v.
Definition env_split (v : string) (old : list string) : list string := if String.eqb v "" then old else Split 44 v.
Definition env_append (v : string) (old : list string) : list string :=
  if String.eqb v "" then old else old ++ [TrimSpace v].
Definition env_paths (v : string) (old : list string) : list string :=
  if String.eqb v "" then old else old ++ filter (fun p => p <> "") (TrimSpace <$> Split 44 v).
Definition env_bool (v : string) (old : bool) : bool := if String.eqb v "" then old else is_true v.
Definition env_int (v : string) (old : Z) : Z := if String.eqb v "" then old else default old (parsePositiveInt v).
Definition env_int32 (v : string) (old : Z) : Z :=
  if String.eqb v "" then old else match parsePositiveInt v with Some n => int32 n | None => old end.
Definition env_millis (v : string) (old : Z) : Z :=
  if String.eqb v "" then old else match parsePositiveInt v with Some n => int64 (n * 1000000) | None => old end.
Definition env_seconds (v : string) (old : Z) : Z :=
  if String.eqb v "" then old else match parsePositiveFloat v with Some n => seconds n | None => old end.
Definition env_rate (v : string) (old : Q) : Q :=
  if String.eqb v "" then old
  else match parsePositiveFloat v with Some n => if Qle_bool n 1 then n else old | None => old end.

Definition env_first (getenv : string -> string) (cfg : Daemon) : Daemon :=
  cfg
  <| D_Brokers := env_split (getenv "KAFKA_BROKERS") (D_Brokers cfg) |>
  <| D_TopicPrefix := env_trim (getenv "KAFKA_PREFIX") (D_TopicPrefix cfg) |>
  <| D_RedisURL := or_text (getenv "REDIS_URL") (D_RedisURL cfg) |>
  <| D_HandlerManifest := or_text (getenv "KAFKA_BATCH_HANDLER_MANIFEST") (D_HandlerManifest cfg) |>
  <| D_ScheduleMySQLDSN := or_text (getenv "KAFKA_BATCH_SCHEDULE_MYSQL_DSN") (D_ScheduleMySQLDSN cfg) |>
  <| D_PriorityConfigPaths := env_paths (getenv "KAFKA_BATCH_PRIORITY_CONFIGS")
      (env_append (getenv "KAFKA_BATCH_PRIORITY_CONFIG") (D_PriorityConfigPaths cfg)) |>
  <| D_MetricsEnabled := is_true (getenv "KAFKA_BATCH_METRICS_ENABLED") || D_MetricsEnabled cfg |>
  <| D_MetricsPrefix := env_trim (getenv "KAFKA_BATCH_METRICS_PREFIX") (D_MetricsPrefix cfg) |>
  <| D_StoreMySQLDSN := or_text (getenv "KAFKA_BATCH_STORE_MYSQL_DSN") (D_StoreMySQLDSN cfg) |>
  <| D_LivenessHTTPAddr := env_trim (getenv "KAFKA_BATCH_LIVENESS_HTTP_ADDR") (D_LivenessHTTPAddr cfg) |>
  <| D_LivenessEnabled := is_true (getenv "KAFKA_BATCH_LIVENESS_ENABLED") || D_LivenessEnabled cfg |>
  <| D_LivenessTTL := env_seconds (getenv "KAFKA_BATCH_LIVENESS_TTL") (D_LivenessTTL cfg) |>
  <| D_LivenessHeartbeatInterval := env_seconds (getenv "KAFKA_BATCH_LIVENESS_HEARTBEAT_INTERVAL") (D_LivenessHeartbeatInterval cfg) |>
  <| D_MetricsStatsDAddr := env_trim (getenv "KAFKA_BATCH_METRICS_STATSD_ADDR") (D_MetricsStatsDAddr cfg) |>
  <| D_AlertsEnabled := is_true (getenv "KAFKA_BATCH_ALERTS_ENABLED") || D_AlertsEnabled cfg |>
  <| D_TenantGuardEnabled := is_true (getenv "KAFKA_BATCH_TENANT_GUARD_ENABLED") || D_TenantGuardEnabled cfg |>
  <| D_AIEncryptionSalt := env_trim (getenv "KAFKA_BATCH_AI_ENCRYPTION_SALT") (D_AIEncryptionSalt cfg) |>
  <| D_AlertsIntervalSec := env_int (getenv "KAFKA_BATCH_ALERTS_INTERVAL") (D_AlertsIntervalSec cfg) |>
  <| D_AlertsForTicks := env_int (getenv "KAFKA_BATCH_ALERTS_FOR_TICKS") (D_AlertsForTicks cfg) |>
  <| D_AlertsResolveTicks := env_int (getenv "KAFKA_BATCH_ALERTS_RESOLVE_TICKS") (D_AlertsResolveTicks cfg) |>
  <| D_AlertsCooldownSeconds := env_int (getenv "KAFKA_BATCH_ALERTS_COOLDOWN_SECONDS") (D_AlertsCooldownSeconds cfg) |>
  <| D_AlertsLagThreshold := env_int (getenv "KAFKA_BATCH_ALERTS_LAG_THRESHOLD") (D_AlertsLagThreshold cfg) |>.

Definition env_second (getenv : string -> string) (cfg : Daemon) : Daemon :=
  cfg
  <| D_PerformanceMetricsEnabled := is_true (getenv "KAFKA_BATCH_PERFORMANCE_METRICS_ENABLED") || D_PerformanceMetricsEnabled cfg |>
  <| D_PerformanceMetricsRetention := env_seconds (getenv "KAFKA_BATCH_PERFORMANCE_METRICS_RETENTION") (D_PerformanceMetricsRetention cfg) |>
  <| D_PerformanceMetricsMaxJobTypes := env_int (getenv "KAFKA_BATCH_PERFORMANCE_METRICS_MAX_JOB_TYPES") (D_PerformanceMetricsMaxJobTypes cfg) |>
  <| D_PerformanceMetricsBucketSeconds := env_seconds (getenv "KAFKA_BATCH_PERFORMANCE_METRICS_BUCKET_SECONDS") (D_PerformanceMetricsBucketSeconds cfg) |>
  <| D_PerformanceMetricsSampleRate := env_rate (getenv "KAFKA_BATCH_PERFORMANCE_METRICS_SAMPLE_RATE") (D_PerformanceMetricsSampleRate cfg) |>
  <| D_RedisRTTProbeInterval := env_seconds (getenv "KAFKA_BATCH_REDIS_RTT_PROBE_INTERVAL") (D_RedisRTTProbeInterval cfg) |>
  <| D_RedisRTTProbeTimeout := env_seconds (getenv "KAFKA_BATCH_REDIS_RTT_PROBE_TIMEOUT") (D_RedisRTTProbeTimeout cfg) |>
  <| D_RetryMaxPause := env_seconds (getenv "KAFKA_BATCH_RETRY_MAX_PAUSE") (D_RetryMaxPause cfg) |>
  <| D_ProducerRequiredAcks := env_trim (getenv "KAFKA_BATCH_PRODUCER_REQUIRED_ACKS") (D_ProducerRequiredAcks cfg) |>
  <| D_JobsConsumerConcurrency := env_int (getenv "KAFKA_BATCH_JOBS_CONSUMER_CONCURRENCY") (D_JobsConsumerConcurrency cfg) |>
  <| D_FairReadyConsumerConcurrency := env_int (getenv "KAFKA_BATCH_FAIR_READY_CONSUMER_CONCURRENCY") (D_FairReadyConsumerConcurrency cfg) |>
  <| D_PriorityConsumerConcurrency := env_int (getenv "KAFKA_BATCH_PRIORITY_CONSUMER_CONCURRENCY") (D_PriorityConsumerConcurrency cfg) |>
  <| D_SkipCancelledJobs := env_bool (getenv "KAFKA_BATCH_SKIP_CANCELLED_JOBS") (D_SkipCancelledJobs cfg) |>
  <| D_FairnessDynamicTenantPartitions := env_bool (getenv "KAFKA_BATCH_FAIRNESS_DYNAMIC_TENANT_PARTITIONS") (D_FairnessDynamicTenantPartitions cfg) |>
  <| D_CancellationCacheTTL := env_seconds (getenv "KAFKA_BATCH_CANCELLATION_CACHE_TTL") (D_CancellationCacheTTL cfg) |>
  <| D_SuperFetchConcurrency := env_int (getenv "KAFKA_BATCH_SUPER_FETCH_CONCURRENCY") (D_SuperFetchConcurrency cfg) |>
  <| D_SuperFetchClaimWindow := env_int (getenv "KAFKA_BATCH_SUPER_FETCH_CLAIM_WINDOW") (D_SuperFetchClaimWindow cfg) |>
  <| D_ExecutionMode := or_text (getenv "KAFKA_BATCH_EXECUTION_MODE") (D_ExecutionMode cfg) |>
  <| D_ConsumerFetchMaxBytes := env_int32 (getenv "KAFKA_BATCH_CONSUMER_FETCH_MAX_BYTES") (D_ConsumerFetchMaxBytes cfg) |>
  <| D_ConsumerFetchMaxPartitionBytes := env_int32 (getenv "KAFKA_BATCH_CONSUMER_FETCH_MAX_PARTITION_BYTES") (D_ConsumerFetchMaxPartitionBytes cfg) |>
  <| D_ConsumerFetchMaxWait := env_millis (getenv "KAFKA_BATCH_CONSUMER_FETCH_MAX_WAIT_MS") (D_ConsumerFetchMaxWait cfg) |>
  <| D_ConsumerStallTimeout := env_seconds (getenv "KAFKA_BATCH_CONSUMER_STALL_TIMEOUT") (D_ConsumerStallTimeout cfg) |>.

(** ** Prefixes *)

Definition HasPrefix (s p : string) : bool := String.prefix p s.

Definition prefixName (prefix name : string) : string :=
  if HasPrefix name prefix then name else prefix +:+ name.

Definition prefixTopics (c : Daemon) : Daemon :=
  if String.eqb (D_TopicPrefix c) "" then c
  else
    let p := D_TopicPrefix c +:+ "." in
    c
    <| D_EventsTopic := prefixName p (D_EventsTopic c) |>
    <| D_CallbacksTopic := prefixName p (D_CallbacksTopic c) |>
    <| D_DeadLetterTopic := prefixName p (D_DeadLetterTopic c) |>
    <| D_RetryTopicBase := prefixName p (D_RetryTopicBase c) |>
    <| D_ScheduledTopic := prefixName p (D_ScheduledTopic c) |>
    <| D_FairnessTimeIngest := prefixName p (D_FairnessTimeIngest c) |>
    <| D_FairnessTimeReadyGo := prefixName p (D_FairnessTimeReadyGo c) |>
    <| D_FairnessTimeReadyRuby := prefixName p (D_FairnessTimeReadyRuby c) |>
    <| D_FairnessThroughputIngest := prefixName p (D_FairnessThroughputIngest c) |>
    <| D_FairnessThroughputReadyGo := prefixName p (D_FairnessThroughputReadyGo c) |>
    <| D_FairnessThroughputReadyRuby := prefixName p (D_FairnessThroughputReadyRuby c) |>
    <| D_JobsTopics := prefixName p <$> D_JobsTopics c |>
    <| D_ConsumerGroup := if HasPrefix (D_ConsumerGroup c) (D_TopicPrefix c) then D_ConsumerGroup c
                          else D_TopicPrefix c +:+ "." +:+ D_ConsumerGroup c |>.

Definition applyEnv (getenv : string -> string) (cfg : Daemon) : Daemon :=
  prefixTopics (env_second getenv (env_first getenv cfg)).

(** ** References to the environment in the file *)

Definition is_letter (c : Ascii.ascii) : bool :=
  let n := Ascii.nat_of_ascii c in
  (((65 <=? n) && (n <=? 90)) || ((97 <=? n) && (n <=? 122)) || (n =? 95))%nat.
Definition is_name_char (c : Ascii.ascii) : bool :=
  let n := Ascii.nat_of_ascii c in is_letter c || ((48 <=? n) && (n <=? 57))%nat.

(** The longest run of such characters, and the rest. *)
Fixpoint span (ok : Ascii.ascii -> bool) (s : string) : string * string :=
  match s with
  | String c r => if ok c then let '(a, b) := span ok r in (String c a, b) else (EmptyString, s)
  | EmptyString => (EmptyString, EmptyString)
  end.

(** A reference at the start of a text, after its dollar sign: the name, the
    default and what follows. *)
Definition envRef (s : string) : option (string * string * string) :=
  match s with
  | String b (String c r) =>
      if is_char 123 b && is_letter c then
        let '(name, r) := span is_name_char (String c r) in
        match r with
        | String d r' =>
            if is_char 125 d then Some (name, "", r')
            else match r' with
            | String e r'' =>
                if is_char 58 d && is_char 45 e then
                  let '(def, r) := span (fun c => negb (is_char 125 c)) r'' in
                  match r with String _ r => Some (name, def, r) | EmptyString => None end
                else None
            | EmptyString => None
            end
        | EmptyString => None
        end
      else None
  | _ => None
  end.

(** Every step uses up a character; the length of the text is enough. *)
Fixpoint expand (lookup : string -> option string) (fuel : nat) (s : string) : string :=
  match fuel, s with
  | O, _ => s
  | S _, EmptyString => EmptyString
  | S fuel, String c r =>
      match (if is_char 36 c then envRef r else None) with
      | Some (name, def, r) => default def (lookup name) +:+ expand lookup fuel r
      | None => String c (expand lookup fuel r)
      end
  end.

Definition ExpandEnv (lookup : string -> option string) (s : string) : string := expand lookup (String.length s) s.

(** ** Loading *)

(** os.Getenv: empty when the variable is not set. *)
Definition Getenv (lookup : string -> option string) (k : string) : string := default "" (lookup k).

Definition LoadDaemon (hostname : string) (lookup : string -> option string) (read : string -> result string)
    (yaml : string -> result DaemonDoc) (path : string) : Daemon * error :=
  let cfg := DefaultDaemon hostname in
  if String.eqb path "" then (applyEnv (Getenv lookup) cfg, None)
  else match read path with
  | Bad e => (cfg, Some e)
  | Ok raw =>
      match yaml (ExpandEnv lookup raw) with
      | Bad e => (cfg, Some e)
      | Ok doc => (prefixTopics (applyEnv (Getenv lookup) (apply_doc doc cfg)), None)
      end
  end.
End environment.

(** The name of the node: HOSTNAME before the host's own. *)
Definition hostname (own : result string) (lookup : string -> option string) (pid : Z) : string :=
  let h := match own with Ok h => or_text h "kbatch-daemon" | Bad _ => "kbatch-daemon" end in
  or_text (Getenv lookup "HOSTNAME") h +:+ "#" +:+ itoa pid.

(** ** Reading the configuration *)

Definition RequiredAcks (c : Daemon) : string := or_text (D_ProducerRequiredAcks c) "all_isr".
Definition members (n : Z) : Z := if n <? 1 then 1 else n.
Definition JobsConsumerMembers (c : Daemon) : Z := members (D_JobsConsumerConcurrency c).
Definition FairReadyConsumerMembers (c : Daemon) : Z := members (D_FairReadyConsumerConcurrency c).
Definition PriorityConsumerMembers (c : Daemon) : Z := members (D_PriorityConsumerConcurrency c).

Definition NormalizedExecutionMode (c : Daemon) : string :=
  or_text (ToLower (TrimSpace (D_ExecutionMode c))) ExecutionModeSuperFetch.
Definition WatermarkMode (c : Daemon) : bool := String.eqb (NormalizedExecutionMode c) ExecutionModeWatermark.

Definition ValidateExecutionMode (c : Daemon) : error :=
  let m := NormalizedExecutionMode c in
  if String.eqb m ExecutionModeSuperFetch || String.eqb m ExecutionModeWatermark then None
  else Some ("invalid execution_mode " +:+ D_ExecutionMode c).

Definition RetryTopic (c : Daemon) (tier : string) : string := D_RetryTopicBase c +:+ "." +:+ tier.

(** The order of sort.Strings. *)
Definition text_le (a b : string) : Prop := String.leb a b = true.
#[export] Instance text_le_dec (a b : string) : Decision (text_le a b).
Proof. unfold text_le. solve_decision. Defined.

Definition RetryTopics (c : Daemon) : list string :=
  merge_sort text_le (RetryTopic c <$> (map_to_list (D_RetryTiers c)).*1).

Definition ControlPlaneTopics (c : Daemon) : gset string :=
  list_to_set (filter (fun t => t <> "")
    ([D_EventsTopic c; D_CallbacksTopic c; D_DeadLetterTopic c; D_ScheduledTopic c; D_FairnessTimeIngest c;
      D_FairnessThroughputIngest c] ++ RetryTopics c)).

Definition SuperFetchWorkers (c : Daemon) : Z :=
  if D_SuperFetchConcurrency c <? 1 then 10 else D_SuperFetchConcurrency c.
Definition or_default (d def : Z) : Z := if d <=? 0 then def else d.
Definition SuperFetchDrainTimeoutDuration (c : Daemon) : Z := or_default (D_SuperFetchDrainTimeout c) (sec 30).
Definition SuperFetchClaimWindowSize (c : Daemon) : Z :=
  if SuperFetchWorkers c <=? D_SuperFetchClaimWindow c then D_SuperFetchClaimWindow c else int64 (SuperFetchWorkers c * 2).
Definition LivenessTTLDuration (c : Daemon) : Z := or_default (D_LivenessTTL c) (sec 180).
Definition LivenessHeartbeatIntervalDuration (c : Daemon) : Z := or_default (D_LivenessHeartbeatInterval c) (sec 20).
Definition ConsumerStallTimeoutDuration (c : Daemon) : Z := or_default (D_ConsumerStallTimeout c) (sec 90).

Record ConsumerFetchSettings := mkFetch { MaxBytes : Z; MaxPartitionBytes : Z; MaxWait : Z }.

Definition FetchSettings (c : Daemon) : ConsumerFetchSettings :=
  mkFetch (or_pos (D_ConsumerFetchMaxBytes c) DefaultConsumerFetchMaxBytes)
    (or_pos (D_ConsumerFetchMaxPartitionBytes c) DefaultConsumerFetchMaxPartitionBytes)
    (or_pos (D_ConsumerFetchMaxWait c) DefaultConsumerFetchMaxWait).

(** The consumer groups *)
Definition GoWorkerJobsGroup (c : Daemon) : string := D_ConsumerGroup c +:+ "-go-worker-jobs".
Definition GoWorkerPriorityGroup (c : Daemon) (suffix : string) : string := D_ConsumerGroup c +:+ "-go-worker-" +:+ suffix.
Definition DispatchConsumerGroup (c : Daemon) (lane : string) : string := D_ConsumerGroup c +:+ "-dispatch-" +:+ lane.
Definition JobsFairConsumerGroup (c : Daemon) (lane : string) : string := D_ConsumerGroup c +:+ "-jobs-fair-" +:+ lane.
Definition GoWorkerFairReadyGroup (c : Daemon) (lane : string) : string :=
  D_ConsumerGroup c +:+ "-go-worker-fair-ready-" +:+ lane.

(** The settings of a lane's scheduler, with its group and its topic. *)
Definition lane_settings (c : Daemon) : Settings :=
  let s := DefaultSettings in
  mkSettings (or_pos (D_FairnessReadyWindow c) (ReadyWindow s))
    (or_pos (D_FairnessGlobalConcurrency c) (GlobalConcurrency s))
    (D_FairnessMaxInflightPerTenant c) (or_posQ (D_FairnessLeaseTTL c) (LeaseTTL s))
    (or_posQ (D_FairnessDefaultWeight c) (DefaultWeight s)) (D_FairnessWeightedConcurrency c)
    (or_pos (D_FairnessActiveCountTTL c) (ActiveCountTTL s)) (D_FairnessActiveCountSource c)
    (ForwardingRecoveryGrace s) (SlotDedupTTL s) (WeightCacheTTL s) (D_FairnessResetVtimeWhenIdle c)
    (or_pos (D_FairnessVtimeIdleResetDebounce c) (VtimeIdleResetDebounce s)).

Definition FairnessTimeSettings (c : Daemon) : Settings * (string * string) :=
  (lane_settings c, (DispatchConsumerGroup c "time", D_FairnessTimeIngest c)).
Definition FairnessThroughputSettings (c : Daemon) : Settings * (string * string) :=
  (lane_settings c, (DispatchConsumerGroup c "throughput", D_FairnessThroughputIngest c)).

(** The ready topics of a lane *)
Definition RuntimeGo : string := "go".
Definition RuntimeRuby : string := "ruby".
Record FairnessReadyTopics := mkReady { Ready_Go : string; Ready_Ruby : string }.

Definition FairReadyTopics (c : Daemon) (lane : string) : FairnessReadyTopics :=
  if String.eqb (ToLower lane) "throughput"
  then mkReady (D_FairnessThroughputReadyGo c) (D_FairnessThroughputReadyRuby c)
  else mkReady (D_FairnessTimeReadyGo c) (D_FairnessTimeReadyRuby c).

Definition both (a b : string) : bool := negb (String.eqb a "") && negb (String.eqb b "").

Definition RuntimeSplitFairReady (c : Daemon) (lane : string) : bool :=
  let l := ToLower lane in
  if String.eqb l "throughput" then both (D_FairnessThroughputReadyGo c) (D_FairnessThroughputReadyRuby c)
  else if String.eqb l "time" || String.eqb l "" then both (D_FairnessTimeReadyGo c) (D_FairnessTimeReadyRuby c)
  else false.

Definition FairReadyForRuntime (c : Daemon) (lane runtime : string) : string :=
  let rt := ToLower (TrimSpace runtime) in
  if String.eqb rt RuntimeGo then Ready_Go (FairReadyTopics c lane)
  else if String.eqb rt RuntimeRuby then Ready_Ruby (FairReadyTopics c lane) else "".

(** ** Validation *)

Definition ValidateMySQLConfig (c : Daemon) : error :=
  if D_SchedulePollerEnabled c && EqualFold (TrimSpace (D_ScheduleStore c)) "mysql"
     && String.eqb (TrimSpace (D_ScheduleMySQLDSN c)) ""
  then Some "schedule_mysql_dsn is required when schedule_poller_enabled and schedule_store is mysql"
  else if EqualFold (TrimSpace (D_Store c)) "mysql" && String.eqb (TrimSpace (D_StoreMySQLDSN c)) ""
  then Some "store_mysql_dsn is required when store is mysql"
  else None.

Definition ValidateRetryConsumers (c : Daemon) : error :=
  if String.eqb (TrimSpace (D_RetryTopicBase c)) "" then Some "retry_topic is required for retry consumers"
  else if bool_decide (D_RetryTiers c = ∅) then Some "retry_tiers must define at least one tier"
  else match filter (fun e => e.2 < 0) (map_to_list (D_RetryTiers c)) with
  | [] => None
  | (tier, _) :: _ => Some ("retry_tiers." +:+ tier +:+ " must be a non-negative delay in seconds")
  end.

(** ** Manifests *)

Definition Manifest : Type := list (string * HandlerEntry).

Definition with_topic (h : HandlerEntry) (t : string) : HandlerEntry :=
  mkHandlerEntry (HE_Runtime h) (HE_WorkerClass h) t (HE_ApplyTopicPrefix h) (HE_MaxRetries h) (HE_RetryTier h)
    (HE_FairnessType h) (HE_Uniq h).

Definition prefix_entry (topicPrefix : string) (h : HandlerEntry) : HandlerEntry :=
  if negb (String.eqb (HE_Topic h) "") && HE_ApplyTopicPrefix h && negb (String.eqb topicPrefix "")
     && negb (HasPrefix (HE_Topic h) (topicPrefix +:+ "."))
  then with_topic h (topicPrefix +:+ "." +:+ HE_Topic h) else h.

Definition LoadManifest (read : string -> result string) (yaml : string -> result Manifest) (path topicPrefix : string)
    : Manifest * error :=
  if String.eqb path "" then ([], None)
  else match read path with
  | Bad e => ([], Some e)
  | Ok raw => match yaml raw with
              | Bad e => ([], Some e)
              | Ok m => (prod_map id (prefix_entry topicPrefix) <$> m, None)
              end
  end.

Definition fairnessLane (s : string) : string :=
  let s := ToLower (TrimSpace s) in if String.eqb s "time" || String.eqb s "throughput" then s else "".

Definition plain (h : HandlerEntry) : bool := String.eqb (fairnessLane (HE_FairnessType h)) "".
Definition runtime_of (h : HandlerEntry) : string := ToLower (TrimSpace (HE_Runtime h)).
Definition topic_of (defaultTopic : string) (h : HandlerEntry) : string := or_text (HE_Topic h) defaultTopic.

(** The topics of the handlers of a list that are kept, each once. *)
Fixpoint distinct_topics (keep : HandlerEntry -> bool) (defaultTopic : string) (seen : gset string) (hs : Manifest)
    : list string :=
  match hs with
  | [] => []
  | (_, h) :: hs =>
      let t := topic_of defaultTopic h in
      if negb (keep h) || bool_decide (t ∈ seen) then distinct_topics keep defaultTopic seen hs
      else t :: distinct_topics keep defaultTopic ({[t]} ∪ seen) hs
  end.

Definition jobTopics (m : Manifest) (defaultTopic : string) (includeRuby goOnly : bool) : list string :=
  distinct_topics (fun h =>
    plain h &&
    (if goOnly then String.eqb (runtime_of h) RuntimeGo
     else String.eqb (runtime_of h) RuntimeGo || (includeRuby && String.eqb (runtime_of h) RuntimeRuby)))
    defaultTopic ∅ m.
Definition JobTopics (m : Manifest) (defaultTopic : string) (includeRuby : bool) : list string :=
  jobTopics m defaultTopic includeRuby false.
Definition JobTopicsGo (m : Manifest) (defaultTopic : string) : list string := jobTopics m defaultTopic false true.
Definition JobTopicsForRuntime (m : Manifest) (runtime defaultTopic : string) : list string :=
  distinct_topics (fun h => String.eqb (runtime_of h) (ToLower (TrimSpace runtime)) && plain h) defaultTopic ∅ m.

Definition HasRubyHandlers (m : Manifest) : bool := existsb (fun e => EqualFold (HE_Runtime e.2) "ruby") m.
Definition HasGoHandlers (m : Manifest) : bool := existsb (fun e => EqualFold (HE_Runtime e.2) "go") m.

Definition find_type (m : Manifest) (jobType : string) : option HandlerEntry :=
  snd <$> find (fun e => String.eqb e.1 jobType) m.

Definition ResolveJobType (m : Manifest) (name : string) : option string :=
  let name := TrimSpace name in
  if String.eqb name "" then None
  else match find_type m name with
  | Some _ => Some name
  | None => fst <$> find (fun e => String.eqb (HE_WorkerClass e.2) name) m
  end.

Definition JobTypes (m : Manifest) : list string := merge_sort text_le m.*1.
Definition RuntimeFor (m : Manifest) (jobType : string) : string :=
  match find_type m jobType with Some h => runtime_of h | None => "" end.

Definition own_topic (defaultTopic : string) (owners : gmap string string) (e : string * HandlerEntry) : gmap string string :=
  if negb (plain e.2) || String.eqb (runtime_of e.2) "" then owners
  else <[topic_of defaultTopic e.2 := runtime_of e.2]> owners.

Definition TopicRuntime (m : Manifest) (topic defaultTopic : string) : string :=
  default "" (foldl (own_topic defaultTopic) ∅ m !! TrimSpace topic).

Definition FilterTopicsForRuntime (m : Manifest) (runtime : string) (topics : list string) (defaultTopic : string)
    : list string :=
  filter (fun t => TopicRuntime m t defaultTopic = ToLower (TrimSpace runtime)) topics.

Definition HasFairHandlersForRuntime (m : Manifest) (runtime lane : string) : bool :=
  existsb (fun e => String.eqb (fairnessLane (HE_FairnessType e.2)) lane
                    && String.eqb (runtime_of e.2) (ToLower (TrimSpace runtime))) m.

Definition split_error (lane : string) : string :=
  "hybrid fairness on " +:+ lane +:+ " lane requires split ready topics".

Definition ValidateFairReadySplit (c : Daemon) (m : Manifest) : error :=
  if negb (D_FairnessEnabled c) then None
  else match filter (fun lane => HasFairHandlersForRuntime m RuntimeGo lane && HasFairHandlersForRuntime m RuntimeRuby lane
                                 && negb (RuntimeSplitFairReady c lane) = true) ["time"; "throughput"] with
  | [] => None
  | lane :: _ => Some (split_error lane)
  end.

Inductive routingError := SharedTopic (topic prev rt : string) | MissingRuntime (jobType : string).

Fixpoint check_topics (defaultTopic : string) (owners : gmap string string) (hs : Manifest) : option routingError :=
  match hs with
  | [] => None
  | (jobType, h) :: hs =>
      if negb (plain h) then check_topics defaultTopic owners hs
      else
        let t := topic_of defaultTopic h in
        let rt := runtime_of h in
        match owners !! t with
        | Some prev => if String.eqb prev rt
                       then if String.eqb rt "" then Some (MissingRuntime jobType)
                            else check_topics defaultTopic (<[t := rt]> owners) hs
                       else Some (SharedTopic t prev rt)
        | None => if String.eqb rt "" then Some (MissingRuntime jobType)
                  else check_topics defaultTopic (<[t := rt]> owners) hs
        end
  end.

Definition ValidateTopicRuntimeExclusivity (m : Manifest) (defaultTopic : string) : option routingError :=
  check_topics defaultTopic ∅ m.
Definition ValidateRouting (m : Manifest) (defaultTopic : string) : option routingError :=
  ValidateTopicRuntimeExclusivity m defaultTopic.

(** [registered] is the lookup of kbatch.Register. *)
Definition ValidateGoHandlersRegistered (registered : string -> bool) (m : Manifest) : option string :=
  fst <$> find (fun e => String.eqb (runtime_of e.2) RuntimeGo && negb (registered e.1)) m.

Definition Validate (registered : string -> bool) (m : Manifest) (defaultTopic : string) : option (routingError + string) :=
  match ValidateRouting m defaultTopic with
  | Some e => Some (inl e)
  | None => inr <$> ValidateGoHandlersRegistered registered m
  end.
