(* ===== verification/DaemonConfigProps.v ===== *)
(** The properties of the configuration: prefixes are put on once, fetch limits
    stay in range, references are replaced, and a manifest that is accepted gives
    every topic one runtime. *)
From S2P Require Import Prelude Cron Redis Client Protocol Fairness Concrete Enqueue Job DaemonConfig.

(** ** Prefixes *)

Lemma prefix_app (p s : string) : String.prefix p (p +:+ s) = true.
Proof.
  induction p as [|c p IH]; [by destruct s|]. change (String c p +:+ s) with (String c (p +:+ s)). cbn.
  destruct (Ascii.ascii_dec c c); [exact IH|congruence].
Qed.

Lemma prefix_exact (p s : string) : String.prefix p s = true -> exists rest, s = p +:+ rest.
Proof.
  revert s. induction p as [|c p IH]; intros s; [by exists s|]. destruct s as [|d s]; [done|]. cbn.
  destruct (Ascii.ascii_dec c d) as [->|]; [|done]. intros [rest ->]%IH. by exists rest.
Qed.

Lemma prefixName_prefixed (p n : string) : HasPrefix (prefixName p n) p = true.
Proof. unfold prefixName, HasPrefix. destruct (String.prefix p n) eqn:E; [done|apply prefix_app]. Qed.

Lemma prefixName_idem (p n : string) : prefixName p (prefixName p n) = prefixName p n.
Proof. unfold prefixName at 1. by rewrite prefixName_prefixed. Qed.

Lemma prefixNames_idem (p : string) (l : list string) : prefixName p <$> (prefixName p <$> l) = prefixName p <$> l.
Proof. rewrite <- list_fmap_compose. apply list_fmap_ext. intros i t _. apply prefixName_idem. Qed.

Lemma group_prefixed (p g : string) :
  String.prefix p (if HasPrefix g p then g else p +:+ "." +:+ g) = true.
Proof. destruct (HasPrefix g p) eqn:E; [done|apply prefix_app]. Qed.

(** The topics the prefix is for. *)
Definition topics_of (c : Daemon) : list string :=
  [D_EventsTopic c; D_CallbacksTopic c; D_DeadLetterTopic c; D_RetryTopicBase c; D_ScheduledTopic c;
   D_FairnessTimeIngest c; D_FairnessTimeReadyGo c; D_FairnessTimeReadyRuby c; D_FairnessThroughputIngest c;
   D_FairnessThroughputReadyGo c; D_FairnessThroughputReadyRuby c] ++ D_JobsTopics c.

Lemma prefixTopics_prefix (c : Daemon) : D_TopicPrefix (prefixTopics c) = D_TopicPrefix c.
Proof. unfold prefixTopics. by destruct (String.eqb _ _). Qed.

Lemma prefixTopics_topics (c : Daemon) : D_TopicPrefix c <> "" ->
  topics_of (prefixTopics c) = prefixName (D_TopicPrefix c +:+ ".") <$> topics_of c.
Proof. intros Hp. unfold prefixTopics. by rewrite (proj2 (String.eqb_neq _ _) Hp). Qed.

(** Computes the fields of updated records and nothing else. *)
Ltac fields_of := lazy -[prefixName HasPrefix String.eqb String.append fmap list_fmap].

Lemma prefixTopics_idem (c : Daemon) : prefixTopics (prefixTopics c) = prefixTopics c.
Proof.
  destruct (String.eqb_spec (D_TopicPrefix c) "") as [E|Hp].
  { unfold prefixTopics at 2. rewrite (proj2 (String.eqb_eq _ _) E). done. }
  unfold prefixTopics at 1. rewrite prefixTopics_prefix, (proj2 (String.eqb_neq _ _) Hp).
  unfold prefixTopics. rewrite (proj2 (String.eqb_neq _ _) Hp). clear Hp. destruct c. fields_of.
  rewrite !prefixName_idem, prefixNames_idem. unfold HasPrefix at 1. rewrite group_prefixed. reflexivity.
Qed.

(** The configuration before the prefix: the defaults, the file and the
    environment. *)
Definition unprefixed `{NumText} (host : string) (lookup : string -> option string) (read : string -> result string)
    (yaml : string -> result DaemonDoc) (path : string) : option Daemon :=
  let env c := env_second (Getenv lookup) (env_first (Getenv lookup) c) in
  if String.eqb path "" then Some (env (DefaultDaemon host))
  else match read path with
  | Bad _ => None
  | Ok raw => match yaml (ExpandEnv lookup raw) with
              | Bad _ => None
              | Ok doc => Some (env (apply_doc doc (DefaultDaemon host)))
              end
  end.

Lemma LoadDaemon_unprefixed `{NumText} (host : string) lookup read yaml (path : string) (c : Daemon) :
  LoadDaemon host lookup read yaml path = (c, None) ->
  exists b, unprefixed host lookup read yaml path = Some b /\ c = prefixTopics b.
Proof.
  unfold LoadDaemon, unprefixed. destruct (String.eqb path ""); [intros [= <-]; eauto|].
  destruct (read path) as [raw|e]; [|done]. destruct (yaml _) as [doc|e]; [|done].
  intros [= <-]. eexists. split; [done|]. apply prefixTopics_idem.
Qed.

(** A configuration that loads has every topic name of the defaults, the file
    and the environment under the topic prefix, put on once although the loader
    applies it twice: a name that starts with the prefix already is left as it is,
    and applying the prefix to the result again changes nothing. *)
Theorem LoadDaemon_prefixes `{NumText} (host : string) lookup read yaml (path : string) (c b : Daemon) :
  LoadDaemon host lookup read yaml path = (c, None) -> unprefixed host lookup read yaml path = Some b ->
  D_TopicPrefix c <> "" ->
  topics_of c = prefixName (D_TopicPrefix c +:+ ".") <$> topics_of b
  /\ Forall (fun t => HasPrefix t (D_TopicPrefix c +:+ ".") = true) (topics_of c)
  /\ prefixTopics c = c.
Proof.
  intros Hl Hb Hp. destruct (LoadDaemon_unprefixed _ _ _ _ _ _ Hl) as (b' & Hb' & ->). rewrite Hb in Hb'. injection Hb' as <-.
  rewrite prefixTopics_prefix in *. rewrite prefixTopics_topics by done. split_and!; [done| |apply prefixTopics_idem].
  apply Forall_fmap, Forall_true. intros t. apply prefixName_prefixed.
Qed.

Definition staging (k : string) : option string := if String.eqb k "KAFKA_PREFIX" then Some "staging" else None.

Definition staged : Daemon := (LoadDaemon "h" staging (fun _ => Ok "") (fun _ => Ok empty_doc) "daemon.yml").1.
Definition unstaged : Daemon :=
  env_second (Getenv staging) (env_first (Getenv staging) (apply_doc empty_doc (DefaultDaemon "h"))).

Lemma LoadDaemon_prefixes_witness :
  D_EventsTopic staged = "staging.kafka_batch.events"
  /\ topics_of staged = prefixName (D_TopicPrefix staged +:+ ".") <$> topics_of unstaged
  /\ Forall (fun t => HasPrefix t (D_TopicPrefix staged +:+ ".") = true) (topics_of staged)
  /\ prefixTopics staged = staged.
Proof.
  split; [vm_compute; reflexivity|].
  apply (LoadDaemon_prefixes "h" staging (fun _ => Ok "") (fun _ => Ok empty_doc) "daemon.yml" staged unstaged).
  - vm_compute. reflexivity.
  - vm_compute. reflexivity.
  - vm_compute. discriminate.
Defined.

(** ** References to the environment *)

(** A text without a dollar sign. *)
Fixpoint no_dollar (s : string) : bool :=
  match s with EmptyString => true | String c s => negb (is_char 36 c) && no_dollar s end.

Lemma span_length (ok : Ascii.ascii -> bool) (s a b : string) :
  span ok s = (a, b) -> (String.length b <= String.length s)%nat.
Proof.
  induction s as [|c s IH] in a, b |- *; cbn; [by intros [= <- <-]|].
  destruct (ok c); [|by intros [= <- <-]]. destruct (span ok s) as [a' b'] eqn:E. intros [= <- <-].
  specialize (IH _ _ eq_refl). lia.
Qed.

Lemma envRef_length (s name def r : string) : envRef s = Some (name, def, r) -> (String.length r < String.length s)%nat.
Proof.
  unfold envRef. destruct s as [|b [|c s]]; try done. destruct (is_char 123 b && is_letter c); [|done].
  destruct (span is_name_char (String c s)) as [n r1] eqn:E. apply span_length in E. cbn in E.
  destruct r1 as [|d r1]; [done|]. destruct (is_char 125 d); [intros [= <- <- <-]; cbn in *; lia|].
  destruct r1 as [|e r2]; [done|]. destruct (is_char 58 d && is_char 45 e); [|done].
  destruct (span _ r2) as [df r3] eqn:E2. apply span_length in E2. destruct r3 as [|f r3]; [done|].
  intros [= <- <- <-]. cbn in *. lia.
Qed.

(** The length of the text is fuel enough. *)
Lemma expand_enough (lookup : string -> option string) (n m : nat) (s : string) :
  (String.length s <= n)%nat -> (String.length s <= m)%nat -> expand lookup n s = expand lookup m s.
Proof.
  induction n as [|n IH] in m, s |- *; intros Hn Hm.
  { destruct s; [by destruct m|cbn in Hn; lia]. }
  destruct s as [|c s]; [by destruct m|]. cbn in Hn, Hm. destruct m as [|m]; [lia|]. cbn.
  destruct (is_char 36 c).
  - destruct (envRef s) as [[[name def] r]|] eqn:E.
    + apply envRef_length in E. f_equal. apply IH; lia.
    + f_equal. apply IH; lia.
  - f_equal. apply IH; lia.
Qed.

Lemma string_app_cons (c : Ascii.ascii) (a b : string) : String c a +:+ b = String c (a +:+ b).
Proof. done. Qed.

Lemma string_app_nil (s : string) : "" +:+ s = s.
Proof. done. Qed.

Lemma ExpandEnv_cons (lookup : string -> option string) (c : Ascii.ascii) (s : string) :
  is_char 36 c = false -> ExpandEnv lookup (String c s) = String c (ExpandEnv lookup s).
Proof. intros E. unfold ExpandEnv. cbn. by rewrite E. Qed.

Lemma ExpandEnv_plain (lookup : string -> option string) (a s : string) :
  no_dollar a = true -> ExpandEnv lookup (a +:+ s) = a +:+ ExpandEnv lookup s.
Proof.
  induction a as [|c a IH]; cbn; [done|]. intros [Hc Ha]%andb_prop. apply negb_true_iff in Hc.
  rewrite !string_app_cons, ExpandEnv_cons by done. by rewrite IH.
Qed.

(** A variable's name. *)
Definition is_name (s : string) : bool :=
  match s with
  | EmptyString => false
  | String c r => is_letter c && String.eqb (span is_name_char r).2 ""
  end.

Lemma letter_is_name_char (c : Ascii.ascii) : is_letter c = true -> is_name_char c = true.
Proof. unfold is_name_char. by intros ->. Qed.

Lemma span_all (ok : Ascii.ascii -> bool) (a : string) (d : Ascii.ascii) (s : string) :
  (span ok a).2 = "" -> ok d = false -> span ok (a +:+ String d s) = (a, String d s).
Proof.
  intros Ha Hd. induction a as [|c a IH]; cbn in Ha; [rewrite string_app_nil; cbn; by rewrite Hd|].
  rewrite string_app_cons. cbn. destruct (ok c); [|done]. destruct (span ok a) as [x y]. cbn in *.
  by rewrite IH.
Qed.

Definition braced (name : string) : string := String (Ascii.ascii_of_nat 36) (String (Ascii.ascii_of_nat 123) name).
Definition close : Ascii.ascii := Ascii.ascii_of_nat 125.

Lemma envRef_name (name s : string) : is_name name = true ->
  envRef (String (Ascii.ascii_of_nat 123) (name +:+ String close s)) = Some (name, "", s).
Proof.
  destruct name as [|c r]; [done|]. cbn [is_name]. intros [Hc Hr]%andb_prop. apply String.eqb_eq in Hr.
  rewrite string_app_cons. unfold envRef. rewrite Hc. change (is_char 123 (Ascii.ascii_of_nat 123)) with true. cbn [andb].
  rewrite <- string_app_cons. rewrite (span_all _ (String c r) close).
  - by change (is_char 125 close) with true.
  - cbn. rewrite letter_is_name_char by done. by destruct (span is_name_char r).
  - done.
Qed.

Lemma ExpandEnv_dollar (lookup : string -> option string) (s name def r : string) : envRef s = Some (name, def, r) ->
  ExpandEnv lookup (String (Ascii.ascii_of_nat 36) s) = default def (lookup name) +:+ ExpandEnv lookup r.
Proof.
  intros E. unfold ExpandEnv at 1. cbn [String.length expand]. change (is_char 36 (Ascii.ascii_of_nat 36)) with true.
  cbn match. rewrite E. f_equal. apply envRef_length in E. apply expand_enough; lia.
Qed.

(** A reference is replaced by the variable's value, or by nothing when it is
    not set; the value itself is not looked into, the text before it is kept and
    the text after it is expanded in its turn. *)
Theorem ExpandEnv_reference (lookup : string -> option string) (before name after : string) :
  no_dollar before = true -> is_name name = true ->
  ExpandEnv lookup (before +:+ braced (name +:+ String close after))
  = before +:+ default "" (lookup name) +:+ ExpandEnv lookup after.
Proof.
  intros Hb Hn. rewrite ExpandEnv_plain by done. f_equal. by apply ExpandEnv_dollar, envRef_name.
Qed.

(** ** Limits of a fetch *)

Lemma int32_range (z : Z) : -2147483648 <= int32 z <= 2147483647.
Proof. unfold int32. pose proof (Z.mod_pos_bound (z + 2147483648) 4294967296 ltac:(lia)). lia. Qed.

Lemma or_pos_range (v d m : Z) : v <= m -> 0 < d <= m -> 0 < or_pos v d <= m.
Proof. unfold or_pos. intros. destruct (Z.ltb_spec 0 v); lia. Qed.

Lemma env_int32_range (v : string) (old : Z) : old <= 2147483647 -> env_int32 v old <= 2147483647.
Proof.
  intros Ho. unfold env_int32. destruct (String.eqb v ""); [done|]. destruct (parsePositiveInt v) as [n|]; [|done].
  apply (int32_range n).
Qed.

Lemma env_fetch `{NumText} (getenv : string -> string) (c : Daemon) :
  let c' := applyEnv getenv c in
  D_ConsumerFetchMaxBytes c' = env_int32 (getenv "KAFKA_BATCH_CONSUMER_FETCH_MAX_BYTES") (D_ConsumerFetchMaxBytes c)
  /\ D_ConsumerFetchMaxPartitionBytes c'
     = env_int32 (getenv "KAFKA_BATCH_CONSUMER_FETCH_MAX_PARTITION_BYTES") (D_ConsumerFetchMaxPartitionBytes c).
Proof. cbv zeta. unfold applyEnv, prefixTopics. by destruct (String.eqb _ _). Qed.

Lemma doc_fetch (doc : DaemonDoc) (c : Daemon) :
  D_ConsumerFetchMaxBytes (apply_doc doc c) = or_pos (Y_ConsumerFetchMaxBytes doc) (D_ConsumerFetchMaxBytes c)
  /\ D_ConsumerFetchMaxPartitionBytes (apply_doc doc c)
     = or_pos (Y_ConsumerFetchMaxPartitionBytes doc) (D_ConsumerFetchMaxPartitionBytes c).
Proof. done. Qed.

(** The limits given to the Kafka client are positive and fit their 32 bits,
    whatever the file and the environment say. *)
Theorem fetch_limits_fit `{NumText} (getenv : string -> string) (doc : DaemonDoc) (host : string) :
  Y_ConsumerFetchMaxBytes doc <= 2147483647 -> Y_ConsumerFetchMaxPartitionBytes doc <= 2147483647 ->
  let f := FetchSettings (applyEnv getenv (apply_doc doc (DefaultDaemon host))) in
  0 < MaxBytes f <= 2147483647 /\ 0 < MaxPartitionBytes f <= 2147483647.
Proof.
  intros H1 H2 f. subst f. unfold FetchSettings. cbn [MaxBytes MaxPartitionBytes].
  destruct (env_fetch getenv (apply_doc doc (DefaultDaemon host))) as [-> ->].
  destruct (doc_fetch doc (DefaultDaemon host)) as [-> ->].
  split; (apply or_pos_range; [|done]); apply env_int32_range, or_pos_range; done.
Qed.

(** ** What the file cannot say *)

(** A limit of four gigabytes and one byte is taken as one byte. *)
Theorem fetch_limit_wraps : env_int32 "4294967297" DefaultConsumerFetchMaxBytes = 1.
Proof. vm_compute. reflexivity. Qed.

(** The weights of concurrency cannot be turned off: false is what a file that
    says nothing gives. *)
Theorem weighted_concurrency_stays_on `{NumText} (host : string) lookup read yaml (path : string) (c : Daemon) :
  LoadDaemon host lookup read yaml path = (c, None) -> D_FairnessWeightedConcurrency c = true.
Proof.
  intros (b & Hb & ->)%LoadDaemon_unprefixed.
  assert (D_FairnessWeightedConcurrency (prefixTopics b) = D_FairnessWeightedConcurrency b) as ->.
  { unfold prefixTopics. by destruct (String.eqb _ _). }
  revert Hb. unfold unprefixed. destruct (String.eqb path ""); [by intros [= <-]|].
  destruct (read path) as [raw|e]; [|done]. destruct (yaml _) as [doc|e]; [|done].
  intros [= <-]. apply orb_true_r.
Qed.

(** Zero, the release by hand only, cannot be set: the release stays automatic. *)
Theorem release_is_automatic `{NumText} (host : string) lookup read yaml (path : string) (c : Daemon) :
  LoadDaemon host lookup read yaml path = (c, None) -> 0 < D_TenantGuardAutoReleaseSeconds c.
Proof.
  intros (b & Hb & ->)%LoadDaemon_unprefixed.
  assert (D_TenantGuardAutoReleaseSeconds (prefixTopics b) = D_TenantGuardAutoReleaseSeconds b) as ->.
  { unfold prefixTopics. by destruct (String.eqb _ _). }
  revert Hb. unfold unprefixed. destruct (String.eqb path ""); [by intros [= <-]|].
  destruct (read path) as [raw|e]; [|done]. destruct (yaml _) as [doc|e]; [|done].
  intros [= <-]. change (0 < or_pos (Y_TenantGuardAutoReleaseSeconds doc) 900). unfold or_pos.
  destruct (Z.ltb_spec 0 (Y_TenantGuardAutoReleaseSeconds doc)); lia.
Qed.

(** With a prefix the group's name starts with, the group is not prefixed. *)
Theorem group_left_alone (c : Daemon) :
  D_TopicPrefix c = "kafka" -> D_ConsumerGroup c = "kafka-batch" ->
  D_ConsumerGroup (prefixTopics c) = "kafka-batch".
Proof. intros Hp Hg. unfold prefixTopics. rewrite Hp. cbn. by rewrite Hg. Qed.

(** ** Retry tiers *)

(** What the job processor uses of the configuration. *)
Definition job_view (c : Daemon) : Job.Daemon :=
  Job.mkDaemon (D_SkipCancelledJobs c) (D_MaxRetries c) (D_RetryTopicBase c) (D_RetryTiers c) (D_RetryProgression c)
    (D_TenantGuardEnabled c) (D_TenantGuardWindowSeconds c) (D_EventsTopic c) (D_CallbacksTopic c)
    (D_DeadLetterTopic c) (D_EventEmitRetries c) (D_EventEmitBackoff c).

Lemma RetryTopics_elem (c : Daemon) (t : string) :
  t ∈ RetryTopics c <-> exists tier, is_Some (D_RetryTiers c !! tier) /\ t = RetryTopic c tier.
Proof.
  unfold RetryTopics. rewrite merge_sort_Permutation, list_elem_of_fmap. split.
  - intros (tier & -> & Ht). exists tier. split; [|done]. apply list_elem_of_fmap in Ht as ([k v] & -> & Hk).
    apply elem_of_map_to_list in Hk. eauto.
  - intros (tier & [v Hv] & ->). exists tier. split; [done|]. apply list_elem_of_fmap. exists (tier, v).
    by rewrite elem_of_map_to_list.
Qed.

(** A file that names its own tiers does not change the progression: the first
    retry goes to the topic of the tier short, which is not among the topics the
    retry consumers read, and the configuration is accepted. *)
Theorem retry_goes_unread (doc : DaemonDoc) (host : string) :
  Y_RetryTiers doc = Some {[ "fast" := 5 ]} -> Y_RetryTopic doc = "" ->
  let c := apply_doc doc (DefaultDaemon host) in
  ValidateRetryConsumers c = None
  /\ Job.RetryTierFor (job_view c) 1 "" = Done "short"
  /\ RetryTopic c "short" ∉ RetryTopics c.
Proof.
  intros Ht Hb c.
  assert (D_RetryTiers c = {[ "fast" := 5 ]}) as Etiers.
  { change (D_RetryTiers c) with (default (D_RetryTiers (DefaultDaemon host)) (Y_RetryTiers doc)). by rewrite Ht. }
  assert (D_RetryTopicBase c = "kafka_batch.jobs.retry") as Ebase.
  { change (D_RetryTopicBase c) with (or_text (Y_RetryTopic doc) "kafka_batch.jobs.retry"). by rewrite Hb. }
  split_and!.
  - unfold ValidateRetryConsumers. by rewrite Ebase, Etiers.
  - done.
  - intros (tier & [v Hv] & E)%RetryTopics_elem. unfold RetryTopic in E. apply (inj (String.append _)) in E.
    apply (inj (String.append _)) in E. subst tier. rewrite Etiers in Hv. by rewrite lookup_singleton_ne in Hv.
Qed.

(** ** One runtime for a topic *)

(** Some plain handler serves a topic in a runtime. *)
Definition serves (d : string) (e : string * HandlerEntry) (t rt : string) : Prop :=
  plain e.2 = true /\ topic_of d e.2 = t /\ runtime_of e.2 = rt.
Definition served (m : Manifest) (d t rt : string) : Prop := exists e, e ∈ m /\ serves d e t rt.

Lemma served_cons (m : Manifest) (e : string * HandlerEntry) (d t rt : string) :
  served (e :: m) d t rt <-> serves d e t rt \/ served m d t rt.
Proof. unfold served. set_solver. Qed.

Lemma served_nil (d t rt : string) : ~ served [] d t rt.
Proof. intros (e & He & _). by apply elem_of_nil in He. Qed.

(** Every plain handler has a runtime, and a topic one runtime. *)
Definition exclusive (m : Manifest) (d : string) : Prop :=
  (forall t, ~ served m d t "") /\ forall t rt rt', served m d t rt -> served m d t rt' -> rt = rt'.

Lemma exclusive_Permutation (m m' : Manifest) (d : string) : m ≡ₚ m' -> exclusive m d -> exclusive m' d.
Proof.
  intros Hp [H1 H2]. assert (forall t rt, served m' d t rt -> served m d t rt) as Hs.
  { intros t rt (e & He & Hse). exists e. by rewrite Hp. }
  split; [intros t Ht; by apply (H1 t), Hs|]. intros t rt rt' Ha Hb. apply (H2 t); by apply Hs.
Qed.

Lemma tail_spec (m : Manifest) (d : string) (h : HandlerEntry) (owners : gmap string string) :
  runtime_of h <> "" -> (forall prev, owners !! topic_of d h = Some prev -> prev = runtime_of h) ->
  exclusive m d /\ (forall rt, served m d (topic_of d h) rt -> runtime_of h = rt)
    /\ (forall t rt prev, t <> topic_of d h -> served m d t rt -> owners !! t = Some prev -> prev = rt)
  <-> ((forall t, ~ ((topic_of d h = t /\ runtime_of h = "") \/ served m d t ""))
       /\ forall t rt rt', (topic_of d h = t /\ runtime_of h = rt) \/ served m d t rt ->
                           (topic_of d h = t /\ runtime_of h = rt') \/ served m d t rt' -> rt = rt')
      /\ forall t rt prev, (topic_of d h = t /\ runtime_of h = rt) \/ served m d t rt -> owners !! t = Some prev -> prev = rt.
Proof.
  intros Hr Ho. split.
  - intros ([H1 H2] & H3 & H4). split_and!.
    + intros t [[_ ?]|?]; [done|by apply (H1 t)].
    + intros t rt rt' [[<- <-]|Ha] [[? <-]|Hb]; subst; eauto using eq_sym.
    + intros t rt prev [[<- <-]|Ha] Hp; [by apply Ho|]. destruct (decide (t = topic_of d h)) as [->|Hne]; [|eauto].
      rewrite (Ho prev Hp). by apply H3.
  - intros ((H1 & H2) & H3). split_and!; [split| |].
    + intros t Ht. apply (H1 t). by right.
    + intros t rt rt' Ha Hb. apply (H2 t); by right.
    + intros rt Ha. apply (H2 (topic_of d h)); [by left|by right].
    + intros t rt prev _ Ha Hp. apply (H3 t); [by right|done].
Qed.

Lemma check_topics_spec (d : string) (m : Manifest) : forall owners : gmap string string,
  check_topics d owners m = None <->
  exclusive m d /\ forall t rt prev, served m d t rt -> owners !! t = Some prev -> prev = rt.
Proof.
  induction m as [|[j h] m IH]; intros owners; cbn [check_topics].
  { split; [intros _; split; [split|]; by intros * ?%served_nil|done]. }
  unfold exclusive. setoid_rewrite served_cons. destruct (plain h) eqn:Eh; cbn [negb].
  2:{ assert (forall t rt, serves d (j, h) t rt <-> False) as Hno.
      { intros t rt. split; [|done]. intros (Hp & _). cbn in Hp. by rewrite Eh in Hp. }
      rewrite IH. setoid_rewrite Hno. unfold exclusive. naive_solver. }
  assert (forall t rt, serves d (j, h) t rt <-> topic_of d h = t /\ runtime_of h = rt) as Hs.
  { intros t rt. unfold serves. cbn. naive_solver. }
  setoid_rewrite Hs. clear Hs.
  destruct (String.eqb_spec (runtime_of h) "") as [E|E].
  { split; [|intros [[H1 _] _]; exfalso; apply (H1 (topic_of d h)); by left].
    destruct (owners !! topic_of d h) as [prev|]; [destruct (String.eqb prev _)|]; done. }
  assert (check_topics d (<[topic_of d h := runtime_of h]> owners) m = None <->
    exclusive m d /\ (forall rt, served m d (topic_of d h) rt -> runtime_of h = rt)
    /\ forall t rt prev, t <> topic_of d h -> served m d t rt -> owners !! t = Some prev -> prev = rt) as HIH.
  { rewrite IH. split; intros [He Ho]; (split; [done|]).
    - split; [intros rt Hrt; apply (Ho (topic_of d h) rt); [done|by rewrite lookup_insert_eq]|].
      intros t rt prev Hne Hrt Hp. apply (Ho t); [done|]. by rewrite lookup_insert_ne.
    - intros t rt prev Hrt. rewrite lookup_insert_Some. intros [[<- <-]|[Hne Hp]]; [by apply Ho|].
      apply (proj2 Ho t); [by intros ->|done|done]. }
  unfold exclusive in HIH. destruct (owners !! topic_of d h) as [prev|] eqn:Eo.
  - destruct (String.eqb_spec prev (runtime_of h)) as [->|Hne].
    + rewrite HIH. apply (tail_spec m d h owners E). intros prev'. rewrite Eo. by intros [= ->].
    + split; [done|]. intros [_ Hb]. exfalso. apply Hne. by apply (Hb (topic_of d h) (runtime_of h)); [left|].
  - rewrite HIH. apply (tail_spec m d h owners E). by rewrite Eo.
Qed.

Lemma ValidateRouting_exclusive (m : Manifest) (d : string) : ValidateRouting m d = None <-> exclusive m d.
Proof.
  unfold ValidateRouting, ValidateTopicRuntimeExclusivity. rewrite check_topics_spec. split; [by intros []|].
  intros He. split; [done|]. intros t rt prev _. by rewrite lookup_empty.
Qed.

Lemma served_snoc (m : Manifest) (e : string * HandlerEntry) (d t rt : string) :
  served (m ++ [e]) d t rt <-> served m d t rt \/ serves d e t rt.
Proof. unfold served. set_solver. Qed.

Lemma owners_spec (m : Manifest) (d t rt : string) : exclusive m d ->
  foldl (own_topic d) ∅ m !! t = Some rt <-> served m d t rt.
Proof.
  induction m as [|e m IH] using rev_ind; intros [H1 H2].
  { split; [done|]. intros ?%served_nil. done. }
  rewrite foldl_app. cbn [foldl]. rewrite served_snoc. setoid_rewrite served_snoc in H1. setoid_rewrite served_snoc in H2.
  assert (exclusive m d) as He by (split; [naive_solver|intros; eapply H2; by left]).
  specialize (IH He). unfold own_topic. destruct (plain e.2) eqn:Ep; cbn [negb orb].
  2:{ rewrite IH. split; [by left|]. intros [?|(Hp & _)]; [done|]. by rewrite Ep in Hp. }
  destruct (String.eqb_spec (runtime_of e.2) "") as [Er|Er].
  { exfalso. apply (H1 (topic_of d e.2)). right. by split_and!. }
  rewrite lookup_insert_Some, IH. split.
  - intros [[<- <-]|[_ ?]]; [right; by split_and!|by left].
  - intros [Hs|(_ & <- & <-)]; [|by left]. destruct (decide (topic_of d e.2 = t)) as [<-|Hne]; [|by right].
    left. split; [done|]. eapply H2; [right; by split_and!|by left].
Qed.

Lemma TopicRuntime_spec (m : Manifest) (d t rt : string) : ValidateRouting m d = None -> rt <> "" ->
  TopicRuntime m t d = rt <-> served m d (TrimSpace t) rt.
Proof.
  intros He%ValidateRouting_exclusive Hr. rewrite <- owners_spec by done. unfold TopicRuntime.
  destruct (foldl _ _ _ !! TrimSpace t) as [r|]; cbn; naive_solver.
Qed.

(** An accepted manifest is accepted, and gives every topic the same runtime, in
    whatever order its handlers are visited. *)
Theorem routing_order_irrelevant (m m' : Manifest) (d t : string) : m ≡ₚ m' -> ValidateRouting m d = None ->
  ValidateRouting m' d = None /\ TopicRuntime m t d = TopicRuntime m' t d.
Proof.
  intros Hp Hv. assert (ValidateRouting m' d = None) as Hv'.
  { apply ValidateRouting_exclusive. eapply exclusive_Permutation; [exact Hp|]. by apply ValidateRouting_exclusive. }
  split; [done|]. assert (forall rt, served m d (TrimSpace t) rt <-> served m' d (TrimSpace t) rt) as Hs.
  { intros rt. unfold served. by setoid_rewrite Hp. }
  destruct (decide (TopicRuntime m t d = "")) as [E|E].
  - destruct (decide (TopicRuntime m' t d = "")) as [E'|E']; [congruence|]. exfalso.
    pose proof (proj1 (TopicRuntime_spec m' d t _ Hv' E') eq_refl) as Hm. apply Hs in Hm.
    apply TopicRuntime_spec in Hm; [congruence|done|done].
  - pose proof (proj1 (TopicRuntime_spec m d t _ Hv E) eq_refl) as Hm. apply Hs in Hm.
    by apply TopicRuntime_spec in Hm.
Qed.
