(* ===== verification/Instrument.v ===== *)
(** The program's reports on itself: the events of pkg/instrument, those of the
    job processor (pkg/control/job/instrument.go), the bus that hands them to
    subscribers, and the StatsD subscriber of pkg/metrics.

    A report is its name, its payload and a duration in milliseconds.  Numbers of
    either kind are exact; a value that is neither text, number nor boolean is the
    text Go prints for it.  Log lines and the UDP socket are left out. *)
From S2P Require Import Prelude Cron Redis Client Kafka Protocol Fairness Control Enqueue Job DaemonConfig.

Record emitted := mkEmitted { em_event : string; em_payload : object; em_ms : Q }.

Definition obj (l : list (string * json)) : object := list_to_map l.

(** ** The bus *)

Section bus.
Context {A : Type}.

(** A subscriber acts on the state of the process and may panic. *)
Definition handlerFunc : Type := emitted -> A -> A * outcome unit.

Record bus := mkBus { handlers : gmap Z handlerFunc; nextID : Z }.

Definition SetHandler (b : bus) (fn : option handlerFunc) : bus :=
  match fn with
  | None => mkBus ∅ (nextID b)
  | Some f => mkBus {[nextID b + 1 := f]} (nextID b + 1)
  end.

(** The second part is what the returned function removes. *)
Definition AddHandler (b : bus) (fn : option handlerFunc) : bus * option Z :=
  match fn with
  | None => (b, None)
  | Some f => (mkBus (<[nextID b + 1 := f]> (handlers b)) (nextID b + 1), Some (nextID b + 1))
  end.

(** The returned function; [removed] is its own flag. *)
Definition remove_handler (b : bus) (id : option Z) (removed : bool) : bus * bool :=
  match id with
  | None => (b, removed)
  | Some id => if removed then (b, true) else (mkBus (delete id (handlers b)) (nextID b), true)
  end.

(** A panic of a subscriber is caught. *)
Definition invoke (fn : handlerFunc) (e : emitted) (a : A) : A := (fn e a).1.

Definition Emit (b : bus) (e : emitted) (a : A) : A := foldl (fun a fn => invoke fn e a) a (map_to_list (handlers b)).*2.
End bus.
Arguments handlerFunc : clear implicits.
Arguments bus : clear implicits.

(** ** The events *)

Definition errString (err : error) : string := default "" err.

(** The fields of [extra] win. *)
Definition JobPayload (jobID batchID workerClass : string) (extra : object) : object :=
  extra ∪ obj [("job_id", JStr jobID); ("batch_id", JStr batchID); ("worker_class", JStr workerClass)].

Section events.
Context `{Json} `{TimeText}.

Definition JobProcessed (jobID batchID workerClass : string) (durationMs : Q) : emitted :=
  mkEmitted "job.processed" (JobPayload jobID batchID workerClass ∅) durationMs.

Definition JobCancelled (jobID batchID workerClass : string) : emitted :=
  mkEmitted "job.cancelled" (JobPayload jobID batchID workerClass ∅) 0.

Definition JobExpired (jobID batchID workerClass validTill : string) : emitted :=
  mkEmitted "job.expired" (JobPayload jobID batchID workerClass (obj [("valid_till", JStr validTill)])) 0.

Definition JobRetried (jobID batchID workerClass : string) (attempt nextAttempt : Z) (retryTopic : string) : emitted :=
  mkEmitted "job.retried" (JobPayload jobID batchID workerClass (obj [("attempt", JNum (inject_Z attempt));
    ("next_attempt", JNum (inject_Z nextAttempt)); ("retry_topic", JStr retryTopic)])) 0.

Definition JobFailed (jobID batchID workerClass : string) (attempt : Z) (errClass errMsg : string) : emitted :=
  mkEmitted "job.failed" (JobPayload jobID batchID workerClass (obj [("attempt", JNum (inject_Z attempt));
    ("error_class", JStr errClass); ("error_message", JStr errMsg)])) 0.

Definition JobEmitRetried (jobID batchID : string) (attempt : Z) (err : error) : emitted :=
  mkEmitted "job.emit_retried" (obj [("job_id", JStr jobID); ("batch_id", JStr batchID); ("attempt", JNum (inject_Z
    attempt)); ("error_class", JStr (errString err)); ("error_message", JStr (errString err))]) 0.

Definition JobApplyAborted (jobID batchID group : string) (err : error) : emitted :=
  mkEmitted "job.apply_aborted" (obj [("job_id", JStr jobID); ("batch_id", JStr batchID); ("consumer_group", JStr
    group); ("error_message", JStr (errString err))]) 0.

Definition JobUniqSkipped (workerClass : string) (payload : object) (jobID batchID : string) : emitted :=
  mkEmitted "job.uniq_skipped" (obj [("worker_class", JStr workerClass); ("payload", JOther (marshal_or_empty
    payload)); ("job_id", JStr jobID); ("batch_id", JStr batchID)]) 0.

Definition DLTPublished (jobID batchID dltType sourceTopic : string) : emitted :=
  mkEmitted "dlt.published" (obj [("job_id", JStr jobID); ("batch_id", JStr batchID); ("dlt_type", JStr dltType);
    ("source_topic", JStr sourceTopic)]) 0.

Definition BatchCreated (batchID description tenantID onSuccess onComplete : string) : emitted :=
  mkEmitted "batch.created" (obj [("batch_id", JStr batchID); ("description", JStr description); ("tenant_id", JStr
    tenantID); ("on_success", JStr onSuccess); ("on_complete", JStr onComplete)]) 0.

Definition BatchSealed (batchID : string) (totalJobs : Z) : emitted :=
  mkEmitted "batch.sealed" (obj [("batch_id", JStr batchID); ("total_jobs", JNum (inject_Z totalJobs))]) 0.

Definition BatchCompleted (batchID outcome : string) (totalJobs completedCount failedCount : Z) : emitted :=
  mkEmitted "batch.completed" (obj [("batch_id", JStr batchID); ("outcome", JStr outcome); ("total_jobs", JNum
    (inject_Z totalJobs)); ("completed_count", JNum (inject_Z completedCount)); ("failed_count", JNum (inject_Z
    failedCount))]) 0.

Definition ScheduledEnqueued (jobID batchID workerClass : string) (runAt : Z) : emitted :=
  mkEmitted "scheduled.enqueued" (obj [("job_id", JStr jobID); ("batch_id", JStr batchID); ("worker_class", JStr
    workerClass); ("run_at", JStr (rfc3339_format runAt))]) 0.

Definition ScheduledEnqueuedBulk (count : Z) (batchID workerClass : string) (runAt : Z) : emitted :=
  mkEmitted "scheduled.enqueued_bulk" (obj [("count", JNum (inject_Z count)); ("batch_id", JStr batchID);
    ("worker_class", JStr workerClass); ("run_at", JStr (rfc3339_format runAt))]) 0.

Definition ScheduledIndexFailed (count : Z) (batchID jobID : string) (attempts : Z) (err : error) : emitted :=
  mkEmitted "scheduled.index_failed" (obj [("count", JNum (inject_Z count)); ("batch_id", JStr batchID); ("job_id",
    JStr jobID); ("attempts", JNum (inject_Z attempts)); ("error_class", JStr (errString err)); ("error_message",
    JStr (errString err))]) 0.

Definition ScheduledDispatched (jobID batchID workerClass topic : string) : emitted :=
  mkEmitted "scheduled.dispatched" (obj [("job_id", JStr jobID); ("batch_id", JStr batchID); ("worker_class", JStr
    workerClass); ("topic", JStr topic)]) 0.

Definition CallbackInvoked (batchID callbackClass callbackMethod : string) : emitted :=
  mkEmitted "callback.invoked" (obj [("batch_id", JStr batchID); ("callback_class", JStr callbackClass);
    ("callback_method", JStr callbackMethod)]) 0.

Definition CallbackFailed (batchID callbackClass callbackMethod errClass errMsg : string) : emitted :=
  mkEmitted "callback.failed" (obj [("batch_id", JStr batchID); ("callback_class", JStr callbackClass);
    ("callback_method", JStr callbackMethod); ("error_class", JStr errClass); ("error_message", JStr errMsg)]) 0.

Definition ConsumerPriorityYielded (consumerClass p0Topic consumerGroup : string) (pauseMs : Z) (mode : string) (rank : Z) (higherTopics : json) : emitted :=
  mkEmitted "consumer.priority_yielded" (obj [("consumer_class", JStr consumerClass); ("p0_topic", JStr p0Topic);
    ("consumer_group", JStr consumerGroup); ("pause_ms", JNum (inject_Z pauseMs)); ("mode", JStr mode); ("rank",
    JNum (inject_Z rank)); ("higher_topics", higherTopics)]) 0.

Definition ReconcilerRan (staleCount lostCount duration : Z) (triggeredBy : string) : emitted :=
  mkEmitted "reconciler.ran" (obj [("stale_count", JNum (inject_Z staleCount)); ("lost_count", JNum (inject_Z
    lostCount)); ("duration", JNum (duration # 1000000000)); ("triggered_by", JStr triggeredBy)]) 0.

Definition WorksetReclaimed (checked reclaimed failed skipped duration : Z) : emitted :=
  mkEmitted "workset.reclaimed" (obj [("checked", JNum (inject_Z checked)); ("reclaimed", JNum (inject_Z
    reclaimed)); ("failed", JNum (inject_Z failed)); ("skipped", JNum (inject_Z skipped)); ("duration", JNum
    (duration # 1000000000))]) 0.

Definition SuperFetchDrained (remaining timeout : Z) : emitted :=
  mkEmitted "super_fetch.drained" (obj [("remaining", JNum (inject_Z remaining)); ("timeout", JNum (timeout #
    1000000000))]) 0.

Definition CronFired (schedule jobType jobID tenantID : string) : emitted :=
  mkEmitted "cron.fired" (obj [("schedule", JStr schedule); ("job_type", JStr jobType); ("job_id", JStr jobID);
    ("tenant_id", JStr tenantID)]) 0.

Definition CronMisfireSkipped (schedule jobType : string) : emitted :=
  mkEmitted "cron.misfire_skipped" (obj [("schedule", JStr schedule); ("job_type", JStr jobType)]) 0.

Definition CronEnqueueFailed (schedule jobType errMsg : string) : emitted :=
  mkEmitted "cron.enqueue_failed" (obj [("schedule", JStr schedule); ("job_type", JStr jobType); ("error_message",
    JStr errMsg)]) 0.

Definition CronStale (schedule jobType : string) (staleSeconds thresholdSeconds : Q) : emitted :=
  mkEmitted "cron.stale" (obj [("schedule", JStr schedule); ("job_type", JStr jobType); ("stale_seconds", JNum
    staleSeconds); ("threshold_seconds", JNum thresholdSeconds)]) (staleSeconds * 1000).

Definition CronHeartbeat (enabled stale : Z) (maxStaleSeconds : Q) : emitted :=
  mkEmitted "cron.heartbeat" (obj [("enabled_count", JNum (inject_Z enabled)); ("stale_count", JNum (inject_Z
    stale))]) (maxStaleSeconds * 1000).

Definition CompletionDropped (batchID jobID : string) (batchSeq : Z) (reason : string) : emitted :=
  mkEmitted "completion.dropped" (obj [("batch_id", JStr batchID); ("job_id", JStr jobID); ("batch_seq", JNum
    (inject_Z batchSeq)); ("reason", JStr reason)]) 0.

Definition BatchPushRejected (batchID jobType reason : string) : emitted :=
  mkEmitted "batch.push_rejected" (obj [("batch_id", JStr batchID); ("job_type", JStr jobType); ("reason", JStr
    reason)]) 0.

Definition CallbackProduceFailed (batchID outcome errMsg : string) : emitted :=
  mkEmitted "callback.produce_failed" (obj [("batch_id", JStr batchID); ("outcome", JStr outcome); ("error_message",
    JStr errMsg)]) 0.

Definition WorksetPayloadMissing (count : Z) : emitted :=
  mkEmitted "workset.payload_missing" (obj [("count", JNum (inject_Z count))]) 0.

Definition WorksetUnreclaimable (reason : string) : emitted :=
  mkEmitted "workset.unreclaimable" (obj [("reason", JStr reason)]) 0.

Definition UniqClaimFailedOpen (workerClass jobID : string) (count : Z) (err : error) : emitted :=
  mkEmitted "uniq.claim_failed_open" (obj [("worker_class", JStr workerClass); ("job_id", JStr jobID); ("count",
    JNum (inject_Z count)); ("error_message", JStr (errString err))]) 0.

Definition FairSlotDedupFailedOpen (lane slotID : string) (err : error) : emitted :=
  mkEmitted "fairness.slot_dedup_failed_open" (obj [("lane", JStr lane); ("slot_id", JStr slotID); ("error_message",
    JStr (errString err))]) 0.

(** ** The job processor's events *)

Definition jobInstrumentPayload (job : JobMessage) (extra : object) : object :=
  let payload := JobPayload (J_JobID job) (deref (J_BatchID job)) (J_WorkerClass job) extra in
  let payload := if String.eqb (J_JobType job) "" then payload else <["job_type" := JStr (J_JobType job)]> payload in
  let tid := deref (J_TenantID job) in
  if String.eqb tid "" then payload else <["tenant_id" := JStr tid]> payload.

Definition emitJobProcessed (job : JobMessage) (durationMs : Q) : emitted :=
  mkEmitted "job.processed" (jobInstrumentPayload job ∅) durationMs.
Definition emitJobCancelled (job : JobMessage) : emitted := mkEmitted "job.cancelled" (jobInstrumentPayload job ∅) 0.
Definition emitJobExpired (job : JobMessage) (validTill : string) : emitted :=
  mkEmitted "job.expired" (jobInstrumentPayload job (obj [("valid_till", JStr validTill)])) 0.
Definition emitJobRetried (job : JobMessage) (nextAttempt : Z) (retryTopic : string) : emitted :=
  mkEmitted "job.retried" (jobInstrumentPayload job (obj [("attempt", JNum (inject_Z (J_Attempt job)));
    ("next_attempt", JNum (inject_Z nextAttempt)); ("retry_topic", JStr retryTopic)])) 0.
Definition emitJobFailed (job : JobMessage) (attempt : Z) (errClass errMsg : string) : emitted :=
  mkEmitted "job.failed" (jobInstrumentPayload job (obj [("attempt", JNum (inject_Z attempt));
    ("error_class", JStr errClass); ("error_message", JStr errMsg)])) 0.

(** What a dead letter says of its job. *)
Definition dltMeta (raw : string) : string * string * string :=
  let m := unmarshal_lenient raw in (str_field m "job_id", str_field m "batch_id", str_field m "dlt_type").
End events.

(** ** StatsD *)

Section statsd.
Context `{NumText}.

Inductive sink := NoMetrics | StatsD (addr prefix : string) | NoSink.

(** metrics.Install for the settings of a daemon, which has no handler of its own. *)
Definition metrics_sink (cfg : Daemon) : sink :=
  if negb (D_MetricsEnabled cfg) then NoMetrics
  else if String.eqb (D_MetricsStatsDAddr cfg) "" then NoSink
  else StatsD (D_MetricsStatsDAddr cfg) (or_text (D_MetricsPrefix cfg) "kafka_batch").

Fixpoint eventName (event : string) : string :=
  match event with
  | EmptyString => EmptyString
  | String c s => String (if is_char 46 c then Ascii.ascii_of_N 95 else c) (eventName s)
  end.

Definition formatTagValue (v : json) : string :=
  match v with
  | JStr s => s
  | JNum q => if Qeq_bool q (inject_Z (truncate q)) then itoa (truncate q) else number_text q
  | JBool b => if b then "true" else "false"
  | JOther t => t
  end.

Definition tag_of (e : string * json) : option string :=
  if String.eqb e.1 "payload" || String.eqb e.1 "error" then None
  else
    let val := formatTagValue e.2 in
    if String.eqb val "" || (128 <? Z.of_nat (String.length val)) then None else Some (e.1 +:+ ":" +:+ val).

Definition tagsFor (payload : object) : list string := omap tag_of (map_to_list payload).

Fixpoint join (sep : string) (l : list string) : string :=
  match l with [] => "" | [x] => x | x :: l => x +:+ sep +:+ join sep l end.

Definition tagSuffix (tags : list string) : string := match tags with [] => "" | _ => "|#" +:+ join "," tags end.
Definition increment (name : string) (tags : list string) : string := name +:+ ":1|c" +:+ tagSuffix tags.
Definition timing (name : string) (ms : Q) (tags : list string) : string :=
  name +:+ ":" +:+ itoa (truncate ms) +:+ "|ms" +:+ tagSuffix tags.

(** The datagrams of a report. *)
Definition statsd_emit (prefix : string) (e : emitted) : list string :=
  let metric := prefix +:+ "." +:+ eventName (em_event e) in
  let tags := tagsFor (em_payload e) in
  [increment (metric +:+ ".count") tags; timing (metric +:+ ".duration") (em_ms e) tags].
End statsd.
