(* ===== verification/Boot.v ===== *)
(** What a process decides before it starts consuming: the checks and the topics
    of worker.Run (pkg/worker/worker.go) and daemon.Run (pkg/daemon/daemon.go),
    the choices of pkg/daemon/wiring.go and cron.go, and the topics to provision
    (pkg/topics/topics.go).

    The connections, the consumers and the loops that are started afterwards are
    the subject of the other components; files and the YAML reader are arguments. *)
From S2P Require Import Prelude Cron Redis Client Kafka Protocol Fairness Sql Tenants Enqueue Job Gates DaemonConfig Instrument.

(** ** The topics of a worker *)

Inductive bootError :=
  | ConfigError (e : string) | ManifestError (e : string) | RoutingError (e : routingError + string)
  | SplitError (e : string) | NoGoHandlers | ModeError (e : string) | PriorityError (e : priorityError)
  | NoTopicsAtAll | MetricsError | ControlPlaneTopic (topic : string) | MySQLError (e : string) | RetryError (e : string).

Definition defaultJobsTopic (cfg : Daemon) : string :=
  if String.eqb (D_TopicPrefix cfg) "" then "kafka_batch.jobs" else D_TopicPrefix cfg +:+ "." +:+ "kafka_batch.jobs".

Definition uniqueStrings (l : list string) : list string := dedup ∅ (filter (fun s => s <> "") l).

Record fairReadySpec := mkFairSpec { fs_lane : string; fs_topic : string }.

Definition workerFairReadyTopics (cfg : Daemon) (m : Manifest) : list fairReadySpec :=
  if negb (D_FairnessEnabled cfg) then []
  else
    omap (fun lane =>
      if HasFairHandlersForRuntime m RuntimeGo lane && negb (String.eqb (Ready_Go (FairReadyTopics cfg lane)) "")
      then Some (mkFairSpec lane (Ready_Go (FairReadyTopics cfg lane))) else None) ["time"; "throughput"].

Definition fairReadyTopicNames (specs : list fairReadySpec) : list string := fs_topic <$> specs.

Definition goPriorityConfigs (cfg : Daemon) (reg : list Gates.Config) (m : Manifest) (defaultTopic : string)
    : list Gates.Config :=
  omap (fun pc =>
    let topics := FilterTopicsForRuntime m RuntimeGo (pr_Topics pc) defaultTopic in
    if bool_decide (topics = []) then None
    else Some (WithConsumerGroup (WithTopics pc topics) (GoWorkerPriorityGroup cfg (pr_ConsumerGroupSuffix pc)))) reg.

(** What priorities use of the configuration. *)
Definition priority_view (cfg : Daemon) : DaemonCfg :=
  mkDaemonCfg (D_TopicPrefix cfg) (D_ConsumerGroup cfg) (D_PriorityWeightedInterleave cfg).

Definition load_priorities (read : string -> file_read) (cfg : Daemon) : bootError + list Gates.Config :=
  if bool_decide (D_PriorityConfigPaths cfg = []) then inr []
  else match LoadRegistry read (D_PriorityConfigPaths cfg) (priority_view cfg) (D_JobsTopics cfg) with
  | inl e => inl (PriorityError e)
  | inr reg => inr reg
  end.

(** The plain topics of the worker: those of the Go handlers, and the flat ones
    of the configuration that belong to Go handlers; none that a priority file has. *)
Definition plain_topics (cfg : Daemon) (m : Manifest) (reg : list Gates.Config) (defaultTopic : string) : list string :=
  let flat := filter (fun t => TopicRuntime m t defaultTopic = RuntimeGo) (D_JobsTopics cfg) in
  filter (fun t => t ∉ AllTopics reg) (uniqueStrings (JobTopicsGo m defaultTopic ++ flat)).

Record worker_plan := mkPlan {
  wp_jobs : list string; wp_priority : list Gates.Config; wp_fair : list fairReadySpec; wp_watermark : bool
}.

Definition execTopics (p : worker_plan) : list string :=
  wp_jobs p ++ fairReadyTopicNames (wp_fair p) ++ mjoin (pr_Topics <$> wp_priority p).

(** metrics.Install fails: metrics are on and there is no place to send them. *)
Definition no_sink (cfg : Daemon) : bool := match metrics_sink cfg with NoSink => true | _ => false end.

(** worker.Run up to the point where it connects. *)
Definition plan_worker (cfg : Daemon) (m : Manifest) (registered : string -> bool) (read : string -> file_read)
    : bootError + worker_plan :=
  let defaultTopic := defaultJobsTopic cfg in
  match Validate registered m defaultTopic with
  | Some e => inl (RoutingError e)
  | None =>
  match ValidateFairReadySplit cfg m with
  | Some e => inl (SplitError e)
  | None =>
  if negb (HasGoHandlers m) then inl NoGoHandlers
  else match ValidateExecutionMode cfg with
  | Some e => inl (ModeError e)
  | None =>
  if no_sink cfg then inl MetricsError
  else match load_priorities read cfg with
  | inl e => inl e
  | inr reg =>
      let p := mkPlan (plain_topics cfg m reg defaultTopic) (goPriorityConfigs cfg reg m defaultTopic)
                 (workerFairReadyTopics cfg m) (WatermarkMode cfg) in
      if bool_decide (wp_jobs p = []) && bool_decide (wp_fair p = []) && bool_decide (wp_priority p = [])
      then inl NoTopicsAtAll
      else match filter (fun t => t ∈ ControlPlaneTopics cfg) (execTopics p) with
      | t :: _ => inl (ControlPlaneTopic t)
      | [] => inr p
      end
  end end end end.

(** ** The daemon's checks *)

Definition prefixOr (prefix base : string) : string :=
  if String.eqb prefix "" then base
  else if HasPrefix base (prefix +:+ ".") then base else prefix +:+ "." +:+ base.

Definition daemonDefaultTopic (cfg : Daemon) : string := prefixOr (D_TopicPrefix cfg) "" +:+ "kafka_batch.jobs".

(** Where scheduled jobs without a topic go. *)
Definition scheduleDefaultTopic (cfg : Daemon) (reg : list Gates.Config) : string :=
  match D_JobsTopics cfg with
  | t :: _ => t
  | [] => match AllTopics reg with t :: _ => t | [] => daemonDefaultTopic cfg end
  end.

(** daemon.Run up to the point where it connects: the priority groups and the
    default topic of the schedule. *)
Definition check_daemon (cfg : Daemon) (m : Manifest) (read : string -> file_read)
    : bootError + (list Gates.Config * string) :=
  match ValidateRouting m (daemonDefaultTopic cfg) with
  | Some e => inl (RoutingError (inl e))
  | None =>
  match ValidateFairReadySplit cfg m with
  | Some e => inl (SplitError e)
  | None =>
  match ValidateExecutionMode cfg with
  | Some e => inl (ModeError e)
  | None =>
  match ValidateMySQLConfig cfg with
  | Some e => inl (MySQLError e)
  | None =>
  match ValidateRetryConsumers cfg with
  | Some e => inl (RetryError e)
  | None =>
  if no_sink cfg then inl MetricsError
  else match load_priorities read cfg with
  | inl e => inl e
  | inr reg => inr (reg, scheduleDefaultTopic cfg reg)
  end end end end end end.

Section loading.
Context `{NumText} (host : string) (lookup : string -> option string) (readFile : string -> result string)
  (yaml : string -> result DaemonDoc) (yamlManifest : string -> result Manifest).

(** The configuration and the manifest of a process; the manifest's path on the
    command line goes before the configured one. *)
Definition load_both (cfgPath manifestPath : string) : bootError + (Daemon * Manifest) :=
  match LoadDaemon host lookup readFile yaml cfgPath with
  | (_, Some e) => inl (ConfigError e)
  | (cfg, None) =>
      let cfg := if String.eqb manifestPath "" then cfg else cfg <| D_HandlerManifest := manifestPath |> in
      match LoadManifest readFile yamlManifest (D_HandlerManifest cfg) (D_TopicPrefix cfg) with
      | (_, Some e) => inl (ManifestError e)
      | (m, None) => inr (cfg, m)
      end
  end.

Definition boot_worker (registered : string -> bool) (read : string -> file_read) (cfgPath manifestPath : string)
    : bootError + (Daemon * worker_plan) :=
  match load_both cfgPath manifestPath with
  | inl e => inl e
  | inr (cfg, m) => match plan_worker cfg m registered read with inl e => inl e | inr p => inr (cfg, p) end
  end.

Definition boot_daemon (read : string -> file_read) (cfgPath manifestPath : string)
    : bootError + (Daemon * (list Gates.Config * string)) :=
  match load_both cfgPath manifestPath with
  | inl e => inl e
  | inr (cfg, m) => match check_daemon cfg m read with inl e => inl e | inr p => inr (cfg, p) end
  end.
End loading.

(** ** Choices of the wiring *)

(** Where pauses and failures are kept. *)
Inductive backend := OnRedis | OnMySQL (dsn : string) | NoDSN.

#[export] Instance backend_eq_dec : EqDecision backend.
Proof. solve_decision. Defined.

Definition mysql_backend (cfg : Daemon) : backend :=
  if negb (String.eqb (ToLower (D_Store cfg)) "mysql") then OnRedis
  else if String.eqb (TrimSpace (D_StoreMySQLDSN cfg)) "" then NoDSN else OnMySQL (D_StoreMySQLDSN cfg).

Definition BuildPauseControl (cfg : Daemon) : backend := mysql_backend cfg.
Definition BuildFailureRecorder (cfg : Daemon) : backend := mysql_backend cfg.

Definition schedule_backend (cfg : Daemon) : backend :=
  if negb (String.eqb (ToLower (D_ScheduleStore cfg)) "mysql") then OnRedis
  else if String.eqb (TrimSpace (D_ScheduleMySQLDSN cfg)) "" then NoDSN else OnMySQL (D_ScheduleMySQLDSN cfg).

(** The table of tenants' partitions: the static map, whether the dynamic one is
    on, and for how long an answer is kept. *)
Definition BuildTenantPartitions (cfg : Daemon) : option (gmap string Z * bool * Z) :=
  if bool_decide (D_FairnessTenantPartitions cfg = ∅) && negb (D_FairnessDynamicTenantPartitions cfg) then None
  else Some (D_FairnessTenantPartitions cfg, D_FairnessDynamicTenantPartitions cfg, D_FairnessTenantPartitionCacheTTL cfg).

(** The age at which a consumer counts as stale, and its grace at the start. *)
Definition NewConsumerHealth (cfg : Daemon) : Z * Z :=
  let maxStale := int64 (LivenessHeartbeatIntervalDuration cfg * 3) in
  (if maxStale <? sec 60 then sec 60 else maxStale, sec 45).

(** TTL and interval of the heartbeat, and whether running jobs are tracked. *)
Definition NewLivenessReporter (cfg : Daemon) : option (Z * Z * bool) :=
  if negb (D_LivenessEnabled cfg) then None
  else Some (LivenessTTLDuration cfg, LivenessHeartbeatIntervalDuration cfg, D_TrackRunningJobs cfg).

Definition attachIngestLag (s : Settings) : bool :=
  String.eqb (ActiveCountSource s) "ingest_lag" || ResetVtimeWhenIdle s.

Definition recurring_dsn (cfg : Daemon) : option string :=
  let dsn := or_text (TrimSpace (D_RecurringMySQLDSN cfg)) (TrimSpace (D_ScheduleMySQLDSN cfg)) in
  if String.eqb dsn "" then None else Some dsn.

(** ** Shutdown *)

(** The jobs still running after the members' waits, which run side by side. *)
Definition waitAllInFlight (waits : list Z) : Z := foldl Z.add 0 waits.

(** The live keys a worker deletes so that its jobs are reclaimed at once. *)
Definition drainWorkerSuperFetch (members : list (string * Z)) : list string :=
  if 0 <? waitAllInFlight members.*2 then members.*1 else [].

(** ** Topics to provision *)

Record Spec := mkTopicSpec {
  sp_Name : string; sp_Partitions : Z; sp_ReplicationFactor : Z; sp_Config : list (string * string); sp_Category : string
}.

Definition DefaultPartitions (category : string) : Z :=
  if String.eqb category "ingest" || String.eqb category "ready" then 64
  else if bool_decide (category ∈ ["jobs"; "priority"; "events"; "callbacks"; "retry"; "scheduled"; "dead_letter"]) then 16
  else 0.

Record ClientTopics := mkClientTopics {
  ct_TopicPrefix : string; ct_JobsTopic : string; ct_ScheduledTopic : string; ct_CallbacksTopic : string;
  ct_EventsTopic : string; ct_DeadLetterTopic : string; ct_FairnessTimeIngest : string;
  ct_FairnessThroughputIngest : string; ct_ReplicationFactor : Z; ct_ForcePartitions : Z;
  ct_IncludeControlPlane : bool; ct_MaxScheduleHorizon : Z; ct_Manifest : Manifest; ct_ExtraTopics : list string
}.

Definition scheduledConfig (horizon : Z) : list (string * string) :=
  let s := Z.quot horizon 1000000000 in
  let s := if s <? 1 then 30 * 24 * 3600 else s in
  let retention := int64 ((s + 86400) * 1000) in
  let min := 7 * 24 * 3600 * 1000 in
  [("retention.ms", itoa (if retention <? min then min else retention)); ("cleanup.policy", "delete")].

Definition resolve_topic (ct : ClientTopics) (base : string) : string :=
  if String.eqb (ct_TopicPrefix ct) "" || String.eqb base "" then base
  else prefixName (ct_TopicPrefix ct +:+ ".") base.

(** A topic that is asked for: its name, its category and its configuration. *)
Definition wish : Type := string * string * list (string * string).

Definition spec_of (ct : ClientTopics) (w : wish) : Spec :=
  let '(name, category, cfg) := w in
  let parts := if 0 <? ct_ForcePartitions ct then ct_ForcePartitions ct else DefaultPartitions category in
  mkTopicSpec name (if parts <? 1 then DefaultPartitions "jobs" else parts)
    (if ct_ReplicationFactor ct <? 1 then 1 else ct_ReplicationFactor ct) cfg category.

(** The first wish for a name counts. *)
Fixpoint add_all (ct : ClientTopics) (seen : gset string) (ws : list wish) : list Spec :=
  match ws with
  | [] => []
  | (name, category, cfg) :: ws =>
      let name := TrimSpace name in
      if String.eqb name "" || bool_decide (name ∈ seen) then add_all ct seen ws
      else spec_of ct (name, category, cfg) :: add_all ct ({[name]} ∪ seen) ws
  end.

(** The lanes the handlers name, in the order they are visited. *)
Definition lanes_of (m : Manifest) : list string :=
  dedup ∅ (filter (fun l => l <> "") ((fun e => HE_FairnessType e.2) <$> m)).

Definition lane_wish (ct : ClientTopics) (lane : string) : list wish :=
  if String.eqb lane "time" then [(resolve_topic ct (ct_FairnessTimeIngest ct), "ingest", [])]
  else if String.eqb lane "throughput" then [(resolve_topic ct (ct_FairnessThroughputIngest ct), "ingest", [])]
  else [].

Definition control_wishes (ct : ClientTopics) : list wish :=
  if negb (ct_IncludeControlPlane ct) then []
  else
    [(resolve_topic ct (or_text (ct_EventsTopic ct) "kafka_batch.events"), "events", []);
     (resolve_topic ct (or_text (ct_DeadLetterTopic ct) "kafka_batch.dead_letter"), "dead_letter",
      [("retention.ms", itoa (30 * 24 * 3600 * 1000)); ("cleanup.policy", "delete")])].

Definition wishes (ct : ClientTopics) : list wish :=
  ((fun e => (HE_Topic e.2, "jobs", [])) <$>
     filter (fun e => HE_Topic e.2 <> "" /\ HE_FairnessType e.2 = "") (ct_Manifest ct))
  ++ mjoin (lane_wish ct <$> lanes_of (ct_Manifest ct))
  ++ [(resolve_topic ct (ct_JobsTopic ct), "jobs", []);
      (resolve_topic ct (ct_ScheduledTopic ct), "scheduled", scheduledConfig (ct_MaxScheduleHorizon ct));
      (resolve_topic ct (ct_CallbacksTopic ct), "callbacks", [])]
  ++ ((fun t => (t, "jobs", [])) <$> ct_ExtraTopics ct)
  ++ control_wishes ct.

Definition spec_le (a b : Spec) : Prop := text_le (sp_Name a) (sp_Name b).
#[export] Instance spec_le_dec (a b : Spec) : Decision (spec_le a b).
Proof. unfold spec_le. solve_decision. Defined.

Definition Specs (ct : ClientTopics) : list Spec := merge_sort spec_le (add_all ct ∅ (wishes ct)).

Definition Missing (existing : gset string) (specs : list Spec) : list string :=
  filter (fun n => n ∉ existing) (sp_Name <$> specs).

(** The outcome of provisioning; [create] is the broker's answer. *)
Record Result := mkResult { rs_Created : list string; rs_Skipped : list string; rs_Failed : list (string * string) }.

Fixpoint contains (needle s : string) : bool :=
  String.prefix needle s || match s with EmptyString => false | String _ s => contains needle s end.

Fixpoint CreateAll (existing : gset string) (create : Spec -> error) (specs : list Spec) : Result :=
  match specs with
  | [] => mkResult [] [] []
  | spec :: specs =>
      let r := CreateAll existing create specs in
      let skipped := mkResult (rs_Created r) (sp_Name spec :: rs_Skipped r) (rs_Failed r) in
      if bool_decide (sp_Name spec ∈ existing) then skipped
      else match create spec with
      | None => mkResult (sp_Name spec :: rs_Created r) (rs_Skipped r) (rs_Failed r)
      | Some e => if contains "exist" (ToLower e) then skipped
                  else mkResult (rs_Created r) (rs_Skipped r) ((sp_Name spec, e) :: rs_Failed r)
      end
  end.
