(* ===== verification/BootProps.v ===== *)
(** The properties of booting: a worker that starts runs the topics of Go
    handlers only, none of the control plane's, and none in two groups. *)
From S2P Require Import Prelude Cron Redis Client Kafka Protocol Fairness Concrete Sql Tenants Enqueue Job Gates GatesProps DaemonConfig DaemonConfigProps Boot.

(** ** Lists of topics *)

Lemma elem_of_dedup (l : list string) (seen : gset string) (t : string) :
  t ∈ dedup seen l <-> t ∈ l /\ t ∉ seen.
Proof.
  induction l as [|x l IH] in seen |- *; cbn; [set_solver|].
  case_bool_decide as Hx.
  - rewrite IH. set_solver.
  - rewrite !elem_of_cons, IH, not_elem_of_union, not_elem_of_singleton.
    destruct (decide (t = x)) as [->|]; naive_solver.
Qed.

Lemma NoDup_dedup (l : list string) (seen : gset string) : NoDup (dedup seen l).
Proof.
  induction l as [|x l IH] in seen |- *; cbn; [constructor|]. case_bool_decide; [done|].
  apply NoDup_cons. split; [|done]. rewrite elem_of_dedup. set_solver.
Qed.

Lemma elem_of_uniqueStrings (l : list string) (t : string) : t ∈ uniqueStrings l <-> t ∈ l /\ t <> "".
Proof. unfold uniqueStrings. rewrite elem_of_dedup, list_elem_of_filter. set_solver. Qed.

Lemma distinct_topics_served (keep : HandlerEntry -> bool) (d : string) (m : Manifest) (seen : gset string) (t : string) :
  t ∈ distinct_topics keep d seen m -> exists e, e ∈ m /\ keep e.2 = true /\ topic_of d e.2 = t.
Proof.
  induction m as [|[j h] m IH] in seen |- *; cbn [distinct_topics]; [by intros ?%elem_of_nil|].
  destruct (keep h) eqn:Ek; cbn [negb orb].
  2:{ intros (e & He & ?)%IH. exists e. split; [by right|done]. }
  case_bool_decide; [intros (e & He & ?)%IH; exists e; split; [by right|done]|].
  intros [->|(e & He & ?)%IH]%elem_of_cons; [exists (j, h); split; [left|done]|exists e; split; [by right|done]].
Qed.

Lemma JobTopicsGo_served (m : Manifest) (d t : string) : t ∈ JobTopicsGo m d -> served m d t RuntimeGo.
Proof.
  intros (e & He & [Hp Hr]%andb_prop & Ht)%distinct_topics_served. apply String.eqb_eq in Hr. by exists e.
Qed.

(** ** Priority groups *)

Lemma load_priorities_distinct (read : string -> file_read) (cfg : Daemon) (reg : list Gates.Config) :
  load_priorities read cfg = inr reg -> NoDup (mjoin (pr_Topics <$> reg)) /\ AllTopics reg = mjoin (pr_Topics <$> reg).
Proof.
  unfold load_priorities. case_bool_decide; [intros [= <-]; split; [constructor|done]|].
  destruct (LoadRegistry _ _ _ _) as [e|cs] eqn:E; [done|]. intros [= <-].
  destruct (LoadRegistry_accepts read (D_PriorityConfigPaths cfg) (priority_view cfg) (D_JobsTopics cfg) cs) as [H1 H2].
  by split; [apply H1|apply H2].
Qed.

Lemma goPriorityConfigs_sublist (cfg : Daemon) (reg : list Gates.Config) (m : Manifest) (d : string) :
  mjoin (pr_Topics <$> goPriorityConfigs cfg reg m d) `sublist_of` mjoin (pr_Topics <$> reg).
Proof.
  unfold goPriorityConfigs. induction reg as [|pc reg IH]; [done|]. cbn. case_bool_decide; cbn.
  - by apply sublist_inserts_l.
  - apply sublist_app; [apply sublist_filter|done].
Qed.

Lemma goPriorityConfigs_go (cfg : Daemon) (reg : list Gates.Config) (m : Manifest) (d t : string) :
  t ∈ mjoin (pr_Topics <$> goPriorityConfigs cfg reg m d) -> TopicRuntime m t d = RuntimeGo.
Proof.
  unfold goPriorityConfigs. induction reg as [|pc reg IH]; cbn; [by intros ?%elem_of_nil|].
  case_bool_decide; cbn; [done|]. intros [Hf|?]%elem_of_app; [|by apply IH].
  by apply list_elem_of_filter in Hf as [Hf _].
Qed.

(** ** A worker's topics *)

(** A topic with Go handlers and no others.  A topic of the configuration is
    looked up without the blanks around it. *)
Definition runs_go (m : Manifest) (d t : string) : Prop :=
  exists t', (t' = t \/ t' = TrimSpace t) /\ served m d t' RuntimeGo /\ forall rt, served m d t' rt -> rt = RuntimeGo.

Lemma served_runs_go (m : Manifest) (d t t' : string) : exclusive m d -> t' = t \/ t' = TrimSpace t ->
  served m d t' RuntimeGo -> runs_go m d t.
Proof. intros [_ Hf] Ht Hs. exists t'. split_and!; [done..|]. intros rt Hr. by apply (Hf t'). Qed.

Lemma plain_topics_go (cfg : Daemon) (m : Manifest) (reg : list Gates.Config) (d t : string) :
  ValidateRouting m d = None -> t ∈ plain_topics cfg m reg d -> runs_go m d t /\ t ∉ AllTopics reg.
Proof.
  intros Hv [Hn Ht]%list_elem_of_filter. split; [|done]. apply elem_of_uniqueStrings in Ht as [Ht _].
  pose proof (proj1 (ValidateRouting_exclusive m d) Hv) as He.
  apply elem_of_app in Ht as [Ht%JobTopicsGo_served|[Ht _]%list_elem_of_filter].
  - by apply (served_runs_go m d t t); [|left|].
  - apply TopicRuntime_spec in Ht; [|done|done]. by apply (served_runs_go m d t (TrimSpace t)); [|right|].
Qed.

Lemma Validate_none (registered : string -> bool) (m : Manifest) (d : string) : Validate registered m d = None ->
  ValidateRouting m d = None /\ forall e, e ∈ m -> runtime_of e.2 = RuntimeGo -> registered e.1 = true.
Proof.
  unfold Validate. destruct (ValidateRouting m d); [done|]. unfold ValidateGoHandlersRegistered.
  destruct (find _ m) as [[j h]|] eqn:Ef; [done|]. intros _. split; [done|]. intros e He Hr.
  pose proof (find_none _ _ Ef e ltac:(by apply list_elem_of_In)) as Hn. cbn in Hn.
  rewrite Hr in Hn. cbn in Hn. by apply negb_false_iff in Hn.
Qed.

(** A successful plan and what it is made of. *)
Lemma plan_worker_inv (cfg : Daemon) (m : Manifest) (registered : string -> bool) (read : string -> file_read) (p : worker_plan) :
  plan_worker cfg m registered read = inr p ->
  let d := defaultJobsTopic cfg in
  exists reg, Validate registered m d = None /\ ValidateFairReadySplit cfg m = None /\ ValidateExecutionMode cfg = None
    /\ load_priorities read cfg = inr reg
    /\ p = mkPlan (plain_topics cfg m reg d) (goPriorityConfigs cfg reg m d) (workerFairReadyTopics cfg m) (WatermarkMode cfg)
    /\ ~ (wp_jobs p = [] /\ wp_fair p = [] /\ wp_priority p = [])
    /\ forall t, t ∈ execTopics p -> t ∉ ControlPlaneTopics cfg.
Proof.
  intros E d. unfold plan_worker in E. fold d in E.
  destruct (Validate registered m d); [done|]. destruct (ValidateFairReadySplit cfg m); [done|].
  destruct (HasGoHandlers m); cbn [negb] in E; [|done]. destruct (ValidateExecutionMode cfg); [done|].
  destruct (no_sink cfg); [done|]. destruct (load_priorities read cfg) as [e|reg]; [done|]. exists reg.
  set (q := mkPlan _ _ _ _) in E. destruct (_ && _) eqn:Eb; [done|].
  destruct (filter _ (execTopics q)) as [|t ts] eqn:Ef; [|done]. injection E as <-. split_and!; try done.
  - intros (H1 & H2 & H3). rewrite H1, H2, H3 in Eb. done.
  - intros t Ht Hc. assert (t ∈ filter (fun t => t ∈ ControlPlaneTopics cfg) (execTopics q)) as Hf.
    { by apply list_elem_of_filter. }
    rewrite Ef in Hf. by apply elem_of_nil in Hf.
Qed.

(** C36: A worker whose configuration and manifest are accepted has work, runs no
    topic of the control plane, whose jobs would be counted twice or corrupt its
    state, consumes no topic both plainly and in a priority group or in two
    groups, runs on those topics handlers of the Go runtime only, and has every
    Go handler of the manifest registered. *)
Theorem worker_topics_sound (cfg : Daemon) (m : Manifest) (registered : string -> bool) (read : string -> file_read)
    (p : worker_plan) :
  plan_worker cfg m registered read = inr p ->
  let d := defaultJobsTopic cfg in
  let flat := wp_jobs p ++ mjoin (pr_Topics <$> wp_priority p) in
  ~ (wp_jobs p = [] /\ wp_fair p = [] /\ wp_priority p = [])
  /\ (forall t, t ∈ execTopics p -> t ∉ ControlPlaneTopics cfg)
  /\ NoDup flat /\ (forall t, t ∈ flat -> runs_go m d t)
  /\ (forall e, e ∈ m -> runtime_of e.2 = RuntimeGo -> registered e.1 = true).
Proof.
  intros Hp d flat. destruct (plan_worker_inv _ _ _ _ _ Hp) as (reg & Hv & _ & _ & Hr & -> & Hne & Hc). fold d in Hv, Hc, Hne.
  destruct (Validate_none _ _ _ Hv) as [Hv' Hreg]. destruct (load_priorities_distinct _ _ _ Hr) as [Hnd Hall].
  subst flat. cbn [wp_jobs wp_priority]. split_and!; [done|done| | |done].
  - apply NoDup_app. split_and!.
    + apply NoDup_filter, NoDup_dedup.
    + intros t Ht Hin. apply plain_topics_go in Ht as [_ Ht]; [|done]. apply Ht. rewrite Hall.
      eapply sublist_subseteq; [apply goPriorityConfigs_sublist|exact Hin].
    + eapply sublist_NoDup; [exact Hnd|apply goPriorityConfigs_sublist].
  - intros t [Ht|Ht]%elem_of_app; [by eapply plain_topics_go|].
    apply goPriorityConfigs_go, TopicRuntime_spec in Ht; [|done|done].
    apply (served_runs_go m d t (TrimSpace t)); [by apply ValidateRouting_exclusive|by right|done].
Qed.

(** ** A worker that boots *)

Definition go_handler (topic : string) : HandlerEntry := mkHandlerEntry "Go" "" topic false 0 "" "" false.
Definition ruby_handler (topic : string) : HandlerEntry := mkHandlerEntry "ruby" "R" topic false 0 "" "" false.

Definition demo_manifest : Manifest :=
  [("a", go_handler ""); ("r", ruby_handler "acme.q0"); ("b", go_handler "acme.p1"); ("f", mkHandlerEntry "go" "" "" false 0 "" "time" false)].
Definition demo_cfg : Daemon :=
  DefaultDaemon "h" <| D_PriorityConfigPaths := ["a.yml"; "b.yml"] |> <| D_TopicPrefix := "acme" |> <| D_FairnessEnabled := true |>.
Definition demo_plan : worker_plan :=
  mkPlan ["acme.kafka_batch.jobs"]
    [mkConfig "a.yml" "fast" "kafka-batch-go-worker-fast" "strict" ["acme.p1"] 4]
    [mkFairSpec "time" "kafka_batch.fair_time_ready.go"] false.

Lemma worker_topics_sound_witness :
  (forall t, t ∈ execTopics demo_plan -> t ∉ ControlPlaneTopics demo_cfg)
  /\ NoDup ["acme.kafka_batch.jobs"; "acme.p1"]
  /\ (forall t, t ∈ ["acme.kafka_batch.jobs"; "acme.p1"] -> runs_go demo_manifest "acme.kafka_batch.jobs" t).
Proof.
  destruct (worker_topics_sound demo_cfg demo_manifest (fun _ => true) two_files demo_plan) as (_ & H1 & H2 & H3 & _).
  - vm_compute. reflexivity.
  - exact (conj H1 (conj H2 H3)).
Defined.

(** ** The processes agree *)

Lemma string_app_assoc (a b c : string) : (a +:+ b) +:+ c = a +:+ b +:+ c.
Proof. induction a as [|x a IH]; [done|]. by rewrite !string_app_cons, IH. Qed.

(** The daemon and the workers take the same topic for handlers without one. *)
Lemma default_topics_agree (cfg : Daemon) : daemonDefaultTopic cfg = defaultJobsTopic cfg.
Proof.
  unfold daemonDefaultTopic, defaultJobsTopic, prefixOr.
  destruct (String.eqb_spec (D_TopicPrefix cfg) "") as [_|Hp]; [done|].
  assert (HasPrefix "" (D_TopicPrefix cfg +:+ ".") = false) as ->.
  { unfold HasPrefix. by destruct (D_TopicPrefix cfg). }
  by rewrite !string_app_assoc.
Qed.

(** A worker that boots has a manifest the daemon accepts as well. *)
Lemma worker_routing_holds_in_daemon (cfg : Daemon) (m : Manifest) (registered : string -> bool)
    (read : string -> file_read) (p : worker_plan) :
  plan_worker cfg m registered read = inr p ->
  ValidateRouting m (daemonDefaultTopic cfg) = None /\ ValidateFairReadySplit cfg m = None /\ ValidateExecutionMode cfg = None.
Proof.
  intros (reg & Hv & Hs & Hm & _)%plan_worker_inv. rewrite default_topics_agree. split_and!; [|done..].
  by apply Validate_none in Hv as [Hv _].
Qed.

(** A store named mysql with blanks around it must have a connection string, as
    MySQL must, and pauses and failures are then kept without MySQL. *)
Theorem blanks_hide_mysql (cfg : Daemon) :
  D_Store cfg = " mysql" -> D_SchedulePollerEnabled cfg = false ->
  (ValidateMySQLConfig cfg = None <-> TrimSpace (D_StoreMySQLDSN cfg) <> "")
  /\ BuildPauseControl cfg = OnRedis /\ BuildFailureRecorder cfg = OnRedis.
Proof.
  intros Hs Hp. unfold ValidateMySQLConfig, BuildPauseControl, BuildFailureRecorder, mysql_backend.
  rewrite Hs, Hp. cbn. split; [|done]. destruct (String.eqb_spec (TrimSpace (D_StoreMySQLDSN cfg)) ""); naive_solver.
Qed.

(** A plain handler on the ready topic of a lane is accepted: the worker then
    consumes that topic in two groups. *)
Theorem ready_topic_consumed_twice :
  exists p, plan_worker (demo_cfg <| D_PriorityConfigPaths := [] |>)
              [("a", go_handler "kafka_batch.fair_time_ready.go"); ("f", mkHandlerEntry "go" "" "" false 0 "" "time" false)]
              (fun _ => true) (fun _ => FileMissing) = inr p
    /\ wp_jobs p = ["kafka_batch.fair_time_ready.go"]
    /\ fairReadyTopicNames (wp_fair p) = ["kafka_batch.fair_time_ready.go"].
Proof. eexists. split; [vm_compute; reflexivity|]. done. Qed.

(** What is left in flight at shutdown is the sum over the members, and their
    live keys are given up exactly when there is something left. *)
Lemma drain_deletes_when_left (members : list (string * Z)) : Forall (fun e => 0 <= e.2) members ->
  drainWorkerSuperFetch members = [] <-> members = [] \/ Forall (fun e => e.2 = 0) members.
Proof.
  intros Hm. assert (forall l a, Forall (fun z => 0 <= z) l -> 0 <= a -> a <= foldl Z.add a l
    /\ (foldl Z.add a l = a <-> Forall (fun z => z = 0) l)) as Hsum.
  { clear. induction l as [|z l IH]; intros a Hl Ha; cbn; [split; [lia|done]|].
    apply Forall_cons in Hl as [Hz Hl]. destruct (IH (a + z) Hl) as [I1 I2]; [lia|]. rewrite Forall_cons. split; [lia|].
    rewrite <- I2. split; [intros E; assert (z = 0) by lia; subst; split; lia|intros [-> E]; lia]. }
  destruct (Hsum members.*2 0) as [S1 S2]; [by apply Forall_fmap|lia|].
  unfold drainWorkerSuperFetch, waitAllInFlight. rewrite Forall_fmap in S2.
  destruct (Z.ltb_spec 0 (foldl Z.add 0 members.*2)) as [Hlt|Hge].
  - split.
    + intros E. left. by destruct members.
    + intros [->|E]; [done|]. apply S2 in E. lia.
  - split; [intros _; right; apply S2; lia|done].
Qed.

(** ** Provisioned topics *)

Lemma add_all_spec (ct : ClientTopics) (ws : list wish) (seen : gset string) :
  NoDup (sp_Name <$> add_all ct seen ws)
  /\ Forall (fun s => sp_Name s <> "" /\ sp_Name s ∉ seen /\ 1 <= sp_Partitions s /\ 1 <= sp_ReplicationFactor s) (add_all ct seen ws)
  /\ forall name category cfg, (name, category, cfg) ∈ ws -> TrimSpace name <> "" ->
       TrimSpace name ∈ seen \/ TrimSpace name ∈ sp_Name <$> add_all ct seen ws.
Proof.
  induction ws as [|[[name category] cfg] ws IH] in seen |- *; cbn [add_all].
  { split_and!; [constructor|constructor|by intros * ?%elem_of_nil]. }
  destruct (String.eqb_spec (TrimSpace name) "") as [E|E]; cbn [orb].
  { destruct (IH seen) as (I1 & I2 & I3). split_and!; [done..|].
    intros n c g [[= -> -> ->]|Hin]%elem_of_cons Hn; [done|by eapply I3]. }
  case_bool_decide as Hs.
  { destruct (IH seen) as (I1 & I2 & I3). split_and!; [done..|].
    intros n c g [[= -> -> ->]|Hin]%elem_of_cons Hn; [by left|by eapply I3]. }
  destruct (IH ({[TrimSpace name]} ∪ seen)) as (I1 & I2 & I3). split_and!.
  - cbn. apply NoDup_cons. split; [|done]. intros ([n ? ? ? ?] & Hn & Hin)%list_elem_of_fmap.
    rewrite Forall_forall in I2. apply I2 in Hin as (_ & Hin & _). cbn in *. set_solver.
  - constructor.
    + cbn. split_and!; [done|done| |by destruct (Z.ltb_spec (ct_ReplicationFactor ct) 1)].
      set (parts := if 0 <? _ then _ else _). destruct (Z.ltb_spec parts 1); [vm_compute; done|lia].
    + eapply Forall_impl; [exact I2|]. cbn. intros s (? & ? & ? & ?). set_solver.
  - intros n c g [[= -> -> ->]|Hin]%elem_of_cons Hn; [right; by left|].
    destruct (I3 n c g Hin Hn) as [Hu|Hu]; [|right; by right]. apply elem_of_union in Hu as [Hu%elem_of_singleton|Hu]; [|by left].
    right. cbn. rewrite Hu. by left.
Qed.

#[export] Instance spec_le_total : Total spec_le.
Proof. intros a b. unfold spec_le, text_le. destruct (String.leb_total (sp_Name a) (sp_Name b)); auto. Qed.

#[export] Instance spec_le_trans : Transitive spec_le.
Proof. intros a b c. unfold spec_le, text_le. apply string_leb_trans. Qed.

(** The topics to create have distinct names that are not empty, in order, with
    at least one partition and replica each; every topic a handler, a lane or the
    client asks for is among them. *)
Theorem Specs_complete (ct : ClientTopics) :
  StronglySorted spec_le (Specs ct) /\ NoDup (sp_Name <$> Specs ct)
  /\ Forall (fun s => sp_Name s <> "" /\ 1 <= sp_Partitions s /\ 1 <= sp_ReplicationFactor s) (Specs ct)
  /\ forall name category cfg, (name, category, cfg) ∈ wishes ct -> TrimSpace name <> "" ->
       TrimSpace name ∈ sp_Name <$> Specs ct.
Proof.
  destruct (add_all_spec ct (wishes ct) ∅) as (H1 & H2 & H3). unfold Specs.
  pose proof (merge_sort_Permutation spec_le (add_all ct ∅ (wishes ct))) as Hp. split_and!.
  - apply StronglySorted_merge_sort; apply _.
  - by rewrite Hp.
  - rewrite Hp. eapply Forall_impl; [exact H2|]. naive_solver.
  - intros name category cfg Hin Hn. rewrite Hp. destruct (H3 _ _ _ Hin Hn); [set_solver|done].
Qed.

(** Every topic to create is reported once: created, there already, or failed. *)
Theorem CreateAll_reports (existing : gset string) (create : Spec -> error) (specs : list Spec) :
  let r := CreateAll existing create specs in
  rs_Created r ++ rs_Skipped r ++ (rs_Failed r).*1 ≡ₚ sp_Name <$> specs.
Proof.
  induction specs as [|s specs IH]; cbn; [done|]. cbn in IH.
  case_bool_decide; [|destruct (create s) as [e|]; [destruct (contains _ _)|]]; cbn; rewrite <- IH;
    rewrite ?Permutation_middle; try done; by rewrite app_assoc, Permutation_middle, <- app_assoc.
Qed.

(** A lane written in capitals is a lane for the runtime, and no ingest topic is
    created for it. *)
Theorem lane_in_capitals_not_created :
  let h := mkHandlerEntry "go" "" "" false 0 "" "Time" false in
  let ct := mkClientTopics "" "jobs" "sched" "cb" "" "" "ingest" "ingest2" 1 0 true 0 [("f", h)] [] in
  fairnessLane (HE_FairnessType h) = "time" /\ "ingest" ∉ sp_Name <$> Specs ct.
Proof. split; [vm_compute; reflexivity|]. vm_compute (sp_Name <$> _). set_solver. Qed.
