(* ===== verification/Expired.v ===== *)
(** Jobs that expire before they run in a fair lane: the publisher of
    pkg/daemon/expired.go, the ready topic of a job (fair_routing.go) and the
    wiring of a lane (wireFairLane of pkg/daemon/daemon.go).

    Dispatcher and forwarder hand an expired job to the publisher, which records
    it as failed in the batch ledger, writes the callbacks of a batch this
    finishes, the completion event and the dead letter, and releases the job's
    uniqueness lock. *)
From S2P Require Import Prelude Cron Redis Client Kafka Protocol Fairness Ledger Store Control Job Produce Events Forwarder Enqueue DaemonConfig.

(** What the job components use of the configuration. *)
Definition job_settings (c : DaemonConfig.Daemon) : Job.Daemon :=
  Job.mkDaemon (D_SkipCancelledJobs c) (D_MaxRetries c) (D_RetryTopicBase c) (D_RetryTiers c) (D_RetryProgression c)
    (D_TenantGuardEnabled c) (D_TenantGuardWindowSeconds c) (D_EventsTopic c) (D_CallbacksTopic c) (D_DeadLetterTopic c)
    (D_EventEmitRetries c) (D_EventEmitBackoff c).

(** [xp_Failures] is the recorder of the MySQL mode. *)
Record expiredPublisher := mkExpiredPublisher {
  xp_Cfg : Job.Daemon; xp_Store : option RedisStore; xp_Failures : option (FailureEntry -> kio unit)
}.

Definition newExpiredPublisher (cfg : Job.Daemon) (st : option RedisStore) (failures : option (FailureEntry -> kio unit))
    : expiredPublisher := mkExpiredPublisher cfg st failures.

Section publisher.
Context `{NumText} `{Json} `{TimeText}.

(** The callback of a batch that the expired job finishes. *)
Definition expired_callback (fin : FinishedBatch) : option CallbackMessage :=
  match fb_Batch fin with
  | None => None
  | Some b =>
      Some (mkCallback (ID b) (fb_Outcome fin) (TotalJobs b) (CompletedCount b) (FailedCount b) 0
              (OnSuccess b) (OnComplete b) None None (FinishedAt b) false false)
  end.

(** [json.Marshal]'s text with its error dropped. *)
Definition callback_text (cb : CallbackMessage) : string :=
  match callback_json cb with Ok s => s | Bad _ => "" end.

(** The callbacks in order, up to the first that cannot be written. *)
Fixpoint produce_finished (cfg : Job.Daemon) (fins : list FinishedBatch) : kio error :=
  match fins with
  | [] => mret None
  | fin :: fins =>
      match expired_callback fin with
      | None => produce_finished cfg fins
      | Some cb =>
          err ← Produce (CallbacksTopic cfg) (Cb_BatchID cb) (callback_text cb);
          match err with
          | Some e => mret (Some e)
          | None => produce_finished cfg fins
          end
      end
  end.

Definition completion_of (ev : EventMessage) : CompletionEvent :=
  mkCompletion (Ev_BatchID ev) (Ev_JobID ev) (Ev_Status ev) (Ev_BatchSeq ev).

(** The ledger, the callbacks and the event of a job of a batch. *)
Definition record_expired (p : expiredPublisher) (now : Z) (missing : list bool) (drop : DropOutcome) : kio error :=
  match Drop_Event drop, xp_Store p with
  | Some ev, Some st =>
      r ← redis_io (Completions.RecordCompletionsBatch st (clock_at now) missing [completion_of ev]);
      match r with
      | (_, Some e) => mret (Some e)
      | (result, None) =>
          err ← produce_finished (xp_Cfg p) (Finished result);
          match err with
          | Some e => mret (Some e)
          | None => Produce (EventsTopic (xp_Cfg p)) (event_key ev) (marshal_or_empty (event_object ev))
          end
      end
  | _, _ => mret None
  end.

Definition failure_entry (f : FailureRecord) : FailureEntry :=
  mkFailureEntry (Fr_BatchID f) (Fr_JobID f) (Fr_WorkerClass f) (Fr_ErrorClass f) (Fr_ErrorMessage f) (Fr_Status f)
    (Fr_Attempt f).

Definition record_failure (p : expiredPublisher) (drop : DropOutcome) : kio unit :=
  match Drop_Failure drop, xp_Failures p with
  | Some f, Some record => record (failure_entry f)
  | _, _ => mret tt
  end.

(** The lock is released for any job with an id; its error is dropped. *)
Definition release_expired (p : expiredPublisher) (raw : string) : kio unit :=
  let m := unmarshal_lenient raw in
  if String.eqb (str_field m "job_id") "" then mret tt
  else _ ← redis_io (ReleaseUniqLock (xp_Store p) (str_field m "_uniq_fp") (str_field m "job_id")); mret tt.

Definition publish (p : expiredPublisher) (now : Z) (missing : list bool) (raw : string) (src : SourceCoords) : kio error :=
  let drop := BuildDrop raw src now in
  err ← record_expired p now missing drop;
  match err with
  | Some e => mret (Some e)
  | None =>
      record_failure p drop;;
      err ← (if String.eqb (Drop_DLTPayload drop) "" then mret None
             else Produce (DeadLetterTopic (xp_Cfg p)) (Drop_DLTKey drop) (Drop_DLTPayload drop));
      match err with
      | Some e => mret (Some e)
      | None => release_expired p raw;; mret None
      end
  end.

(** ** The wiring of a lane *)

Definition fairReadyResolver (m : Manifest) (cfg : DaemonConfig.Daemon) (lane payload : string) : result string :=
  match unmarshal payload with
  | Bad e => Bad e
  | Ok o =>
      let jobType := str_field (fields o) "job_type" in
      if String.eqb jobType "" then Bad "missing job_type in fair payload"
      else
        let rt := RuntimeFor m jobType in
        if String.eqb rt "" then Bad ("unknown job_type " +:+ jobType +:+ " for fair ready routing")%string
        else
          let topic := FairReadyForRuntime cfg lane rt in
          if String.eqb topic "" then Bad ("no ready topic for runtime " +:+ rt +:+ " job_type " +:+ jobType)%string
          else Ok topic
  end.

(** The forwarder hands over the coordinates stamped on the job. *)
Definition forwarder_expired (p : expiredPublisher) (now : Z) (missing : list bool) (_ : CheckoutResult) (raw : string)
    : kio error :=
  publish p now missing raw (source_coords (unmarshal_lenient raw)).

Definition lane_forwarder (cfg : DaemonConfig.Daemon) (m : Manifest) (p : expiredPublisher) (now : Z) (missing : list bool)
    (lane : Lane) (name : string) (sched : Scheduler) : Forwarder :=
  mkForwarder lane sched "" (Some (fairReadyResolver m cfg name)) (Some (forwarder_expired p now missing))
    None None None None false.

Definition fairBackpressure (lane tenant : string) : string :=
  ("fair ingest backpressure lane=" +:+ lane +:+ " tenant=" +:+ tenant)%string.

(** The handler of the ingest consumer: nil commits the record. *)
Definition dispatch_handler (p : expiredPublisher) (sched : Scheduler) (name : string) (now : Z) (missing : list bool)
    (raw : string) (src : SourceCoords) : kio (outcome error) :=
  r ← Dispatch (Some sched) (Some (publish p now missing)) now raw src;
  mret (match r with
        | Panic => Panic
        | Done (_, Some e) => Done (Some e)
        | Done (out, None) => Done (if Di_CommitOffset out then None else Some (fairBackpressure name (Di_TenantID out)))
        end).
End publisher.
