(* ===== verification/ExpiredProps.v ===== *)
(** The properties of expired jobs: each counts once as failed, with its dead
    letter, event and callback; and what becomes of that callback. *)
From S2P Require Import Prelude Cron Redis Client Kafka Protocol Fairness Concrete Frame Ledger LedgerSpec LedgerRefine LedgerTrace LedgerProps Store StoreProps Control Job JobProps Produce Events EventsProps Forwarder Enqueue EnqueueWire DaemonConfig Expired.
Import Completions.

(** ** One event *)

(** Whether a reply hands out a callback. *)
Definition fired (r : reply) : bool := (r.1 =? 1) || (r.1 =? 3).

(** What the store tells about one event with reply [r], with the batch's hash
    [h] afterwards. *)
Definition told (id : string) (r : reply) (h : gmap string string) : CompletionsResult :=
  mkCompletions (if fired r then [mkFinished (hashToBatch h) r.2 (r.1 =? 3)] else [])
    (if r.1 =? 0 then [id] else []) [].

Lemma RecordCompletions_one (st : RedisStore) (now : clock) (missing : list bool) (e : CompletionEvent) (w : world) (b : batch) :
  let id := ce_BatchID e in let r := record (ce_BatchSeq e) (normal_op (ce_Status e)) b in
  quiet w -> abs (w_db w) id b -> inv b -> c_rfc3339 now <> "" -> 1 <= ce_BatchSeq e <= b_total b ->
  exists w' h, RecordCompletionsBatch st now missing [e] w = (w', (told id r.1 h, None))
    /\ quiet w' /\ abs (w_db w') id r.2 /\ get_hash (w_db w') (batchKey id) = Some h /\ hash_ok id r.2 h.
Proof.
  intros id r Hq Ha Hi Hn Hs.
  destruct (wp_run _ _ _ (done_refines id (w_db w) b (ce_BatchSeq e) (normal_op (ce_Status e)) (Store.seconds (ttl st))
    (c_rfc3339 now) (c_score now) (finishedTTLSeconds st) Ha (inv_wf _ Hi)
    (fun H1 => inv_touched_nonempty b _ Hi H1 (proj2 Hs)) Hn)) as (db' & r' & E & -> & Ha').
  assert (eval st now e (w_db w) = (db', Ok r.1)) as Ee.
  { unfold eval, Client.call, completion. unfold done_script in E. fold id. by rewrite E. }
  destruct (abs_hash _ _ _ Ha') as (h & Eh & Hh).
  assert (r.1.1 = 0 -> r.1.2 = "duplicate") as Hdup by (apply record_code; [lia|apply normal_op_valid]).
  assert (forall w1, quiet w1 -> w_db w1 = db' -> exists w', (let '(fires, out) := sort_replies [e] [Ok r.1] [] empty_out in
    finalize fires out) w1 = (w', (told id r.1 h, None)) /\ quiet w' /\ w_db w' = db') as Hfin.
  { intros w1 Hq1 <-. cbn [sort_replies]. unfold told, fired. destruct r.1 as [c pl]. cbn [fst snd] in *.
    destruct ((c =? 1) || (c =? 3)) eqn:Ef.
    - unfold finalize. cbn [app length]. rewrite decide_False by done. unfold mbind, io_bind.
      destruct (pipeline_quiet ((fun f => command (HGETALL (batchKey (ce_BatchID (f_event f))))) <$> [mkFire e c pl]) w1 Hq1)
        as (net & -> & Hnet).
      rewrite (run_cmds_read _ (fun _ => h)) by (intros f ->%list_elem_of_singleton; by apply hgetall_ok).
      cbn. assert (c =? 0 = false) as -> by (destruct (Z.eqb_spec c 0) as [->|]; done).
      eexists. split; [reflexivity|]. done.
    - destruct (Z.eqb_spec c 0) as [->|Hc].
      + rewrite Hdup by done. cbn. exists w1. done.
      + cbn. exists w1. done. }
  unfold RecordCompletionsBatch. rewrite decide_False by done. unfold run_completions. unfold mbind, io_bind.
  change ((fun e => Client.call (completion st now e)) <$> [e]) with [eval st now e]. cbn [refuse].
  match goal with |- context [pipeline ?cs w] => destruct (pipeline_quiet cs w Hq) as (net & -> & Hnet) end.
  destruct (default false (head missing)).
  - cbn [run_cmds fst snd first_error]. change (is_noscript noscriptError) with true. cbv iota.
    change (again [eval st now e] [Bad noscriptError : result reply]) with [eval st now e]. rewrite decide_False by done.
    match goal with |- context [pipeline ?cs ?w1] => destruct (pipeline_quiet cs w1 Hnet) as (net2 & -> & Hnet2) end.
    cbn [run_cmds fst snd w_db]. rewrite Ee. cbn [fst snd first_error]. unfold mret, io_ret.
    change (patch [Bad noscriptError] [Ok r.1]) with [Ok r.1 : result reply]. cbn [fst snd].
    destruct (Hfin (World db' net2) Hnet2 eq_refl) as (w' & E' & Hq' & Hd'). exists w', h. rewrite Hd'. split; [exact E'|done].
  - cbn [run_cmds fst snd w_db]. rewrite Ee. cbn [fst snd first_error]. unfold mret, io_ret.
    destruct (Hfin (World db' net) Hnet eq_refl) as (w' & E' & Hq' & Hd'). exists w', h. rewrite Hd'. split; [exact E'|done].
Qed.

(** ** Publishing *)

(** A key of the uniqueness locks is none of the ledger's. *)
Definition lock_name (k : string) : Prop := exists s, k = Uniq.KeyPrefix +:+ s.

Lemma abs_apart (db db' : redis) (id : string) (b : batch) :
  (forall k, ~ lock_name k -> kdb db' !! k = kdb db !! k) -> abs db id b -> abs db' id b.
Proof.
  intros Hk [H1 H2 H3 H4 H5 H6].
  assert (forall k, ~ lock_name k -> same_at k db' db) as Hs by done.
  split; [rewrite (same_get_hash _ _ _ (Hs (batchKey id) ltac:(by intros [??])))
         |rewrite (same_get_bits _ _ _ (Hs (bitmapKey id) ltac:(by intros [??])))
         |rewrite (same_get_bits _ _ _ (Hs (okBitmapKey id) ltac:(by intros [??])))
         |rewrite (same_get_bits _ _ _ (Hs (failBitmapKey id) ltac:(by intros [??])))
         |apply (shared_same db); [apply Hs; by intros [??]..|done]
         |rewrite (same_get_int _ _ _ (Hs (seqKey id) ltac:(by intros [??])))]; done.
Qed.

Lemma release_frames (k jobID : string) : lock_name k -> frames lock_name (Uniq.releaseLua k jobID).
Proof.
  intros Hk. unfold Uniq.releaseLua. apply frames_bind; [apply frames_read|]. intros v.
  destruct (decide _); [|apply frames_return]. apply frames_bind; [by apply frames_DEL|]. intros _. apply frames_return.
Qed.

Lemma release_tame (st : option RedisStore) (fp jobID : string) : tame lock_name (ReleaseUniqLock st fp jobID).
Proof.
  unfold ReleaseUniqLock, Uniq.ReleaseLock. destruct st; [|apply tame_ret]. destruct (_ || _); [apply tame_ret|].
  unfold Uniq.lock_key. destruct (Uniq.hex_decode fp) as [bin|]; [|apply tame_ret].
  destruct (decide _); [|apply tame_ret]. apply tame_bind; [|intros; apply tame_ret].
  apply tame_call, release_frames. by eexists.
Qed.

Section publishing.
Context `{NumText} `{JsonLaws} `{TimeLaws}.
Context (text_nonempty : forall m, marshal m <> Ok "").
Context (p : expiredPublisher) (st : RedisStore) (Hst : xp_Store p = Some st).
Context (recorder_apart : forall record f S, xp_Failures p = Some record -> (record f S).1 = S).

Lemma drop_event_failed (raw : string) (src : SourceCoords) (now : Z) (ev : EventMessage) :
  Drop_Event (BuildDrop raw src now) = Some ev -> normal_op (Ev_Status ev) = "failed".
Proof. unfold BuildDrop. destruct (num_field _ _); [|done]. destruct (_ && _); [|done]. by intros [= <-]. Qed.

Lemma dead_letter_nonempty (raw : string) (src : SourceCoords) (now : Z) : Drop_DLTPayload (BuildDrop raw src now) <> "".
Proof.
  assert (forall m, marshal_or_empty m <> "") as Hm.
  { intros m. unfold marshal_or_empty. destruct (marshal_ok m) as [s E]. rewrite E. intros ->. by apply (text_nonempty m). }
  unfold BuildDrop. destruct (num_field _ _); [|apply Hm]. destruct (_ && _); apply Hm.
Qed.

Definition event_message (ev : EventMessage) : message :=
  Msg (EventsTopic (xp_Cfg p)) (event_key ev) (marshal_or_empty (event_object ev)).
Definition dead_letter (drop : DropOutcome) : message :=
  Msg (DeadLetterTopic (xp_Cfg p)) (Drop_DLTKey drop) (Drop_DLTPayload drop).

(** The callback of a batch with the hash [h], and its message. *)
Definition callback_for (id outcome : string) (h : gmap string string) : CallbackMessage :=
  mkCallback id outcome (parseInt (at_key h "total_jobs")).1 (parseInt (at_key h "completed_count")).1
    (parseInt (at_key h "failed_count")).1 0 (at_key h "on_success") (at_key h "on_complete") None None
    (at_key h "finished_at") false false.
Definition callback_message_for (id outcome : string) (h : gmap string string) : message :=
  Msg (CallbacksTopic (xp_Cfg p)) id (callback_text (callback_for id outcome h)).

Lemma produce_told (id : string) (r : reply) (b : batch) (h : gmap string string) (S : system) :
  calm S -> hash_ok id b h ->
  exists S', produce_finished (xp_Cfg p) (Finished (told id r h)) S = (S', None) /\ calm S' /\ sys S' = sys S
    /\ k_log S' = k_log S ++ (if fired r then [callback_message_for id r.2 h] else []).
Proof.
  intros Hc Hh. unfold told. cbn [Finished]. destruct (fired r).
  2:{ exists S. by rewrite app_nil_r. }
  cbn [produce_finished]. unfold expired_callback, hashToBatch. cbn [fb_Batch].
  rewrite decide_False by (by eapply hash_ok_nonempty). cbn [fb_Outcome ID TotalJobs CompletedCount FailedCount OnSuccess OnComplete FinishedAt Cb_BatchID].
  assert (at_key h "id" = id) as -> by (unfold at_key; by rewrite (ho_id _ _ _ Hh)).
  unfold mbind, kio_bind.
  match goal with |- context [Produce ?t ?k ?m S] => destruct (Produce_calm t k m S Hc) as (net & -> & Hn) end.
  eexists. split; [reflexivity|]. split; [split; [apply Hc|done]|]. done.
Qed.

(** One delivery of an expired job of a batch. *)
Lemma publish_one (raw : string) (src : SourceCoords) (now : Z) (missing : list bool) (S : system) (ev : EventMessage) (b : batch) :
  let drop := BuildDrop raw src now in let id := Ev_BatchID ev in let r := LedgerSpec.record (Ev_BatchSeq ev) "failed" b in
  calm S -> Drop_Event drop = Some ev -> abs (w_db (sys S)) id b -> inv b -> 1 <= Ev_BatchSeq ev <= b_total b ->
  exists S' h, publish p now missing raw src S = (S', None) /\ calm S' /\ abs (w_db (sys S')) id r.2 /\ hash_ok id r.2 h
    /\ k_log S' = k_log S ++ (if fired r.1 then [callback_message_for id r.1.2 h] else []) ++ [event_message ev; dead_letter drop].
Proof.
  intros drop id r Hc Hev Ha Hi Hs. unfold publish. fold drop. unfold mbind at 1, kio_bind at 1.
  unfold record_expired. rewrite Hev, Hst. unfold mbind at 1, kio_bind at 1. unfold redis_io.
  destruct (RecordCompletions_one st (clock_at now) missing (completion_of ev) (sys S) b) as (w' & h & -> & Hq & Ha' & _ & Hh);
    [apply Hc|done|done|apply format_not_empty|done|].
  cbn [ce_Status ce_BatchSeq ce_BatchID completion_of] in *. rewrite (drop_event_failed _ _ _ _ Hev) in *. fold id r in Ha', Hh |- *.
  unfold mbind at 1, kio_bind at 1.
  match goal with |- context [produce_finished _ _ ?S1] =>
    destruct (produce_told id r.1 r.2 h S1) as (S2 & -> & Hc2 & Es2 & El2); [split; [done|apply Hc]|done|] end.
  match goal with |- context [Produce ?t ?k ?m S2] => destruct (Produce_calm t k m S2 Hc2) as (net3 & -> & Hn3) end.
  rewrite Es2. cbn [sys]. unfold record_failure.
  assert (forall S, (match Drop_Failure drop, xp_Failures p with Some f, Some record => record (failure_entry f) | _, _ => mret tt end : kio unit) S
     = (S, tt)) as Hrec.
  { intros T. destruct (Drop_Failure drop) as [f|]; [|done]. destruct (xp_Failures p) as [record|] eqn:Er; [|done].
    pose proof (recorder_apart record (failure_entry f) T eq_refl) as E1. destruct (record (failure_entry f) T) as [T' []]. by rewrite <- E1. }
  unfold mbind at 1, kio_bind at 1. rewrite Hrec.
  pose proof (proj2 (String.eqb_neq _ _) (dead_letter_nonempty raw src now)) as Hne. fold drop in Hne. rewrite Hne. unfold mbind at 1, kio_bind at 1.
  match goal with |- context [Produce ?t ?k ?m ?T] => destruct (Produce_calm t k m T) as (net4 & -> & Hn4); [by split|] end.
  cbn [sys k_log]. unfold release_expired, mbind, kio_bind. fold drop.
  assert (k_log S2 ++ [event_message ev] ++ [dead_letter drop]
    = k_log S ++ (if fired r.1 then [callback_message_for id r.1.2 h] else []) ++ [event_message ev; dead_letter drop]) as El.
  { rewrite El2. cbn [k_log]. by rewrite <- app_assoc. }
  clear Hne. destruct (String.eqb (str_field (unmarshal_lenient raw) "job_id") "").
  - eexists _, h. split; [reflexivity|]. cbn [k_log sys]. split_and!; [by split|done|done|]. by rewrite <- El, app_assoc.
  - unfold redis_io. cbn [sys].
    match goal with |- context [ReleaseUniqLock ?a ?f ?j ?w] => destruct (release_tame a f j w Hq) as [Hq5 Hk5]; destruct (ReleaseUniqLock a f j w) as [w5 e5] end.
    eexists _, h. split; [reflexivity|]. cbn [fst sys k_log] in *. split_and!; [by split| |done|].
    + by apply (abs_apart (w_db w')).
    + by rewrite <- El, app_assoc.
Qed.
(** ** Deliveries *)

(** The coordinates, the instant and the server's scripts at a delivery. *)
Definition occasion : Type := SourceCoords * Z * list bool.

Fixpoint publish_all (raw : string) (ds : list occasion) : kio (list error) :=
  match ds with
  | [] => mret []
  | (src, now, missing) :: ds => e ← publish p now missing raw src; es ← publish_all raw ds; mret (e :: es)
  end.

Definition drop_at (raw : string) (d : occasion) : DropOutcome := BuildDrop raw d.1.1 d.1.2.

(** The completion event and the dead letter of a delivery. *)
Definition reports (raw : string) (d : occasion) : list message :=
  match Drop_Event (drop_at raw d) with Some ev => [event_message ev] | None => [] end ++ [dead_letter (drop_at raw d)].

Lemma reports_of (raw : string) (d : occasion) (ds : list occasion) (ev : EventMessage) : Drop_Event (drop_at raw d) = Some ev ->
  mjoin (reports raw <$> d :: ds) = [event_message ev; dead_letter (drop_at raw d)] ++ mjoin (reports raw <$> ds).
Proof. intros E. rewrite fmap_cons. cbn [mjoin list_join]. unfold reports at 1. by rewrite E. Qed.

Lemma drop_event_stable (raw : string) (d d' : occasion) (ev : EventMessage) : Drop_Event (drop_at raw d) = Some ev ->
  exists ev', Drop_Event (drop_at raw d') = Some ev' /\ Ev_BatchID ev' = Ev_BatchID ev /\ Ev_BatchSeq ev' = Ev_BatchSeq ev
    /\ Ev_BatchID ev <> "".
Proof.
  unfold drop_at, BuildDrop. destruct (num_field _ _); [|done].
  destruct (String.eqb_spec (str_field (unmarshal_lenient raw) "batch_id") "") as [|Hne]; [done|]. cbn [negb andb].
  destruct (Qle_bool _ _); [done|]. intros [= <-]. by eexists.
Qed.

Lemma record_twice (seq : Z) (op : string) (b : batch) : 1 <= seq -> valid_op op = true ->
  LedgerSpec.record seq op (LedgerSpec.record seq op b).2 = ((0, "duplicate"), (LedgerSpec.record seq op b).2).
Proof.
  intros Hs Hop. set (b' := (LedgerSpec.record seq op b).2). unfold LedgerSpec.record.
  destruct (Z.ltb_spec seq 1); [lia|]. rewrite Hop. cbn [orb negb].
  destruct (String.eqb_spec (b_status b') "cancelled") as [|Hc]; [done|]. pose proof (news_after seq op b Hs Hop Hc) as Hn. fold b' in Hn. by rewrite Hn.
Qed.

Lemma publish_again (raw : string) (ds : list occasion) (S : system) (d : occasion) (ev : EventMessage) (b : batch) :
  let id := Ev_BatchID ev in
  calm S -> Drop_Event (drop_at raw d) = Some ev -> abs (w_db (sys S)) id b -> inv b -> 1 <= Ev_BatchSeq ev <= b_total b ->
  LedgerSpec.record (Ev_BatchSeq ev) "failed" b = ((0, "duplicate"), b) ->
  exists S', publish_all raw ds S = (S', replicate (length ds) None) /\ calm S' /\ abs (w_db (sys S')) id b
    /\ k_log S' = k_log S ++ mjoin (reports raw <$> ds).
Proof.
  intros id Hc Hev Ha Hi Hs Hr. revert S Hc Ha. induction ds as [|[[src now] missing] ds IH]; intros S Hc Ha.
  { exists S. cbn. by rewrite app_nil_r. }
  destruct (drop_event_stable raw d (src, now, missing) ev Hev) as (ev' & Hev' & Hid & Hseq & _).
  destruct (publish_one raw src now missing S ev' b) as (S1 & h & E & Hc1 & Ha1 & _ & El);
    [done|exact Hev'|by rewrite Hid|done|by rewrite Hseq|].
  rewrite Hseq, Hr, Hid in *. cbn [fst snd] in *. destruct (IH S1 Hc1 Ha1) as (S2 & E2 & Hc2 & Ha2 & El2).
  cbn [publish_all length replicate]. unfold mbind, kio_bind. rewrite E, E2. eexists. split; [reflexivity|]. split_and!; [done|done|].
  rewrite El2, El, (reports_of _ _ _ ev') by done. by rewrite <- app_assoc.
Qed.


(** ** What the callbacks consumer makes of it *)

(** A callback that was handed out is claimed. *)
Definition claimed (kind : string) (b : batch) : bool := negb (claim kind b).1.

Lemma fired_claims (seq : Z) (op : string) (b : batch) :
  let r := LedgerSpec.record seq op b in fired r.1 = true -> claimed (claimKind r.1.2) r.2 = true.
Proof.
  cbv zeta. unfold LedgerSpec.record. destruct (_ || _); [done|]. destruct (String.eqb _ "cancelled"); [done|].
  destruct (negb _); [done|]. generalize (mark op (seq - 1) b). clear. intros b. unfold LedgerSpec.conclude.
  destruct (_ || _); [done|]. destruct (BatchDone.terminal _ _ _) as [term|].
  - unfold finish_with. destruct (String.eqb term "success"), (b_complete b), (b_success b); cbn; try done;
      by destruct (String.eqb (b_status b) "running").
  - unfold early. by destruct (_ && _).
Qed.

Lemma parseInt_range (s : string) : minInt64 <= (parseInt s).1 <= maxInt64.
Proof.
  unfold parseInt. destruct (match s with EmptyString => _ | String _ _ => _ end) as [neg body].
  destruct body; [done|]. destruct (digits _ _) as [v|]; [|done].
  set (w := if neg then - v else v). clearbody w. destruct (Z.ltb_spec w minInt64); [done|].
  destruct (Z.ltb_spec maxInt64 w); [done|]. cbn. lia.
Qed.

Lemma read_no_map (m : object) (k : string) : m !! k = None -> opt_map m k = Ok None.
Proof. unfold opt_map. by intros ->. Qed.

Lemma read_parsed (m : object) (k s : string) : m !! k = Some (JNum (inject_Z (parseInt s).1)) -> opt_int m k = Ok (Some (parseInt s).1).
Proof. apply (read_opt_int m k (Some (parseInt s).1)). intros z [= <-]. apply parseInt_range. Qed.

(** The callback's message reads back as what was written. *)
Lemma read_sent (id outcome : string) (h : gmap string string) :
  decode_callback (callback_text (callback_for id outcome h)) = Ok (callback_for id outcome h).
Proof.
  unfold callback_text, callback_json. cbn [callback_for Cb_BatchID Cb_Outcome Cb_TotalJobs Cb_CompletedCount Cb_FailedCount
    Cb_TouchedCount Cb_OnSuccess Cb_OnComplete Cb_Meta Cb_CallbackArgs Cb_FinishedAt Cb_Reconciled Cb_Preclaimed].
  cbn [omit_map omit_bool]. unfold omit_int. cbn [Z.eqb]. unfold mbind, result_bind.
  match goal with |- context [marshal ?m] => destruct (marshal_ok m) as [raw E]; rewrite E; unfold decode_callback, mbind, result_bind;
    rewrite (unmarshal_of_marshal _ _ E) end.
  cbn [fields default]. unfold Datatypes.id, callback_of_object, opt_object, mbind, result_bind, mret, result_ret.
  rewrite (read_str _ "batch_id" id) by find_field. rewrite (read_str _ "outcome" outcome) by find_field.
  rewrite (read_parsed _ "total_jobs" (at_key h "total_jobs")) by find_field.
  rewrite (read_parsed _ "completed_count" (at_key h "completed_count")) by find_field.
  rewrite (read_parsed _ "failed_count" (at_key h "failed_count")) by find_field.
  rewrite (read_opt_int _ "touched_count" None) by first [done | find_field].
  rewrite (read_seen_str _ "on_success" (at_key h "on_success")) by find_field.
  rewrite (read_seen_str _ "on_complete" (at_key h "on_complete")) by find_field.
  rewrite !read_no_map by find_field. rewrite (read_str _ "finished_at" (at_key h "finished_at")) by find_field.
  rewrite (read_seen_bool _ "reconciled" false) by find_field. rewrite (read_seen_bool _ "preclaimed" false) by find_field.
  cbn. unfold deref. by rewrite !default_seen.
Qed.

Lemma claim_taken (now : clock) (id node kind : string) (w : world) (b : batch) :
  quiet w -> c_rfc3339 now <> "" -> kind <> "" -> abs (w_db w) id b -> claimed kind b = true ->
  exists w', ClaimCallback now id node [kind] w = (w', (false, None)).
Proof.
  intros Hq Hn Hk Ha Hc. unfold ClaimCallback. rewrite (proj2 (String.eqb_neq _ _) Hk). unfold mbind, io_bind.
  match goal with |- context [do ?c w] => destruct (do_quiet c w Hq) as (net & -> & _) end.
  destruct (wp_run _ _ _ (claim_refines id (w_db w) b (c_rfc3339 now) node kind Ha Hn)) as (db' & r & E & -> & _).
  unfold Client.call. rewrite E. unfold claimed in Hc. apply negb_true_iff in Hc. rewrite Hc. cbn. by eexists.
Qed.

Lemma claimKind_nonempty (outcome : string) : claimKind outcome <> "".
Proof. unfold claimKind. by destruct (_ || _). Qed.

(** C39: The callback of a batch that an expired job finishes is never invoked.
    The ledger hands the callback out claimed, as it does to the events consumer;
    but the publisher's message does not say so.  A callbacks consumer that reads
    it, then or at any later time at which the claim is kept, finds the callback
    claimed, calls no invoker whatever it is, and commits the message. *)
Theorem expired_callback_unheard (raw : string) (src : SourceCoords) (now : Z) (missing : list bool) (S : system)
    (ev : EventMessage) (b : batch) :
  let id := Ev_BatchID ev in let r := LedgerSpec.record (Ev_BatchSeq ev) "failed" b in
  calm S -> Drop_Event (BuildDrop raw src now) = Some ev -> abs (w_db (sys S)) id b -> inv b ->
  1 <= Ev_BatchSeq ev <= b_total b -> fired r.1 = true ->
  exists S' m, publish p now missing raw src S = (S', None) /\ calm S'
    /\ m ∈ k_log S' /\ m_topic m = CallbacksTopic (xp_Cfg p) /\ m_key m = id
    /\ abs (w_db (sys S')) id r.2 /\ claimed (claimKind r.1.2) r.2 = true
    /\ forall (T : system) (b' : batch) (now' : clock) (dlt : option (string -> string -> kio error)) (node : string),
         quiet (sys T) -> abs (w_db (sys T)) id b' -> claimed (claimKind r.1.2) b' = true -> c_rfc3339 now' <> "" ->
         exists T', k_log T' = k_log T /\ forall invoker,
           ProcessCallback (mkCallbackProcessor (Some st) invoker dlt node) now' (m_payload m) T = (T', Done (true, None)).
Proof.
  intros id r Hc Hev Ha Hi Hs Hf.
  destruct (publish_one raw src now missing S ev b Hc Hev Ha Hi Hs) as (S1 & h & E & Hc1 & Ha1 & _ & El). fold id r in Ha1, El.
  rewrite Hf in El. exists S1, (callback_message_for id r.1.2 h). split; [done|]. split; [done|].
  split; [rewrite El; set_solver|]. split_and!; [done|done|done|by apply fired_claims|].
  intros T b' now' dlt node Hq Hab Hcl Hn. cbn [m_payload callback_message_for].
  destruct (drop_event_stable raw (src, now, missing) (src, now, missing) ev Hev) as (_ & _ & _ & _ & Hne). fold id in Hne.
  destruct (claim_taken now' id node (claimKind r.1.2) (sys T) b' Hq Hn (claimKind_nonempty _) Hab Hcl) as [w' Ew].
  exists (System w' (k_log T) (k_net T)). split; [done|]. intros invoker. unfold ProcessCallback. rewrite read_sent.
  cbn [Cb_BatchID callback_for]. rewrite (proj2 (String.eqb_neq _ _) Hne).
  unfold claim_callback. cbn [Cb_Preclaimed Cb_Outcome Cb_BatchID callback_for cp_Store cp_NodeID].
  unfold mbind, kio_bind, redis_io. rewrite Ew. done.
Qed.
End publishing.

(** ** An expired job of a small batch *)

Definition lone_db : redis :=
  (run (createBatch (batchKey "b1") "b1" (itoa 1) "S" "C" "" "2024-01-01T00:00:00Z" 604800 "2024-01-01T00:00:01Z" "" "" "") empty_redis).1.

Definition lone_system : system := System (World lone_db []) [] [].

Definition lone_raw : string :=
  marshal_or_empty (<["job_id" := JStr "j1"]> (<["batch_id" := JStr "b1"]> (<["batch_seq" := JNum 1]> (<["valid_till" := JStr "x"]> ∅)))).

Definition lone_publisher : expiredPublisher :=
  mkExpiredPublisher (Job.mkDaemon true 3 "retry" ∅ [] false 60 "events" "callbacks" "dead" 0 0)
    (Some demo_store) None.

Lemma lone_abs : abs lone_db "b1" (fresh_batch 1 true).
Proof.
  unfold lone_db.
  destruct (run_of _ _ _ (create_refines "b1" empty_redis 1 "S" "C" "" "2024-01-01T00:00:00Z"
    604800 "2024-01-01T00:00:01Z" "" "" "" eq_refl eq_refl eq_refl eq_refl
    ltac:(split; [exists ∅; by split | eexists; reflexivity ..])
    ltac:(eexists; reflexivity))) as (r & _ & _ & H). exact H.
Qed.

Lemma number_text_nonempty : forall m : object, marshal m <> Ok "".
Proof.
  intros m [= E]. change (itoa (Z.pos (encode m)) = "") in E.
  assert (atoi (itoa (Z.pos (encode m))) = atoi "") as E' by by rewrite E. by rewrite atoi_itoa in E'.
Qed.

Definition lone_event (src : SourceCoords) (now : Z) : EventMessage :=
  mkEvent "b1" "j1" "failed" "" (rfc3339_format now) (Src_Topic src) (Src_Partition src) (Src_Offset src) 1.

Definition lone_src : SourceCoords := Src "ingest" 3 9.
Definition lone_occasions : list occasion := [(lone_src, 8, [true]); (Src "ready" 0 1, 9, [])].

Lemma lone_drop : Drop_Event (BuildDrop lone_raw lone_src 7) = Some (lone_event lone_src 7).
Proof. vm_compute. reflexivity. Qed.


Lemma expired_callback_unheard_witness :
  exists S' m, publish lone_publisher 7 [] lone_raw lone_src lone_system = (S', None)
    /\ m ∈ k_log S' /\ m_topic m = "callbacks"
    /\ exists T', k_log T' = k_log S' /\ forall invoker,
         ProcessCallback (mkCallbackProcessor (Some demo_store) invoker None "n") demo_clock (m_payload m) S' = (T', Done (true, None)).
Proof.
  destruct (expired_callback_unheard number_text_nonempty lone_publisher demo_store eq_refl ltac:(done) lone_raw lone_src 7 []
    lone_system (lone_event lone_src 7) (fresh_batch 1 true)) as (S' & m & E & Hc & Hm & Ht & _ & Ha & Hcl & HT).
  - split; constructor.
  - exact lone_drop.
  - exact lone_abs.
  - apply fresh_inv. lia.
  - cbn. lia.
  - vm_compute. reflexivity.
  - exists S', m. split; [exact E|]. split; [exact Hm|]. split; [exact Ht|].
    exact (HT S' _ demo_clock None "n" (proj1 Hc) Ha Hcl ltac:(done)).
Defined.

(** Kafka refuses the callback of the batch that the expired job finishes: the
    delivery fails after the ledger was updated, and when the record comes back it
    is a duplicate. *)
Definition refused_callback : system * list error :=
  publish_all lone_publisher lone_raw [(lone_src, 7, []); (lone_src, 8, [])] (System (World lone_db []) [] [Refused]).

Lemma expired_callback_lost :
  refused_callback.2 = [Some produceError; None] /\
  (m_topic <$> k_log refused_callback.1) = ["events"; "dead"] /\
  field (w_db (sys refused_callback.1)) "b1" "status" = Some "complete".
Proof. split_and!; vm_compute; reflexivity. Qed.
