(* ===== verification/Startup.v ===== *)
(** What a process that passed its checks starts: the consumer groups and loops
    of worker.Run (pkg/worker/worker.go) and daemon.Run (pkg/daemon/daemon.go),
    and what either writes where.

    A started consumer is its group, its topics, its number of members and the
    engine that runs it; the engines are the other components. *)
From S2P Require Import Prelude Cron Redis Client Kafka Protocol Fairness Sql Tenants Enqueue Job Gates Loops DaemonConfig Boot.

Inductive engine := SuperFetchEngine | WatermarkEngine | PartitionEngine | RetryEngine | RecordEngine.

#[export] Instance engine_eq_dec : EqDecision engine.
Proof. solve_decision. Defined.

(** [cn_gated]: a priority gate decides which of the topics are polled. *)
Record consumer := mkConsumer {
  cn_group : string; cn_topics : list string; cn_members : Z; cn_engine : engine; cn_gated : bool
}.

(** ** The worker *)

Definition execution (p : worker_plan) : engine := if wp_watermark p then WatermarkEngine else SuperFetchEngine.

Definition start_worker (cfg : Daemon) (p : worker_plan) : list consumer :=
  let group := D_ConsumerGroup cfg +:+ "-go-worker" in
  (if bool_decide (wp_jobs p = []) then []
   else [mkConsumer (group +:+ "-jobs") (wp_jobs p) (JobsConsumerMembers cfg) (execution p) false])
  ++ ((fun pc => mkConsumer (pr_ConsumerGroup pc) (pr_Topics pc) (PriorityConsumerMembers cfg) (execution p) true) <$> wp_priority p)
  ++ ((fun s => mkConsumer (GoWorkerFairReadyGroup cfg (fs_lane s)) [fs_topic s] (FairReadyConsumerMembers cfg) (execution p) false)
        <$> wp_fair p).

(** The heartbeat and the reclaim of the working set; in watermark mode there is
    no working set.  The heartbeat runs even where the configuration turns
    liveness off. *)
Definition worker_loops (p : worker_plan) : list string :=
  if wp_watermark p then [] else ["liveness-heartbeat"; "workset-reclaim"].

(** The ids under which the members own jobs; [live] is the reporter's. *)
Definition worker_ids (cfg : Daemon) (p : worker_plan) (live : string) : list string :=
  (start_worker cfg p) ≫= fun c => (member_ids (cn_group c) (if wp_watermark p then "" else live) (cn_members c)).*1.

(** ** The daemon *)

Definition events_consumer (cfg : Daemon) : consumer :=
  mkConsumer (D_ConsumerGroup cfg +:+ "-events") [D_EventsTopic cfg] 1 PartitionEngine false.
Definition retry_consumer (cfg : Daemon) : consumer :=
  mkConsumer (D_ConsumerGroup cfg +:+ "-retry") (RetryTopics cfg) 1 RetryEngine false.
Definition callbacks_consumer (cfg : Daemon) : consumer :=
  mkConsumer (D_ConsumerGroup cfg +:+ "-callbacks") [D_CallbacksTopic cfg] 1 PartitionEngine false.

(** wireFairLane's consumer. *)
Definition dispatch_consumer (cfg : Daemon) (lane ingest : string) : consumer :=
  mkConsumer (DispatchConsumerGroup cfg lane) [ingest] 1 RecordEngine false.

Definition fair_consumers (cfg : Daemon) : list consumer :=
  if D_FairnessEnabled cfg
  then [dispatch_consumer cfg "time" (D_FairnessTimeIngest cfg); dispatch_consumer cfg "throughput" (D_FairnessThroughputIngest cfg)]
  else [].

Record daemon_run := mkDaemonRun {
  dr_consumers : list consumer; dr_loops : list string; dr_readers : list string; dr_default : string
}.

Definition no_store_dsn : string := "store_mysql_dsn is required when store is mysql".
Definition no_schedule_dsn : string := "schedule_mysql_dsn is required when schedule_store is mysql".
Definition no_recurring_dsn : string := "recurring scheduler requires recurring_mysql_dsn (or schedule_mysql_dsn)".

(** StartLivenessHeartbeatLoop on the reporter of NewLivenessReporter. *)
Definition heartbeat_loop (cfg : Daemon) : list string := if D_LivenessEnabled cfg then ["liveness-heartbeat"] else [].

(** daemon.Run after its checks, where every connection opens and the setting of
    the acknowledgements is accepted; [default] is the topic of scheduled jobs
    without one. *)
Definition start_daemon (cfg : Daemon) (default : string) : bootError + daemon_run :=
  if bool_decide (BuildPauseControl cfg = NoDSN) || bool_decide (BuildFailureRecorder cfg = NoDSN) then inl (MySQLError no_store_dsn)
  else if D_SchedulePollerEnabled cfg && bool_decide (schedule_backend cfg = NoDSN) then inl (MySQLError no_schedule_dsn)
  else if D_RecurringSchedulerEnabled cfg && bool_decide (recurring_dsn cfg = None) then inl (MySQLError no_recurring_dsn)
  else inr (mkDaemonRun
    ([events_consumer cfg; retry_consumer cfg; callbacks_consumer cfg] ++ fair_consumers cfg)
    (heartbeat_loop cfg ++ ["reconciler"; "alerts"] ++ (if WatermarkMode cfg then [] else ["workset-reclaim"])
     ++ (if D_SchedulePollerEnabled cfg then ["schedule-poller"] else [])
     ++ (if D_RecurringSchedulerEnabled cfg then ["recurring-scheduler"] else [])
     ++ (if D_FairnessEnabled cfg then ["fair-forward-time"; "fair-forward-throughput"] else []))
    (if D_SchedulePollerEnabled cfg then [D_ScheduledTopic cfg] else [])
    default).

(** daemon.Run as a whole, up to the start of its loops. *)
Definition run_daemon (cfg : Daemon) (m : Manifest) (read : string -> file_read) : bootError + daemon_run :=
  match check_daemon cfg m read with
  | inl e => inl e
  | inr (_, default) => start_daemon cfg default
  end.
