(* ===== verification/StartupProps.v ===== *)
(** What a worker and a daemon of one configuration consume together: no topic
    twice, and every topic somebody writes to. *)
From S2P Require Import Prelude Cron Redis Client Kafka Protocol Fairness Concrete Sql Tenants Enqueue Job Gates GatesProps Loops DaemonConfig DaemonConfigProps Boot BootProps Forwarder Expired Startup.

Definition consumed (cs : list consumer) (t : string) : Prop := exists c, c ∈ cs /\ t ∈ cn_topics c.

Lemma consumed_app (a b : list consumer) (t : string) : consumed (a ++ b) t <-> consumed a t \/ consumed b t.
Proof. unfold consumed. set_solver. Qed.
Lemma consumed_nil (t : string) : consumed [] t <-> False.
Proof. unfold consumed. set_solver. Qed.
Lemma consumed_one (c : consumer) (t : string) : consumed [c] t <-> t ∈ cn_topics c.
Proof. unfold consumed. set_solver. Qed.
Lemma consumed_cons (c : consumer) (cs : list consumer) (t : string) : consumed (c :: cs) t <-> t ∈ cn_topics c \/ consumed cs t.
Proof. rewrite <- consumed_one, <- consumed_app. done. Qed.
Lemma consumed_fmap {A} (f : A -> consumer) (l : list A) (t : string) :
  consumed (f <$> l) t <-> t ∈ mjoin (cn_topics ∘ f <$> l).
Proof. unfold consumed. induction l as [|x l IH]; cbn; set_solver. Qed.

(** ** The worker's topics *)

Lemma consumed_worker (cfg : Daemon) (p : worker_plan) (t : string) : consumed (start_worker cfg p) t <-> t ∈ execTopics p.
Proof.
  unfold start_worker, execTopics, fairReadyTopicNames. rewrite !consumed_app, !consumed_fmap, !elem_of_app.
  assert (mjoin (cn_topics ∘ (fun s => mkConsumer (GoWorkerFairReadyGroup cfg (fs_lane s)) [fs_topic s] (FairReadyConsumerMembers cfg)
    (execution p) false) <$> wp_fair p) = fs_topic <$> wp_fair p) as ->.
  { induction (wp_fair p) as [|s l IH]; [done|]. rewrite !fmap_cons, <- IH. done. }
  case_bool_decide as E; [rewrite consumed_nil, E, elem_of_nil|rewrite consumed_one]; cbn; tauto.
Qed.

Lemma distinct_topics_complete (keep : HandlerEntry -> bool) (d : string) (m : Manifest) (seen : gset string) (e : string * HandlerEntry) :
  e ∈ m -> keep e.2 = true -> topic_of d e.2 ∈ distinct_topics keep d seen m \/ topic_of d e.2 ∈ seen.
Proof.
  intros He Hk. induction m as [|[j h] m IH] in seen, He |- *; [by apply elem_of_nil in He|]. cbn [distinct_topics].
  apply elem_of_cons in He as [->|He].
  - cbn in *. rewrite Hk. cbn. case_bool_decide; [by right|left; by left].
  - destruct (negb (keep h) || _); [by apply IH|]. destruct (IH ({[topic_of d h]} ∪ seen) He) as [Hi|Hi]; [left; by right|].
    apply elem_of_union in Hi as [Hi%elem_of_singleton|Hi]; [left; rewrite Hi; by left|by right].
Qed.

Lemma default_topic_nonempty (cfg : Daemon) (h : HandlerEntry) : topic_of (defaultJobsTopic cfg) h <> "".
Proof.
  unfold topic_of, or_text, defaultJobsTopic. destruct (String.eqb_spec (HE_Topic h) ""); [|done].
  destruct (String.eqb_spec (D_TopicPrefix cfg) ""); [done|]. by destruct (D_TopicPrefix cfg).
Qed.

(** A topic of a Go handler is consumed plainly or in a priority group. *)
Lemma plain_job_consumed (cfg : Daemon) (m : Manifest) (registered : string -> bool) (read : string -> file_read)
    (p : worker_plan) (e : string * HandlerEntry) :
  let t := topic_of (defaultJobsTopic cfg) e.2 in
  plan_worker cfg m registered read = inr p -> e ∈ m -> runtime_of e.2 = RuntimeGo -> plain e.2 = true -> TrimSpace t = t ->
  consumed (start_worker cfg p) t.
Proof.
  intros t Hp He Hr Hpl Ht. apply consumed_worker. destruct (plan_worker_inv _ _ _ _ _ Hp) as (reg & Hv & _ & _ & Hl & -> & _).
  destruct (Validate_none _ _ _ Hv) as [Hv' _]. unfold execTopics. cbn [wp_jobs wp_priority wp_fair]. rewrite !elem_of_app.
  destruct (decide (t ∈ AllTopics reg)) as [Hin|Hout].
  - right; right. destruct (load_priorities_distinct _ _ _ Hl) as [_ Ha]. rewrite Ha in Hin.
    assert (TopicRuntime m t (defaultJobsTopic cfg) = RuntimeGo) as Hg.
    { apply TopicRuntime_spec; [done|done|]. rewrite Ht. by exists e. }
    clear -Hin Hg. unfold goPriorityConfigs. induction reg as [|pc reg IH]; [done|]. cbn in Hin.
    apply elem_of_app in Hin as [Hin|Hin].
    + assert (t ∈ FilterTopicsForRuntime m RuntimeGo (pr_Topics pc) (defaultJobsTopic cfg)) as Hf by (by apply list_elem_of_filter).
      cbn. case_bool_decide as E; [rewrite E in Hf; by apply elem_of_nil in Hf|]. cbn. apply elem_of_app. by left.
    + cbn. case_bool_decide; cbn; [by apply IH|]. apply elem_of_app. right. by apply IH.
  - left. apply list_elem_of_filter. split; [done|]. apply elem_of_uniqueStrings. split; [|apply default_topic_nonempty].
    apply elem_of_app. left. unfold JobTopicsGo, jobTopics.
    destruct (distinct_topics_complete (fun h => plain h && String.eqb (runtime_of h) RuntimeGo) (defaultJobsTopic cfg) m ∅ e He) as [?|?];
      [by rewrite Hpl, Hr|done|set_solver].
Qed.

(** ** The fair lanes *)

Lemma find_type_unique (m : Manifest) (e : string * HandlerEntry) : NoDup m.*1 -> e ∈ m -> find_type m e.1 = Some e.2.
Proof.
  unfold find_type. induction m as [|x m IH]; intros Hn He; [by apply elem_of_nil in He|]. rewrite fmap_cons in Hn.
  apply NoDup_cons in Hn as [Hx Hn]. cbn [find]. destruct (String.eqb_spec x.1 e.1) as [E|Hne].
  - apply elem_of_cons in He as [->|He]; [done|]. exfalso. apply Hx. rewrite E. by apply list_elem_of_fmap_2.
  - apply elem_of_cons in He as [->|He]; [done|]. by apply IH.
Qed.

Lemma lower_go : ToLower (TrimSpace RuntimeGo) = RuntimeGo.
Proof. reflexivity. Qed.

(** The ready topic of the Go jobs of a lane is consumed by a worker. *)
Lemma fair_ready_consumed (cfg : Daemon) (m : Manifest) (registered : string -> bool) (read : string -> file_read)
    (p : worker_plan) (e : string * HandlerEntry) :
  let lane := fairnessLane (HE_FairnessType e.2) in
  plan_worker cfg m registered read = inr p -> D_FairnessEnabled cfg = true -> e ∈ m ->
  runtime_of e.2 = RuntimeGo -> lane <> "" -> Ready_Go (FairReadyTopics cfg lane) <> "" ->
  consumed (start_worker cfg p) (Ready_Go (FairReadyTopics cfg lane)).
Proof.
  intros lane Hp Hf He Hr Hl Ht. destruct (plan_worker_inv _ _ _ _ _ Hp) as (reg & _ & _ & _ & _ & -> & _).
  apply consumed_worker. unfold execTopics. cbn [wp_fair]. rewrite !elem_of_app. right; left. unfold fairReadyTopicNames.
  apply list_elem_of_fmap. exists (mkFairSpec lane (Ready_Go (FairReadyTopics cfg lane))). split; [done|].
  unfold workerFairReadyTopics. rewrite Hf. cbn [negb]. apply list_elem_of_omap. exists lane. split.
  - unfold lane, fairnessLane in Hl |- *. destruct (String.eqb_spec (ToLower (TrimSpace (HE_FairnessType e.2))) "time") as [->|];
      [by left|]. cbn [orb] in *. destruct (String.eqb_spec (ToLower (TrimSpace (HE_FairnessType e.2))) "throughput") as [->|]; [set_solver|done].
  - assert (HasFairHandlersForRuntime m RuntimeGo lane = true) as ->.
    { unfold HasFairHandlersForRuntime. apply existsb_exists. exists e. split; [by apply list_elem_of_In|].
      rewrite lower_go, Hr. unfold lane. by rewrite !String.eqb_refl. }
    by rewrite (proj2 (String.eqb_neq _ _) Ht).
Qed.

(** The forwarder writes a Go job of a lane to the topic a worker consumes. *)
Theorem fair_jobs_reach_worker `{NumText} `{Json} (cfg : Daemon) (m : Manifest) (registered : string -> bool)
    (read : string -> file_read) (p : worker_plan) (e : string * HandlerEntry) (payload : string) (o : option object) :
  let lane := fairnessLane (HE_FairnessType e.2) in
  plan_worker cfg m registered read = inr p -> D_FairnessEnabled cfg = true -> NoDup m.*1 -> e ∈ m -> e.1 <> "" ->
  runtime_of e.2 = RuntimeGo -> lane <> "" -> Ready_Go (FairReadyTopics cfg lane) <> "" ->
  unmarshal payload = Ok o -> str_field (fields o) "job_type" = e.1 ->
  exists t, fairReadyResolver m cfg lane payload = Ok t /\ consumed (start_worker cfg p) t.
Proof.
  intros lane Hp Hf Hn He Hj Hr Hl Ht Ho Hs. exists (Ready_Go (FairReadyTopics cfg lane)).
  split; [|by apply (fair_ready_consumed cfg m registered read p e)].
  unfold fairReadyResolver, RuntimeFor. rewrite Ho, Hs, (find_type_unique m e Hn He), Hr.
  rewrite (proj2 (String.eqb_neq _ _) Hj). cbn [String.eqb RuntimeGo]. unfold FairReadyForRuntime. rewrite lower_go.
  by rewrite String.eqb_refl, (proj2 (String.eqb_neq _ _) Ht).
Qed.

(** ** The daemon *)

Lemma start_daemon_inv (cfg : Daemon) (d : string) (r : daemon_run) : start_daemon cfg d = inr r ->
  dr_consumers r = [events_consumer cfg; retry_consumer cfg; callbacks_consumer cfg] ++ fair_consumers cfg
  /\ dr_readers r = (if D_SchedulePollerEnabled cfg then [D_ScheduledTopic cfg] else [])
  /\ ("workset-reclaim" ∈ dr_loops r <-> WatermarkMode cfg = false) /\ dr_default r = d.
Proof.
  unfold start_daemon. destruct (_ || _); [done|]. destruct (_ && _); [done|]. destruct (_ && bool_decide (recurring_dsn cfg = None)); [done|].
  intros [= <-]. cbn [dr_consumers dr_readers dr_loops dr_default]. split_and!; [done|done| |done].
  destruct (WatermarkMode cfg); [|split; [done|intros _; set_solver]]. split; [|done].
  unfold heartbeat_loop. destruct (D_LivenessEnabled cfg), (D_SchedulePollerEnabled cfg), (D_RecurringSchedulerEnabled cfg), (D_FairnessEnabled cfg);
    cbn; set_solver.
Qed.

Lemma consumed_daemon (cfg : Daemon) (d t : string) (r : daemon_run) : start_daemon cfg d = inr r ->
  consumed (dr_consumers r) t <->
    t = D_EventsTopic cfg \/ t ∈ RetryTopics cfg \/ t = D_CallbacksTopic cfg
    \/ (D_FairnessEnabled cfg = true /\ (t = D_FairnessTimeIngest cfg \/ t = D_FairnessThroughputIngest cfg)).
Proof.
  intros (-> & _)%start_daemon_inv. rewrite consumed_app. unfold fair_consumers. destruct (D_FairnessEnabled cfg);
    rewrite !consumed_cons, !consumed_nil; cbn [cn_topics events_consumer retry_consumer callbacks_consumer dispatch_consumer];
    rewrite !list_elem_of_singleton; naive_solver.
Qed.

Lemma control_plane (cfg : Daemon) (t : string) : t ∈ ControlPlaneTopics cfg <->
  t <> "" /\ (t = D_EventsTopic cfg \/ t = D_CallbacksTopic cfg \/ t = D_DeadLetterTopic cfg \/ t = D_ScheduledTopic cfg
              \/ t = D_FairnessTimeIngest cfg \/ t = D_FairnessThroughputIngest cfg \/ t ∈ RetryTopics cfg).
Proof. unfold ControlPlaneTopics. rewrite elem_of_list_to_set, list_elem_of_filter. set_solver. Qed.

Lemma run_daemon_inv (cfg : Daemon) (m : Manifest) (read : string -> file_read) (r : daemon_run) :
  run_daemon cfg m read = inr r -> exists d, start_daemon cfg d = inr r.
Proof. unfold run_daemon. destruct (check_daemon cfg m read) as [e|[reg d]]; [done|]. by exists d. Qed.


Definition demo_run : daemon_run :=
  mkDaemonRun
    [events_consumer demo_cfg; retry_consumer demo_cfg; callbacks_consumer demo_cfg;
     dispatch_consumer demo_cfg "time" (D_FairnessTimeIngest demo_cfg);
     dispatch_consumer demo_cfg "throughput" (D_FairnessThroughputIngest demo_cfg)]
    ["reconciler"; "alerts"; "workset-reclaim"; "fair-forward-time"; "fair-forward-throughput"]
    [] "acme.p0".


(** ** What the checks promise *)

Lemma is_space_lower (c : Ascii.ascii) : is_space (lower_char c) = is_space c.
Proof. destruct c as [[] [] [] [] [] [] [] []]; vm_compute; reflexivity. Qed.

Lemma trim_left_lower (s : string) : trim_left (ToLower s) = ToLower (trim_left s).
Proof. induction s as [|c s IH]; [done|]. cbn [ToLower trim_left]. rewrite is_space_lower. by destruct (is_space c). Qed.

Lemma trim_right_lower (s : string) : trim_right (ToLower s) = ToLower (trim_right s).
Proof.
  induction s as [|c s IH]; [done|]. cbn [ToLower trim_right]. rewrite IH, is_space_lower.
  destruct (trim_right s); [by destruct (is_space c)|done].
Qed.

Lemma TrimSpace_lower (s : string) : TrimSpace (ToLower s) = ToLower (TrimSpace s).
Proof. unfold TrimSpace. by rewrite trim_left_lower, trim_right_lower. Qed.

Lemma lower_mysql (s : string) : ToLower s = "mysql" -> EqualFold (TrimSpace s) "mysql" = true.
Proof. intros E. unfold EqualFold. rewrite <- TrimSpace_lower, E. reflexivity. Qed.

(** A daemon whose configuration passed the checks starts, but for one thing the
    checks leave out: recurring schedules without a connection string, found out
    after the consumers have been started. *)
Theorem checked_daemon_starts (cfg : Daemon) (m : Manifest) (read : string -> file_read) (reg : list Gates.Config) (d : string) :
  check_daemon cfg m read = inr (reg, d) ->
  start_daemon cfg d = inl (MySQLError no_recurring_dsn) /\ D_RecurringSchedulerEnabled cfg = true /\ recurring_dsn cfg = None
  \/ (exists r, start_daemon cfg d = inr r) /\ (D_RecurringSchedulerEnabled cfg = true -> is_Some (recurring_dsn cfg)).
Proof.
  unfold check_daemon. destruct (ValidateRouting _ _); [done|]. destruct (ValidateFairReadySplit _ _); [done|].
  destruct (ValidateExecutionMode _); [done|]. destruct (ValidateMySQLConfig cfg) eqn:Ev; [done|]. intros _.
  assert (mysql_backend cfg <> NoDSN) as Hs.
  { unfold mysql_backend. destruct (String.eqb_spec (ToLower (D_Store cfg)) "mysql") as [E|]; [|done]. cbn [negb].
    destruct (String.eqb (TrimSpace (D_StoreMySQLDSN cfg)) "") eqn:Ed; [|done]. intros _. unfold ValidateMySQLConfig in Ev.
    destruct (_ && _ && _); [done|]. by rewrite (lower_mysql _ E), Ed in Ev. }
  assert (D_SchedulePollerEnabled cfg = true -> schedule_backend cfg <> NoDSN) as Hsch.
  { intros Hp. unfold schedule_backend. destruct (String.eqb_spec (ToLower (D_ScheduleStore cfg)) "mysql") as [E|]; [|done]. cbn [negb].
    destruct (String.eqb (TrimSpace (D_ScheduleMySQLDSN cfg)) "") eqn:Ed; [|done]. intros _. unfold ValidateMySQLConfig in Ev.
    by rewrite Hp, (lower_mysql _ E), Ed in Ev. }
  unfold start_daemon, BuildPauseControl, BuildFailureRecorder. rewrite bool_decide_eq_false_2 by done. cbn [orb].
  destruct (D_SchedulePollerEnabled cfg && bool_decide (schedule_backend cfg = NoDSN)) eqn:Eb.
  { apply andb_prop in Eb as [Hp Hb%bool_decide_eq_true]. by apply Hsch in Hp. }
  destruct (D_RecurringSchedulerEnabled cfg); cbn [andb].
  - destruct (recurring_dsn cfg) as [dsn|].
    + right. rewrite bool_decide_eq_false_2 by done. split; by eexists.
    + left. by rewrite bool_decide_eq_true_2.
  - right. split; [by eexists|done].
Qed.
