(* ===== verification/Metrics.v ===== *)
(** What the processes leave in Redis for dashboards and alerts: the throughput
    counters and the round-trip probe of pkg/perfmetrics, and the heartbeats of
    pkg/liveness.

    Errors of Redis are only logged.  The instant, the random draw of the sampling
    and the duration of a PING are arguments; so is what the operating system says
    of the process. *)
From S2P Require Import Prelude Cron Redis Client Kafka Protocol Fairness Ledger Control Enqueue Job DaemonConfig.

(** ** Counters of a bucket of time *)

Module Perf.

Definition KeyPrefix : string := "kafka_batch:perf:min:".
Definition AllField : string := "_all".
Definition OtherField : string := "_other".
Definition maxFieldBytes : nat := 200.
Definition defaultRetain : Z := sec 86400.
Definition defaultBucket : Z := sec 60.
Definition defaultMaxTypes : Z := 50.

Record Config := mkConfig {
  Enabled : bool; Retention : Z; BucketSeconds : Z; MaxJobTypes : Z; SampleRate : Q; RTTInterval : Z; RTTTimeout : Z
}.

Definition FromDaemon (cfg : Daemon) : Config :=
  mkConfig (D_PerformanceMetricsEnabled cfg) (D_PerformanceMetricsRetention cfg) (D_PerformanceMetricsBucketSeconds cfg)
    (D_PerformanceMetricsMaxJobTypes cfg) (D_PerformanceMetricsSampleRate cfg) (D_RedisRTTProbeInterval cfg)
    (D_RedisRTTProbeTimeout cfg).

(** [known]: the job types that have a field of their own. *)
Record Writer := mkWriter { retention : Z; bucketSeconds : Z; maxJobTypes : Z; sampleRate : Q; known : gset string }.

Definition NewWriter (c : Config) : Writer :=
  mkWriter (or_default (Retention c) defaultRetain) (or_default (BucketSeconds c) defaultBucket)
    (or_default (MaxJobTypes c) defaultMaxTypes)
    (if Qle_bool (SampleRate c) 0 || negb (Qle_bool (SampleRate c) 1) then 1 else SampleRate c) ∅.

(** [int64(d.Seconds())]. *)
Definition whole_seconds (d : Z) : Z := Z.quot d 1000000000.

Definition BucketStart (bucket at_ : Z) : Z :=
  let secs := whole_seconds bucket in
  let secs := if secs <=? 0 then 60 else secs in
  Z.quot (TenantGuard.unix at_) secs * secs.

Definition bucketKey (bucket : Z) (status : string) (at_ : Z) : string :=
  KeyPrefix +:+ itoa (BucketStart bucket at_) +:+ ":" +:+ status.

Definition fieldFor (w : Writer) (jobType : string) : Writer * string :=
  let jt := TrimSpace jobType in
  if String.eqb jt "" then (w, AllField)
  else
    let jt := String.substring 0 maxFieldBytes jt in
    if bool_decide (jt ∈ known w) then (w, jt)
    else if maxJobTypes w <=? Z.of_nat (size (known w)) then (w, OtherField)
    else (mkWriter (retention w) (bucketSeconds w) (maxJobTypes w) (sampleRate w) ({[jt]} ∪ known w), jt).

(** The commands that count [count] events in a field of a bucket. *)
Definition count_cmds (key field : string) (count retain : Z) : list (cmd unit) :=
  [command (HINCRBY key AllField count)]
  ++ (if String.eqb field AllField then [] else [command (HINCRBY key field count)])
  ++ [command (EXPIRE key retain)].

Definition Record_ (w : Writer) (now : Z) (status jobType : string) (count : Z) : io Writer :=
  if count =? 0 then mret w
  else
    let '(w, field) := fieldFor w jobType in
    _ ← pipeline (count_cmds (bucketKey (bucketSeconds w) status now) field count (whole_seconds (retention w)));
    mret w.

Definition intField (payload : object) (key : string) : Z :=
  match payload !! key with Some (JNum q) => truncate q | _ => 0 end.

Definition jobTypeField (payload : object) : string :=
  let jt := str_field payload "job_type" in
  if String.eqb jt "" then str_field payload "worker_class" else jt.

Definition sampled (w : Writer) (draw : Q) : bool := Qle_bool 1 (sampleRate w) || negb (Qle_bool (sampleRate w) draw).

Definition Handle (w : Writer) (now : Z) (draw : Q) (event : string) (payload : object) : io Writer :=
  if negb (sampled w draw) then mret w
  else if String.eqb event "job.processed" then Record_ w now "processed" (jobTypeField payload) 1
  else if String.eqb event "job.retried" then Record_ w now "retried" (jobTypeField payload) 1
  else if String.eqb event "job.failed" then Record_ w now "failed" (jobTypeField payload) 1
  else if String.eqb event "workset.reclaimed" then
    let n := intField payload "reclaimed" in
    if 0 <? n then Record_ w now "reclaimed" "" n else mret w
  else mret w.

(** ** The round-trip probe *)

Definition rttLockKey : string := "kafka_batch:perf:rtt:probe_lock".
Definition defaultRTTI : Z := sec 15.
Definition defaultRTTTO : Z := 200 * 1000000.

Definition recordRTTLua (K1 : string) (us retain : Z) : script Z unit :=
  HINCRBY K1 "count" 1;;
  HINCRBY K1 "sum_us" us;;
  cur ← HGET K1 "max_us";
  when (tonum cur <? us) (HSET K1 "max_us" (itoa us));;
  EXPIRE K1 retain;;
  lua_return 1.

Definition rttBucketKey (bucket at_ : Z) : string := bucketKey bucket "rtt" at_.

Definition recordRTT (now us retention bucket : Z) : io unit :=
  let retain := whole_seconds retention in
  let retain := if retain <=? 0 then whole_seconds defaultRetain else retain in
  _ ← do (call (recordRTTLua (rttBucketKey bucket now) us retain)); mret tt.

Definition recordRTTError (now retention bucket : Z) : io unit :=
  let key := rttBucketKey bucket now in
  _ ← pipeline [command (HINCRBY key "errors" 1); command (EXPIRE key (whole_seconds retention))]; mret tt.

Definition PING : cmd unit := fun db => (db, Ok tt).

(** A tick takes the cluster's lock, which it leaves to expire, and measures one
    PING; [elapsed] is how long it took. *)
Definition rttTick (now elapsed timeout retention bucket interval : Z) : io unit :=
  let lockTTL := if interval * 2 <? sec 2 then sec 2 else interval * 2 in
  r ← do (command (SET_NX_EX rttLockKey "1" (whole_seconds lockTTL)));
  match r with
  | Ok true =>
      p ← do PING;
      match p with
      | Bad _ => recordRTTError now retention bucket
      | Ok _ =>
          let us := Z.quot elapsed 1000 in
          let us := if us <=? 0 then 1 else us in
          if timeout <? elapsed then recordRTTError now retention bucket else recordRTT now us retention bucket
      end
  | _ => mret tt
  end.

(** The probe's settings, as Install hands them to StartRTTProbe: interval,
    timeout, retention and bucket. *)
Definition probe_settings (c : Config) : Z * Z * Z * Z :=
  let w := NewWriter c in
  (or_default (RTTInterval c) defaultRTTI, or_default (RTTTimeout c) defaultRTTTO,
   or_default (retention w) defaultRetain, or_default (bucketSeconds w) defaultBucket).
End Perf.

(** ** Heartbeats *)

Module Live.

Definition consumerPrefix : string := "kafka_batch:live:consumer:".
Definition jobPrefix : string := "kafka_batch:live:job:".
Definition defaultTTL : Z := sec 180.
Definition defaultInterval : Z := sec 20.

Record JobMeta := mkMeta { JobID : string; BatchID : string; WorkerClass : string; Topic : string; Partition : Z }.

Record Reporter := mkReporter {
  TTL : Z; HeartbeatEvery : Z; ConsumerID : string; TrackRunningJobs : bool; lastTopic : string
}.

(** [id] is host, process and a random part. *)
Definition NewReporter (ttl : Z) (id : string) : Reporter :=
  mkReporter (or_default ttl defaultTTL) defaultInterval id true "".

Section reports.
Context `{Json} `{TimeText} (hostname : string) (pid : Z).

Definition with_topic (r : Reporter) (topic : string) : Reporter :=
  mkReporter (TTL r) (HeartbeatEvery r) (ConsumerID r) (TrackRunningJobs r) topic.

(** [stats] is the sample of the process, whose fields win. *)
Definition ConsumerHeartbeatJSON (consumerID topic : string) (now : Z) (stats : object) : string :=
  marshal_or_empty (stats ∪ <["consumer_id" := JStr consumerID]> (<["hostname" := JStr hostname]>
    (<["pid" := JNum (inject_Z pid)]> (<["topic" := JStr topic]> (<["last_seen" := JStr (rfc3339_format now)]>
    (<["runtime" := JStr "go"]> ∅)))))).

Definition NoteTopic (r : Reporter) (topic : string) : Reporter := if String.eqb topic "" then r else with_topic r topic.

Definition Heartbeat (r : Reporter) (now : Z) (stats : object) (topic : string) : io Reporter :=
  let r := NoteTopic r topic in
  _ ← do (command (SET_EX (consumerPrefix +:+ ConsumerID r) (ConsumerHeartbeatJSON (ConsumerID r) (lastTopic r) now stats)
                     (Z.quot (TTL r) 1000000000)));
  mret r.

Definition jobKey (r : Reporter) (jobID : string) : string := jobPrefix +:+ ConsumerID r +:+ ":" +:+ jobID.

Definition job_payload (r : Reporter) (now : Z) (j : JobMeta) : object :=
  <["job_id" := JStr (JobID j)]> (<["batch_id" := JStr (BatchID j)]> (<["worker_class" := JStr (WorkerClass j)]>
  (<["consumer_id" := JStr (ConsumerID r)]> (<["topic" := JStr (Topic j)]> (<["partition" := JNum (inject_Z (Partition j))]>
  (<["started_at" := JStr (rfc3339_format now)]> (<["runtime" := JStr "go"]> ∅))))))).

Definition JobStarted (r : Reporter) (now : Z) (j : JobMeta) : io unit :=
  if negb (TrackRunningJobs r) || String.eqb (JobID j) "" then mret tt
  else _ ← do (command (SET_EX (jobKey r (JobID j)) (marshal_or_empty (job_payload r now j)) (Z.quot (TTL r) 1000000000))); mret tt.

Definition JobFinished (r : Reporter) (jobID : string) : io unit :=
  if negb (TrackRunningJobs r) || String.eqb jobID "" then mret tt
  else _ ← do (command (DEL (jobKey r jobID))); mret tt.
End reports.

(** The interval of the heartbeat loop. *)
Definition loop_interval (r : Reporter) : Z := or_default (HeartbeatEvery r) defaultInterval.
End Live.
