(* ===== verification/MetricsProps.v ===== *)
(** The properties of the metrics: the counters add up, the fields of a bucket
    stay bounded, and the alert on round trips reads what the probe wrote. *)
From S2P Require Import Prelude Cron Redis Client Kafka Protocol Fairness Frame Ledger LedgerRefine Control Enqueue Job Gates Tenants Sql DaemonConfig Boot Alerts Metrics.
Import Perf.

(** ** Hashes of counters *)

(** Every field is a decimal number, [v] the values, absent ones zero. *)
Definition counters (db : redis) (key : string) (v : string -> Z) : Prop :=
  exists h, get_hash db key = Some h /\ forall f, match h !! f with Some x => x = itoa (v f) | None => v f = 0 end.

Definition bump (f : string) (d : Z) (v : string -> Z) : string -> Z := fun g => if String.eqb g f then v g + d else v g.

Lemma counters_hincrby (db : redis) (key f : string) (d : Z) (v : string -> Z) : counters db key v ->
  exists db', command (HINCRBY key f d) db = (db', Ok tt) /\ counters db' key (bump f d v).
Proof.
  intros (h & Eh & Hv). unfold command, HINCRBY, lift. rewrite Eh. pose proof (Hv f) as Hf.
  assert (forall z, z = v f -> counters (put_hash key (<[f := itoa (z + d)]> h) db) key (bump f d v)) as Hput.
  { intros z ->. eexists. split; [apply get_hash_put_hash|]. intros g. unfold bump. destruct (String.eqb_spec g f) as [->|Hne].
    - by rewrite lookup_insert_eq.
    - rewrite lookup_insert_ne by done. apply Hv. }
  destruct (h !! f) as [x|] eqn:Ef.
  - rewrite Hf, atoi_itoa. eexists. split; [done|]. by apply Hput.
  - eexists. split; [done|]. apply (Hput 0). done.
Qed.

Lemma counters_expire (db : redis) (key k : string) (t : Z) (v : string -> Z) : counters db key v ->
  exists db', command (EXPIRE k t) db = (db', Ok tt) /\ counters db' key v.
Proof.
  intros (h & Eh & Hv). eexists. split; [reflexivity|]. exists h. split; [|done]. unfold get_hash. by rewrite kdb_expire.
Qed.

Lemma counters_ext (db : redis) (key : string) (v v' : string -> Z) : (forall f, v f = v' f) -> counters db key v -> counters db key v'.
Proof. intros He (h & Eh & Hv). exists h. split; [done|]. intros f. rewrite <- He. apply Hv. Qed.

Lemma counters_fresh (db : redis) (key : string) : kdb db !! key = None -> counters db key (fun _ => 0).
Proof. intros E. exists ∅. unfold get_hash. rewrite E. split; [done|]. intros f. by rewrite lookup_empty. Qed.

(** ** The probe *)

(** The counters after a probe of [us] microseconds. *)
Definition timed (us : Z) (v : string -> Z) : string -> Z := fun f =>
  if String.eqb f "count" then v f + 1 else if String.eqb f "sum_us" then v f + us
  else if String.eqb f "max_us" then Z.max (v f) us else v f.

Lemma recordRTTLua_counters (db : redis) (key : string) (us retain : Z) (v : string -> Z) :
  0 < us -> 0 <= v "max_us" -> counters db key v ->
  exists db', call (recordRTTLua key us retain) db = (db', Ok 1) /\ counters db' key (timed us v).
Proof.
  intros Hus Hm Hv. unfold call, run, recordRTTLua, mbind, script_bind.
  destruct (counters_hincrby db key "count" 1 v Hv) as (d1 & E1 & H1).
  destruct (counters_hincrby d1 key "sum_us" us _ H1) as (d2 & E2 & H2). unfold command in E1, E2.
  assert (forall db db' f d, match HINCRBY (R := unit) key f d db with (s', Next a) => (s', Ok a) | (s', Return r) => (s', Ok r) | (s', Fail e) => (s', Bad e) end
     = (db', Ok tt) -> HINCRBY (R := Z) key f d db = (db', Next tt)) as Hconv.
  { intros a b f d. unfold HINCRBY, lift. destruct (get_hash a key) as [h|]; [|done].
    destruct (h !! f) as [x|]; [destruct (atoi x)|]; by intros [= <-]. }
  rewrite (Hconv _ _ _ _ E1), (Hconv _ _ _ _ E2). destruct H2 as (h & Eh & Hh).
  unfold HGET, lift. rewrite Eh. unfold mret, script_ret.
  assert (tonum (h !! "max_us") = v "max_us") as Et.
  { pose proof (Hh "max_us") as Hx. destruct (h !! "max_us") as [x|]; [rewrite Hx; apply tonum_itoa|by cbn in *]. }
  rewrite Et. destruct (Z.ltb_spec (v "max_us") us) as [Hlt|Hge]; cbn [when].
  - unfold HSET, lift. rewrite Eh. unfold modify, EXPIRE, modify. eexists. split; [reflexivity|].
    exists (<["max_us" := itoa us]> h). split; [unfold get_hash; rewrite kdb_expire; apply get_hash_put_hash|].
    intros f. unfold timed. destruct (String.eqb_spec f "max_us") as [->|Hne].
    + rewrite lookup_insert_eq. cbn. f_equal. lia.
    + rewrite lookup_insert_ne by done. pose proof (Hh f) as Hf. unfold bump in Hf.
      destruct (String.eqb_spec f "count") as [->|]; [exact Hf|]. destruct (String.eqb_spec f "sum_us"); exact Hf.
  - unfold mret, script_ret, EXPIRE, modify. eexists. split; [reflexivity|]. exists h. split; [unfold get_hash; by rewrite kdb_expire|].
    intros g. pose proof (Hh g) as Hg. unfold timed. unfold bump in Hg.
    destruct (String.eqb_spec g "max_us") as [E|].
    + rewrite E in *. cbn in *. by rewrite Z.max_l by lia.
    + destruct (String.eqb_spec g "count") as [E|]; [rewrite E in *|destruct (String.eqb_spec g "sum_us")]; exact Hg.
Qed.

(** The outcome of a probe (microseconds, or a failure) and when it is recorded. *)
Definition probe : Type := Z * option Z.

Fixpoint record_probes (retention bucket : Z) (ps : list probe) : io unit :=
  match ps with
  | [] => mret tt
  | (now, Some us) :: ps => recordRTT now us retention bucket;; record_probes retention bucket ps
  | (now, None) :: ps => recordRTTError now retention bucket;; record_probes retention bucket ps
  end.

Definition times (ps : list probe) : list Z := omap snd ps.

(** The counters after the probes. *)
Definition tally (ps : list probe) (v : string -> Z) : string -> Z := fun f =>
  if String.eqb f "count" then v f + Z.of_nat (length (times ps))
  else if String.eqb f "sum_us" then v f + foldr Z.add 0 (times ps)
  else if String.eqb f "max_us" then foldr Z.max (v f) (times ps)
  else if String.eqb f "errors" then v f + Z.of_nat (length ps - length (times ps)) else v f.

Lemma foldr_max_shift (a b : Z) (l : list Z) : foldr Z.max (Z.max a b) l = Z.max b (foldr Z.max a l).
Proof. induction l as [|x l IH]; cbn; [lia|]. rewrite IH. lia. Qed.

Lemma times_cons (p : probe) (ps : list probe) :
  times (p :: ps) = match p.2 with Some us => us :: times ps | None => times ps end.
Proof. unfold times. cbn. by destruct (p.2). Qed.

Lemma times_length (ps : list probe) : (length (times ps) <= length ps)%nat.
Proof. induction ps as [|[t [us|]] ps IH]; [done|..]; rewrite times_cons; cbn [snd length]; lia. Qed.

Lemma tally_timed (t us : Z) (ps : list probe) (v : string -> Z) (f : string) :
  tally ps (timed us v) f = tally ((t, Some us) :: ps) v f.
Proof.
  unfold tally, timed. rewrite times_cons. cbn [snd length foldr]. destruct (String.eqb f "count") eqn:E1; [lia|].
  destruct (String.eqb f "sum_us") eqn:E2; [lia|]. destruct (String.eqb f "max_us") eqn:E3; [by rewrite foldr_max_shift|].
  by destruct (String.eqb f "errors").
Qed.

Lemma tally_failed (t : Z) (ps : list probe) (v : string -> Z) (f : string) :
  tally ps (bump "errors" 1 v) f = tally ((t, None) :: ps) v f.
Proof.
  pose proof (times_length ps). unfold tally, bump. rewrite times_cons. cbn [snd length].
  destruct (String.eqb_spec f "errors") as [->|Hne]; [|by destruct (String.eqb f "count"), (String.eqb f "sum_us"), (String.eqb f "max_us")].
  cbn [String.eqb Ascii.eqb Bool.eqb]. lia.
Qed.

Lemma record_probes_counters (retention bucket : Z) (key : string) (ps : list probe) (w : world) (v : string -> Z) :
  quiet w -> Forall (fun p => rttBucketKey bucket p.1 = key /\ forall us, p.2 = Some us -> 0 < us) ps ->
  0 <= v "max_us" -> counters (w_db w) key v ->
  exists w', record_probes retention bucket ps w = (w', tt) /\ quiet w' /\ counters (w_db w') key (tally ps v).
Proof.
  intros Hq Hps Hm Hv. induction ps as [|[now r] ps IH] in w, v, Hq, Hps, Hm, Hv |- *.
  { exists w. split; [done|]. split; [done|]. eapply counters_ext; [|exact Hv]. intros f. unfold tally. cbn.
    repeat case_match; lia. }
  apply Forall_cons in Hps as [[Hk Hus] Hps]. cbn in Hk, Hus. cbn [record_probes]. destruct r as [us|].
  - unfold recordRTT. rewrite Hk. unfold mbind, io_bind.
    match goal with |- context [do ?c w] => destruct (do_quiet c w Hq) as (net & -> & Hn) end.
    match goal with |- context [call (recordRTTLua key us ?t)] =>
      destruct (recordRTTLua_counters (w_db w) key us t v (Hus us eq_refl) Hm Hv) as (db' & -> & Hv') end.
    cbn [fst]. unfold mret, io_ret. destruct (IH (World db' net) (timed us v) Hn Hps) as (w' & E & Hq' & Hc'); [cbn; lia|done|].
    exists w'. split; [exact E|]. split; [done|]. eapply counters_ext; [|exact Hc']. intros f. apply tally_timed.
  - unfold recordRTTError. rewrite Hk. unfold mbind, io_bind.
    match goal with |- context [pipeline ?c w] => destruct (pipeline_quiet c w Hq) as (net & -> & Hn) end.
    destruct (counters_hincrby (w_db w) key "errors" 1 v Hv) as (d1 & E1 & H1).
    destruct (counters_expire d1 key key (whole_seconds retention) _ H1) as (d2 & E2 & H2).
    cbn [run_cmds]. rewrite E1, E2. cbn [fst]. unfold mret, io_ret.
    destruct (IH (World d2 net) (bump "errors" 1 v) Hn Hps) as (w' & E & Hq' & Hc'); [done|done|].
    exists w'. split; [exact E|]. split; [done|]. eapply counters_ext; [|exact Hc']. intros f. apply tally_failed.
Qed.

(** ** What the alert reads *)

(** strconv.ParseFloat on a decimal integer and on the empty text. *)
Class DecimalFloat `{NumText} := {
  parse_itoa : forall z, parse_float (itoa z) = Ok (inject_Z z);
  parse_empty : exists e, parse_float "" = Bad e
}.

Lemma float_counter `{DecimalFloat} (h : gmap string string) (v : string -> Z) (f : string) :
  (match h !! f with Some x => x = itoa (v f) | None => v f = 0 end) -> float_or_zero h f = inject_Z (v f).
Proof.
  unfold float_or_zero, raw_field. destruct (h !! f) as [x|]; cbn; [intros ->; by rewrite parse_itoa|].
  intros ->. by destruct parse_empty as [e ->].
Qed.

(** In one minute, with buckets of a minute: the alert's summary of the round
    trips is the number, the mean and the maximum of the probes that were timed,
    and the number of those that failed. *)
Theorem rtt_summary_exact `{DecimalFloat} (retention now : Z) (ps : list probe) (w : world) :
  let key := rttBucketKey defaultBucket now in let us := times ps in
  quiet w -> kdb (w_db w) !! key = None -> ps <> [] ->
  Forall (fun p => TenantGuard.bucketEpoch (TenantGuard.unix p.1) = TenantGuard.bucketEpoch (TenantGuard.unix now)
                   /\ forall us, p.2 = Some us -> 0 < us) ps ->
  (rttSummary now (record_probes retention defaultBucket ps w).1).2 =
    Some (mkRTT (if bool_decide (us = []) then 0
                 else inject_Z (foldr Z.add 0 us) / inject_Z (Z.of_nat (length us)) / 1000)
            (inject_Z (foldr Z.max 0 us) / 1000) (Z.of_nat (length ps - length us)) (Z.of_nat (length us))).
Proof.
  intros key us Hq Hk Hne Hps.
  assert (Forall (fun p => rttBucketKey defaultBucket p.1 = key /\ forall us, p.2 = Some us -> 0 < us) ps) as Hps'.
  { eapply Forall_impl; [exact Hps|]. intros p [E Hu]. split; [|exact Hu]. unfold key, rttBucketKey, bucketKey. f_equal. f_equal. f_equal. exact E. }
  destruct (record_probes_counters retention defaultBucket key ps w (fun _ => 0) Hq Hps' ltac:(done) (counters_fresh _ _ Hk))
    as (w' & -> & Hq' & (h & Eh & Hh)). cbn [fst]. unfold rttSummary.
  change (rttKey (TenantGuard.bucketEpoch (TenantGuard.unix now))) with key. unfold mbind, io_bind.
  match goal with |- context [do ?c w'] => destruct (do_quiet c w' Hq') as (net & -> & Hn) end.
  assert (command (HGETALL key) (w_db w') = (w_db w', Ok h)) as Eg by (unfold command, HGETALL, lift; by rewrite Eh).
  rewrite Eg. cbn [fst snd hash_or_empty].
  assert (h <> ∅) as Hn0.
  { intros ->. pose proof (Hh "count") as H1. pose proof (Hh "errors") as H2. rewrite lookup_empty in H1, H2. unfold tally in H1, H2.
    cbn in H1, H2. pose proof (times_length ps). destruct ps; [done|]. cbn [length] in *. lia. }
  rewrite bool_decide_eq_false_2 by done. unfold mret, io_ret. cbn [snd]. f_equal. unfold rtt_of.
  rewrite !(float_counter h (tally ps (fun _ => 0))) by apply Hh. unfold tally. cbn [String.eqb Ascii.eqb Bool.eqb]. fold us.
  rewrite !Z.add_0_l. unfold truncate, inject_Z at 4 5. cbn [Qnum Qden]. rewrite !Z.quot_1_r. f_equal.
  unfold Qltb. destruct us as [|u us']; [reflexivity|]. rewrite bool_decide_eq_false_2 by done.
  destruct (Qle_bool _ 0) eqn:El; [|done]. apply Qle_bool_iff in El. unfold Qle in El. cbn in El. lia.
Qed.

(** With buckets of five minutes, a probe recorded at this instant is not seen:
    the alert looks for buckets of a minute. *)
Theorem wide_buckets_unseen `{NumText} (retention us : Z) (w : world) :
  quiet w -> kdb (w_db w) = ∅ ->
  (rttSummary (sec 150) (record_probes retention (sec 300) [(sec 150, Some us)] w).1).2 = None.
Proof.
  intros Hq Hdb. cbn [record_probes]. unfold recordRTT, mbind, io_bind.
  match goal with |- context [do ?c w] => destruct (do_quiet c w Hq) as (net & -> & Hn) end.
  set (key := rttBucketKey (sec 300) (sec 150)). set (db' := (call (recordRTTLua key us _) (w_db w)).1).
  assert (forall k, k <> key -> kdb db' !! k = None) as Hk.
  { intros k Hne. unfold db'. rewrite (call_frames (fun x => x = key) _ (w_db w) k); [by rewrite Hdb|..|done].
    unfold recordRTTLua. repeat first [apply frames_bind; [|intros ?] | apply frames_HINCRBY | apply frames_read | apply frames_when
      | apply frames_HSET | apply frames_EXPIRE | apply frames_return | done]. }
  clearbody db'. unfold mret, io_ret. cbn [fst]. unfold rttSummary, mbind, io_bind.
  change (TenantGuard.bucketEpoch (TenantGuard.unix (sec 150))) with 120.
  match goal with |- context [do ?c ?w1] => destruct (do_quiet c w1 Hn) as (net2 & -> & Hn2) end.
  assert (forall k, k <> key -> command (HGETALL k) db' = (db', Ok ∅)) as Hg.
  { intros k Hne. unfold command, HGETALL, lift, get_hash. by rewrite Hk. }
  cbn [w_db fst snd]. rewrite Hg by (vm_compute; discriminate). cbn [fst snd hash_or_empty]. rewrite bool_decide_eq_true_2 by done.
  match goal with |- context [do ?c ?w1] => destruct (do_quiet c w1 Hn2) as (net3 & -> & _) end.
  cbn [w_db fst snd]. rewrite Hg by (vm_compute; discriminate). cbn [fst snd hash_or_empty]. by rewrite bool_decide_eq_true_2.
Qed.

(** ** Fields of a bucket *)

(** The writer knows no more job types than it may. *)
Definition writer_ok (w : Writer) : Prop := 0 <= maxJobTypes w -> Z.of_nat (size (known w)) <= maxJobTypes w.

Lemma fieldFor_ok (w : Writer) (jt : string) : writer_ok w ->
  let r := fieldFor w jt in
  writer_ok r.1 /\ known w ⊆ known r.1 /\ (r.2 = AllField \/ r.2 = OtherField \/ r.2 ∈ known r.1).
Proof.
  intros Hw. unfold fieldFor. destruct (String.eqb (TrimSpace jt) ""); [by auto|]. case_bool_decide as Hk; [by auto|].
  destruct (Z.leb_spec (maxJobTypes w) (Z.of_nat (size (known w)))); [by auto|]. cbn. split_and!; [|set_solver|set_solver].
  intros Hm. cbn in *. rewrite size_union by set_solver. rewrite size_singleton. specialize (Hw Hm). lia.
Qed.

Lemma Record_ok (w : Writer) (now : Z) (status jt : string) (count : Z) (W : world) : writer_ok w ->
  writer_ok (Record_ w now status jt count W).2 /\ known w ⊆ known (Record_ w now status jt count W).2.
Proof.
  intros Hw. unfold Record_. destruct (count =? 0); [done|]. destruct (fieldFor_ok w jt Hw) as (H1 & H2 & _).
  destruct (fieldFor w jt) as [w' f]. cbn in *. unfold mbind, io_bind. by destruct (pipeline _ W).
Qed.

(** Whatever events arrive, a writer gives fields of their own to at most as many
    job types as it is set to. *)
Theorem job_types_bounded (w : Writer) (evs : list (Z * Q * string * object)) (W : world) : writer_ok w ->
  writer_ok (foldl (fun s e => Handle s.2 e.1.1.1 e.1.1.2 e.1.2 e.2 s.1) (W, w) evs).2.
Proof.
  assert (forall w now draw ev p W, writer_ok w -> writer_ok (Handle w now draw ev p W).2) as Hh.
  { intros w0 now draw ev p W0 Hw. unfold Handle. destruct (negb _); [done|].
    repeat match goal with |- context [if String.eqb ev ?x then _ else _] => destruct (String.eqb ev x); [try by apply Record_ok|] end; [|done].
    destruct (0 <? _); [by apply Record_ok|done]. }
  revert W w. induction evs as [|e evs IH]; intros W w Hw; [done|]. cbn [foldl].
  cbn [fst snd]. pose proof (Hh w e.1.1.1 e.1.1.2 e.1.2 e.2 W Hw) as H1.
  destruct (Handle w e.1.1.1 e.1.1.2 e.1.2 e.2 W) as [W1 w1]. by apply IH.
Qed.

(** ** Counts *)

(** The counters after a record. *)
Definition counted (w : Writer) (jt : string) (count : Z) (v : string -> Z) : string -> Z :=
  let f := (fieldFor w jt).2 in
  if String.eqb f AllField then bump AllField count v else bump f count (bump AllField count v).

(** A record adds its count to the total of its bucket, and to the field of its
    job type unless that is the total. *)
Theorem Record_counts (w : Writer) (now : Z) (status jt : string) (count : Z) (W : world) (v : string -> Z) :
  let key := bucketKey (bucketSeconds w) status now in
  quiet W -> count <> 0 -> counters (w_db W) key v ->
  exists W', Record_ w now status jt count W = (W', (fieldFor w jt).1) /\ quiet W' /\ counters (w_db W') key (counted w jt count v).
Proof.
  intros key Hq Hc Hv. unfold Record_. rewrite (proj2 (Z.eqb_neq _ _) Hc). unfold counted.
  assert (bucketSeconds (fieldFor w jt).1 = bucketSeconds w) as Eb.
  { unfold fieldFor. by repeat case_match. }
  destruct (fieldFor w jt) as [w' f]. cbn [fst snd] in *. rewrite Eb. fold key. unfold mbind, io_bind.
  match goal with |- context [pipeline ?c W] => destruct (pipeline_quiet c W Hq) as (net & -> & Hn) end.
  destruct (counters_hincrby (w_db W) key AllField count v Hv) as (d1 & E1 & H1). unfold count_cmds.
  destruct (String.eqb f AllField); cbn [app run_cmds]; rewrite E1.
  - destruct (counters_expire d1 key key (whole_seconds (retention w')) _ H1) as (d2 & E2 & H2). rewrite E2. by eexists.
  - destruct (counters_hincrby d1 key f count _ H1) as (d2 & E2 & H2).
    destruct (counters_expire d2 key key (whole_seconds (retention w')) _ H2) as (d3 & E3 & H3). rewrite E2, E3. by eexists.
Qed.

(** ** Heartbeats *)

(** A configuration whose heartbeats are further apart than they last passes the
    checks of both processes: between two beats the consumer counts as gone. *)
Theorem heartbeats_lapse :
  let cfg := DefaultDaemon "h" <| D_LivenessEnabled := true |> <| D_LivenessTTL := sec 10 |> <| D_LivenessHeartbeatInterval := sec 20 |> in
  (exists r, check_daemon cfg [] (fun _ => FileMissing) = inr r)
  /\ exists ttl every track, NewLivenessReporter cfg = Some (ttl, every, track) /\ ttl < every.
Proof. split; [eexists; vm_compute; reflexivity|]. eexists _, _, _. split; [vm_compute; reflexivity|done]. Qed.

(** ** An example *)

Definition decimal_text : NumText := {|
  number_text q := itoa (truncate q); tonumber s := inject_Z <$> atoi s; scan_float s := default 0%Q (inject_Z <$> atoi s);
  parse_float s := match atoi s with Some z => Ok (inject_Z z) | None => Bad "syntax" end
|}.

Lemma decimal_float : @DecimalFloat decimal_text.
Proof. split; [intros z; cbn; by rewrite atoi_itoa|by eexists]. Qed.

Lemma rtt_summary_exact_witness :
  (@rttSummary decimal_text (sec 100) (record_probes defaultRetain defaultBucket [(sec 61, Some 300); (sec 80, None); (sec 99, Some 500)]
     (World empty_redis [])).1).2
  = Some (mkRTT (inject_Z 800 / inject_Z 2 / 1000) (inject_Z 500 / 1000) 1 2).
Proof.
  rewrite (@rtt_summary_exact decimal_text decimal_float); [reflexivity|constructor|reflexivity|discriminate|].
  repeat constructor; cbn; intros us; congruence || (intros [= <-]; lia).
Qed.
