(* ===== verification/Handlers.v ===== *)
(** The user's side of a worker and its failure table: the registry of handlers
    and of exhaustion hooks (pkg/kbatch), the failures kept in MySQL
    (pkg/store/mysql_failures.go) and the form of connection strings (pkg/dsn).

    A handler and a hook are functions of the process; the table is a map from
    batch and job to its row, which is its primary key.  Reading a URL and writing
    the driver's form of it are arguments. *)
From S2P Require Import Prelude Cron Redis Client Kafka Protocol Fairness Sql Control Enqueue Job DaemonConfig.

(** ** The registry *)

Record RetriesExhaustedSummary := mkExhausted {
  rx_JobID : string; rx_BatchID : string; rx_WorkerClass : string; rx_Payload : option json; rx_Attempt : Z; rx_MaxRetries : Z;
  rx_BatchCounted : bool; rx_EnqueuedAt : string; rx_TenantID : string; rx_ErrorClass : string; rx_ErrorMessage : string
}.

Definition HandlerFunc : Type := JobMessage -> kio (option exec_error).
(** A hook may panic. *)
Definition RetriesExhaustedFunc : Type := RetriesExhaustedSummary -> exec_error -> kio (outcome unit).

(** A nil function may be registered. *)
Record registry := mkRegistry { rg_handlers : gmap string HandlerFunc; rg_exhausted : gmap string (option RetriesExhaustedFunc) }.

Definition ResetRetriesExhausted (r : registry) : registry := mkRegistry (rg_handlers r) ∅.
Definition Reset (r : registry) : registry := ResetRetriesExhausted (mkRegistry ∅ (rg_exhausted r)).

Definition Register (r : registry) (jobType : string) (fn : HandlerFunc) : outcome registry :=
  match rg_handlers r !! jobType with
  | Some _ => Panic
  | None => Done (mkRegistry (<[jobType := fn]> (rg_handlers r)) (rg_exhausted r))
  end.

Definition Lookup (r : registry) (jobType : string) : option HandlerFunc := rg_handlers r !! jobType.

Definition OnRetriesExhausted (r : registry) (jobType : string) (fn : option RetriesExhaustedFunc) : registry :=
  mkRegistry (rg_handlers r) (<[jobType := fn]> (rg_exhausted r)).

(** [execErr.Error()] is its message. *)
Definition exhaustionErrorClass (e : exec_error) : string :=
  match he_Class e with Some c => if String.eqb c "" then he_Message e else c | None => he_Message e end.

Definition retriesExhaustedSummary (job : JobMessage) (e : exec_error) (maxRetries : Z) : RetriesExhaustedSummary :=
  mkExhausted (J_JobID job) (deref (J_BatchID job)) (J_WorkerClass job)
    (match J_Payload job with Some p => Some p | None => Some (JOther "{}") end) (J_Attempt job) maxRetries (J_BatchCounted job)
    (J_EnqueuedAt job) (deref (J_TenantID job)) (exhaustionErrorClass e) (he_Message e).

(** Whether a hook ran; its panic is caught. *)
Definition RunRetriesExhausted (r : registry) (job : JobMessage) (e : exec_error) (maxRetries : Z) : kio bool :=
  match rg_exhausted r !! J_JobType job with
  | Some (Some fn) => _ ← fn (retriesExhaustedSummary job e maxRetries) e; mret true
  | _ => mret false
  end.

(** What the processor sees of the registry. *)
Definition registry_hooks (r : registry) (h : Hooks) : Hooks :=
  mkHooks (hk_RecordFailure h) (hk_ClearFailure h) (Lookup r)
    (fun job e n => _ ← RunRetriesExhausted r job e n; mret tt) (hk_JobStarted h) (hk_JobFinished h) (hk_Runtime h).

(** ** Failures in MySQL *)

Record failure_row := mkFailureRow {
  fl_worker_class : string; fl_error_class : string; fl_error_message : string; fl_attempt : Z; fl_status : string;
  fl_failed_at : Z; fl_next_retry_at : option string
}.

Definition failures : Type := gmap (string * string) failure_row.

Definition nullIfEmpty (s : string) : option string := if String.eqb s "" then None else Some s.

(** INSERT .. ON DUPLICATE KEY UPDATE; None is success. *)
Definition RecordFailure (f : sql_fault) (now : Z) (e : FailureEntry) (nextRetryAt : string) (t : failures) : failures * error :=
  if String.eqb (fe_BatchID e) "" || String.eqb (fe_JobID e) "" then (t, None)
  else
    let row := mkFailureRow (fe_WorkerClass e) (fe_ErrorClass e) (fe_ErrorMessage e) (fe_Attempt e)
                 (or_text (fe_Status e) "failed") now (nullIfEmpty nextRetryAt) in
    let '(t, r) := sql_answer f (fun t => (<[(fe_BatchID e, fe_JobID e) := row]> t, tt)) t in
    (t, match r with Ok _ => None | Bad e => Some e end).

Definition ClearFailure (f : sql_fault) (batchID jobID : string) (t : failures) : failures * error :=
  if String.eqb batchID "" || String.eqb jobID "" then (t, None)
  else
    let '(t, r) := sql_answer f (fun t : failures => (delete (batchID, jobID) t, tt)) t in
    (t, match r with Ok _ => None | Bad e => Some e end).

(** ** Connection strings *)

Record mysql_url := mkUrl {
  u_host : string; u_port : string; u_path : string; u_user : option (string * option string); u_query : list (string * string)
}.

(** The settings handed to the driver's FormatDSN. *)
Record driver_config := mkDriver {
  dc_Addr : string; dc_DBName : string; dc_User : string; dc_Passwd : string; dc_Params : list (string * string)
}.

(** strings.Cut(s, "://"): the part before. *)
Fixpoint before_scheme (s : string) : option string :=
  if String.prefix "://" s then Some ""
  else match s with EmptyString => None | String c s => String c <$> before_scheme s end.

Definition urlSchemes (scheme : string) : bool := String.eqb scheme "mysql" || String.eqb scheme "mysql2".

(** net.JoinHostPort puts brackets around an address with colons. *)
Fixpoint has_colon (s : string) : bool := match s with EmptyString => false | String c s => is_char 58 c || has_colon s end.
Definition JoinHostPort (host port : string) : string :=
  if has_colon host then "[" +:+ host +:+ "]:" +:+ port else host +:+ ":" +:+ port.

Definition TrimSlash (s : string) : string := match s with String c r => if is_char 47 c then r else s | EmptyString => s end.

Section dsn.
Context (parse_url : string -> result mysql_url) (FormatDSN : driver_config -> string).

Definition Normalize (conn : string) : result string :=
  let conn := TrimSpace conn in
  if String.eqb conn "" then Ok ""
  else match before_scheme conn with
  | Some scheme =>
      if negb (urlSchemes (ToLower scheme)) then Ok conn
      else match parse_url conn with
      | Bad e => Bad ("parse mysql connection url: " +:+ e)
      | Ok u =>
          if String.eqb (u_host u) "" then Bad ("mysql connection url " +:+ scheme +:+ "://...: missing host")
          else Ok (FormatDSN (mkDriver (JoinHostPort (u_host u) (or_text (u_port u) "3306")) (TrimSlash (u_path u))
                     (from_option fst "" (u_user u)) (default "" (u_user u ≫= snd)) (u_query u)))
      end
  | None => Ok conn
  end.
End dsn.
