(* ===== verification/ReportsProps.v ===== *)
(** The properties of the reports and of the user's registry: what a subscriber
    makes of the events as the program builds them, that subscriptions do not
    disturb each other, and what a worker finds of the handlers it was given. *)
From S2P Require Import Prelude Cron Redis Client Kafka Protocol Fairness Frame Ledger LedgerRefine Control Enqueue Job Gates Tenants Sql DaemonConfig DaemonConfigProps Instrument Boot BootProps Alerts Metrics Handlers.

(** ** Subscriptions *)

Section subscriptions.
Context {A : Type}.
Implicit Types (b : bus A) (f : handlerFunc A).

(** What a process does with the bus; a removal names the subscription it is of. *)
Inductive bus_step : bus A -> bus A -> Prop :=
  | step_set b fn : bus_step b (SetHandler b fn)
  | step_add b fn : bus_step b (AddHandler b fn).1
  | step_remove b id removed : bus_step b (remove_handler b id removed).1.

Definition fresh_ids b : Prop := forall id, is_Some (handlers b !! id) -> id <= nextID b.

Lemma fresh_ids_step b b' : bus_step b b' -> fresh_ids b -> fresh_ids b' /\ nextID b <= nextID b'.
Proof.
  intros [b0 fn|b0 fn|b0 id removed] Hb.
  - destruct fn as [f|]; cbn; (split; [|lia]); intros i [x Hx]; cbn in *; [|done].
    apply lookup_singleton_Some in Hx as [<- _]. lia.
  - destruct fn as [f|]; cbn; (split; [|lia]); [|done]. intros i Hi. cbn in *. apply lookup_insert_is_Some in Hi as [<-|[_ Hi]]; [lia|].
    specialize (Hb i Hi). lia.
  - destruct id as [id|]; [|done]. destruct removed; [done|]. split; [|cbn; lia]. intros i Hi. cbn in *.
    apply lookup_delete_is_Some in Hi as [_ Hi]. by apply Hb.
Qed.

(** However the bus came about, a subscription gets a number no present subscriber
    has, so it replaces none, and taking it back leaves the others as they were. *)
Theorem subscription_apart b0 b f : fresh_ids b0 -> rtc bus_step b0 b ->
  exists id, (AddHandler b (Some f)).2 = Some id /\ handlers b !! id = None
    /\ handlers (AddHandler b (Some f)).1 !! id = Some f
    /\ (forall other, other <> id -> handlers (AddHandler b (Some f)).1 !! other = handlers b !! other)
    /\ handlers (remove_handler (AddHandler b (Some f)).1 (Some id) false).1 = handlers b.
Proof.
  intros H0 Hr. assert (fresh_ids b) as Hb.
  { clear f. induction Hr as [x|x y z Hs _ IH]; [done|]. apply IH. by eapply fresh_ids_step. }
  exists (nextID b + 1). assert (handlers b !! (nextID b + 1) = None) as Hn.
  { apply eq_None_not_Some. intros Hi. specialize (Hb _ Hi). lia. }
  repeat split; cbn; [done|by rewrite lookup_insert_eq| |by apply delete_insert_id].
  intros other Hne. by rewrite lookup_insert_ne.
Qed.

(** A subscriber that panics costs the others nothing: what an event does is the
    effect of all subscribers, one after the other. *)
Theorem Emit_reaches_all b e a f (id : Z) : handlers b !! id = Some f ->
  exists before after, (map_to_list (handlers b)).*2 = before ++ f :: after
    /\ Emit b e a = foldl (fun a fn => invoke fn e a) (f e (foldl (fun a fn => invoke fn e a) a before)).1 after.
Proof.
  intros Hf. apply elem_of_map_to_list in Hf. apply (list_elem_of_fmap_2 snd) in Hf. cbn in Hf.
  apply list_elem_of_split in Hf as (before & after & E). exists before, after. split; [done|].
  unfold Emit. by rewrite E, foldl_app.
Qed.
End subscriptions.

(** ** What subscribers make of the events *)

Section meaning.
Context `{Json} `{TimeText} `{NumText}.

Lemma JobPayload_own (jobID batchID workerClass key : string) (extra : object) : extra !! key = None ->
  JobPayload jobID batchID workerClass extra !! key
  = (obj [("job_id", JStr jobID); ("batch_id", JStr batchID); ("worker_class", JStr workerClass)] : object) !! key.
Proof. intros E. unfold JobPayload. rewrite lookup_union, E. by rewrite (left_id_L None (∪)). Qed.

(** The name a job is counted under. *)
Definition reported_type (job : JobMessage) : string :=
  if String.eqb (J_JobType job) "" then J_WorkerClass job else J_JobType job.

Lemma jobTypeField_payload (job : JobMessage) (extra : object) : extra !! "job_type" = None -> extra !! "worker_class" = None ->
  Perf.jobTypeField (jobInstrumentPayload job extra) = reported_type job.
Proof.
  intros Et Ew. unfold Perf.jobTypeField, jobInstrumentPayload, reported_type, str_field.
  destruct (String.eqb_spec (deref (J_TenantID job)) "") as [_|_].
  all: destruct (String.eqb (J_JobType job) "") eqn:Ej.
  all: simplify_map_eq; rewrite ?JobPayload_own by done; simpl; by rewrite ?Ej.
Qed.

(** A finished, retried or failed job, reported as the processor reports it, is
    counted once, in the bucket of its outcome, under its type or else its class. *)
Theorem job_reports_counted (w : Perf.Writer) (now : Z) (draw : Q) (job : JobMessage) (ms : Q) (n : Z) (topic class msg : string) :
  Perf.sampled w draw = true ->
  let counted e status := Perf.Handle w now draw (em_event e) (em_payload e) = Perf.Record_ w now status (reported_type job) 1 in
  counted (emitJobProcessed job ms) "processed" /\ counted (emitJobRetried job n topic) "retried"
  /\ counted (emitJobFailed job n class msg) "failed".
Proof.
  intros Hs counted. subst counted. unfold Perf.Handle. rewrite Hs. cbn -[jobInstrumentPayload].
  by repeat split; rewrite jobTypeField_payload.
Qed.

(** The sweep of the working set is counted by the number it took back. *)
Theorem sweep_report_counted (w : Perf.Writer) (now : Z) (draw : Q) (checked reclaimed failed skipped duration : Z) :
  Perf.sampled w draw = true -> 0 < reclaimed ->
  let e := WorksetReclaimed checked reclaimed failed skipped duration in
  Perf.Handle w now draw (em_event e) (em_payload e) = Perf.Record_ w now "reclaimed" "" reclaimed.
Proof.
  intros Hs Hr e. subst e. unfold Perf.Handle. rewrite Hs. cbn -[obj].
  assert (Perf.intField (obj [("checked", JNum (inject_Z checked)); ("reclaimed", JNum (inject_Z reclaimed));
    ("failed", JNum (inject_Z failed)); ("skipped", JNum (inject_Z skipped)); ("duration", JNum (duration # 1000000000))]) "reclaimed" = reclaimed) as ->.
  { unfold Perf.intField. cbn. apply Z.quot_1_r. }
  by apply Z.ltb_lt in Hr as ->.
Qed.

(** The alerts count the dead letters and mark the schedules that are late, by
    whole seconds, from the events as the program builds them. *)
Theorem alert_hook_hears (jobID batchID dltType sourceTopic schedule jobType : string) (stale threshold : Q) (now : Z) :
  let hear e := instrument_hook (em_event e) (em_payload e) now in
  hear (DLTPublished jobID batchID dltType sourceTopic) = IncrDLT now
  /\ (schedule <> "" -> hear (CronStale schedule jobType stale threshold) = MarkCronStale schedule jobType (truncate stale) now).
Proof.
  split; [done|]. intros Hs. unfold instrument_hook, CronStale, str_field. simpl. simplify_map_eq. apply String.eqb_neq in Hs. rewrite Hs. done.
Qed.
End meaning.

(** ** The registry *)

(** A program's registrations, in order. *)
Fixpoint register_all (l : list (string * HandlerFunc)) (r : registry) : outcome registry :=
  match l with
  | [] => Done r
  | (t, fn) :: l => match Register r t fn with Done r => register_all l r | Panic => Panic end
  end.

(** Registrations go through exactly when no name comes twice, and then each name
    finds its own handler and every other name what it found before. *)
Lemma register_all_spec (l : list (string * HandlerFunc)) (r : registry) :
  match register_all l r with
  | Done r' => NoDup l.*1 /\ (forall t, t ∈ l.*1 -> Lookup r t = None) /\ rg_exhausted r' = rg_exhausted r
      /\ (forall t fn, (t, fn) ∈ l -> Lookup r' t = Some fn) /\ (forall t, t ∉ l.*1 -> Lookup r' t = Lookup r t)
  | Panic => ~ NoDup l.*1 \/ exists t, t ∈ l.*1 /\ is_Some (Lookup r t)
  end.
Proof.
  revert r. induction l as [|[t fn] l IH]; intros r; cbn -[Lookup].
  { split; [apply NoDup_nil_2|]. split; [set_solver|]. split; [done|]. split; [set_solver|done]. }
  unfold Register. destruct (rg_handlers r !! t) eqn:E.
  { right. exists t. split; [set_solver|]. unfold Lookup. by rewrite E. }
  specialize (IH (mkRegistry (<[t := fn]> (rg_handlers r)) (rg_exhausted r))). destruct (register_all l _) as [r'|] eqn:Er.
  - destruct IH as (Hnd & Hnew & Hex & Hown & Hother). cbn in Hex. unfold Lookup in *; cbn in *.
    assert (t ∉ l.*1) as Ht. { intros Hin. apply Hnew in Hin. by rewrite lookup_insert_eq in Hin. }
    split; [by constructor|]. split; [|split; [done|split]].
    + intros u [->|Hu]%elem_of_cons; [done|]. pose proof (Hnew u Hu) as Hx. apply lookup_insert_None in Hx as [Hx _]. exact Hx.
    + intros u g [[= -> ->]|Hu]%elem_of_cons; [|by apply Hown]. rewrite Hother by done. apply lookup_insert_eq.
    + intros u Hu. apply not_elem_of_cons in Hu as [Hne Hu]. rewrite Hother by done. by apply lookup_insert_ne.
  - destruct IH as [Hnd|(u & Hu & Hs)].
    + left. by intros [_ Hn]%NoDup_cons.
    + unfold Lookup in Hs; cbn in Hs. apply lookup_insert_is_Some in Hs as [->|[_ Hs]].
      * left. by intros [Hn _]%NoDup_cons.
      * right. exists u. split; [set_solver|done].
Qed.

(** From an empty registry: registering panics exactly on a repeated name. *)
Theorem register_all_distinct (l : list (string * HandlerFunc)) (r : registry) :
  (exists r', register_all l (Reset r) = Done r') <-> NoDup l.*1.
Proof.
  pose proof (register_all_spec l (Reset r)) as Hs. destruct (register_all l (Reset r)) as [r'|].
  - destruct Hs as [Hnd _]. split; [done|]. by exists r'.
  - split; [by intros []|]. intros Hnd. destruct Hs as [|(t & _ & [x Hx])]; [done|]. by cbn in Hx.
Qed.

(** A worker that boots on a registry finds, for every Go handler its manifest
    names, the function that was registered under it. *)
Theorem booted_handlers_found (cfg : Daemon) (m : Manifest) (read : string -> file_read) (r : registry) (h : Hooks) (p : worker_plan) :
  plan_worker cfg m (fun t => bool_decide (is_Some (Lookup r t))) read = inr p ->
  forall e, e ∈ m -> runtime_of e.2 = RuntimeGo -> is_Some (hk_Lookup (registry_hooks r h) e.1).
Proof.
  intros Hp e He Hr. apply plan_worker_inv in Hp as (reg & Hv & _). apply Validate_none in Hv as [_ Hv].
  specialize (Hv e He Hr). cbn beta in Hv. by apply bool_decide_eq_true in Hv.
Qed.

(** ** The failure table *)

(** A recorded failure is there until it is cleared, and neither touches the row
    of another job; without a batch or a job nothing is kept. *)
Theorem failure_recorded_and_cleared (now : Z) (e : FailureEntry) (next : string) (t : failures) :
  fe_BatchID e <> "" -> fe_JobID e <> "" ->
  let t1 := (RecordFailure SqlFine now e next t).1 in
  let t2 := (ClearFailure SqlFine (fe_BatchID e) (fe_JobID e) t1).1 in
  (exists row, t1 !! (fe_BatchID e, fe_JobID e) = Some row /\ fl_error_message row = fe_ErrorMessage e
     /\ fl_attempt row = fe_Attempt e /\ fl_status row <> "" /\ fl_failed_at row = now)
  /\ t2 !! (fe_BatchID e, fe_JobID e) = None
  /\ forall k, k <> (fe_BatchID e, fe_JobID e) -> t1 !! k = t !! k /\ t2 !! k = t !! k.
Proof.
  intros Hb Hj t1 t2. subst t2 t1. apply String.eqb_neq in Hb, Hj. unfold RecordFailure, ClearFailure. rewrite Hb, Hj. cbn.
  split; [|split].
  - eexists. split; [apply lookup_insert_eq|]. cbn. split_and!; try done. unfold or_text.
    by destruct (String.eqb_spec (fe_Status e) "").
  - apply lookup_delete_eq.
  - intros k Hk. split; [|etrans; [by apply lookup_delete_ne|]]; by apply lookup_insert_ne.
Qed.

(** A statement whose answer is lost may be sent again: the table ends as if it had
    been answered, up to the time it was recorded at. *)
Theorem failure_retry_idempotent (now : Z) (e : FailureEntry) (next : string) (t : failures) :
  (RecordFailure SqlFine now e next (RecordFailure SqlLost now e next t).1).1 = (RecordFailure SqlFine now e next t).1.
Proof. unfold RecordFailure. destruct (_ || _); [done|]. cbn. apply insert_insert_eq. Qed.

(** ** Connection strings *)

Lemma before_scheme_prefix (s scheme : string) : before_scheme s = Some scheme -> exists rest, s = scheme +:+ "://" +:+ rest.
Proof.
  revert scheme. induction s as [|c s IH]; intros scheme; [done|]. cbn [before_scheme].
  destruct (String.prefix "://" (String c s)) eqn:Ep.
  - intros [= <-]. apply prefix_exact in Ep as [rest ->]. by exists rest.
  - intros (x & E & ->)%fmap_Some. apply IH in E as [rest ->]. by exists rest.
Qed.

(** A connection string that is no MySQL URL reaches the driver as it was written,
    without the blanks around it, however URLs are read or driver strings written. *)
Theorem Normalize_native (parse_url : string -> result mysql_url) (FormatDSN : driver_config -> string) (conn : string) :
  (forall scheme rest, TrimSpace conn = scheme +:+ "://" +:+ rest -> urlSchemes (ToLower scheme) = false) ->
  Normalize parse_url FormatDSN conn = Ok (TrimSpace conn).
Proof.
  intros Hn. unfold Normalize. destruct (String.eqb_spec (TrimSpace conn) "") as [->|_]; [done|].
  destruct (before_scheme (TrimSpace conn)) as [scheme|] eqn:E; [|done]. apply before_scheme_prefix in E as [rest E].
  by rewrite (Hn scheme rest E).
Qed.
