(* ===== verification/ClientSetup.v ===== *)
(** How a produce client comes about (pkg/client): its settings (config.go), the
    environment (env.go), the settings a daemon hands to the client of its
    recurring scheduler (from_daemon.go), client.New with its checks (client.go,
    validate.go, schedule_index.go) and the topics it asks for (topics.go).

    What the produce operations use of the settings is [Enqueue.Config].  Whether a
    server can be reached is an argument, in the order in which it is asked. *)
From S2P Require Import Prelude Cron Redis Client Kafka Protocol Fairness Ledger Store Sql Tenants Control Enqueue Job Gates DaemonConfig Instrument Boot.

(** ** Settings *)

Record Settings := mkSettings {
  cs_Produce : Enqueue.Config; cs_Brokers : list string; cs_RedisURL : string; cs_ManifestPath : string;
  cs_BatchTTL : Z; cs_UniqLockTTL : Z; cs_ScheduleIndexWriteBackoff : Z; cs_AllIndexMaxSize : Z; cs_ScheduleStore : string;
  cs_ScheduleMySQLDSN : string; cs_FairnessDynamicTenantPartitions : bool; cs_FairnessTenantPartitionCacheTTL : Z;
  cs_TopicsReplicationFactor : Z; cs_TopicsIncludeControlPlane : bool; cs_ValidateTopicsOnConnect : bool;
  cs_EventsTopic : string; cs_DeadLetterTopic : string; cs_TopicsExtra : list string; cs_TopicsForcePartitions : Z
}.

Definition DefaultConfig : Settings := {|
  cs_Produce := Enqueue.mkConfig "" "kafka_batch.jobs" "kafka_batch.scheduled" "kafka_batch.callbacks" 7 true "skip" 3
                  (sec (30 * 86400)) 500 "kafka_batch.fair_time_ingest" "kafka_batch.fair_throughput_ingest" ∅ ∅ false;
  cs_Brokers := ["localhost:9092"]; cs_RedisURL := "redis://localhost:6379/0"; cs_ManifestPath := "";
  cs_BatchTTL := sec (7 * 86400); cs_UniqLockTTL := sec (7 * 86400); cs_ScheduleIndexWriteBackoff := sec 1;
  cs_AllIndexMaxSize := 0; cs_ScheduleStore := ""; cs_ScheduleMySQLDSN := ""; cs_FairnessDynamicTenantPartitions := true;
  cs_FairnessTenantPartitionCacheTTL := sec 30; cs_TopicsReplicationFactor := 0; cs_TopicsIncludeControlPlane := false;
  cs_ValidateTopicsOnConnect := false; cs_EventsTopic := "kafka_batch.events"; cs_DeadLetterTopic := "kafka_batch.dead_letter";
  cs_TopicsExtra := []; cs_TopicsForcePartitions := 0
|}.

(** The client of a daemon's recurring scheduler. *)
Definition ConfigFromDaemon (d : Daemon) : Settings :=
  let c := DefaultConfig in let p := cs_Produce c in
  {| cs_Produce := Enqueue.mkConfig (D_TopicPrefix d) (default (JobsTopic p) (head (D_JobsTopics d)))
       (or_text (D_ScheduledTopic d) (ScheduledTopic p)) (or_text (D_CallbacksTopic d) (cf_CallbacksTopic p))
       (or_pos (D_MaxRetries d) (cf_MaxRetries p)) (UniqEnabled p) (UniqOnDuplicate p) (ScheduleIndexWriteRetries p)
       (MaxScheduleHorizon p) (ProduceChunkSize p) (or_text (D_FairnessTimeIngest d) (FairnessTimeIngest p))
       (or_text (D_FairnessThroughputIngest d) (FairnessThroughputIngest p)) (D_FairnessTenantPartitions d)
       (Workers p) (AllowUnknownWorkerClasses p);
     cs_Brokers := D_Brokers d; cs_RedisURL := D_RedisURL d; cs_ManifestPath := D_HandlerManifest d;
     cs_BatchTTL := cs_BatchTTL c; cs_UniqLockTTL := cs_UniqLockTTL c;
     cs_ScheduleIndexWriteBackoff := cs_ScheduleIndexWriteBackoff c; cs_AllIndexMaxSize := cs_AllIndexMaxSize c;
     cs_ScheduleStore := or_text (D_ScheduleStore d) (cs_ScheduleStore c);
     cs_ScheduleMySQLDSN := or_text (D_ScheduleMySQLDSN d) (cs_ScheduleMySQLDSN c);
     cs_FairnessDynamicTenantPartitions := D_FairnessDynamicTenantPartitions d;
     cs_FairnessTenantPartitionCacheTTL := or_pos (D_FairnessTenantPartitionCacheTTL d) (cs_FairnessTenantPartitionCacheTTL c);
     cs_TopicsReplicationFactor := cs_TopicsReplicationFactor c; cs_TopicsIncludeControlPlane := cs_TopicsIncludeControlPlane c;
     cs_ValidateTopicsOnConnect := cs_ValidateTopicsOnConnect c; cs_EventsTopic := or_text (D_EventsTopic d) (cs_EventsTopic c);
     cs_DeadLetterTopic := or_text (D_DeadLetterTopic d) (cs_DeadLetterTopic c); cs_TopicsExtra := cs_TopicsExtra c;
     cs_TopicsForcePartitions := cs_TopicsForcePartitions c |}.

Definition with_prefix (p : Enqueue.Config) (prefix : string) : Enqueue.Config :=
  Enqueue.mkConfig prefix (JobsTopic p) (ScheduledTopic p) (cf_CallbacksTopic p) (cf_MaxRetries p) (UniqEnabled p)
    (UniqOnDuplicate p) (ScheduleIndexWriteRetries p) (MaxScheduleHorizon p) (ProduceChunkSize p) (FairnessTimeIngest p)
    (FairnessThroughputIngest p) (FairnessTenantPartitions p) (Workers p) (AllowUnknownWorkerClasses p).

(** The environment goes before the settings. *)
Definition ApplyEnv (lookup : string -> option string) (c : Settings) : Settings :=
  let env := Getenv lookup in
  {| cs_Produce := with_prefix (cs_Produce c) (env_trim (env "KAFKA_PREFIX") (TopicPrefix (cs_Produce c)));
     cs_Brokers := env_split (env "KAFKA_BROKERS") (cs_Brokers c);
     cs_RedisURL := or_text (env "REDIS_URL") (cs_RedisURL c);
     cs_ManifestPath := or_text (env "KAFKA_BATCH_HANDLER_MANIFEST") (cs_ManifestPath c);
     cs_BatchTTL := cs_BatchTTL c; cs_UniqLockTTL := cs_UniqLockTTL c;
     cs_ScheduleIndexWriteBackoff := cs_ScheduleIndexWriteBackoff c; cs_AllIndexMaxSize := cs_AllIndexMaxSize c;
     cs_ScheduleStore := cs_ScheduleStore c;
     cs_ScheduleMySQLDSN := ExpandEnv lookup (or_text (env "KAFKA_BATCH_SCHEDULE_MYSQL_DSN") (cs_ScheduleMySQLDSN c));
     cs_FairnessDynamicTenantPartitions := cs_FairnessDynamicTenantPartitions c;
     cs_FairnessTenantPartitionCacheTTL := cs_FairnessTenantPartitionCacheTTL c;
     cs_TopicsReplicationFactor := cs_TopicsReplicationFactor c; cs_TopicsIncludeControlPlane := cs_TopicsIncludeControlPlane c;
     cs_ValidateTopicsOnConnect := cs_ValidateTopicsOnConnect c; cs_EventsTopic := cs_EventsTopic c;
     cs_DeadLetterTopic := cs_DeadLetterTopic c; cs_TopicsExtra := cs_TopicsExtra c;
     cs_TopicsForcePartitions := cs_TopicsForcePartitions c |}.

(** ** Topics *)

Definition int16 (z : Z) : Z := (z + 32768) mod 65536 - 32768.

Definition topicPlanner (c : Settings) (m : Manifest) : ClientTopics :=
  let rf := int16 (cs_TopicsReplicationFactor c) in let p := cs_Produce c in
  mkClientTopics (TopicPrefix p) (JobsTopic p) (ScheduledTopic p) (cf_CallbacksTopic p) (cs_EventsTopic c)
    (cs_DeadLetterTopic c) (FairnessTimeIngest p) (FairnessThroughputIngest p) (if rf <? 1 then 1 else rf)
    (cs_TopicsForcePartitions c) (cs_TopicsIncludeControlPlane c) (MaxScheduleHorizon p) m (cs_TopicsExtra c).

Definition TopicSpecs (c : Settings) (m : Manifest) : list Spec := Specs (topicPlanner c m).

Definition EnsureTopics (c : Settings) (m : Manifest) (existing : gset string) (create : Spec -> error) : Result :=
  CreateAll existing create (TopicSpecs c m).

Definition ValidateTopics (c : Settings) (m : Manifest) (existing : result (gset string)) : error :=
  match existing with
  | Bad e => Some e
  | Ok names => match Missing names (TopicSpecs c m) with
                | [] => None
                | missing => Some ("missing kafka topics: " +:+ join ", " missing)
                end
  end.

(** ** client.New *)

Definition validateManifest (c : Settings) (m : Manifest) : bool :=
  negb (bool_decide (m = []) && bool_decide (Workers (cs_Produce c) = ∅) && negb (String.eqb (cs_ManifestPath c) ""))
  && bool_decide (ValidateRouting m (Enqueue.defaultJobsTopic (cs_Produce c)) = None).

(** [None] is the index in Redis. *)
Definition openScheduleIndex (open_mysql : string -> error) (c : Settings) : result (option scheduleIndex) :=
  let s := cs_ScheduleStore c in
  if String.eqb s "" || String.eqb s "redis" then Ok None
  else if String.eqb s "mysql" then
    if String.eqb (cs_ScheduleMySQLDSN c) "" then Bad "schedule_mysql_dsn required when schedule_store is mysql"
    else match open_mysql (cs_ScheduleMySQLDSN c) with Some e => Bad e | None => Ok (Some mysqlScheduleIndex) end
  else Bad "schedule_store must be redis or mysql".

(** The lane's ingest topic, as the tenants' partitions know it. *)
Definition IngestTopic (c : Settings) (lane : string) : string :=
  let p := cs_Produce c in
  if String.eqb lane "time" then Enqueue.resolveTopic p (FairnessTimeIngest p)
  else if String.eqb lane "throughput" then Enqueue.resolveTopic p (FairnessThroughputIngest p)
  else Enqueue.defaultJobsTopic p.

Definition with_ttls (c : Settings) : Settings :=
  {| cs_Produce := cs_Produce c; cs_Brokers := cs_Brokers c; cs_RedisURL := cs_RedisURL c; cs_ManifestPath := cs_ManifestPath c;
     cs_BatchTTL := or_default (cs_BatchTTL c) (cs_BatchTTL DefaultConfig);
     cs_UniqLockTTL := or_default (cs_UniqLockTTL c) (cs_UniqLockTTL DefaultConfig);
     cs_ScheduleIndexWriteBackoff := cs_ScheduleIndexWriteBackoff c; cs_AllIndexMaxSize := cs_AllIndexMaxSize c;
     cs_ScheduleStore := cs_ScheduleStore c; cs_ScheduleMySQLDSN := cs_ScheduleMySQLDSN c;
     cs_FairnessDynamicTenantPartitions := cs_FairnessDynamicTenantPartitions c;
     cs_FairnessTenantPartitionCacheTTL := cs_FairnessTenantPartitionCacheTTL c;
     cs_TopicsReplicationFactor := cs_TopicsReplicationFactor c; cs_TopicsIncludeControlPlane := cs_TopicsIncludeControlPlane c;
     cs_ValidateTopicsOnConnect := cs_ValidateTopicsOnConnect c; cs_EventsTopic := cs_EventsTopic c;
     cs_DeadLetterTopic := cs_DeadLetterTopic c; cs_TopicsExtra := cs_TopicsExtra c;
     cs_TopicsForcePartitions := cs_TopicsForcePartitions c |}.

(** The answers of the servers. *)
Record servers := mkServers {
  sv_redis_url : string -> error; sv_mysql : string -> error; sv_ping : error; sv_kafka : list string -> error;
  sv_topics : result (gset string); sv_partitions : string -> result Z
}.

Section new.
Context `{NumText} (lookup : string -> option string) (readFile : string -> result string) (yaml : string -> result Manifest).

(** The settings the client works with, itself and its tenants' partitions, whose
    lanes are warmed; the errors of that are dropped. *)
Definition New (sv : servers) (cfg : Settings) : io (result (Settings * Client * TenantPartitions)) :=
  let cfg := with_ttls (ApplyEnv lookup cfg) in
  if bool_decide (cs_Brokers cfg = []) then mret (Bad "brokers are required")
  else if String.eqb (cs_RedisURL cfg) "" then mret (Bad "redis_url is required")
  else match LoadManifest readFile yaml (cs_ManifestPath cfg) (TopicPrefix (cs_Produce cfg)) with
  | (_, Some e) => mret (Bad e)
  | (m, None) =>
  match sv_redis_url sv (cs_RedisURL cfg) with
  | Some e => mret (Bad e)
  | None =>
  match openScheduleIndex (sv_mysql sv) cfg with
  | Bad e => mret (Bad e)
  | Ok index =>
      let c := mkClient (cs_Produce cfg) (list_to_map m) (Some (NewRedisStore (cs_BatchTTL cfg))) (default redisScheduleIndex index)
                 (Some (Uniq.NewLocker (cs_UniqLockTTL cfg))) (buildWorkerIndex (cs_Produce cfg) m) in
      if negb (validateManifest cfg m) then mret (Bad "manifest")
      else match sv_ping sv with
      | Some e => mret (Bad ("redis ping: " +:+ e))
      | None =>
      match sv_kafka sv (cs_Brokers cfg) with
      | Some e => mret (Bad e)
      | None =>
          let tenants := NewTenantPartitions (FairnessTenantPartitions (cs_Produce cfg)) (cs_FairnessDynamicTenantPartitions cfg)
                           (cs_FairnessTenantPartitionCacheTTL cfg) in
          _ ← (if cs_FairnessDynamicTenantPartitions cfg
               then _ ← Warm tenants "time" (sv_partitions sv (IngestTopic cfg "time"));
                    Warm tenants "throughput" (sv_partitions sv (IngestTopic cfg "throughput"))
               else mret None);
          mret (match (if cs_ValidateTopicsOnConnect cfg then ValidateTopics cfg m (sv_topics sv) else None) with
                | Some e => Bad e
                | None => Ok (cfg, c, tenants)
                end)
      end end
  end end end.
End new.
