(* ===== verification/ClientSetupProps.v ===== *)
(** The properties of a client's setup: the client of the recurring scheduler and
    the processes that consume what it writes agree on topics and handlers. *)
From S2P Require Import Prelude Cron Redis Client Kafka Protocol Fairness Ledger Store Sql Tenants Control Enqueue Job Gates Loops DaemonConfig DaemonConfigProps Instrument Boot BootProps Startup StartupProps Concrete ClientSetup.

(** ** The environment *)

Lemma env_trim_idem (v x : string) : env_trim v (env_trim v x) = env_trim v x.
Proof. unfold env_trim. by destruct (String.eqb v ""). Qed.

Lemma or_text_idem (v x : string) : or_text v (or_text v x) = or_text v x.
Proof. unfold or_text. by destruct (String.eqb v ""). Qed.

(** What the environment says is in a loaded configuration already, and the topics
    of the lanes have the prefix. *)
Lemma loaded_environment `{NumText} (host : string) lookup read yaml (path : string) (c : Daemon) :
  LoadDaemon host lookup read yaml path = (c, None) ->
  env_trim (Getenv lookup "KAFKA_PREFIX") (D_TopicPrefix c) = D_TopicPrefix c
  /\ or_text (Getenv lookup "KAFKA_BATCH_HANDLER_MANIFEST") (D_HandlerManifest c) = D_HandlerManifest c
  /\ (D_TopicPrefix c <> "" -> HasPrefix (D_FairnessTimeIngest c) (D_TopicPrefix c +:+ ".") = true
        /\ HasPrefix (D_FairnessThroughputIngest c) (D_TopicPrefix c +:+ ".") = true).
Proof.
  intros (b & Hb & ->)%LoadDaemon_unprefixed. rewrite prefixTopics_prefix.
  assert (D_HandlerManifest (prefixTopics b) = D_HandlerManifest b) as -> by (unfold prefixTopics; by destruct (String.eqb _ _)).
  assert (exists x y, D_TopicPrefix b = env_trim (Getenv lookup "KAFKA_PREFIX") x
    /\ D_HandlerManifest b = or_text (Getenv lookup "KAFKA_BATCH_HANDLER_MANIFEST") y) as (x & y & Ex & Ey).
  { revert Hb. unfold unprefixed. destruct (String.eqb path ""); [intros [= <-]; eexists _, _; split; reflexivity|].
    destruct (read path); [|done]. destruct (yaml _); [|done]. intros [= <-]. eexists _, _. split; reflexivity. }
  split; [rewrite Ex; apply env_trim_idem|]. split; [rewrite Ey; apply or_text_idem|].
  intros Hp. pose proof (prefixTopics_topics b Hp) as Ht. unfold topics_of in Ht. cbn [fmap list_fmap app] in Ht.
  injection Ht as _ _ _ _ _ E1 _ _ E2 _. rewrite E1, E2. split; apply prefixName_prefixed.
Qed.

(** ** The client *)

(** A client that comes about: its settings, its handlers. *)
Lemma New_inv `{NumText} lookup readFile yaml (sv : servers) (cfg s : Settings) (c : Client) (tp : TenantPartitions) (w w' : world) :
  New lookup readFile yaml sv cfg w = (w', Ok (s, c, tp)) ->
  exists m, s = with_ttls (ApplyEnv lookup cfg) /\ cl_cfg c = cs_Produce s /\ cl_manifest c = list_to_map m
    /\ LoadManifest readFile yaml (cs_ManifestPath s) (TopicPrefix (cs_Produce s)) = (m, None) /\ validateManifest s m = true.
Proof.
  unfold New. set (s0 := with_ttls _). case_bool_decide; [done|]. destruct (String.eqb (cs_RedisURL s0) ""); [done|].
  destruct (LoadManifest _ _ _ _) as [m [e|]] eqn:El; [done|]. destruct (sv_redis_url sv _); [done|].
  destruct (openScheduleIndex _ _) as [index|e]; [|done]. destruct (validateManifest s0 m) eqn:Ev; cbn [negb]; [|done].
  destruct (sv_ping sv); [done|]. destruct (sv_kafka sv _); [done|].
  set (warm := if cs_FairnessDynamicTenantPartitions s0 then _ else _). unfold mbind at 1, io_bind at 1.
  destruct (warm w) as [w1 r]. unfold mret, io_ret.
  destruct (if cs_ValidateTopicsOnConnect s0 then _ else _); [done|]. intros [= <- <- <- <-]. exists m. by repeat split.
Qed.

Lemma resolveTopic_prefixed (p : Enqueue.Config) (t : string) :
  TopicPrefix p = "" \/ HasPrefix t (TopicPrefix p +:+ ".") = true -> Enqueue.resolveTopic p t = t.
Proof.
  unfold Enqueue.resolveTopic, HasPrefix. intros [->|E]; [done|]. rewrite E. by destruct (_ || _).
Qed.

(** The topic of a route depends on the handler and the settings alone. *)
Definition route_topic (cfg : Enqueue.Config) (h : HandlerEntry) : string :=
  let lane := HE_FairnessType h in
  if String.eqb lane "" then topic_of (Enqueue.defaultJobsTopic cfg) h
  else if String.eqb lane "time" then Enqueue.resolveTopic cfg (FairnessTimeIngest cfg)
  else if String.eqb lane "throughput" then Enqueue.resolveTopic cfg (FairnessThroughputIngest cfg)
  else Enqueue.defaultJobsTopic cfg.

Lemma routeFor_topic `{NumText} (c : Client) (now : Z) (h : HandlerEntry) (job tenant : string) (batch : option string) (w : cworld) :
  cr_Topic (Enqueue.routeFor c now h job tenant batch w).2 = route_topic (cl_cfg c) h.
Proof.
  unfold Enqueue.routeFor, route_topic, topic_of, or_text. destruct (String.eqb (HE_FairnessType h) "") eqn:E.
  { unfold mret, cio_ret. cbn. by destruct (String.eqb (HE_Topic h) ""). }
  destruct (String.eqb tenant ""); [done|]. destruct (FairnessTenantPartitions (cl_cfg c) !! tenant); [done|].
  unfold mbind, cio_bind. destruct (resolve_tenant _ _ _ _) as [w' [p|]]; done.
Qed.

(** The client of the recurring scheduler of a daemon with a configuration of its own. *)
Lemma recurring_client `{NumText} (host : string) lookup readFile yaml yamlManifest (path : string) (cfg : Daemon) (m : Manifest)
    (sv : servers) (s : Settings) (c : Client) (tp : TenantPartitions) (w w' : world) :
  load_both host lookup readFile yaml yamlManifest path "" = inr (cfg, m) ->
  New lookup readFile yamlManifest sv (ConfigFromDaemon cfg) w = (w', Ok (s, c, tp)) ->
  cl_cfg c = cs_Produce (ConfigFromDaemon cfg) /\ cl_manifest c = list_to_map m
  /\ (D_TopicPrefix cfg = "" \/ HasPrefix (D_FairnessTimeIngest cfg) (D_TopicPrefix cfg +:+ ".") = true
        /\ HasPrefix (D_FairnessThroughputIngest cfg) (D_TopicPrefix cfg +:+ ".") = true).
Proof.
  unfold load_both. destruct (LoadDaemon host lookup readFile yaml path) as [cfg0 [e|]] eqn:El; [done|]. cbn [String.eqb].
  destruct (LoadManifest readFile yamlManifest _ _) as [m0 [e|]] eqn:Em; [done|]. intros [= <- <-] Hn.
  destruct (loaded_environment _ _ _ _ _ _ El) as (Ep & Eh & Ht).
  destruct (New_inv _ _ _ _ _ _ _ _ _ _ Hn) as (m' & -> & Ec & Ecm & Elm & _).
  assert (cs_Produce (ApplyEnv lookup (ConfigFromDaemon cfg0)) = cs_Produce (ConfigFromDaemon cfg0)) as Es.
  { unfold ApplyEnv. cbn [cs_Produce]. change (TopicPrefix (cs_Produce (ConfigFromDaemon cfg0))) with (D_TopicPrefix cfg0). by rewrite Ep. }
  split; [exact (eq_trans Ec Es)|]. split.
  - assert (m' = m0) as ->; [|done]. change (cs_ManifestPath (with_ttls (ApplyEnv lookup (ConfigFromDaemon cfg0))))
      with (or_text (Getenv lookup "KAFKA_BATCH_HANDLER_MANIFEST") (D_HandlerManifest cfg0)) in Elm.
    change (cs_Produce (with_ttls (ApplyEnv lookup (ConfigFromDaemon cfg0)))) with (cs_Produce (ApplyEnv lookup (ConfigFromDaemon cfg0))) in Elm.
    rewrite Eh, Es in Elm. change (TopicPrefix (cs_Produce (ConfigFromDaemon cfg0))) with (D_TopicPrefix cfg0) in Elm. congruence.
  - destruct (String.eqb_spec (D_TopicPrefix cfg0) "") as [E|E]; [by left|right; by apply Ht].
Qed.

Lemma prefix_of_jobs (p : string) : HasPrefix "kafka_batch.jobs" (p +:+ ".") = true -> p = "kafka_batch".
Proof.
  intros [rest E]%prefix_exact. do 16 (destruct p as [|c p]; [by cbn in E|]; cbn in E; injection E as <- E; try done).
  destruct p; cbn in E; discriminate.
Qed.

(** The default topic of the client is the worker's. *)
Lemma default_topic_shared (cfg : Daemon) : D_JobsTopics cfg = [] -> D_TopicPrefix cfg <> "kafka_batch" ->
  Enqueue.defaultJobsTopic (cs_Produce (ConfigFromDaemon cfg)) = Boot.defaultJobsTopic cfg.
Proof.
  intros Hj Hp. unfold Enqueue.defaultJobsTopic, Enqueue.resolveTopic, Boot.defaultJobsTopic.
  cbn [cs_Produce ConfigFromDaemon JobsTopic TopicPrefix]. rewrite Hj. cbn [head default from_option].
  change (JobsTopic (cs_Produce DefaultConfig)) with "kafka_batch.jobs".
  destruct (String.eqb (D_TopicPrefix cfg) ""); [done|]. cbn [orb String.eqb].
  destruct (String.prefix (D_TopicPrefix cfg +:+ ".") "kafka_batch.jobs") eqn:E; [by apply prefix_of_jobs in E|done].
Qed.

(** C40: What the recurring scheduler enqueues is consumed.  A daemon that loads its
    configuration and manifest, with the path of the manifest from the
    configuration, gives its client the same handlers.  A job of a Go handler
    without a lane is written, whatever its tenant, batch and the state of the
    world, to a topic the worker of the same configuration consumes, if the handler
    names its topic or the configuration names neither other default topics nor the
    prefix of the default topic itself; with fairness on, a job of a fair lane that
    has an ingest topic is written to the topic the daemon's dispatcher consumes. *)
Theorem recurring_jobs_consumed `{NumText} (host : string) lookup readFile yaml yamlManifest (path : string) (cfg : Daemon) (m : Manifest)
    (registered : string -> bool) (read read' : string -> file_read) (p : worker_plan) (r : daemon_run)
    (sv : servers) (s : Settings) (c : Client) (tp : TenantPartitions) (w w' : world) (t : string) (h : HandlerEntry) :
  load_both host lookup readFile yaml yamlManifest path "" = inr (cfg, m) ->
  plan_worker cfg m registered read = inr p -> run_daemon cfg m read' = inr r ->
  New lookup readFile yamlManifest sv (ConfigFromDaemon cfg) w = (w', Ok (s, c, tp)) ->
  NoDup m.*1 -> (t, h) ∈ m -> runtime_of h = RuntimeGo ->
  lookupHandler c t = inl h
  /\ forall (now : Z) (job tenant : string) (batch : option string) (cw : cworld),
       let topic := cr_Topic (Enqueue.routeFor c now h job tenant batch cw).2 in
       (HE_FairnessType h = "" -> TrimSpace topic = topic ->
          HE_Topic h <> "" \/ (D_JobsTopics cfg = [] /\ D_TopicPrefix cfg <> "kafka_batch") -> consumed (start_worker cfg p) topic)
       /\ (D_FairnessEnabled cfg = true -> HE_FairnessType h = "time" -> D_FairnessTimeIngest cfg <> "" ->
             consumed (dr_consumers r) topic)
       /\ (D_FairnessEnabled cfg = true -> HE_FairnessType h = "throughput" -> D_FairnessThroughputIngest cfg <> "" ->
             consumed (dr_consumers r) topic).
Proof.
  intros Hl Hp [d Hd]%run_daemon_inv Hn Hnd Hin Hr. destruct (recurring_client _ _ _ _ _ _ _ _ _ _ _ _ _ _ Hl Hn) as (Ec & Em & Ht).
  split. { unfold lookupHandler. rewrite Em. by rewrite (elem_of_list_to_map_1 m t h). }
  intros now job tenant batch cw topic. unfold topic. rewrite routeFor_topic, Ec. clear topic. unfold route_topic. split_and!.
  - intros E Hs Ho. rewrite E in Hs |- *. cbn [String.eqb] in *.
    assert (topic_of (Enqueue.defaultJobsTopic (cs_Produce (ConfigFromDaemon cfg))) h = topic_of (Boot.defaultJobsTopic cfg) h) as Eq.
    { unfold topic_of, or_text. destruct (String.eqb_spec (HE_Topic h) "") as [Et|]; [|done].
      destruct Ho as [?|[Hj Hk]]; [done|]. by apply default_topic_shared. }
    rewrite Eq in Hs |- *. apply (plain_job_consumed cfg m registered read p (t, h)); try done. cbn. unfold plain. by rewrite E.
  - intros Hf E Hi. rewrite E. cbn [String.eqb Ascii.eqb Bool.eqb]. apply (consumed_daemon cfg d _ r Hd). right; right; right. split; [done|]. left.
    rewrite resolveTopic_prefixed; cbn [cs_Produce ConfigFromDaemon FairnessTimeIngest TopicPrefix]; unfold or_text;
      rewrite (proj2 (String.eqb_neq _ _) Hi); [done|]. tauto.
  - intros Hf E Hi. rewrite E. cbn [String.eqb Ascii.eqb Bool.eqb]. apply (consumed_daemon cfg d _ r Hd). right; right; right. split; [done|]. right.
    rewrite resolveTopic_prefixed; cbn [cs_Produce ConfigFromDaemon FairnessThroughputIngest TopicPrefix]; unfold or_text;
      rewrite (proj2 (String.eqb_neq _ _) Hi); [done|]. tauto.
Qed.

(** A deployment with a prefix and a manifest from the environment. *)
Definition shop_env (k : string) : option string :=
  if String.eqb k "KAFKA_PREFIX" then Some "shop" else if String.eqb k "KAFKA_BATCH_HANDLER_MANIFEST" then Some "handlers.yml" else None.
Definition shop_manifest : Manifest := [("mail", go_handler "")].
Definition shop_cfg : Daemon :=
  (LoadDaemon "h" shop_env (fun _ => Ok "") (fun _ => Ok empty_doc) "daemon.yml").1.
Definition shop_servers : servers :=
  mkServers (fun _ => None) (fun _ => None) None (fun _ => None) (Ok ∅) (fun _ => Bad networkError).
Definition no_priorities (_ : string) : file_read := FileMissing.

Definition shop_plan : worker_plan := mkPlan ["shop.kafka_batch.jobs"] [] [] false.
Definition shop_run : daemon_run :=
  mkDaemonRun [events_consumer shop_cfg; retry_consumer shop_cfg; callbacks_consumer shop_cfg]
    ["reconciler"; "alerts"; "workset-reclaim"] [] "shop.kafka_batch.jobs".
Definition shop_client : Client :=
  mkClient (cs_Produce (ConfigFromDaemon shop_cfg)) (list_to_map shop_manifest) (Some (NewRedisStore (sec (7 * 86400)))) redisScheduleIndex
    (Some (sec (7 * 86400))) (buildWorkerIndex (cs_Produce (ConfigFromDaemon shop_cfg)) shop_manifest).

Lemma recurring_jobs_consumed_witness :
  lookupHandler shop_client "mail" = inl (go_handler "")
  /\ forall now job tenant batch cw,
       consumed (start_worker shop_cfg shop_plan) (cr_Topic (Enqueue.routeFor shop_client now (go_handler "") job tenant batch cw).2).
Proof.
  destruct (recurring_jobs_consumed "h" shop_env (fun _ => Ok "") (fun _ => Ok empty_doc) (fun _ => Ok shop_manifest) "daemon.yml"
    shop_cfg shop_manifest (fun _ => true) no_priorities no_priorities shop_plan shop_run shop_servers
    (with_ttls (ApplyEnv shop_env (ConfigFromDaemon shop_cfg))) shop_client
    (NewTenantPartitions ∅ true (sec 30)) (World empty_redis []) (World empty_redis []) "mail" (go_handler "")) as [H1 H2].
  - vm_compute. reflexivity.
  - vm_compute. reflexivity.
  - vm_compute. reflexivity.
  - vm_compute. reflexivity.
  - apply NoDup_singleton.
  - set_solver.
  - reflexivity.
  - split; [exact H1|]. intros now job tenant batch cw. apply (H2 now job tenant batch cw).
    + reflexivity.
    + rewrite routeFor_topic. vm_compute. reflexivity.
    + right. split; [vm_compute; reflexivity|vm_compute; discriminate].
Defined.

(** ** Where the settings part *)

Lemma not_consumed (cs : list consumer) (t : string) : bool_decide (t ∈ mjoin (cn_topics <$> cs)) = false -> ~ consumed cs t.
Proof.
  intros Hb%bool_decide_eq_false (c & Hc & Ht). apply Hb, list_elem_of_join. exists (cn_topics c). split; [done|]. by apply list_elem_of_fmap_2.
Qed.

(** A daemon and its worker run, and a job of the handler goes to a topic neither
    of them reads. *)
Definition goes_unread `{NumText} (cfg : Daemon) (m : Manifest) (h : HandlerEntry) (topic : string) : Prop :=
  exists p r, plan_worker cfg m (fun _ => true) no_priorities = inr p /\ run_daemon cfg m no_priorities = inr r
    /\ ~ consumed (start_worker cfg p) topic /\ ~ consumed (dr_consumers r) topic
    /\ forall c now job tenant batch cw, cl_cfg c = cs_Produce (ConfigFromDaemon cfg) ->
         cr_Topic (Enqueue.routeFor c now h job tenant batch cw).2 = topic.

Ltac goes_unread_by_computation :=
  eexists _, _; split; [vm_compute; reflexivity|]; split; [vm_compute; reflexivity|];
  split; [apply not_consumed; vm_compute; reflexivity|]; split; [apply not_consumed; vm_compute; reflexivity|];
  intros c now job tenant batch cw Ec; rewrite routeFor_topic, Ec; vm_compute; reflexivity.

(** The client's default topic is the first of jobs_topics; the worker's is always
    kafka_batch.jobs under the prefix, and of jobs_topics it reads those of a Go
    handler only. *)
Theorem recurring_default_unread `{NumText} :
  goes_unread (DefaultDaemon "h" <| D_JobsTopics := ["orders"] |>) [("mail", go_handler "")] (go_handler "") "orders".
Proof. goes_unread_by_computation. Qed.

(** With the prefix kafka_batch the client takes kafka_batch.jobs for prefixed; the
    worker reads kafka_batch.kafka_batch.jobs. *)
Theorem prefix_of_default_unread `{NumText} :
  goes_unread (prefixTopics (DefaultDaemon "h" <| D_TopicPrefix := "kafka_batch" |>)) [("mail", go_handler "")] (go_handler "") "kafka_batch.jobs".
Proof. goes_unread_by_computation. Qed.

(** With fairness off, a job of a lane goes to the ingest topic, which only the
    dispatcher of a daemon with fairness on reads. *)
Theorem lane_unread_without_fairness `{NumText} :
  let h := mkHandlerEntry "go" "" "" false 0 "" "time" false in
  goes_unread (DefaultDaemon "h") [("mail", h); ("post", go_handler "")] h (D_FairnessTimeIngest (DefaultDaemon "h")).
Proof. goes_unread_by_computation. Qed.

(** A manifest named on the command line holds for the daemon alone: its client
    reads the one the environment names. *)
Theorem manifest_argument_ignored (lookup : string -> option string) (cfg : Daemon) (argument env : string) :
  env <> "" -> lookup "KAFKA_BATCH_HANDLER_MANIFEST" = Some env ->
  cs_ManifestPath (ApplyEnv lookup (ConfigFromDaemon (cfg <| D_HandlerManifest := argument |>))) = env.
Proof.
  intros He Hl. change (or_text (Getenv lookup "KAFKA_BATCH_HANDLER_MANIFEST") argument = env). unfold or_text, Getenv. rewrite Hl.
  simpl. apply String.eqb_neq in He. by rewrite He.
Qed.

(** ** Topics *)

(** After the topics were created without a failure, the check for missing ones
    passes. *)
Theorem ensured_topics_valid (c : Settings) (m : Manifest) (existing now : gset string) (create : Spec -> error) :
  let r := EnsureTopics c m existing create in
  rs_Failed r = [] -> (forall t, t ∈ rs_Created r ++ rs_Skipped r -> t ∈ now) -> ValidateTopics c m (Ok now) = None.
Proof.
  intros r Hf Hnow. unfold ValidateTopics. assert (Missing now (TopicSpecs c m) = []) as ->; [|done].
  pose proof (CreateAll_reports existing create (TopicSpecs c m)) as Hp. cbv zeta in Hp. fold (EnsureTopics c m existing create) in Hp. fold r in Hp.
  unfold Missing. destruct (filter _ _) as [|t l] eqn:E; [done|]. exfalso.
  assert (t ∈ filter (fun n => n ∉ now) (sp_Name <$> TopicSpecs c m)) as [Hn Ht]%list_elem_of_filter by (rewrite E; by left).
  rewrite <- Hp, Hf, app_nil_r in Ht. by apply Hn, Hnow.
Qed.
