(* ===== verification/Process.v ===== *)
(** Small parts of a process: the sample of its memory and processor time
    (pkg/liveness/process_stats.go), the choice of a record's partition and the
    producer's options (pkg/kafkaclient), the probe of pkg/health, and the
    cancellation of a poll (pkg/daemon/poll_abort.go).

    The files of the operating system and the output of ps are arguments, as is
    the partitioner of franz-go. *)
From S2P Require Import Prelude Cron Redis Client Kafka Protocol Fairness Control Enqueue Job DaemonConfig.

(** ** The sample of the process *)

Definition defaultStatsInterval : Z := sec 15.

(** [sm_lastWall]: none before the first reading. *)
Record processSampler := mkSampler {
  sm_interval : Z; sm_cache : option object; sm_sampled : Z; sm_lastWall : option Z; sm_lastCPU : Z
}.

Definition newProcessSampler (interval : Z) : processSampler :=
  mkSampler (or_default interval defaultStatsInterval) None 0 None 0.

(** The share of a processor since the last reading, in percent. *)
Definition readCPUPercent (s : processSampler) (now : Z) (cpu : option Z) : processSampler * option Q :=
  match cpu with
  | None => (s, None)
  | Some cpu =>
      (mkSampler (sm_interval s) (sm_cache s) (sm_sampled s) (Some now) cpu,
       match sm_lastWall s with
       | None => None
       | Some prev =>
           if now - prev <=? 0 then None
           else if cpu - sm_lastCPU s <? 0 then None
           else Some (inject_Z (cpu - sm_lastCPU s) / inject_Z (now - prev) * 100)%Q
       end)
  end.

(** One decimal place. *)
Definition one_decimal (q : Q) : Q := (inject_Z (truncate (q * 10 + (1 # 2))) / 10)%Q.

(** What a reading is made of. *)
Definition reading (rss : Z) (pct : option Q) : object :=
  let out : object := if 0 <? rss then {["rss_bytes" := JNum (inject_Z rss)]} else ∅ in
  match pct with Some q => <["cpu_pct" := JNum (one_decimal q)]> out | None => out end.

Definition sample (s : processSampler) (now rss : Z) (cpu : option Z) : processSampler * object :=
  let fresh :=
    let '(s', pct) := readCPUPercent s now cpu in
    (mkSampler (sm_interval s') (Some (reading rss pct)) now (sm_lastWall s') (sm_lastCPU s'), reading rss pct) in
  match sm_cache s with
  | Some cached => if now - sm_sampled s <? sm_interval s then (s, cached) else fresh
  | None => fresh
  end.

(** The text of /proc/self/status; 0 when it says nothing. *)
Definition readLinuxRSS (status : string) : Z :=
  match find (fun line => HasPrefix line "VmRSS:") (Split 10 status) with
  | None => 0
  | Some line => match Fields line with
                 | _ :: kb :: _ => match Atoi kb with Some kb => kb * 1024 | None => 0 end
                 | _ => 0
                 end
  end.

(** What ps prints. *)
Definition readDarwinRSS (out : result string) : Z :=
  match out with
  | Bad _ => 0
  | Ok out => match Atoi (TrimSpace out) with Some kb => if kb <=? 0 then 0 else kb * 1024 | None => 0 end
  end.

(** The text after the last closing parenthesis. *)
Fixpoint after_last_paren (s : string) : option string :=
  match s with
  | EmptyString => None
  | String c s => match after_last_paren s with
                  | Some r => Some r
                  | None => if is_char 41 c then Some s else None
                  end
  end.

(** The text of /proc/self/stat, in ticks of a hundredth of a second. *)
Definition readLinuxCPUTime (stat : string) : option Z :=
  match after_last_paren stat with
  | Some (String _ (String c rest)) =>
      let fields := Fields (String c rest) in
      match fields !! 11%nat, fields !! 12%nat with
      | Some u, Some s => match Atoi u, Atoi s with
                          | Some u, Some s => Some ((u + s) * 10000000)
                          | _, _ => None
                          end
      | _, _ => None
      end
  | _ => None
  end.

(** The times of ps: minutes and seconds, or hours too. *)
Definition parsePSTime `{NumText} (s : string) : result Z :=
  let time h m sec := Ok (truncate ((inject_Z (h * 3600 + m * 60) + sec) * 1000000000)%Q) in
  let bad := "invalid syntax" in
  match Split 58 s with
  | [m; sec] => match Atoi m with
                | None => Bad bad
                | Some m => match parse_float sec with Bad e => Bad e | Ok sec => time 0 m sec end
                end
  | [h; m; sec] => match Atoi h, Atoi m with
                   | Some h, Some m => match parse_float sec with Bad e => Bad e | Ok sec => time h m sec end
                   | _, _ => Bad bad
                   end
  | _ => Bad ("bad time " +:+ s)
  end.

(** ** The producer *)

Inductive Acks := AllISRAcks | LeaderAck | NoAck.

Definition RequiredAcksFromConfig (v : string) : Acks * error :=
  let s := ToLower (TrimSpace v) in
  if String.eqb s "" || String.eqb s "all_isr" || String.eqb s "all" || String.eqb s "all_isr_acks" then (AllISRAcks, None)
  else if String.eqb s "leader" || String.eqb s "leader_ack" then (LeaderAck, None)
  else (NoAck, Some ("unsupported producer_required_acks " +:+ v +:+ " (use all_isr or leader)")).

(** A record as the partitioner sees it; a negative partition asks for its key's. *)
Record record := mkRecord { rc_Key : string; rc_Partition : Z }.

(** The record of ProducePartition. *)
Definition partition_record (key : string) (partition : Z) : record :=
  mkRecord key (if 0 <=? partition then partition else -1).

Section partitioner.
Context (fallback : record -> Z -> Z) (consistent : record -> bool).

Definition RequiresConsistency (r : record) : bool := (0 <=? rc_Partition r) || consistent r.
Definition Partition (r : record) (n : Z) : Z :=
  if (0 <=? rc_Partition r) && (rc_Partition r <? n) then rc_Partition r else fallback r n.
End partitioner.

(** ** The probe *)

(** [checked]: what the checker says, if there is one. *)
Definition handleProbe (process : string) (checked : option (bool * string)) : Z * object :=
  let '(ok, detail) := default (true, "") checked in
  (if ok then 200 else 503,
   <["ok" := JBool ok]> (<["process" := JStr process]> (<["detail" := JStr detail]> ∅))).

(** ** The cancellation of a poll *)

(** Contexts are numbers; [pa_cancel] is that of the poll under way. *)
Record pollAbortController := mkAbort { pa_cancel : option nat; pa_cancelled : gset nat }.

Definition begin_poll (a : pollAbortController) (ctx : nat) : pollAbortController := mkAbort (Some ctx) (pa_cancelled a).
Definition end_poll (a : pollAbortController) (ctx : nat) : pollAbortController := mkAbort None ({[ctx]} ∪ pa_cancelled a).
Definition trigger (a : pollAbortController) : pollAbortController :=
  match pa_cancel a with None => a | Some ctx => mkAbort (pa_cancel a) ({[ctx]} ∪ pa_cancelled a) end.
