(* ===== verification/ProcessProps.v ===== *)
(** The properties of the small parts: readings of the process are throttled and
    survive any name of the program, tenants' records keep their partition, and
    only the poll under way is cancelled. *)
From S2P Require Import Prelude Cron Redis Client Kafka Protocol Fairness Control Enqueue Job DaemonConfig Process.

(** ** The sample *)

(** Whether the system is asked. *)
Definition due (s : processSampler) (now : Z) : bool :=
  match sm_cache s with Some _ => sm_interval s <=? now - sm_sampled s | None => true end.

(** The instants of a run of samples at which the system was asked. *)
Fixpoint readings (s : processSampler) (l : list (Z * Z * option Z)) : list Z :=
  match l with
  | [] => []
  | (now, rss, cpu) :: l => (if due s now then [now] else []) ++ readings (sample s now rss cpu).1 l
  end.

Lemma sample_not_due (s : processSampler) (now rss : Z) (cpu : option Z) : due s now = false ->
  exists out, sm_cache s = Some out /\ sample s now rss cpu = (s, out).
Proof.
  unfold due, sample. destruct (sm_cache s) as [out|]; [|done]. intros E%Z.leb_gt. exists out. split; [done|].
  destruct (Z.ltb_spec (now - sm_sampled s) (sm_interval s)); [done|lia].
Qed.

Lemma sample_due (s : processSampler) (now rss : Z) (cpu : option Z) : due s now = true ->
  let s' := (sample s now rss cpu).1 in
  sm_cache s' = Some (sample s now rss cpu).2 /\ sm_sampled s' = now /\ sm_interval s' = sm_interval s.
Proof.
  unfold due, sample. intros E.
  assert (sm_interval (readCPUPercent s now cpu).1 = sm_interval s) as Ei by (unfold readCPUPercent; by destruct cpu).
  destruct (readCPUPercent s now cpu) as [s' pct]. cbn in Ei. destruct (sm_cache s); [|done].
  apply Z.leb_le in E. destruct (Z.ltb_spec (now - sm_sampled s) (sm_interval s)); [lia|done].
Qed.

(** However often heartbeats ask for a sample, the system is asked at most once in
    an interval; in between the last reading is repeated. *)
Theorem readings_apart (s : processSampler) (l : list (Z * Z * option Z)) :
  Sorted (fun a b => a + sm_interval s <= b) (readings s l)
  /\ (is_Some (sm_cache s) -> forall t, head (readings s l) = Some t -> sm_sampled s + sm_interval s <= t).
Proof.
  revert s. induction l as [|[[now rss] cpu] l IH]; intros s; [split; [constructor|done]|]. cbn [readings].
  destruct (due s now) eqn:E.
  - destruct (sample_due s now rss cpu E) as (Hc & Hs & Hi). destruct (IH (sample s now rss cpu).1) as [H1 H2]. rewrite Hi in H1, H2.
    rewrite Hs in H2. cbn [app]. split.
    + constructor; [done|]. destruct (readings _ l) as [|t ts]; [constructor|]. constructor. apply H2; [by rewrite Hc|done].
    + intros [out Ho] t [= <-]. unfold due in E. rewrite Ho in E. apply Z.leb_le in E. lia.
  - destruct (sample_not_due s now rss cpu E) as (out & _ & ->). apply IH.
Qed.

(** ** Processor time *)

Lemma after_last_paren_app (a b : string) : after_last_paren b = None -> after_last_paren (a +:+ ")" +:+ b) = Some b.
Proof.
  intros Hb. induction a as [|c a IH].
  - change (match after_last_paren b with Some r => Some r | None => Some b end = Some b). by rewrite Hb.
  - change (match after_last_paren (a +:+ ")" +:+ b) with Some r => Some r | None => if is_char 41 c then Some (a +:+ ")" +:+ b) else None end = Some b).
    by rewrite IH.
Qed.

(** The name of the program, which stands in parentheses before the numbers and may
    hold blanks and parentheses itself, does not change the reading. *)
Theorem cpu_time_any_name (before before' rest : string) : after_last_paren rest = None ->
  readLinuxCPUTime (before +:+ ")" +:+ rest) = readLinuxCPUTime (before' +:+ ")" +:+ rest).
Proof. intros Hr. unfold readLinuxCPUTime. by rewrite !after_last_paren_app. Qed.

Lemma cpu_time_example :
  readLinuxCPUTime "7 (a) b (c) S 1 7 7 0 -1 4194304 1 0 0 0 150 50 0 0 20 0" = Some 2000000000.
Proof. reflexivity. Qed.

(** ** Partitions *)

(** A tenant's record goes to the tenant's partition while the topic has it, and a
    record that asks for none goes where the fallback sends its key. *)
Theorem partition_kept (fallback : record -> Z -> Z) (key : string) (p n : Z) :
  Partition fallback (partition_record key p) n = if (0 <=? p) && (p <? n) then p else fallback (mkRecord key (Z.max p (-1))) n.
Proof.
  unfold Partition, partition_record. cbn. destruct (Z.leb_spec 0 p); cbn.
  - rewrite (proj2 (Z.leb_le 0 p)) by lia. cbn. by rewrite Z.max_l by lia.
  - by rewrite Z.max_r by lia.
Qed.

(** ** Polls *)

(** Polls of one loop follow each other; a rebalance may interrupt at any time. *)
Inductive abort_event := Begin | End | Trigger.

(** The controller and the number of the next poll; a loop ends the poll it began. *)
Definition abort_step (st : pollAbortController * nat) (e : abort_event) : pollAbortController * nat :=
  match e with
  | Begin => (begin_poll st.1 st.2, S st.2)
  | End => match pa_cancel st.1 with Some ctx => (end_poll st.1 ctx, st.2) | None => st end
  | Trigger => (trigger st.1, st.2)
  end.

(** A rebalance cancels the poll under way and no poll to come: a new poll starts
    with a context that is not cancelled. *)
Theorem abort_hits_current (es : list abort_event) :
  let st := foldl abort_step (mkAbort None ∅, O) es in
  (forall ctx, ctx ∈ pa_cancelled st.1 -> (ctx < st.2)%nat)
  /\ (forall ctx, pa_cancel st.1 = Some ctx -> (ctx < st.2)%nat /\ ctx ∈ pa_cancelled (trigger st.1)).
Proof.
  induction es as [|e es IH] using rev_ind; [cbn; split; [set_solver|done]|]. rewrite foldl_snoc. cbv zeta in IH |- *.
  destruct (foldl abort_step (mkAbort None ∅, O) es) as [a n]. cbn [fst snd] in IH. destruct IH as [H1 H2].
  destruct e; cbn.
  - split; [intros ctx Hc; specialize (H1 ctx Hc); lia|]. intros ctx [= <-]. split; [lia|set_solver].
  - destruct (pa_cancel a) as [c|] eqn:Ec; cbn; [|by rewrite Ec]. split; [|done].
    intros ctx [->%elem_of_singleton|Hc]%elem_of_union; [by apply H2|by apply H1].
  - unfold trigger in *. destruct (pa_cancel a) as [c|] eqn:Ec; cbn in *; [|by rewrite Ec]. destruct (H2 c eq_refl) as [Hlt _]. split.
    + intros ctx [->%elem_of_singleton|Hc]%elem_of_union; [done|by apply H1].
    + intros ctx [= <-]. split; [done|]. set_solver.
Qed.
